(* ===== verification/_CoqProject ===== *)
-Q . S2P
Prelude.v
Text.v
Json.v
Events.v
Runtime.v
Render.v
FileTouches.v
Reducer.v
ReducerSpec.v
ReducerInv.v
ReducerSim.v
Store.v
Projection.v
Commit.v
Sessions.v
Guarantees.v
Usage.v
CodexUsage.v
ClaudeUsage.v
UsageGuarantees.v
ModelSwitch.v
ModelGuard.v
ModelGuarantees.v
Ingester.v
IngesterSpec.v
IngesterGuarantees.v
Plans.v
PlanInv.v
PlanOps.v
PlanViews.v
Flow.v
FlowReplay.v
PlanGuarantees.v
UsageReport.v
CodeMode.v
Tools.v
Canonical.v
PatchText.v
CanonicalInv.v
ToolsTotal.v
Lineage.v
Metadata.v
Activity.v
EventStore.v
LineageInv.v
RepairInv.v
TranscriptGuarantees.v
Submitted.v
SubmittedInv.v
Library.v
LibraryInv.v
PromptGuarantees.v
PlanCli.v
CliSpec.v
NodeWire.v
Reassembly.v
NodeLan.v
NodeTrust.v
NodeClient.v
PtySessions.v
NodeStore.v
NodeControl.v
NodeGuarantees.v
NodeControlInv.v
NodeClientInv.v
PtySessionsInv.v
NodeExample.v
TrustGuarantees.v
SessionGuarantees.v
ArchiveObjects.v
Archive.v
ArchiveInv.v
ArchiveExample.v
ArchiveGuarantees.v
ArchiveLoop.v
Auth.v
SecretBroker.v
SecretRedeem.v
SecretBrokerInv.v
SecretGuarantees.v
