(* ===== verification/Prelude.v ===== *)
(** * Sulion: the verified core of the backend

    Sulion runs coding agents in terminals and shows their work. The backend
    ([src/backend/src]) tails the agents' JSONL transcripts into an [events]
    table and derives from it, incrementally, everything else a reader sees.
    This development models those derivations and proves that what they store
    is what the events say, however ingestion is cut, interrupted and rebuilt.

    ** The program's parts and the files that model them

    A transcript line is parsed into a canonical event and becomes a row of
    [events] with its blocks ([ingest/canonical], [ingest/ingester/insert.rs]).
    In the same transaction it updates the token accounting and the session's
    metadata; after it, the model guard and the activity of its terminal.
    Batches of events are then folded into the timeline.

    - Values: [Json] is [serde_json::Value]; [Text] the string operations of
      [str]; [Events] the canonical event ([ingest/canonical/types.rs],
      [ingest/timeline/types.rs], [ingest/timeline/events.rs]).
    - The timeline reducer, [ingest/timeline]: [Runtime] ([runtime.rs])
      folds runtime evidence into calls; [Render] ([render.rs],
      [agent_messages.rs]) makes the items and the digest; [FileTouches]
      ([file_touches.rs], [workspace.rs]) the files a call names; [Reducer]
      ([reduce.rs], [reduce/operations.rs]) is the state machine, over the
      [Backend] interface by which it reads earlier rows.
    - Its specification: [ReducerSpec] is an abstract step on whole
      timelines, with no cache, no query and no failure. [ReducerInv] states
      what a backend must answer ([BackendLaws]) and the well-formedness of
      timelines; [ReducerSim] is the simulation.
    - Storage, [ingest/projection]: [Store] is the tables and the queries of
      [PgBackend] ([store.rs]); [Projection] the writer, the batch
      transaction, catch-up and rebuild ([write.rs], [projection.rs],
      [timeline/load.rs]); [Commit] their specifications, of one batch and of many;
      [Sessions] the histories of a session as a step relation, and a
      concrete session; [Guarantees] the properties.
    - Token accounting, [ingest/usage.rs], [ingest/usage]: [Usage] the
      statements and the in-memory replay; [CodexUsage] the simulation
      between live rows and replay; [ClaudeUsage] the accounting by last
      receipts; [UsageGuarantees] the properties.
    - Model switches, [model_switches.rs]: [ModelSwitch] the operations;
      [ModelGuard] the automaton and the invariant; [ModelGuarantees] the
      properties.
    - Reading transcripts, [ingest/ingester.rs], [ingest/tail.rs],
      [ingest/file_scan.rs]: [Ingester] one pass over a file and the
      projection queue; [IngesterSpec] the lines of a file and the histories
      of passes, crashes and appends; [IngesterGuarantees] the properties.
    - Canonical events, [ingest/canonical]: [CodeMode] ([code_mode.rs]) reads
      the calls of a JavaScript program and the executable of a command;
      [Tools] ([tools.rs]) names, inputs and results of tools and patches;
      [Canonical] ([claude.rs], [claude_text.rs], [codex.rs], [types.rs]) the
      parsers. [PatchText] is the grammar of patches, [CanonicalInv] the shape
      of parsed blocks and the rules of pasted text, [ToolsTotal] fuel and
      totality.
    - Stored events, [ingest/ingester/insert.rs], [replay.rs],
      [codex_lineage.rs], [canonical_backfill.rs], [ingest/metadata.rs]:
      [Lineage] the session, parent and turn of a record; [Metadata] what it
      says of its session; [EventStore] inserting a record with the rows
      derived from it, replaying, rewriting, and reading blocks back
      ([timeline/load.rs]). [LineageInv] follows the context over the rows,
      [RepairInv] compares insertion and rewriting, and reads back.
    - Activity, [activity.rs], [ingest/activity_projection.rs]: [Activity]
      the reports, the transitions, the repair, and the report that stands.
      [TranscriptGuarantees] holds concrete records and the
      properties of these three parts.
    - Published plans, [plans.rs], [plans]: [Plans] the tables and every
      transaction on them; [PlanInv] the invariant; [PlanOps] what each
      operation does to it, the histories as a step relation and the order
      of phases; [PlanViews] the reads and the breadcrumbs.
    - Metrics, [metrics/flow.rs] and [metrics.rs]: [Flow] replays the plan
      log into the flow metrics and [FlowReplay] relates them to the tables;
      [UsageReport] is the usage report and its property. [PlanGuarantees]
      holds a concrete history of plans and the properties of plans and
      flow.
    - The command line, [plan_cli.rs], [plan_cli]: [PlanCli] reads the
      arguments of the plan, activity, name and archive commands into control
      requests; [CliSpec] is the grammar of the plan commands, with the
      property.
    - Prompts, [submitted_prompts.rs], [api/session_routes.rs],
      [future_prompts.rs], [library.rs]: [Submitted] records, delivers,
      matches and prunes the prompts of a terminal; [Library] keeps entries
      under slugs and deferred prompts. [SubmittedInv] and [LibraryInv] prove
      them and [PromptGuarantees] holds the properties.
    - The node protocol, [node_protocol]: terminals run on a development
      node, which dials the control plane. [NodeWire] ([model.rs]) is the
      messages, what is signed and how long messages are cut; [NodeLan]
      ([lan.rs]) from where a node may connect; [NodeTrust] ([identity.rs],
      [pin.rs], [tls.rs], [config.rs]) identities, pins and the delivered
      configuration; [NodeClient] ([client.rs], [bin/sulion_node.rs]) the
      handshakes and the start of a node; [NodeStore] ([store.rs]) the rows
      of nodes and what they do to sessions; [NodeControl] ([mod.rs],
      [loopback.rs], [transport.rs]) every handler of the control plane and
      its runs. [Reassembly], [NodeClientInv] and
      [NodeControlInv] prove them, beside what [NodeWire] and [NodeLan] do,
      [NodeExample] is a concrete instance of the cryptography, and
      [NodeGuarantees] and [TrustGuarantees] hold the properties.
    - Terminal sessions, [pty/mod.rs], [pty/spawn.rs], [correlate.rs]:
      [PtySessions] is the rows of terminals and every statement on them;
      [PtySessionsInv] their invariant under all writers, the nodes'
      included; [SessionGuarantees] the properties of sessions and of the
      connections that carry them.
    - The archive, [archive]: [ArchiveObjects] ([export.rs], [store.rs]) is
      the envelope of a stored event, the object a session is written to and
      read from, and the stores; [Archive] ([export.rs], [purge.rs],
      [restore.rs], with [replay.rs], [projection/write.rs] and the row query
      of [timeline/load.rs]) selects, exports, purges and restores a session,
      whose rows in all tables it joins from [EventStore] and [Store];
      [ArchiveLoop] ([mod.rs], [requests.rs], [dump.rs]) is the requests, the
      cycle, the runs and the loop, with its properties. [ArchiveInv] proves
      the invariant of every history of the archive, [ArchiveExample] is a
      concrete instance of the crates and a session, and [ArchiveGuarantees]
      holds the properties of sessions in the archive.
    - Secrets and logins, [secret_broker], [secret_protocol.rs],
      [secret_pty.rs], [credential_helper.rs], [auth.rs], [auth]: [Auth] is
      who a browser request speaks for, when the signing keys are fetched and
      how logins are ended; [SecretBroker] the tables of the broker, the view
      of the grants in force, every handler, the router with its two kinds of
      authentication, and the clients. [SecretRedeem] proves what is redeemed,
      [SecretBrokerInv] the invariant of every history and where grants,
      credentials and values come from, and [SecretGuarantees] holds a
      concrete history and the properties.

    ** What the theorems show

    - Timeline: after any history of inserted events, batches, replaced
      transcripts, changed contexts and rebuild requests that come late or
      never the tables are the abstract projection of the events up to the
      cursor, but those inserted behind it that nothing projected again yet;
      batches and catch-up never fail and terminate; batch boundaries are
      invisible; a rebuild reproduces the incremental rows where no event
      waits for one; the queries answer for the stored timeline.
    - Accounting: a rebuild of a Codex session gives the live rows; a Claude
      response counts once, by its last receipt; a claimed response never
      counts again; the one count the tables refuse.
    - Model guard: departures from the accepted model are recorded, open
      enforced switches never name it, rows form a chain, adopting settles.
      Two statements show where the code departs from its comments.
    - Reading: whatever the window, the time of a pass, crashes and appends,
      the stored events are the complete lines of the file that are not blank,
      parse and fit a window; a file that stops growing is drained in as many
      passes as it has lines waiting; the projection queue is fair. One
      statement shows that a line whose insert fails is not retried.
    - Plans: every history keeps the tables well formed; moving a phase
      relocates it in the ordered list; closing a branch returns its
      terminals; what may not be closed is refused; the breadcrumb query ends
      with the path from the root. Two computed histories show a branch
      reopened under a closed plan and a completed phase that the throughput
      leaves out.
    - Transcripts: patches round trip through their text, parsed blocks
      through their rows; pasted text is unwrapped by three rules; tool uses
      are canonicalized in every case but one; inserting a session in passes,
      and rewriting one that is in order, leave the same rows; a repaired
      activity is the one the transcript gives. Four computed examples show a
      lone quote that panics, a rule that matches too much, a lineage that
      depends on where a pass ended and blocks that overwrite others.
    - Command line: a plan command is read as the grammar spells it, whatever
      the order of its items. One computed line shows two names of a flag
      that exclude each other.
    - Prompts: a prompt is on record before a byte of it is delivered; no two
      prompts are matched with one turn; matching settles, with the earliest
      turn for each prompt; a library entry is kept under a free slug. Two
      computed histories show a turn that is claimed twice and a retry whose
      turn goes to the prompt that failed.
    - Nodes: messages arrive whole whatever the order of their fragments, and
      what a peer sends cannot make the other exceed its limits or panic; a
      socket is admitted for the address it comes from; a node is connected
      only with a key an operator approved, and one connection is held for it
      at a time, the one of its row where its handlers do not overlap; a node
      trusts the key it met first wherever it can read its pin, and starts
      only with what that key signed; two that follow the protocol come
      together. Four computed statements show a key approved that was not the
      one seen, a request that is waited for after its time, two hellos that
      overlap and a pin that a process without root cannot read.
    - Sessions: rows are well formed in every order of writes, a correlation
      that nothing interrupts leaves a session current in one terminal, what
      ended stays ended, a heartbeat settles every session of its node, and
      the prompt of a launched agent opens when it correlates or activity of
      it is reported. Three statements show a session left in two terminals
      by interleaved statements, a new terminal recorded as lost and an agent
      started by hand that is not gated.
    - Metrics: the replayed log ends in the current tables, daily figures stay
      within bounds and the usage report sums each group exactly.
    - Archive: over every history of sessions written, exported, purged and
      restored, restores that stop anywhere included, nothing that could be
      read of a session is lost unless it is exported or purged while a
      restore of it is unfinished, and each figure of the rollups is the sum
      of what the purged sessions added; a restore gives back a session's
      rows and timeline, names its touched files again and takes its figures
      out of the rollups; a cycle is such a history and deletes only what it
      may; a request runs once. One computed history shows a restore that is
      cut off and then exported over the full object.
    - Secrets: over every history of the broker nothing is redeemed that a
      signed-in user did not unlock for the terminal, its repository or the
      signed program, or whose grant has ended since; a verified request is
      answered the variables of the highest rank, exactly, where no two
      secrets of a rank share one, and refused where two share one that no
      higher rank has; no signed request is honoured twice; which requests to
      unlock are valid, that those and no others are accepted, and the one
      active grant they leave; a login that was ended stays ended, for the
      broker and for those who ask it; the signing keys are fetched at most
      once in the cooldown. Three statements show a stamp from another age
      that is fresh, one signature for two requests and two secrets of a rank
      that are answered because a higher one has their variable.

    ** Conventions

    An [i64] or [i32] is a [Z]; arithmetic wraps ([wrap64], [wrap32]) or
    saturates where the code says so, and a Postgres [BIGINT] out of range is
    an error. Fallible code returns [res]; [expect] and [unwrap] yield
    [Panicked]. Timestamps are whole microseconds since the epoch, the
    precision of the columns. JSONB columns are the values stored in them.
    Tables are finite maps by primary key; a [SELECT] without [ORDER BY]
    yields its rows in an arbitrary order ([HeapOrder]).

    Identifiers a transaction generates are its arguments, and so is the time
    it reads; histories of plans assume that time does not go back and that
    transactions run one after the other, as their row locks make them.

    A step of a history is what one transaction commits. What runs in several
    takes several steps, between which others may come and after any of which
    the process may stop: the insertions of a pass and its request to project
    again ([session_step]), the three statements of a correlation
    ([correlation]), the row of a connection and the connections held
    ([EvSettle]), the deletions of a restore and each line it replays
    ([archive_act]). A request of the broker and a prompt that is sent are
    one step each. The files a batch reads are its own argument.

    Code outside the repository is a parameter: the tree of the JavaScript
    grammar ([TreeSitter]) and JSON text ([SerdeText]), with the laws a proof
    uses ([TreeSitterLaws], [NodeTexts], [SerdeTextLaws]), and functions for
    the SHA-256 of a text, UUIDs and RFC 3339 times, the characters the
    database's locale calls space, and the node that takes terminal input.
    For nodes: signatures, digests and base64 ([Crypto], [CryptoLaws]), the
    text of envelopes ([Wire], [WireLaws]), of identifiers ([UuidText]) and of
    the payloads a node sends ([Payloads]). For the archive: JSON bytes, zstd,
    SHA-256 and timestamps ([Archiver], [ArchiverLaws]), object stores
    ([ObjectStore], [ObjectStoreLaws], which a directory is proved to keep),
    and what [pg_dump] writes. For secrets: the cipher,
    JSON of variables, the order of a hash map and base64 ([BrokerLibs],
    [BrokerLaws]) and tokens ([Jwt]); a request of the broker is one step, so
    the agreement of its clocks that [use_not_replayed] asks for bounds the
    time between its check and its insertion as well. A payload is read back from its envelope when
    it holds no floating-point number, its objects are in key order, as
    serde_json keeps them, and it is nested less than 127 deep ([readable]).
    The plan commands projected onto blocks are the argument [project].

    Bounds: operation ordinals stay below [op_cap] = 2^21, so that the touch
    ordinal [operation_ord * 1024 + index] fits its [INT] column; loops carry
    fuel ([catch_up]) and are shown to need one round per [BATCH_EVENTS]
    pending events; a tree is walked with its size and a tool input with its
    length as fuel ([node_size], [input_fuel]), which every recursive call
    shrinks; the recursive query of [ancestors] needs nine steps,
    branches being at most eight deep; the start of a node takes as many
    rounds as it makes attempts ([bootstrap_fuel]).

    ** What is not modelled

    The recognition of plan commands ([timeline/plan_commands.rs]), the
    queries that choose sessions for backfills, the deferral of purged
    sessions, the retrieval rows refreshed beside an operation (only the read that can
    fail is), the backfill passes over many sessions, the progress rows of
    jobs, what other writers do during a cycle of the archive (between its
    steps anything may happen), locks and concurrent transactions (each transaction is a step), the SQL files
    of the legacy usage rebuild, the SQL that attributes usage rows to
    repositories, the rounding of floating-point figures, the dispatch of
    requests inside a node ([node_protocol/commands.rs], [node_runtime]), the
    link to the terminal host ([devenv]), and everything that is I/O: the HTTP
    API, PTYs, git, S3, and the printing of the command line. A
    connection's queue of envelopes is a log of what was sent on it. Of a
    session's metadata only the row of its terminal changes within a history
    of its timeline. *)

From Stdlib Require Export Ascii.
From stdpp Require Export base decidable option list gmap strings sorting pretty.
From Stdlib Require Export ZArith Lia.

(** ** Notations and scope *)

Declare Scope sulion_scope.
Delimit Scope sulion_scope with sulion.
Open Scope string_scope.
Open Scope list_scope.
Open Scope Z_scope.
Open Scope sulion_scope.

(** ** Results of fallible code

    A Rust [anyhow::Result] is [Ok] or an error with its message; code that
    would panic ([expect], [unwrap]) yields [Panicked], so that "never panics"
    is a statement about values. *)

Inductive error : Type :=
  | Failed (msg : string)
  | Panicked (msg : string).

Inductive res (A : Type) : Type :=
  | Ok (a : A)
  | Err (e : error).
Arguments Ok {A} a.
Arguments Err {A} e.

#[export] Instance error_eq_dec : EqDecision error.
Proof. solve_decision. Defined.

#[export] Instance res_eq_dec {A} `{EqDecision A} : EqDecision (res A).
Proof. solve_decision. Defined.

#[export] Instance res_ret : MRet res := @Ok.
#[export] Instance res_bind : MBind res := λ A B f r,
  match r with Ok a => f a | Err e => Err e end.
#[export] Instance res_fmap : FMap res := λ A B f r,
  match r with Ok a => Ok (f a) | Err e => Err e end.

Definition bail {A} (msg : string) : res A := Err (Failed msg).
Definition panic {A} (msg : string) : res A := Err (Panicked msg).

Definition is_ok {A} (r : res A) : bool :=
  match r with Ok _ => true | Err _ => false end.

Definition panics {A} (r : res A) : Prop := ∃ msg, r = Err (Panicked msg).

(** [Option::ok_or_else] *)
Definition ok_or {A} (o : option A) (msg : string) : res A :=
  match o with Some a => Ok a | None => bail msg end.

Lemma res_bind_Ok {A B} (r : res A) (f : A → res B) b :
  r ≫= f = Ok b ↔ ∃ a, r = Ok a ∧ f a = Ok b.
Proof. destruct r; simpl; naive_solver. Qed.

Lemma res_bind_assoc {A B C} (r : res A) (f : A → res B) (g : B → res C) :
  (r ≫= f) ≫= g = r ≫= (λ a, f a ≫= g).
Proof. by destruct r. Qed.

Lemma ok_or_Ok {A} (o : option A) msg a : ok_or o msg = Ok a ↔ o = Some a.
Proof. destruct o; simpl; naive_solver. Qed.

(** [iter().map(f).collect::<Result<Vec<_>>>()] *)
Fixpoint try_map {A B} (f : A → res B) (l : list A) : res (list B) :=
  match l with
  | [] => Ok []
  | a :: l => b ← f a; bs ← try_map f l; Ok (b :: bs)
  end.

(** [for x in l { s = f(s, x)?; }] *)
Fixpoint try_fold {A S} (f : S → A → res S) (l : list A) (s : S) : res S :=
  match l with
  | [] => Ok s
  | a :: l => s' ← f s a; try_fold f l s'
  end.

Lemma try_fold_app {A S} (f : S → A → res S) l1 l2 s :
  try_fold f (l1 ++ l2) s = s' ← try_fold f l1 s; try_fold f l2 s'.
Proof.
  revert s. induction l1 as [|a l1 IH]; intros s; [done|].
  simpl. destruct (f s a); simpl; [apply IH|done].
Qed.

Lemma try_fold_filter {A S} (f : S → A → res S) (P : A → Prop) `{∀ a, Decision (P a)} l s :
  try_fold f (filter P l) s = try_fold (λ s a, if decide (P a) then f s a else Ok s) l s.
Proof.
  revert s. induction l as [|a l IH]; intros s; [done|]. rewrite filter_cons. simpl.
  destruct (decide (P a)); simpl; [|apply IH]. destruct (f s a); simpl; [apply IH|done].
Qed.

Lemma try_fold_invariant {A S} (f : S → A → res S) (P : S → Prop) l s s' :
  (∀ s a s', a ∈ l → P s → f s a = Ok s' → P s') →
  P s → try_fold f l s = Ok s' → P s'.
Proof.
  revert s. induction l as [|a l IH]; intros s Hstep HP; simpl.
  - by intros [= <-].
  - intros (s1 & H1 & H2)%res_bind_Ok. eapply IH, H2.
    + intros s2 a2 s3 ?. apply Hstep. by right.
    + eapply Hstep, H1; [by left|done].
Qed.

Lemma try_fold_ok {A S} (f : S → A → res S) (P : S → Prop) l s :
  (∀ s a, a ∈ l → P s → ∃ s', f s a = Ok s' ∧ P s') →
  P s → ∃ s', try_fold f l s = Ok s' ∧ P s'.
Proof.
  revert s. induction l as [|a l IH]; intros s Hf HP; cbn; [by exists s|].
  destruct (Hf s a) as (s1 & -> & HP1); [by left|done|]. cbn.
  apply IH; [|done]. intros s2 a2 Ha. apply Hf. by right.
Qed.

Lemma try_fold_ext {A S} (f g : S → A → res S) l s :
  (∀ s a, a ∈ l → f s a = g s a) → try_fold f l s = try_fold g l s.
Proof.
  revert s. induction l as [|a l IH]; intros s H; [done|]. cbn. rewrite H by by left.
  destruct (g s a); cbn; [|done]. apply IH. intros s' a' Ha. apply H. by right.
Qed.

Lemma try_map_Forall2 {A B} (f : A → res B) l bs :
  try_map f l = Ok bs ↔ Forall2 (λ a b, f a = Ok b) l bs.
Proof.
  revert bs. induction l as [|a l IH]; intros bs; simpl.
  - split; [intros [= <-]; constructor|by inversion 1].
  - rewrite res_bind_Ok. split.
    + intros (b & Hb & (bs' & Hbs & [= <-])%res_bind_Ok).
      constructor; [done|by apply IH].
    + intros (b & bs' & Hb & Hbs & ->)%Forall2_cons_inv_l.
      exists b. split; [done|]. apply res_bind_Ok. exists bs'.
      split; [by apply IH|done].
Qed.

(** ** Machine integers

    [i64] and [i32] values are [Z]; `+`, `-` wrap (the release profile builds
    without overflow checks), [saturating_*] clamp. A Postgres [BIGINT]
    expression that leaves the range is an error of the statement. *)

Definition i64_min : Z := - 2 ^ 63.
Definition i64_max : Z := 2 ^ 63 - 1.
Definition in_i64 (z : Z) : Prop := i64_min ≤ z ≤ i64_max.
Definition in_i64b (z : Z) : bool := (i64_min <=? z) && (z <=? i64_max).

Definition wrap (w z : Z) : Z := (z + 2 ^ (w - 1)) mod 2 ^ w - 2 ^ (w - 1).
Definition wrap64 (z : Z) : Z := wrap 64 z.
Definition wrap32 (z : Z) : Z := wrap 32 z.

Definition clamp64 (z : Z) : Z := Z.max i64_min (Z.min z i64_max).
Definition saturating_add (a b : Z) : Z := clamp64 (a + b).
Definition saturating_sub (a b : Z) : Z := clamp64 (a - b).

Definition pg_bigint (z : Z) : res Z :=
  if in_i64b z then Ok z else bail "bigint out of range".

#[export] Instance in_i64_dec z : Decision (in_i64 z).
Proof. unfold in_i64. apply _. Defined.

Lemma in_i64b_spec z : in_i64b z = true ↔ in_i64 z.
Proof. unfold in_i64b, in_i64. rewrite andb_true_iff, !Z.leb_le. done. Qed.

Lemma wrap64_eq z : wrap64 z = (z + 2 ^ 63) mod 2 ^ 64 - 2 ^ 63.
Proof. done. Qed.

Lemma wrap64_range z : in_i64 (wrap64 z).
Proof.
  rewrite wrap64_eq. unfold in_i64, i64_min, i64_max.
  pose proof (Z.mod_pos_bound (z + 2 ^ 63) (2 ^ 64)). lia.
Qed.

Lemma wrap64_id z : in_i64 z → wrap64 z = z.
Proof.
  intros [Hl Hu]. unfold i64_min, i64_max in *. rewrite wrap64_eq.
  rewrite Z.mod_small by lia. lia.
Qed.

Lemma wrap64_congr a b : a mod 2 ^ 64 = b mod 2 ^ 64 → wrap64 a = wrap64 b.
Proof.
  intros H. rewrite !wrap64_eq. rewrite <-(Z.add_mod_idemp_l a), H by lia.
  by rewrite Z.add_mod_idemp_l by lia.
Qed.

Lemma wrap64_mod a : wrap64 a mod 2 ^ 64 = a mod 2 ^ 64.
Proof.
  rewrite wrap64_eq, Zminus_mod, Zmod_mod, <-Zminus_mod. f_equal. lia.
Qed.

Lemma wrap64_add_l a b : wrap64 (wrap64 a + b) = wrap64 (a + b).
Proof.
  apply wrap64_congr. by rewrite Zplus_mod, wrap64_mod, <-Zplus_mod.
Qed.

Lemma wrap64_add_r a b : wrap64 (a + wrap64 b) = wrap64 (a + b).
Proof. by rewrite Z.add_comm, wrap64_add_l, Z.add_comm. Qed.

Lemma wrap64_sub_l a b : wrap64 (wrap64 a - b) = wrap64 (a - b).
Proof. unfold Z.sub. apply wrap64_add_l. Qed.

Lemma wrap64_idemp a : wrap64 (wrap64 a) = wrap64 a.
Proof. apply wrap64_id, wrap64_range. Qed.

Lemma wrap32_id z : - 2 ^ 31 ≤ z < 2 ^ 31 → wrap32 z = z.
Proof.
  intros Hz. change (wrap32 z) with ((z + 2 ^ 31) mod 2 ^ 32 - 2 ^ 31).
  rewrite Z.mod_small by lia. lia.
Qed.

Lemma clamp64_id z : in_i64 z → clamp64 z = z.
Proof. unfold in_i64, clamp64. lia. Qed.

Lemma clamp64_range z : in_i64 (clamp64 z).
Proof. unfold in_i64, clamp64, i64_min, i64_max. lia. Qed.

(** A [uuid::Uuid] is its 128 bits. *)
Abbreviation Uuid := N (only parsing).

(** ** Options *)

(** [Option::max] on [Option<i64>]: [None] is below every [Some]. *)
Definition option_max (a b : option Z) : option Z :=
  match a, b with
  | None, b => b
  | a, None => a
  | Some a, Some b => Some (Z.max a b)
  end.

Definition or_else {A} (a b : option A) : option A :=
  match a with Some _ => a | None => b end.

Definition is_none {A} (o : option A) : bool :=
  match o with None => true | Some _ => false end.

Definition is_some {A} (o : option A) : bool := negb (is_none o).

(** SQL's [COALESCE] of two nullable columns is [or_else]. *)

Lemma option_max_assoc a b c :
  option_max a (option_max b c) = option_max (option_max a b) c.
Proof. destruct a, b, c; simpl; try done. by rewrite Z.max_assoc. Qed.

(** ** Ordered iteration over finite maps and sets

    A [BTreeMap] or [BTreeSet] iterates in key order: the elements of the
    finite map, sorted. *)

Definition key2 : Type := Z * Z.

Definition key2_le (a b : key2) : Prop :=
  a.1 < b.1 ∨ (a.1 = b.1 ∧ a.2 ≤ b.2).

#[export] Instance key2_le_dec a b : Decision (key2_le a b).
Proof. unfold key2_le. apply _. Defined.

#[export] Instance key2_le_total : Total key2_le.
Proof. intros [] []; unfold key2_le; simpl; lia. Qed.

#[export] Instance key2_le_trans : Transitive key2_le.
Proof. intros [] [] []; unfold key2_le; simpl; lia. Qed.

#[export] Instance key2_le_antisymm : AntiSymm (=) key2_le.
Proof. intros [] []; unfold key2_le; simpl; intros; f_equal; lia. Qed.

Definition sorted_keys (s : gset key2) : list key2 :=
  merge_sort key2_le (elements s).

Lemma elem_of_sorted_keys k s : k ∈ sorted_keys s ↔ k ∈ s.
Proof.
  unfold sorted_keys. rewrite merge_sort_Permutation. apply elem_of_elements.
Qed.

Lemma sorted_keys_NoDup s : NoDup (sorted_keys s).
Proof. unfold sorted_keys. rewrite merge_sort_Permutation. apply NoDup_elements. Qed.

Definition sorted_ids (s : gset Z) : list Z := merge_sort Z.le (elements s).

Lemma sorted_ids_NoDup s : NoDup (sorted_ids s).
Proof. unfold sorted_ids. rewrite merge_sort_Permutation. apply NoDup_elements. Qed.

Lemma elem_of_sorted_ids s x : x ∈ sorted_ids s ↔ x ∈ s.
Proof. unfold sorted_ids. rewrite merge_sort_Permutation. apply elem_of_elements. Qed.

Lemma sorted_keys_Sorted s : StronglySorted key2_le (sorted_keys s).
Proof. apply (StronglySorted_merge_sort _). Qed.

(** ** Writing a list of rows into a table

    Each element is stored under its key as a function of the row there. *)

Section upsert_all.
Context {K V A : Type} `{Countable K} (kf : A → K) (f : A → option V → V).
Implicit Types m : gmap K V.

Definition upsert_all (l : list A) m : gmap K V :=
  foldl (λ m a, <[kf a := f a (m !! kf a)]> m) m l.

Lemma lookup_upsert_all_ne k l m : k ∉ kf <$> l → upsert_all l m !! k = m !! k.
Proof.
  unfold upsert_all. revert m. induction l as [|a l IH]; intros m Hk; [done|].
  rewrite fmap_cons, not_elem_of_cons in Hk. destruct Hk as [Hne Hk].
  simpl. rewrite IH by done. by rewrite lookup_insert_ne by congruence.
Qed.

Lemma lookup_upsert_all a l m :
  NoDup (kf <$> l) → a ∈ l → upsert_all l m !! kf a = Some (f a (m !! kf a)).
Proof.
  unfold upsert_all. revert m. induction l as [|b l IH]; intros m Hnd Hin;
    [by apply elem_of_nil in Hin|].
  rewrite fmap_cons, NoDup_cons in Hnd. destruct Hnd as [Hb Hnd].
  apply elem_of_cons in Hin as [->|Hin]; simpl.
  - fold (upsert_all l (<[kf b := f b (m !! kf b)]> m)).
    rewrite lookup_upsert_all_ne by done. by rewrite lookup_insert_eq.
  - rewrite IH by done. rewrite lookup_insert_ne; [done|].
    intros E. apply Hb. rewrite E. by apply list_elem_of_fmap_2.
Qed.
End upsert_all.

(** ** Filtering lists *)

Lemma filter_fmap_comm {A B} (f : A → B) (P : B → Prop) `{∀ b, Decision (P b)} (l : list A) :
  filter P (f <$> l) = f <$> filter (λ a, P (f a)) l.
Proof.
  induction l as [|a l IH]; [done|]. rewrite fmap_cons, !filter_cons, IH. by case_decide.
Qed.

Lemma filter_ext_in {A} (P Q : A → Prop) `{∀ a, Decision (P a)} `{∀ a, Decision (Q a)} (l : list A) :
  (∀ a, a ∈ l → P a ↔ Q a) → filter P l = filter Q l.
Proof.
  induction l as [|a l IH]; intros Hl; [done|]. rewrite !filter_cons, IH by set_solver.
  pose proof (Hl a (list_elem_of_here _ _)). do 2 case_decide; naive_solver.
Qed.

Lemma filter_everything {A} (P : A → Prop) `{∀ x, Decision (P x)} (l : list A) :
  (∀ x, x ∈ l → P x) → filter P l = l.
Proof.
  induction l as [|x l IH]; intros Hl; [done|]. rewrite filter_cons, decide_True by (apply Hl; by left).
  f_equal. apply IH. intros y Hy. apply Hl. by right.
Qed.

Lemma StronglySorted_filter {A} (R : relation A) P `{∀ x, Decision (P x)} (l : list A) :
  StronglySorted R l → StronglySorted R (filter P l).
Proof.
  induction 1 as [|x l Hs IH Hall]; [constructor|]. rewrite filter_cons. case_decide; [|done].
  constructor; [done|]. rewrite Forall_forall in *. intros y [_ Hy]%list_elem_of_filter. by apply Hall.
Qed.

(** ** Tactics *)

(** Case analysis on the booleans and options an executable definition
    branches on, one at a time. *)
Ltac branch :=
  match goal with
  | |- context [if ?b then _ else _] => destruct b eqn:?
  | |- context [match ?o with _ => _ end] => destruct o eqn:?
  end; simplify_eq/=.

(** Decompose a successful run of a [res] computation. *)
Ltac res_inv H :=
  lazymatch type of H with
  | _ ≫= _ = Ok _ =>
      let x := fresh "x" in let E := fresh "E" in
      apply res_bind_Ok in H as (x & E & H); res_inv H
  | Ok _ = Ok _ => simplify_eq H
  | _ => idtac
  end.

Create HintDb sulion discriminated.
#[export] Hint Resolve wrap64_range clamp64_range : sulion.
Create Rewrite HintDb sulion_wrap.
#[export] Hint Rewrite wrap64_add_l wrap64_add_r wrap64_sub_l wrap64_idemp : sulion_wrap.
