(* ===== verification/Text.v ===== *)
(** * Rust strings

    A [String] is its UTF-8 bytes. [chars] groups them into scalar values (a
    lead byte with its continuation bytes), and the [str] methods the backend
    uses are functions on that list, so trimming, counting and truncating work
    per character and Unicode white space is recognised. *)

From S2P Require Import Prelude.

Definition is_continuation (c : Ascii.ascii) : bool :=
  let n := Ascii.N_of_ascii c in ((128 <=? n) && (n <? 192))%N.

Definition starts_with_continuation (s : string) : bool :=
  match s with String d _ => is_continuation d | EmptyString => false end.

Definition push_byte (c : Ascii.ascii) (joins : bool) (cs : list string) : list string :=
  match cs with
  | hd :: tl => if joins then String c hd :: tl else String c "" :: cs
  | [] => [String c ""]
  end.

(** [str::chars], each character as the string of its bytes. *)
Fixpoint chars (s : string) : list string :=
  match s with
  | EmptyString => []
  | String c s' => push_byte c (starts_with_continuation s') (chars s')
  end.

Definition concat_text (l : list string) : string := foldr String.append "" l.

(** The number of bytes. *)
Definition byte_len (s : string) : Z := Z.of_nat (String.length s).

(** Slices of the bytes. *)
Fixpoint take_bytes (n : nat) (s : string) : string :=
  match n, s with
  | S n, String c s => String c (take_bytes n s)
  | _, _ => EmptyString
  end.

Fixpoint drop_bytes (n : nat) (s : string) : string :=
  match n, s with
  | S n, String _ s => drop_bytes n s
  | _, _ => s
  end.

Definition chars_count (s : string) : Z := Z.of_nat (length (chars s)).

(** [slice::join] *)
Fixpoint join (sep : string) (l : list string) : string :=
  match l with
  | [] => ""
  | [x] => x
  | x :: l => x +:+ sep +:+ join sep l
  end.

Definition char_of_N (n : N) : string := String (Ascii.ascii_of_N n) "".
Definition bytes (l : list N) : string := concat_text (char_of_N <$> l).
Definition newline : string := bytes [10%N].
Definition quote_char : string := bytes [34%N].

(** The Unicode [White_Space] characters, as [char::is_whitespace] has them. *)
Definition white_space : list string :=
  bytes <$> [[9];[10];[11];[12];[13];[32];[194;133];[194;160];[225;154;128];
   [226;128;128];[226;128;129];[226;128;130];[226;128;131];[226;128;132];
   [226;128;133];[226;128;134];[226;128;135];[226;128;136];[226;128;137];
   [226;128;138];[226;128;168];[226;128;169];[226;128;175];[226;129;159];
   [227;128;128]]%N.

Definition is_whitespace (c : string) : bool := bool_decide (c ∈ white_space).

(** [char::is_control]: [U+0000..U+001F] and [U+007F..U+009F]. *)
Definition is_control (c : string) : bool :=
  match c with
  | String a EmptyString => let n := Ascii.N_of_ascii a in ((n <? 32) || (n =? 127))%N
  | String a (String b EmptyString) =>
      let n := Ascii.N_of_ascii b in ((Ascii.N_of_ascii a =? 194) && (128 <=? n) && (n <=? 159))%N
  | _ => false
  end.

Fixpoint drop_while {A} (f : A → bool) (l : list A) : list A :=
  match l with
  | [] => []
  | x :: l' => if f x then drop_while f l' else l
  end.

Definition trim_start_by (f : string → bool) (s : string) : string :=
  concat_text (drop_while f (chars s)).
Definition trim_end_by (f : string → bool) (s : string) : string :=
  concat_text (rev (drop_while f (rev (chars s)))).
Definition trim_by (f : string → bool) (s : string) : string :=
  concat_text (rev (drop_while f (rev (drop_while f (chars s))))).
Definition trim_start : string → string := trim_start_by is_whitespace.
Definition trim : string → string := trim_by is_whitespace.

Definition is_empty (s : string) : bool := bool_decide (s = "").

(** [str::strip_prefix] *)
Fixpoint strip_prefix (p s : string) : option string :=
  match p, s with
  | EmptyString, _ => Some s
  | String a p', String b s' => if Ascii.eqb a b then strip_prefix p' s' else None
  | String _ _, EmptyString => None
  end.

Definition starts_with (p s : string) : bool := is_some (strip_prefix p s).

Fixpoint string_rev (s : string) : string :=
  match s with
  | EmptyString => ""
  | String c s' => string_rev s' +:+ String c ""
  end.

Definition strip_suffix (p s : string) : option string :=
  string_rev <$> strip_prefix (string_rev p) (string_rev s).
Definition ends_with (p s : string) : bool := is_some (strip_suffix p s).

(** [str::split_once] by a substring: the text around its first occurrence. *)
Fixpoint split_once (sep s : string) : option (string * string) :=
  match strip_prefix sep s with
  | Some rest => Some ("", rest)
  | None =>
      match s with
      | EmptyString => None
      | String c s' => prod_map (String c) id <$> split_once sep s'
      end
  end.

Definition contains (needle s : string) : bool := is_some (split_once needle s).

(** [str::split] by a one-byte separator. *)
Fixpoint split_char (sep : Ascii.ascii) (s : string) : list string :=
  match s with
  | EmptyString => [""]
  | String c s' =>
      if Ascii.eqb c sep then "" :: split_char sep s'
      else match split_char sep s' with
           | hd :: tl => String c hd :: tl
           | [] => [String c ""]
           end
  end.

(** [str::split] by a substring; [fuel] bounds the number of pieces. *)
Fixpoint split_str_fuel (fuel : nat) (sep s : string) : list string :=
  match fuel with
  | O => [s]
  | S fuel =>
      match split_once sep s with
      | None => [s]
      | Some (a, b) => a :: split_str_fuel fuel sep b
      end
  end.
Definition split_str (sep s : string) : list string :=
  split_str_fuel (String.length s) sep s.

(** [s.rsplit(sep).next()]: the text after the last separator. *)
Definition rsplit_first (sep : Ascii.ascii) (s : string) : string :=
  List.last (split_char sep s) "".

(** [s.rsplit_once(sep)] *)
Definition rsplit_once (sep : Ascii.ascii) (s : string) : option (string * string) :=
  match rev (split_char sep s) with
  | last :: x :: before => Some (join (String sep "") (rev (x :: before)), last)
  | _ => None
  end.

(** [str::split_whitespace] *)
Fixpoint words (cur : string) (cs : list string) : list string :=
  match cs with
  | [] => if is_empty cur then [] else [cur]
  | c :: cs =>
      if is_whitespace c
      then if is_empty cur then words "" cs else cur :: words "" cs
      else words (cur +:+ c) cs
  end.
Definition split_whitespace (s : string) : list string := words "" (chars s).

(** [s.lines().next()] *)
Definition first_line (s : string) : option string :=
  if is_empty s then None
  else match split_once newline s with
       | Some (line, _) => Some (default line (strip_suffix (bytes [13%N]) line))
       | None => Some s
       end.

Definition ellipsis : string := bytes [226;128;166]%N.

Definition take_chars (n : nat) (s : string) : string := concat_text (take n (chars s)).

Definition ascii_lower (c : Ascii.ascii) : Ascii.ascii :=
  let n := Ascii.N_of_ascii c in
  if ((65 <=? n) && (n <=? 90))%N then Ascii.ascii_of_N (n + 32) else c.
Fixpoint to_ascii_lowercase (s : string) : string :=
  match s with
  | EmptyString => ""
  | String c s' => String (ascii_lower c) (to_ascii_lowercase s')
  end.

(** Bytewise order, the [Ord] of Rust strings. *)
Definition string_ltb (a b : string) : bool :=
  match String.compare a b with Lt => true | _ => false end.

(** ** Lemmas *)

Lemma append_cons c (a b : string) : String c a +:+ b = String c (a +:+ b).
Proof. done. Qed.

Lemma append_nil_l (b : string) : "" +:+ b = b.
Proof. done. Qed.

Lemma append_assoc (a b c : string) : (a +:+ b) +:+ c = a +:+ (b +:+ c).
Proof. induction a as [|x a IH]; [done|]. by rewrite !append_cons, IH. Qed.

Lemma append_nil_r (a : string) : a +:+ "" = a.
Proof. induction a as [|x a IH]; [done|]. by rewrite append_cons, IH. Qed.

Lemma concat_text_app l1 l2 :
  concat_text (l1 ++ l2) = concat_text l1 +:+ concat_text l2.
Proof.
  unfold concat_text. induction l1 as [|x l1 IH]; simpl; [done|].
  by rewrite IH, append_assoc.
Qed.

Lemma concat_chars s : concat_text (chars s) = s.
Proof.
  induction s as [|c s IH]; [done|]. cbn [chars].
  transitivity (String c (concat_text (chars s))); [|by rewrite IH].
  unfold push_byte. destruct (chars s) as [|hd tl]; [done|].
  by destruct (starts_with_continuation s).
Qed.

Lemma chars_nonempty s : Forall (λ c, (1 ≤ String.length c)%nat) (chars s).
Proof.
  induction s as [|c s IH]; [done|]. cbn [chars]. unfold push_byte.
  destruct IH as [|hd tl Hhd Htl]; [by repeat constructor|].
  destruct (starts_with_continuation s); repeat (constructor; [cbn; lia|]); done.
Qed.

Lemma strip_prefix_Some p s r : strip_prefix p s = Some r ↔ s = p +:+ r.
Proof.
  revert s. induction p as [|a p IH]; intros s; simpl.
  - rewrite append_nil_l. split; congruence.
  - rewrite append_cons. destruct s as [|b s]; [done|].
    destruct (Ascii.eqb_spec a b) as [->|Hne]; [|split; congruence].
    rewrite IH. split; congruence.
Qed.

Lemma starts_with_spec p s : starts_with p s = true ↔ ∃ r, s = p +:+ r.
Proof.
  unfold starts_with, is_some, is_none. destruct (strip_prefix p s) as [r|] eqn:E; simpl.
  - apply strip_prefix_Some in E. naive_solver.
  - split; [done|]. intros [r Hr%strip_prefix_Some]. congruence.
Qed.

Lemma split_once_Some sep s a b :
  split_once sep s = Some (a, b) → s = a +:+ sep +:+ b.
Proof.
  revert a. induction s as [|c s IH]; intros a; simpl.
  - destruct (strip_prefix sep "") as [r|] eqn:E; [|done].
    intros [= <- <-]. by apply strip_prefix_Some in E.
  - destruct (strip_prefix sep (String c s)) as [r|] eqn:E.
    + intros [= <- <-]. by apply strip_prefix_Some in E.
    + destruct (split_once sep s) as [[a' b']|] eqn:E'; [|done].
      intros [= <- <-]. rewrite append_cons. f_equal. by apply IH.
Qed.

Lemma join_cons2 sep x y l : join sep (x :: y :: l) = x +:+ sep +:+ join sep (y :: l).
Proof. done. Qed.

Lemma join_cons_byte sep c hd tl :
  join sep (String c hd :: tl) = String c (join sep (hd :: tl)).
Proof. destruct tl; [done|]. by rewrite !join_cons2, append_cons. Qed.

Lemma split_char_not_nil sep s : split_char sep s ≠ [].
Proof.
  destruct s as [|c s]; simpl; [done|].
  destruct (Ascii.eqb c sep); [done|]. by destruct (split_char sep s).
Qed.

Lemma split_char_join sep s : join (String sep "") (split_char sep s) = s.
Proof.
  induction s as [|c s IH]; [done|]. simpl.
  pose proof (split_char_not_nil sep s) as Hnil.
  destruct (split_char sep s) as [|hd tl]; [done|].
  destruct (Ascii.eqb_spec c sep) as [->|Hne].
  - by rewrite join_cons2, append_nil_l, append_cons, append_nil_l, IH.
  - by rewrite join_cons_byte, IH.
Qed.

Lemma drop_while_head {A} (f : A → bool) l a : head (drop_while f l) = Some a → f a = false.
Proof.
  induction l as [|b l IH]; [done|]. cbn. destruct (f b) eqn:E; [done|]. by intros [= <-].
Qed.

Lemma drop_while_idemp {A} (f : A → bool) l :
  drop_while f (drop_while f l) = drop_while f l.
Proof.
  induction l as [|x l IH]; [done|]. simpl. destruct (f x) eqn:E; [done|].
  simpl. by rewrite E.
Qed.

Lemma length_drop_while {A} (f : A → bool) l :
  (length (drop_while f l) ≤ length l)%nat.
Proof. induction l as [|x l IH]; simpl; [done|]. destruct (f x); simpl; lia. Qed.

Lemma string_rev_app a b : string_rev (a +:+ b) = string_rev b +:+ string_rev a.
Proof.
  induction a as [|c a IH]; simpl; [by rewrite append_nil_r|].
  rewrite IH. by rewrite append_assoc.
Qed.

Lemma length_append a b : String.length (a +:+ b) = (String.length a + String.length b)%nat.
Proof. induction a as [|c a IH]; [done|]. rewrite append_cons. cbn. by rewrite IH. Qed.

Lemma string_rev_involutive a : string_rev (string_rev a) = a.
Proof. induction a as [|c a IH]; simpl; [done|]. rewrite string_rev_app, IH. done. Qed.

Lemma ends_with_spec p s : ends_with p s = true ↔ ∃ r, s = r +:+ p.
Proof.
  unfold ends_with, strip_suffix, is_some, is_none.
  destruct (strip_prefix (string_rev p) (string_rev s)) as [r|] eqn:E; simpl.
  - split; [intros _|done]. apply strip_prefix_Some in E. exists (string_rev r).
    rewrite <-(string_rev_involutive s), E, string_rev_app, string_rev_involutive. done.
  - split; [done|]. intros [r ->]. rewrite string_rev_app in E.
    assert (strip_prefix (string_rev p) (string_rev p +:+ string_rev r) = Some (string_rev r))
      as E' by by apply strip_prefix_Some.
    congruence.
Qed.

Lemma join_snoc sep l x : l ≠ [] → join sep (l ++ [x]) = join sep l +:+ sep +:+ x.
Proof.
  induction l as [|y l IH]; [done|]. intros _. destruct l as [|z l]; [done|].
  change ((y :: z :: l) ++ [x]) with (y :: z :: (l ++ [x])).
  rewrite !join_cons2. change (z :: l ++ [x]) with ((z :: l) ++ [x]).
  rewrite IH by done. by rewrite !append_assoc.
Qed.

(** The text after the last separator is the whole text or a suffix of it
    that a separator precedes. *)
Lemma rsplit_first_suffix sep s :
  s = rsplit_first sep s ∨ ends_with (String sep (rsplit_first sep s)) s = true.
Proof.
  unfold rsplit_first. pose proof (split_char_join sep s) as Hj.
  pose proof (split_char_not_nil sep s) as Hn. revert Hj Hn.
  generalize (split_char sep s). intros parts.
  destruct parts as [|x l _] using rev_ind; [done|]. intros Hj _.
  rewrite List.last_last. destruct l as [|y l]; [by left|].
  right. apply ends_with_spec. rewrite join_snoc in Hj by done.
  eexists. by rewrite <-Hj at 1.
Qed.

(** ** Texts of single bytes *)

Definition single (c : string) : Prop :=
  match c with String a EmptyString => negb (is_continuation a) | _ => false end = true.

Lemma single_inv c : single c → ∃ a, c = String a "" ∧ is_continuation a = false.
Proof. unfold single. destruct c as [|a [|]]; [done| |done]. intros ?%negb_true_iff. by exists a. Qed.

Lemma chars_concat cs : Forall single cs → chars (concat_text cs) = cs.
Proof.
  induction 1 as [|c cs (a & -> & Ha)%single_inv Hcs IH]; [done|]. unfold concat_text in *. cbn [foldr].
  rewrite append_cons, append_nil_l. cbn [chars]. rewrite IH.
  destruct Hcs as [|c' cs (b & -> & Hb)%single_inv _]; [done|]. cbn [foldr].
  rewrite append_cons. cbn. by rewrite Hb.
Qed.

(** Facts of every character of a closed list, by evaluation. *)
Lemma all_chars (P : string → Prop) `{∀ c, Decision (P c)} l c :
  forallb (λ c, bool_decide (P c)) l = true → c ∈ l → P c.
Proof.
  rewrite forallb_forall. intros HP Hc%list_elem_of_In. by eapply bool_decide_eq_true_1, HP.
Qed.

Lemma drop_while_id {A} (f : A → bool) l : (∀ a, head l = Some a → f a = false) → drop_while f l = l.
Proof. destruct l as [|a l]; [done|]. cbn. intros H. by rewrite (H a). Qed.

(** ** Splitting at a byte *)

Fixpoint no_byte (c : Ascii.ascii) (s : string) : bool :=
  match s with
  | EmptyString => true
  | String d s => negb (Ascii.eqb d c) && no_byte c s
  end.

Lemma split_char_newline c s : split_char c (String c s) = "" :: split_char c s.
Proof. cbn [split_char]. by rewrite Ascii.eqb_refl. Qed.

Lemma split_char_push c d s : Ascii.eqb d c = false →
  split_char c (String d s) =
  match split_char c s with hd :: tl => String d hd :: tl | [] => [String d ""] end.
Proof. cbn [split_char]. by intros ->. Qed.

Lemma no_byte_cons c d s : no_byte c (String d s) = true →
  Ascii.eqb d c = false ∧ no_byte c s = true.
Proof. cbn [no_byte]. by intros [Hd%negb_true_iff Hs]%andb_true_iff. Qed.

Lemma split_char_line c s : no_byte c s = true → split_char c s = [s].
Proof.
  induction s as [|d s IH]; [done|]. intros [Hd Hs]%no_byte_cons.
  by rewrite split_char_push, (IH Hs).
Qed.

Lemma split_char_cons c s rest : no_byte c s = true →
  split_char c (s +:+ String c rest) = s :: split_char c rest.
Proof.
  induction s as [|d s IH]; [intros _; apply split_char_newline|].
  intros [Hd Hs]%no_byte_cons. by rewrite append_cons, split_char_push, (IH Hs).
Qed.

Lemma split_once_byte c a b : no_byte c a = true →
  split_once (String c "") (a +:+ String c b) = Some (a, b).
Proof.
  induction a as [|d a IH].
  - intros _. rewrite append_nil_l. cbn. rewrite Ascii.eqb_refl. by destruct b.
  - intros [Hd Ha]%no_byte_cons. rewrite append_cons. cbn [split_once strip_prefix].
    rewrite Ascii.eqb_sym, Hd, (IH Ha). done.
Qed.

Lemma no_byte_app c a b : no_byte c (a +:+ b) = no_byte c a && no_byte c b.
Proof. induction a as [|d a IH]; [done|]. rewrite append_cons. cbn. by rewrite IH, andb_assoc. Qed.

Lemma split_char_joined c l : l ≠ [] → Forall (λ s, no_byte c s = true) l →
  split_char c (join (String c "") l) = l.
Proof.
  induction l as [|x [|y l] IH]; [done|intros _ [Hx _]%Forall_cons; by apply split_char_line|].
  intros _ [Hx Hl]%Forall_cons. rewrite join_cons2. change (String c "" +:+ ?s) with (String c s).
  by rewrite split_char_cons, IH.
Qed.

(** ** Visible texts *)

(** An ASCII byte that prints and is no space. *)
Definition graphic (c : Ascii.ascii) : bool :=
  let n := Ascii.N_of_ascii c in ((33 <=? n) && (n <=? 126))%N.

Fixpoint visible (s : string) : bool :=
  match s with
  | EmptyString => true
  | String c s => graphic c && visible s
  end.

Lemma visible_app a b : visible (a +:+ b) = visible a && visible b.
Proof. induction a as [|c a IH]; [done|]. rewrite append_cons. cbn. by rewrite IH, andb_assoc. Qed.

Lemma graphic_spec c : graphic c = true → single (String c "") ∧ is_whitespace (String c "") = false.
Proof. by destruct c as [[] [] [] [] [] [] [] []]; vm_compute. Qed.

Lemma visible_chars s : visible s = true →
  ∃ cs, s = concat_text cs ∧ Forall (λ c, single c ∧ is_whitespace c = false) cs.
Proof.
  induction s as [|c s IH]; [by exists []|]. cbn. intros [Hc%graphic_spec (cs & -> & Hs)%IH]%andb_true_iff.
  exists (String c "" :: cs). split; [done|]. by constructor.
Qed.

Lemma trim_concat cs : Forall (λ c, single c ∧ is_whitespace c = false) cs →
  trim (concat_text cs) = concat_text cs.
Proof.
  intros Hc. assert (Hs : Forall single cs) by (eapply Forall_impl; [done|]; by intros c [? _]).
  assert (Hw : ∀ a l, Forall (λ c, single c ∧ is_whitespace c = false) l → head l = Some a → is_whitespace a = false).
  { intros a l Hl Ha. destruct l as [|b l]; [done|]. injection Ha as ->. by apply Forall_cons in Hl as [[_ Hb] _]. }
  unfold trim, trim_by. rewrite (chars_concat cs Hs).
  rewrite (drop_while_id _ cs), (drop_while_id _ (rev cs)); [by rewrite rev_involutive| |]; intros a; apply Hw; [|done].
  by apply Forall_rev.
Qed.

Lemma trim_visible s : visible s = true → trim s = s.
Proof. intros (cs & -> & H)%visible_chars. by apply trim_concat. Qed.
