(* ===== verification/Json.v ===== *)
(** * JSON values

    [serde_json::Value] with its default [BTreeMap] objects: an object is an
    association list kept in key order by [obj_insert], which is also the
    order of iteration. Numbers keep serde's three representations, so that
    [as_i64] refuses floats and out-of-range integers as the crate does. *)

From S2P Require Import Prelude Text.

Inductive number : Type :=
  | PosInt (n : Z)     (** a [u64] *)
  | NegInt (p : positive)  (** the negative [i64] [-p] *)
  | Float (bits : Z).  (** an [f64] by its bits; never NaN *)

Inductive Value : Type :=
  | Null
  | Bool (b : bool)
  | Number (n : number)
  | Str (s : string)
  | Array (l : list Value)
  | Object (m : list (string * Value)).

#[export] Instance number_eq_dec : EqDecision number.
Proof. solve_decision. Defined.

Abbreviation object := (list (string * Value)).

(** ** Reading *)

Fixpoint obj_get (k : string) (m : object) : option Value :=
  match m with
  | [] => None
  | (k', v) :: m => if bool_decide (k = k') then Some v else obj_get k m
  end.

(** [Value::get] with a string key. *)
Definition get (v : Value) (k : string) : option Value :=
  match v with Object m => obj_get k m | _ => None end.

(** [value[key]] on a shared reference: [Null] when absent. *)
Definition index (v : Value) (k : string) : Value := default Null (get v k).

Definition as_str (v : Value) : option string :=
  match v with Str s => Some s | _ => None end.
Definition as_array (v : Value) : option (list Value) :=
  match v with Array l => Some l | _ => None end.
Definition as_object (v : Value) : option object :=
  match v with Object m => Some m | _ => None end.
Definition is_object (v : Value) : bool :=
  match v with Object _ => true | _ => false end.
Definition is_null (v : Value) : bool :=
  match v with Null => true | _ => false end.

Definition as_i64 (v : Value) : option Z :=
  match v with
  | Number (PosInt n) => if n <=? i64_max then Some n else None
  | Number (NegInt p) => Some (Z.neg p)
  | _ => None
  end.

(** The value at a path of object keys. *)
Fixpoint at_path (v : Value) (path : list string) : option Value :=
  match path with
  | [] => Some v
  | k :: path => v' ← get v k; at_path v' path
  end.

(** ** Writing *)

Fixpoint obj_insert (k : string) (v : Value) (m : object) : object :=
  match m with
  | [] => [(k, v)]
  | (k', v') :: m' =>
      if bool_decide (k = k') then (k, v) :: m'
      else if string_ltb k k' then (k, v) :: m
      else (k', v') :: obj_insert k v m'
  end.

(** [json!({...})] *)
Definition json_object (fields : list (string * Value)) : Value :=
  Object (foldl (λ m f, obj_insert f.1 f.2 m) [] fields).

(** [json!] of an optional string. *)
Definition json_opt_str (o : option string) : Value :=
  match o with Some s => Str s | None => Null end.

(** ** Equality, as [Value: PartialEq] decides it

    Objects compare as maps; floats compare as numbers, so the two zeros are
    equal. *)

Definition float_zero (bits : Z) : bool :=
  (bits =? 0) || (bits =? 2 ^ 63).

Definition number_eqb (a b : number) : bool :=
  match a, b with
  | PosInt a, PosInt b => a =? b
  | NegInt a, NegInt b => Pos.eqb a b
  | Float a, Float b => (a =? b) || (float_zero a && float_zero b)
  | _, _ => false
  end.

Fixpoint value_eqb (a b : Value) {struct a} : bool :=
  match a, b with
  | Null, Null => true
  | Bool a, Bool b => Bool.eqb a b
  | Number a, Number b => number_eqb a b
  | Str a, Str b => bool_decide (a = b)
  | Array a, Array b =>
      (fix go (a b : list Value) {struct a} : bool :=
         match a, b with
         | [], [] => true
         | x :: a, y :: b => value_eqb x y && go a b
         | _, _ => false
         end) a b
  | Object a, Object b =>
      (fix go (a b : object) {struct a} : bool :=
         match a, b with
         | [], [] => true
         | (k, x) :: a, (k', y) :: b => bool_decide (k = k') && value_eqb x y && go a b
         | _, _ => false
         end) a b
  | _, _ => false
  end.

(** ** Lemmas *)

Lemma obj_get_insert_eq k v m : obj_get k (obj_insert k v m) = Some v.
Proof.
  induction m as [|[k' v'] m IH]; simpl; [by rewrite bool_decide_true|].
  case_bool_decide; simpl; [by rewrite bool_decide_true|].
  destruct (string_ltb k k'); simpl; [by rewrite bool_decide_true|].
  by rewrite bool_decide_false.
Qed.

Lemma obj_get_insert_ne k k' v m :
  k ≠ k' → obj_get k (obj_insert k' v m) = obj_get k m.
Proof.
  intros Hne. induction m as [|[k2 v2] m IH]; simpl.
  - by rewrite bool_decide_false.
  - case_bool_decide as Hk2.
    + subst. simpl. by rewrite !(bool_decide_false (k = k2)).
    + destruct (string_ltb k' k2); simpl.
      * by rewrite (bool_decide_false (k = k')).
      * case_bool_decide; [done|apply IH].
Qed.

Lemma get_object k m : get (Object m) k = obj_get k m.
Proof. done. Qed.

Lemma as_i64_in_i64 v z : as_i64 v = Some z →
  match v with Number (NegInt p) => in_i64 (Z.neg p) | Number (PosInt n) => 0 ≤ n | _ => True end →
  in_i64 z.
Proof.
  destruct v as [| |[n|n|n]| | |]; simpl; try done.
  - destruct (Z.leb_spec n i64_max); [|done]. intros [= <-] ?.
    unfold in_i64, i64_min, i64_max in *. lia.
  - by intros [= <-].
Qed.

Create Rewrite HintDb sulion_json.
#[export] Hint Rewrite obj_get_insert_eq get_object : sulion_json.
