(* ===== verification/Events.v ===== *)
(** * Canonical events and how the timeline reads them

    The block and event records of [ingest/canonical/types.rs] and
    [ingest/timeline/types.rs], and the predicates of
    [ingest/timeline/events.rs]: who spoke, whether the event is a prompt, a
    tool call or result, or bookkeeping, and its display text. *)

From S2P Require Import Prelude Text Json.

(** ** Canonical data *)

Inductive OperationCategory : Type :=
  | CreateContent | Inspect | Utility | Research | Delegate | Workflow | Plan
  | OtherCategory.

#[export] Instance OperationCategory_eq_dec : EqDecision OperationCategory.
Proof. solve_decision. Defined.

Module OperationCategories.

Definition as_str (c : OperationCategory) : string :=
match c with
| CreateContent => "create_content"
| Inspect => "inspect"
| Utility => "utility"
| Research => "research"
| Delegate => "delegate"
| Workflow => "workflow"
| Plan => "plan"
| OtherCategory => "other"
end.

Definition all : list OperationCategory :=
[CreateContent; Inspect; Utility; Research; Delegate; Workflow; Plan; OtherCategory].

Definition parse (raw : string) : option OperationCategory :=
if bool_decide (raw = "create_content") then Some CreateContent
else if bool_decide (raw = "inspect") then Some Inspect
else if bool_decide (raw = "utility") then Some Utility
else if bool_decide (raw = "research") then Some Research
else if bool_decide (raw = "delegate") then Some Delegate
else if bool_decide (raw = "workflow") then Some Workflow
else if bool_decide (raw = "plan") then Some Plan
else if bool_decide (raw = "other") then Some OtherCategory
else None.

End OperationCategories.

Inductive BlockKind : Type :=
  | BText | BThinking | BToolUse | BToolResult | BUnknown.

#[export] Instance BlockKind_eq_dec : EqDecision BlockKind.
Proof. solve_decision. Defined.

Record Block : Type := mkBlock {
  ord : Z;
  kind : BlockKind;
  text : option string;
  tool_id : option string;
  tool_name : option string;
  tool_name_canonical : option string;
  block_operation_type : option string;
  operation_category : option OperationCategory;
  tool_input : option Value;
  tool_output : option Value;
  block_is_error : option bool;
  raw : option Value;
}.

(** [Block::text] and [Block::unknown] *)
Definition block_text (ord : Z) (text : string) : Block :=
  mkBlock ord BText (Some text) None None None None None None None None None.
Definition block_unknown (ord : Z) (raw : Value) : Block :=
  mkBlock ord BUnknown None None None None None None None None None (Some raw).

(** A stored event, as [load_session_events] yields it. Timestamps are whole
    microseconds since the epoch, the precision of the [TIMESTAMPTZ] column
    they are read from. *)
Record StoredEvent : Type := mkEvent {
  byte_offset : Z;
  timestamp : Z;
  ev_kind : string;
  agent : string;
  speaker : option string;
  content_kind : option string;
  event_uuid : option string;
  parent_event_uuid : option string;
  related_tool_use_id : option string;
  is_sidechain : bool;
  is_meta : bool;
  subtype : option string;
  usage_json : option Value;
  usage_message_id : option string;
  blocks : list Block;
}.

(** ** Bookkeeping *)

Definition LOCAL_COMMAND_PREFIXES : list string :=
  ["<command-name>"; "<command-message>"; "<local-command-stdout>";
   "<local-command-stderr>"; "<local-command-caveat>"].

Definition is_local_command_text (text : string) : bool :=
  let text := trim_start text in
  existsb (λ prefix, starts_with prefix text) LOCAL_COMMAND_PREFIXES.

Definition BOOKKEEPING_SYSTEM_SUBTYPES : list string :=
  ["stop_hook_summary"; "turn_duration"; "runtime_evidence"].

Definition is_bookkeeping_system_subtype (subtype : option string) : bool :=
  match subtype with
  | Some subtype => bool_decide (subtype ∈ BOOKKEEPING_SYSTEM_SUBTYPES)
  | None => false
  end.

Definition BOOKKEEPING_KINDS : list string :=
  ["agent-name"; "api-request"; "api-request-blob"; "ai-title"; "attachment";
   "bridge-session"; "custom-title"; "cost-state"; "file-history-delta";
   "file-history-snapshot"; "frame-link"; "last-prompt";
   "inter_agent_communication_metadata"; "mode"; "permission-mode";
   "queue-operation"; "world_state"; "token_usage_record"; "atis-latch"].

Definition record_speaker (kind : string) (speaker : option string) : string :=
  default (if bool_decide (kind ∈ ["assistant"; "user"; "system"; "summary"])
           then kind else "other") speaker.

Definition is_text_block (b : Block) : bool := bool_decide (kind b = BText).

Definition is_bookkeeping_record (kind : string) (speaker subtype : option string)
    (is_meta : bool) (blocks : list Block) : bool :=
  let speaker := record_speaker kind speaker in
  (bool_decide (speaker = "other") && bool_decide (length blocks = 0%nat))
  || is_meta
  || (bool_decide (kind ∈ BOOKKEEPING_KINDS)
      && negb (bool_decide (subtype = Some "queued_user_prompt")))
  || (bool_decide (speaker = "system") && is_bookkeeping_system_subtype subtype)
  || (bool_decide (speaker = "user")
      && match List.find is_text_block blocks ≫= text with
         | Some t => is_local_command_text t
         | None => false
         end).

Definition event_speaker (event : StoredEvent) : string :=
  record_speaker (ev_kind event) (speaker event).

Definition is_bookkeeping_event (event : StoredEvent) : bool :=
  is_bookkeeping_record (ev_kind event) (speaker event) (subtype event)
    (is_meta event) (blocks event).

(** ** Reading an event *)

Record ToolUseView : Type := mkToolUse {
  use_id : option string;
  use_name : string;
  use_raw_name : option string;
  use_operation_type : option string;
  use_category : option OperationCategory;
  use_input : option Value;
  use_is_error : bool;
}.

Definition blocks_of (k : BlockKind) (event : StoredEvent) : list Block :=
  List.filter (λ b, bool_decide (kind b = k)) (blocks event).

Definition tool_use_view (block : Block) : ToolUseView :=
  mkToolUse (tool_id block)
    (default "unknown" (or_else (tool_name_canonical block) (tool_name block)))
    (tool_name block) (block_operation_type block) (operation_category block)
    (tool_input block) (default false (block_is_error block)).

Definition tool_uses_in (event : StoredEvent) : list ToolUseView :=
  tool_use_view <$> blocks_of BToolUse event.

Definition text_blocks_in (event : StoredEvent) : list string :=
  omap text (blocks_of BText event).

Definition thinking_texts_in (event : StoredEvent) : list string :=
  List.filter (λ t, negb (is_empty t))
    (trim <$> omap text (blocks_of BThinking event)).

Definition has_useful_thinking (event : StoredEvent) : bool :=
  negb (bool_decide (length (thinking_texts_in event) = 0%nat)).

Definition is_tool_result_event (event : StoredEvent) : bool :=
  existsb (λ b, bool_decide (kind b = BToolResult)) (blocks event).

Definition is_claude_task_notification (event : StoredEvent) : bool :=
  bool_decide (agent event = "claude-code")
  && existsb (λ block,
       bool_decide (kind block = BText)
       && match text block with
          | None => false
          | Some text =>
              let text := trim text in
              starts_with "<task-notification>" text
              && ends_with "</task-notification>" text
              && contains "<task-id>" text
          end) (blocks event).

Definition is_real_user_prompt (event : StoredEvent) : bool :=
  bool_decide (event_speaker event = "user")
  && negb (is_bookkeeping_event event)
  && negb (is_tool_result_event event)
  && negb (is_claude_task_notification event).

Definition is_assistant_event (event : StoredEvent) : bool :=
  bool_decide (event_speaker event = "assistant").
Definition is_summary_event (event : StoredEvent) : bool :=
  bool_decide (event_speaker event = "summary").
Definition is_system_event (event : StoredEvent) : bool :=
  bool_decide (event_speaker event = "system").

Definition advances_turn_time (event : StoredEvent) : bool :=
  match subtype event with
  | Some s => bool_decide (s ∈ ["turn_duration"; "stop_hook_summary"])
  | None => false
  end || negb (is_bookkeeping_event event).

Definition user_prompt_text (event : StoredEvent) : string :=
  join " " (text_blocks_in event).

(** [render::truncate] *)
Definition truncate (text : string) (max : Z) : string :=
  if chars_count text <=? max then text
  else take_chars (Z.to_nat (Z.max 0 (max - 1))) text +:+ ellipsis.

Definition first_paragraph (text : string) (max : Z) : string :=
  let trimmed := trim text in
  if is_empty trimmed then ""
  else
    let paragraphs := split_str (newline +:+ newline) trimmed in
    let first := join " " (split_whitespace (default trimmed (head paragraphs))) in
    let has_more := existsb (λ part, negb (is_empty (trim part))) (tail paragraphs) in
    if chars_count first <=? max
    then if has_more then first +:+ " " +:+ ellipsis else first
    else truncate first max.

(** ** Lemmas *)

Lemma parse_as_str c : OperationCategories.parse (OperationCategories.as_str c) = Some c.
Proof. by destruct c. Qed.

Lemma prompt_not_bookkeeping event :
  is_real_user_prompt event = true → is_bookkeeping_event event = false.
Proof. unfold is_real_user_prompt. rewrite !andb_true_iff, !negb_true_iff. tauto. Qed.

Lemma prompt_not_result event :
  is_real_user_prompt event = true → is_tool_result_event event = false.
Proof. unfold is_real_user_prompt. rewrite !andb_true_iff, !negb_true_iff. tauto. Qed.

#[export] Hint Resolve prompt_not_bookkeeping prompt_not_result : sulion.
