(* ===== verification/Runtime.v ===== *)
(** * Runtime evidence

    [ingest/timeline/runtime.rs]: completed runtime items fold into the call
    they belong to, first into its input and then into its result payload. *)

From S2P Require Import Prelude Text Json Events.

(** The runtime evidence carried by a tool-result block, if it is one. *)
Definition runtime_evidence (block : Block) : option Value :=
  value ← tool_output block;
  _ ← get value "runtime_item";
  Some value.

Definition fails_call (category : option OperationCategory) (evidence : Value) : bool :=
  negb (bool_decide (category = Some CreateContent))
  || bool_decide (as_str (index (index evidence "runtime_item") "type") = Some "FileChange").

Definition uncorrelated_text (item : Value) : string :=
  "Uncorrelated runtime evidence: " +:+ default "unknown" (as_str (index item "type"))
  +:+ " (" +:+ default "unknown id" (as_str (index item "id"))
  +:+ ") — " +:+ default "completed" (as_str (index item "status")).

(** Evidence that matched no single call stays on its own event. *)
Definition mark_uncorrelated (event : StoredEvent) (evidence : Value) : StoredEvent :=
  let item := index evidence "runtime_item" in
  mkEvent (byte_offset event) (timestamp event) (ev_kind event) (agent event)
    (speaker event) (Some "text") (event_uuid event) (parent_event_uuid event)
    (related_tool_use_id event) (is_sidechain event) true (Some "runtime_evidence")
    (usage_json event) (usage_message_id event)
    [block_text 0 (uncorrelated_text item); block_unknown 1 evidence].

(** [push]: append to the array under [key], created when the key is absent;
    a value of another type there is left alone. *)
Definition push (obj : object) (key : string) (value : Value) : object :=
  match obj_get key obj with
  | None => obj_insert key (Array [value]) obj
  | Some (Array l) => obj_insert key (Array (l ++ [value])) obj
  | Some _ => obj
  end.

(** The object evidence is folded into: an existing object, or a fresh one
    that keeps a non-object value under [keep]. *)
Definition evidence_target (keep : string) (o : option Value) : object :=
  match o with
  | None => []
  | Some (Object m) => m
  | Some v => obj_insert keep v []
  end.

(** [edits.iter_mut().find(|e| e["path"] == edit["path"])], replaced in place
    or pushed. *)
Fixpoint replace_edit (edit : Value) (edits : list Value) : option (list Value) :=
  match edits with
  | [] => None
  | e :: edits =>
      if value_eqb (index e "path") (index edit "path") then Some (edit :: edits)
      else cons e <$> replace_edit edit edits
  end.

Definition file_edit (item : Value) (path : string) (change : Value) : Value :=
  let move_path := get change "move_path" ≫= as_str in
  json_object
    [("path", Str (default path move_path));
     ("old_path", json_opt_str (if is_some move_path then Some path else None));
     ("operation", index change "type");
     ("diff", index change "unified_diff");
     ("content", index change "content");
     ("status", index item "status")].

Definition attach_file_edit (item : Value) (input : object) (pc : string * Value) : object :=
  let edit := file_edit item pc.1 pc.2 in
  let input := match obj_get "file_edits" input with
               | None => obj_insert "file_edits" (Array []) input
               | Some _ => input
               end in
  match obj_get "file_edits" input with
  | Some (Array edits) =>
      obj_insert "file_edits" (Array (default (edits ++ [edit]) (replace_edit edit edits))) input
  | _ => input
  end.

Definition attach_command (item : Value) (input : object) : object :=
  if bool_decide (get item "type" ≫= as_str = Some "CommandExecution") then
    let input :=
      if is_some (obj_get "command" input) then input
      else match get item "command" ≫= as_array with
           | Some command => obj_insert "command" (Str (join " " (omap as_str command))) input
           | None => input
           end in
    if is_some (obj_get "cwd" input) then input
    else obj_insert "cwd" (index item "cwd") input
  else input.

(** Fold one piece of runtime evidence into the call's input. *)
Definition attach_to_input (input : option Value) (evidence : Value) : option Value :=
  let item := index evidence "runtime_item" in
  let input := push (evidence_target "original_input" input) "runtime_items" evidence in
  let input := attach_command item input in
  Some (Object (match get item "changes" ≫= as_object with
                | Some changes => foldl (attach_file_edit item) input changes
                | None => input
                end)).

(** Fold one piece of runtime evidence into the call's result payload. *)
Definition attach_to_output (output : option Value) (evidence : Value) : option Value :=
  Some (Object (push (evidence_target "original_output" output) "runtime_items" evidence)).

(** The cell named by a result whose first line says it is still running. *)
Definition running_cell (text : option string) : option string :=
  text ← text;
  line ← first_line text;
  rest ← strip_prefix "Script running with cell ID " line;
  head (split_whitespace rest).

(** ** Lemmas *)

Lemma obj_get_push_eq obj key value l :
  default (Array []) (obj_get key obj) = Array l →
  obj_get key (push obj key value) = Some (Array (l ++ [value])).
Proof.
  unfold push. destruct (obj_get key obj) as [v|] eqn:E; simpl.
  - intros ->. apply obj_get_insert_eq.
  - intros [= <-]. apply obj_get_insert_eq.
Qed.

Lemma obj_get_push_ne obj key key' value :
  key ≠ key' → obj_get key (push obj key' value) = obj_get key obj.
Proof.
  intros Hne. unfold push. destruct (obj_get key' obj) as [[]|]; try done;
    by apply obj_get_insert_ne.
Qed.

Lemma attach_file_edit_other item input pc k :
  k ≠ "file_edits" → obj_get k (attach_file_edit item input pc) = obj_get k input.
Proof.
  intros Hk. unfold attach_file_edit.
  destruct (obj_get "file_edits" input) as [v|] eqn:E.
  - rewrite E. destruct v; try done. by apply obj_get_insert_ne.
  - rewrite obj_get_insert_eq. by rewrite !obj_get_insert_ne.
Qed.

Lemma attach_command_other item input k :
  k ≠ "command" → k ≠ "cwd" → obj_get k (attach_command item input) = obj_get k input.
Proof.
  intros Hc Hw. unfold attach_command. case_bool_decide; [|done].
  set (input1 := if is_some (obj_get "command" input) then input else _).
  assert (obj_get k input1 = obj_get k input) as Hk.
  { subst input1. destruct (is_some _); [done|].
    destruct (get item "command" ≫= as_array); [|done]. by apply obj_get_insert_ne. }
  destruct (is_some (obj_get "cwd" input1)); [done|].
  by rewrite obj_get_insert_ne.
Qed.

Lemma attach_file_edits_other item changes input k :
  k ≠ "file_edits" →
  obj_get k (foldl (attach_file_edit item) input changes) = obj_get k input.
Proof.
  intros Hk. revert input. induction changes as [|c changes IH]; intros input; simpl; [done|].
  rewrite IH. by apply attach_file_edit_other.
Qed.
