(* ===== verification/Render.v ===== *)
(** * Visible items and the turn digest

    The timeline chunks of [ingest/timeline/types.rs], the visible item of an
    event ([visible_item] in [reduce.rs], [agent_messages.rs]) and the digest
    of a turn ([render.rs]). *)

From S2P Require Import Prelude Text Json Events.

(** ** Chunks *)

Inductive TimelineAssistantItem : Type :=
  | AText (text : string)
  | ATool (pair_id : string).

Record TimelineGenericDetails : Type := mkDetails {
  gd_event_uuid : option string;
  gd_parent_event_uuid : option string;
  gd_related_tool_use_id : option string;
  gd_subtype : option string;
  gd_speaker : option string;
  gd_content_kind : option string;
  gd_blocks : list Block;
}.

Inductive TimelineChunk : Type :=
  | ChunkAssistant (items : list TimelineAssistantItem) (thinking : list string)
  | ChunkSummary (subtype : option string) (text : string)
  | ChunkSystem (subtype : option string) (text : string) (is_meta : bool)
  | ChunkAgentMessage (author recipient : string) (message_type : option string)
      (text : string)
  | ChunkGeneric (label : string) (details : TimelineGenericDetails) (is_meta : bool).

(** Classification on read, for items stored by older projections. *)
Definition classify_bookkeeping (chunk : TimelineChunk) : TimelineChunk :=
  match chunk with
  | ChunkSystem subtype text is_meta =>
      ChunkSystem subtype text (is_meta || is_bookkeeping_system_subtype subtype)
  | ChunkGeneric label details is_meta =>
      ChunkGeneric label details
        (is_bookkeeping_record label (gd_speaker details) (gd_subtype details)
           is_meta (gd_blocks details))
  | _ => chunk
  end.

Record TimelineFileTouch : Type := mkTouch {
  repo : string;
  path : string;
  touch_kind : string;
  is_write : bool;
}.

#[export] Instance TimelineFileTouch_eq_dec : EqDecision TimelineFileTouch.
Proof. solve_decision. Defined.

Record TimelineToolResult : Type := mkResult {
  tr_content : option string;
  tr_payload : option Value;
  tr_is_error : bool;
}.

(** A tool pair without its touches and subagent reference, which readers add. *)
Record TimelineToolPair : Type := mkPair {
  tp_id : string;
  tp_name : string;
  tp_raw_name : option string;
  tp_operation_type : option string;
  tp_category : option OperationCategory;
  tp_input : option Value;
  tp_result : option TimelineToolResult;
  tp_is_error : bool;
  tp_is_pending : bool;
}.

(** ** Agent messages *)

(** Strip only a complete harness envelope. *)
Definition unwrap_envelope (text : string) : option (string * string) :=
  r ← strip_prefix "Message Type: " text;
  '(message_type, rest) ← split_once newline r;
  r ← strip_prefix "Task name: " rest;
  '(_, rest) ← split_once newline r;
  r ← strip_prefix "Sender: " rest;
  '(_, rest) ← split_once newline r;
  body ← strip_prefix "Payload:" rest;
  Some (trim message_type,
        default body
          (or_else (strip_prefix (bytes [13%N] +:+ newline) body)
             (or_else (strip_prefix newline body) (strip_prefix " " body)))).

Definition agent_message (event : StoredEvent) : option TimelineChunk :=
  if bool_decide (agent event = "codex")
     && bool_decide (subtype event = Some "agent_message") then
    match text_blocks_in event with
    | [] => None
    | route :: rest =>
        route ← strip_prefix "Agent message: " route;
        '(author, recipient) ← split_once " → " route;
        let text := join (newline +:+ newline) rest in
        let envelope := unwrap_envelope text in
        Some (ChunkAgentMessage author recipient (fst <$> envelope)
                (default text (snd <$> envelope)))
    end
  else None.

(** ** The visible item of an event *)

Definition assistant_item (block : Block) : list TimelineAssistantItem :=
  match kind block with
  | BText => match text block with
             | Some text => if is_empty text then [] else [AText text]
             | None => []
             end
  | BToolUse => match tool_id block with Some pair_id => [ATool pair_id] | None => [] end
  | _ => []
  end.

Definition assistant_thinking (block : Block) : list string :=
  match kind block, text block with
  | BThinking, Some text => let text := trim text in if is_empty text then [] else [text]
  | _, _ => []
  end.

Definition visible_item (event : StoredEvent) : option TimelineChunk :=
  if is_tool_result_event event then None
  else if is_assistant_event event then
    let items := blocks event ≫= assistant_item in
    let thinking := blocks event ≫= assistant_thinking in
    match items, thinking with
    | [], [] => None
    | _, _ => Some (ChunkAssistant items thinking)
    end
  else
    match agent_message event with
    | Some message => Some message
    | None =>
        let text := join " " (text_blocks_in event) in
        Some (if is_summary_event event then ChunkSummary (subtype event) text
              else if is_system_event event then
                ChunkSystem (subtype event) text (is_bookkeeping_event event)
              else
                ChunkGeneric (ev_kind event)
                  (mkDetails (event_uuid event) (parent_event_uuid event)
                     (related_tool_use_id event) (subtype event) (speaker event)
                     (content_kind event) (blocks event))
                  (is_bookkeeping_event event))
    end.

(** ** The turn digest *)

Definition pair_operation_type (pair : TimelineToolPair) : string :=
  default (tp_name pair) (tp_operation_type pair).

Definition one_of (s : string) (l : list string) : bool := bool_decide (s ∈ l).

Definition tool_summary (input : object) (op : string) : string :=
  let pick key := obj_get key input ≫= as_str in
  default ""
    (if one_of op ["edit"; "write"; "multi_edit"; "read"] then pick "path"
     else if one_of op ["bash"; "exec"] then or_else (pick "description") (pick "command")
     else if one_of op ["exec_command"] then or_else (pick "cmd") (pick "command")
     else if one_of op ["grep"; "glob"] then pick "pattern"
     else if one_of op ["task"] then or_else (pick "description") (pick "agent")
     else if one_of op ["web_fetch"] then pick "url"
     else if one_of op ["web_search"] then pick "query"
     else or_else (pick "command") (pick "cmd")).

Definition first_edit_path (input : object) : string :=
  default ""
    (entries ← obj_get "file_edits" input ≫= as_array;
     entry ← head entries;
     get entry "path" ≫= as_str).

Definition tool_one_line (pair : TimelineToolPair) : string :=
  match tp_input pair with
  | Some (Object input) =>
      let summary := tool_summary input (pair_operation_type pair) in
      let summary := if is_empty summary then first_edit_path input else summary in
      if is_empty summary then "" else " `" +:+ truncate summary 160 +:+ "`"
  | _ => ""
  end.

Definition tool_status (pair : TimelineToolPair) : string :=
  if tp_is_pending pair then " _(pending)_"
  else if tp_is_error pair then " _(error)_" else "".

Definition format_tool_pair_markdown (pair : TimelineToolPair) : string :=
  "**Tool:** `" +:+ pair_operation_type pair +:+ "`" +:+ tool_one_line pair
  +:+ tool_status pair.

Definition format_prompt (text : string) : string :=
  "**Prompt**" +:+ newline +:+ newline
  +:+ join newline ((λ line, "> " +:+ line) <$> split_char (Ascii.ascii_of_N 10) text).

(** A [HashMap] collected from the pairs: the last pair with an id wins. *)
Definition pair_by_id (pairs : list TimelineToolPair) (id : string) : option TimelineToolPair :=
  List.find (λ p, bool_decide (tp_id p = id)) (rev pairs).

Definition assistant_part (pairs : list TimelineToolPair) (part : TimelineAssistantItem)
    : list string :=
  match part with
  | AText text => [trim text]
  | ATool pair_id =>
      match pair_by_id pairs pair_id with
      | Some tool => [format_tool_pair_markdown tool]
      | None => []
      end
  end.

Definition chunk_parts (pairs : list TimelineToolPair) (chunk : TimelineChunk) : list string :=
  match chunk with
  | ChunkAssistant items _ => items ≫= assistant_part pairs
  | ChunkAgentMessage author recipient message_type text =>
      ["**Agent " +:+ default "MESSAGE" message_type +:+ ":** " +:+ author +:+ " → "
       +:+ recipient +:+ newline +:+ newline +:+ text]
  | ChunkSystem (Some subtype) text _ =>
      if bool_decide (subtype = "agent_message") then [trim text] else []
  | _ => []
  end.

(** The digest of a stored turn: its prompt, then each item's assistant text
    and tool calls, and agent messages, in order. *)
Definition compose_turn_markdown (user_prompt_text : option string)
    (items : list (Z * TimelineChunk)) (pairs : list TimelineToolPair) : string :=
  let prompt := match user_prompt_text with
                | Some text => if is_empty (trim text) then [] else [format_prompt text]
                | None => []
                end in
  let parts := prompt ++ (items ≫= λ item, chunk_parts pairs item.2) in
  join (newline +:+ newline) (List.filter (λ part, negb (is_empty part)) parts).

Definition subagent_title (pair : TimelineToolPair) : string :=
  match tp_input pair with
  | Some (Object input) =>
      match obj_get "description" input ≫= as_str with
      | Some description => "Agent log · " +:+ description
      | None =>
          match obj_get "agent" input ≫= as_str with
          | Some agent => "Agent log · " +:+ agent
          | None => "Agent log"
          end
      end
  | _ => "Agent log"
  end.

(** ** Lemmas *)

Lemma classify_bookkeeping_idemp chunk :
  classify_bookkeeping (classify_bookkeeping chunk) = classify_bookkeeping chunk.
Proof.
  destruct chunk; simpl; try done.
  - by rewrite <-orb_assoc, orb_diag.
  - f_equal. unfold is_bookkeeping_record.
    by destruct (_ && _), is_meta, (_ && _), (_ && _), (_ && _).
Qed.
