(* ===== verification/FileTouches.v ===== *)
(** * File touches

    [ingest/timeline/file_touches.rs] with the [std::path] operations it uses
    and [workspace::resolve_in_repo]: which repository files a tool call names.
    The file system is only asked whether a path is a directory, exists, and
    what it canonicalizes to; those answers are a parameter ([Fs]). *)

From S2P Require Import Prelude Text Json Events Render.

(** ** Unix paths ([std::path]) *)

Inductive Component : Type :=
  | RootDir | CurDir | ParentDir | Normal (s : string).

#[export] Instance Component_eq_dec : EqDecision Component.
Proof. solve_decision. Defined.

Definition slash : Ascii.ascii := "/"%char.
Definition is_absolute (p : string) : bool := starts_with "/" p.
Definition segments (p : string) : list string := split_char slash p.

(** The segments after the root, and those a [Components] walk skips. *)
Definition body (p : string) : list string :=
  if is_absolute p then tail (segments p) else segments p.
Definition skipped (seg : string) : bool := one_of seg [""; "."].

Definition component_of (seg : string) : Component :=
  if bool_decide (seg = "..") then ParentDir else Normal seg.

Definition leading_cur_dir (p : string) : bool :=
  negb (is_absolute p) && bool_decide (head (segments p) = Some ".").

Definition components (p : string) : list Component :=
  (if is_absolute p then [RootDir] else if leading_cur_dir p then [CurDir] else [])
  ++ (component_of <$> List.filter (λ s, negb (skipped s)) (body p)).

Definition trim_right (segs : list string) : list string :=
  rev (drop_while skipped (rev segs)).

(** Drop [n] components from the front of a body. *)
Fixpoint drop_components (n : nat) (segs : list string) : list string :=
  match n, segs with
  | O, _ => segs
  | S _, [] => []
  | S n', seg :: segs =>
      if skipped seg then drop_components n segs else drop_components n' segs
  end.

(** [Path::strip_prefix]: the text left after the components of [base]. *)
Definition strip_path_prefix (p base : string) : option string :=
  let n := length (components base) in
  if bool_decide (take n (components p) = components base) then
    let n := if is_absolute p || leading_cur_dir p then pred n else n in
    Some (join "/" (trim_right (drop_while skipped (drop_components n (body p)))))
  else None.

Definition path_starts_with (p base : string) : bool :=
  bool_decide (take (length (components base)) (components p) = components base).

(** [PathBuf::push] and [Path::join]; an absolute argument replaces the path. *)
Definition path_join (p q : string) : string :=
  if is_absolute q then q
  else if is_empty p || ends_with "/" p then p +:+ q else p +:+ "/" +:+ q.

(** [Path::parent] *)
Definition parent (p : string) : option string :=
  match last (components p) with
  | None | Some RootDir => None
  | Some _ =>
      let rest := trim_right (removelast (trim_right (body p))) in
      Some (if is_absolute p then "/" +:+ join "/" rest else join "/" rest)
  end.

(** ** The file system *)

Record Fs : Type := mkFs {
  is_dir : string → bool;
  exists_path : string → bool;
  canonicalize : string → option string;
}.

(** [workspace::resolve_in_repo] *)
Definition resolve_in_repo (fs : Fs) (repo_root rel : string) : res (string * string) :=
  if is_absolute rel then bail "absolute path rejected"
  else if existsb (λ c, bool_decide (c = ParentDir)) (components rel) then
    bail "path escape (..) rejected"
  else if existsb (λ c, bool_decide (c = RootDir)) (components rel) then
    bail "absolute path rejected"
  else
    let target := if is_empty rel || bool_decide (rel = ".") then repo_root
                  else path_join repo_root rel in
    if exists_path fs target then
      root_real ← ok_or (canonicalize fs repo_root) "canonicalize";
      target_real ← ok_or (canonicalize fs target) "canonicalize";
      if path_starts_with target_real root_real then Ok (target, rel)
      else bail "path escape after canonicalize"
    else Ok (target, rel).

(** ** Extraction *)

Record FileTouchContext : Type := mkContext {
  repo_name : string;
  repo_root : string;
  working_dir : string;
}.

Definition command_text (input : option Value) : option string :=
  match input with
  | Some (Object input) =>
      or_else (obj_get "command" input ≫= as_str) (obj_get "cmd" input ≫= as_str)
  | _ => None
  end.

Definition write_operations : list string :=
  ["write"; "edit"; "multi_edit"; "apply_patch"; "create"; "update"; "delete";
   "add"; "remove"].

Definition touch_kind_for_pair (pair : TimelineToolPair) : string :=
  let op := pair_operation_type pair in
  if is_some (command_text (tp_input pair)) then "command"
  else if one_of op write_operations then "write"
  else if one_of op ["grep"; "glob"; "find"; "list"; "read"; "fetch"; "get"] then "inspect"
  else if one_of op ["bash"; "exec"; "exec_command"] then "command"
  else "inspect".

Definition is_write_pair (pair : TimelineToolPair) : bool :=
  one_of (pair_operation_type pair) write_operations.

Definition is_command_pair (pair : TimelineToolPair) : bool :=
  is_some (command_text (tp_input pair))
  || one_of (pair_operation_type pair) ["bash"; "exec"; "exec_command"].

Definition clean_command_token (token : string) : option string :=
  let trimmed := trim_by (λ c, one_of c
    [quote_char; "'"; "`"; ","; ";"; ":"; "("; ")"; "["; "]"; "{"; "}"; "|"]) token in
  if is_empty trimmed then None else Some trimmed.

Definition ascii_in (lo hi : N) (c : Ascii.ascii) : bool :=
  let n := Ascii.N_of_ascii c in ((lo <=? n) && (n <=? hi))%N.
Definition is_ascii_alphabetic (c : Ascii.ascii) : bool := ascii_in 65 90 c || ascii_in 97 122 c.
Definition is_ascii_alphanumeric (c : Ascii.ascii) : bool :=
  is_ascii_alphabetic c || ascii_in 48 57 c.
Definition all_bytes (f : Ascii.ascii → bool) (s : string) : bool :=
  forallb f (String.list_ascii_of_string s).
Definition any_byte (f : Ascii.ascii → bool) (s : string) : bool :=
  existsb f (String.list_ascii_of_string s).

Definition is_path_like_token (token : string) : bool :=
  if is_empty token
     || negb (all_bytes (λ c, is_ascii_alphanumeric c
                || bool_decide (c ∈ String.list_ascii_of_string "/._-+@")) token)
  then false
  else if contains "/" token
  then negb (bool_decide (token = ".")) && negb (bool_decide (token = ".."))
  else match rsplit_once "."%char token with
       | None => false
       | Some (stem, ext) =>
           negb (is_empty stem) && any_byte is_ascii_alphabetic stem
           && (1 <=? String.length ext)%nat && (String.length ext <=? 5)%nat
           && all_bytes is_ascii_alphanumeric ext
       end.

Section extract.
Context (fs : Fs).

(** The walk of [normalize_relative_candidate] over the components. *)
Fixpoint walk (repo_root current : string) (cs : list Component) : option string :=
  match cs with
  | [] => Some current
  | CurDir :: cs => walk repo_root current cs
  | Normal segment :: cs => walk repo_root (path_join current segment) cs
  | ParentDir :: cs =>
      if bool_decide (components current = components repo_root) then None
      else current ← parent current; walk repo_root current cs
  | RootDir :: _ => None
  end.

Definition normalize_relative_candidate (repo_root base candidate : string) : option string :=
  current ← walk repo_root base (components candidate);
  if negb (path_starts_with current repo_root) then None
  else
    rel ← strip_path_prefix current repo_root;
    if is_empty rel then None
    else match resolve_in_repo fs repo_root rel with
         | Ok (_, rel) => Some rel
         | Err _ => None
         end.

Definition rejected_candidate (candidate : string) : bool :=
  is_empty candidate || starts_with "-" candidate
  || starts_with "http://" candidate || starts_with "https://" candidate
  || starts_with "$" candidate || starts_with "~" candidate
  || contains newline candidate.

Definition normalize_candidate (context : FileTouchContext) (raw : string) : option string :=
  let candidate := trim raw in
  if rejected_candidate candidate then None
  else
    rel ← (if is_absolute candidate
           then strip_path_prefix candidate (repo_root context)
           else if ends_with "/" candidate then None
           else or_else
             (normalize_relative_candidate (repo_root context) (repo_root context) candidate)
             (normalize_relative_candidate (repo_root context) (working_dir context) candidate));
    if is_empty rel then None
    else if is_dir fs (path_join (repo_root context) rel) then None
    else Some rel.

(** [push_touch]: the output and the set of keys already seen. *)
Definition touches_acc : Type := list TimelineFileTouch * gset (string * string).

Definition push_touch (context : FileTouchContext) (kind : string) (write : bool)
    (acc : touches_acc) (raw : string) : touches_acc :=
  match normalize_candidate context raw with
  | None => acc
  | Some path =>
      if bool_decide ((path, kind) ∈ acc.2) then acc
      else (acc.1 ++ [mkTouch (repo_name context) path kind write],
            {[(path, kind)]} ∪ acc.2)
  end.

Definition str_field (m : object) (key : string) : list string :=
  match obj_get key m with Some (Str s) => [s] | _ => [] end.
Definition str_elements (m : object) (key : string) : list string :=
  match obj_get key m with Some (Array l) => omap as_str l | _ => [] end.

Definition named_paths (input : object) : list string :=
  (["path"; "file_path"; "old_path"; "new_path"] ≫= str_field input)
  ++ (["paths"; "files"] ≫= str_elements input).

Definition edited_paths (input : object) : list string :=
  match obj_get "file_edits" input with
  | Some (Array entries) =>
      entries ≫= λ entry, match entry with
                          | Object m => ["path"; "old_path"] ≫= str_field m
                          | _ => []
                          end
  | _ => []
  end.

Definition has_structured_edits (input : option Value) : bool :=
  match input ≫= λ i, get i "file_edits" with
  | Some (Array (_ :: _)) => true
  | _ => false
  end.

Definition command_paths (pair : TimelineToolPair) : list string :=
  if is_command_pair pair && negb (has_structured_edits (tp_input pair)) then
    match command_text (tp_input pair) with
    | Some command =>
        List.filter is_path_like_token (omap clean_command_token (split_whitespace command))
    | None => []
    end
  else [].

Definition extract_file_touches (pair : TimelineToolPair)
    (context : option FileTouchContext) : list TimelineFileTouch :=
  match context with
  | None => []
  | Some context =>
      let kind := touch_kind_for_pair pair in
      let write := is_write_pair pair in
      let acc : touches_acc := ([], ∅) in
      let acc := match tp_input pair with
                 | Some (Object input) =>
                     let acc := foldl (push_touch context kind write) acc (named_paths input) in
                     foldl (push_touch context "write" true) acc (edited_paths input)
                 | _ => acc
                 end in
      (foldl (push_touch context kind write) acc (command_paths pair)).1
  end.
End extract.
