(* ===== verification/Reducer.v ===== *)
(** * The incremental timeline reducer

    [ingest/timeline/reduce.rs] and [reduce/operations.rs]: the rows, the
    [Backend] interface through which committed rows are read, the reducer
    state, and one definition per method. A method is a computation in the
    state and error monad [M]; [Panicked] marks the [expect] of [turn_mut]. *)

From S2P Require Import Prelude Text Json Events Runtime Render FileTouches.

(** ** Rows *)

Record SessionState : Type := mkState {
  projected_through : Z;
  next_turn_ord : Z;
  current_main : option Z;
  current_sidechain : option Z;
  codex_input_total : option Z;
  codex_output_total : option Z;
  total_event_count : Z;
  turn_count : Z;
  latest_turn_id : option Z;
  latest_event_at : option Z;
}.

Definition default_state : SessionState :=
  mkState (-1) 0 None None None None 0 0 None None.

Record TurnRow : Type := mkTurn {
  turn_id : Z;
  turn_ord : Z;
  turn_is_sidechain : bool;
  preview : string;
  turn_prompt_text : option string;
  prompt_event_uuid : option string;
  start_timestamp : Z;
  end_timestamp : Z;
  duration_ms : Z;
  event_count : Z;
  operation_count : Z;
  thinking_count : Z;
  has_errors : bool;
  input_tokens : Z;
  output_tokens : Z;
  usage_baseline_input : Z;
  usage_baseline_output : Z;
}.

Record OpRow : Type := mkOp {
  op_turn_id : Z;
  operation_ord : Z;
  pair_id : string;
  name : string;
  raw_name : option string;
  operation_type : option string;
  category : option OperationCategory;
  input : option Value;
  result_content : option string;
  result_payload : option Value;
  result_is_error : bool;
  is_error : bool;
  is_pending : bool;
  call_offset : Z;
  call_at : Z;
  changed_at : Z;
  call_error : bool;
  running : option string;
  finished_at : option Z;
}.

Definition key (op : OpRow) : key2 := (op_turn_id op, operation_ord op).

Definition op_pair (op : OpRow) : TimelineToolPair :=
  mkPair (pair_id op) (name op) (raw_name op) (operation_type op) (category op) (input op)
    (if is_some (result_content op) || is_some (result_payload op)
     then Some (mkResult (result_content op) (result_payload op) (result_is_error op))
     else None)
    (is_error op) (is_pending op).

Definition tool_short_name (op : OpRow) : option string :=
  rsplit_first "."%char <$> raw_name op.

Definition timestamp_millis (t : Z) : Z := t / 1000.

(** The runtime-evidence window of an [exec] call. *)
Definition encloses (op : OpRow) (started : option Z) : bool :=
  if negb (bool_decide (tool_short_name op = Some "exec")) then false
  else match started with
       | Some start =>
           (timestamp_millis (call_at op) <=? timestamp_millis start)
           && match finished_at op with
              | None => true
              | Some e => timestamp_millis start <=? timestamp_millis e
              end
       | None => is_none (finished_at op)
       end.

Record MessageUsage : Type := mkUsage {
  mu_turn_id : Z;
  mu_input_tokens : Z;
  mu_output_tokens : Z;
}.

Record ChildLink : Type := mkLink {
  link_session : Uuid;
  link_pair_id : string;
  link_child_session : Uuid;
  link_child_turn_id : Z;
}.

#[export] Instance ChildLink_eq_dec : EqDecision ChildLink.
Proof. solve_decision. Defined.

#[export] Instance ChildLink_countable : Countable ChildLink.
Proof.
  refine (inj_countable'
    (λ l, (link_session l, link_pair_id l, link_child_session l, link_child_turn_id l))
    (λ '(a, b, c, d), mkLink a b c d) _).
  by intros [].
Defined.

(** ** The interface to committed rows *)

Class Backend (B : Type) : Type := {
  be_turn : B → Z → res (option TurnRow);
  be_ops_by_pair : B → string → Z → res (list OpRow);
  be_prompt_seen : B → string → res bool;
  be_message_usage : B → string → res (option MessageUsage);
  be_exec_candidates : B → Z → option Z → res (list OpRow);
  be_ops_by_running_cell : B → string → res (list OpRow);
}.

(** Everything one batch changed, ready to persist. *)
Record Changes : Type := mkChanges {
  ch_state : SessionState;
  ch_turns : list TurnRow;
  ch_items : list (Z * Z * TimelineChunk);
  ch_new_ops : list OpRow;
  ch_updated_ops : list (OpRow * bool);
  ch_touches : list (Z * Z * list TimelineFileTouch);
  ch_usage : list (string * MessageUsage);
  ch_links : list ChildLink;
}.

Definition changes_is_empty (c : Changes) : bool :=
  match ch_turns c, ch_items c, ch_new_ops c, ch_updated_ops c, ch_links c with
  | [], [], [], [], [] => true
  | _, _, _, _, _ => false
  end.

(** ** The reducer *)

Record Reducer (B : Type) : Type := mkReducer {
  backend : B;
  session_uuid : Uuid;
  state : SessionState;
  batch_start : Z;
  file_context : option FileTouchContext;
  child_of : option Uuid;
  turns : gmap Z TurnRow;
  dirty_turns : gset Z;
  items : list (Z * Z * TimelineChunk);
  ops : gmap key2 OpRow;
  new_ops : gset key2;
  updated_ops : gset key2;
  input_changed : gset key2;
  ops_by_pair : gmap string (gset key2);
  queried_pairs : gset string;
  prompts : gset string;
  usage : gmap string MessageUsage;
  dirty_usage : gset string;
  links : gset ChildLink;
}.
Arguments mkReducer {B}.
Arguments backend {B}. Arguments session_uuid {B}. Arguments state {B}.
Arguments batch_start {B}. Arguments file_context {B}. Arguments child_of {B}.
Arguments turns {B}. Arguments dirty_turns {B}. Arguments items {B}. Arguments ops {B}.
Arguments new_ops {B}. Arguments updated_ops {B}. Arguments input_changed {B}.
Arguments ops_by_pair {B}. Arguments queried_pairs {B}. Arguments prompts {B}.
Arguments usage {B}. Arguments dirty_usage {B}. Arguments links {B}.

Definition new_reducer {B} (b : B) (uuid : Uuid) (s : SessionState)
    (ctx : option FileTouchContext) (child : option Uuid) : Reducer B :=
  mkReducer b uuid s (projected_through s) ctx child ∅ ∅ [] ∅ ∅ ∅ ∅ ∅ ∅ ∅ ∅ ∅ ∅.

(** Computations over the reducer. *)
Definition M (B A : Type) : Type := Reducer B → res (A * Reducer B).

#[export] Instance M_ret B : MRet (M B) := λ A a r, Ok (a, r).
#[export] Instance M_bind B : MBind (M B) := λ A C f m r,
  match m r with Ok (a, r') => f a r' | Err e => Err e end.

Definition gets {B A} (f : Reducer B → A) : M B A := λ r, Ok (f r, r).
Definition modify {B} (f : Reducer B → Reducer B) : M B unit := λ r, Ok ((), f r).
Definition lift {B A} (x : res A) : M B A :=
  λ r, match x with Ok a => Ok (a, r) | Err e => Err e end.

Lemma M_bind_run {B A C} (m : M B A) (f : A → M B C) r a r' :
  m r = Ok (a, r') → (m ≫= f) r = f a r'.
Proof. intros E. unfold mbind, M_bind. by rewrite E. Qed.

(** [for x in l { body(x)?; }] *)
Fixpoint for_each {B A} (l : list A) (body : A → M B unit) : M B unit :=
  match l with
  | [] => mret ()
  | a :: l => body a ≫= λ _, for_each l body
  end.

(** ** Field updates *)

Section updates.
Context {B : Type}.
Implicit Types r : Reducer B.

Definition set_state (f : SessionState → SessionState) r : Reducer B :=
  mkReducer (backend r) (session_uuid r) (f (state r)) (batch_start r) (file_context r)
    (child_of r) (turns r) (dirty_turns r) (items r) (ops r) (new_ops r) (updated_ops r)
    (input_changed r) (ops_by_pair r) (queried_pairs r) (prompts r) (usage r)
    (dirty_usage r) (links r).
Definition set_turns (t : gmap Z TurnRow) (d : gset Z) r : Reducer B :=
  mkReducer (backend r) (session_uuid r) (state r) (batch_start r) (file_context r)
    (child_of r) t d (items r) (ops r) (new_ops r) (updated_ops r)
    (input_changed r) (ops_by_pair r) (queried_pairs r) (prompts r) (usage r)
    (dirty_usage r) (links r).
Definition push_item (i : Z * Z * TimelineChunk) r : Reducer B :=
  mkReducer (backend r) (session_uuid r) (state r) (batch_start r) (file_context r)
    (child_of r) (turns r) (dirty_turns r) (items r ++ [i]) (ops r) (new_ops r)
    (updated_ops r) (input_changed r) (ops_by_pair r) (queried_pairs r) (prompts r)
    (usage r) (dirty_usage r) (links r).
Definition set_ops (o : gmap key2 OpRow) (p : gmap string (gset key2)) r : Reducer B :=
  mkReducer (backend r) (session_uuid r) (state r) (batch_start r) (file_context r)
    (child_of r) (turns r) (dirty_turns r) (items r) o (new_ops r) (updated_ops r)
    (input_changed r) p (queried_pairs r) (prompts r) (usage r) (dirty_usage r) (links r).
Definition set_marks (n u i : gset key2) r : Reducer B :=
  mkReducer (backend r) (session_uuid r) (state r) (batch_start r) (file_context r)
    (child_of r) (turns r) (dirty_turns r) (items r) (ops r) n u i (ops_by_pair r)
    (queried_pairs r) (prompts r) (usage r) (dirty_usage r) (links r).
Definition add_queried (p : string) r : Reducer B :=
  mkReducer (backend r) (session_uuid r) (state r) (batch_start r) (file_context r)
    (child_of r) (turns r) (dirty_turns r) (items r) (ops r) (new_ops r) (updated_ops r)
    (input_changed r) (ops_by_pair r) ({[p]} ∪ queried_pairs r) (prompts r) (usage r)
    (dirty_usage r) (links r).
Definition add_prompt (p : string) r : Reducer B :=
  mkReducer (backend r) (session_uuid r) (state r) (batch_start r) (file_context r)
    (child_of r) (turns r) (dirty_turns r) (items r) (ops r) (new_ops r) (updated_ops r)
    (input_changed r) (ops_by_pair r) (queried_pairs r) ({[p]} ∪ prompts r) (usage r)
    (dirty_usage r) (links r).
Definition put_usage (id : string) (u : MessageUsage) r : Reducer B :=
  mkReducer (backend r) (session_uuid r) (state r) (batch_start r) (file_context r)
    (child_of r) (turns r) (dirty_turns r) (items r) (ops r) (new_ops r) (updated_ops r)
    (input_changed r) (ops_by_pair r) (queried_pairs r) (prompts r)
    (<[id := u]> (usage r)) ({[id]} ∪ dirty_usage r) (links r).
Definition add_link (l : ChildLink) r : Reducer B :=
  mkReducer (backend r) (session_uuid r) (state r) (batch_start r) (file_context r)
    (child_of r) (turns r) (dirty_turns r) (items r) (ops r) (new_ops r) (updated_ops r)
    (input_changed r) (ops_by_pair r) (queried_pairs r) (prompts r) (usage r)
    (dirty_usage r) ({[l]} ∪ links r).
End updates.

(** ** Ordered views of the operations *)

(** [sort_by_key], stable: an element goes after those with the same key. *)
Fixpoint insert_by (f : OpRow → Z) (x : OpRow) (l : list OpRow) : list OpRow :=
  match l with
  | [] => [x]
  | y :: l' => if f x <? f y then x :: l else y :: insert_by f x l'
  end.
Definition sort_by_key (f : OpRow → Z) (l : list OpRow) : list OpRow :=
  foldl (λ acc x, insert_by f x acc) [] l.

(** [Iterator::max_by_key]: the last of the greatest. *)
Definition max_by_key (f : OpRow → Z) (l : list OpRow) : option OpRow :=
  foldl (λ best x, match best with
                   | Some b => if f b <=? f x then Some x else best
                   | None => Some x
                   end) None l.

(** The operations under [keys], in key order. *)
Definition ops_at (o : gmap key2 OpRow) (keys : gset key2) : list OpRow :=
  omap (λ k, o !! k) (sorted_keys keys).

Definition ops_before (o : gmap key2 OpRow) (keys : gset key2) (before : Z) : list OpRow :=
  List.filter (λ op, call_offset op <? before) (ops_at o keys).

(** [self.ops.values().filter(f)] *)
Definition ops_where (f : OpRow → bool) (o : gmap key2 OpRow) : list OpRow :=
  List.filter f (ops_at o (dom o)).

Definition pair_keys (index : gmap string (gset key2)) (pair_id : string) : gset key2 :=
  default ∅ (index !! pair_id).

(** ** Pure row updates *)

Definition NO_PROMPT_PREVIEW : string := "(no user prompt)".

Definition token (usage : Value) (key : string) : Z :=
  default 0 (get usage key ≫= as_i64).

(** The row of a turn seeded by [first]. *)
Definition seed_turn (s : SessionState) (first : StoredEvent) (prompt sidechain : bool)
    : TurnRow :=
  let prompt_text := if prompt then Some (user_prompt_text first) else None in
  let preview := match prompt_text with
                 | Some text => if is_empty text then NO_PROMPT_PREVIEW
                                else first_paragraph text 280
                 | None => NO_PROMPT_PREVIEW
                 end in
  mkTurn (byte_offset first) (next_turn_ord s) sidechain preview prompt_text
    (if prompt then event_uuid first else None)
    (timestamp first) (timestamp first) 0 (if prompt then 1 else 0) 0 0 false 0 0
    (default 0 (codex_input_total s)) (default 0 (codex_output_total s)).

Definition state_after_seed (first : StoredEvent) (prompt : bool) (s : SessionState)
    : SessionState :=
  mkState (projected_through s) (wrap32 (next_turn_ord s + 1)) (current_main s)
    (current_sidechain s) (codex_input_total s) (codex_output_total s)
    (wrap64 (total_event_count s + if prompt then 1 else 0))
    (wrap64 (turn_count s + 1))
    (option_max (latest_turn_id s) (Some (byte_offset first)))
    (option_max (latest_event_at s) (Some (timestamp first))).

Definition with_main (t : Z) (s : SessionState) : SessionState :=
  mkState (projected_through s) (next_turn_ord s) (Some t) (current_sidechain s)
    (codex_input_total s) (codex_output_total s) (total_event_count s) (turn_count s)
    (latest_turn_id s) (latest_event_at s).
Definition with_sidechain (t : Z) (s : SessionState) : SessionState :=
  mkState (projected_through s) (next_turn_ord s) (current_main s) (Some t)
    (codex_input_total s) (codex_output_total s) (total_event_count s) (turn_count s)
    (latest_turn_id s) (latest_event_at s).
Definition with_through (o : Z) (s : SessionState) : SessionState :=
  mkState (Z.max (projected_through s) o) (next_turn_ord s) (current_main s)
    (current_sidechain s) (codex_input_total s) (codex_output_total s)
    (total_event_count s) (turn_count s) (latest_turn_id s) (latest_event_at s).
Definition with_codex_totals (i o : Z) (s : SessionState) : SessionState :=
  mkState (projected_through s) (next_turn_ord s) (current_main s)
    (current_sidechain s) (Some i) (Some o)
    (total_event_count s) (turn_count s) (latest_turn_id s) (latest_event_at s).
Definition state_after_event (event : StoredEvent) (s : SessionState) : SessionState :=
  mkState (projected_through s) (next_turn_ord s) (current_main s)
    (current_sidechain s) (codex_input_total s) (codex_output_total s)
    (wrap64 (total_event_count s + 1)) (turn_count s) (latest_turn_id s)
    (option_max (latest_event_at s) (Some (timestamp event))).

Section turn_updates.
Implicit Types t : TurnRow.

(** A turn with its mutable columns replaced. *)
Definition with_columns t (preview : string) (end_ts dur events operations thinking : Z)
    (errors : bool) (tin tout : Z) : TurnRow :=
  mkTurn (turn_id t) (turn_ord t) (turn_is_sidechain t) preview (turn_prompt_text t)
    (prompt_event_uuid t) (start_timestamp t) end_ts dur events operations thinking errors
    tin tout (usage_baseline_input t) (usage_baseline_output t).

Definition count_event (event : StoredEvent) t : TurnRow :=
  let adv := advances_turn_time event in
  let end_ts := if adv then Z.max (end_timestamp t) (timestamp event) else end_timestamp t in
  let dur := if adv then Z.max (Z.quot (end_ts - start_timestamp t) 1000) 0
             else duration_ms t in
  with_columns t (preview t) end_ts dur (wrap32 (event_count t + 1)) (operation_count t)
    (thinking_count t) (has_errors t) (input_tokens t) (output_tokens t).

Definition mark_errors (e : bool) t : TurnRow :=
  with_columns t (preview t) (end_timestamp t) (duration_ms t) (event_count t)
    (operation_count t) (thinking_count t) (has_errors t || e) (input_tokens t)
    (output_tokens t).

Definition count_operation (e : bool) t : TurnRow :=
  with_columns t (preview t) (end_timestamp t) (duration_ms t) (event_count t)
    (wrap32 (operation_count t + 1)) (thinking_count t) (has_errors t || e)
    (input_tokens t) (output_tokens t).

Definition note_assistant (event : StoredEvent) t : TurnRow :=
  let text := join " " (text_blocks_in event) in
  let preview := if bool_decide (preview t = NO_PROMPT_PREVIEW) && negb (is_empty text)
                 then "(assistant) " +:+ first_paragraph text 260 else preview t in
  with_columns t preview (end_timestamp t) (duration_ms t) (event_count t)
    (operation_count t)
    (wrap32 (thinking_count t + if has_useful_thinking event then 1 else 0))
    (has_errors t) (input_tokens t) (output_tokens t).

Definition set_tokens (i o : Z) t : TurnRow :=
  with_columns t (preview t) (end_timestamp t) (duration_ms t) (event_count t)
    (operation_count t) (thinking_count t) (has_errors t) i o.

Definition add_tokens (i o : Z) t : TurnRow :=
  set_tokens (wrap64 (input_tokens t + i)) (wrap64 (output_tokens t + o)) t.

Definition codex_tokens (total_in total_out : Z) t : TurnRow :=
  set_tokens (Z.max (wrap64 (total_in - usage_baseline_input t)) 0)
    (Z.max (wrap64 (total_out - usage_baseline_output t)) 0) t.
End turn_updates.

Section op_updates.
Implicit Types op : OpRow.

(** An operation with its mutable columns replaced. *)
Definition with_op op (input : option Value) (content : option string)
    (payload : option Value) (res_err err pending : bool) (changed : Z) (call_err : bool)
    (cell : option string) (finished : option Z) : OpRow :=
  mkOp (op_turn_id op) (operation_ord op) (pair_id op) (name op) (raw_name op)
    (operation_type op) (category op) input content payload res_err err pending
    (call_offset op) (call_at op) changed call_err cell finished.

Definition new_op (turn_id ord : Z) (tool : ToolUseView) (event : StoredEvent) : OpRow :=
  mkOp turn_id ord (default ("noid-" +:+ pretty ord) (use_id tool)) (use_name tool)
    (use_raw_name tool) (use_operation_type tool) (use_category tool) (use_input tool)
    None None false (use_is_error tool) true (byte_offset event) (timestamp event)
    (byte_offset event) (use_is_error tool) None None.

(** The evidence already folded into the call, added to its result. *)
Definition fold_evidence (op : OpRow) (payload : option Value) : option Value :=
  match (input op ≫= λ i, get i "runtime_items") ≫= as_array with
  | Some items => foldl attach_to_output payload items
  | None => payload
  end.

(** A result lands on its call; the last one wins. *)
Definition set_result (block : Block) (event : StoredEvent) op : OpRow :=
  let res_err := default false (block_is_error block) || call_error op in
  let cell := running_cell (text block) in
  with_op op (input op) (text block) (fold_evidence op (tool_output block)) res_err
    (call_error op || res_err) false (byte_offset event) (call_error op) cell
    (if is_some cell then None else Some (timestamp event)).

Definition close_cell (event : StoredEvent) op : OpRow :=
  with_op op (input op) (result_content op) (result_payload op) (result_is_error op)
    (is_error op) (is_pending op) (byte_offset event) (call_error op) None
    (Some (timestamp event)).

(** Runtime evidence folded into its one call. *)
Definition fold_runtime (event : StoredEvent) (evidence : Value) (failed : bool) op : OpRow :=
  let failed := failed && fails_call (category op) evidence in
  let call_err := call_error op || failed in
  let payload := if is_pending op then result_payload op
                 else attach_to_output (result_payload op) evidence in
  let res_err := if is_pending op then result_is_error op else result_is_error op || failed in
  with_op op (attach_to_input (input op) evidence) (result_content op) payload res_err
    (call_err || res_err) (is_pending op) (byte_offset event) call_err (running op)
    (finished_at op).

(** The cell a completed [wait] waited on. *)
Definition waited_cell (wait : OpRow) (block : Block) : option string :=
  if negb (bool_decide (tool_short_name wait = Some "wait"))
     || is_some (running_cell (text block)) then None
  else (input wait ≫= λ i, get i "cell_id") ≫= as_str.

Definition runs_cell (cell : string) (wait : OpRow) op : bool :=
  bool_decide (running op = Some cell) && negb (bool_decide (key op = key wait)).

(** The window candidates for evidence with no call of its own id. *)
Definition may_own (event : StoredEvent) (item_id : option string) (started : option Z) op
    : bool :=
  (call_offset op <? byte_offset event)
  && negb (bool_decide (Some (pair_id op) = item_id)) && encloses op started.
End op_updates.

(** [DateTime::from_timestamp_millis], in microseconds. *)
Definition from_timestamp_millis (ms : Z) : option Z :=
  if (-8334601228800000 <=? ms) && (ms <=? 8210266876799999) then Some (ms * 1000) else None.

Definition evidence_id (evidence : Value) : option string :=
  as_str (index (index evidence "runtime_item") "id").
Definition evidence_start (evidence : Value) : option Z :=
  (get evidence "started_at_ms" ≫= as_i64) ≫= from_timestamp_millis.

(** The evidence an event carries, with its blocks' error flags. *)
Definition evidence_of (event : StoredEvent) : list (Value * bool) :=
  omap (λ block, (λ v, (v, default false (block_is_error block))) <$> runtime_evidence block)
    (blocks event).

Definition clear_blocks (e : StoredEvent) : StoredEvent :=
  mkEvent (byte_offset e) (timestamp e) (ev_kind e) (agent e) (speaker e) (content_kind e)
    (event_uuid e) (parent_event_uuid e) (related_tool_use_id e) (is_sidechain e) (is_meta e)
    (subtype e) (usage_json e) (usage_message_id e) [].

(** ** The methods *)

Section methods.
Context {B : Type} `{Backend B} (parse_uuid : string → option Uuid) (fs : Fs).

(** *** Turns *)

Definition load_turn (id : Z) : M B bool :=
  cached ← gets turns;
  match cached !! id with
  | Some _ => mret true
  | None =>
      b ← gets backend;
      row ← lift (be_turn b id);
      match row with
      | Some row =>
          _ ← modify (λ r, set_turns (<[id := row]> (turns r)) (dirty_turns r) r);
          mret true
      | None => mret false
      end
  end.

(** [turn_mut] and the assignment through it: the turn is marked dirty and
    must already be loaded. *)
Definition update_turn (id : Z) (f : TurnRow → TurnRow) : M B unit := λ r,
  match turns r !! id with
  | Some t => Ok ((), set_turns (<[id := f t]> (turns r)) ({[id]} ∪ dirty_turns r) r)
  | None => panic "turn loaded before it is changed"
  end.

(** Reading a field through [turn_mut], which marks the turn dirty too. *)
Definition turn_mut (id : Z) : M B TurnRow := λ r,
  match turns r !! id with
  | Some t => Ok (t, set_turns (turns r) ({[id]} ∪ dirty_turns r) r)
  | None => panic "turn loaded before it is changed"
  end.

(** *** Operations *)

Definition index_op (op : OpRow) (index : gmap string (gset key2)) : gmap string (gset key2) :=
  <[pair_id op := {[key op]} ∪ pair_keys index (pair_id op)]> index.

Definition remember_op (op : OpRow) : M B unit :=
  modify (λ r,
    match ops r !! key op with
    | Some _ => r
    | None => set_ops (<[key op := op]> (ops r)) (index_op op (ops_by_pair r)) r
    end).

Definition put_op (op : OpRow) (changed : bool) : M B unit :=
  _ ← modify (λ r, set_ops (<[key op := op]> (ops r)) (index_op op (ops_by_pair r)) r);
  modify (λ r,
    if bool_decide (key op ∈ new_ops r) then r
    else set_marks (new_ops r) ({[key op]} ∪ updated_ops r)
           (if changed then {[key op]} ∪ input_changed r else input_changed r) r).

Definition local_ops (pair_id : string) (before : Z) : M B (list OpRow) :=
  gets (λ r, ops_before (ops r) (pair_keys (ops_by_pair r) pair_id) before).

(** The store is asked for a pair id once in a batch. *)
Definition query_pair (pair_id : string) (before : Z) : M B unit :=
  seen ← gets queried_pairs;
  if bool_decide (pair_id ∈ seen) then mret ()
  else
    _ ← modify (add_queried pair_id);
    b ← gets backend;
    found ← lift (be_ops_by_pair b pair_id before);
    for_each found remember_op.

Definition ops_for_pair (pair_id : string) (before : Z) : M B (list OpRow) :=
  _ ← query_pair pair_id before;
  found ← local_ops pair_id before;
  mret (sort_by_key call_offset found).

Definition latest_op_for_pair (pair_id : string) (before : Z) : M B (option OpRow) :=
  found ← local_ops pair_id before;
  start ← gets batch_start;
  let local := max_by_key call_offset found in
  match local with
  | Some op =>
      if start <? call_offset op then mret local
      else l ← ops_for_pair pair_id before; mret (last l)
  | None => l ← ops_for_pair pair_id before; mret (last l)
  end.

Definition apply_call (id : Z) (event : StoredEvent) (tool : ToolUseView) : M B unit :=
  t ← turn_mut id;
  _ ← update_turn id (count_operation (use_is_error tool));
  let op := new_op id (operation_count t) tool event in
  _ ← modify (λ r, set_marks ({[key op]} ∪ new_ops r) (updated_ops r) (input_changed r) r);
  put_op op true.

Definition apply_calls (id : Z) (event : StoredEvent) : M B unit :=
  for_each (tool_uses_in event) (apply_call id event).

Definition close_waited_cells (wait : OpRow) (block : Block) (event : StoredEvent) : M B unit :=
  match waited_cell wait block with
  | None => mret ()
  | Some cell =>
      b ← gets backend;
      found ← lift (be_ops_by_running_cell b cell);
      _ ← for_each found remember_op;
      running ← gets (λ r, ops_where (runs_cell cell wait) (ops r));
      for_each running (λ op, put_op (close_cell event op) false)
  end.

Definition flag_owner (owner : Z) (e : bool) : M B unit :=
  loaded ← load_turn owner;
  if loaded : bool then update_turn owner (mark_errors e) else mret ().

Definition apply_result (id : Z) (event : StoredEvent) (block : Block) : M B unit :=
  _ ← (if default false (block_is_error block) then update_turn id (mark_errors true)
       else mret ());
  match tool_id block with
  | None => mret ()
  | Some pair_id =>
      found ← latest_op_for_pair pair_id (byte_offset event);
      match found with
      | None => mret ()
      | Some op =>
          let op := set_result block event op in
          _ ← close_waited_cells op block event;
          _ ← put_op op false;
          flag_owner (op_turn_id op) (is_error op)
      end
  end.

Definition apply_results (id : Z) (event : StoredEvent) : M B unit :=
  for_each (blocks_of BToolResult event) (apply_result id event).

(** *** Runtime evidence *)

Definition runtime_candidates (event : StoredEvent) (evidence : Value) : M B (list OpRow) :=
  let item_id := evidence_id evidence in
  let started := evidence_start evidence in
  exact ← (match item_id with
           | Some id => ops_for_pair id (byte_offset event)
           | None => mret []
           end);
  match exact with
  | [] =>
      b ← gets backend;
      found ← lift (be_exec_candidates b (byte_offset event) started);
      _ ← for_each found remember_op;
      gets (λ r, ops_where (may_own event item_id started) (ops r))
  | _ => mret exact
  end.

Definition fold_one (event : StoredEvent) (output : StoredEvent) (ev : Value * bool)
    : M B StoredEvent :=
  candidates ← runtime_candidates event ev.1;
  match candidates with
  | [op] =>
      let op := fold_runtime event ev.1 ev.2 op in
      _ ← put_op op true;
      _ ← flag_owner (op_turn_id op) (is_error op);
      mret (clear_blocks output)
  | _ => mret (mark_uncorrelated output ev.1)
  end.

Fixpoint fold_all (event output : StoredEvent) (l : list (Value * bool)) : M B StoredEvent :=
  match l with
  | [] => mret output
  | ev :: l => output ← fold_one event output ev; fold_all event output l
  end.

Definition correlate_runtime (event : StoredEvent) : M B StoredEvent :=
  fold_all event event (evidence_of event).

(** *** Children *)

(** The child thread a Codex spawn event names. *)
Definition spawned_child (self : Uuid) (event : StoredEvent) : option Uuid :=
  if bool_decide (agent event = "codex")
     && bool_decide (subtype event = Some "collab_agent_spawn_end"
                     ∨ subtype event = Some "item_completed")
  then child ← event_uuid event ≫= parse_uuid;
       if bool_decide (child = self) then None else Some child
  else None.

Definition record_links (event : StoredEvent) : M B unit :=
  modify (λ r,
    let r := match child_of r, related_tool_use_id event with
             | Some parent, Some pair_id =>
                 add_link (mkLink parent pair_id (session_uuid r) (-1)) r
             | _, _ => r
             end in
    match spawned_child (session_uuid r) event, related_tool_use_id event with
    | Some child, Some pair_id =>
        add_link (mkLink (session_uuid r) pair_id child (-1)) r
    | _, _ => r
    end).

Definition link_sidechain_turn (id : Z) (seed : StoredEvent) : M B unit :=
  modify (λ r,
    match child_of r, related_tool_use_id seed with
    | None, Some pair_id => add_link (mkLink (session_uuid r) pair_id (session_uuid r) id) r
    | _, _ => r
    end).

(** *** Usage *)

Definition apply_usage (id : Z) (event : StoredEvent) : M B unit :=
  match usage_json event with
  | None => mret ()
  | Some u =>
      if bool_decide (agent event = "codex") then
        let total_in := token u "input_tokens" in
        let total_out := token u "output_tokens" in
        _ ← update_turn id (codex_tokens total_in total_out);
        modify (set_state (with_codex_totals total_in total_out))
      else
        let tin := wrap64 (wrap64 (token u "input_tokens" + token u "cache_read_input_tokens")
                           + token u "cache_creation_input_tokens") in
        let tout := token u "output_tokens" in
        match usage_message_id event with
        | None => update_turn id (add_tokens tin tout)
        | Some message_id =>
            cached ← gets usage;
            prior ← (match cached !! message_id with
                     | Some prior => mret (Some prior)
                     | None => b ← gets backend; lift (be_message_usage b message_id)
                     end);
            owner ← (match prior with
                     | Some p =>
                         loaded ← load_turn (mu_turn_id p);
                         mret (if loaded : bool then mu_turn_id p else id)
                     | None => mret id
                     end);
            _ ← (match prior with
                 | Some p =>
                     if bool_decide (mu_turn_id p = owner)
                     then update_turn owner
                            (add_tokens (- mu_input_tokens p) (- mu_output_tokens p))
                     else mret ()
                 | None => mret ()
                 end);
            _ ← update_turn owner (add_tokens tin tout);
            modify (put_usage message_id (mkUsage owner tin tout))
        end
  end.

(** *** Events *)

Definition create_turn (first : StoredEvent) (prompt sidechain : bool) : M B Z :=
  _ ← modify (λ r, set_turns
        (<[byte_offset first := seed_turn (state r) first prompt sidechain]> (turns r))
        ({[byte_offset first]} ∪ dirty_turns r) r);
  _ ← modify (set_state (state_after_seed first prompt));
  mret (byte_offset first).

Definition append_event (id : Z) (event : StoredEvent) : M B unit :=
  loaded ← load_turn id;
  if negb loaded then lift (bail "turn of session is missing")
  else
    _ ← update_turn id (count_event event);
    _ ← modify (set_state (state_after_event event));
    _ ← (if is_assistant_event event then
           _ ← apply_calls id event;
           update_turn id (note_assistant event)
         else mret ());
    _ ← (if is_tool_result_event event then apply_results id event else mret ());
    _ ← (match visible_item event with
         | Some item => modify (push_item (id, byte_offset event, item))
         | None => mret ()
         end);
    apply_usage id event.

(** Whether a prompt with this event id was already projected; a new one is
    remembered. *)
Definition prompt_repeated (event : StoredEvent) (is_prompt : bool) : M B bool :=
  match is_prompt, event_uuid event with
  | true, Some id =>
      local ← gets prompts;
      b ← gets backend;
      seen ← (if bool_decide (id ∈ local) then mret true else lift (be_prompt_seen b id));
      if seen : bool then mret true
      else _ ← modify (add_prompt id); mret false
  | _, _ => mret false
  end.

(** The turn an event lands in, and whether it is still to be appended. *)
Definition route (event : StoredEvent) (is_prompt : bool) : M B (option Z) :=
  s ← gets state;
  if is_sidechain event then
    match (if is_prompt then None else current_sidechain s) with
    | Some id => mret (Some id)
    | None =>
        if is_bookkeeping_event event then mret None
        else
          id ← create_turn event is_prompt true;
          _ ← modify (set_state (with_sidechain id));
          _ ← link_sidechain_turn id event;
          mret (if is_prompt then None else Some id)
    end
  else if is_prompt then
    id ← create_turn event true false;
    _ ← modify (set_state (with_main id));
    mret None
  else
    match current_main s with
    | Some id => mret (Some id)
    | None =>
        if is_bookkeeping_event event then mret None
        else
          id ← create_turn event false false;
          _ ← modify (set_state (with_main id));
          mret (Some id)
    end.

Definition apply (event : StoredEvent) : M B unit :=
  _ ← modify (set_state (with_through (byte_offset event)));
  if bool_decide (subtype event = Some "inherited_history") then mret ()
  else
    event ← correlate_runtime event;
    _ ← record_links event;
    let is_prompt := is_real_user_prompt event in
    repeated ← prompt_repeated event is_prompt;
    if repeated : bool then mret ()
    else
      target ← route event is_prompt;
      match target with
      | Some id => append_event id event
      | None => mret ()
      end.

(** *** The batch's changes *)

Definition into_changes (r : Reducer B) : Changes :=
  mkChanges (state r)
    (omap (λ id, turns r !! id) (sorted_ids (dirty_turns r)))
    (items r)
    (ops_at (ops r) (new_ops r))
    ((λ op, (op, bool_decide (key op ∈ input_changed r)))
       <$> ops_at (ops r) (updated_ops r ∖ new_ops r))
    ((λ op, (op_turn_id op, operation_ord op,
             extract_file_touches fs (op_pair op) (file_context r)))
       <$> ops_at (ops r) (new_ops r ∪ input_changed r))
    (omap (λ id, pair id <$> usage r !! id) (elements (dirty_usage r)))
    (elements (links r)).

End methods.
