(* ===== verification/ReducerSpec.v ===== *)
(** * The timeline, abstractly

    What the reducer promises: one event transforms a session's whole timeline
    ([Timeline]: every turn, item, operation, response usage and child link).
    There are no caches, dirty sets or backend reads here. [ReducerSim] proves
    that the reducer implements [step]; [Projection] that persisting a batch
    commits exactly the timeline [step] computes. *)

From S2P Require Import Prelude Text Json Events Runtime Render FileTouches Reducer.

Record Timeline : Type := mkTimeline {
  tl_state : SessionState;
  tl_turns : gmap Z TurnRow;
  tl_items : gmap key2 TimelineChunk;
  tl_ops : gmap key2 OpRow;
  tl_usage : gmap string MessageUsage;
  tl_links : gset ChildLink;
}.

Definition empty_timeline : Timeline := mkTimeline default_state ∅ ∅ ∅ ∅ ∅.

Definition SM (A : Type) : Type := Timeline → A * Timeline.
#[export] Instance SM_ret : MRet SM := λ A a tl, (a, tl).
#[export] Instance SM_bind : MBind SM := λ A C f m tl, let '(a, tl') := m tl in f a tl'.

Fixpoint sp_each {A} (l : list A) (body : A → SM unit) : SM unit :=
  match l with
  | [] => mret ()
  | a :: l => body a ≫= λ _, sp_each l body
  end.

Definition sp_gets {A} (f : Timeline → A) : SM A := λ tl, (f tl, tl).
Definition sp_modify (f : Timeline → Timeline) : SM unit := λ tl, ((), f tl).

Lemma sp_gets_bind {A C} (f : Timeline → A) (g : A → SM C) tl :
  (sp_gets f ≫= g) tl = g (f tl) tl.
Proof. done. Qed.

Lemma SM_bind_run {A C} (m : SM A) (g : A → SM C) tl :
  (m ≫= g) tl = g (m tl).1 (m tl).2.
Proof. unfold mbind, SM_bind. by destruct (m tl). Qed.

Definition tl_set_state (f : SessionState → SessionState) (tl : Timeline) : Timeline :=
  mkTimeline (f (tl_state tl)) (tl_turns tl) (tl_items tl) (tl_ops tl) (tl_usage tl)
    (tl_links tl).
Definition tl_set_turns (t : gmap Z TurnRow) (tl : Timeline) : Timeline :=
  mkTimeline (tl_state tl) t (tl_items tl) (tl_ops tl) (tl_usage tl) (tl_links tl).
Definition tl_set_ops (o : gmap key2 OpRow) (tl : Timeline) : Timeline :=
  mkTimeline (tl_state tl) (tl_turns tl) (tl_items tl) o (tl_usage tl) (tl_links tl).
(** Items are written once: a second one under the same key is dropped. *)
Definition insert_if_absent (m : gmap key2 TimelineChunk) (i : Z * Z * TimelineChunk)
    : gmap key2 TimelineChunk :=
  match m !! i.1 with Some _ => m | None => <[i.1 := i.2]> m end.
Definition tl_put_item (k : key2) (c : TimelineChunk) (tl : Timeline) : Timeline :=
  mkTimeline (tl_state tl) (tl_turns tl) (insert_if_absent (tl_items tl) (k, c)) (tl_ops tl)
    (tl_usage tl) (tl_links tl).
Definition tl_put_usage (id : string) (u : MessageUsage) (tl : Timeline) : Timeline :=
  mkTimeline (tl_state tl) (tl_turns tl) (tl_items tl) (tl_ops tl) (<[id := u]> (tl_usage tl))
    (tl_links tl).
Definition tl_add_link (l : ChildLink) (tl : Timeline) : Timeline :=
  mkTimeline (tl_state tl) (tl_turns tl) (tl_items tl) (tl_ops tl) (tl_usage tl)
    ({[l]} ∪ tl_links tl).

Definition keys_of_pair (o : gmap key2 OpRow) (p : string) : gset key2 :=
  dom (filter (λ kv, pair_id kv.2 = p) o).

(** A turn of the timeline with this prompt id. *)
Definition prompt_in (turns : gmap Z TurnRow) (id : string) : Prop :=
  map_Exists (λ _ t, prompt_event_uuid t = Some id) turns.

#[export] Instance prompt_in_dec turns id : Decision (prompt_in turns id).
Proof. unfold prompt_in. apply _. Defined.

Definition sp_update_turn (id : Z) (f : TurnRow → TurnRow) : SM unit :=
  sp_modify (λ tl, tl_set_turns (alter f id (tl_turns tl)) tl).

Definition sp_put_op (op : OpRow) : SM unit :=
  sp_modify (λ tl, tl_set_ops (<[key op := op]> (tl_ops tl)) tl).

(** Operations with this id called before [before], oldest first. *)
Definition sp_ops_for_pair (p : string) (before : Z) (tl : Timeline) : list OpRow :=
  sort_by_key call_offset (ops_before (tl_ops tl) (keys_of_pair (tl_ops tl) p) before).

Definition sp_apply_call (id : Z) (event : StoredEvent) (tool : ToolUseView) : SM unit :=
  turns ← sp_gets tl_turns;
  match turns !! id with
  | None => mret ()
  | Some t =>
      _ ← sp_update_turn id (count_operation (use_is_error tool));
      sp_put_op (new_op id (operation_count t) tool event)
  end.

Definition sp_close_waited_cells (wait : OpRow) (block : Block) (event : StoredEvent) : SM unit :=
  match waited_cell wait block with
  | None => mret ()
  | Some cell =>
      running ← sp_gets (λ tl, ops_where (runs_cell cell wait) (tl_ops tl));
      sp_each running (λ op, sp_put_op (close_cell event op))
  end.

Definition sp_apply_result (id : Z) (event : StoredEvent) (block : Block) : SM unit :=
  _ ← (if default false (block_is_error block) then sp_update_turn id (mark_errors true)
       else mret ());
  match tool_id block with
  | None => mret ()
  | Some pair_id =>
      found ← sp_gets (sp_ops_for_pair pair_id (byte_offset event));
      match last found with
      | None => mret ()
      | Some op =>
          let op := set_result block event op in
          _ ← sp_close_waited_cells op block event;
          _ ← sp_put_op op;
          sp_update_turn (op_turn_id op) (mark_errors (is_error op))
      end
  end.

Definition sp_candidates (event : StoredEvent) (evidence : Value) (tl : Timeline) : list OpRow :=
  let exact := match evidence_id evidence with
               | Some id => sp_ops_for_pair id (byte_offset event) tl
               | None => []
               end in
  match exact with
  | [] => ops_where (may_own event (evidence_id evidence) (evidence_start evidence)) (tl_ops tl)
  | _ => exact
  end.

Definition sp_fold_one (event output : StoredEvent) (ev : Value * bool) : SM StoredEvent :=
  candidates ← sp_gets (sp_candidates event ev.1);
  match candidates with
  | [op] =>
      let op := fold_runtime event ev.1 ev.2 op in
      _ ← sp_put_op op;
      _ ← sp_update_turn (op_turn_id op) (mark_errors (is_error op));
      mret (clear_blocks output)
  | _ => mret (mark_uncorrelated output ev.1)
  end.

Fixpoint sp_fold_all (event output : StoredEvent) (l : list (Value * bool)) : SM StoredEvent :=
  match l with
  | [] => mret output
  | ev :: l => output ← sp_fold_one event output ev; sp_fold_all event output l
  end.

Definition sp_apply_usage (id : Z) (event : StoredEvent) : SM unit :=
  match usage_json event with
  | None => mret ()
  | Some u =>
      if bool_decide (agent event = "codex") then
        let total_in := token u "input_tokens" in
        let total_out := token u "output_tokens" in
        _ ← sp_update_turn id (codex_tokens total_in total_out);
        sp_modify (tl_set_state (with_codex_totals total_in total_out))
      else
        let tin := wrap64 (wrap64 (token u "input_tokens" + token u "cache_read_input_tokens")
                           + token u "cache_creation_input_tokens") in
        let tout := token u "output_tokens" in
        match usage_message_id event with
        | None => sp_update_turn id (add_tokens tin tout)
        | Some message_id =>
            prior ← sp_gets (λ tl, tl_usage tl !! message_id);
            turns ← sp_gets tl_turns;
            let owner := match prior with
                         | Some p => if bool_decide (is_Some (turns !! mu_turn_id p))
                                     then mu_turn_id p else id
                         | None => id
                         end in
            _ ← (match prior with
                 | Some p =>
                     if bool_decide (mu_turn_id p = owner)
                     then sp_update_turn owner
                            (add_tokens (- mu_input_tokens p) (- mu_output_tokens p))
                     else mret ()
                 | None => mret ()
                 end);
            _ ← sp_update_turn owner (add_tokens tin tout);
            sp_modify (tl_put_usage message_id (mkUsage owner tin tout))
        end
  end.

Section step.
Context (parse_uuid : string → option Uuid) (self : Uuid) (child_of : option Uuid).

Definition sp_record_links (event : StoredEvent) : SM unit :=
  sp_modify (λ tl,
    let tl := match child_of, related_tool_use_id event with
              | Some parent, Some pair_id => tl_add_link (mkLink parent pair_id self (-1)) tl
              | _, _ => tl
              end in
    match spawned_child parse_uuid self event, related_tool_use_id event with
    | Some child, Some pair_id => tl_add_link (mkLink self pair_id child (-1)) tl
    | _, _ => tl
    end).

Definition sp_link_sidechain (id : Z) (seed : StoredEvent) : SM unit :=
  sp_modify (λ tl,
    match child_of, related_tool_use_id seed with
    | None, Some pair_id => tl_add_link (mkLink self pair_id self id) tl
    | _, _ => tl
    end).

Definition sp_create_turn (first : StoredEvent) (prompt sidechain : bool) : SM Z :=
  _ ← sp_modify (λ tl, tl_set_turns
        (<[byte_offset first := seed_turn (tl_state tl) first prompt sidechain]>
           (tl_turns tl)) tl);
  _ ← sp_modify (tl_set_state (state_after_seed first prompt));
  mret (byte_offset first).

Definition sp_append_event (id : Z) (event : StoredEvent) : SM unit :=
  _ ← sp_update_turn id (count_event event);
  _ ← sp_modify (tl_set_state (state_after_event event));
  _ ← (if is_assistant_event event then
         _ ← sp_each (tool_uses_in event) (sp_apply_call id event);
         sp_update_turn id (note_assistant event)
       else mret ());
  _ ← (if is_tool_result_event event
       then sp_each (blocks_of BToolResult event) (sp_apply_result id event)
       else mret ());
  _ ← (match visible_item event with
       | Some item => sp_modify (tl_put_item (id, byte_offset event) item)
       | None => mret ()
       end);
  sp_apply_usage id event.

Definition sp_repeated (event : StoredEvent) (is_prompt : bool) (tl : Timeline) : bool :=
  match is_prompt, event_uuid event with
  | true, Some id => bool_decide (prompt_in (tl_turns tl) id)
  | _, _ => false
  end.

Definition sp_route (event : StoredEvent) (is_prompt : bool) : SM (option Z) :=
  s ← sp_gets tl_state;
  if is_sidechain event then
    match (if is_prompt then None else current_sidechain s) with
    | Some id => mret (Some id)
    | None =>
        if is_bookkeeping_event event then mret None
        else
          id ← sp_create_turn event is_prompt true;
          _ ← sp_modify (tl_set_state (with_sidechain id));
          _ ← sp_link_sidechain id event;
          mret (if is_prompt then None else Some id)
    end
  else if is_prompt then
    id ← sp_create_turn event true false;
    _ ← sp_modify (tl_set_state (with_main id));
    mret None
  else
    match current_main s with
    | Some id => mret (Some id)
    | None =>
        if is_bookkeeping_event event then mret None
        else
          id ← sp_create_turn event false false;
          _ ← sp_modify (tl_set_state (with_main id));
          mret (Some id)
    end.

Definition sp_apply (event : StoredEvent) : SM unit :=
  _ ← sp_modify (tl_set_state (with_through (byte_offset event)));
  if bool_decide (subtype event = Some "inherited_history") then mret ()
  else
    event ← sp_fold_all event event (evidence_of event);
    _ ← sp_record_links event;
    let is_prompt := is_real_user_prompt event in
    repeated ← sp_gets (sp_repeated event is_prompt);
    if repeated : bool then mret ()
    else
      target ← sp_route event is_prompt;
      match target with
      | Some id => sp_append_event id event
      | None => mret ()
      end.

(** One event's effect on the timeline, and a session's events in turn. *)
Definition step (tl : Timeline) (event : StoredEvent) : Timeline := (sp_apply event tl).2.
Definition steps (tl : Timeline) (events : list StoredEvent) : Timeline :=
  foldl step tl events.
End step.

(** ** The cursor *)

(** A computation that leaves the cursor where it is. *)
Definition keeps_through {A} (s : SM A) : Prop :=
  ∀ tl, projected_through (tl_state (s tl).2) = projected_through (tl_state tl).

Lemma keeps_ret {A} (a : A) : keeps_through (mret a).
Proof. done. Qed.
Lemma keeps_bind {A C} (s : SM A) (f : A → SM C) :
  keeps_through s → (∀ a, keeps_through (f a)) → keeps_through (s ≫= f).
Proof. intros Hs Hf tl. by rewrite SM_bind_run, Hf. Qed.
Lemma keeps_each {A} (l : list A) body :
  (∀ a, keeps_through (body a)) → keeps_through (sp_each l body).
Proof. intros Hb. induction l; simpl; [apply keeps_ret|by apply keeps_bind]. Qed.
Lemma keeps_gets {A} (f : Timeline → A) : keeps_through (sp_gets f).
Proof. done. Qed.
Lemma keeps_modify f :
  (∀ tl, projected_through (tl_state (f tl)) = projected_through (tl_state tl)) →
  keeps_through (sp_modify f).
Proof. intros Hf tl. apply Hf. Qed.

Create HintDb keeps discriminated.

(** Computations made of reads, row updates and state updates. *)
Ltac keeps :=
  repeat first
    [ solve [auto 1 with keeps] | apply keeps_ret | apply keeps_gets | apply keeps_bind; [|intros ?]
    | apply keeps_each; intros ? | apply keeps_modify; intros ?; reflexivity
    | progress (repeat case_match) ].

Lemma keeps_fold_all event output l : keeps_through (sp_fold_all event output l).
Proof.
  revert output. induction l as [|ev l IH]; intros output; simpl; [apply keeps_ret|].
  apply keeps_bind; [|intros ?; apply IH]. unfold sp_fold_one, sp_put_op, sp_update_turn. keeps.
Qed.

Lemma keeps_append id event : keeps_through (sp_append_event id event).
Proof.
  unfold sp_append_event, sp_apply_usage, sp_apply_call, sp_apply_result, sp_close_waited_cells,
    sp_put_op, sp_update_turn. keeps.
Qed.

Lemma keeps_route self child event b : keeps_through (sp_route self child event b).
Proof.
  unfold sp_route, sp_create_turn, sp_link_sidechain. keeps;
    apply keeps_modify; intros tl; by repeat case_match.
Qed.

Lemma keeps_links parse_uuid self child event :
  keeps_through (sp_record_links parse_uuid self child event).
Proof. apply keeps_modify. intros tl. by repeat case_match. Qed.

#[export] Hint Resolve keeps_fold_all keeps_append keeps_route keeps_links : keeps.

Lemma step_through parse_uuid self child tl event :
  projected_through (tl_state (step parse_uuid self child tl event)) =
  Z.max (projected_through (tl_state tl)) (byte_offset event).
Proof.
  unfold step, sp_apply. rewrite SM_bind_run. case_bool_decide; [done|].
  rewrite SM_bind_run.
  match goal with |- projected_through (tl_state (?s ?tl').2) = _ =>
    enough (keeps_through s) as Hs
  end.
  { rewrite Hs. by rewrite keeps_fold_all. }
  keeps.
Qed.

(** ** Sequences of events *)

(** Events in byte order, all after [o]. *)
Fixpoint increasing (o : Z) (l : list StoredEvent) : Prop :=
  match l with
  | [] => True
  | e :: l => o < byte_offset e ∧ increasing (byte_offset e) l
  end.

#[export] Instance increasing_dec o l : Decision (increasing o l).
Proof. revert o. induction l; intros o; simpl; apply _. Defined.

(** Tool calls an event or a sequence of events makes. *)
Definition calls_in (event : StoredEvent) : Z := Z.of_nat (length (tool_uses_in event)).
Definition tool_calls (l : list StoredEvent) : Z := foldr (λ e n, calls_in e + n) 0 l.

Lemma tool_calls_nonneg l : 0 ≤ tool_calls l.
Proof. induction l; simpl; unfold calls_in; lia. Qed.

Lemma tool_calls_app l l' : tool_calls (l ++ l') = tool_calls l + tool_calls l'.
Proof. induction l; simpl; lia. Qed.

Lemma last_offset_cons o e l :
  default o (byte_offset <$> last (e :: l)) = default (byte_offset e) (byte_offset <$> last l).
Proof.
  destruct l as [|e' l]; [done|]. rewrite last_cons_cons.
  destruct (last (e' :: l)) eqn:E; [done|by apply last_None in E].
Qed.

Lemma increasing_app o l l' :
  increasing o (l ++ l') ↔
    increasing o l ∧ increasing (default o (byte_offset <$> last l)) l'.
Proof.
  revert o. induction l as [|e l IH]; intros o; [simpl; tauto|].
  rewrite last_offset_cons. cbn [app increasing]. rewrite IH. tauto.
Qed.

Lemma steps_app parse_uuid self child tl l l' :
  steps parse_uuid self child tl (l ++ l') =
  steps parse_uuid self child (steps parse_uuid self child tl l) l'.
Proof. apply foldl_app. Qed.

Lemma steps_through parse_uuid self child tl l :
  increasing (projected_through (tl_state tl)) l →
  projected_through (tl_state (steps parse_uuid self child tl l)) =
    default (projected_through (tl_state tl)) (byte_offset <$> last l).
Proof.
  unfold steps. revert tl. induction l as [|e l IH]; intros tl; [done|].
  intros [Hlt Hinc]. rewrite last_offset_cons. cbn [foldl].
  assert (projected_through (tl_state (step parse_uuid self child tl e)) = byte_offset e) as E
    by (rewrite step_through; lia).
  rewrite IH by by rewrite E. by rewrite E.
Qed.

(** ** Links are write-only

    No step reads the links, so links already present only stay. *)

Definition add_links (L : gset ChildLink) (tl : Timeline) : Timeline :=
  mkTimeline (tl_state tl) (tl_turns tl) (tl_items tl) (tl_ops tl) (tl_usage tl)
    (L ∪ tl_links tl).

Definition commutes (L : gset ChildLink) {A} (s : SM A) : Prop :=
  ∀ tl, s (add_links L tl) = ((s tl).1, add_links L (s tl).2).

Section commutes.
Context (L : gset ChildLink).

Lemma commutes_ret {A} (a : A) : commutes L (mret a).
Proof. done. Qed.
Lemma commutes_bind {A C} (s : SM A) (f : A → SM C) :
  commutes L s → (∀ a, commutes L (f a)) → commutes L (s ≫= f).
Proof. intros Hs Hf tl. rewrite !SM_bind_run, Hs. simpl. apply Hf. Qed.
Lemma commutes_each {A} (l : list A) body :
  (∀ a, commutes L (body a)) → commutes L (sp_each l body).
Proof. intros Hb. induction l; simpl; [apply commutes_ret|by apply commutes_bind]. Qed.
Lemma commutes_gets {A} (f : Timeline → A) :
  (∀ tl, f (add_links L tl) = f tl) → commutes L (sp_gets f).
Proof. intros Hf tl. unfold sp_gets. simpl. by rewrite Hf. Qed.
Lemma commutes_modify f :
  (∀ tl, f (add_links L tl) = add_links L (f tl)) → commutes L (sp_modify f).
Proof. intros Hf tl. unfold sp_modify. simpl. by rewrite Hf. Qed.
End commutes.

Create HintDb links discriminated.

Ltac commutes :=
  repeat first
    [ solve [auto 1 with links] | apply commutes_ret
    | apply commutes_gets; intros ?; reflexivity
    | apply commutes_bind; [|intros ?]
    | apply commutes_each; intros ? | apply commutes_modify; intros ?; reflexivity
    | progress (repeat case_match) ].

Lemma commutes_add_link L l : commutes L (sp_modify (tl_add_link l)).
Proof.
  apply commutes_modify. intros tl. unfold tl_add_link, add_links. simpl. f_equal.
  rewrite !(assoc_L (∪)). f_equal. apply (comm_L (∪)).
Qed.

Lemma commutes_fold_all L event output l : commutes L (sp_fold_all event output l).
Proof.
  revert output. induction l as [|ev l IH]; intros output; simpl; [apply commutes_ret|].
  apply commutes_bind; [|intros ?; apply IH]. unfold sp_fold_one, sp_put_op, sp_update_turn.
  commutes.
Qed.

Lemma commutes_links L parse_uuid self child event :
  commutes L (sp_record_links parse_uuid self child event).
Proof.
  intros tl. unfold sp_record_links, sp_modify. simpl.
  repeat case_match; simpl; try done;
    unfold tl_add_link, add_links; simpl; do 2 f_equal; set_solver.
Qed.

Lemma commutes_append L id event : commutes L (sp_append_event id event).
Proof.
  unfold sp_append_event, sp_apply_usage, sp_apply_call, sp_apply_result, sp_close_waited_cells,
    sp_put_op, sp_update_turn. commutes.
Qed.

Lemma commutes_sidechain L self child id event :
  commutes L (sp_link_sidechain self child id event).
Proof.
  intros tl. unfold sp_link_sidechain, sp_modify. simpl.
  repeat case_match; simpl; try done;
    unfold tl_add_link, add_links; simpl; do 2 f_equal; set_solver.
Qed.

#[export] Hint Resolve commutes_fold_all commutes_links commutes_append commutes_sidechain : links.

Lemma commutes_route L self child event b : commutes L (sp_route self child event b).
Proof. unfold sp_route, sp_create_turn. commutes. Qed.

#[export] Hint Resolve commutes_route : links.

Lemma steps_add_links L parse_uuid self child tl events :
  steps parse_uuid self child (add_links L tl) events =
  add_links L (steps parse_uuid self child tl events).
Proof.
  unfold steps. revert tl. induction events as [|e events IH]; intros tl; simpl; [done|].
  rewrite <-IH. f_equal. unfold step.
  assert (commutes L (sp_apply parse_uuid self child e)) as Hc by (unfold sp_apply; commutes).
  by rewrite Hc.
Qed.

(** A timeline with nothing but links: where a rebuild starts. *)
Definition blank (L : gset ChildLink) : Timeline := mkTimeline default_state ∅ ∅ ∅ ∅ L.

Lemma blank_add_links L : blank L = add_links L (blank ∅).
Proof. unfold blank, add_links. simpl. by rewrite (right_id_L ∅ (∪)). Qed.
