(* ===== verification/ReducerInv.v ===== *)
(** * Invariants of the reducer's caches

    [BackendLaws] states what the reducer relies on from the store it reads:
    its answers are those of a committed timeline. The rest of the file is one
    invariant per cache of the reducer (turns, operations, prompts, usage) and
    the well-formedness of timelines, each with the lemmas that the primitive
    updates preserve it; [ReducerSim] combines them. *)

From S2P Require Import Prelude Text Json Events Runtime Render FileTouches Reducer ReducerSpec.

(** ** The interface *)

Class BackendLaws (B : Type) `{Backend B} (rows : B → Timeline) (ok : B → Prop) : Prop := {
  law_turn b id : ok b → be_turn b id = Ok (tl_turns (rows b) !! id);
  law_ops_by_pair b p before : ok b → ∃ l, be_ops_by_pair b p before = Ok l ∧
    ∀ op, op ∈ l ↔ tl_ops (rows b) !! key op = Some op ∧ pair_id op = p ∧
                   call_offset op < before;
  law_prompt_seen b u : ok b →
    be_prompt_seen b u = Ok (bool_decide (prompt_in (tl_turns (rows b)) u));
  law_message_usage b m : ok b → be_message_usage b m = Ok (tl_usage (rows b) !! m);
  law_exec_candidates b before started : ok b →
    ∃ l, be_exec_candidates b before started = Ok l ∧
    (∀ op, op ∈ l → tl_ops (rows b) !! key op = Some op) ∧
    (∀ op, tl_ops (rows b) !! key op = Some op → call_offset op < before →
           encloses op started = true → op ∈ l);
  law_ops_by_running_cell b c : ok b → ∃ l, be_ops_by_running_cell b c = Ok l ∧
    ∀ op, op ∈ l ↔ tl_ops (rows b) !! key op = Some op ∧ running op = Some c;
}.

(** ** What never changes in a row *)

Definition turn_frozen (t : TurnRow) :=
  (turn_id t, turn_ord t, turn_is_sidechain t, turn_prompt_text t, prompt_event_uuid t,
   start_timestamp t, usage_baseline_input t, usage_baseline_output t).

Definition op_frozen (op : OpRow) :=
  (key op, pair_id op, name op, raw_name op, operation_type op, category op,
   call_offset op, call_at op).

Lemma frozen_key a b : op_frozen a = op_frozen b → key a = key b.
Proof. unfold op_frozen. congruence. Qed.
Lemma frozen_pair a b : op_frozen a = op_frozen b → pair_id a = pair_id b.
Proof. unfold op_frozen. congruence. Qed.
Lemma frozen_offset a b : op_frozen a = op_frozen b → call_offset a = call_offset b.
Proof. unfold op_frozen. congruence. Qed.
Lemma frozen_prompt a b : turn_frozen a = turn_frozen b →
  prompt_event_uuid a = prompt_event_uuid b.
Proof. unfold turn_frozen. congruence. Qed.
Lemma frozen_turn_id a b : turn_frozen a = turn_frozen b → turn_id a = turn_id b.
Proof. unfold turn_frozen. congruence. Qed.

(** ** Well-formed timelines

    [n] is a bound on the tool calls still to come. [op_cap] calls in a turn
    is what the numbering of file touches (1024 per operation, in an [i32])
    allows; below it no [i32] counter of operations wraps either. *)

Definition op_cap : Z := 2 ^ 21.

Record wf (n : Z) (tl : Timeline) : Prop := {
  wf_key k op : tl_ops tl !! k = Some op → key op = k;
  wf_fit k op : tl_ops tl !! k = Some op →
    ∃ t, tl_turns tl !! k.1 = Some t ∧ 0 ≤ k.2 < operation_count t;
  wf_turn id t : tl_turns tl !! id = Some t →
    turn_id t = id ∧ 0 ≤ operation_count t ∧ operation_count t + n < op_cap;
  wf_op_bound k op : tl_ops tl !! k = Some op →
    call_offset op ≤ projected_through (tl_state tl);
  wf_turn_bound id t : tl_turns tl !! id = Some t → id ≤ projected_through (tl_state tl);
  wf_item k c : tl_items tl !! k = Some c → is_Some (tl_turns tl !! k.1);
  wf_main id : current_main (tl_state tl) = Some id → is_Some (tl_turns tl !! id);
  wf_sidechain id : current_sidechain (tl_state tl) = Some id → is_Some (tl_turns tl !! id);
}.

Lemma wf_empty n : n < op_cap → wf n empty_timeline.
Proof. intros Hn. by split; simpl. Qed.

Lemma wf_weaken n n' tl : n' ≤ n → wf n tl → wf n' tl.
Proof.
  intros Hle []. split; eauto.
  intros id t Ht. destruct (wf_turn0 id t Ht) as (? & ? & ?). repeat split; [done|done|lia].
Qed.

(** ** Lists of operations *)

Section op_lists.
Implicit Types l : list OpRow.
Implicit Types o : gmap key2 OpRow.

Lemma insert_by_last f x l :
  (∀ y, y ∈ l → ∀ b, last l = Some b → f y ≤ f b) →
  last (insert_by f x l) =
    match last l with Some b => if f b <=? f x then Some x else Some b | None => Some x end.
Proof.
  induction l as [|y l IH]; intros Hs; [done|]. cbn [insert_by].
  destruct (Z.ltb_spec (f x) (f y)) as [Hlt|Hge].
  - destruct (last (y :: l)) as [b|] eqn:Eb; [|by rewrite last_None in Eb].
    assert (f y ≤ f b) by (eapply Hs; [by left|done]).
    replace (f b <=? f x) with false by (symmetry; apply Z.leb_gt; lia).
    by rewrite <-Eb.
  - destruct l as [|z l].
    + simpl. replace (f y <=? f x) with true by (symmetry; apply Z.leb_le; lia). done.
    + rewrite last_cons_cons.
      destruct (insert_by f x (z :: l)) as [|w ws] eqn:E.
      { cbn [insert_by] in E. by destruct (f x <? f z). }
      rewrite last_cons_cons. apply IH.
      intros v Hv. apply Hs. by right.
Qed.

Lemma elem_of_insert_by f x l y : y ∈ insert_by f x l ↔ y = x ∨ y ∈ l.
Proof.
  induction l as [|z l IH]; cbn [insert_by]; [set_solver|].
  destruct (f x <? f z); set_solver.
Qed.

(** The last element of the stable sort is the last of the greatest. *)
Lemma last_sort_by_key f l : last (sort_by_key f l) = max_by_key f l.
Proof.
  unfold sort_by_key, max_by_key.
  enough (∀ acc best, last acc = best →
    (∀ y, y ∈ acc → ∀ b, last acc = Some b → f y ≤ f b) →
    last (foldl (λ acc x, insert_by f x acc) acc l) =
    foldl (λ best x, match best with
                     | Some b => if f b <=? f x then Some x else best
                     | None => Some x end) best l) as H.
  { apply H; [done|]. intros y Hy. set_solver. }
  induction l as [|x l IH]; intros acc best Hbest Hs; simpl; [done|].
  pose proof (insert_by_last f x acc Hs) as Hlast.
  apply IH.
  - rewrite Hlast, Hbest. destruct best as [b|]; [|done]. by destruct (f b <=? f x).
  - intros y [->|Hy]%elem_of_insert_by b Hb; rewrite Hlast in Hb.
    + destruct (last acc) as [c|]; simplify_eq; [|done].
      destruct (Z.leb_spec (f c) (f x)); simplify_eq; lia.
    + destruct (last acc) as [c|] eqn:Ec.
      * specialize (Hs y Hy c eq_refl).
        destruct (Z.leb_spec (f c) (f x)); simplify_eq; lia.
      * apply last_None in Ec. set_solver.
Qed.

Lemma elem_of_ops_at o s op : op ∈ ops_at o s ↔ ∃ k, k ∈ s ∧ o !! k = Some op.
Proof.
  unfold ops_at. rewrite list_elem_of_omap.
  setoid_rewrite elem_of_sorted_keys. naive_solver.
Qed.

Lemma ops_at_ext o o' s : (∀ k, k ∈ s → o !! k = o' !! k) → ops_at o s = ops_at o' s.
Proof.
  intros Hext. unfold ops_at.
  assert (∀ k, k ∈ sorted_keys s → o !! k = o' !! k) as H.
  { intros k Hk. by apply Hext, elem_of_sorted_keys. }
  revert H. generalize (sorted_keys s). clear.
  induction l as [|k l IH]; intros H; [done|]. simpl.
  rewrite (H k) by (by left).
  destruct (o' !! k); [f_equal|]; apply IH; intros; apply H; by right.
Qed.

Lemma keys_of_pair_spec o p k :
  k ∈ keys_of_pair o p ↔ ∃ op, o !! k = Some op ∧ pair_id op = p.
Proof.
  unfold keys_of_pair. rewrite elem_of_dom. unfold is_Some.
  setoid_rewrite map_lookup_filter_Some. naive_solver.
Qed.
End op_lists.

Section op_lists_ext.
Implicit Types o : gmap key2 OpRow.

Lemma sorted_keys_filter (P : key2 → Prop) `{∀ k, Decision (P k)} (s s' : gset key2) :
  (∀ k, k ∈ s' ↔ k ∈ s ∧ P k) → sorted_keys s' = filter P (sorted_keys s).
Proof.
  intros Hs. apply (StronglySorted_unique key2_le).
  - apply sorted_keys_Sorted.
  - apply StronglySorted_filter, sorted_keys_Sorted.
  - apply NoDup_Permutation.
    + apply sorted_keys_NoDup.
    + apply NoDup_filter, sorted_keys_NoDup.
    + intros k. rewrite list_elem_of_filter, !elem_of_sorted_keys, Hs. tauto.
Qed.

Definition selected (f : OpRow → bool) o (k : key2) : option OpRow :=
  op ← o !! k; if f op then Some op else None.

Lemma filter_ops_at f o s :
  List.filter f (ops_at o s) = omap (selected f o) (sorted_keys s).
Proof.
  unfold ops_at, selected. induction (sorted_keys s) as [|k l IH]; [done|]. simpl.
  destruct (o !! k) as [op|]; simpl; [|apply IH].
  destruct (f op); simpl; [f_equal|]; apply IH.
Qed.

Lemma omap_filter_selected f o (l : list key2) :
  omap (selected f o) (filter (λ k, is_Some (selected f o k)) l) = omap (selected f o) l.
Proof.
  induction l as [|k l IH]; [done|]. rewrite filter_cons. case_decide as Hd.
  - simpl. destruct (selected f o k); [f_equal|]; apply IH.
  - simpl. destruct (selected f o k); [by destruct Hd|apply IH].
Qed.

(** Two views that select the same rows give the same ordered list. *)
Lemma filter_ops_ext (f : OpRow → bool) o o' (s s' : gset key2) :
  (∀ k op, k ∈ s ∧ o !! k = Some op ∧ f op = true ↔
           k ∈ s' ∧ o' !! k = Some op ∧ f op = true) →
  List.filter f (ops_at o s) = List.filter f (ops_at o' s').
Proof.
  intros Hext. rewrite !filter_ops_at.
  rewrite <-(omap_filter_selected f o), <-(omap_filter_selected f o').
  assert (∀ o k op, selected f o k = Some op ↔ o !! k = Some op ∧ f op = true) as Hsel.
  { intros o1 k op. unfold selected.
    destruct (o1 !! k) as [op1|]; simpl; [|split; [done|by intros [? _]]].
    destruct (f op1) eqn:E; split; [by intros [= <-]|by intros [[= <-] _]|done|].
    intros [[= <-] ?]; congruence. }
  assert (filter (λ k, is_Some (selected f o k)) (sorted_keys s) =
                   filter (λ k, is_Some (selected f o' k)) (sorted_keys s')) as sel_eq.
  { rewrite <-(sorted_keys_filter _ s (filter (λ k, is_Some (selected f o k)) s)).
    2:{ intros k. rewrite elem_of_filter. tauto. }
    apply sorted_keys_filter. intros k. rewrite elem_of_filter. unfold is_Some.
    setoid_rewrite Hsel. naive_solver. }
  rewrite sel_eq.
  assert (∀ k, k ∈ filter (λ k, is_Some (selected f o' k)) (sorted_keys s') →
               selected f o k = selected f o' k) as Hk.
  { intros k [[op Hop] Hin]%list_elem_of_filter. rewrite Hop.
    apply Hsel. apply Hsel in Hop. rewrite elem_of_sorted_keys in Hin. naive_solver. }
  revert Hk. generalize (filter (λ k, is_Some (selected f o' k)) (sorted_keys s')).
  induction l as [|k l IH]; intros Hk; [done|]. simpl.
  rewrite (Hk k) by (by left).
  destruct (selected f o' k); [f_equal|]; apply IH; intros; apply Hk; by right.
Qed.
End op_lists_ext.

Lemma filter_andb {A} (f g : A → bool) (l : list A) :
  List.filter f (List.filter g l) = List.filter (λ x, g x && f x) l.
Proof.
  induction l as [|x l IH]; [done|]. simpl. destruct (g x); simpl; [|done].
  destruct (f x); by rewrite IH.
Qed.

(** [max_by_key] looks only at the elements above any bound it exceeds. *)
Section max_by_key.
Context (f : OpRow → Z) (s : Z).

Definition above (op : OpRow) : bool := s <? f op.

Definition best_above (best best' : option OpRow) : Prop :=
  match best' with
  | Some m => best = Some m ∧ s < f m
  | None => match best with Some b => f b ≤ s | None => True end
  end.

Lemma max_by_key_above_gen l : best_above (max_by_key f l) (max_by_key f (List.filter above l)).
Proof.
  unfold max_by_key.
  enough (∀ b b', best_above b b' → best_above
    (foldl (λ best x, match best with
                      | Some b => if f b <=? f x then Some x else best
                      | None => Some x end) b l)
    (foldl (λ best x, match best with
                      | Some b => if f b <=? f x then Some x else best
                      | None => Some x end) b' (List.filter above l))) as H by by apply H.
  induction l as [|x l IH]; intros b b' Hb; simpl; [done|].
  assert (above x = (s <? f x)) as -> by done.
  destruct (Z.ltb_spec s (f x)); simpl; apply IH; revert Hb;
    unfold best_above; destruct b' as [m|], b as [b|]; simpl;
    repeat (case_match; simplify_eq/=); naive_solver lia.
Qed.

Lemma max_by_key_above l m :
  max_by_key f (List.filter above l) = Some m → max_by_key f l = Some m.
Proof. intros H. pose proof (max_by_key_above_gen l) as HB. rewrite H in HB. apply HB. Qed.

Lemma max_by_key_above' l m :
  max_by_key f l = Some m → s < f m → max_by_key f (List.filter above l) = Some m.
Proof.
  intros H Hlt. pose proof (max_by_key_above_gen l) as HB. rewrite H in HB.
  destruct (max_by_key f (List.filter above l)); simpl in HB; [by destruct HB|lia].
Qed.
End max_by_key.

(** ** The turn cache *)

Section turns_ok.
Context (base : gmap Z TurnRow).
Implicit Types cache full : gmap Z TurnRow.

(** The turns seen are the cached ones, else the committed ones; a cached
    turn that is not dirty is the committed row. *)
Record turns_ok cache (dirty : gset Z) full : Prop := {
  t_view : full = cache ∪ base;
  t_cache id t : cache !! id = Some t →
    match base !! id with
    | Some t0 => turn_frozen t = turn_frozen t0 ∧ (id ∈ dirty ∨ t = t0)
    | None => id ∈ dirty
    end;
  t_dirty : dirty ⊆ dom cache;
}.

Lemma turns_ok_new : turns_ok ∅ ∅ base.
Proof. split; [by rewrite (left_id_L ∅ _)|by intros|set_solver]. Qed.

Lemma turns_ok_cached cache dirty full id t :
  turns_ok cache dirty full → cache !! id = Some t → full !! id = Some t.
Proof. intros [-> _ _] E. by apply lookup_union_Some_l. Qed.

Lemma turns_ok_uncached cache dirty full id :
  turns_ok cache dirty full → cache !! id = None → full !! id = base !! id.
Proof. intros [-> _ _] E. by apply lookup_union_r. Qed.

Lemma turns_ok_frozen cache dirty full id t t0 :
  turns_ok cache dirty full → full !! id = Some t → base !! id = Some t0 →
  turn_frozen t = turn_frozen t0.
Proof.
  intros HT Ht H0. destruct (cache !! id) as [t1|] eqn:E1.
  - rewrite (turns_ok_cached _ _ _ _ _ HT E1) in Ht. injection Ht as ->.
    pose proof (t_cache _ _ _ HT _ _ E1) as Hc. rewrite H0 in Hc. apply Hc.
  - rewrite (turns_ok_uncached _ _ _ _ HT E1) in Ht. congruence.
Qed.

Lemma turns_ok_insert cache dirty full id t :
  turns_ok cache dirty full →
  (∀ t0, base !! id = Some t0 → turn_frozen t = turn_frozen t0) →
  turns_ok (<[id := t]> cache) ({[id]} ∪ dirty) (<[id := t]> full).
Proof.
  intros [Hv Hc Hd] Hf. split.
  - by rewrite Hv, insert_union_l.
  - intros id' t'. destruct (decide (id = id')) as [->|Hne].
    + rewrite lookup_insert_eq. intros [= <-]. destruct (base !! id') eqn:E; [|set_solver].
      split; [by apply Hf|left; set_solver].
    + rewrite lookup_insert_ne by done. intros E. specialize (Hc _ _ E).
      destruct (base !! id'); [destruct Hc as (? & [?|?]); split; [done| |done|by right]|];
        set_solver.
  - set_solver.
Qed.

Lemma turns_ok_load cache dirty full id t :
  turns_ok cache dirty full → cache !! id = None → base !! id = Some t →
  turns_ok (<[id := t]> cache) dirty full.
Proof.
  intros [Hv Hc Hd] E0 Hb. split.
  - rewrite Hv, <-insert_union_l. symmetry. apply insert_id.
    by rewrite lookup_union_r.
  - intros id' t'. destruct (decide (id = id')) as [->|Hne].
    + rewrite lookup_insert_eq, Hb. intros [= <-]. by split; [|right].
    + rewrite lookup_insert_ne by done. apply Hc.
  - set_solver.
Qed.

Lemma turns_ok_touch cache dirty full id :
  turns_ok cache dirty full → is_Some (cache !! id) → turns_ok cache ({[id]} ∪ dirty) full.
Proof.
  intros [Hv Hc Hd] Hin%elem_of_dom. split; [done| |set_solver].
  intros id' t' E. specialize (Hc _ _ E).
  destruct (base !! id'); [|set_solver].
  destruct Hc as (? & [?|?]); split; [done|left; set_solver|done|by right].
Qed.
End turns_ok.

(** ** The operation cache *)

Lemma keys_of_pair_insert o op p :
  (∀ op', o !! key op = Some op' → pair_id op' = pair_id op) →
  keys_of_pair (<[key op := op]> o) p =
    if bool_decide (pair_id op = p) then {[key op]} ∪ keys_of_pair o p else keys_of_pair o p.
Proof.
  intros Hsame. apply set_eq. intros k. rewrite keys_of_pair_spec.
  destruct (decide (k = key op)) as [->|Hne].
  - rewrite lookup_insert_eq. case_bool_decide as Hp.
    + rewrite elem_of_union, elem_of_singleton. split; [by left|]. intros _. by eexists.
    + rewrite keys_of_pair_spec. split; [by intros (? & [= <-] & ?)|].
      intros (op' & E & <-). by destruct Hp; symmetry; apply Hsame.
  - rewrite lookup_insert_ne by done.
    case_bool_decide; rewrite ?elem_of_union, ?elem_of_singleton, keys_of_pair_spec; naive_solver.
Qed.

Lemma pair_keys_index_op op index p :
  pair_keys (index_op op index) p =
    if bool_decide (pair_id op = p) then {[key op]} ∪ pair_keys index p else pair_keys index p.
Proof.
  unfold pair_keys at 1, index_op. case_bool_decide as Hp.
  - subst p. by rewrite lookup_insert_eq.
  - by rewrite lookup_insert_ne.
Qed.

Section ops_ok.
Context (base : gmap key2 OpRow) (through : Z).
Implicit Types cache full : gmap key2 OpRow.
Implicit Types index : gmap string (gset key2).

(** The operations seen are the cached ones, else the committed ones. A
    cached operation is new, or agrees with the committed row except in what
    its marks name. *)
Record ops_ok cache (new upd inp : gset key2) index full : Prop := {
  o_view : full = cache ∪ base;
  o_cache k op : cache !! k = Some op →
    key op = k ∧
    match base !! k with
    | Some op0 => k ∉ new ∧ op_frozen op = op_frozen op0 ∧
                  (k ∈ upd ∨ op = op0) ∧ (k ∈ inp ∨ input op = input op0)
    | None => k ∈ new ∧ through < call_offset op
    end;
  o_marks : new ∪ upd ∪ inp ⊆ dom cache;
  o_index p : pair_keys index p = keys_of_pair cache p;
}.

Lemma ops_ok_new : ops_ok ∅ ∅ ∅ ∅ ∅ base.
Proof.
  split; [by rewrite (left_id_L ∅ _)|by intros|set_solver|].
  intros p. apply set_eq. intros k. rewrite keys_of_pair_spec.
  unfold pair_keys. rewrite lookup_empty. simpl. set_solver.
Qed.

Lemma ops_ok_cached cache new upd inp index full k op :
  ops_ok cache new upd inp index full → cache !! k = Some op → full !! k = Some op.
Proof. intros [-> _ _ _] E. by apply lookup_union_Some_l. Qed.

Lemma ops_ok_uncached cache new upd inp index full k :
  ops_ok cache new upd inp index full → cache !! k = None → full !! k = base !! k.
Proof. intros [-> _ _ _] E. by apply lookup_union_r. Qed.

Lemma ops_ok_index cache new upd inp index full op p :
  ops_ok cache new upd inp index full →
  (∀ op', cache !! key op = Some op' → pair_id op' = pair_id op) →
  pair_keys (index_op op index) p = keys_of_pair (<[key op := op]> cache) p.
Proof.
  intros HO Hp. rewrite pair_keys_index_op, keys_of_pair_insert by done.
  by rewrite (o_index _ _ _ _ _ _ HO).
Qed.

(** Caching a committed operation changes nothing that is seen. *)
Lemma ops_ok_remember cache new upd inp index full op :
  ops_ok cache new upd inp index full → cache !! key op = None → base !! key op = Some op →
  ops_ok (<[key op := op]> cache) new upd inp (index_op op index) full.
Proof.
  intros HO E0 Hb. split.
  - rewrite (o_view _ _ _ _ _ _ HO), <-insert_union_l. symmetry. apply insert_id.
    by rewrite lookup_union_r.
  - intros k op'. destruct (decide (k = key op)) as [->|Hne].
    + rewrite lookup_insert_eq, Hb. intros [= <-]. split; [done|]. split_and!; [|done|by right|by right].
      intros Hin. assert (key op ∈ dom cache) as Hd%elem_of_dom by
        (apply (o_marks _ _ _ _ _ _ HO); set_solver). by destruct Hd; congruence.
    + rewrite lookup_insert_ne by done. apply (o_cache _ _ _ _ _ _ HO).
  - pose proof (o_marks _ _ _ _ _ _ HO). set_solver.
  - intros p. eapply ops_ok_index; [done|congruence].
Qed.

(** What [put_op] does to the marks. *)
Definition put_marks (k : key2) (changed : bool) (new upd inp : gset key2)
    : gset key2 * gset key2 :=
  if bool_decide (k ∈ new) then (upd, inp)
  else ({[k]} ∪ upd, if changed then {[k]} ∪ inp else inp).

Lemma put_marks_mono k changed new upd inp k' :
  (k' ∈ upd → k' ∈ (put_marks k changed new upd inp).1) ∧
  (k' ∈ inp → k' ∈ (put_marks k changed new upd inp).2).
Proof. unfold put_marks. case_bool_decide; simpl; [done|]. destruct changed; set_solver. Qed.

Lemma put_marks_dom k changed new upd inp :
  (put_marks k changed new upd inp).1 ⊆ {[k]} ∪ upd ∧
  (put_marks k changed new upd inp).2 ⊆ {[k]} ∪ inp.
Proof. unfold put_marks. case_bool_decide; simpl; [set_solver|]. destruct changed; set_solver. Qed.

(** Storing a new version of an operation that is seen. *)
Lemma ops_ok_put cache new upd inp index full op op1 changed :
  ops_ok cache new upd inp index full →
  full !! key op = Some op1 → op_frozen op = op_frozen op1 →
  (changed = true ∨ input op = input op1) →
  let m := put_marks (key op) changed new upd inp in
  ops_ok (<[key op := op]> cache) new m.1 m.2 (index_op op index) (<[key op := op]> full).
Proof.
  intros HO H1 Hf Hi m. pose proof (o_cache _ _ _ _ _ _ HO) as Hc. split.
  - by rewrite (o_view _ _ _ _ _ _ HO), insert_union_l.
  - intros k op'. destruct (decide (k = key op)) as [->|Hne].
    + rewrite lookup_insert_eq. intros [= <-]. split; [done|].
      destruct (cache !! key op) as [op2|] eqn:E2.
      * assert (op2 = op1) as -> by
          (rewrite (ops_ok_cached _ _ _ _ _ _ _ _ HO E2) in H1; congruence).
        destruct (Hc _ _ E2) as [_ Hc2]. destruct (base !! key op) as [op0|].
        -- destruct Hc2 as (Hnew & Hf0 & Hu & Hin). subst m. unfold put_marks.
           rewrite bool_decide_false by done. simpl. split_and!; [done|congruence|set_solver|].
           destruct Hi as [->|Hi]; [set_solver|]. destruct Hin as [Hin|Hin];
             [left; destruct changed; set_solver|right; congruence].
        -- by rewrite (frozen_offset _ _ Hf).
      * pose proof H1 as Hb. rewrite (ops_ok_uncached _ _ _ _ _ _ _ HO E2) in Hb.
        rewrite Hb. assert (key op ∉ new) as Hnew.
        { intros Hin. apply not_elem_of_dom in E2. apply E2, (o_marks _ _ _ _ _ _ HO). set_solver. }
        subst m. unfold put_marks. rewrite bool_decide_false by done. simpl.
        split_and!; [done|done|set_solver|]. destruct Hi as [->|Hi]; [set_solver|by right].
    + rewrite lookup_insert_ne by done. intros E. destruct (Hc _ _ E) as [? Hk]. split; [done|].
      pose proof (put_marks_mono (key op) changed new upd inp k) as [Hm1 Hm2].
      destruct (base !! k); [|done]. destruct Hk as (? & ? & Hu & Hin).
      split_and!; [done|done|destruct Hu; auto|destruct Hin; auto].
  - pose proof (o_marks _ _ _ _ _ _ HO). rewrite dom_insert_L.
    destruct (put_marks_dom (key op) changed new upd inp). set_solver.
  - intros p. eapply ops_ok_index; [done|]. intros op' E.
    rewrite (ops_ok_cached _ _ _ _ _ _ _ _ HO E) in H1. injection H1 as ->.
    by symmetry; apply frozen_pair.
Qed.

(** Storing an operation of this batch. *)
Lemma ops_ok_add cache new upd inp index full op :
  ops_ok cache new upd inp index full → full !! key op = None → through < call_offset op →
  ops_ok (<[key op := op]> cache) ({[key op]} ∪ new) upd inp (index_op op index)
    (<[key op := op]> full).
Proof.
  intros HO Hn Ht. rewrite (o_view _ _ _ _ _ _ HO) in Hn.
  apply lookup_union_None in Hn as [Hn1 Hn2]. split.
  - by rewrite (o_view _ _ _ _ _ _ HO), insert_union_l.
  - intros k op'. destruct (decide (k = key op)) as [->|Hne].
    + rewrite lookup_insert_eq, Hn2. intros [= <-]. split; [done|]. split; [set_solver|done].
    + rewrite lookup_insert_ne by done. intros E.
      destruct (o_cache _ _ _ _ _ _ HO _ _ E) as [? Hk]. split; [done|].
      destruct (base !! k); destruct Hk as [Hk1 Hk2]; (split; [|done]).
      * by apply not_elem_of_union; split; [apply not_elem_of_singleton|].
      * by apply elem_of_union_r.
  - pose proof (o_marks _ _ _ _ _ _ HO). set_solver.
  - intros p. eapply ops_ok_index; [done|congruence].
Qed.

(** Once a pair id was queried, its committed operations are cached. *)
Definition queried_ok cache (queried : gset string) : Prop :=
  ∀ p k op, p ∈ queried → base !! k = Some op → pair_id op = p → is_Some (cache !! k).

Lemma queried_ok_mono cache cache' queried :
  dom cache ⊆ dom cache' → queried_ok cache queried → queried_ok cache' queried.
Proof.
  intros Hd HQ p k op Hp Hk Hop. apply elem_of_dom, Hd, elem_of_dom. by eapply HQ.
Qed.
End ops_ok.

(** ** Prompts and usage *)

Definition prompts_ok (base turns : gmap Z TurnRow) (prompts : gset string)
    (pend : option string) : Prop :=
  ∀ u, prompt_in turns u ∨ pend = Some u ↔ u ∈ prompts ∨ prompt_in base u.

Lemma prompts_ok_new base : prompts_ok base base ∅ None.
Proof. intros u. set_solver. Qed.

Lemma prompt_in_alter turns id t t' u :
  turns !! id = Some t → turn_frozen t' = turn_frozen t →
  prompt_in (<[id := t']> turns) u ↔ prompt_in turns u.
Proof.
  intros Ht Hf. unfold prompt_in, map_Exists. split.
  - intros (id' & t1 & E & Hp). destruct (decide (id = id')) as [->|Hne].
    + rewrite lookup_insert_eq in E. injection E as <-. exists id', t. split; [done|].
      by rewrite <-(frozen_prompt _ _ Hf).
    + rewrite lookup_insert_ne in E by done. by exists id', t1.
  - intros (id' & t1 & E & Hp). destruct (decide (id = id')) as [->|Hne].
    + exists id', t'. rewrite lookup_insert_eq. split; [done|].
      rewrite (frozen_prompt _ _ Hf). congruence.
    + exists id', t1. by rewrite lookup_insert_ne.
Qed.

Lemma prompts_ok_set_turn base turns prompts pend id t t' :
  prompts_ok base turns prompts pend → turns !! id = Some t → turn_frozen t' = turn_frozen t →
  prompts_ok base (<[id := t']> turns) prompts pend.
Proof. intros HP Ht Hf u. by rewrite prompt_in_alter. Qed.

Lemma prompt_in_insert turns id t u :
  turns !! id = None →
  prompt_in (<[id := t]> turns) u ↔ prompt_event_uuid t = Some u ∨ prompt_in turns u.
Proof.
  intros Hn. unfold prompt_in. by rewrite map_Exists_insert.
Qed.

Definition usage_ok (base cache full : gmap string MessageUsage) (dirty : gset string) : Prop :=
  full = cache ∪ base ∧ dirty = dom cache.

Lemma usage_ok_new base : usage_ok base ∅ base ∅.
Proof. split; [by rewrite (left_id_L ∅ _)|set_solver]. Qed.

Lemma usage_ok_insert base cache full dirty m u :
  usage_ok base cache full dirty →
  usage_ok base (<[m := u]> cache) (<[m := u]> full) ({[m]} ∪ dirty).
Proof. intros [-> ->]. split; [by rewrite insert_union_l|set_solver]. Qed.

(** ** Preservation of well-formedness *)

Lemma wf_set_turn n n' tl id t t' :
  wf n tl → tl_turns tl !! id = Some t → turn_frozen t' = turn_frozen t → n' ≤ n →
  operation_count t ≤ operation_count t' → operation_count t' + n' < op_cap →
  wf n' (tl_set_turns (<[id := t']> (tl_turns tl)) tl).
Proof.
  intros [Hk Hfit Ht Ho Hb Hi Hm Hs] Eid Hf Hn Hc Hcap. split; simpl; try done.
  - intros k op Hop. destruct (Hfit k op Hop) as (t1 & E1 & Hlt).
    destruct (decide (id = k.1)) as [->|Hne].
    + exists t'. rewrite lookup_insert_eq. split; [done|].
      assert (t1 = t) as -> by congruence. lia.
    + exists t1. by rewrite lookup_insert_ne.
  - intros id' t1 [[<- <-]|[Hne E1]]%lookup_insert_Some.
    + destruct (Ht _ _ Eid) as (? & ? & ?). rewrite (frozen_turn_id _ _ Hf). lia.
    + destruct (Ht _ _ E1) as (? & ? & ?). lia.
  - intros id' t1 [[<- <-]|[Hne E1]]%lookup_insert_Some; by eauto.
  - intros k c E. apply lookup_insert_is_Some'. right. by eapply Hi.
  - intros id' E. apply lookup_insert_is_Some'. right. by apply Hm.
  - intros id' E. apply lookup_insert_is_Some'. right. by apply Hs.
Qed.

Lemma wf_put_op n tl op op1 :
  wf n tl → tl_ops tl !! key op = Some op1 → op_frozen op = op_frozen op1 →
  wf n (tl_set_ops (<[key op := op]> (tl_ops tl)) tl).
Proof.
  intros [Hk Hfit Ht Ho Hb Hi Hm Hs] E Hf. split; simpl; try done.
  - intros k op' [[<- <-]|[Hne E1]]%lookup_insert_Some; by eauto.
  - intros k op' [[<- <-]|[Hne E1]]%lookup_insert_Some; by eauto.
  - intros k op' [[<- <-]|[Hne E1]]%lookup_insert_Some; [|by eauto].
    rewrite (frozen_offset _ _ Hf). by eauto.
Qed.

Lemma wf_add_op n tl op t :
  wf n tl → tl_turns tl !! op_turn_id op = Some t → 0 ≤ operation_ord op < operation_count t →
  call_offset op ≤ projected_through (tl_state tl) →
  wf n (tl_set_ops (<[key op := op]> (tl_ops tl)) tl).
Proof.
  intros [Hk Hfit Ht Ho Hb Hi Hm Hs] E Hlt Hoff. split; simpl; try done.
  - intros k op' [[<- <-]|[Hne E1]]%lookup_insert_Some; by eauto.
  - intros k op' [[<- <-]|[Hne E1]]%lookup_insert_Some; by eauto.
  - intros k op' [[<- <-]|[Hne E1]]%lookup_insert_Some; by eauto.
Qed.

(** Updates of the state that keep the current turns. *)
Lemma wf_set_state n tl f :
  wf n tl → projected_through (tl_state tl) ≤ projected_through (f (tl_state tl)) →
  current_main (f (tl_state tl)) = current_main (tl_state tl) →
  current_sidechain (f (tl_state tl)) = current_sidechain (tl_state tl) →
  wf n (tl_set_state f tl).
Proof.
  intros [Hk Hfit Ht Ho Hb Hi Hm Hs] Hp E1 E2. split; simpl; try done.
  - intros k op Hop. specialize (Ho k op Hop). lia.
  - intros id t Et. specialize (Hb id t Et). lia.
  - intros id. rewrite E1. apply Hm.
  - intros id. rewrite E2. apply Hs.
Qed.

Lemma wf_with_main n tl id :
  wf n tl → is_Some (tl_turns tl !! id) → wf n (tl_set_state (with_main id) tl).
Proof. intros [Hk Hfit Ht Ho Hb Hi Hm Hs] Hid. split; simpl; try done. by intros id' [= <-]. Qed.

Lemma wf_with_sidechain n tl id :
  wf n tl → is_Some (tl_turns tl !! id) → wf n (tl_set_state (with_sidechain id) tl).
Proof. intros [Hk Hfit Ht Ho Hb Hi Hm Hs] Hid. split; simpl; try done. by intros id' [= <-]. Qed.

Lemma wf_new_turn n tl t :
  wf n tl → tl_turns tl !! turn_id t = None → operation_count t = 0 → n < op_cap →
  turn_id t ≤ projected_through (tl_state tl) →
  wf n (tl_set_turns (<[turn_id t := t]> (tl_turns tl)) tl).
Proof.
  intros [Hk Hfit Ht Ho Hb Hi Hm Hs] E Hc Hn Hoff. split; simpl; try done.
  - intros k op Hop. destruct (Hfit k op Hop) as (t1 & E1 & Hlt). exists t1.
    rewrite lookup_insert_ne by congruence. done.
  - intros id t1 [[<- <-]|[Hne E1]]%lookup_insert_Some; [lia|by eauto].
  - intros id t1 [[<- <-]|[Hne E1]]%lookup_insert_Some; [lia|by eauto].
  - intros k c E1. apply lookup_insert_is_Some'. right. by eapply Hi.
  - intros id Em. apply lookup_insert_is_Some'. right. by apply Hm.
  - intros id Em. apply lookup_insert_is_Some'. right. by apply Hs.
Qed.

Lemma wf_put_item n tl k c :
  wf n tl → is_Some (tl_turns tl !! k.1) → wf n (tl_put_item k c tl).
Proof.
  intros [Hk Hfit Ht Ho Hb Hi Hm Hs] Hex. split; simpl; try done.
  intros k' c'. unfold insert_if_absent. simpl. destruct (tl_items tl !! k); [by apply Hi|].
  intros [[<- <-]|[Hne E1]]%lookup_insert_Some; [done|by eapply Hi].
Qed.

Lemma wf_put_usage n tl m u : wf n tl → wf n (tl_put_usage m u tl).
Proof. by intros []. Qed.

Lemma wf_add_link n tl l : wf n tl → wf n (tl_add_link l tl).
Proof. by intros []. Qed.

(** The next operation of a turn has a free key. *)
Lemma wf_next_free n tl id t :
  wf n tl → tl_turns tl !! id = Some t → tl_ops tl !! (id, operation_count t) = None.
Proof.
  intros HW Ht. destruct (tl_ops tl !! (id, operation_count t)) as [op|] eqn:E; [|done].
  destruct (wf_fit _ _ HW _ _ E) as (t1 & E1 & Hlt). simpl in *. 
  assert (t1 = t) as -> by congruence. lia.
Qed.

(** *** Frozen columns of the pure updates *)

Lemma frozen_with_columns t p e d ev o th er i u :
  turn_frozen (with_columns t p e d ev o th er i u) = turn_frozen t.
Proof. done. Qed.

Lemma frozen_with_op op i c p re e pe ch ce cell f :
  op_frozen (with_op op i c p re e pe ch ce cell f) = op_frozen op.
Proof. done. Qed.
