(* ===== verification/ReducerSim.v ===== *)
(** * The reducer implements the abstract timeline

    Every method of the reducer simulates its counterpart in [ReducerSpec]: the
    timeline seen through the reducer's caches (its own rows, else the
    committed ones) is exactly the abstract one. The simulation is total, so no
    method fails or panics. *)

From S2P Require Import Prelude Text Json Events Runtime Render FileTouches Reducer ReducerSpec ReducerInv.

(** ** The simulation *)

Section sim.
Context {B : Type} `{BL : BackendLaws B rows ok}.
Context (parse_uuid : string → option Uuid).
Context (b0 : B) (self : Uuid) (ctx : option FileTouchContext) (child : option Uuid).

Local Abbreviation base := (rows b0).
Local Abbreviation base_through := (projected_through (tl_state (rows b0))).

Context (n0 : Z) (base_wf : wf n0 base) (base_ok : ok b0).
Implicit Types r : Reducer B.
Implicit Types tl : Timeline.

(** The reducer [r] stands for the timeline [tl], with [n] tool calls of
    budget left; [pend] is a prompt id remembered but not yet in a turn. *)
Record Inv (n : Z) (pend : option string) (r : Reducer B) (tl : Timeline) : Prop := {
  i_backend : backend r = b0;
  i_self : session_uuid r = self;
  i_ctx : file_context r = ctx;
  i_child : child_of r = child;
  i_start : batch_start r = base_through;
  i_state : state r = tl_state tl;
  i_turns : turns_ok (tl_turns base) (turns r) (dirty_turns r) (tl_turns tl);
  i_ops : ops_ok (tl_ops base) base_through (ops r) (new_ops r) (updated_ops r)
            (input_changed r) (ops_by_pair r) (tl_ops tl);
  i_queried : queried_ok (tl_ops base) (ops r) (queried_pairs r);
  i_items : tl_items tl = foldl insert_if_absent (tl_items base) (items r);
  i_prompts : prompts_ok (tl_turns base) (tl_turns tl) (prompts r) pend;
  i_usage : usage_ok (tl_usage base) (usage r) (tl_usage tl) (dirty_usage r);
  i_links : tl_links tl = links r ∪ tl_links base;
  i_wf : wf n tl;
  i_through : base_through ≤ projected_through (tl_state tl);
  i_budget : n < op_cap;
}.

Lemma Inv_new n : n ≤ n0 → n < op_cap →
  Inv n None (new_reducer b0 self (tl_state base) ctx child) base.
Proof.
  intros Hn Hc. split; simpl; try done.
  all: first [apply turns_ok_new|apply ops_ok_new|apply prompts_ok_new|apply usage_ok_new
             |by eapply wf_weaken|by rewrite (left_id_L ∅ _)].
Qed.

(** No row disappears, the frozen parts of operations stay, and loaded
    turns stay loaded. *)
Definition grows (r : Reducer B) (tl : Timeline) (r' : Reducer B) (tl' : Timeline) : Prop :=
  (∀ id, is_Some (turns r !! id) → is_Some (turns r' !! id)) ∧
  (∀ k op, tl_ops tl !! k = Some op →
     ∃ op', tl_ops tl' !! k = Some op' ∧ op_frozen op' = op_frozen op) ∧
  projected_through (tl_state tl) ≤ projected_through (tl_state tl').

Lemma grows_refl r tl : grows r tl r tl.
Proof. split_and!; [done|by eauto|done]. Qed.

Lemma grows_trans r1 t1 r2 t2 r3 t3 :
  grows r1 t1 r2 t2 → grows r2 t2 r3 t3 → grows r1 t1 r3 t3.
Proof.
  intros (A1 & A2 & A3') (A3 & A4 & A5). split_and!; [by eauto| |lia].
  intros k op Hop. destruct (A2 k op Hop) as (op2 & Hop2 & E2).
  destruct (A4 k op2 Hop2) as (op3 & Hop3 & E3). exists op3. by rewrite E3.
Qed.

Definition sim (n n' : Z) (pend : option string) {A} (P : Reducer B → Timeline → Prop)
    (m : M B A) (s : SM A) (Q : A → Reducer B → Timeline → Prop) : Prop :=
  ∀ r tl, Inv n pend r tl → P r tl →
    ∃ r', m r = Ok ((s tl).1, r') ∧ Inv n' pend r' (s tl).2 ∧ grows r tl r' (s tl).2 ∧
          Q (s tl).1 r' (s tl).2.

Lemma sim_ret_keep n pend {A} (a : A) (P : Reducer B → Timeline → Prop) :
  sim n n pend P (mret a) (mret a) (λ _, P).
Proof. intros r tl HI HP. exists r. split_and!; try done. apply grows_refl. Qed.

Lemma sim_ret_true n pend {A} (a : A) (P : Reducer B → Timeline → Prop) :
  sim n n pend P (mret a) (mret a) (λ _ _ _, True).
Proof. intros r tl HI HP. exists r. split_and!; try done. apply grows_refl. Qed.

Lemma sim_bind n n1 n2 pend {A C} P (m : M B A) (s : SM A) Q (f : A → M B C) g R :
  sim n n1 pend P m s Q → (∀ a, sim n1 n2 pend (Q a) (f a) (g a) R) →
  sim n n2 pend P (m ≫= f) (s ≫= g) R.
Proof.
  intros Hm Hf r tl HI HP. destruct (Hm r tl HI HP) as (r1 & E1 & HI1 & G1 & HQ).
  destruct (Hf _ _ _ HI1 HQ) as (r2 & E2 & HI2 & G2 & HR).
  exists r2. unfold mbind, M_bind, SM_bind. rewrite E1.
  destruct (s tl) as [a tl1]; simpl in *.
  split_and!; [done|done|by eapply grows_trans|done].
Qed.

Lemma sim_conseq n n' pend {A} P P' (m : M B A) s (Q Q' : A → Reducer B → Timeline → Prop) :
  sim n n' pend P' m s Q' → (∀ r tl, P r tl → P' r tl) →
  (∀ a r tl, Q' a r tl → Q a r tl) → sim n n' pend P m s Q.
Proof.
  intros Hm HP HQ r tl HI Hp. destruct (Hm r tl HI (HP _ _ Hp)) as (r' & ? & ? & ? & ?).
  exists r'. eauto.
Qed.

(** What growth preserves survives any method. *)
Definition stable (P : Reducer B → Timeline → Prop) : Prop :=
  ∀ r tl r' tl', grows r tl r' tl' → P r tl → P r' tl'.

Lemma sim_keep n n' pend {A} P P' (m : M B A) s (Q : A → Reducer B → Timeline → Prop) :
  stable P' → sim n n' pend P m s Q →
  sim n n' pend (λ r tl, P r tl ∧ P' r tl) m s (λ a r tl, Q a r tl ∧ P' r tl).
Proof.
  intros HS Hm r tl HI [HP HP']. destruct (Hm r tl HI HP) as (r' & ? & ? & ? & ?).
  exists r'. split_and!; try done. by eapply HS.
Qed.

Definition loaded (id : Z) (r : Reducer B) (tl : Timeline) : Prop := is_Some (turns r !! id).
Definition has_op (op : OpRow) (r : Reducer B) (tl : Timeline) : Prop :=
  ∃ op0, tl_ops tl !! key op = Some op0 ∧ op_frozen op0 = op_frozen op.

Lemma loaded_stable id : stable (loaded id).
Proof. intros r tl r' tl' [Ht _]. apply Ht. Qed.

Lemma has_op_stable op : stable (has_op op).
Proof.
  intros r tl r' tl' (_ & Ho & _) (op0 & E & F).
  destruct (Ho _ _ E) as (op1 & E1 & F1). exists op1. split; [done|congruence].
Qed.

Lemma stable_and P P' : stable P → stable P' → stable (λ r tl, P r tl ∧ P' r tl).
Proof. intros HP HP' r tl r' tl' G []. split; [eapply HP|eapply HP']; done. Qed.

Lemma stable_true : stable (λ _ _, True).
Proof. done. Qed.

(** *** Turns *)

Lemma alter_insert_Some (m : gmap Z TurnRow) id t f :
  m !! id = Some t → alter f id m = <[id := f t]> m.
Proof.
  intros Ht. apply map_eq. intros j. destruct (decide (id = j)) as [->|Hne].
  - by rewrite lookup_alter_eq, lookup_insert_eq, Ht.
  - by rewrite lookup_alter_ne, lookup_insert_ne.
Qed.

Lemma Inv_loaded n pend r tl id t :
  Inv n pend r tl → turns r !! id = Some t → tl_turns tl !! id = Some t.
Proof. intros HI. apply (turns_ok_cached _ _ _ _ _ _ (i_turns _ _ _ _ HI)). Qed.

Lemma Inv_set_turn n n' pend r tl id t t' :
  Inv n pend r tl → tl_turns tl !! id = Some t → turn_frozen t' = turn_frozen t →
  n' ≤ n → operation_count t ≤ operation_count t' → operation_count t' + n' < op_cap →
  Inv n' pend (set_turns (<[id := t']> (turns r)) ({[id]} ∪ dirty_turns r) r)
    (tl_set_turns (<[id := t']> (tl_turns tl)) tl).
Proof.
  intros HI Ht Hf Hn Hc Hb. destruct HI. split; simpl; try done.
  - apply turns_ok_insert; [done|]. intros t0 H0. rewrite Hf. by eapply turns_ok_frozen.
  - by eapply prompts_ok_set_turn.
  - by eapply wf_set_turn.
  - lia.
Qed.

Lemma sim_update_turn n pend id f :
  (∀ t, turn_frozen (f t) = turn_frozen t) →
  (∀ t, operation_count (f t) = operation_count t) →
  sim n n pend (loaded id) (update_turn id f) (sp_update_turn id f) (λ _, loaded id).
Proof.
  intros Hf Hc r tl HI [t Ht]. pose proof (Inv_loaded _ _ _ _ _ _ HI Ht) as Hfull.
  unfold update_turn, sp_update_turn, sp_modify. rewrite Ht. simpl.
  rewrite (alter_insert_Some _ _ _ _ Hfull). eexists. split; [done|].
  destruct (wf_turn _ _ (i_wf _ _ _ _ HI) _ _ Hfull) as (? & ? & ?).
  split_and!.
  - apply (Inv_set_turn n n pend r tl id t); rewrite ?Hc; [done|done|apply Hf|lia|lia|lia].
  - split_and!; simpl; [|by eauto|done]. intros id' ?. apply lookup_insert_is_Some'. by right.
  - unfold loaded. simpl. by rewrite lookup_insert_eq.
Qed.

(** Loading a turn changes no row; it answers whether the turn exists. *)
Lemma load_turn_spec n pend r tl id :
  Inv n pend r tl →
  ∃ r', load_turn id r = Ok (bool_decide (is_Some (tl_turns tl !! id)), r') ∧
        Inv n pend r' tl ∧ grows r tl r' tl ∧ (is_Some (tl_turns tl !! id) → loaded id r' tl).
Proof.
  intros HI. unfold load_turn, gets, modify, lift, mbind, M_bind, mret, M_ret.
  destruct (turns r !! id) as [t|] eqn:Ht.
  - pose proof (Inv_loaded _ _ _ _ _ _ HI Ht) as E. exists r.
    rewrite E. split; [reflexivity|]. split; [exact HI|]. split; [apply grows_refl|].
    intros _. by exists t.
  - pose proof (turns_ok_uncached _ _ _ _ _ (i_turns _ _ _ _ HI) Ht) as E. rewrite E.
    rewrite (i_backend _ _ _ _ HI), (law_turn _ _ base_ok).
    destruct (tl_turns base !! id) as [t|] eqn:Hb; simpl.
    + eexists. split; [reflexivity|]. split; [|split].
      * destruct HI. split; simpl; try done. by apply turns_ok_load.
      * split_and!; simpl; [|by eauto|done]. intros id' ?. apply lookup_insert_is_Some'. by right.
      * intros _. unfold loaded. simpl. by rewrite lookup_insert_eq.
    + exists r. split; [reflexivity|]. split; [exact HI|]. split; [apply grows_refl|by intros []].
Qed.

Lemma sim_set_state n pend f P :
  (∀ s, projected_through (f s) = projected_through s) →
  (∀ s, current_main (f s) = current_main s) →
  (∀ s, current_sidechain (f s) = current_sidechain s) →
  stable P →
  sim n n pend P (modify (set_state f)) (sp_modify (tl_set_state f)) (λ _, P).
Proof.
  intros Hp Hm Hs HP r tl HI HPr. eexists. split; [reflexivity|].
  assert (grows r tl (set_state f r) (tl_set_state f tl)) as G
    by (split_and!; simpl; [by eauto|by eauto|rewrite Hp; lia]).
  split_and!; [|done|by eapply HP].
  destruct HI. split; simpl; try done.
  - by f_equal.
  - apply wf_set_state; [done|rewrite Hp; lia|done|done].
  - by rewrite Hp.
Qed.

Lemma sim_flag_owner n pend owner e :
  sim n n pend (λ _ _, True) (flag_owner owner e) (sp_update_turn owner (mark_errors e))
    (λ _ _ _, True).
Proof.
  intros r tl HI _. unfold flag_owner, mbind, M_bind.
  destruct (load_turn_spec n pend r tl owner HI) as (r1 & -> & HI1 & G1 & Hl).
  case_bool_decide as Hin.
  - destruct (sim_update_turn n pend owner (mark_errors e) (λ _, eq_refl) (λ _, eq_refl)
      r1 tl HI1 (Hl Hin)) as (r2 & E2 & HI2 & G2 & _).
    exists r2. split_and!; [done|done|by eapply grows_trans|done].
  - exists r1. unfold sp_update_turn, sp_modify. simpl.
    assert (alter (mark_errors e) owner (tl_turns tl) = tl_turns tl) as ->.
    { apply map_eq. intros j. destruct (decide (owner = j)) as [->|Hne].
      - rewrite lookup_alter_eq. destruct (tl_turns tl !! j); [by destruct Hin|done].
      - by rewrite lookup_alter_ne. }
    destruct tl. by split_and!.
Qed.

(** *** Operations *)

Lemma for_each_remember r full l :
  ops_ok (tl_ops base) base_through (ops r) (new_ops r) (updated_ops r) (input_changed r)
    (ops_by_pair r) full →
  (∀ op, op ∈ l → tl_ops base !! key op = Some op) →
  ∃ o index, for_each l remember_op r = Ok ((), set_ops o index r) ∧
    ops_ok (tl_ops base) base_through o (new_ops r) (updated_ops r) (input_changed r) index full ∧
    dom (ops r) ⊆ dom o ∧ (∀ op, op ∈ l → is_Some (o !! key op)).
Proof.
  revert r. induction l as [|op l IH]; intros r HO Hl.
  - exists (ops r), (ops_by_pair r). split_and!; [by destruct r|done|done|set_solver].
  - cbn [for_each]. unfold mbind, M_bind, remember_op at 1, modify.
    destruct (ops r !! key op) as [op'|] eqn:E.
    + destruct (IH r HO) as (o & ix & -> & HO' & Hd & Hin); [intros; apply Hl; by right|].
      exists o, ix. split_and!; [done|done|done|].
      intros op1 [->|?]%elem_of_cons; [|by apply Hin].
      apply elem_of_dom, Hd, elem_of_dom. by exists op'.
    + destruct (IH (set_ops (<[key op := op]> (ops r)) (index_op op (ops_by_pair r)) r))
        as (o & ix & -> & HO' & Hd & Hin).
      * apply ops_ok_remember; [done|done|]. apply Hl. by left.
      * intros; apply Hl; by right.
      * exists o, ix. simpl in *. rewrite dom_insert in Hd.
        split_and!; [done|done|set_solver|].
        intros op1 [->|?]%elem_of_cons; [|by apply Hin].
        apply elem_of_dom, Hd. set_solver.
Qed.

Lemma Inv_set_ops n pend r tl o index :
  Inv n pend r tl →
  ops_ok (tl_ops base) base_through o (new_ops r) (updated_ops r) (input_changed r) index
    (tl_ops tl) →
  dom (ops r) ⊆ dom o →
  Inv n pend (set_ops o index r) tl ∧ grows r tl (set_ops o index r) tl.
Proof.
  intros HI HO Hd. split; [|split_and!; simpl; [by eauto|by eauto|done]].
  destruct HI. split; simpl; try done. by eapply queried_ok_mono.
Qed.

(** Caching committed rows is invisible. *)
Lemma remember_spec n pend r tl l :
  Inv n pend r tl → (∀ op, op ∈ l → tl_ops base !! key op = Some op) →
  ∃ r', for_each l remember_op r = Ok ((), r') ∧ Inv n pend r' tl ∧ grows r tl r' tl ∧
        (∀ op, op ∈ l → is_Some (ops r' !! key op)).
Proof.
  intros HI Hl. destruct (for_each_remember r _ l (i_ops _ _ _ _ HI) Hl)
    as (o & ix & -> & HO & Hd & Hin).
  destruct (Inv_set_ops _ _ _ _ _ _ HI HO Hd). eexists. by split_and!.
Qed.

Lemma grows_put_op r tl r' op op1 :
  tl_ops tl !! key op = Some op1 → op_frozen op = op_frozen op1 →
  turns r' = turns r → grows r tl r' (tl_set_ops (<[key op := op]> (tl_ops tl)) tl).
Proof.
  intros H1 Hf Ht. split_and!; [by rewrite Ht| |done]. simpl. intros k op2 E.
  destruct (decide (k = key op)) as [->|Hne].
  - exists op. rewrite lookup_insert_eq. split; [done|congruence].
  - exists op2. by rewrite lookup_insert_ne.
Qed.

Lemma put_op_run r op changed :
  put_op op changed r =
    let m := put_marks (key op) changed (new_ops r) (updated_ops r) (input_changed r) in
    Ok ((), set_marks (new_ops r) m.1 m.2
              (set_ops (<[key op := op]> (ops r)) (index_op op (ops_by_pair r)) r)).
Proof.
  unfold put_op, modify, mbind, M_bind, put_marks. simpl.
  case_bool_decide; [by destruct r|done].
Qed.

(** The operation to store is a version of one that exists. *)
Definition version_of (op : OpRow) (changed : bool) (r : Reducer B) (tl : Timeline) : Prop :=
  ∃ op1, tl_ops tl !! key op = Some op1 ∧ op_frozen op = op_frozen op1 ∧
         (changed = true ∨ input op = input op1).

Lemma sim_put_op n pend op changed :
  sim n n pend (version_of op changed) (put_op op changed) (sp_put_op op) (λ _ _ _, True).
Proof.
  intros r tl HI (op1 & H1 & Hf & Hi). rewrite put_op_run. eexists. split; [reflexivity|].
  split_and!; [|by eapply grows_put_op|done].
  destruct HI. split; simpl; try done.
  - by eapply ops_ok_put.
  - eapply queried_ok_mono; [|done]. set_solver.
  - by eapply wf_put_op.
Qed.

(** *** Pair queries *)

(** Selecting among the cached operations of a pair gives what the timeline
    holds, when no uncached committed operation is selected. *)
Lemma pair_view n pend r tl (f : OpRow → bool) p :
  Inv n pend r tl →
  (∀ k op, ops r !! k = None → tl_ops base !! k = Some op → pair_id op = p → f op = false) →
  List.filter f (ops_at (ops r) (pair_keys (ops_by_pair r) p)) =
  List.filter f (ops_at (tl_ops tl) (keys_of_pair (tl_ops tl) p)).
Proof.
  intros HI Hunc. pose proof (i_ops _ _ _ _ HI) as HO.
  rewrite (o_index _ _ _ _ _ _ _ _ HO). apply filter_ops_ext. intros k op.
  rewrite !keys_of_pair_spec. split.
  - intros ((op' & E' & Hp) & E & Hf). rewrite (ops_ok_cached _ _ _ _ _ _ _ _ _ _ HO E).
    split_and!; [|done|done]. exists op. split; [done|congruence].
  - intros ((op' & E' & Hp) & E & Hf). assert (op' = op) as -> by congruence.
    destruct (ops r !! k) as [op1|] eqn:E1.
    + rewrite (ops_ok_cached _ _ _ _ _ _ _ _ _ _ HO E1) in E. injection E as ->.
      split_and!; [by exists op|done|done].
    + rewrite (ops_ok_uncached _ _ _ _ _ _ _ _ _ HO E1) in E.
      specialize (Hunc k op E1 E Hp). congruence.
Qed.

Lemma Inv_add_queried n pend r tl p :
  Inv n pend r tl → queried_ok (tl_ops base) (ops r) {[p]} → Inv n pend (add_queried p r) tl.
Proof.
  intros HI HQ. destruct HI. split; simpl; try done.
  intros p' k op [Hp|Hp]%elem_of_union; [by eapply HQ|by eapply i_queried0].
Qed.

Lemma base_op_bound k op : tl_ops base !! k = Some op → call_offset op ≤ base_through.
Proof. apply (wf_op_bound _ _ base_wf). Qed.

Lemma query_pair_spec n pend r tl p before :
  base_through < before → Inv n pend r tl →
  ∃ r', query_pair p before r = Ok ((), r') ∧ Inv n pend r' tl ∧ grows r tl r' tl ∧
        p ∈ queried_pairs r'.
Proof.
  intros Hb HI. unfold query_pair, mbind, M_bind, modify, gets, lift.
  case_bool_decide as Hin; [exists r; split_and!; [done|done|apply grows_refl|done]|].
  simpl. rewrite (i_backend _ _ _ _ HI).
  destruct (law_ops_by_pair b0 p before base_ok) as (l & -> & Hl).
  destruct (for_each_remember (add_queried p r) (tl_ops tl) l) as (o & ix & -> & HO & Hd & Hc).
  { apply HI. }
  { intros op Hop. by apply Hl. }
  simpl in *. destruct (Inv_set_ops _ _ _ _ _ _ HI HO Hd) as [HI' G'].
  exists (set_ops o ix (add_queried p r)). split_and!; [done| |done|set_solver].
  apply (Inv_add_queried _ _ _ _ p) in HI'; [by apply HI'|].
  intros p' k op ->%elem_of_singleton Hk Hp. simpl.
  pose proof (wf_key _ _ base_wf _ _ Hk) as <-. apply Hc, Hl.
  split_and!; [done|done|]. pose proof (base_op_bound _ _ Hk). lia.
Qed.

Lemma ops_for_pair_spec n pend r tl p before :
  base_through < before → Inv n pend r tl →
  ∃ r', ops_for_pair p before r = Ok (sp_ops_for_pair p before tl, r') ∧
        Inv n pend r' tl ∧ grows r tl r' tl.
Proof.
  intros Hb HI.
  destruct (query_pair_spec n pend r tl p before Hb HI) as (r1 & E1 & HI1 & G1 & Hq).
  exists r1. unfold ops_for_pair, mbind, M_bind. rewrite E1.
  split_and!; [|done|done]. unfold local_ops, gets, mret, M_ret, sp_ops_for_pair.
  do 3 f_equal. unfold ops_before. apply (pair_view _ _ _ _ _ _ HI1).
  intros k op Hn Hk Hp. destruct (i_queried _ _ _ _ HI1 p k op Hq Hk Hp). congruence.
Qed.

Lemma latest_op_for_pair_spec n pend r tl p before :
  base_through < before → Inv n pend r tl →
  ∃ r', latest_op_for_pair p before r = Ok (last (sp_ops_for_pair p before tl), r') ∧
        Inv n pend r' tl ∧ grows r tl r' tl.
Proof.
  intros Hb HI. pose proof (ops_for_pair_spec n pend r tl p before Hb HI) as (r1 & E1 & HI1 & G1).
  unfold latest_op_for_pair, local_ops, gets, mbind, M_bind, mret, M_ret.
  destruct (max_by_key call_offset _) as [op|] eqn:Emax; [|rewrite E1; by exists r1].
  rewrite (i_start _ _ _ _ HI). destruct (Z.ltb_spec base_through (call_offset op)) as [Hlt|];
    [|rewrite E1; by exists r1].
  exists r. split_and!; [|done|apply grows_refl]. do 2 f_equal.
  unfold sp_ops_for_pair. rewrite last_sort_by_key. symmetry.
  apply (max_by_key_above _ base_through).
  apply (max_by_key_above' _ base_through) in Emax; [|done]. rewrite <-Emax. f_equal.
  unfold ops_before. rewrite !filter_andb. symmetry. apply (pair_view _ _ _ _ _ _ HI).
  intros k op' _ Hk _. pose proof (base_op_bound _ _ Hk). unfold above.
  apply andb_false_iff. right. by apply Z.ltb_ge.
Qed.

(** *** Loops *)

Lemma sim_weaken n n1 n' pend {A} P (m : M B A) s (Q : A → Reducer B → Timeline → Prop) :
  n' ≤ n1 → sim n n1 pend P m s Q → sim n n' pend P m s Q.
Proof.
  intros Hn Hm r tl HI HP. destruct (Hm r tl HI HP) as (r' & E & HI' & G & HQ).
  exists r'. split_and!; try done. destruct HI'. split; try done; [by eapply wf_weaken|lia].
Qed.

(** A loop each of whose rounds uses [c] of the budget. *)
Lemma sim_for_each {A} c n pend (P : Reducer B → Timeline → Prop) (l : list A) body sbody :
  0 ≤ c → c = 0 ∨ c * Z.of_nat (length l) ≤ n →
  (∀ a n, a ∈ l → c = 0 ∨ c ≤ n → sim n (n - c) pend P (body a) (sbody a) (λ _, P)) →
  sim n (n - c * Z.of_nat (length l)) pend P (for_each l body) (sp_each l sbody) (λ _, P).
Proof.
  revert n. induction l as [|a l IH]; intros n Hc Hn Hbody; simpl.
  - replace (n - _) with n by lia. apply sim_ret_keep.
  - simpl in Hn. eapply sim_bind; [apply Hbody; [by left|lia]|]. intros [].
    eapply sim_weaken; [|apply IH]; [lia|done|lia|].
    intros a' n' Ha'. apply Hbody. by right.
Qed.

Lemma sim_when (b : bool) n pend P (m : M B unit) s :
  sim n n pend P m s (λ _, P) →
  sim n n pend P (if b then m else mret ()) (if b then s else mret ()) (λ _, P).
Proof.
  intros Hm. destruct b; [done|]. apply sim_ret_keep.
Qed.

(** *** Calls *)

Definition reached (event : StoredEvent) (r : Reducer B) (tl : Timeline) : Prop :=
  byte_offset event ≤ projected_through (tl_state tl).

Lemma reached_stable event : stable (reached event).
Proof. intros r tl r' tl' (_ & _ & ?) ?. unfold reached in *. lia. Qed.

Lemma sim_apply_call n pend id event tool :
  base_through < byte_offset event → 1 ≤ n →
  sim n (n - 1) pend (λ r tl, loaded id r tl ∧ reached event r tl)
    (apply_call id event tool) (sp_apply_call id event tool)
    (λ _ r tl, loaded id r tl ∧ reached event r tl).
Proof.
  intros Hoff Hn r tl HI [[t Ht] Hre]. pose proof (Inv_loaded _ _ _ _ _ _ HI Ht) as Hfull.
  destruct (wf_turn _ _ (i_wf _ _ _ _ HI) _ _ Hfull) as (Hid & Hc0 & Hcap).
  set (op := new_op id (operation_count t) tool event).
  assert (Hkey : tl_ops tl !! key op = None) by (by eapply wf_next_free; [apply HI|]).
  set (t' := count_operation (use_is_error tool) t).
  assert (Hc : operation_count t' = operation_count t + 1)
    by (simpl; apply wrap32_id; unfold op_cap in *; lia).
  pose proof (Inv_set_turn n (n - 1) pend r tl id t t' HI Hfull eq_refl
    ltac:(lia) ltac:(lia) ltac:(lia)) as HI1.
  unfold apply_call, turn_mut, mbind, M_bind, update_turn, modify. simpl. rewrite Ht. simpl.
  rewrite Ht. rewrite put_op_run. simpl. unfold put_marks.
  rewrite bool_decide_true by set_solver. simpl.
  unfold sp_apply_call, sp_gets, sp_update_turn, sp_put_op, sp_modify, mbind, SM_bind.
  rewrite Hfull. simpl. rewrite (alter_insert_Some _ _ _ _ Hfull). fold t' op.
  eexists. split; [reflexivity|].
  rewrite (assoc_L _ {[id]} {[id]}), (idemp_L _ {[id]}).
  split_and!.
  - destruct HI1. simpl in *. split; simpl; try done.
    + by apply ops_ok_add.
    + eapply queried_ok_mono; [|done]. set_solver.
    + apply (wf_add_op _ (tl_set_turns (<[id := t']> (tl_turns tl)) tl) op t'); simpl;
        [done|apply lookup_insert_eq|lia|done].
  - split_and!; simpl; [| |done].
    + intros id' ?. apply lookup_insert_is_Some'. by right.
    + intros k op' E. exists op'. by rewrite lookup_insert_ne by congruence.
  - unfold loaded. simpl. by rewrite lookup_insert_eq.
  - done.
Qed.

(** *** Results *)

(** Every operation of [l] is a version of a stored one, with its input. *)
Definition versions (l : list OpRow) (r : Reducer B) (tl : Timeline) : Prop :=
  ∀ op, op ∈ l → version_of op false r tl.

Lemma sim_put_version n pend l op :
  op ∈ l → sim n n pend (versions l) (put_op op false) (sp_put_op op) (λ _, versions l).
Proof.
  intros Hin r tl HI HV. destruct (sim_put_op n pend op false r tl HI (HV _ Hin))
    as (r' & E & HI' & G & _).
  exists r'. split_and!; try done. intros op' Hin'.
  destruct (HV _ Hin') as (op1 & E1 & Hf1 & [|Hi1]); [done|]. unfold version_of. simpl.
  destruct (decide (key op' = key op)) as [Hk|Hk].
  - destruct (HV _ Hin) as (op2 & E2 & Hf2 & [|Hi2]); [done|].
    exists op. rewrite Hk, lookup_insert_eq. rewrite Hk in E1.
    assert (op2 = op1) as -> by congruence. split_and!; [done|congruence|right; congruence].
  - exists op1. rewrite lookup_insert_ne by done. split_and!; [done|done|by right].
Qed.

(** A scan of the cached operations sees what the timeline holds, when every
    committed operation it selects was cached. *)
Lemma where_view n pend r tl (f : OpRow → bool) :
  Inv n pend r tl →
  (∀ k op, tl_ops base !! k = Some op → f op = true → is_Some (ops r !! k)) →
  ops_where f (ops r) = ops_where f (tl_ops tl).
Proof.
  intros HI Hunc. pose proof (i_ops _ _ _ _ HI) as HO.
  unfold ops_where. apply filter_ops_ext. intros k op.
  rewrite !elem_of_dom. split.
  - intros (_ & E & Hf). by rewrite (ops_ok_cached _ _ _ _ _ _ _ _ _ _ HO E).
  - intros (_ & E & Hf). destruct (ops r !! k) as [op1|] eqn:E1.
    + rewrite (ops_ok_cached _ _ _ _ _ _ _ _ _ _ HO E1) in E. injection E as ->.
      by split_and!.
    + rewrite (ops_ok_uncached _ _ _ _ _ _ _ _ _ HO E1) in E.
      destruct (Hunc _ _ E Hf). congruence.
Qed.

Lemma elem_of_ops_where f o op :
  op ∈ ops_where f o → (∀ k op, o !! k = Some op → key op = k) →
  o !! key op = Some op ∧ f op = true.
Proof.
  unfold ops_where. rewrite list_elem_of_In, filter_In, <-list_elem_of_In, elem_of_ops_at.
  intros [(k & _ & E) Hf] Hk. by rewrite (Hk _ _ E).
Qed.

Lemma sim_close_waited_cells n pend wait block event :
  sim n n pend (versions [wait]) (close_waited_cells wait block event)
    (sp_close_waited_cells wait block event) (λ _, versions [wait]).
Proof.
  unfold close_waited_cells, sp_close_waited_cells.
  destruct (waited_cell wait block) as [cell|]; [|
    apply sim_ret_keep].
  intros r tl HI HV. unfold gets, lift, mbind, M_bind. rewrite (i_backend _ _ _ _ HI).
  destruct (law_ops_by_running_cell b0 cell base_ok) as (l & -> & Hl).
  destruct (remember_spec n pend r tl l HI (λ op Hop, proj1 (proj1 (Hl op) Hop)))
    as (r1 & -> & HI1 & G1 & Hc).
  rewrite (where_view _ _ _ _ _ HI1).
  2:{ intros k op Hk [Hr%bool_decide_eq_true _]%andb_true_iff.
      pose proof (wf_key _ _ base_wf _ _ Hk) as <-. by apply Hc, Hl. }
  set (running := ops_where _ (tl_ops tl)).
  pose proof (sim_for_each 0 n pend (versions (wait :: (close_cell event <$> running))) running
    (λ op, put_op (close_cell event op) false) (λ op, sp_put_op (close_cell event op))
    ltac:(lia)) as Hsim.
  assert (HV1 : versions (wait :: (close_cell event <$> running)) r1 tl).
  { intros op [->|(op1 & -> & Hop1)%list_elem_of_fmap]%elem_of_cons.
    - destruct (HV wait) as (op0 & ? & ?); [by left|]. by exists op0.
    - apply elem_of_ops_where in Hop1 as [E _]; [|apply (wf_key _ _ (i_wf _ _ _ _ HI))].
      exists op1. split; [done|]. split; [done|by right]. }
  destruct (Hsim ltac:(by left)) with (r := r1) (tl := tl) as (r2 & E2 & HI2 & G2 & HQ2); [|done|done|].
  { intros op n' Hop _. replace (n' - 0) with n' by lia. apply sim_put_version.
    right. by apply list_elem_of_fmap_2. }
  exists r2. replace (n - _) with n in HI2 by lia. split_and!; [done|done|by eapply grows_trans|].
  intros op ->%list_elem_of_singleton. apply HQ2. by left.
Qed.

Lemma sp_ops_for_pair_in p before tl op n :
  wf n tl → op ∈ sp_ops_for_pair p before tl → tl_ops tl !! key op = Some op.
Proof.
  intros HW Hop.
  assert (∀ f l, op ∈ sort_by_key f l → op ∈ l) as Hsort.
  { clear. intros f l. unfold sort_by_key. enough (∀ acc,
      op ∈ foldl (λ acc x, insert_by f x acc) acc l → op ∈ acc ∨ op ∈ l) as H.
    { intros [?|?]%H; set_solver. }
    induction l as [|x l IH]; intros acc; simpl; [by left|].
    intros [[->|?]%elem_of_insert_by|?]%IH; set_solver. }
  apply Hsort in Hop. unfold ops_before in Hop.
  rewrite list_elem_of_In, filter_In, <-list_elem_of_In, elem_of_ops_at in Hop.
  destruct Hop as [(k & _ & E) _]. by rewrite (wf_key _ _ HW _ _ E).
Qed.

Lemma sim_store_result n pend op block event :
  sim n n pend (versions [op])
    (_ ← close_waited_cells op block event; _ ← put_op op false;
     flag_owner (op_turn_id op) (is_error op))
    (_ ← sp_close_waited_cells op block event; _ ← sp_put_op op;
     sp_update_turn (op_turn_id op) (mark_errors (is_error op))) (λ _ _ _, True).
Proof.
  eapply sim_bind; [apply sim_close_waited_cells|]. intros [].
  eapply sim_bind; [by apply sim_put_version; left|]. intros [].
  eapply sim_conseq; [apply sim_flag_owner|done|done].
Qed.

Lemma sim_apply_result n pend id event block :
  base_through < byte_offset event →
  sim n n pend (loaded id) (apply_result id event block) (sp_apply_result id event block)
    (λ _, loaded id).
Proof.
  intros Hoff. unfold apply_result, sp_apply_result.
  eapply sim_bind; [by apply sim_when, sim_update_turn|]. intros [].
  destruct (tool_id block) as [p|]; [|
    apply sim_ret_keep].
  intros r tl HI Hl. unfold mbind at 1, M_bind at 1.
  destruct (latest_op_for_pair_spec n pend r tl p _ Hoff HI) as (r1 & -> & HI1 & G1).
  rewrite !sp_gets_bind.
  pose proof (loaded_stable id _ _ _ _ G1 Hl) as Hl1.
  destruct (last (sp_ops_for_pair p (byte_offset event) tl)) as [op|] eqn:Elast.
  2:{ exists r1. split; [reflexivity|]. by split. }
  assert (tl_ops tl !! key op = Some op) as Eop.
  { eapply sp_ops_for_pair_in; [apply HI|]. by apply last_Some_elem_of. }
  set (op' := set_result block event op).
  assert (versions [op'] r1 tl) as HV.
  { intros ? ->%list_elem_of_singleton. exists op. split; [done|]. split; [done|by right]. }
  destruct (sim_store_result n pend op' block event r1 tl HI1 HV) as (r2 & E2 & HI2 & G2 & _).
  exists r2. split_and!; [done|done|by eapply grows_trans|by eapply loaded_stable].
Qed.

(** *** Runtime evidence *)

Lemma runtime_candidates_spec n pend r tl event evidence :
  base_through < byte_offset event → Inv n pend r tl →
  ∃ r', runtime_candidates event evidence r = Ok (sp_candidates event evidence tl, r') ∧
        Inv n pend r' tl ∧ grows r tl r' tl.
Proof.
  intros Hoff HI. unfold runtime_candidates, sp_candidates.
  set (exact := match evidence_id evidence with
                | Some id => sp_ops_for_pair id (byte_offset event) tl
                | None => [] end).
  assert (∃ r', (match evidence_id evidence with
                 | Some id => ops_for_pair id (byte_offset event)
                 | None => mret [] end) r = Ok (exact, r') ∧
                Inv n pend r' tl ∧ grows r tl r' tl) as (r1 & E1 & HI1 & G1).
  { unfold exact. destruct (evidence_id evidence); [by apply ops_for_pair_spec|].
    exists r. split_and!; [done|done|apply grows_refl]. }
  unfold mbind, M_bind in *. rewrite E1.
  destruct exact as [|op l]; [|by exists r1].
  unfold gets, lift. rewrite (i_backend _ _ _ _ HI1).
  destruct (law_exec_candidates b0 (byte_offset event) (evidence_start evidence) base_ok)
    as (l & -> & Hl & Hl').
  destruct (remember_spec n pend r1 tl l HI1 Hl) as (r2 & -> & HI2 & G2 & Hc).
  exists r2. split_and!; [|done|by eapply grows_trans].
  do 2 f_equal. apply (where_view _ _ _ _ _ HI2).
  intros k op Hk [[Hb%Z.ltb_lt _]%andb_true_iff He]%andb_true_iff.
  pose proof (wf_key _ _ base_wf _ _ Hk) as <-. apply Hc. by apply Hl'.
Qed.

Lemma sp_candidates_in n tl event evidence op :
  wf n tl → op ∈ sp_candidates event evidence tl → tl_ops tl !! key op = Some op.
Proof.
  intros HW. unfold sp_candidates.
  set (exact := match evidence_id evidence with
                | Some id => sp_ops_for_pair id (byte_offset event) tl
                | None => [] end).
  assert (op ∈ exact → tl_ops tl !! key op = Some op) as Hex.
  { unfold exact. destruct (evidence_id evidence); [by eapply sp_ops_for_pair_in|set_solver]. }
  destruct exact; [|done]. intros Hop. eapply elem_of_ops_where in Hop as [? _]; [done|].
  apply (wf_key _ _ HW).
Qed.

Lemma sim_fold_one n pend event output ev :
  base_through < byte_offset event →
  sim n n pend (λ _ _, True) (fold_one event output ev) (sp_fold_one event output ev)
    (λ _ _ _, True).
Proof.
  intros Hoff r tl HI _. unfold fold_one, sp_fold_one, mbind at 1, M_bind at 1.
  destruct (runtime_candidates_spec n pend r tl event ev.1 Hoff HI) as (r1 & -> & HI1 & G1).
  rewrite !sp_gets_bind.
  pose proof (λ op, sp_candidates_in n tl event ev.1 op (i_wf _ _ _ _ HI)) as Hin.
  destruct (sp_candidates event ev.1 tl) as [|op [|]];
    [exists r1; split; [reflexivity|by split]| |exists r1; split; [reflexivity|by split]].
  set (op' := fold_runtime event ev.1 ev.2 op).
  assert (sim n n pend (version_of op' true)
    (_ ← put_op op' true; _ ← flag_owner (op_turn_id op') (is_error op');
     mret (clear_blocks output))
    (_ ← sp_put_op op'; _ ← sp_update_turn (op_turn_id op') (mark_errors (is_error op'));
     mret (clear_blocks output)) (λ _ _ _, True)) as Hsim.
  { eapply sim_bind; [apply sim_put_op|]. intros [].
    eapply sim_bind; [apply sim_flag_owner|]. intros [].
    apply sim_ret_true. }
  destruct (Hsim r1 tl HI1) as (r2 & E2 & HI2 & G2 & _).
  { exists op. split; [exact (Hin op ltac:(by left))|]. split; [done|by left]. }
  exists r2. split_and!; [done|done|by eapply grows_trans|done].
Qed.

Lemma sim_fold_all n pend event output l :
  base_through < byte_offset event →
  sim n n pend (λ _ _, True) (fold_all event output l) (sp_fold_all event output l)
    (λ _ _ _, True).
Proof.
  intros Hoff. revert output. induction l as [|ev l IH]; intros output; simpl.
  - apply sim_ret_true.
  - eapply sim_bind; [by apply sim_fold_one|]. intros output'. apply IH.
Qed.

(** *** Usage *)

Lemma sim_put_usage n pend m u :
  sim n n pend (λ _ _, True) (modify (put_usage m u)) (sp_modify (tl_put_usage m u))
    (λ _ _ _, True).
Proof.
  intros r tl HI _. eexists. split; [reflexivity|].
  split_and!; [|split_and!; simpl; [by eauto|by eauto|done]|done].
  destruct HI. split; simpl; try done.
  - by apply usage_ok_insert.
  - by apply wf_put_usage.
Qed.

Lemma prior_usage_spec n pend r tl m :
  Inv n pend r tl →
  (match usage r !! m with
   | Some prior => mret (Some prior)
   | None => b ← gets backend; lift (be_message_usage b m)
   end) r = Ok (tl_usage tl !! m, r).
Proof.
  intros HI. destruct (i_usage _ _ _ _ HI) as [-> _].
  destruct (usage r !! m) as [u|] eqn:E.
  - by erewrite lookup_union_Some_l.
  - unfold mbind, M_bind, gets, lift. simpl. rewrite (i_backend _ _ _ _ HI), (law_message_usage _ _ base_ok).
    by rewrite lookup_union_r.
Qed.

Lemma sim_add_usage n pend owner prior m tin tout :
  sim n n pend (loaded owner)
    (_ ← (match prior with
          | Some p =>
              if bool_decide (mu_turn_id p = owner)
              then update_turn owner (add_tokens (- mu_input_tokens p) (- mu_output_tokens p))
              else mret ()
          | None => mret ()
          end);
     _ ← update_turn owner (add_tokens tin tout);
     modify (put_usage m (mkUsage owner tin tout)))
    (_ ← (match prior with
          | Some p =>
              if bool_decide (mu_turn_id p = owner)
              then sp_update_turn owner
                     (add_tokens (- mu_input_tokens p) (- mu_output_tokens p))
              else mret ()
          | None => mret ()
          end);
     _ ← sp_update_turn owner (add_tokens tin tout);
     sp_modify (tl_put_usage m (mkUsage owner tin tout)))
    (λ _ _ _, True).
Proof.
  apply (sim_bind n n n pend _ _ _ (λ _, loaded owner)).
  - destruct prior as [p|]; [by apply sim_when, sim_update_turn|].
    apply sim_ret_keep.
  - intros []. eapply sim_bind; [by apply sim_update_turn|]. intros [].
    eapply sim_conseq; [apply sim_put_usage|done|done].
Qed.

Lemma sim_apply_usage n pend id event :
  sim n n pend (loaded id) (apply_usage id event) (sp_apply_usage id event) (λ _ _ _, True).
Proof.
  unfold apply_usage, sp_apply_usage.
  destruct (usage_json event) as [u|]; [|apply sim_ret_true].
  case_bool_decide.
  { eapply sim_bind; [by apply sim_update_turn|]. intros [].
    eapply sim_conseq; [apply sim_set_state; [done|done|done|apply loaded_stable]|done|done]. }
  set (tin := wrap64 _). set (tout := token u "output_tokens").
  destruct (usage_message_id event) as [m|];
    [|by eapply sim_conseq; [apply sim_update_turn| |]].
  intros r tl HI Hl. unfold mbind at 1, M_bind at 1, gets at 1.
  unfold mbind at 1, M_bind at 1. rewrite (prior_usage_spec _ _ _ _ _ HI), !sp_gets_bind.
  set (owner := match tl_usage tl !! m with
                | Some p => if bool_decide (is_Some (tl_turns tl !! mu_turn_id p))
                            then mu_turn_id p else id
                | None => id end).
  assert (∃ r1, (match tl_usage tl !! m with
                 | Some p => loaded ← load_turn (mu_turn_id p);
                             mret (if loaded : bool then mu_turn_id p else id)
                 | None => mret id
                 end) r = Ok (owner, r1) ∧ Inv n pend r1 tl ∧ grows r tl r1 tl ∧
                loaded owner r1 tl) as (r1 & E1 & HI1 & G1 & Hl1).
  { unfold owner. destruct (tl_usage tl !! m) as [p|].
    - destruct (load_turn_spec n pend r tl (mu_turn_id p) HI) as (r1 & E1 & HI1 & G1 & Hp).
      exists r1. unfold mbind, M_bind. rewrite E1. split_and!; [done|done|done|].
      case_bool_decide; [by apply Hp|by eapply loaded_stable].
    - exists r. split_and!; [done|done|apply grows_refl|done]. }
  unfold mbind at 1, M_bind at 1. rewrite E1.
  destruct (sim_add_usage n pend owner (tl_usage tl !! m) m tin tout r1 tl HI1 Hl1)
    as (r2 & E2 & HI2 & G2 & _).
  exists r2. split_and!; [done|done|by eapply grows_trans|done].
Qed.

(** *** Appending an event *)

Lemma sim_push_item n pend id offset item P :
  stable P → (∀ r tl, Inv n pend r tl → P r tl → is_Some (tl_turns tl !! id)) →
  sim n n pend P (modify (push_item (id, offset, item)))
    (sp_modify (tl_put_item (id, offset) item)) (λ _, P).
Proof.
  intros HP Hex r tl HI HPr. eexists. split; [reflexivity|].
  pose proof (Hex _ _ HI HPr).
  assert (grows r tl (push_item (id, offset, item) r) (tl_put_item (id, offset) item tl)) as G
    by (split_and!; simpl; [by eauto|by eauto|done]).
  split_and!; [|done|by eapply HP].
  destruct HI. split; simpl; try done.
  - by rewrite foldl_app, i_items0.
  - by apply wf_put_item.
Qed.

Lemma sim_calls n pend id event :
  base_through < byte_offset event → Z.of_nat (length (tool_uses_in event)) ≤ n →
  sim n (n - Z.of_nat (length (tool_uses_in event))) pend
    (λ r tl, loaded id r tl ∧ reached event r tl)
    (apply_calls id event) (sp_each (tool_uses_in event) (sp_apply_call id event))
    (λ _ r tl, loaded id r tl ∧ reached event r tl).
Proof.
  intros Hoff Hn. unfold apply_calls.
  replace (n - _) with (n - 1 * Z.of_nat (length (tool_uses_in event))) by lia.
  apply sim_for_each; [lia|right; lia|]. intros tool n' _ Hn'. apply sim_apply_call; [done|lia].
Qed.

Lemma sim_results n pend id event :
  base_through < byte_offset event →
  sim n n pend (loaded id) (apply_results id event)
    (sp_each (blocks_of BToolResult event) (sp_apply_result id event)) (λ _, loaded id).
Proof.
  intros Hoff. unfold apply_results.
  eapply sim_weaken; [|apply (sim_for_each 0); [lia|by left|]]; [lia|]. intros block n' _ _. replace (n' - 0) with n' by lia.
  by apply sim_apply_result.
Qed.

Definition turn_exists (id : Z) (r : Reducer B) (tl : Timeline) : Prop :=
  is_Some (tl_turns tl !! id).

Lemma sim_append_event n pend id event :
  base_through < byte_offset event → Z.of_nat (length (tool_uses_in event)) ≤ n →
  sim n (n - Z.of_nat (length (tool_uses_in event))) pend
    (λ r tl, turn_exists id r tl ∧ reached event r tl)
    (append_event id event) (sp_append_event id event) (λ _ _ _, True).
Proof.
  intros Hoff Hn r tl HI [Hex Hre]. unfold append_event, mbind at 1, M_bind at 1.
  destruct (load_turn_spec n pend r tl id HI) as (r1 & -> & HI1 & G1 & Hl).
  rewrite bool_decide_true by exact Hex. cbn [negb].
  pose proof (stable_and _ _ (loaded_stable id) (reached_stable event)) as Hst.
  set (P := λ r tl, loaded id r tl ∧ reached event r tl) in *.
  assert (∀ f, (∀ t, turn_frozen (f t) = turn_frozen t) →
    (∀ t, operation_count (f t) = operation_count t) → ∀ n,
    sim n n pend P (update_turn id f) (sp_update_turn id f) (λ _, P)) as Hup.
  { intros f Hf Hc n'. by apply sim_keep, sim_update_turn; [apply reached_stable| |]. }
  match goal with |- ∃ r', ?m r1 = Ok ((?s tl).1, r') ∧ _ =>
    enough (sim n (n - Z.of_nat (length (tool_uses_in event))) pend P m s (λ _ _ _, True)) as Hsim
  end.
  { destruct (Hsim r1 tl HI1) as (r2 & E2 & HI2 & G2 & _); [by split; [apply Hl|]|].
    exists r2. split_and!; [done|done|by eapply grows_trans|done]. }
  eapply sim_bind; [by apply Hup|]. intros [].
  eapply sim_bind; [by apply sim_set_state|]. intros [].
  eapply (sim_bind _ _ _ _ _ _ _ (λ _, P)).
  { destruct (is_assistant_event event).
    - eapply sim_bind; [by apply sim_calls|]. intros []. by apply Hup.
    - eapply sim_weaken; [|apply sim_ret_keep]. lia. }
  intros []. eapply (sim_bind _ _ _ _ _ _ _ (λ _, P)).
  { apply sim_when, sim_keep; [apply reached_stable|by apply sim_results]. }
  intros []. eapply (sim_bind _ _ _ _ _ _ _ (λ _, P)).
  { destruct (visible_item event); [apply sim_push_item; [done|]|apply sim_ret_keep].
    intros r' tl' HI' [[t1 Ht1] _]. exists t1. by eapply Inv_loaded. }
  intros []. eapply sim_conseq; [apply sim_apply_usage|by intros ?? []|done].
Qed.

(** *** Links, prompts and routing *)

Lemma Inv_add_link n pend r tl l :
  Inv n pend r tl → Inv n pend (add_link l r) (tl_add_link l tl).
Proof.
  intros HI. destruct HI. split; simpl; try done.
  - by rewrite i_links0, (assoc_L _).
  - by apply wf_add_link.
Qed.

Lemma grows_links r tl l : grows r tl (add_link l r) (tl_add_link l tl).
Proof. split_and!; simpl; [by eauto|by eauto|done]. Qed.

Lemma record_links_spec n pend r tl event :
  Inv n pend r tl →
  ∃ r', record_links parse_uuid event r = Ok ((), r') ∧
        Inv n pend r' (sp_record_links parse_uuid self child event tl).2 ∧
        tl_turns (sp_record_links parse_uuid self child event tl).2 = tl_turns tl ∧
        tl_state (sp_record_links parse_uuid self child event tl).2 = tl_state tl.
Proof.
  intros HI. unfold record_links, sp_record_links, modify, sp_modify. simpl.
  eexists. split; [reflexivity|]. rewrite (i_child _ _ _ _ HI).
  destruct child as [parent|], (related_tool_use_id event) as [p|]; simpl;
    rewrite ?(i_self _ _ _ _ HI); simpl; destruct (spawned_child _ _ _); simpl;
    rewrite ?(i_self _ _ _ _ HI);
    (split; [repeat apply Inv_add_link; exact HI|done]).
Qed.

Definition pend_of (event : StoredEvent) (is_prompt : bool) : option string :=
  if is_prompt then event_uuid event else None.

Lemma prompt_repeated_spec n r tl event is_prompt :
  Inv n None r tl →
  ∃ r', prompt_repeated event is_prompt r = Ok (sp_repeated event is_prompt tl, r') ∧
        Inv n (if sp_repeated event is_prompt tl then None else pend_of event is_prompt) r' tl.
Proof.
  intros HI. unfold prompt_repeated, sp_repeated, pend_of.
  destruct is_prompt; [|by exists r]. destruct (event_uuid event) as [u|]; [|by exists r].
  pose proof (i_prompts _ _ _ _ HI u) as Hu.
  unfold mbind, M_bind, gets, lift, modify. simpl. rewrite (i_backend _ _ _ _ HI), (law_prompt_seen _ _ base_ok).
  case_bool_decide as Hl.
  - exists r. rewrite bool_decide_true by naive_solver. done.
  - case_bool_decide as Hb; simpl.
    + exists r. rewrite bool_decide_true by naive_solver. done.
    + eexists. rewrite bool_decide_false by (intros ?; naive_solver).
      split; [reflexivity|]. destruct HI. split; simpl; try done.
      intros v. specialize (i_prompts0 v). rewrite elem_of_union, elem_of_singleton. naive_solver.
Qed.

Lemma Inv_set_state n pend r tl f :
  Inv n pend r tl → wf n (tl_set_state f tl) →
  projected_through (tl_state tl) ≤ projected_through (f (tl_state tl)) →
  Inv n pend (set_state f r) (tl_set_state f tl).
Proof.
  intros HI HW Hp. destruct HI. split; simpl; try done; [by f_equal|lia].
Qed.

Lemma create_turn_spec n r tl event prompt sidechain :
  base_through < byte_offset event → tl_turns tl !! byte_offset event = None →
  Inv n (pend_of event prompt) r tl → reached event r tl →
  ∃ r', create_turn event prompt sidechain r = Ok (byte_offset event, r') ∧
        (sp_create_turn event prompt sidechain tl).1 = byte_offset event ∧
        Inv n None r' (sp_create_turn event prompt sidechain tl).2 ∧
        reached event r' (sp_create_turn event prompt sidechain tl).2 ∧
        turn_exists (byte_offset event) r' (sp_create_turn event prompt sidechain tl).2.
Proof.
  intros Hoff Hfree HI Hre. eexists. split; [reflexivity|]. split; [reflexivity|].
  set (t := seed_turn (tl_state tl) event prompt sidechain).
  assert (Hwf : wf n (tl_set_turns (<[byte_offset event := t]> (tl_turns tl)) tl)).
  { apply (wf_new_turn _ _ t); [apply HI|done|done|apply HI|done]. }
  split; [|split; [done|unfold turn_exists; simpl; by rewrite lookup_insert_eq]].
  simpl. rewrite (i_state _ _ _ _ HI). fold t.
  apply Inv_set_state; [|by apply wf_set_state|done].
  destruct HI. split; simpl; try done.
  - apply turns_ok_insert; [done|]. intros t0 H0.
    pose proof (wf_turn_bound _ _ base_wf _ _ H0). lia.
  - intros u. specialize (i_prompts0 u). rewrite <-i_prompts0, prompt_in_insert by done.
    unfold pend_of. simpl. destruct prompt; naive_solver.
Qed.

Lemma link_sidechain_spec n r tl id event :
  Inv n None r tl → reached event r tl → turn_exists id r tl →
  ∃ r', link_sidechain_turn id event r = Ok ((), r') ∧
        Inv n None r' (sp_link_sidechain self child id event tl).2 ∧
        reached event r' (sp_link_sidechain self child id event tl).2 ∧
        turn_exists id r' (sp_link_sidechain self child id event tl).2.
Proof.
  intros HI Hre Hex. eexists. split; [reflexivity|]. simpl.
  rewrite (i_child _ _ _ _ HI), (i_self _ _ _ _ HI).
  destruct child; [done|]. destruct (related_tool_use_id event); [|done].
  split; [by apply Inv_add_link|done].
Qed.

Lemma route_spec n r tl event is_prompt :
  base_through < byte_offset event → tl_turns tl !! byte_offset event = None →
  (is_prompt = true → is_bookkeeping_event event = false) →
  Inv n (pend_of event is_prompt) r tl → reached event r tl →
  ∃ r', route event is_prompt r = Ok ((sp_route self child event is_prompt tl).1, r') ∧
        Inv n None r' (sp_route self child event is_prompt tl).2 ∧
        reached event r' (sp_route self child event is_prompt tl).2 ∧
        (∀ id, (sp_route self child event is_prompt tl).1 = Some id →
               turn_exists id r' (sp_route self child event is_prompt tl).2).
Proof.
  intros Hoff Hfree Hbk HI Hre. unfold route, sp_route, mbind at 1, M_bind at 1, gets at 1.
  rewrite !sp_gets_bind, (i_state _ _ _ _ HI).
  pose proof (λ p s, create_turn_spec n r tl event p s Hoff Hfree) as Hcreate.
  assert (∀ (P : Prop), is_prompt = false → (Inv n None r tl → P) → P) as Hnone.
  { intros P Hp HP. apply HP. subst is_prompt. exact HI. }
  destruct (is_sidechain event).
  - destruct (if is_prompt then None else current_sidechain (tl_state tl)) as [id|] eqn:Ecur.
    { destruct is_prompt; [done|]. exists r. split_and!; [done|done|done|].
      intros ? [= <-]. by apply (wf_sidechain _ _ (i_wf _ _ _ _ HI)). }
    destruct (is_bookkeeping_event event).
    { destruct is_prompt; [by specialize (Hbk eq_refl)|]. by exists r. }
    destruct (Hcreate is_prompt true HI Hre) as (r1 & E1 & Eid & HI1 & Hre1 & Hex1).
    unfold mbind, M_bind, SM_bind. rewrite E1.
    destruct (sp_create_turn event is_prompt true tl) as [id tl1]; simpl in Eid, HI1, Hre1, Hex1.
    subst id. unfold modify, sp_modify.
    assert (HI2 : Inv n None (set_state (with_sidechain (byte_offset event)) r1)
      (tl_set_state (with_sidechain (byte_offset event)) tl1)).
    { apply Inv_set_state; [done|by apply wf_with_sidechain; [apply HI1|]|done]. }
    destruct (link_sidechain_spec n _ _ (byte_offset event) event HI2 Hre1 Hex1)
      as (r3 & E3 & HI3 & Hre3 & Hex3). rewrite E3.
    destruct (sp_link_sidechain _ _ _ _ _) as [[] tl3]; simpl in *.
    exists r3. split_and!; [done|done|done|]. intros id. by destruct is_prompt; [|intros [= <-]].
  - destruct is_prompt.
    { destruct (Hcreate true false HI Hre) as (r1 & E1 & Eid & HI1 & Hre1 & Hex1).
      unfold mbind, M_bind, SM_bind. rewrite E1.
      destruct (sp_create_turn event true false tl) as [id tl1]; simpl in Eid, HI1, Hre1, Hex1.
      subst id. eexists. split; [reflexivity|]. split; [|done].
      apply Inv_set_state; [done|by apply wf_with_main; [apply HI1|]|done]. }
    destruct (current_main (tl_state tl)) as [id|] eqn:Ecur.
    { exists r. split_and!; [done|done|done|].
      intros ? [= <-]. by apply (wf_main _ _ (i_wf _ _ _ _ HI)). }
    destruct (is_bookkeeping_event event); [by exists r|].
    destruct (Hcreate false false HI Hre) as (r1 & E1 & Eid & HI1 & Hre1 & Hex1).
    unfold mbind, M_bind, SM_bind. rewrite E1.
    destruct (sp_create_turn event false false tl) as [id tl1]; simpl in Eid, HI1, Hre1, Hex1.
    subst id. eexists. split; [reflexivity|]. split; [|by split; [|intros ? [= <-]]].
    apply Inv_set_state; [done|by apply wf_with_main; [apply HI1|]|done].
Qed.

(** *** One event *)

(** What folding the evidence leaves as it was. *)
Lemma sp_fold_all_frame event output l tl :
  byte_offset (sp_fold_all event output l tl).1 = byte_offset output ∧
  (length (tool_uses_in (sp_fold_all event output l tl).1) ≤ length (tool_uses_in output))%nat ∧
  dom (tl_turns (sp_fold_all event output l tl).2) = dom (tl_turns tl) ∧
  tl_state (sp_fold_all event output l tl).2 = tl_state tl.
Proof.
  revert output tl. induction l as [|ev l IH]; intros output tl; simpl; [done|].
  unfold mbind at 1 2 3 4, SM_bind at 1 2 3 4.
  assert (∀ output' tl', sp_fold_one event output ev tl = (output', tl') →
    byte_offset output' = byte_offset output ∧
    (length (tool_uses_in output') ≤ length (tool_uses_in output))%nat ∧
    dom (tl_turns tl') = dom (tl_turns tl) ∧ tl_state tl' = tl_state tl) as Hone.
  { intros output' tl'. unfold sp_fold_one. rewrite sp_gets_bind.
    destruct (sp_candidates _ _ _) as [|op [|]]; intros [= <- <-]; simpl;
      (split_and!; [done|lia|by rewrite ?dom_alter_L|done]). }
  destruct (sp_fold_one event output ev tl) as [output' tl'].
  destruct (Hone _ _ eq_refl) as (E1 & E2 & E3 & E4).
  destruct (IH output' tl') as (F1 & F2 & F3 & F4).
  split_and!; [congruence|lia|congruence|congruence].
Qed.

Lemma Inv_weaken n n' pend r tl : n' ≤ n → Inv n pend r tl → Inv n' pend r tl.
Proof. intros Hn []. split; try done; [by eapply wf_weaken|lia]. Qed.

(** From the prompt check to the append. *)
Lemma land_spec n n' r tl event :
  n' ≤ n - Z.of_nat (length (tool_uses_in event)) →
  Z.of_nat (length (tool_uses_in event)) ≤ n →
  base_through < byte_offset event → tl_turns tl !! byte_offset event = None →
  Inv n None r tl → reached event r tl →
  let m : M B unit :=
    repeated ← prompt_repeated event (is_real_user_prompt event);
    if repeated : bool then mret ()
    else
      target ← route event (is_real_user_prompt event);
      match target with Some id => append_event id event | None => mret () end in
  let s : SM unit :=
    repeated ← sp_gets (sp_repeated event (is_real_user_prompt event));
    if repeated : bool then mret ()
    else
      target ← sp_route self child event (is_real_user_prompt event);
      match target with Some id => sp_append_event id event | None => mret () end in
  ∃ r', m r = Ok ((), r') ∧ Inv n' None r' (s tl).2.
Proof.
  intros Hn' Hn Hoff Hfree HI Hre m s. subst m s.
  destruct (prompt_repeated_spec n r tl event (is_real_user_prompt event) HI) as (r1 & E1 & HI1).
  rewrite (M_bind_run _ _ _ _ _ E1), sp_gets_bind.
  destruct (sp_repeated event (is_real_user_prompt event) tl).
  { exists r1. split; [done|]. eapply Inv_weaken; [|done]. lia. }
  destruct (route_spec n r1 tl event _ Hoff Hfree (prompt_not_bookkeeping event) HI1 Hre)
    as (r2 & E2 & HI2 & Hre2 & Hex2).
  rewrite (M_bind_run _ _ _ _ _ E2), SM_bind_run.
  destruct (sp_route _ _ _ _ _) as [[id|] tl2]; cbn [fst snd] in HI2, Hre2, Hex2 |- *.
  - destruct (sim_append_event n None id event Hoff Hn r2 tl2 HI2
      (conj (Hex2 _ eq_refl) Hre2)) as (r3 & E3 & HI3 & _ & _).
    exists r3. rewrite E3. split; [by destruct (sp_append_event id event tl2).1|].
    eapply Inv_weaken; [|done]. lia.
  - exists r2. split; [done|]. eapply Inv_weaken; [|done]. lia.
Qed.

Theorem apply_spec n r tl event :
  Inv n None r tl → projected_through (tl_state tl) < byte_offset event →
  calls_in event ≤ n →
  ∃ r', apply parse_uuid event r = Ok ((), r') ∧
        Inv (n - calls_in event) None r'
          (step parse_uuid self child tl event).
Proof.
  unfold calls_in. intros HI Hnew Hn. pose proof (i_through _ _ _ _ HI) as Hthrough.
  unfold apply, step, sp_apply. rewrite (M_bind_run _ _ _ _ _ eq_refl), SM_bind_run.
  set (f := with_through (byte_offset event)). cbn [sp_modify fst snd].
  assert (HI0 : Inv n None (set_state f r) (tl_set_state f tl)).
  { apply Inv_set_state; [done|apply wf_set_state; simpl; [apply HI|lia|done|done]|simpl; lia]. }
  case_bool_decide.
  { eexists. split; [reflexivity|]. cbn [snd]. eapply Inv_weaken; [|done]. lia. }
  unfold correlate_runtime.
  destruct (sim_fold_all n None event event (evidence_of event) ltac:(lia) _ _ HI0 I)
    as (r1 & E1 & HI1 & G1 & _).
  pose proof (sp_fold_all_frame event event (evidence_of event) (tl_set_state f tl))
    as (Eoff & Elen & Edom & Est).
  rewrite (M_bind_run _ _ _ _ _ E1), SM_bind_run.
  destruct (sp_fold_all event event (evidence_of event) (tl_set_state f tl)) as [event' tl1].
  cbn [fst snd] in Eoff, Elen, Edom, Est, HI1 |- *.
  destruct (record_links_spec n None r1 tl1 event' HI1) as (r2 & E2 & HI2 & Et2 & Es2).
  rewrite (M_bind_run _ _ _ _ _ E2), SM_bind_run.
  set (tl2 := (sp_record_links parse_uuid self child event' tl1).2) in *.
  assert (Hfree : tl_turns tl2 !! byte_offset event' = None).
  { rewrite Et2, Eoff. apply not_elem_of_dom. rewrite Edom. intros [t Ht]%elem_of_dom.
    pose proof (wf_turn_bound _ _ (i_wf _ _ _ _ HI) _ _ Ht). lia. }
  assert (Hre : reached event' r2 tl2).
  { unfold reached. rewrite Es2, Est, Eoff. simpl. lia. }
  apply (land_spec n); [lia|lia|lia|done|done|done].
Qed.

Theorem apply_all_spec n r tl events :
  Inv n None r tl → increasing (projected_through (tl_state tl)) events →
  tool_calls events ≤ n →
  ∃ r', for_each events (apply parse_uuid) r = Ok ((), r') ∧
        Inv (n - tool_calls events) None r' (steps parse_uuid self child tl events).
Proof.
  revert n r tl. induction events as [|e events IH]; intros n r tl HI; simpl.
  - intros _ _. exists r. split; [done|]. by replace (n - 0) with n by lia.
  - intros [Hlt Hinc] Hn. pose proof (tool_calls_nonneg events).
    destruct (apply_spec n r tl e HI Hlt ltac:(lia)) as (r1 & E1 & HI1).
    rewrite (M_bind_run _ _ _ _ _ E1).
    destruct (IH _ _ _ HI1) as (r2 & E2 & HI2).
    + rewrite step_through. by rewrite Z.max_r by lia.
    + lia.
    + exists r2. split; [done|]. by replace (n - _) with (n - calls_in e - tool_calls events) by lia.
Qed.
End sim.
