(* ===== verification/Store.v ===== *)
(** * The stored timeline and the reducer's view of it

    [ingest/projection/store.rs]: one session's rows in the projection tables,
    the queries [PgBackend] runs against them, and the proof that they are
    what the reducer relies on ([BackendLaws]). A query without [ORDER BY]
    returns its rows in any order ([HeapOrder]). *)

From S2P Require Import Prelude Text Json Events Runtime Render FileTouches Reducer ReducerSpec ReducerInv.

(** The order in which the database returns the rows of an unordered query. *)
Class HeapOrder (A : Type) : Type := {
  heap_order : list A → list A;
  heap_perm l : heap_order l ≡ₚ l;
}.

(** ** Rows *)

Record OpDbRow : Type := mkOpDb {
  db_turn_id : Z;
  db_operation_ord : Z;
  db_pair_id : string;
  db_name : string;
  db_raw_name : option string;
  db_operation_type : option string;
  operation_category : option string;
  db_input : option Value;
  db_result_content : option string;
  db_result_payload : option Value;
  db_result_is_error : bool;
  db_is_error : bool;
  db_is_pending : bool;
  db_call_offset : option Z;
  db_call_at : option Z;
  db_changed_at : Z;
  db_call_error : bool;
  running_cell : option string;
  db_finished_at : option Z;
}.

(** [impl From<OpDbRow> for OpRow] *)
Definition from_db (row : OpDbRow) : OpRow :=
  mkOp (db_turn_id row) (db_operation_ord row) (db_pair_id row) (db_name row)
    (db_raw_name row) (db_operation_type row)
    (operation_category row ≫= OperationCategories.parse) (db_input row)
    (db_result_content row) (db_result_payload row) (db_result_is_error row)
    (db_is_error row) (db_is_pending row) (default (-1) (db_call_offset row))
    (default 0 (db_call_at row)) (db_changed_at row) (db_call_error row) (running_cell row)
    (db_finished_at row).

(** The columns [insert_operation] binds. *)
Definition to_db (op : OpRow) : OpDbRow :=
  mkOpDb (op_turn_id op) (operation_ord op) (pair_id op) (name op) (raw_name op)
    (operation_type op) (OperationCategories.as_str <$> category op) (input op)
    (result_content op) (result_payload op) (result_is_error op) (is_error op)
    (is_pending op) (Some (call_offset op)) (Some (call_at op)) (changed_at op)
    (call_error op) (running op) (finished_at op).

Lemma from_to_db op : from_db (to_db op) = op.
Proof.
  destruct op as [t o p n rn ot cat i c pl re e pe off at_ ch ce cell fin].
  unfold from_db, to_db. simpl. f_equal.
  destruct cat as [c'|]; [|done]. simpl. apply parse_as_str.
Qed.

(** [timeline_session_state] *)
Record StateRow : Type := mkStateRow {
  revision : Z;
  projection_version : Z;
  row_state : SessionState;
  reconcile_sources : bool;
}.

(** One session's rows, and the links table. A turn row carries the digest
    its [markdown] column holds; a touch row names its operation. *)
Record Db : Type := mkDb {
  state_row : option StateRow;
  turns_table : gmap Z (TurnRow * string);
  items_table : gmap key2 TimelineChunk;
  operations_table : gmap key2 OpDbRow;
  touches_table : gmap key2 (Z * TimelineFileTouch);
  usage_table : gmap string MessageUsage;
  links_table : gset ChildLink;
}.

Definition stored_state (db : Db) : SessionState :=
  match state_row db with Some row => row_state row | None => default_state end.

(** The timeline the tables hold. *)
Definition rows (db : Db) : Timeline :=
  mkTimeline (stored_state db) (fst <$> turns_table db) (items_table db)
    (from_db <$> operations_table db) (usage_table db) (links_table db).

(** Every operation row was written by [insert_operation] under its key. *)
Definition db_ok (db : Db) : Prop :=
  ∀ k row, operations_table db !! k = Some row → ∃ op, row = to_db op ∧ key op = k.

(** ** Queries *)

(** SQL [a < b] with a nullable column: [NULL] selects nothing. *)
Definition sql_lt (a : option Z) (b : Z) : bool :=
  match a with Some a => a <? b | None => false end.
Definition sql_le (a : option Z) (b : Z) : bool :=
  match a with Some a => a <=? b | None => false end.

(** [raw_name = 'exec' OR raw_name LIKE '%.exec'] *)
Definition raw_exec (row : OpDbRow) : bool :=
  match db_raw_name row with
  | Some n => bool_decide (n = "exec") || ends_with ".exec" n
  | None => false
  end.

(** The window of [exec_candidates], with its millisecond of slack. *)
Definition exec_window (before : Z) (started : option Z) (row : OpDbRow) : bool :=
  raw_exec row && sql_lt (db_call_offset row) before
  && match started with
     | None => is_none (db_finished_at row)
     | Some s =>
         sql_le (db_call_at row) (s + 1000)
         && match db_finished_at row with None => true | Some f => s - 1000 <=? f end
     end.

Section backend.
Context `{HeapOrder OpDbRow}.

(** [PgBackend::ops] *)
Definition select_ops (f : OpDbRow → bool) (db : Db) : list OpRow :=
  from_db <$> heap_order (List.filter f (map_to_list (operations_table db)).*2).

Definition pg_turn (db : Db) (id : Z) : res (option TurnRow) :=
  Ok (fst <$> turns_table db !! id).

Definition pg_ops_by_pair (db : Db) (p : string) (before : Z) : res (list OpRow) :=
  Ok (select_ops (λ row, bool_decide (db_pair_id row = p)
                         && sql_lt (db_call_offset row) before) db).

Definition pg_prompt_seen (db : Db) (u : string) : res bool :=
  Ok (bool_decide (map_Exists (λ _ row, prompt_event_uuid row.1 = Some u) (turns_table db))).

Definition pg_message_usage (db : Db) (m : string) : res (option MessageUsage) :=
  Ok (usage_table db !! m).

Definition pg_exec_candidates (db : Db) (before : Z) (started : option Z) : res (list OpRow) :=
  Ok (select_ops (exec_window before started) db).

Definition pg_ops_by_running_cell (db : Db) (c : string) : res (list OpRow) :=
  Ok (select_ops (λ row, bool_decide (running_cell row = Some c)) db).

#[export] Instance PgBackend : Backend Db := {
  be_turn := pg_turn;
  be_ops_by_pair := pg_ops_by_pair;
  be_prompt_seen := pg_prompt_seen;
  be_message_usage := pg_message_usage;
  be_exec_candidates := pg_exec_candidates;
  be_ops_by_running_cell := pg_ops_by_running_cell;
}.

(** ** The laws *)

Lemma elem_of_select_ops f db op :
  db_ok db →
  op ∈ select_ops f db ↔ tl_ops (rows db) !! key op = Some op ∧ f (to_db op) = true.
Proof.
  intros Hok. unfold select_ops. rewrite list_elem_of_fmap. simpl. rewrite lookup_fmap.
  setoid_rewrite heap_perm. setoid_rewrite list_elem_of_In. setoid_rewrite filter_In.
  setoid_rewrite <-list_elem_of_In. setoid_rewrite list_elem_of_fmap. split.
  - intros (row & -> & (([k row'] & -> & Hin) & Hf)).
    apply elem_of_map_to_list in Hin. destruct (Hok _ _ Hin) as (op & -> & <-).
    simpl in *. rewrite from_to_db. by rewrite Hin, fmap_Some_2 with (x := to_db op);
      rewrite ?from_to_db.
  - intros [(row & Hin & Heq)%fmap_Some Hf]. destruct (Hok _ _ Hin) as (op' & -> & Hk).
    rewrite from_to_db in Heq. subst op'. exists (to_db op).
    rewrite from_to_db. split_and!; [done| |done].
    exists (key op, to_db op). split; [done|]. by apply elem_of_map_to_list.
Qed.

(** The SQL window lets through every operation the reducer's window does. *)
Lemma exec_window_complete before started op :
  call_offset op < before → encloses op started = true →
  exec_window before started (to_db op) = true.
Proof.
  intros Hb. unfold encloses, exec_window.
  destruct (bool_decide (tool_short_name op = Some "exec")) eqn:Ename; [|done].
  apply bool_decide_eq_true in Ename. cbn [negb]. intros Hw.
  assert (raw_exec (to_db op) = true) as ->.
  { unfold raw_exec. cbn [to_db db_raw_name]. unfold tool_short_name in Ename.
    destruct (raw_name op) as [n|]; simpl in Ename; [|done]. injection Ename as Hn.
    destruct (rsplit_first_suffix "."%char n) as [E|E]; rewrite Hn in E.
    - by rewrite E.
    - rewrite E. apply orb_true_r. }
  cbn [to_db db_call_offset sql_lt db_call_at db_finished_at sql_le andb].
  replace (call_offset op <? before) with true by (symmetry; by apply Z.ltb_lt).
  cbn [andb]. destruct started as [s|]; [|done].
  apply andb_true_iff in Hw as [H1 H2]. unfold timestamp_millis in *.
  apply andb_true_iff. split.
  - apply Z.leb_le in H1. apply Z.leb_le.
    pose proof (Z.div_mod (call_at op) 1000). pose proof (Z.div_mod s 1000).
    pose proof (Z.mod_pos_bound (call_at op) 1000). pose proof (Z.mod_pos_bound s 1000). lia.
  - destruct (finished_at op) as [f|]; [|done]. apply Z.leb_le in H2. apply Z.leb_le.
    pose proof (Z.div_mod f 1000). pose proof (Z.div_mod s 1000).
    pose proof (Z.mod_pos_bound f 1000). pose proof (Z.mod_pos_bound s 1000). lia.
Qed.

#[export] Instance PgBackend_laws : BackendLaws Db rows db_ok.
Proof.
  split.
  - intros db id _. simpl. unfold pg_turn. by rewrite lookup_fmap.
  - intros db p before Hok. eexists. split; [reflexivity|]. intros op.
    rewrite elem_of_select_ops by done. simpl.
    rewrite andb_true_iff, bool_decide_eq_true, Z.ltb_lt. done.
  - intros db u _. simpl. unfold pg_prompt_seen. f_equal. apply bool_decide_ext.
    unfold prompt_in, map_Exists. simpl. setoid_rewrite lookup_fmap_Some. naive_solver.
  - done.
  - intros db before started Hok. eexists. split; [reflexivity|]. split.
    + intros op. rewrite elem_of_select_ops by done. by intros [].
    + intros op Hop Hb Hw. apply elem_of_select_ops; [done|]. split; [done|].
      by apply exec_window_complete.
  - intros db c Hok. eexists. split; [reflexivity|]. intros op.
    rewrite elem_of_select_ops by done. simpl. by rewrite bool_decide_eq_true.
Qed.
End backend.
