(* ===== verification/Projection.v ===== *)
(** * The timeline writer

    [ingest/projection/write.rs]: how a batch's changes reach the tables, the
    batch transaction, the catch-up loop and the rebuild. A statement that
    breaks a primary or foreign key is an error, which rolls the batch back. *)

From S2P Require Import Prelude Text Json Events Runtime Render FileTouches Reducer ReducerSpec ReducerInv ReducerSim Store.

Definition REDUCER_VERSION : Z := 2.
Definition BATCH_EVENTS : Z := 500.
Definition TOUCHES_PER_OPERATION : Z := 1024.

(** ** One session as stored *)

(** The [LEFT JOIN] row of [load_file_touch_context]. *)
Record ContextRow : Type := mkContextRow {
  cr_repo : option string;
  cr_working_dir : option string;
  cr_repo_path : option string;
}.

Record Session : Type := mkSession {
  session_id : Uuid;
  purged : bool;
  session_agent : string;
  parent_session : option Uuid;
  ingest_path : option string;
  context_row : option ContextRow;
  events : gmap Z StoredEvent;
  db : Db;
}.

Definition with_db (d : Db) (s : Session) : Session :=
  mkSession (session_id s) (purged s) (session_agent s) (parent_session s) (ingest_path s)
    (context_row s) (events s) d.

(** [load_file_touch_context] *)
Definition load_file_touch_context (s : Session) : option FileTouchContext :=
  row ← context_row s;
  match cr_repo row, cr_working_dir row with
  | Some repo, Some dir => Some (mkContext repo (default dir (cr_repo_path row)) dir)
  | _, _ => None
  end.

Definition claude_subagent_parent (s : Session) : option Uuid :=
  if bool_decide (session_agent s = "claude-code") then
    parent ← parent_session s;
    path ← ingest_path s;
    if contains "/subagents/agent-" path then Some parent else None
  else None.

(** [load_session_events]: the events after a cursor, in byte order. *)
Definition ordered_events (ev : gmap Z StoredEvent) : list StoredEvent :=
  omap (λ offset, ev !! offset) (sorted_ids (dom ev)).

Definition pending (after : Z) (ev : gmap Z StoredEvent) : list StoredEvent :=
  List.filter (λ e, after <? byte_offset e) (ordered_events ev).

Definition load_session_events (after limit : Z) (s : Session) : list StoredEvent :=
  take (Z.to_nat (Z.max 1 (Z.min limit 5000))) (pending after (events s)).

(** ** Writing one row *)

Definition set_turns_table (t : gmap Z (TurnRow * string)) (d : Db) : Db :=
  mkDb (state_row d) t (items_table d) (operations_table d) (touches_table d) (usage_table d)
    (links_table d).
Definition set_items_table (t : gmap key2 TimelineChunk) (d : Db) : Db :=
  mkDb (state_row d) (turns_table d) t (operations_table d) (touches_table d) (usage_table d)
    (links_table d).
Definition set_operations_table (t : gmap key2 OpDbRow) (d : Db) : Db :=
  mkDb (state_row d) (turns_table d) (items_table d) t (touches_table d) (usage_table d)
    (links_table d).
Definition set_touches_table (t : gmap key2 (Z * TimelineFileTouch)) (d : Db) : Db :=
  mkDb (state_row d) (turns_table d) (items_table d) (operations_table d) t (usage_table d)
    (links_table d).
Definition set_usage_table (t : gmap string MessageUsage) (d : Db) : Db :=
  mkDb (state_row d) (turns_table d) (items_table d) (operations_table d) (touches_table d) t
    (links_table d).
Definition set_links_table (t : gset ChildLink) (d : Db) : Db :=
  mkDb (state_row d) (turns_table d) (items_table d) (operations_table d) (touches_table d)
    (usage_table d) t.
Definition set_state_row (row : option StateRow) (d : Db) : Db :=
  mkDb row (turns_table d) (items_table d) (operations_table d) (touches_table d)
    (usage_table d) (links_table d).

(** The foreign key to [timeline_turns]. *)
Definition require_turn (id : Z) (d : Db) : res unit :=
  if bool_decide (is_Some (turns_table d !! id)) then Ok ()
  else bail "violates foreign key constraint".

(** [ON CONFLICT (session_uuid, turn_id) DO UPDATE SET ...] *)
Definition merge_turn (old new : TurnRow) : TurnRow :=
  with_columns old (preview new) (end_timestamp new) (duration_ms new) (event_count new)
    (operation_count new) (thinking_count new) (has_errors new) (input_tokens new)
    (output_tokens new).

Definition upserted (turn : TurnRow) (old : option (TurnRow * string)) : TurnRow * string :=
  match old with
  | Some (old, markdown) => (merge_turn old turn, markdown)
  | None => (turn, "")
  end.

Definition upsert_turn (d : Db) (turn : TurnRow) : res Db :=
  Ok (set_turns_table
        (<[turn_id turn := upserted turn (turns_table d !! turn_id turn)]> (turns_table d)) d).

Definition insert_item (d : Db) (i : Z * Z * TimelineChunk) : res Db :=
  match items_table d !! i.1 with
  | Some _ => Ok d
  | None => _ ← require_turn i.1.1 d; Ok (set_items_table (<[i.1 := i.2]> (items_table d)) d)
  end.

Definition insert_operation (d : Db) (op : OpRow) : res Db :=
  match operations_table d !! key op with
  | Some _ => bail "duplicate key value violates unique constraint"
  | None =>
      _ ← require_turn (op_turn_id op) d;
      Ok (set_operations_table (<[key op := to_db op]> (operations_table d)) d)
  end.

(** The columns [update_operation] sets. *)
Definition updated_row (op : OpRow) (input_changed : bool) (row : OpDbRow) : OpDbRow :=
  mkOpDb (db_turn_id row) (db_operation_ord row) (db_pair_id row) (db_name row)
    (db_raw_name row) (db_operation_type row) (operation_category row)
    (if input_changed then input op else db_input row)
    (result_content op) (result_payload op) (result_is_error op) (is_error op)
    (is_pending op) (db_call_offset row) (db_call_at row) (changed_at op) (call_error op)
    (running op) (finished_at op).

Definition update_operation (d : Db) (op : OpRow) (input_changed : bool) : res Db :=
  Ok (set_operations_table (alter (updated_row op input_changed) (key op) (operations_table d)) d).

(** [refresh_operation_sources] reads the operation back with [fetch_one]; the
    retrieval rows it writes are not part of the timeline. *)
Definition refresh_operation_sources (d : Db) (op : OpRow) : res Db :=
  match operations_table d !! key op with
  | Some _ => Ok d
  | None => bail "no rows returned by a query that expected to return at least one row"
  end.

Definition touch_ord (operation_ord : Z) (index : nat) : Z :=
  wrap32 (wrap32 (operation_ord * TOUCHES_PER_OPERATION) + Z.of_nat index).

Definition insert_touch (turn_id operation_ord : Z) (d : Db) (t : nat * TimelineFileTouch)
    : res Db :=
  let k : key2 := (turn_id, touch_ord operation_ord t.1) in
  match touches_table d !! k with
  | Some _ => bail "duplicate key value violates unique constraint"
  | None =>
      _ ← require_turn turn_id d;
      Ok (set_touches_table (<[k := (operation_ord, t.2)]> (touches_table d)) d)
  end.

Definition numbered {A} (l : list A) : list (nat * A) := zip (seq 0 (length l)) l.

Definition clear_touches (turn_id operation_ord : Z) (d : Db) : Db :=
  set_touches_table
    (filter (λ kv, ¬ (kv.1.1 = turn_id ∧ kv.2.1 = operation_ord)) (touches_table d)) d.

Definition replace_file_touches (d : Db) (t : Z * Z * list TimelineFileTouch) : res Db :=
  let '(turn_id, operation_ord, touches) := t in
  try_fold (insert_touch turn_id operation_ord)
    (take (Z.to_nat TOUCHES_PER_OPERATION) (numbered touches))
    (clear_touches turn_id operation_ord d).

Definition record_usage (d : Db) (u : string * MessageUsage) : res Db :=
  Ok (set_usage_table (<[u.1 := u.2]> (usage_table d)) d).

Definition record_link (d : Db) (l : ChildLink) : res Db :=
  Ok (set_links_table ({[l]} ∪ links_table d) d).

Definition persist (changes : Changes) (d : Db) : res Db :=
  d ← try_fold upsert_turn (ch_turns changes) d;
  d ← try_fold insert_item (ch_items changes) d;
  d ← try_fold (λ d op, d ← insert_operation d op; refresh_operation_sources d op)
        (ch_new_ops changes) d;
  d ← try_fold (λ d u, d ← update_operation d u.1 u.2; refresh_operation_sources d u.1)
        (ch_updated_ops changes) d;
  d ← try_fold replace_file_touches (ch_touches changes) d;
  d ← try_fold record_usage (ch_usage changes) d;
  try_fold record_link (ch_links changes) d.

(** ** The batch *)

Definition cleared_row (revision : Z) : StateRow :=
  mkStateRow revision REDUCER_VERSION default_state true.

(** Deleting the turns deletes their items, operations and touches. *)
Definition clear_projection (d : Db) : Db :=
  mkDb (state_row d) ∅ ∅ ∅ ∅ ∅ (links_table d).

Record BatchOutcome : Type := mkOutcome { applied : Z; more : bool }.

Section writer.
Context `{HeapOrder OpDbRow} (parse_uuid : string → option Uuid) (fs : Fs).

(** Locking the state row, and clearing what another reducer version built. *)
Definition locked_row (d : Db) : StateRow * Db :=
  let row := default (mkStateRow 0 0 default_state false) (state_row d) in
  if bool_decide (projection_version row = REDUCER_VERSION)
  then (row, set_state_row (Some row) d)
  else
    let row := cleared_row (wrap64 (revision row + 1)) in
    (row, set_state_row (Some row) (clear_projection d)).

(** The reducer's run over a batch, and what it leaves in the tables. *)
Definition apply_batch (s : Session) (row : StateRow) (batch : list StoredEvent) (d : Db)
    : res Db :=
  let reducer := new_reducer d (session_id s) (row_state row) (load_file_touch_context s)
                   (claude_subagent_parent s) in
  '(_, reducer) ← for_each batch (apply parse_uuid) reducer;
  let changes := into_changes fs reducer in
  let revision := if changes_is_empty changes then revision row
                  else wrap64 (revision row + 1) in
  d ← persist changes d;
  Ok (set_state_row
        (Some (mkStateRow revision (projection_version row) (ch_state changes)
                 (reconcile_sources row))) d).

Definition project_batch (s : Session) (budget : Z) : res (Session * BatchOutcome) :=
  if purged s then Ok (s, mkOutcome 0 false)
  else
    let '(row, d) := locked_row (db s) in
    let batch := load_session_events (projected_through (row_state row)) budget s in
    let n := Z.of_nat (length batch) in
    let more := budget <=? n in
    d ← (match batch with
         | [] => Ok d
         | _ => apply_batch s row batch d
         end);
    let d := if negb more && reconcile_sources row
             then set_state_row ((λ row, mkStateRow (revision row) (projection_version row)
                                           (row_state row) false) <$> state_row d) d
             else d in
    Ok (with_db d s, mkOutcome n more).

(** The loop of [project_until_caught_up]. *)
Fixpoint catch_up (fuel : nat) (s : Session) (total : Z) : option (res (Session * Z)) :=
  match fuel with
  | O => None
  | S fuel =>
      match project_batch s BATCH_EVENTS with
      | Err e => Some (Err e)
      | Ok (s, o) => if more o then catch_up fuel s (total + applied o)
                     else Some (Ok (s, total + applied o))
      end
  end.

Definition request_rebuild (s : Session) : Session :=
  with_db (set_state_row ((λ row, mkStateRow (revision row) 0 (row_state row)
                                    (reconcile_sources row)) <$> state_row (db s)) (db s)) s.

Definition rebuild_session_projection (fuel : nat) (s : Session) : option (res (Session * Z)) :=
  if purged s then Some (Ok (s, 0))
  else
    r ← catch_up fuel (request_rebuild s) 0;
    Some (match r with
          | Ok (s, _) => Ok (s, turn_count (stored_state (db s)))
          | Err e => Err e
          end).
End writer.
