(* ===== verification/Commit.v ===== *)
(** * Persisting a batch commits exactly the abstract timeline

    The changes the reducer hands over, written statement by statement by
    [Projection.persist], leave the tables holding the timeline that
    [ReducerSpec.steps] computes; no statement fails. Then what [Projection]'s
    entry points promise: a batch advances the stored timeline by exactly the
    abstract steps of its events, so neither batch boundaries nor restarts
    are visible, catching up terminates, and a rebuild reproduces the
    incremental rows. *)

From S2P Require Import Prelude Text Json Events Runtime Render FileTouches Reducer ReducerSpec ReducerInv ReducerSim Store Projection.

(** ** Loops over one table *)

(** A table of [Db]: how it is read and replaced. *)
Record Field {T} (get : Db → T) (set : T → Db → Db) : Prop := {
  field_get t d : get (set t d) = t;
  field_set t t' d : set t (set t' d) = set t d;
  field_same d : set (get d) d = d;
}.

Ltac field := split; [done|done|by intros []].

Lemma turns_field : Field turns_table set_turns_table. Proof. field. Qed.
Lemma items_field : Field items_table set_items_table. Proof. field. Qed.
Lemma operations_field : Field operations_table set_operations_table. Proof. field. Qed.
Lemma touches_field : Field touches_table set_touches_table. Proof. field. Qed.
Lemma usage_field : Field usage_table set_usage_table. Proof. field. Qed.
Lemma links_field : Field links_table set_links_table. Proof. field. Qed.

Section loops.
Context {T A : Type} (get : Db → T) (set : T → Db → Db) (HF : Field get set).

(** A loop whose every step succeeds updates only its table. [P] is what a
    step needs of the elements still to come. *)
Lemma try_fold_field (step : Db → A → res Db) (g : T → A → T) (P : T → list A → Prop)
    (l : list A) (d : Db) :
  (∀ t a l, P t (a :: l) → step (set t d) a = Ok (set (g t a) d) ∧ P (g t a) l) →
  P (get d) l → try_fold step l d = Ok (set (foldl g (get d) l) d).
Proof.
  intros Hstep HP. rewrite <-(field_same _ _ HF d) at 1. generalize dependent (get d).
  induction l as [|a l IH]; intros t HP; simpl; [done|].
  destruct (Hstep _ _ _ HP) as [-> HP']. simpl. by apply IH.
Qed.
End loops.

Section upserts.
Context {K V A : Type} `{Countable K}.
Context (get : Db → gmap K V) (set : gmap K V → Db → Db) (HF : Field get set).
Context (kf : A → K) (f : A → option V → V) (Pre : A → option V → Prop).

(** A loop that stores each element under its own key. *)
Lemma try_fold_upsert (step : Db → A → res Db) (l : list A) (d : Db) :
  (∀ t a, a ∈ l → Pre a (t !! kf a) →
          step (set t d) a = Ok (set (<[kf a := f a (t !! kf a)]> t) d)) →
  NoDup (kf <$> l) → (∀ a, a ∈ l → Pre a (get d !! kf a)) →
  try_fold step l d = Ok (set (upsert_all kf f l (get d)) d).
Proof.
  intros Hstep Hnd Hpre. unfold upsert_all.
  apply (try_fold_field _ _ HF _ _ (λ t l', NoDup (kf <$> l') ∧
           ∀ a, a ∈ l' → a ∈ l ∧ Pre a (t !! kf a))); [|by split; [|split; [|apply Hpre]]].
  intros t a l' [Hnd' Hl']. rewrite fmap_cons, NoDup_cons in Hnd'.
  destruct Hnd' as [Ha Hnd']. split; [apply Hstep; by apply Hl'; left|].
  split; [done|]. intros b Hb. destruct (Hl' b) as [Hin Hp]; [by right|]. split; [done|].
  rewrite lookup_insert_ne; [done|]. intros E. apply Ha. rewrite E.
  by apply list_elem_of_fmap_2.
Qed.
End upserts.

Lemma foldl_insert_if_absent_in l m i :
  i ∈ l → is_Some (foldl insert_if_absent m l !! i.1).
Proof.
  assert (∀ l m k, is_Some (m !! k) → is_Some (foldl insert_if_absent m l !! k)) as Hmono.
  { clear. induction l as [|j l IH]; intros m k Hk; simpl; [done|]. apply IH.
    unfold insert_if_absent. destruct (m !! j.1) eqn:E; [done|].
    apply lookup_insert_is_Some'. by right. }
  revert m. induction l as [|j l IH]; intros m; [by intros ?%elem_of_nil|].
  intros [->|Hin]%elem_of_cons; simpl; [|by apply IH].
  apply Hmono. unfold insert_if_absent. destruct (m !! j.1) eqn:E; [by eexists|].
  by rewrite lookup_insert_eq.
Qed.

(** ** Ids and keys in order *)

(** The rows found under distinct keys that they carry have distinct keys. *)
Lemma NoDup_found {K V} `{Countable K} (kf : V → K) (m : gmap K V) (l : list K) :
  (∀ k v, m !! k = Some v → kf v = k) → NoDup l → NoDup (kf <$> omap (λ k, m !! k) l).
Proof.
  intros Hk. induction l as [|k l IH]; intros Hnd; simpl; [constructor|].
  apply NoDup_cons in Hnd as [Hnk Hnd]. destruct (m !! k) as [v|] eqn:E; [|by apply IH].
  rewrite fmap_cons. constructor; [|by apply IH].
  rewrite (Hk _ _ E). intros (v' & -> & (k' & Hin & E')%list_elem_of_omap)%list_elem_of_fmap.
  apply Hnk. by rewrite (Hk _ _ E').
Qed.

(** ** File touches *)

(** Touches depend on the call's identity and input only. *)
Lemma extract_frozen fs a b ctx :
  op_frozen a = op_frozen b → input a = input b →
  extract_file_touches fs (op_pair a) ctx = extract_file_touches fs (op_pair b) ctx.
Proof.
  destruct a, b. unfold op_frozen, key. simpl.
  intros [= -> -> -> -> -> -> -> -> ->] ->. done.
Qed.

(** The touch row an operation's touches put under [k]. *)
Definition touch_row (touches : list TimelineFileTouch) (ord m : Z)
    : option (Z * TimelineFileTouch) :=
  pair ord <$> take (Z.to_nat TOUCHES_PER_OPERATION) touches !! Z.to_nat (m mod 1024).

(** The touch rows of a timeline: every operation's, numbered from 1024 times
    its ordinal. *)
Definition touches_at (fs : Fs) (ctx : option FileTouchContext) (o : gmap key2 OpRow)
    (k : key2) : option (Z * TimelineFileTouch) :=
  op ← o !! ((k.1, k.2 / 1024) : key2);
  touch_row (extract_file_touches fs (op_pair op) ctx) (k.2 / 1024) k.2.

(** What naming the touches of a call looks at: the file system of the moment
    and the context of the session's terminal. Both may change between two
    batches. *)
Abbreviation TouchView := (Fs * option FileTouchContext)%type.

(** Each operation's rows are those named at one moment a batch ran at. *)
Definition touches_ok (seen : TouchView → Prop) (d : Db) : Prop :=
  ∀ id : key2, ∃ v : TouchView, (is_Some (tl_ops (rows d) !! id) → seen v) ∧
    ∀ k : key2, (k.1, k.2 / 1024) = id →
      touches_table d !! k = touches_at v.1 v.2 (tl_ops (rows d)) k.

(** Where every batch ran at the same moment, the rows are those of it. *)
Lemma touches_ok_exact v d : touches_ok (eq v) d →
  ∀ k, touches_table d !! k = touches_at v.1 v.2 (tl_ops (rows d)) k.
Proof.
  intros HT k. destruct (HT (k.1, k.2 / 1024)) as (w & Hw & ->); [|done].
  unfold touches_at. destruct (tl_ops (rows d) !! _) as [op|]; [|done].
  by rewrite <-(Hw ltac:(by eexists)).
Qed.

Lemma touches_ok_mono (seen seen' : TouchView → Prop) d :
  (∀ v, seen v → seen' v) → touches_ok seen d → touches_ok seen' d.
Proof. intros Hs HT id. destruct (HT id) as (v & Hv & Hk). exists v. split; [auto|done]. Qed.

(** Each touch row is numbered within its operation's block. *)
Definition blocks_ok (t : gmap key2 (Z * TimelineFileTouch)) : Prop :=
  ∀ k row, t !! k = Some row → row.1 = k.2 / 1024.

Lemma touches_ok_blocks seen d : touches_ok seen d → blocks_ok (touches_table d).
Proof.
  intros HT k row. destruct (HT (k.1, k.2 / 1024)) as (v & _ & ->); [|done]. unfold touches_at, touch_row. intros (op & _ & E)%bind_Some.
  by apply fmap_Some in E as (t & _ & ->).
Qed.

Lemma touch_ord_eq ord i :
  0 ≤ ord < op_cap → (i < 1024)%nat → touch_ord ord i = ord * 1024 + Z.of_nat i.
Proof.
  intros Ho Hi. unfold touch_ord, TOUCHES_PER_OPERATION, op_cap in *.
  rewrite (wrap32_id (ord * 1024)) by lia. apply wrap32_id. lia.
Qed.

Lemma touch_block ord i : (i < 1024)%nat → (ord * 1024 + Z.of_nat i) / 1024 = ord.
Proof.
  intros Hi. rewrite Z.div_add_l by lia. rewrite Z.div_small by lia. lia.
Qed.

Lemma touch_index ord i : (i < 1024)%nat → (ord * 1024 + Z.of_nat i) mod 1024 = Z.of_nat i.
Proof. intros Hi. rewrite Z.add_comm, Z.mod_add, Z.mod_small by lia. done. Qed.

Lemma numbered_lookup {A} (l : list A) i :
  numbered l !! i = pair i <$> l !! i.
Proof.
  unfold numbered. rewrite lookup_zip_with. destruct (l !! i) as [a|] eqn:E; simpl.
  - rewrite lookup_seq_lt by by apply lookup_lt_Some in E. done.
  - by destruct (seq 0 (length l) !! i).
Qed.

Lemma take_numbered {A} n (l : list A) : take n (numbered l) = numbered (take n l).
Proof.
  apply list_eq. intros i. rewrite numbered_lookup.
  destruct (decide (i < n)%nat) as [Hi|Hi].
  - by rewrite !lookup_take_lt, numbered_lookup.
  - by rewrite !lookup_take_ge by lia.
Qed.

(** The table after one operation's touches were replaced. *)
Definition replaced (x : Z * Z * list TimelineFileTouch) (t : gmap key2 (Z * TimelineFileTouch))
    : gmap key2 (Z * TimelineFileTouch) :=
  upsert_all (λ y, (x.1.1, touch_ord x.1.2 y.1) : key2) (λ y _, (x.1.2, y.2))
    (numbered (take (Z.to_nat TOUCHES_PER_OPERATION) x.2))
    (filter (λ kv, ¬ (kv.1.1 = x.1.1 ∧ kv.2.1 = x.1.2)) t).

Lemma replace_file_touches_eq d x :
  replace_file_touches d x =
  try_fold (insert_touch x.1.1 x.1.2)
    (take (Z.to_nat TOUCHES_PER_OPERATION) (numbered x.2)) (clear_touches x.1.1 x.1.2 d).
Proof. by destruct x as [[] ?]. Qed.

Section replaced.
Context (x : Z * Z * list TimelineFileTouch) (Hord : 0 ≤ x.1.2 < op_cap).
Implicit Types t : gmap key2 (Z * TimelineFileTouch).

Local Abbreviation kf := (λ y : nat * TimelineFileTouch, (x.1.1, touch_ord x.1.2 y.1) : key2).
Local Abbreviation rows_in := (numbered (take (Z.to_nat TOUCHES_PER_OPERATION) x.2)).

Lemma elem_of_rows_in y :
  y ∈ rows_in ↔ (y.1 < 1024)%nat ∧ x.2 !! y.1 = Some y.2.
Proof.
  rewrite list_elem_of_lookup. setoid_rewrite numbered_lookup. split.
  - intros (i & (t & E & ->)%fmap_Some). simpl. by apply lookup_take_Some in E as [? ?].
  - intros [Hi E]. exists y.1. rewrite lookup_take_lt by done. rewrite E. by destruct y.
Qed.

Lemma rows_in_NoDup : NoDup (kf <$> rows_in).
Proof.
  apply NoDup_alt. intros i j k. rewrite !list_lookup_fmap, !numbered_lookup.
  intros Hi Hj. destruct (take _ _ !! i) as [t|] eqn:Ei; [|done].
  destruct (take _ _ !! j) as [t'|] eqn:Ej; [|done]. simpl in *.
  apply lookup_take_Some in Ei as [_ Hi']. apply lookup_take_Some in Ej as [_ Hj'].
  unfold TOUCHES_PER_OPERATION in *. rewrite touch_ord_eq in Hi, Hj by (done || lia).
  assert (x.1.2 * 1024 + Z.of_nat i = x.1.2 * 1024 + Z.of_nat j) by congruence. lia.
Qed.

Lemma lookup_replaced t k :
  blocks_ok t →
  replaced x t !! k =
    if bool_decide (k.1 = x.1.1 ∧ k.2 / 1024 = x.1.2) then touch_row x.2 x.1.2 k.2 else t !! k.
Proof.
  intros HB. unfold replaced. set (t0 := filter _ t).
  assert (Ht0 : t0 !! k = if bool_decide (k.1 = x.1.1 ∧ k.2 / 1024 = x.1.2) then None else t !! k).
  { destruct (t !! k) as [row|] eqn:E.
    - case_bool_decide as Hk.
      + apply map_lookup_filter_None. right. intros row'. rewrite E. intros [= <-] Hn.
        apply Hn. simpl. by rewrite (HB _ _ E).
      + apply map_lookup_filter_Some. split; [done|]. simpl. by rewrite (HB _ _ E).
    - transitivity (@None (Z * TimelineFileTouch)); [|by case_bool_decide].
      apply map_lookup_filter_None. by left. }
  destruct (decide (k ∈ kf <$> rows_in)) as [(y & -> & Hy)%list_elem_of_fmap|Hk].
  - rewrite (lookup_upsert_all kf (λ y _, (x.1.2, y.2)) y _ _ rows_in_NoDup Hy).
    apply elem_of_rows_in in Hy as [Hi E]. cbn [fst snd].
    rewrite touch_ord_eq, touch_block by done. rewrite bool_decide_true by done.
    unfold touch_row. rewrite touch_index by done. rewrite Nat2Z.id.
    rewrite lookup_take_lt by done. by rewrite E.
  - rewrite lookup_upsert_all_ne by done. etransitivity; [exact Ht0|].
    case_bool_decide as Hb; [|done]. destruct Hb as [H1 H2]. symmetry.
    unfold touch_row. apply fmap_None. destruct (take _ _ !! _) as [touch|] eqn:E; [|done].
    destruct Hk. apply lookup_take_Some in E as [E Hi].
    pose proof (Z.mod_pos_bound k.2 1024). pose proof (Z.div_mod k.2 1024).
    apply list_elem_of_fmap. exists (Z.to_nat (k.2 mod 1024), touch).
    split; [|by apply elem_of_rows_in]. destruct k as [k1 k2]. simpl in *.
    rewrite touch_ord_eq by (done || lia). f_equal; lia.
Qed.

Lemma blocks_ok_replaced t : blocks_ok t → blocks_ok (replaced x t).
Proof.
  intros HB k row. rewrite lookup_replaced by done. case_bool_decide as Hb; [|apply HB].
  unfold touch_row. intros (touch & _ & ->)%fmap_Some. simpl. by destruct Hb as [_ ->].
Qed.

Lemma replace_file_touches_Ok t d :
  blocks_ok t → is_Some (turns_table d !! x.1.1) →
  replace_file_touches (set_touches_table t d) x = Ok (set_touches_table (replaced x t) d).
Proof.
  intros HB Hturn. rewrite replace_file_touches_eq, take_numbered.
  rewrite (try_fold_upsert touches_table set_touches_table touches_field kf
    (λ y _, (x.1.2, y.2)) (λ _ old, old = None)); [done| |apply rows_in_NoDup|].
  - intros t' y _ Hn. unfold insert_touch. simpl. rewrite Hn.
    unfold require_turn. simpl. by rewrite bool_decide_true.
  - intros y [Hi _]%elem_of_rows_in. simpl. apply map_lookup_filter_None. right.
    intros row E Hn. apply Hn. simpl. split; [done|]. rewrite (HB _ _ E). simpl.
    rewrite touch_ord_eq by done. by apply touch_block.
Qed.
End replaced.

(** A loop of replacements: each listed operation's block is its touches. *)
Section replaced_all.
Implicit Types l : list (Z * Z * list TimelineFileTouch).
Implicit Types t : gmap key2 (Z * TimelineFileTouch).

Definition ords_ok l : Prop := ∀ x, x ∈ l → 0 ≤ x.1.2 < op_cap.
Definition replaced_all l t := foldl (λ t x, replaced x t) t l.

Lemma lookup_replaced_all_ne l t k :
  blocks_ok t → ords_ok l → (k.1, k.2 / 1024) ∉ l.*1 → replaced_all l t !! k = t !! k.
Proof.
  unfold replaced_all. revert t. induction l as [|x l IH]; intros t HB Ho Hk; simpl; [done|].
  rewrite fmap_cons, not_elem_of_cons in Hk. destruct Hk as [Hx Hk].
  assert (0 ≤ x.1.2 < op_cap) as Hord by (apply Ho; by left).
  rewrite IH; [|by apply blocks_ok_replaced|intros ??; apply Ho; by right|done].
  rewrite lookup_replaced by done. rewrite bool_decide_false; [done|].
  intros [E1 E2]. apply Hx. destruct x as [[] ?]. simpl in *. congruence.
Qed.

Lemma lookup_replaced_all l t x k :
  blocks_ok t → ords_ok l → NoDup l.*1 → x ∈ l → (k.1, k.2 / 1024) = x.1 →
  replaced_all l t !! k = touch_row x.2 x.1.2 k.2.
Proof.
  unfold replaced_all. revert t. induction l as [|y l IH]; intros t HB Ho Hnd Hin Hk;
    [by apply elem_of_nil in Hin|].
  rewrite fmap_cons, NoDup_cons in Hnd. destruct Hnd as [Hy Hnd].
  assert (0 ≤ y.1.2 < op_cap) as Hord by (apply Ho; by left).
  assert (ords_ok l) as Hol by (intros ??; apply Ho; by right).
  apply elem_of_cons in Hin as [->|Hin]; simpl; [|apply IH; auto using blocks_ok_replaced].
  fold (replaced_all l (replaced y t)).
  rewrite lookup_replaced_all_ne; [|by apply blocks_ok_replaced|done|by rewrite Hk].
  rewrite lookup_replaced by done. rewrite bool_decide_true; [done|]. by rewrite <-Hk.
Qed.
End replaced_all.

Section commit.
Context `{HeapOrder OpDbRow} (fs : Fs).
Context (d0 : Db) (self : Uuid) (ctx : option FileTouchContext) (child : option Uuid).
Context (base_ok : db_ok d0).
Context (seen : TouchView → Prop) (Hseen : seen (fs, ctx)).
Implicit Types r : Reducer Db.
Implicit Types tl : Timeline.

Local Abbreviation base := (rows d0).
Local Abbreviation inv := (Inv (rows := rows) d0 self ctx child).

Lemma db_ok_table d : db_ok d → operations_table d = to_db <$> tl_ops (rows d).
Proof.
  intros Hok. apply map_eq. intros k. simpl. rewrite !lookup_fmap.
  destruct (operations_table d !! k) as [row|] eqn:E; [|done].
  destruct (Hok _ _ E) as (op & -> & _). simpl. by rewrite from_to_db.
Qed.

(** *** Turns *)

Lemma merge_turn_frozen old new :
  turn_frozen new = turn_frozen old → merge_turn old new = new.
Proof.
  destruct old, new. unfold turn_frozen, merge_turn, with_columns. simpl.
  intros [= -> -> -> -> -> -> -> ->]. done.
Qed.

Lemma persist_turns n r tl d :
  inv n None r tl → 0 ≤ n → turns_table d = turns_table d0 →
  ∃ t, try_fold upsert_turn (ch_turns (into_changes fs r)) d = Ok (set_turns_table t d) ∧
       fst <$> t = tl_turns tl.
Proof.
  intros HI Hn Ht. pose proof (i_turns _ _ _ _ _ _ _ _ HI) as HT.
  assert (Hid : ∀ id t, turns r !! id = Some t → turn_id t = id).
  { intros id t E. by apply (wf_turn _ _ (i_wf _ _ _ _ _ _ _ _ HI)), (Inv_loaded _ _ _ _ _ _ _ _ _ _ HI). }
  simpl. set (l := omap _ _).
  assert (Hnd : NoDup (turn_id <$> l)) by (apply NoDup_found; [done|apply sorted_ids_NoDup]).
  exists (upsert_all turn_id upserted l (turns_table d)). split.
  { apply (try_fold_upsert _ _ turns_field turn_id upserted (λ _ _, True)); done. }
  apply map_eq. intros id. rewrite lookup_fmap, Ht.
  destruct (decide (id ∈ dirty_turns r)) as [Hd|Hd].
  - pose proof (t_dirty _ _ _ _ HT _ Hd) as [t Et]%elem_of_dom.
    assert (t ∈ l) as Hin.
    { apply list_elem_of_omap. exists id. by rewrite elem_of_sorted_ids. }
    pose proof (lookup_upsert_all turn_id upserted t l (turns_table d0) Hnd Hin) as Hu.
    rewrite (Hid _ _ Et) in Hu. rewrite Hu. simpl.
    rewrite (turns_ok_cached _ _ _ _ _ _ HT Et). unfold upserted.
    pose proof (t_cache _ _ _ _ HT _ _ Et) as Hc. simpl in Hc. rewrite lookup_fmap in Hc.
    destruct (turns_table d0 !! id) as [[old md]|]; simpl in *; [|done].
    by rewrite merge_turn_frozen by apply Hc.
  - rewrite lookup_upsert_all_ne.
    2:{ intros (t & -> & (id' & Hin & E)%list_elem_of_omap)%list_elem_of_fmap.
        rewrite (Hid _ _ E) in Hd. by apply Hd, elem_of_sorted_ids. }
    destruct (turns r !! id) as [t|] eqn:Et.
    + rewrite (turns_ok_cached _ _ _ _ _ _ HT Et).
      pose proof (t_cache _ _ _ _ HT _ _ Et) as Hc. simpl in Hc. rewrite lookup_fmap in Hc.
      destruct (turns_table d0 !! id) as [[old md]|]; simpl in *; [|done].
      destruct Hc as (_ & [?| ->]); done.
    + rewrite (turns_ok_uncached _ _ _ _ _ HT Et). simpl. by rewrite lookup_fmap.
Qed.

(** *** Items *)

Lemma require_turn_Ok d id : is_Some (turns_table d !! id) → require_turn id d = Ok ().
Proof. intros Hid. unfold require_turn. by rewrite bool_decide_true. Qed.

Lemma turns_table_in d t id :
  fst <$> turns_table d = t → is_Some (t !! id) → is_Some (turns_table d !! id).
Proof. intros <-. by rewrite lookup_fmap, fmap_is_Some. Qed.

Lemma persist_items n r tl d :
  inv n None r tl → fst <$> turns_table d = tl_turns tl → items_table d = items_table d0 →
  try_fold insert_item (items r) d = Ok (set_items_table (tl_items tl) d).
Proof.
  intros HI Ht Hi. rewrite (i_items _ _ _ _ _ _ _ _ HI). simpl. rewrite <-Hi.
  apply (try_fold_field _ _ items_field _ _ (λ _ l, ∀ i, i ∈ l → is_Some (turns_table d !! i.1.1))).
  - intros t i l Hl. split; [|intros; apply Hl; by right].
    unfold insert_item, insert_if_absent. simpl. destruct (t !! i.1); [done|].
    rewrite require_turn_Ok by (simpl; apply Hl; by left). done.
  - intros i Hin. eapply turns_table_in; [done|].
    destruct (foldl_insert_if_absent_in (items r) (tl_items base) i Hin) as [c Hc].
    rewrite <-(i_items _ _ _ _ _ _ _ _ HI) in Hc.
    by apply (wf_item _ _ (i_wf _ _ _ _ _ _ _ _ HI) _ _ Hc).
Qed.

(** *** Operations *)

Lemma found_key (m : gmap key2 OpRow) s op :
  (∀ k op, m !! k = Some op → key op = k) → op ∈ ops_at m s → key op ∈ s ∧ m !! key op = Some op.
Proof. intros Hk (k & Hin & E)%elem_of_ops_at. by rewrite (Hk _ _ E). Qed.

Lemma ops_cache_key n r tl k op :
  inv n None r tl → ops r !! k = Some op → key op = k.
Proof. intros HI E. by apply (o_cache _ _ _ _ _ _ _ _ (i_ops _ _ _ _ _ _ _ _ HI)) in E as []. Qed.

Definition store_op (op : OpRow) (_ : option OpDbRow) : OpDbRow := to_db op.
Definition restore_op (u : OpRow * bool) (old : option OpDbRow) : OpDbRow :=
  default (to_db u.1) (updated_row u.1 u.2 <$> old).

Lemma persist_new_ops n r tl d :
  inv n None r tl → fst <$> turns_table d = tl_turns tl →
  operations_table d = operations_table d0 →
  try_fold (λ d op, d ← insert_operation d op; refresh_operation_sources d op)
    (ops_at (ops r) (new_ops r)) d =
  Ok (set_operations_table
        (upsert_all key store_op (ops_at (ops r) (new_ops r)) (operations_table d0)) d).
Proof.
  intros HI Ht Ho. rewrite <-Ho. pose proof (i_ops _ _ _ _ _ _ _ _ HI) as HO.
  apply (try_fold_upsert _ _ operations_field key store_op (λ _ old, old = None)).
  - intros t op (Hin & E)%(found_key _ _ _ (λ k op, ops_cache_key _ _ _ k op HI)) Hn.
    unfold insert_operation. simpl. rewrite Hn, require_turn_Ok.
    + simpl. unfold refresh_operation_sources. simpl. by rewrite lookup_insert_eq.
    + simpl. eapply turns_table_in; [done|].
      destruct (wf_fit _ _ (i_wf _ _ _ _ _ _ _ _ HI) (key op) op) as (t' & Et & _); [|by exists t'].
      by apply (ops_ok_cached _ _ _ _ _ _ _ _ _ _ HO).
  - apply NoDup_found; [intros; by eapply ops_cache_key|apply sorted_keys_NoDup].
  - intros op (Hin & E)%(found_key _ _ _ (λ k op, ops_cache_key _ _ _ k op HI)).
    rewrite Ho, (db_ok_table _ base_ok), lookup_fmap.
    destruct (o_cache _ _ _ _ _ _ _ _ HO _ _ E) as [_ Hc].
    destruct (tl_ops base !! key op); [by destruct Hc|done].
Qed.

Definition ch_updates (r : Reducer Db) : list (OpRow * bool) :=
  (λ op, (op, bool_decide (key op ∈ input_changed r))) <$> ops_at (ops r) (updated_ops r ∖ new_ops r).

Lemma elem_of_ch_updates n r tl u :
  inv n None r tl → u ∈ ch_updates r →
  key u.1 ∈ updated_ops r ∧ key u.1 ∉ new_ops r ∧ ops r !! key u.1 = Some u.1 ∧
  u.2 = bool_decide (key u.1 ∈ input_changed r) ∧
  ∃ op0, tl_ops base !! key u.1 = Some op0 ∧ op_frozen u.1 = op_frozen op0 ∧
         (u.2 = true ∨ input u.1 = input op0).
Proof.
  intros HI (op & -> & (Hin & E)%(found_key _ _ _ (λ k op, ops_cache_key _ _ _ k op HI)))%list_elem_of_fmap.
  cbn [fst snd]. apply elem_of_difference in Hin as [Hu Hn].
  destruct (o_cache _ _ _ _ _ _ _ _ (i_ops _ _ _ _ _ _ _ _ HI) _ _ E) as [_ Hc].
  destruct (tl_ops base !! key op) as [op0|]; [|by destruct Hc].
  destruct Hc as (_ & Hf & _ & Hi). split_and!; try done. exists op0. split_and!; [done|done|].
  rewrite bool_decide_eq_true. done.
Qed.

Lemma ch_updates_NoDup n r tl :
  inv n None r tl → NoDup ((λ u : OpRow * bool, key u.1) <$> ch_updates r).
Proof.
  intros HI. unfold ch_updates. rewrite <-list_fmap_compose.
  apply (NoDup_found key); [intros; by eapply ops_cache_key|apply sorted_keys_NoDup].
Qed.

Lemma persist_updated_ops n r tl d :
  inv n None r tl →
  (∀ u, u ∈ ch_updates r → is_Some (operations_table d !! key u.1)) →
  try_fold (λ d u, d ← update_operation d u.1 u.2; refresh_operation_sources d u.1)
    (ch_updates r) d =
  Ok (set_operations_table
        (upsert_all (λ u, key u.1) restore_op (ch_updates r) (operations_table d)) d).
Proof.
  intros HI Hin.
  apply (try_fold_upsert _ _ operations_field (λ u : OpRow * bool, key u.1) restore_op
           (λ _ old, is_Some old)).
  - intros t u _ [row Hrow]. unfold update_operation. simpl.
    assert (alter (updated_row u.1 u.2) (key u.1) t =
            <[key u.1 := restore_op u (t !! key u.1)]> t) as ->.
    { unfold restore_op. rewrite Hrow. simpl. apply map_eq. intros k.
      destruct (decide (key u.1 = k)) as [<-|].
      - by rewrite lookup_alter_eq, lookup_insert_eq, Hrow.
      - by rewrite lookup_alter_ne, lookup_insert_ne. }
    unfold refresh_operation_sources. simpl. by rewrite lookup_insert_eq.
  - by eapply ch_updates_NoDup.
  - done.
Qed.

Lemma updated_row_frozen op op0 flag :
  op_frozen op = op_frozen op0 → (flag = true ∨ input op = input op0) →
  updated_row op flag (to_db op0) = to_db op.
Proof.
  destruct op, op0. unfold op_frozen, key, updated_row, to_db. simpl.
  intros [= -> -> -> -> -> -> -> -> ->] Hi. destruct flag; [done|].
  by destruct Hi as [?| ->].
Qed.

Lemma persist_ops n r tl d :
  inv n None r tl → fst <$> turns_table d = tl_turns tl →
  operations_table d = operations_table d0 →
  (d' ← try_fold (λ d op, d ← insert_operation d op; refresh_operation_sources d op)
          (ch_new_ops (into_changes fs r)) d;
   try_fold (λ d u, d ← update_operation d u.1 u.2; refresh_operation_sources d u.1)
     (ch_updated_ops (into_changes fs r)) d') =
  Ok (set_operations_table (to_db <$> tl_ops tl) d).
Proof.
  intros HI Ht Ho. cbn [ch_new_ops ch_updated_ops into_changes].
  rewrite (persist_new_ops n r tl d HI Ht Ho). cbn [mbind res_bind].
  fold (ch_updates r). pose proof (i_ops _ _ _ _ _ _ _ _ HI) as HO.
  pose proof (λ k op, ops_cache_key n r tl k op HI) as Hkey.
  assert (Hnew : ∀ k, k ∉ new_ops r →
    upsert_all key store_op (ops_at (ops r) (new_ops r)) (operations_table d0) !! k =
    to_db <$> tl_ops base !! k).
  { intros k Hk. rewrite lookup_upsert_all_ne; [by rewrite (db_ok_table _ base_ok), lookup_fmap|].
    intros (op & -> & (? & _)%(found_key _ _ _ Hkey))%list_elem_of_fmap. done. }
  rewrite (persist_updated_ops n r tl); [|done|].
  2:{ intros u Hu. destruct (elem_of_ch_updates _ _ _ _ HI Hu) as (_ & Hn & _ & _ & op0 & E & _).
      simpl. by rewrite Hnew, E. }
  simpl. f_equal. 
  assert (∀ t t', t = t' → set_operations_table t (set_operations_table
    (upsert_all key store_op (ops_at (ops r) (new_ops r)) (operations_table d0)) d) =
    set_operations_table t' d) as Hset by by intros t t' ->.
  apply Hset. apply map_eq. intros k. rewrite lookup_fmap.
  destruct (decide (k ∈ (λ u : OpRow * bool, key u.1) <$> ch_updates r))
    as [(u & -> & Hu)%list_elem_of_fmap|Hk].
  - pose proof (lookup_upsert_all (λ u : OpRow * bool, key u.1) restore_op u (ch_updates r)
      (upsert_all key store_op (ops_at (ops r) (new_ops r)) (operations_table d0))
      (ch_updates_NoDup _ _ _ HI) Hu) as Hl. cbn beta in Hl |- *. rewrite Hl.
    destruct (elem_of_ch_updates _ _ _ _ HI Hu) as (_ & Hn & E & _ & op0 & E0 & Hf & Hi).
    rewrite (Hnew _ Hn), E0, (ops_ok_cached _ _ _ _ _ _ _ _ _ _ HO E). simpl.
    unfold restore_op. simpl. by rewrite updated_row_frozen.
  - rewrite lookup_upsert_all_ne by done. destruct (decide (k ∈ new_ops r)) as [Hn|Hn].
    + assert (is_Some (ops r !! k)) as [op E].
      { apply elem_of_dom, (o_marks _ _ _ _ _ _ _ _ HO). set_solver. }
      rewrite (ops_ok_cached _ _ _ _ _ _ _ _ _ _ HO E). pose proof (Hkey _ _ E) as <-.
      rewrite lookup_upsert_all; [done| |by apply elem_of_ops_at; eauto].
      apply NoDup_found; [done|apply sorted_keys_NoDup].
    + rewrite (Hnew _ Hn). destruct (ops r !! k) as [op|] eqn:E.
      * rewrite (ops_ok_cached _ _ _ _ _ _ _ _ _ _ HO E).
        destruct (o_cache _ _ _ _ _ _ _ _ HO _ _ E) as [Hko Hc].
        destruct (tl_ops base !! k) as [op0|]; [|by destruct Hc].
        destruct Hc as (_ & _ & [Hu| ->] & _); [|done]. destruct Hk.
        apply list_elem_of_fmap. exists (op, bool_decide (key op ∈ input_changed r)).
        split; [done|]. unfold ch_updates. apply list_elem_of_fmap. exists op.
        split; [done|]. apply elem_of_ops_at. exists k. by rewrite elem_of_difference.
      * by rewrite (ops_ok_uncached _ _ _ _ _ _ _ _ _ HO E).
Qed.

(** *** Touches *)

Lemma persist_touches n r tl d :
  inv n None r tl → 0 ≤ n → fst <$> turns_table d = tl_turns tl →
  touches_table d = touches_table d0 → touches_ok seen d0 →
  ∃ t, try_fold replace_file_touches (ch_touches (into_changes fs r)) d =
         Ok (set_touches_table t d) ∧
       ∀ id : key2, ∃ v : TouchView, (is_Some (tl_ops tl !! id) → seen v) ∧
         ∀ k : key2, (k.1, k.2 / 1024) = id → t !! k = touches_at v.1 v.2 (tl_ops tl) k.
Proof.
  intros HI Hn Ht Hto HT. cbn [ch_touches into_changes].
  pose proof (i_ops _ _ _ _ _ _ _ _ HI) as HO. rewrite (i_ctx _ _ _ _ _ _ _ _ HI).
  pose proof (λ k op, ops_cache_key n r tl k op HI) as Hkey.
  set (s := new_ops r ∪ input_changed r). set (l := _ <$> ops_at (ops r) s).
  pose proof (touches_ok_blocks _ _ HT) as HB.
  assert (Hl : ∀ x, x ∈ l → ∃ op, ops r !! x.1 = Some op ∧ x.1 ∈ s ∧
    x.2 = extract_file_touches fs (op_pair op) ctx ∧
    0 ≤ x.1.2 < op_cap ∧ is_Some (turns_table d !! x.1.1)).
  { intros x (op & -> & (Hin & E)%(found_key _ _ _ Hkey))%list_elem_of_fmap.
    exists op. split_and!; try done; simpl.
    all: destruct (wf_fit _ _ (i_wf _ _ _ _ _ _ _ _ HI) (key op) op) as (t & Et & Hb);
      [by apply (ops_ok_cached _ _ _ _ _ _ _ _ _ _ HO)|]; simpl in *.
    all: pose proof (wf_turn _ _ (i_wf _ _ _ _ _ _ _ _ HI) _ _ Et).
    1,2: lia. eapply turns_table_in; [done|by exists t]. }
  assert (ords_ok l) as Hords by (intros x Hx; by destruct (Hl x Hx) as (? & ? & ? & ? & ? & ?)).
  assert (Hnd : NoDup l.*1).
  { unfold l. rewrite <-list_fmap_compose.
    apply (NoDup_found key); [done|apply sorted_keys_NoDup]. }
  exists (replaced_all l (touches_table d0)). split.
  { rewrite <-Hto. unfold replaced_all.
    apply (try_fold_field _ _ touches_field _ _ (λ t l', blocks_ok t ∧ ∀ x, x ∈ l' → x ∈ l));
      [|by rewrite Hto].
    intros t x l' [HBt Hl']. destruct (Hl x) as (op & _ & _ & _ & Hb & Hturn);
      [apply Hl'; by left|].
    split; [by apply replace_file_touches_Ok|].
    split; [by apply blocks_ok_replaced|intros; apply Hl'; by right]. }
  intros id. destruct (decide (id ∈ l.*1)) as [Hin|Hnin].
  - exists (fs, ctx). split; [done|]. intros k Hk. rewrite <-Hk in Hin. unfold touches_at.
    apply list_elem_of_fmap in Hin as (x & Ex & Hx).
    rewrite (lookup_replaced_all _ _ x) by done.
    destruct (Hl x Hx) as (op & E & _ & -> & _). rewrite <-Ex in E |- *.
    assert (tl_ops tl !! ((k.1, k.2 / 1024) : key2) = Some op) as Hop
      by exact (ops_ok_cached _ _ _ _ _ _ _ _ _ _ HO E).
    transitivity (Some op ≫= λ op, touch_row (extract_file_touches fs (op_pair op) ctx)
                                (k.2 / 1024) k.2); [done|].
    f_equal. symmetry. exact Hop.
  - destruct (HT id) as (v & Hv & Hrow). exists v. split.
    { intros [op E']. apply Hv. destruct (ops r !! id) as [op'|] eqn:E.
      - destruct (o_cache _ _ _ _ _ _ _ _ HO _ _ E) as [_ Hc].
        change (rows d0) with base. destruct (tl_ops base !! id) as [op0|] eqn:E0; [by eexists|].
        exfalso. apply Hnin. unfold l. rewrite <-list_fmap_compose.
        apply list_elem_of_fmap. exists op'. split; [symmetry; by apply Hkey|].
        apply elem_of_ops_at. exists id. split; [|done]. unfold s.
        apply elem_of_union. left. by destruct Hc.
      - rewrite (ops_ok_uncached _ _ _ _ _ _ _ _ _ HO E) in E'. by exists op. }
    intros k Hk. rewrite lookup_replaced_all_ne by (done || by rewrite Hk). etransitivity; [exact (Hrow k Hk)|].
    unfold touches_at. rewrite Hk. clear Hk.
    set (k' := id) in *. destruct (ops r !! k') as [op|] eqn:E.
    + rewrite (ops_ok_cached _ _ _ _ _ _ _ _ _ _ HO E).
      destruct (o_cache _ _ _ _ _ _ _ _ HO _ _ E) as [Hko Hc].
      assert (k' ∉ s) as Hs.
      { intros Hs. apply Hnin. unfold l. rewrite <-list_fmap_compose.
        apply list_elem_of_fmap. exists op. split; [by symmetry|].
        apply elem_of_ops_at. by exists k'. }
      unfold s in Hs. apply not_elem_of_union in Hs as [Hs1 Hs2].
      destruct (tl_ops base !! k') as [op0|]; [|by destruct Hc].
      destruct Hc as (_ & Hf & _ & [?|Hi]); [done|]. simpl.
      by rewrite (extract_frozen v.1 op op0 v.2 Hf Hi).
    + by rewrite (ops_ok_uncached _ _ _ _ _ _ _ _ _ HO E).
Qed.

(** *** Usage and links *)

Lemma persist_usage n r tl d :
  inv n None r tl → usage_table d = usage_table d0 →
  try_fold record_usage (ch_usage (into_changes fs r)) d = Ok (set_usage_table (tl_usage tl) d).
Proof.
  intros HI Hu. cbn [ch_usage into_changes].
  destruct (i_usage _ _ _ _ _ _ _ _ HI) as [-> ->]. simpl. rewrite <-Hu.
  set (l := omap _ _).
  assert (Hnd : NoDup (fst <$> l)).
  { unfold l. pose proof (NoDup_elements (dom (usage r))) as Hd. revert Hd.
    generalize (elements (dom (usage r))). induction l0 as [|m l0 IH]; intros Hd; simpl; [constructor|].
    apply NoDup_cons in Hd as [Hm Hd]. destruct (usage r !! m) as [u|]; [|by apply IH].
    simpl. constructor; [|by apply IH].
    intros (y & -> & (m' & Hm' & (u' & _ & ->)%fmap_Some)%list_elem_of_omap)%list_elem_of_fmap.
    done. }
  assert (Hl : ∀ m u, (m, u) ∈ l ↔ usage r !! m = Some u).
  { intros m u. unfold l. rewrite list_elem_of_omap. setoid_rewrite elem_of_elements.
    setoid_rewrite fmap_Some. setoid_rewrite elem_of_dom. naive_solver. }
  rewrite (try_fold_upsert _ _ usage_field fst (λ u _, u.2) (λ _ _, True)); try done.
  f_equal. f_equal. apply map_eq. intros m. destruct (usage r !! m) as [u|] eqn:E.
  - erewrite lookup_union_Some_l by done.
    apply Hl in E. by apply (lookup_upsert_all fst (λ u _, u.2) (m, u)).
  - rewrite lookup_union_r by done. apply lookup_upsert_all_ne.
    intros ([m' u] & -> & Hin)%list_elem_of_fmap. apply Hl in Hin. simpl in *. congruence.
Qed.

Lemma persist_links n r tl d :
  inv n None r tl → links_table d = links_table d0 →
  try_fold record_link (ch_links (into_changes fs r)) d = Ok (set_links_table (tl_links tl) d).
Proof.
  intros HI Hl. cbn [ch_links into_changes]. rewrite (i_links _ _ _ _ _ _ _ _ HI).
  simpl. rewrite <-Hl.
  rewrite (try_fold_field _ _ links_field _ (λ t a, {[a]} ∪ t) (λ _ _, True)); [|done|done].
  f_equal. f_equal. apply set_eq. intros x.
  assert (∀ l (t : gset ChildLink), x ∈ foldl (λ t a, {[a]} ∪ t) t l ↔ x ∈ l ∨ x ∈ t) as Hf.
  { clear. induction l as [|a l IH]; intros t; simpl; [set_solver|]. rewrite IH. set_solver. }
  rewrite Hf, elem_of_elements, elem_of_union. done.
Qed.

(** *** The whole batch *)

Theorem persist_spec n r tl :
  inv n None r tl → 0 ≤ n → touches_ok seen d0 →
  ∃ d, persist (into_changes fs r) d0 = Ok d ∧ state_row d = state_row d0 ∧
       (∀ row, row_state row = tl_state tl → rows (set_state_row (Some row) d) = tl) ∧
       db_ok d ∧ touches_ok seen d.
Proof.
  intros HI Hn HT. unfold persist.
  destruct (persist_turns n r tl d0 HI Hn eq_refl) as (t1 & -> & Ht1). cbn [mbind res_bind].
  change (ch_items (into_changes fs r)) with (items r).
  rewrite (persist_items n r tl); [|done|done|done]. cbn [mbind res_bind].
  set (d2 := set_items_table _ _).
  assert (∀ {A} (a b : res A) (f : A → res Db), a = b → a ≫= f = b ≫= f) as Hcong
    by by intros A a b f ->.
  rewrite <-(res_bind_assoc _ _ (λ d, _)).
  rewrite (Hcong _ _ _ _ (persist_ops n r tl d2 HI Ht1 eq_refl)). cbn [mbind res_bind].
  set (d3 := set_operations_table _ _).
  destruct (persist_touches n r tl d3 HI Hn Ht1 eq_refl HT) as (t4 & -> & Ht4).
  cbn [mbind res_bind]. set (d4 := set_touches_table _ _).
  rewrite (persist_usage n r tl d4 HI eq_refl). cbn [mbind res_bind].
  rewrite (persist_links n r tl (set_usage_table (tl_usage tl) d4) HI eq_refl). eexists. split; [reflexivity|].
  split; [done|].
  assert (Hops : from_db <$> (to_db <$> tl_ops tl) = tl_ops tl).
  { rewrite <-map_fmap_compose. rewrite <-(map_fmap_id (tl_ops tl)) at 2.
    apply map_fmap_ext. intros k op _. apply from_to_db. }
  split_and!.
  - intros row Hrow. unfold rows, stored_state. simpl. rewrite Hrow, Ht1, Hops. by destruct tl.
  - intros k row. simpl. rewrite lookup_fmap. intros (op & E & ->)%fmap_Some.
    exists op. split; [done|]. by apply (wf_key _ _ (i_wf _ _ _ _ _ _ _ _ HI)).
  - intros id. destruct (Ht4 id) as (v & Hv & Hk). exists v. simpl. by rewrite Hops.
Qed.
End commit.

(** ** What a batch leaves *)

(** ** Events in order *)

Lemma increasing_weaken o o' l : o' ≤ o → increasing o l → increasing o' l.
Proof. destruct l; simpl; [done|]. intros ? []. split; [lia|done]. Qed.

Lemma increasing_above o l e : increasing o l → e ∈ l → o < byte_offset e.
Proof.
  revert o. induction l as [|e' l IH]; intros o; simpl; [by intros _ ?%elem_of_nil|].
  intros [Hlt Hinc] [->|Hin]%elem_of_cons; [done|].
  specialize (IH _ Hinc Hin). lia.
Qed.

Lemma last_offset_above o l : increasing o l → o ≤ default o (byte_offset <$> last l).
Proof.
  destruct (last l) as [e|] eqn:E; simpl; [|lia]. intros Hinc.
  apply last_Some_elem_of in E. pose proof (increasing_above _ _ _ Hinc E). lia.
Qed.

(** Every element of an increasing list is at most its last. *)
Lemma increasing_below o l e :
  increasing o l → e ∈ l → byte_offset e ≤ default o (byte_offset <$> last l).
Proof.
  revert o. induction l as [|e' l IH]; intros o; [by intros _ ?%elem_of_nil|].
  intros [Hlt Hinc]. rewrite last_offset_cons.
  intros [->|Hin]%elem_of_cons; [by apply last_offset_above|by apply IH].
Qed.

(** What is left of an increasing list after its prefix. *)
Lemma filter_after_prefix o l1 l2 :
  increasing o (l1 ++ l2) →
  List.filter (λ e, default o (byte_offset <$> last l1) <? byte_offset e) (l1 ++ l2) = l2.
Proof.
  intros [H1 H2]%increasing_app. set (x := default o (byte_offset <$> last l1)) in *.
  rewrite List.filter_app.
  assert (∀ l, (∀ e, e ∈ l → byte_offset e ≤ x) →
               List.filter (λ e, x <? byte_offset e) l = []) as Hnone.
  { induction l as [|e l IH]; intros Hl; simpl; [done|].
    replace (x <? byte_offset e) with false by (symmetry; apply Z.ltb_ge, Hl; by left).
    apply IH. intros ??; apply Hl; by right. }
  assert (∀ l, (∀ e, e ∈ l → x < byte_offset e) →
               List.filter (λ e, x <? byte_offset e) l = l) as Hall.
  { induction l as [|e l IH]; intros Hl; simpl; [done|].
    replace (x <? byte_offset e) with true by (symmetry; apply Z.ltb_lt, Hl; by left).
    f_equal. apply IH. intros ??; apply Hl; by right. }
  rewrite Hnone, Hall; [done| |].
  - intros e Hin. by eapply increasing_above.
  - intros e Hin. by eapply increasing_below.
Qed.

(** Every stored event is under its own offset. *)
Definition events_ok (ev : gmap Z StoredEvent) : Prop :=
  ∀ k e, ev !! k = Some e → byte_offset e = k.

Definition before (a b : StoredEvent) : Prop := byte_offset a < byte_offset b.

Lemma increasing_intro o l :
  StronglySorted before l → (∀ e, e ∈ l → o < byte_offset e) → increasing o l.
Proof.
  revert o. induction l as [|e l IH]; intros o Hs Ho; simpl; [done|].
  apply StronglySorted_inv in Hs as [Hs Hall]. split; [apply Ho; by left|].
  apply IH; [done|]. intros e' Hin. eapply Forall_forall in Hall; done.
Qed.

Lemma StronglySorted_bool_filter {A} (R : relation A) f (l : list A) :
  StronglySorted R l → StronglySorted R (List.filter f l).
Proof.
  induction 1 as [|x l Hs IH Hx]; simpl; [constructor|]. destruct (f x); [|done].
  constructor; [done|]. apply Forall_forall. intros y.
  rewrite list_elem_of_In, filter_In, <-list_elem_of_In. intros [Hy _].
  eapply Forall_forall in Hx; done.
Qed.

Lemma ordered_events_sorted ev : events_ok ev → StronglySorted before (ordered_events ev).
Proof.
  intros Hev. unfold ordered_events.
  assert (StronglySorted Z.le (sorted_ids (dom ev))) as Hs by apply (StronglySorted_merge_sort _).
  pose proof (sorted_ids_NoDup (dom ev)) as Hnd. revert Hs Hnd.
  generalize (sorted_ids (dom ev)). induction l as [|k l IH]; intros Hs Hnd; simpl; [constructor|].
  apply StronglySorted_inv in Hs as [Hs Hall]. apply NoDup_cons in Hnd as [Hk Hnd].
  destruct (ev !! k) as [e|] eqn:E; [|by apply IH]. constructor; [by apply IH|].
  apply Forall_forall. intros e' (k' & Hin & E')%list_elem_of_omap.
  unfold before. rewrite (Hev _ _ E), (Hev _ _ E').
  eapply Forall_forall in Hall; [|done]. assert (k ≠ k') by by intros ->. lia.
Qed.

Lemma elem_of_pending o ev e :
  events_ok ev → e ∈ pending o ev ↔ ev !! byte_offset e = Some e ∧ o < byte_offset e.
Proof.
  intros Hev. unfold pending, ordered_events.
  rewrite list_elem_of_In, filter_In, <-list_elem_of_In, list_elem_of_omap, Z.ltb_lt.
  setoid_rewrite elem_of_sorted_ids. setoid_rewrite elem_of_dom. split.
  - intros [(k & _ & E) Ho]. by pose proof (Hev _ _ E) as <-.
  - intros [E Ho]. split; [|done]. exists (byte_offset e). by rewrite E.
Qed.

Lemma pending_increasing o ev : events_ok ev → increasing o (pending o ev).
Proof.
  intros Hev. apply increasing_intro.
  - by apply StronglySorted_bool_filter, ordered_events_sorted.
  - intros e Hin. by apply (elem_of_pending o ev e Hev).
Qed.

(** The events after a batch are the rest of those it was taken from. *)
Lemma pending_after_batch o ev n :
  events_ok ev →
  pending (default o (byte_offset <$> last (take n (pending o ev)))) ev = drop n (pending o ev).
Proof.
  intros Hev. pose proof (pending_increasing o ev Hev) as Hinc.
  set (x := default o (byte_offset <$> last (take n (pending o ev)))).
  assert (o ≤ x) as Hx.
  { apply last_offset_above. rewrite <-(take_drop n) in Hinc. by apply increasing_app in Hinc as []. }
  assert (pending x ev = List.filter (λ e, x <? byte_offset e) (pending o ev)) as ->.
  { unfold pending. rewrite filter_andb. apply List.filter_ext. intros e.
    destruct (Z.ltb_spec x (byte_offset e)), (Z.ltb_spec o (byte_offset e)); done || lia. }
  rewrite <-(take_drop n (pending o ev)) in Hinc.
  rewrite <-(take_drop n (pending o ev)) at 1. by apply filter_after_prefix.
Qed.

(** ** One batch *)

Section batches.
Context `{HeapOrder OpDbRow} (parse_uuid : string → option Uuid) (fs : Fs).
Context (seen : TouchView → Prop).
Implicit Types s : Session.

(** The timeline the next batch starts from: the stored one, or a blank one
    when another reducer version built it. *)
Definition locked (s : Session) : Db := (locked_row (db s)).2.

(** [n] bounds the tool calls of the events still to project. *)
Record ready (n : Z) (s : Session) : Prop := {
  r_live : purged s = false;
  r_events : events_ok (events s);
  r_db : db_ok (locked s);
  r_touches : touches_ok seen (locked s);
  r_wf : wf n (rows (locked s));
  r_calls : tool_calls (pending (projected_through (stored_state (locked s))) (events s)) ≤ n;
  r_cap : n < op_cap;
}.

Definition run (s : Session) : Timeline → list StoredEvent → Timeline :=
  steps parse_uuid (session_id s) (claude_subagent_parent s).

Lemma locked_row_state (d : Db) :
  row_state (locked_row d).1 = stored_state (locked_row d).2 ∧
  state_row (locked_row d).2 = Some (locked_row d).1 ∧
  projection_version (locked_row d).1 = REDUCER_VERSION.
Proof. unfold locked_row. by case_bool_decide. Qed.

(** A database whose row is current is locked as it is. *)
Lemma locked_row_current (d : Db) row :
  state_row d = Some row → projection_version row = REDUCER_VERSION →
  locked_row d = (row, d).
Proof.
  intros E Hv. unfold locked_row. rewrite E. simpl. rewrite bool_decide_true by done.
  unfold set_state_row. rewrite <-E. by destruct d.
Qed.

Lemma apply_batch_spec n s row batch d :
  events_ok (events s) → db_ok d → touches_ok seen d →
  wf n (rows d) → row_state row = stored_state d → n < op_cap →
  seen (fs, load_file_touch_context s) →
  increasing (projected_through (stored_state d)) batch → tool_calls batch ≤ n →
  ∃ d' row', apply_batch parse_uuid fs s row batch d = Ok d' ∧
    state_row d' = Some row' ∧ projection_version row' = projection_version row ∧
    reconcile_sources row' = reconcile_sources row ∧
    rows d' = run s (rows d) batch ∧ db_ok d' ∧
    touches_ok seen d' ∧ wf (n - tool_calls batch) (rows d').
Proof.
  intros Hev Hok HT Hwf Hst Hcap Hseen Hinc Hn. unfold apply_batch.
  pose proof (Inv_new (rows := rows) d (session_id s) (load_file_touch_context s)
    (claude_subagent_parent s) n Hwf n ltac:(lia) Hcap) as HI0.
  simpl in HI0. rewrite <-Hst in HI0.
  destruct (apply_all_spec (rows := rows) parse_uuid d (session_id s) (load_file_touch_context s)
    (claude_subagent_parent s) n Hwf Hok n _ (rows d) batch HI0 Hinc Hn) as (r' & E & HI).
  unfold new_reducer in E |- *. rewrite Hst in E. rewrite Hst. rewrite E. cbn [mbind res_bind].
  destruct (persist_spec fs d (session_id s) (load_file_touch_context s)
    (claude_subagent_parent s) Hok seen Hseen _ r' _ HI ltac:(lia) HT) as (d1 & E1 & _ & Hrows & Hok1 & HT1).
  rewrite E1. cbn [mbind res_bind]. eexists _, _. split; [reflexivity|].
  assert (rows (set_state_row (Some (mkStateRow
    (if changes_is_empty (into_changes fs r') then revision row else wrap64 (revision row + 1))
    (projection_version row) (ch_state (into_changes fs r')) (reconcile_sources row))) d1) =
    run s (rows d) batch) as Hr by (apply Hrows; apply (i_state _ _ _ _ _ _ _ _ HI)).
  split_and!; [done|done|done|exact Hr|done|done|].
  rewrite Hr. apply HI.
Qed.

Lemma rows_set_row row row' (d : Db) :
  state_row d = Some row → row_state row' = row_state row →
  rows (set_state_row (Some row') d) = rows d.
Proof. intros E Hs. unfold rows, stored_state. simpl. by rewrite E, Hs. Qed.

Definition next_batch (s : Session) (budget : Z) : list StoredEvent :=
  load_session_events (projected_through (stored_state (locked s))) budget s.

(** The rest of [project_batch] once the row is locked. *)
Lemma project_batch_run n s budget :
  ready n s → seen (fs, load_file_touch_context s) →
  ∃ d row, project_batch parse_uuid fs s budget =
    Ok (with_db d s, mkOutcome (Z.of_nat (length (next_batch s budget)))
                       (budget <=? Z.of_nat (length (next_batch s budget)))) ∧
    state_row d = Some row ∧ projection_version row = REDUCER_VERSION ∧
    rows d = run s (rows (locked s)) (next_batch s budget) ∧ db_ok d ∧
    touches_ok seen d ∧
    wf (n - tool_calls (next_batch s budget)) (rows d).
Proof.
  intros [Hlive Hev Hok HT Hwf Hcalls Hcap] Hseen. unfold project_batch, next_batch, locked in *.
  rewrite Hlive. destruct (locked_row_state (db s)) as (Hst & Hrow & Hver).
  destruct (locked_row (db s)) as [row d]. cbn [fst snd] in *. rewrite Hst.
  set (batch := load_session_events _ _ _).
  pose proof (pending_increasing (projected_through (stored_state d)) _ Hev) as Hinc.
  assert (Hbatch : ∃ k, batch = take k (pending (projected_through (stored_state d)) (events s)))
    by by eexists.
  destruct Hbatch as [k Hk].
  assert (increasing (projected_through (stored_state d)) batch ∧ tool_calls batch ≤ n) as [Hi Hc].
  { rewrite Hk. rewrite <-(take_drop k (pending _ _)) in Hinc, Hcalls.
    apply increasing_app in Hinc as [Hi _]. rewrite tool_calls_app in Hcalls.
    pose proof (tool_calls_nonneg (drop k (pending (projected_through (stored_state d)) (events s)))).
    split; [done|lia]. }
  assert (∃ d' row', (match batch with
                      | [] => Ok d
                      | _ => apply_batch parse_uuid fs s row batch d
                      end) = Ok d' ∧ state_row d' = Some row' ∧
    projection_version row' = REDUCER_VERSION ∧ rows d' = run s (rows d) batch ∧ db_ok d' ∧
    touches_ok seen d' ∧ wf (n - tool_calls batch) (rows d'))
    as (d' & row' & E & Hrow' & Hver' & Hrows & Hok' & HT' & Hwf').
  { destruct batch as [|e batch'] eqn:Eb.
    - exists d, row. split_and!; try done. simpl. by replace (n - 0) with n by lia.
    - destruct (apply_batch_spec n s row (e :: batch') d) as (d' & row' & ? & ? & ? & ? & ? & ? & ? & ?);
        try done. exists d', row'. split_and!; try done. congruence. }
  rewrite E. cbn [mbind res_bind].
  destruct (negb _ && reconcile_sources row); [|by exists d', row'].
  rewrite Hrow'. simpl. eexists _, _. split; [reflexivity|]. split; [done|]. split; [done|].
  set (row2 := mkStateRow _ _ _ _).
  assert (rows (set_state_row (Some row2) d') = rows d') as Hs by by eapply rows_set_row.
  rewrite Hs. by split_and!.
Qed.

Lemma locked_with_db s d row :
  state_row d = Some row → projection_version row = REDUCER_VERSION →
  locked (with_db d s) = d.
Proof. intros E Hv. unfold locked. simpl. by rewrite (locked_row_current _ _ E Hv). Qed.

(** After a batch the session is ready for the rest. *)
Lemma project_batch_ready n s budget :
  ready n s → seen (fs, load_file_touch_context s) →
  ∃ d, project_batch parse_uuid fs s budget =
    Ok (with_db d s, mkOutcome (Z.of_nat (length (next_batch s budget)))
                       (budget <=? Z.of_nat (length (next_batch s budget)))) ∧
    ready (n - tool_calls (next_batch s budget)) (with_db d s) ∧
    locked (with_db d s) = d ∧
    rows d = run s (rows (locked s)) (next_batch s budget) ∧
    pending (projected_through (stored_state d)) (events s) =
      drop (Z.to_nat (Z.max 1 (Z.min budget 5000)))
        (pending (projected_through (stored_state (locked s))) (events s)).
Proof.
  intros HR Hseen. destruct (project_batch_run n s budget HR Hseen) as (d & row & E & Hrow & Hver & Hrows & Hok & HT & Hwf).
  exists d. pose proof (locked_with_db s d row Hrow Hver) as Hl.
  pose proof (r_events _ _ HR) as Hev.
  set (k := Z.to_nat (Z.max 1 (Z.min budget 5000))).
  set (o := projected_through (stored_state (locked s))).
  assert (next_batch s budget = take k (pending o (events s))) as Hnb by done.
  assert (Hinc : increasing o (next_batch s budget)).
  { rewrite Hnb. pose proof (pending_increasing o _ Hev) as Hi.
    rewrite <-(take_drop k) in Hi. by apply increasing_app in Hi as []. }
  assert (Hthrough : projected_through (stored_state d) =
                     default o (byte_offset <$> last (next_batch s budget))).
  { change (stored_state d) with (tl_state (rows d)). rewrite Hrows.
    exact (steps_through _ _ _ (rows (locked s)) _ Hinc). }
  assert (Hpend : pending (projected_through (stored_state d)) (events s) =
                  drop k (pending o (events s))).
  { rewrite Hthrough, Hnb. exact (pending_after_batch o _ k Hev). }
  split_and!; [done| |done|done|done].
  pose proof (r_calls _ _ HR) as Hcalls. fold o in Hcalls.
  rewrite <-(take_drop k (pending o _)), tool_calls_app, <-Hnb in Hcalls.
  pose proof (tool_calls_nonneg (next_batch s budget)). pose proof (r_cap _ _ HR).
  split; [exact (r_live _ _ HR)|exact Hev|rewrite Hl; exact Hok|rewrite Hl; exact HT
         |rewrite Hl; exact Hwf| |lia].
  rewrite Hl. cbn [with_db events]. rewrite Hpend. fold k in Hcalls. lia.
Qed.

Lemma next_batch_pending s budget :
  1 ≤ budget ≤ 5000 →
  next_batch s budget =
    take (Z.to_nat budget) (pending (projected_through (stored_state (locked s))) (events s)).
Proof. intros Hb. unfold next_batch, load_session_events. by replace (Z.max 1 _) with budget by lia. Qed.

(** [catch_up] ends once the fuel covers the pending events, having applied
    them all. *)
Lemma catch_up_spec fuel n s total :
  ready n s → seen (fs, load_file_touch_context s) →
  Z.of_nat (length (pending (projected_through (stored_state (locked s))) (events s)))
    < Z.of_nat fuel * BATCH_EVENTS →
  ∃ d, catch_up parse_uuid fs fuel s total =
    Some (Ok (with_db d s, total + Z.of_nat (length
      (pending (projected_through (stored_state (locked s))) (events s))))) ∧
    rows d = run s (rows (locked s))
               (pending (projected_through (stored_state (locked s))) (events s)) ∧
    (∃ n', ready n' (with_db d s)) ∧ locked (with_db d s) = d ∧
    pending (projected_through (stored_state d)) (events s) = [].
Proof.
  revert n s total. induction fuel as [|fuel IH]; intros n s total HR Hseen Hfuel; [lia|].
  destruct (project_batch_ready n s BATCH_EVENTS HR Hseen) as (d & E & HR' & Hl & Hrows & Hpend).
  cbn [catch_up]. rewrite E. cbn [more applied].
  rewrite next_batch_pending in * by (unfold BATCH_EVENTS; lia).
  change (Z.to_nat (Z.max 1 (Z.min BATCH_EVENTS 5000))) with (Z.to_nat BATCH_EVENTS) in Hpend.
  set (p := pending (projected_through (stored_state (locked s))) (events s)) in *.
  destruct (Z.leb_spec BATCH_EVENTS (Z.of_nat (length (take (Z.to_nat BATCH_EVENTS) p)))) as [Hle|Hlt].
  - rewrite length_take in Hle. destruct (IH _ (with_db d s) (total + Z.of_nat (length (take (Z.to_nat BATCH_EVENTS) p))) HR' Hseen)
      as (d2 & E2 & Hrows2 & HR2 & Hl2 & Hpend2).
    + rewrite Hl. simpl. rewrite Hpend, length_drop. unfold BATCH_EVENTS in *. lia.
    + exists d2. rewrite E2. rewrite Hl in *. simpl in *. rewrite Hpend in *.
      split_and!; try done.
      * do 3 f_equal. rewrite length_take, length_drop. unfold BATCH_EVENTS in *. lia.
      * rewrite Hrows2, Hrows. unfold run. simpl. by rewrite <-steps_app, take_drop.
  - rewrite length_take in Hlt.
    assert (length p < Z.to_nat BATCH_EVENTS)%nat as Hshort by (unfold BATCH_EVENTS in *; lia).
    rewrite take_ge in * by lia. rewrite drop_ge in Hpend by lia.
    exists d. split_and!; try done. by eexists.
Qed.
End batches.
