(* ===== verification/Sessions.v ===== *)
(** * Sessions over time

    A session's history: events arrive (also behind the cursor, when a
    transcript was replaced), batches of any size run, rebuilds are requested,
    each in a transaction of its own. Whatever the order, the stored timeline
    is the abstract one of the events up to the cursor but those that came
    behind it and wait for their rebuild. At the end a concrete session, on which the witnesses
    of the timeline properties run the model. *)

From S2P Require Import Prelude Text Json Events Runtime Render FileTouches Reducer ReducerSpec ReducerInv ReducerSim Store Projection Commit.

(** ** Events up to a cursor *)

Definition upto (o : Z) (ev : gmap Z StoredEvent) : list StoredEvent :=
  List.filter (λ e, byte_offset e <=? o) (pending (-1) ev).

#[export] Instance before_antisymm : AntiSymm (=) before.
Proof. intros a b. unfold before. lia. Qed.

Lemma before_NoDup l : StronglySorted before l → NoDup l.
Proof.
  induction 1 as [|e l Hs IH Hall]; constructor; [|done].
  intros Hin. eapply Forall_forall in Hall; [|done]. unfold before in Hall. lia.
Qed.

(** Lists in byte order with the same events are the same. *)
Lemma sorted_ext l l' :
  StronglySorted before l → StronglySorted before l' → (∀ e, e ∈ l ↔ e ∈ l') → l = l'.
Proof.
  intros Hl Hl' Hext. apply (StronglySorted_unique before); [done|done|].
  by apply NoDup_Permutation; [apply before_NoDup|apply before_NoDup|].
Qed.

Lemma pending_sorted o ev : events_ok ev → StronglySorted before (pending o ev).
Proof. intros Hev. by apply StronglySorted_bool_filter, ordered_events_sorted. Qed.

Lemma upto_sorted o ev : events_ok ev → StronglySorted before (upto o ev).
Proof. intros Hev. by apply StronglySorted_bool_filter, pending_sorted. Qed.

Lemma elem_of_upto o ev e :
  events_ok ev →
  e ∈ upto o ev ↔ ev !! byte_offset e = Some e ∧ -1 < byte_offset e ≤ o.
Proof.
  intros Hev. unfold upto. rewrite list_elem_of_In, filter_In, <-list_elem_of_In.
  rewrite elem_of_pending by done. rewrite Z.leb_le. tauto.
Qed.

Lemma upto_pending o ev : events_ok ev → -1 ≤ o → upto o ev ++ pending o ev = pending (-1) ev.
Proof.
  intros Hev Ho. apply sorted_ext.
  - assert (∀ l l', StronglySorted before l → StronglySorted before l' →
      (∀ a b, a ∈ l → b ∈ l' → before a b) → StronglySorted before (l ++ l')) as Happ.
    { clear. induction 1 as [|a l Hs IH Ha]; intros Hl' Hb; [done|].
      simpl. constructor; [apply IH; [done|]; intros; apply Hb; [by right|done]|].
      apply Forall_app. split; [done|]. apply Forall_forall. intros b Hin. apply Hb; [by left|done]. }
    apply Happ; [by apply upto_sorted|by apply pending_sorted|].
    intros a b [_ Ha]%elem_of_upto [_ Hb]%elem_of_pending; [|done|done]. unfold before. lia.
  - by apply pending_sorted.
  - intros e. rewrite elem_of_app, elem_of_upto, !elem_of_pending by done.
    destruct (decide (byte_offset e ≤ o)); intuition lia.
Qed.

Lemma upto_first ev : events_ok ev → upto (-1) ev = [].
Proof.
  intros Hev. pose proof (upto_pending (-1) ev Hev ltac:(lia)) as H.
  apply (app_inv_tail (pending (-1) ev)). by rewrite H.
Qed.

(** ** Steps of a session *)

Definition add_event (e : StoredEvent) (s : Session) : Session :=
  mkSession (session_id s) (purged s) (session_agent s) (parent_session s) (ingest_path s)
    (context_row s) (<[byte_offset e := e]> (events s)) (db s).

(** The row of the session's terminal, which changes as it correlates or moves. *)
Definition with_context (row : option ContextRow) (s : Session) : Session :=
  mkSession (session_id s) (purged s) (session_agent s) (parent_session s) (ingest_path s)
    row (events s) (db s).

(** [rebuild_if_inserted_behind] *)
Definition rebuild_if_inserted_behind (s : Session) (first_inserted_offset : option Z) : Session :=
  match first_inserted_offset with
  | None => s
  | Some o =>
      match state_row (db s) with
      | Some row => if o <=? projected_through (row_state row) then request_rebuild s else s
      | None => s
      end
  end.

Section history.
Context `{HeapOrder OpDbRow} (parse_uuid : string → option Uuid) (seen : TouchView → Prop).
Implicit Types s : Session.
Implicit Types late : gset Z.

(** The cursor the next batch starts from. *)
Definition cursor (s : Session) : Z := projected_through (stored_state (locked s)).

(** A history keeps, beside the session, the offsets of the events that came
    behind the cursor and that no rebuild has taken in since. *)
Definition arrived (s : Session) (o : Z) (late : gset Z) : gset Z :=
  if o <=? cursor s then {[o]} ∪ late else late.

(** Those the cursor of the session has still passed: none once a rebuild was
    requested, which starts over. *)
Definition passed (s : Session) (late : gset Z) : gset Z := filter (λ o, o ≤ cursor s) late.

Definition timely (late : gset Z) : list StoredEvent → list StoredEvent :=
  List.filter (λ e, negb (bool_decide (byte_offset e ∈ late))).

(** Every step is one commit. A pass over a transcript inserts its events one
    by one and asks for the rebuild at its end, with the offset of the first
    one it inserted; in between the projector runs, other passes run, or the
    process dies and the request never comes. What a pass reads of the cursor
    may be older than its request: a request that then finds nothing to do
    changes nothing, and one that goes on is a [step_rebuild]. A batch commits
    the events it read: one that is inserted meanwhile comes after it. *)
Inductive session_step : Session * gset Z → Session * gset Z → Prop :=
  | step_insert s late e :
      0 ≤ byte_offset e → events s !! byte_offset e = None →
      session_step (s, late) (add_event e s, arrived s (byte_offset e) late)
  | step_behind s late o :
      let s' := rebuild_if_inserted_behind s o in session_step (s, late) (s', passed s' late)
  | step_batch s late fs budget s' o :
      1 ≤ budget → seen (fs, load_file_touch_context s) →
      project_batch parse_uuid fs s budget = Ok (s', o) → session_step (s, late) (s', late)
  | step_context s late row : session_step (s, late) (with_context row s, late)
  | step_rebuild s late :
      let s' := request_rebuild s in session_step (s, late) (s', passed s' late).

(** A session without events or rows; the links table may hold links that
    its parent recorded. *)
Definition fresh (s : Session) : Prop :=
  purged s = false ∧ events s = ∅ ∧ ∃ L, db s = mkDb None ∅ ∅ ∅ ∅ ∅ L.

Definition reachable (s : Session) (late : gset Z) : Prop :=
  ∃ s0, fresh s0 ∧ rtc session_step (s0, ∅) (s, late).

Definition in_cap (s : Session) : Prop := tool_calls (pending (-1) (events s)) < op_cap.

Record sound (s : Session) (late : gset Z) : Prop := {
  s_live : purged s = false;
  s_events : events_ok (events s);
  s_db : db_ok (locked s);
  s_touches : touches_ok seen (locked s);
  s_cursor : -1 ≤ cursor s;
  s_late : ∀ o, o ∈ late → -1 < o ≤ cursor s;
  s_rows : ∃ L, rows (locked s) = run parse_uuid s (blank L) (timely late (upto (cursor s) (events s)));
}.

Definition blank_db (L : gset ChildLink) : Db := mkDb None ∅ ∅ ∅ ∅ ∅ L.

(** *** The events that were not late *)

Lemma elem_of_timely late l e : e ∈ timely late l ↔ e ∈ l ∧ byte_offset e ∉ late.
Proof.
  unfold timely. rewrite list_elem_of_In, filter_In, <-list_elem_of_In, negb_true_iff, bool_decide_eq_false.
  done.
Qed.

Lemma timely_sorted late l : StronglySorted before l → StronglySorted before (timely late l).
Proof. apply StronglySorted_bool_filter. Qed.

Lemma timely_app late l l' : timely late (l ++ l') = timely late l ++ timely late l'.
Proof. apply List.filter_app. Qed.

Lemma timely_none l : timely ∅ l = l.
Proof.
  unfold timely. induction l as [|e l IH]; simpl; [done|]. by rewrite IH.
Qed.

Lemma timely_all late l : (∀ e, e ∈ l → byte_offset e ∉ late) → timely late l = l.
Proof.
  induction l as [|e l IH]; intros Hl; simpl; [done|]. rewrite bool_decide_false by (apply Hl; by left).
  simpl. rewrite IH; [done|]. intros e' Hin. apply Hl. by right.
Qed.

Lemma timely_calls late l : tool_calls (timely late l) ≤ tool_calls l.
Proof.
  induction l as [|e l IH]; simpl; [done|]. pose proof (tool_calls_nonneg [e]) as He. simpl in He.
  case_bool_decide; simpl; lia.
Qed.

Lemma increasing_timely late o l : increasing o l → increasing o (timely late l).
Proof.
  revert o. induction l as [|e l IH]; intros o; simpl; [done|]. intros [Ho Hinc].
  case_bool_decide; simpl; [|by split; [|apply IH]].
  apply IH. eapply increasing_weaken, Hinc. lia.
Qed.

Lemma passed_all s late : (∀ o, o ∈ late → o ≤ cursor s) → passed s late = late.
Proof. intros Hl. apply set_eq. intros o. unfold passed. rewrite elem_of_filter. naive_solver. Qed.

Lemma passed_restart s late : (∀ o, o ∈ late → -1 < o) → cursor s = -1 → passed s late = ∅.
Proof.
  intros Hl Hc. apply set_eq. intros o. unfold passed. rewrite elem_of_filter, Hc. split; [|set_solver].
  intros [Ho Hin]. specialize (Hl o Hin). lia.
Qed.

Lemma wf_blank n L : n < op_cap → wf n (blank L).
Proof. intros Hn. split; simpl; by intros. Qed.

Lemma run_wf n s L evs :
  increasing (-1) evs → tool_calls evs ≤ n → n < op_cap →
  wf (n - tool_calls evs) (run parse_uuid s (blank L) evs).
Proof.
  intros Hinc Hn Hcap.
  assert (db_ok (blank_db L)) as Hok by by intros k row.
  assert (rows (blank_db L) = blank L) as Hrows.
  { unfold rows, blank, blank_db. simpl. by rewrite !fmap_empty. }
  pose proof (wf_blank n L Hcap) as Hwf. rewrite <-Hrows in Hwf.
  pose proof (Inv_new (rows := rows) (blank_db L) (session_id s) None
    (claude_subagent_parent s) n Hwf n ltac:(lia) Hcap) as HI0.
  destruct (apply_all_spec (rows := rows) parse_uuid (blank_db L) (session_id s) None
    (claude_subagent_parent s) n Hwf Hok n _ (rows (blank_db L)) evs HI0 Hinc Hn)
    as (r' & _ & HI).
  rewrite Hrows in HI. apply HI.
Qed.

(** A sound session within the cap is ready for its next batch. *)
Lemma sound_ready s late :
  sound s late → in_cap s → ready seen (tool_calls (pending (cursor s) (events s))) s.
Proof.
  intros [Hlive Hev Hok HT Hcur _ [L HL]] Hcap. unfold in_cap in Hcap.
  rewrite <-(upto_pending (cursor s)) in Hcap by done. rewrite tool_calls_app in Hcap.
  pose proof (timely_calls late (upto (cursor s) (events s))).
  pose proof (tool_calls_nonneg (timely late (upto (cursor s) (events s)))).
  pose proof (tool_calls_nonneg (pending (cursor s) (events s))).
  split; try done; [|lia]. rewrite HL.
  pose proof (pending_increasing (-1) _ Hev) as Hinc.
  rewrite <-(upto_pending (cursor s)) in Hinc by done. apply increasing_app in Hinc as [Hinc _].
  apply (increasing_timely late) in Hinc.
  pose proof (run_wf (tool_calls (timely late (upto (cursor s) (events s))) +
    tool_calls (pending (cursor s) (events s))) s L _ Hinc ltac:(lia) ltac:(lia)) as Hwf.
  eapply wf_weaken, Hwf. lia.
Qed.

(** *** Soundness is preserved *)

(** A session whose projection is dropped starts from a blank timeline. *)
Lemma cleared_rows s :
  (∀ row, state_row (db s) = Some row → projection_version row ≠ REDUCER_VERSION) →
  rows (locked s) = blank (links_table (db s)) ∧ cursor s = -1.
Proof.
  intros Hver. unfold cursor, locked, locked_row. rewrite bool_decide_false.
  - simpl. split; [|done]. unfold rows, stored_state, blank. simpl. by rewrite !fmap_empty.
  - destruct (state_row (db s)) as [row|] eqn:E; [by apply Hver|done].
Qed.

Lemma cleared_touches (views : TouchView → Prop) s :
  (∀ row, state_row (db s) = Some row → projection_version row ≠ REDUCER_VERSION) →
  touches_ok views (locked s).
Proof.
  intros Hver id. exists (mkFs (λ _, false) (λ _, false) (λ _, None), None).
  destruct (cleared_rows s Hver) as [Hrows _]. rewrite Hrows. split; [intros [op E]; done|].
  intros k _. unfold locked, locked_row. rewrite bool_decide_false; [done|].
  destruct (state_row (db s)) as [row|] eqn:E; [by apply Hver|done].
Qed.

(** A session whose projection is dropped is sound, and nothing is late. *)
Lemma cleared_sound s :
  purged s = false → events_ok (events s) →
  (∀ row, state_row (db s) = Some row → projection_version row ≠ REDUCER_VERSION) → sound s ∅.
Proof.
  intros Hlive Hev Hver. destruct (cleared_rows s Hver) as [Hrows Hcur].
  split; [done|done| |by apply cleared_touches|lia|by intros o ?%elem_of_empty|].
  - unfold locked, locked_row. rewrite bool_decide_false; [by intros k r|].
    destruct (state_row (db s)) as [row|] eqn:E; [by apply Hver|done].
  - exists (links_table (db s)). by rewrite Hcur, upto_first, Hrows.
Qed.

Lemma fresh_sound s : fresh s → sound s ∅.
Proof.
  intros (Hlive & Hev & L & Hdb). apply cleared_sound; [done|by rewrite Hev|by rewrite Hdb].
Qed.

Lemma requested_version s row :
  state_row (db (request_rebuild s)) = Some row → projection_version row ≠ REDUCER_VERSION.
Proof. simpl. by intros (row' & _ & ->)%fmap_Some. Qed.

Lemma requested_cursor s : cursor (request_rebuild s) = -1.
Proof. apply cleared_rows. apply requested_version. Qed.

Lemma request_rebuild_sound s late :
  sound s late → sound (request_rebuild s) (passed (request_rebuild s) late).
Proof.
  intros HS. rewrite passed_restart.
  - apply cleared_sound; [apply HS|apply HS|apply requested_version].
  - intros o Ho. by apply (s_late _ _ HS) in Ho as [].
  - apply requested_cursor.
Qed.

Lemma behind_cases s o :
  rebuild_if_inserted_behind s o = s ∨ rebuild_if_inserted_behind s o = request_rebuild s.
Proof.
  unfold rebuild_if_inserted_behind. destruct o; [|by left]. destruct (state_row (db s)); [|by left].
  destruct (_ <=? _); auto.
Qed.

Lemma behind_sound s late o : sound s late →
  sound (rebuild_if_inserted_behind s o) (passed (rebuild_if_inserted_behind s o) late).
Proof.
  intros HS. destruct (behind_cases s o) as [-> | ->]; [|by apply request_rebuild_sound].
  rewrite passed_all; [done|]. intros o' Ho. by apply (s_late _ _ HS) in Ho as [].
Qed.

(** A request made with an offset at or before a late event starts over. *)
Lemma behind_restarts s late o o' : sound s late → o' ∈ late → o ≤ o' →
  rebuild_if_inserted_behind s (Some o) = request_rebuild s.
Proof.
  intros HS Hl Ho. apply (s_late _ _ HS) in Hl as [Hlo Hhi].
  unfold rebuild_if_inserted_behind. destruct (state_row (db s)) as [row|] eqn:Erow.
  - destruct (decide (projection_version row = REDUCER_VERSION)) as [Hver|Hver].
    + unfold cursor, locked, stored_state in Hhi. rewrite (locked_row_current _ _ Erow Hver) in Hhi.
      simpl in Hhi. rewrite Erow in Hhi. by rewrite (proj2 (Z.leb_le _ _)) by lia.
    + destruct (cleared_rows s) as [_ Hc]; [by rewrite Erow; intros ? [= <-]|]. lia.
  - destruct (cleared_rows s) as [_ Hc]; [by rewrite Erow|]. lia.
Qed.

Lemma add_event_events e s :
  events_ok (events s) → events_ok (events (add_event e s)).
Proof.
  intros Hev k e'. simpl. intros [[<- <-]|[_ E]]%lookup_insert_Some; [done|by apply Hev].
Qed.

Lemma insert_sound s late e :
  sound s late → 0 ≤ byte_offset e → events s !! byte_offset e = None →
  sound (add_event e s) (arrived s (byte_offset e) late).
Proof.
  intros HS Hoff Hnew. pose proof (add_event_events e s (s_events _ _ HS)) as Hev.
  destruct HS as [H1 H2 H3 H4 H5 H6 [L H7]].
  split; [done|done|exact H3|exact H4|exact H5| |].
  - intros o. change (cursor (add_event e s)) with (cursor s). unfold arrived.
    destruct (Z.leb_spec (byte_offset e) (cursor s)); [|apply H6].
    intros [->%elem_of_singleton|Ho]%elem_of_union; [lia|by apply H6].
  - exists L. change (cursor (add_event e s)) with (cursor s).
    change (rows (locked (add_event e s))) with (rows (locked s)). rewrite H7. unfold run. f_equal.
    apply sorted_ext; [by apply timely_sorted, upto_sorted|by apply timely_sorted, upto_sorted|].
    intros e'. rewrite !elem_of_timely, !elem_of_upto by done. simpl. unfold arrived.
    destruct (decide (byte_offset e' = byte_offset e)) as [E|Hne].
    + rewrite E, Hnew, lookup_insert_eq. split; [intros [[? _] _]; done|].
      intros [[_ Hb] Hl]. destruct Hl. destruct (Z.leb_spec (byte_offset e) (cursor s)); [set_solver|lia].
    + rewrite lookup_insert_ne by congruence. destruct (_ <=? _); [|done]. set_solver.
Qed.

Lemma batch_sound s late fs budget s' o :
  sound s late → in_cap s → 1 ≤ budget → seen (fs, load_file_touch_context s) →
  project_batch parse_uuid fs s budget = Ok (s', o) → sound s' late ∧ events s' = events s.
Proof.
  intros HS Hcap Hb Hseen Hrun. pose proof (sound_ready s late HS Hcap) as HR.
  destruct (project_batch_ready parse_uuid fs seen _ s budget HR Hseen)
    as (d & E & HR' & Hl & Hrows & Hpend).
  rewrite E in Hrun. injection Hrun as <- <-. split; [|done].
  destruct HS as [H1 Hev H3 H4 Hcur Hlate [L HL]].
  set (k := Z.to_nat (Z.max 1 (Z.min budget 5000))) in *.
  assert (Hnb : next_batch s budget = take k (pending (cursor s) (events s))) by done.
  assert (Hcur' : cursor s ≤ projected_through (stored_state d)).
  { change (stored_state d) with (tl_state (rows d)). rewrite Hrows. unfold run.
    pose proof (pending_increasing (cursor s) _ Hev) as Hinc.
    rewrite <-(take_drop k) in Hinc. apply increasing_app in Hinc as [Hinc _].
    rewrite Hnb. rewrite (steps_through _ _ _ (rows (locked s)) _ Hinc).
    by apply (last_offset_above (cursor s)). }
  assert (Hupto : upto (projected_through (stored_state d)) (events s) =
                  upto (cursor s) (events s) ++ next_batch s budget).
  { apply (app_inv_tail (drop k (pending (cursor s) (events s)))).
    rewrite <-(app_assoc (upto _ _)), Hnb, take_drop, upto_pending by done.
    fold (cursor s) in Hpend. rewrite <-Hpend. apply upto_pending; [done|lia]. }
  split; [done|done|apply HR'|apply HR'|unfold cursor; rewrite Hl; lia| |].
  - intros o Ho. unfold cursor. rewrite Hl. apply Hlate in Ho. lia.
  - exists L. unfold cursor. rewrite Hl, Hrows, HL. cbn [events with_db]. rewrite Hupto, timely_app.
    rewrite (timely_all late (next_batch s budget)).
    + unfold run. simpl. by rewrite steps_app.
    + intros e Hin Hle. rewrite Hnb in Hin. apply elem_of_take in Hin as (i & Hin%list_elem_of_lookup_2 & _).
      apply (elem_of_pending _ _ _ Hev) in Hin as [_ Hlt]. apply Hlate in Hle. lia.
Qed.

Lemma behind_events s o : events (rebuild_if_inserted_behind s o) = events s.
Proof. by destruct (behind_cases s o) as [-> | ->]. Qed.

Lemma batch_events fs s budget s' o :
  project_batch parse_uuid fs s budget = Ok (s', o) → events s' = events s.
Proof.
  unfold project_batch. destruct (purged s); [by intros [= <- _]|].
  destruct (locked_row (db s)) as [row d]. intros (d' & _ & E)%res_bind_Ok.
  by injection E as <- _.
Qed.

(** Events only accumulate, each under its offset. *)
Lemma step_events_grow x x' : session_step x x' → events x.1 ⊆ events x'.1.
Proof.
  destruct 1 as [s late e Ho Hn|s late o s'|s late fs budget s' o Hb Hseen Hrun|s late row|s late s']; simpl.
  - by apply insert_subseteq.
  - unfold s'. by rewrite behind_events.
  - by rewrite (batch_events _ _ _ _ _ Hrun).
  - done.
  - done.
Qed.

Lemma tool_calls_submseteq l l' : l ⊆+ l' → tool_calls l ≤ tool_calls l'.
Proof.
  induction 1; simpl; unfold calls_in in *; try lia.
Qed.

Lemma in_cap_mono s s' :
  events_ok (events s) → events_ok (events s') → events s ⊆ events s' → in_cap s' → in_cap s.
Proof.
  unfold in_cap. intros Hev Hev' Hsub Hcap.
  enough (tool_calls (pending (-1) (events s)) ≤ tool_calls (pending (-1) (events s'))) by lia.
  apply tool_calls_submseteq, NoDup_submseteq; [by apply before_NoDup, pending_sorted|].
  intros e. rewrite !elem_of_pending by done. intros [E ?]. split; [|done].
  by eapply lookup_weaken.
Qed.

Lemma step_events_ok x x' :
  session_step x x' → events_ok (events x.1) → events_ok (events x'.1).
Proof.
  destruct 1 as [s late e Ho Hn|s late o s'|s late fs budget s' o Hb Hseen Hrun|s late row|s late s'];
    simpl; intros Hev.
  - by apply (add_event_events e s).
  - unfold s'. by rewrite behind_events.
  - by rewrite (batch_events _ _ _ _ _ Hrun).
  - done.
  - done.
Qed.

Lemma step_sound x x' : sound x.1 x.2 → in_cap x'.1 → session_step x x' → sound x'.1 x'.2.
Proof.
  intros HS Hcap Hstep.
  assert (in_cap x.1) as Hcap0.
  { pose proof (s_events _ _ HS) as Hev. eapply in_cap_mono; [done| | |done].
    - by eapply step_events_ok.
    - by eapply step_events_grow. }
  destruct Hstep as [s late e Ho Hn|s late o s'|s late fs budget s' o Hb Hseen Hrun|s late row|s late s'].
  - by apply insert_sound.
  - by apply behind_sound.
  - by eapply batch_sound.
  - by destruct HS as [? ? ? ? ? ? ?].
  - by apply request_rebuild_sound.
Qed.

Lemma history_events_ok x0 x : events_ok (events x0.1) → rtc session_step x0 x → events_ok (events x.1).
Proof. intros Hev. revert x. apply rtc_ind_r; [done|]. intros. by eapply step_events_ok. Qed.

Lemma history_sound x0 x : sound x0.1 x0.2 → rtc session_step x0 x → in_cap x.1 → sound x.1 x.2.
Proof.
  intros HS. revert x. apply (rtc_ind_r (λ x, in_cap x.1 → sound x.1 x.2)); [done|].
  intros x1 x2 Hsteps Hstep IH Hcap. eapply step_sound; [apply IH|done|done].
  pose proof (history_events_ok _ _ (s_events _ _ HS) Hsteps) as Hev.
  eapply in_cap_mono; [done| | |done]; [by eapply step_events_ok|by eapply step_events_grow].
Qed.

Lemma reachable_sound s late : reachable s late → in_cap s → sound s late.
Proof.
  intros (s0 & Hf & Hsteps). by apply (history_sound (s0, ∅) (s, late)), Hsteps; apply fresh_sound.
Qed.

(** The projection of a list of events from nothing, up to links recorded
    elsewhere. *)
Definition projection_of (s : Session) (evs : list StoredEvent) (tl : Timeline) : Prop :=
  ∃ L, tl = run parse_uuid s (blank L) evs.

Lemma projection_of_rows s late :
  sound s late → projection_of s (timely late (upto (cursor s) (events s))) (rows (locked s)).
Proof. intros HS. apply (s_rows _ _ HS). Qed.

Lemma late_upto s late : sound s late →
  timely late (upto (cursor s) (events s)) ++ pending (cursor s) (events s) =
  timely late (pending (-1) (events s)).
Proof.
  intros HS. rewrite <-(upto_pending (cursor s)), timely_app by apply HS. f_equal. symmetry.
  apply timely_all. intros e Hin Hl. apply (elem_of_pending _ _ _ (s_events _ _ HS)) in Hin as [_ Hlt].
  apply (s_late _ _ HS) in Hl. lia.
Qed.

Lemma catch_up_sound fs fuel s late :
  sound s late → in_cap s → seen (fs, load_file_touch_context s) →
  Z.of_nat (length (pending (cursor s) (events s))) < Z.of_nat fuel * BATCH_EVENTS →
  ∃ d, catch_up parse_uuid fs fuel s 0 =
         Some (Ok (with_db d s, Z.of_nat (length (pending (cursor s) (events s))))) ∧
       rows d = run parse_uuid s (rows (locked s)) (pending (cursor s) (events s)) ∧
       projection_of s (timely late (pending (-1) (events s))) (rows d) ∧
       touches_ok seen d.
Proof.
  intros HS Hcap Hseen Hfuel. pose proof (sound_ready s late HS Hcap) as HR.
  destruct (catch_up_spec parse_uuid fs seen fuel _ s 0 HR Hseen Hfuel)
    as (d & E & Hrows & [n' HR'] & Hl & _).
  exists d. split_and!; [done|done| |].
  - destruct (s_rows _ _ HS) as [L HL]. exists L. fold (cursor s) in Hrows. rewrite Hrows, HL.
    unfold run. rewrite <-steps_app, late_upto; done.
  - pose proof (r_touches _ _ _ HR') as HT. by rewrite Hl in HT.
Qed.

(** Replaying the events over the links they left changes nothing more. *)
Lemma replay_links s L evs :
  run parse_uuid s (blank (tl_links (run parse_uuid s (blank L) evs))) evs =
  run parse_uuid s (blank L) evs.
Proof.
  unfold run. rewrite (blank_add_links L), steps_add_links. set (T := steps _ _ _ (blank ∅) evs).
  rewrite blank_add_links, steps_add_links. fold T. unfold add_links. simpl. f_equal.
  set_solver.
Qed.
End history.

(** Whether a batch runs does not depend on the file systems of earlier ones. *)
Lemma sound_anywhere `{HeapOrder OpDbRow} parse_uuid seen s late :
  sound parse_uuid seen s late → sound parse_uuid (λ _, True) s late.
Proof. intros [? ? ? HT ? ? ?]. split; try done. by eapply touches_ok_mono, HT. Qed.

(** ** A concrete session *)

(** Rows come back in key order. *)
#[export] Instance key_order {A} : HeapOrder A := {
  heap_order := λ l, l;
  heap_perm := λ l, Permutation_refl l;
}.

Definition no_uuid (_ : string) : option Uuid := None.

(** A file system where nothing exists. *)
Definition no_files : Fs := mkFs (λ _, false) (λ _, false) (λ _, None).

Definition text_of (t : string) : Block := block_text 0 t.

Definition call_block (id : string) (path : string) : Block :=
  mkBlock 0 BToolUse None (Some id) (Some "Edit") (Some "edit") (Some "edit")
    (Some CreateContent) (Some (Object [("path", Str path)])) None None None.

Definition result_block (id : string) (err : bool) : Block :=
  mkBlock 0 BToolResult (Some "done") (Some id) None None None None None None (Some err) None.

Definition event_at (offset : Z) (who : string) (bs : list Block) : StoredEvent :=
  mkEvent offset (1000000 * offset) who "claude-code" (Some who) None
    (Some (pretty offset)) None None false false None None None bs.

Definition prompt_event : StoredEvent := event_at 0 "user" [text_of "fix the parser"].
Definition call_event : StoredEvent := event_at 100 "assistant" [call_block "toolu_1" "src/a.rs"].
Definition result_event : StoredEvent := event_at 200 "user" [result_block "toolu_1" true].

Definition demo_context : ContextRow := mkContextRow (Some "repo") (Some "/work/repo") None.

Definition demo_fresh : Session :=
  mkSession 7 false "claude-code" None None (Some demo_context) ∅ (mkDb None ∅ ∅ ∅ ∅ ∅ ∅).

Definition demo_waiting : Session :=
  add_event result_event (add_event call_event (add_event prompt_event demo_fresh)).

(** The session after a batch of [budget] events. *)
Definition batched (budget : Z) (s : Session) : Session :=
  match project_batch no_uuid no_files s budget with
  | Ok (s', _) => s'
  | Err _ => s
  end.

Definition demo_session : Session := batched 2 demo_waiting.

(** Every batch of the demonstration finds the same files. *)
Definition demo_seen (v : TouchView) : Prop := v.1 = no_files.

Lemma batched_step budget s late :
  1 ≤ budget → is_ok (project_batch no_uuid no_files s budget) = true →
  session_step no_uuid demo_seen (s, late) (batched budget s, late).
Proof.
  intros Hb Hok. unfold batched.
  destruct (project_batch no_uuid no_files s budget) as [[s' o]|e] eqn:E; [|done].
  by eapply step_batch.
Qed.

(** An event ahead of the cursor is not late. *)
Lemma insert_ahead parse seen s e : 0 ≤ byte_offset e → events s !! byte_offset e = None →
  cursor s < byte_offset e → session_step parse seen (s, ∅) (add_event e s, ∅).
Proof.
  intros Ho Hn Hc. pose proof (step_insert parse seen s ∅ e Ho Hn) as Hs.
  unfold arrived in Hs. by rewrite (proj2 (Z.leb_gt _ _)) in Hs.
Qed.

Lemma demo_waiting_reachable : reachable no_uuid demo_seen demo_waiting ∅.
Proof.
  exists demo_fresh. split; [by split_and!; [| |exists ∅]|].
  eapply rtc_l; [by apply (insert_ahead _ _ demo_fresh prompt_event)|].
  eapply rtc_l; [by apply (insert_ahead _ _ (add_event prompt_event demo_fresh) call_event)|].
  apply rtc_once.
  by apply (insert_ahead _ _ (add_event call_event (add_event prompt_event demo_fresh)) result_event).
Qed.

Lemma demo_reachable : reachable no_uuid demo_seen demo_session ∅.
Proof.
  destruct demo_waiting_reachable as (s0 & Hf & Hs). exists s0. split; [done|].
  eapply rtc_r; [done|]. apply batched_step; [done|]. by vm_compute.
Qed.

Lemma demo_in_cap : in_cap demo_session.
Proof. by vm_compute. Qed.

Lemma demo_waiting_in_cap : in_cap demo_waiting.
Proof. by vm_compute. Qed.

(** A line of a replaced transcript, inserted behind the cursor. *)
Definition late_event : StoredEvent := event_at 50 "user" [text_of "and the tests"].
Definition demo_late : Session := add_event late_event demo_session.

Lemma demo_late_reachable : reachable no_uuid demo_seen demo_late {[50]}.
Proof.
  destruct demo_reachable as (s0 & Hf & Hs). exists s0. split; [done|].
  eapply rtc_r; [done|].
  assert ({[50]} = arrived demo_session (byte_offset late_event) ∅) as -> by by vm_compute.
  by apply step_insert; vm_compute.
Qed.

(** After the whole session: one turn, with one failed edit of [src/a.rs]. *)
Example demo_rows :
  let s := batched 500 demo_session in
  (tl_turns (rows (db s)) !! 0 ≫= λ t, Some (operation_count t, has_errors t)) = Some (1, true) ∧
  (tl_ops (rows (db s)) !! ((0, 0) : key2) ≫= λ op, Some (is_pending op, is_error op)) =
    Some (false, true) ∧
  touches_table (db s) !! ((0, 0) : key2) = Some (0, mkTouch "repo" "src/a.rs" "write" true).
Proof. vm_compute. done. Qed.
