(* ===== verification/Guarantees.v ===== *)
(** * What the timeline guarantees

    The properties of the incremental projection, each with a witness on the
    demonstration session of [Sessions]. *)

From S2P Require Import Prelude Text Json Events Runtime Render FileTouches Reducer ReducerSpec ReducerInv ReducerSim Store Projection Commit Sessions.

Section guarantees.
Context `{HeapOrder OpDbRow} (parse_uuid : string → option Uuid) (seen : TouchView → Prop).

(** C1. However insertions, batches, replaced transcripts, lost and late
    rebuild requests were interleaved, the stored turns, items, operations,
    response usage and session state are those that applying the events up to
    the cursor, but the late ones, to an empty timeline gives: late are the
    events inserted behind the cursor since the projection was last started
    over, so none is where every insertion was ahead of it. The stored file
    touches of an operation are those its call names on the files and the
    terminal as a batch found them. The request of a pass that inserted no
    later than some late event starts the projection over. *)
Theorem timeline_exact s late :
  reachable parse_uuid seen s late → in_cap s →
  projection_of parse_uuid s (timely late (upto (cursor s) (events s))) (rows (locked s)) ∧
  touches_ok seen (locked s) ∧
  ∀ o o', o' ∈ late → o ≤ o' →
    let s' := rebuild_if_inserted_behind s (Some o) in
    cursor s' = -1 ∧ rows (locked s') = blank (links_table (db s)).
Proof.
  intros HR Hcap. pose proof (reachable_sound _ _ s late HR Hcap) as HS.
  split_and!; [by eapply projection_of_rows|apply (s_touches _ _ _ _ HS)|].
  intros o o' Hl Ho. rewrite (behind_restarts _ _ _ _ _ _ HS Hl Ho). cbv zeta.
  split; [apply requested_cursor|apply (cleared_rows (request_rebuild s)), requested_version].
Qed.

(** C2. A batch never fails and no [expect] panics: it applies exactly the
    next [budget] events of the session, reports how many and whether more
    may wait, and leaves the stored timeline at their abstract steps. *)
Theorem batch_total fs s late budget :
  reachable parse_uuid seen s late → in_cap s → 1 ≤ budget ≤ 5000 →
  let batch := take (Z.to_nat budget) (pending (cursor s) (events s)) in
  ∃ d, project_batch parse_uuid fs s budget =
         Ok (with_db d s, mkOutcome (Z.of_nat (length batch))
                            (budget <=? Z.of_nat (length batch))) ∧
       rows d = run parse_uuid s (rows (locked s)) batch.
Proof.
  intros HR Hcap Hb batch. pose proof (reachable_sound _ _ s late HR Hcap) as HS%sound_anywhere.
  destruct (project_batch_ready parse_uuid fs _ _ s budget (sound_ready _ _ s late HS Hcap) I)
    as (d & E & _ & _ & Hrows & _).
  unfold batch. change (cursor s) with (projected_through (stored_state (locked s))).
  rewrite <-next_batch_pending by done. by exists d.
Qed.

(** C3. Catching up terminates: with one round of fuel per [BATCH_EVENTS]
    pending events it returns, having applied every waiting event, and the
    stored timeline is the projection of all the session's events but those
    that came behind the cursor and wait for their rebuild. *)
Theorem catch_up_total fs s late fuel :
  reachable parse_uuid seen s late → in_cap s → seen (fs, load_file_touch_context s) →
  Z.of_nat (length (pending (cursor s) (events s))) < Z.of_nat fuel * BATCH_EVENTS →
  ∃ d, catch_up parse_uuid fs fuel s 0 =
         Some (Ok (with_db d s, Z.of_nat (length (pending (cursor s) (events s))))) ∧
       projection_of parse_uuid s (timely late (pending (-1) (events s))) (rows d) ∧
       touches_ok seen d.
Proof.
  intros HR Hcap Hseen Hfuel. pose proof (reachable_sound _ _ s late HR Hcap) as HS.
  destruct (catch_up_sound _ _ fs fuel s late HS Hcap Hseen Hfuel) as (d & E & _ & HP & HT). by exists d.
Qed.

(** C4. A rebuild reproduces the incremental rows: once a session has caught
    up and no event that came behind its cursor waits for a rebuild, clearing
    its projection and replaying every canonical event leaves exactly the
    turns, items, operations, usage, state and links it had, on whatever
    files the replay finds. *)
Theorem rebuild_reproduces fs s row fuel :
  reachable parse_uuid seen s ∅ → in_cap s →
  state_row (db s) = Some row → projection_version row = REDUCER_VERSION →
  pending (cursor s) (events s) = [] →
  Z.of_nat (length (pending (-1) (events s))) < Z.of_nat fuel * BATCH_EVENTS →
  ∃ d, rebuild_session_projection parse_uuid fs fuel s =
         Some (Ok (with_db d s, turn_count (row_state row))) ∧
       rows d = rows (db s).
Proof.
  intros HR Hcap Hrow Hver Hpend Hfuel. pose proof (reachable_sound _ _ s ∅ HR Hcap) as HS%sound_anywhere.
  assert (Hl : locked s = db s) by (unfold locked; by rewrite (locked_row_current _ _ Hrow Hver)).
  destruct (cleared_rows (request_rebuild s)) as [Hrows0 Hcur0]; [apply requested_version|].
  destruct (catch_up_sound parse_uuid (λ _, True) fs fuel (request_rebuild s) (passed (request_rebuild s) ∅))
    as (d & E & Hrows & _); [by apply request_rebuild_sound|done|done|by rewrite Hcur0|].
  assert (rows d = rows (db s)) as Hsame.
  { rewrite Hrows, Hrows0, Hcur0. destruct (s_rows _ _ _ _ HS) as [L HL].
    rewrite timely_none, <-(app_nil_r (upto _ _)), <-Hpend, upto_pending, Hl in HL by (done || apply HS).
    change (links_table (db (request_rebuild s))) with (tl_links (rows (db s))).
    rewrite HL. exact (replay_links parse_uuid s L _). }
  exists d. split; [|done]. unfold rebuild_session_projection.
  rewrite (s_live _ _ _ _ HS), E. simpl. do 4 f_equal.
  change (stored_state d) with (tl_state (rows d)). rewrite Hsame. unfold rows, stored_state.
  simpl. by rewrite Hrow.
Qed.

(** Batch boundaries are invisible: a batch of [a] events followed by
    one of [b] stores the same rows as one batch of [a + b]. *)
Lemma batch_split fs s late a b :
  reachable parse_uuid seen s late → in_cap s → 1 ≤ a → 1 ≤ b → a + b ≤ 5000 →
  ∃ d1 d2 d o1 o2 o,
    project_batch parse_uuid fs s a = Ok (with_db d1 s, o1) ∧
    project_batch parse_uuid fs (with_db d1 s) b = Ok (with_db d2 s, o2) ∧
    project_batch parse_uuid fs s (a + b) = Ok (with_db d s, o) ∧
    rows d2 = rows d ∧ applied o1 + applied o2 = applied o ∧ more o2 = more o.
Proof.
  intros HR Hcap Ha Hb Hab. pose proof (reachable_sound _ _ s late HR Hcap) as HS%sound_anywhere.
  pose proof (sound_ready _ _ s late HS Hcap) as HRd.
  destruct (project_batch_ready parse_uuid fs _ _ s a HRd I) as (d1 & E1 & HR1 & Hl1 & Hrows1 & Hp1).
  destruct (project_batch_ready parse_uuid fs _ _ (with_db d1 s) b HR1 I) as (d2 & E2 & _ & _ & Hrows2 & _).
  destruct (project_batch_ready parse_uuid fs _ _ s (a + b) HRd I) as (d & E & _ & _ & Hrows & _).
  eexists d1, d2, d, _, _, _. split; [exact E1|]. split; [exact E2|]. split; [exact E|].
  rewrite Hrows, Hrows2, Hl1, Hrows1, !next_batch_pending by lia.
  replace (Z.to_nat (Z.max 1 (Z.min a 5000))) with (Z.to_nat a) in Hp1 by lia.
  rewrite Hl1. cbn [applied more events with_db]. rewrite Hp1.
  set (p := pending (projected_through (stored_state (locked s))) (events s)).
  rewrite Z2Nat.inj_add by lia. split; [|split].
  - unfold run. simpl. rewrite <-steps_app, take_take_drop. done.
  - rewrite <-take_take_drop, length_app. lia.
  - rewrite !length_take, length_drop. apply eq_iff_eq_true. rewrite !Z.leb_le. lia.
Qed.

(** C6. The queries of [PgBackend] tell the reducer what the tables hold:
    turns, prompts and usage by key, operations by pair id and running cell
    exactly, and every operation whose runtime window may enclose an item,
    whatever order the database returns rows in. *)
Theorem pg_backend_faithful : BackendLaws Db rows db_ok.
Proof. apply PgBackend_laws. Qed.
End guarantees.

(** C7. Against any store that answers faithfully, the incremental reducer
    implements the abstract timeline: over events in byte order it neither
    fails nor panics, and its caches laid over the committed rows are exactly
    the timeline of the abstract steps. *)
Theorem reducer_refines {B} `{BL : BackendLaws B stored ok} parse_uuid b self ctx child n evs :
  ok b → wf n (stored b) → n < op_cap → tool_calls evs ≤ n →
  increasing (projected_through (tl_state (stored b))) evs →
  let tl := steps parse_uuid self child (stored b) evs in
  ∃ r, for_each evs (apply parse_uuid) (new_reducer b self (tl_state (stored b)) ctx child) =
         Ok ((), r) ∧
       state r = tl_state tl ∧
       turns r ∪ tl_turns (stored b) = tl_turns tl ∧
       ops r ∪ tl_ops (stored b) = tl_ops tl ∧
       foldl insert_if_absent (tl_items (stored b)) (items r) = tl_items tl ∧
       usage r ∪ tl_usage (stored b) = tl_usage tl ∧
       links r ∪ tl_links (stored b) = tl_links tl.
Proof.
  intros Hok Hwf Hcap Hn Hinc tl.
  pose proof (Inv_new b self ctx child n Hwf n ltac:(lia) Hcap) as HI0.
  destruct (apply_all_spec parse_uuid b self ctx child n Hwf Hok n _ _ evs HI0 Hinc Hn)
    as (r & E & HI).
  exists r. split; [exact E|]. destruct HI. split_and!; try done.
  - symmetry. apply (t_view _ _ _ _ i_turns).
  - symmetry. apply (o_view _ _ _ _ _ _ _ _ i_ops).
  - symmetry. apply i_usage.
Qed.

(** ** Witnesses *)

Lemma reducer_refines_witness :
  ∃ r, for_each [prompt_event; call_event; result_event] (apply no_uuid)
         (new_reducer (blank_db ∅) 7 default_state None None) = Ok ((), r) ∧
       turns r ∪ ∅ =
         tl_turns (steps no_uuid 7 None (rows (blank_db ∅)) [prompt_event; call_event; result_event]).
Proof.
  destruct (reducer_refines no_uuid (blank_db ∅) 7 None None 5
    [prompt_event; call_event; result_event]) as (r & E & _ & Ht & _).
  - by intros k row.
  - by apply (wf_blank 5 ∅).
  - done.
  - by vm_compute.
  - by vm_compute.
  - exists r. split; [exact E|exact Ht].
Defined.

(** The late line is left out of what is stored, until the pass that inserted
    it asks for the rebuild. *)
Lemma timeline_exact_witness :
  projection_of no_uuid demo_late (timely {[50]} (upto (cursor demo_late) (events demo_late)))
    (rows (locked demo_late)) ∧
  length (upto (cursor demo_late) (events demo_late)) = 3%nat ∧
  cursor (rebuild_if_inserted_behind demo_late (Some 50)) = -1.
Proof.
  destruct (timeline_exact no_uuid demo_seen demo_late {[50]} demo_late_reachable) as (HP & _ & Hreq);
    [by vm_compute|].
  split; [exact HP|]. split; [by vm_compute|].
  by apply (Hreq 50 50); [apply elem_of_singleton|].
Defined.

Lemma batch_total_witness :
  ∃ d, project_batch no_uuid no_files demo_session 1 = Ok (with_db d demo_session, mkOutcome 1 true).
Proof.
  destruct (batch_total no_uuid demo_seen no_files demo_session ∅ 1 demo_reachable demo_in_cap ltac:(lia))
    as (d & E & _).
  exists d. rewrite E. do 3 f_equal.
Defined.

Lemma catch_up_total_witness :
  ∃ d, catch_up no_uuid no_files 1 demo_session 0 = Some (Ok (with_db d demo_session, 1)).
Proof.
  destruct (catch_up_total no_uuid demo_seen no_files demo_session ∅ 1 demo_reachable demo_in_cap)
    as (d & E & _); [done|by vm_compute|].
  exists d. rewrite E. do 3 f_equal.
Defined.

Definition demo_done : Session := batched 500 demo_session.

Lemma demo_done_reachable : reachable no_uuid demo_seen demo_done ∅.
Proof.
  destruct demo_reachable as (s0 & Hf & Hs). exists s0. split; [done|].
  eapply rtc_r; [done|]. apply batched_step; [done|]. by vm_compute.
Qed.

Lemma rebuild_reproduces_witness :
  ∃ d, rebuild_session_projection no_uuid no_files 1 demo_done =
         Some (Ok (with_db d demo_done, 1)) ∧ rows d = rows (db demo_done).
Proof.
  destruct (state_row (db demo_done)) as [row|] eqn:E; [|by vm_compute in E].
  assert (projection_version row = REDUCER_VERSION ∧ turn_count (row_state row) = 1) as [Hv Ht]
    by (vm_compute in E; by injection E as <-).
  destruct (rebuild_reproduces no_uuid demo_seen no_files demo_done row 1 demo_done_reachable)
    as (d & Hd & Hrows); [by vm_compute|done|done|by vm_compute|by vm_compute|].
  exists d. rewrite Hd, Ht. split; [reflexivity|exact Hrows].
Defined.

Lemma batch_split_witness :
  ∃ d1 d2 d o1 o2 o,
    project_batch no_uuid no_files demo_waiting 1 = Ok (with_db d1 demo_waiting, o1) ∧
    project_batch no_uuid no_files (with_db d1 demo_waiting) 2 = Ok (with_db d2 demo_waiting, o2) ∧
    project_batch no_uuid no_files demo_waiting 3 = Ok (with_db d demo_waiting, o) ∧
    rows d2 = rows d ∧ applied o1 + applied o2 = applied o ∧ more o2 = more o.
Proof.
  apply (batch_split no_uuid demo_seen no_files demo_waiting ∅ 1 2 demo_waiting_reachable demo_waiting_in_cap);
    lia.
Defined.
