(* ===== verification/Usage.v ===== *)
(** * Token usage accounting

    [ingest/usage.rs], [ingest/usage/records.rs] and [ingest/usage/claude.rs]:
    what a transcript record says about tokens, and how each stored event
    updates the session total, the per-day snapshots, the per-model daily
    deltas and the set of claimed Codex responses. [Replay] is the in-memory
    aggregation that a rebuild persists.

    The five token columns that every table and struct repeats are the
    code's own [UsageComponents]. The tables are those of one session. A
    statement whose row breaks a CHECK of its table, or whose sum leaves
    [BIGINT], is an error; Postgres checks the proposed row of an
    [INSERT ... ON CONFLICT] before it looks for the conflict. *)

From S2P Require Import Prelude Text Json.

(** ** Records *)

Inductive TranscriptSource : Type := ClaudeCode | Codex.

#[export] Instance TranscriptSource_eq_dec : EqDecision TranscriptSource.
Proof. solve_decision. Defined.

Definition agent_id (source : TranscriptSource) : string :=
  match source with ClaudeCode => "claude-code" | Codex => "codex" end.

Inductive UsageMode : Type := Cumulative | Delta.

#[export] Instance UsageMode_eq_dec : EqDecision UsageMode.
Proof. solve_decision. Defined.

Record UsageComponents : Type := mkComponents {
  input_tokens : Z;
  cached_input_tokens : Z;
  cache_write_input_tokens : Z;
  cache_write_1h_input_tokens : Z;
  output_tokens : Z;
}.

#[export] Instance UsageComponents_eq_dec : EqDecision UsageComponents.
Proof. solve_decision. Defined.

Definition components_default : UsageComponents := mkComponents 0 0 0 0 0.

Definition map2 (f : Z → Z → Z) (a b : UsageComponents) : UsageComponents :=
  mkComponents (f (input_tokens a) (input_tokens b))
    (f (cached_input_tokens a) (cached_input_tokens b))
    (f (cache_write_input_tokens a) (cache_write_input_tokens b))
    (f (cache_write_1h_input_tokens a) (cache_write_1h_input_tokens b))
    (f (output_tokens a) (output_tokens b)).

Definition map1 (f : Z → Z) (a : UsageComponents) : UsageComponents :=
  map2 (λ x _, f x) a a.

Definition all1 (p : Z → bool) (a : UsageComponents) : bool :=
  p (input_tokens a) && p (cached_input_tokens a) && p (cache_write_input_tokens a)
  && p (cache_write_1h_input_tokens a) && p (output_tokens a).

Record UsageUpdate : Type := mkUsage {
  mode : UsageMode;
  message_id : option string;
  model : option string;
  tokens : UsageComponents;
  reasoning_output_tokens : Z;
  total_tokens : Z;
  context_tokens : option Z;
  model_context_window : option Z;
}.

Record StoredUsage : Type := mkStored {
  stored_tokens : UsageComponents;
  last_usage_message_id : option string;
  last_byte_offset : Z;
  codex_response_records : bool;
}.

(** ** What a record says *)

Definition string_at (value : Value) (path : list string) : option string :=
  current ← at_path value path; as_str current.

(** The [as_u64] fallback of the code adds nothing: [as_i64] already takes
    every unsigned number that fits. *)
Definition positive_i64_at (value : Value) (path : list string) : option Z :=
  current ← at_path value path; parsed ← as_i64 current;
  if 0 <? parsed then Some parsed else None.

Definition token_at (value : Value) (key : string) : Z :=
  default 0 (positive_i64_at value [key]).

Definition total_token_count (value : Value) : Z :=
  default (saturating_add (token_at value "input_tokens") (token_at value "output_tokens"))
    (positive_i64_at value ["total_tokens"]).

(** [ingest/canonical/codex.rs]: [kind] wins over [type]. *)
Definition codex_record_kind (value : Value) : option string :=
  or_else (get value "kind" ≫= as_str) (get value "type" ≫= as_str).

(** [.filter(..)] on an option. *)
Definition keep {A} (p : A → bool) (o : option A) : option A :=
  a ← o; if p a then Some a else None.

Definition non_negative (o : option Value) : option Z :=
  keep (λ tokens, 0 <=? tokens) (o ≫= as_i64).

(** Reported input is inclusive of the cache categories in some versions;
    the subtraction never goes negative. *)
Definition net_input (reported cached writes : Z) : Z :=
  Z.max (saturating_sub (saturating_sub reported cached) writes) 0.

Definition extract_response (payload : Value) : option UsageUpdate :=
  response_id ← keep (λ id, negb (bool_decide (id = ""))) (get payload "response_id" ≫= as_str);
  usage ← keep is_object (get payload "usage");
  _ ← non_negative (get usage "input_tokens");
  _ ← non_negative (get usage "output_tokens");
  let cached := token_at usage "cached_input_tokens" in
  let writes := token_at usage "cache_write_input_tokens" in
  Some (mkUsage Delta (Some response_id) (string_at payload ["model"])
          (mkComponents (net_input (token_at usage "input_tokens") cached writes)
             cached writes 0 (token_at usage "output_tokens"))
          (token_at usage "reasoning_output_tokens") (total_token_count usage) None None).

Definition extract_codex_usage (value : Value) : option UsageUpdate :=
  payload ← get value "payload";
  if bool_decide (codex_record_kind value = Some "token_usage_record")
  then extract_response payload
  else if negb (bool_decide (codex_record_kind value = Some "event_msg"))
       || negb (bool_decide (string_at payload ["type"] = Some "token_count"))
  then None
  else
    info ← get payload "info";
    total ← get info "total_token_usage";
    let last := keep is_object (get info "last_token_usage") in
    let cached := token_at total "cached_input_tokens" in
    let writes := token_at total "cache_write_input_tokens" in
    Some (mkUsage Cumulative None None
            (mkComponents (net_input (token_at total "input_tokens") cached writes)
               cached writes 0 (token_at total "output_tokens"))
            (token_at total "reasoning_output_tokens") (total_token_count total)
            ((λ last, saturating_sub (total_token_count last)
                        (token_at last "reasoning_output_tokens")) <$> last)
            (positive_i64_at info ["model_context_window"])).

Definition extract_claude_usage (value : Value) : option UsageUpdate :=
  if negb (bool_decide (string_at value ["type"] = Some "assistant")) then None
  else
    let message := get value "message" in
    usage ← or_else (message ≫= λ message, get message "usage") (get value "usage");
    if negb (is_object usage) then None
    else
      let cache_write_5m :=
        default 0 (positive_i64_at usage ["cache_creation"; "ephemeral_5m_input_tokens"]) in
      let cache_write_1h :=
        default 0 (positive_i64_at usage ["cache_creation"; "ephemeral_1h_input_tokens"]) in
      let cache_write :=
        Z.max (saturating_sub (token_at usage "cache_creation_input_tokens") cache_write_1h)
          cache_write_5m in
      let cache_read := token_at usage "cache_read_input_tokens" in
      let input := token_at usage "input_tokens" in
      let output := token_at usage "output_tokens" in
      let total :=
        saturating_add (saturating_add (saturating_add (saturating_add input cache_write)
          cache_write_1h) cache_read) output in
      Some (mkUsage Delta (message ≫= λ message, get message "id" ≫= as_str)
              (message ≫= λ message, get message "model" ≫= as_str)
              (mkComponents input cache_read cache_write cache_write_1h output)
              0 total (Some total)
              (or_else (positive_i64_at usage ["model_context_window"])
                 (positive_i64_at value ["model_context_window"]))).

Definition extract_usage (source : TranscriptSource) (value : Value) : option UsageUpdate :=
  match source with
  | Codex => extract_codex_usage value
  | ClaudeCode => extract_claude_usage value
  end.

(** ** Tables *)

Record UsageRow : Type := mkRow {
  row_agent : string;
  row_tokens : UsageComponents;
  row_reasoning : Z;
  row_total : Z;
  row_context : option Z;
  row_window : option Z;
  row_offset : Z;
  row_observed_at : Z;
  row_message_id : option string;
  row_response_records : bool;
}.

Record DayRow : Type := mkDay {
  day_agent : string;
  day_tokens : UsageComponents;
  day_reasoning : Z;
  day_total : Z;
}.

Record ModelDayRow : Type := mkModelDay {
  md_agent : string;
  md_tokens : UsageComponents;
  md_message_id : option string;
}.

(** [agent_session_usage], [agent_usage_daily], [agent_model_usage_daily]
    and [agent_usage_responses]. *)
Record UsageDb : Type := mkUsageDb {
  session_usage : option UsageRow;
  usage_daily : gmap Z DayRow;
  model_daily : gmap (Z * string) ModelDayRow;
  responses : gset string;
}.

Definition usage_empty : UsageDb := mkUsageDb None ∅ ∅ ∅.

Definition set_session_usage r db := mkUsageDb r (usage_daily db) (model_daily db) (responses db).
Definition set_usage_daily d db := mkUsageDb (session_usage db) d (model_daily db) (responses db).
Definition set_model_daily m db := mkUsageDb (session_usage db) (usage_daily db) m (responses db).
Definition set_responses s db := mkUsageDb (session_usage db) (usage_daily db) (model_daily db) s.

Definition DAY_MICROS : Z := 86400000000.

(** [DateTime::date_naive], as days since the epoch. *)
Definition date_naive (at_ : Z) : Z := at_ / DAY_MICROS.

Definition check_violation {A} : res A := bail "violates check constraint".
Definition out_of_range {A} : res A := bail "bigint out of range".

Definition opt_all (p : Z → bool) (o : option Z) : bool := default true (p <$> o).

(** The CHECK constraints of [agent_session_usage] (migrations 0055, 0075). *)
Definition row_checks (row : UsageRow) : bool :=
  all1 (λ z, 0 <=? z) (row_tokens row) && (0 <=? row_reasoning row) && (0 <=? row_total row)
  && opt_all (λ z, 0 <=? z) (row_context row) && opt_all (λ z, 0 <? z) (row_window row).

(** The token columns a statement computes fit [BIGINT]. *)
Definition row_range (row : UsageRow) : bool :=
  all1 in_i64b (row_tokens row) && in_i64b (row_reasoning row) && in_i64b (row_total row).

Definition check_row (row : UsageRow) : res UsageRow :=
  if row_checks row then Ok row else check_violation.

(** A new value of the five columns: in range and not negative. *)
Definition checked_tokens (t : UsageComponents) : res UsageComponents :=
  if negb (all1 in_i64b t) then out_of_range
  else if negb (all1 (λ z, 0 <=? z) t) then check_violation
  else Ok t.

(** A nullable text column read by [#>>]: strings as they are, other scalars
    as Postgres prints them, a parameter of the model. *)
Section usage.
Context (json_text : Value → string).

Definition pg_text (o : option Value) : option string :=
  v ← o; match v with Str s => Some s | Null => None | v => Some (json_text v) end.

(** ** Writing *)

(** [INSERT ... ON CONFLICT (session_uuid) DO UPDATE] of [store_usage]. *)
Definition store_usage (source : TranscriptSource) (offset observed_at : Z)
    (usage : UsageUpdate) (response_record : bool) (db : UsageDb) : res UsageDb :=
  let is_delta := bool_decide (mode usage = Delta) in
  excluded ← check_row (mkRow (agent_id source) (tokens usage) (reasoning_output_tokens usage)
    (total_tokens usage) (context_tokens usage) (model_context_window usage) offset observed_at
    (message_id usage) response_record);
  match session_usage db with
  | None => Ok (set_session_usage (Some excluded) db)
  | Some row =>
      if row_offset row <? row_offset excluded then
        let duplicate := is_some (message_id usage)
                         && bool_decide (message_id usage = row_message_id row) in
        let column (old new : Z) : Z :=
          if negb is_delta then new else if duplicate then old else old + new in
        let row' := mkRow (row_agent excluded) (map2 column (row_tokens row) (row_tokens excluded))
          (column (row_reasoning row) (row_reasoning excluded))
          (column (row_total row) (row_total excluded))
          (or_else (row_context excluded) (row_context row))
          (or_else (row_window excluded) (row_window row))
          (row_offset excluded) (row_observed_at excluded)
          (or_else (row_message_id excluded) (row_message_id row))
          (row_response_records row || row_response_records excluded) in
        if negb (row_range row') then out_of_range
        else row'' ← check_row row'; Ok (set_session_usage (Some row'') db)
      else Ok db
  end.

Definition daily_delta (self : UsageUpdate) (previous : option StoredUsage) : UsageComponents :=
  match mode self with
  | Delta =>
      if match message_id self with
         | Some message_id =>
             bool_decide ((previous ≫= last_usage_message_id) = Some message_id)
         | None => false
         end
      then components_default
      else map1 (λ z, Z.max z 0) (tokens self)
  | Cumulative =>
      map2 (λ new old, Z.max (saturating_sub new old) 0) (tokens self)
        (default components_default (stored_tokens <$> previous))
  end.

Definition add_model_daily (agent model : string) (observed_at : Z) (usage : UsageComponents)
    (message_id : option string) (db : UsageDb) : res UsageDb :=
  let key := (date_naive observed_at, model) in
  _ ← checked_tokens usage;
  match model_daily db !! key with
  | None => Ok (set_model_daily (<[key := mkModelDay agent usage message_id]> (model_daily db)) db)
  | Some row =>
      t ← checked_tokens (map2 Z.add (md_tokens row) usage);
      Ok (set_model_daily
            (<[key := mkModelDay agent t (or_else message_id (md_message_id row))]>
               (model_daily db)) db)
  end.

Definition snapshot (row : UsageRow) : DayRow :=
  mkDay (row_agent row) (row_tokens row) (row_reasoning row) (row_total row).

(** The snapshot copies columns that already passed the same CHECKs. *)
Definition snapshot_daily (observed_at : Z) (db : UsageDb) : UsageDb :=
  match session_usage db with
  | None => db
  | Some row =>
      set_usage_daily (<[date_naive observed_at := snapshot row]> (usage_daily db)) db
  end.

(** Whether the insert affected a row, and the table after it. *)
Definition claim_response (response_id : string) (db : UsageDb) : bool * UsageDb :=
  (negb (bool_decide (response_id ∈ responses db)),
   set_responses ({[response_id]} ∪ responses db) db).

Definition update_context (offset observed_at : Z) (usage : UsageUpdate) (db : UsageDb)
    : res UsageDb :=
  db ← match session_usage db with
       | Some row =>
           if row_offset row <? offset then
             row' ← check_row (mkRow (row_agent row) (row_tokens row) (row_reasoning row)
               (row_total row) (or_else (context_tokens usage) (row_context row))
               (or_else (model_context_window usage) (row_window row)) offset observed_at
               (row_message_id row) (row_response_records row));
             Ok (set_session_usage (Some row') db)
           else Ok db
       | None => Ok db
       end;
  Ok (snapshot_daily observed_at db).

(** ** Events *)

(** The columns of [events] the accounting reads; a list is the session's
    events in [byte_offset] order. *)
Record UsageEvent : Type := mkUsageEvent {
  byte_offset : Z;
  timestamp : Z;
  kind : string;
  subtype : option string;
  payload : Value;
}.

(** [stored_event_kind] of [ingest/ingester/insert.rs] *)
Definition stored_event_kind (source : TranscriptSource) (value : Value) : string :=
  match source with
  | ClaudeCode => default "unknown" (get value "type" ≫= as_str)
  | Codex =>
      let outer := default "" (codex_record_kind value) in
      let subtype := default "unknown"
        (keep (λ kind, negb (bool_decide (kind = ""))) (string_at value ["payload"; "type"])) in
      if bool_decide (outer ∈ ["response_item"; "event_msg"; ""]) then subtype else outer
  end.

Definition inherited (e : UsageEvent) : bool :=
  bool_decide (subtype e = Some "inherited_history").

(** The model the latest turn context at or before [offset] recorded. *)
Definition recorded_model (events : list UsageEvent) (offset : Z) : option string :=
  e ← last (filter (λ e, byte_offset e ≤ offset ∧ kind e = "turn_context" ∧ inherited e = false ∧
                         is_Some (pg_text (at_path (payload e) ["payload"; "model"]))) events);
  pg_text (at_path (payload e) ["payload"; "model"]).

(** ** Claude responses *)

Definition claude_usage_column (value : Value) : option Value :=
  or_else (at_path value ["message"; "usage"]) (get value "usage").

(** An assistant receipt with a usage object. *)
Definition is_receipt (e : UsageEvent) : Prop :=
  kind e = "assistant" ∧ (is_object <$> claude_usage_column (payload e)) = Some true.

#[export] Instance is_receipt_dec e : Decision (is_receipt e).
Proof. unfold is_receipt. apply _. Defined.

Definition message_id_text (e : UsageEvent) : option string :=
  pg_text (at_path (payload e) ["message"; "id"]).

Definition prior_receipt (events : list UsageEvent) (id : string) (offset : Z)
    : option UsageEvent :=
  last (filter (λ e, is_receipt e ∧ message_id_text e = Some id ∧ byte_offset e < offset) events).

(** [COALESCE(payload #>> '{message,id}', byte_offset::TEXT)] *)
Definition receipt_key (e : UsageEvent) : string :=
  default (pretty (byte_offset e)) (message_id_text e).

(** [DISTINCT ON (receipt_key) ... ORDER BY receipt_key, byte_offset DESC]:
    the last receipt of each key. *)
Fixpoint receipts (events : list UsageEvent) : list UsageEvent :=
  match events with
  | [] => []
  | e :: events =>
      if decide (is_receipt e) then
        if decide (Exists (λ e', is_receipt e' ∧ receipt_key e' = receipt_key e) events)
        then receipts events else e :: receipts events
      else receipts events
  end.

Definition unknown_model : string := "(unknown model)".

Definition receipt_model (e : UsageEvent) : string :=
  default unknown_model (pg_text (at_path (payload e) ["message"; "model"])).

(** The buckets some receipt still accounts for. *)
Definition keep_receipt_buckets (events : list UsageEvent)
    (m : gmap (Z * string) ModelDayRow) : gmap (Z * string) ModelDayRow :=
  filter (λ kv : (Z * string) * ModelDayRow,
    kv.1 ∈ map (λ r, (date_naive (timestamp r), receipt_model r)) (receipts events)) m.

Definition sum_tokens (l : list UsageComponents) : UsageComponents :=
  foldr (map2 Z.add) components_default l.

(** The running total of the model buckets up to [day]. *)
Definition through_day (day : Z) (m : gmap (Z * string) ModelDayRow) : UsageComponents :=
  sum_tokens ((λ kv : (Z * string) * ModelDayRow, md_tokens kv.2) <$>
                filter (λ kv : (Z * string) * ModelDayRow, kv.1.1 ≤ day) (map_to_list m)).

Definition sum_components (t : UsageComponents) : Z :=
  input_tokens t + cached_input_tokens t + cache_write_input_tokens t
  + cache_write_1h_input_tokens t + output_tokens t.

(** One row per day that has a bucket. The window sums are [NUMERIC]; the
    insert casts them to [BIGINT]. *)
Definition rebuild_daily_snapshots (db : UsageDb) : res UsageDb :=
  daily ← try_fold (λ d day,
      let t := through_day day (model_daily db) in
      if negb (all1 in_i64b t && in_i64b (sum_components t)) then out_of_range
      else Ok (<[day := mkDay "claude-code" t 0 (sum_components t)]> d))
    (elements (set_map fst (dom (model_daily db)) : gset Z)) ∅;
  Ok (set_usage_daily daily db).

(** The two updates of the session row. *)
Definition add_response (offset observed_at : Z) (usage : UsageUpdate)
    (previous : option UsageUpdate) (db : UsageDb) : res UsageDb :=
  let sub (new old : Z) : Z := wrap64 (new - old) in
  let delta := match previous with
    | Some p => map2 sub (tokens usage) (tokens p)
    | None => tokens usage end in
  let delta_reasoning := match previous with
    | Some p => sub (reasoning_output_tokens usage) (reasoning_output_tokens p)
    | None => reasoning_output_tokens usage end in
  let delta_total := match previous with
    | Some p => sub (total_tokens usage) (total_tokens p)
    | None => total_tokens usage end in
  let row := default (mkRow "claude-code" components_default 0 0 None None offset observed_at
                        None false) (session_usage db) in
  let row' := mkRow (row_agent row) (map2 Z.add (row_tokens row) delta)
    (row_reasoning row + delta_reasoning) (row_total row + delta_total)
    (context_tokens usage) (or_else (model_context_window usage) (row_window row))
    offset observed_at (message_id usage) (row_response_records row) in
  if negb (row_range row') then out_of_range else
  row'' ← check_row row';
  Ok (set_session_usage (Some row'') db).

(** The update that takes the previous contribution out of its bucket. *)
Definition remove_previous (prior : option UsageEvent) (previous : option UsageUpdate)
    (db : UsageDb) : res UsageDb :=
  match prior, previous with
  | Some r, Some p =>
      let key := (date_naive (timestamp r), default unknown_model (model p)) in
      match model_daily db !! key with
      | None => Ok db
      | Some bucket =>
          t ← checked_tokens (map2 Z.sub (md_tokens bucket) (tokens p));
          Ok (set_model_daily (<[key := mkModelDay (md_agent bucket) t
                (md_message_id bucket)]> (model_daily db)) db)
      end
  | _, _ => Ok db
  end.

Definition moved_day (observed_at : Z) (prior : option UsageEvent) : bool :=
  match prior with
  | Some r => negb (bool_decide (date_naive (timestamp r) = date_naive observed_at))
  | None => false
  end.

Definition drop_moved (events : list UsageEvent) (observed_at : Z) (usage : UsageUpdate)
    (prior : option UsageEvent) (previous : option UsageUpdate) (db : UsageDb) : UsageDb :=
  match previous with
  | Some p =>
      if moved_day observed_at prior || negb (bool_decide (model p = model usage))
      then set_model_daily (keep_receipt_buckets events (model_daily db)) db
      else db
  | None => db
  end.

Definition apply_response (events : list UsageEvent) (offset observed_at : Z)
    (usage : UsageUpdate) (db : UsageDb) : res UsageDb :=
  let prior := id ← message_id usage; prior_receipt events id offset in
  let previous := r ← prior; extract_claude_usage (payload r) in
  db ← add_response offset observed_at usage previous db;
  db ← remove_previous prior previous db;
  db ← add_model_daily "claude-code" (default unknown_model (model usage)) observed_at
         (daily_delta usage None) (message_id usage) db;
  let db := drop_moved events observed_at usage prior previous db in
  if moved_day observed_at prior then rebuild_daily_snapshots db
  else Ok (snapshot_daily observed_at db).

(** ** One event *)

Definition stored_usage (row : UsageRow) : StoredUsage :=
  mkStored (row_tokens row) (row_message_id row) (row_offset row) (row_response_records row).

(** [events] is the table once the event itself is inserted. *)
Definition upsert_from_event (events : list UsageEvent) (source : TranscriptSource)
    (offset observed_at : Z) (value : Value) (db : UsageDb) : res UsageDb :=
  match extract_usage source value with
  | None => Ok db
  | Some usage =>
    let previous := stored_usage <$> session_usage db in
    if match previous with Some row => offset <=? last_byte_offset row | None => false end
    then Ok db
    else if bool_decide (source = ClaudeCode)
    then apply_response events offset observed_at usage db
    else
      let response_record := bool_decide (source = Codex) && bool_decide (mode usage = Delta) in
      if bool_decide (source = Codex) && negb response_record
         && match previous with Some row => codex_response_records row | None => false end
      then update_context offset observed_at usage db
      else
        '(claimed, db) ← (if response_record then
            match message_id usage with
            | Some id => Ok (claim_response id db)
            | None => panic "unwrap on None"
            end else Ok (true, db));
        if negb claimed then Ok db else
        let delta := daily_delta usage previous in
        let recorded := if bool_decide (source = Codex) && is_none (model usage)
                        then recorded_model events offset else None in
        let model := default unknown_model (or_else (model usage) recorded) in
        db ← store_usage source offset observed_at usage response_record db;
        db ← add_model_daily (agent_id source) model observed_at delta (message_id usage) db;
        Ok (snapshot_daily observed_at db)
  end.

(** [insert_event] for the accounting: the event row first, then, unless it
    is copied from a parent session, its usage. *)
Definition insert_usage (source : TranscriptSource) (s : list UsageEvent * UsageDb)
    (e : UsageEvent) : res (list UsageEvent * UsageDb) :=
  let events := s.1 ++ [e] in
  if inherited e then Ok (events, s.2)
  else db ← upsert_from_event events source (byte_offset e) (timestamp e) (payload e) s.2;
       Ok (events, db).

(** ** Replay *)

(** A day's last accepted event: offset, time, running total, and whether a
    response had been seen. *)
Definition DayEntry : Type := Z * Z * UsageUpdate * bool.

Definition day_le (a b : DayEntry) : Prop := a.1.1.1 ≤ b.1.1.1.

#[export] Instance day_le_dec a b : Decision (day_le a b).
Proof. unfold day_le. apply _. Defined.

Record Replay : Type := mkReplay {
  r_model : option string;
  r_total : option UsageUpdate;
  r_responses : gset string;
  r_days : gmap Z DayEntry;
  r_models : gmap (Z * string) UsageComponents;
}.

Definition replay_default : Replay := mkReplay None None ∅ ∅ ∅.

Definition accumulate (total next : UsageUpdate) (context_only : bool) : UsageUpdate :=
  let context := or_else (context_tokens next) (context_tokens total) in
  let window := or_else (model_context_window next) (model_context_window total) in
  let total :=
    if context_only then total
    else match mode next with
         | Cumulative => next
         | Delta =>
             mkUsage (mode total) (message_id next) (model total)
               (map2 saturating_add (tokens total) (tokens next))
               (saturating_add (reasoning_output_tokens total) (reasoning_output_tokens next))
               (saturating_add (total_tokens total) (total_tokens next))
               (context_tokens total) (model_context_window total)
         end in
  mkUsage (mode total) (message_id total) (model total) (tokens total)
    (reasoning_output_tokens total) (total_tokens total) context window.

Definition as_cumulative (u : UsageUpdate) : UsageUpdate :=
  mkUsage Cumulative (message_id u) (model u) (tokens u) (reasoning_output_tokens u)
    (total_tokens u) (context_tokens u) (model_context_window u).

Definition has_responses (r : Replay) : bool := negb (bool_decide (r_responses r = ∅)).

(** [Replay::observe] on an event's offset, timestamp and rebuilt payload. *)
Definition observe (self : Replay) (offset at_ : Z) (value : Value) : res Replay :=
  if bool_decide (codex_record_kind value = Some "turn_context") then
    Ok match string_at value ["payload"; "model"] with
       | Some m => mkReplay (Some m) (r_total self) (r_responses self) (r_days self) (r_models self)
       | None => self
       end
  else match extract_codex_usage value with
  | None => Ok self
  | Some usage =>
    let is_response := bool_decide (mode usage = Delta) in
    '(fresh, responses) ← (if is_response then
        match message_id usage with
        | Some id => Ok (negb (bool_decide (id ∈ r_responses self)), {[id]} ∪ r_responses self)
        | None => panic "unwrap on None"
        end else Ok (true, r_responses self));
    if negb fresh then Ok self else
    let self := mkReplay (r_model self) (r_total self) responses (r_days self) (r_models self) in
    let context_only := negb is_response && has_responses self in
    let models :=
      if context_only then r_models self
      else
        let previous := (λ total, mkStored (tokens total) (message_id total) (-1)
                           (has_responses self)) <$> r_total self in
        let delta := daily_delta usage previous in
        let model := default unknown_model (or_else (model usage) (r_model self)) in
        let key := (date_naive at_, model) in
        let day := default components_default (r_models self !! key) in
        <[key := map2 (λ a b, wrap64 (a + b)) day delta]> (r_models self) in
    let total := match r_total self with
      | Some total => accumulate total usage context_only
      | None => usage end in
    Ok (mkReplay (r_model self) (Some total) (r_responses self)
          (<[date_naive at_ := (offset, at_, as_cumulative total, has_responses self)]> (r_days self))
          models)
  end.

(** The payload the rebuild's query selects. *)
Definition replay_payload (e : UsageEvent) : Value :=
  json_object
    [("type", json_opt_str (or_else (pg_text (get (payload e) "type"))
                              (pg_text (get (payload e) "kind"))));
     ("payload", if bool_decide (kind e = "turn_context")
                 then json_object
                   [("model", default Null (at_path (payload e) ["payload"; "model"]))]
                 else default Null (get (payload e) "payload"))].

Definition replayed (e : UsageEvent) : Prop :=
  inherited e = false ∧ kind e ∈ ["token_count"; "token_usage_record"; "turn_context"].

#[export] Instance replayed_dec e : Decision (replayed e).
Proof. unfold replayed. apply _. Defined.

(** [persist_replay] after its three deletes; [agent_usage_responses] was
    cleared when the rebuild began. Each inserted response is new: the
    replay's are a set. *)
Definition persist_replay (replay : Replay) : res UsageDb :=
  db ← try_fold (λ db '(offset, at_, usage, modern),
         db ← store_usage Codex offset at_ usage modern db;
         Ok (snapshot_daily at_ db))
       (merge_sort day_le (map snd (map_to_list (r_days replay)))) usage_empty;
  db ← try_fold (λ db '((date, model), usage),
         add_model_daily "codex" model (date * DAY_MICROS) usage None db)
       (map_to_list (r_models replay)) db;
  Ok (set_responses (r_responses replay) db).

(** One session of [records::rebuild]; [None] when it has no response. *)
Definition rebuild_session (events : list UsageEvent) : res (option UsageDb) :=
  replay ← try_fold (λ r e, observe r (byte_offset e) (timestamp e) (replay_payload e))
             (filter replayed events) replay_default;
  if has_responses replay then db ← persist_replay replay; Ok (Some db) else Ok None.
End usage.
