(* ===== verification/CodexUsage.v ===== *)
(** * Codex accounting: the live rows are the replayed rows

    [upsert_from_event] updates four tables one event at a time;
    [Replay::observe] aggregates a session in memory and [persist_replay]
    writes the result. [sim] relates the two states after the same events,
    and [persist_sim] shows that persisting the aggregate gives the live
    rows. *)

From S2P Require Import Prelude Text Json Usage.

#[local] Arguments token_at : simpl never.
#[local] Arguments net_input : simpl never.
#[local] Arguments total_token_count : simpl never.

(** ** What extraction yields *)

Lemma extract_response_inv p u :
  extract_response p = Some u →
  mode u = Delta ∧ is_Some (message_id u) ∧ context_tokens u = None ∧
  model_context_window u = None.
Proof.
  unfold extract_response. intros H.
  repeat (apply bind_Some in H as (? & _ & H)). simplify_eq/=. naive_solver.
Qed.

Lemma extract_codex_inv v u :
  extract_codex_usage v = Some u →
  (mode u = Delta ∧ is_Some (message_id u) ∧ context_tokens u = None ∧
   model_context_window u = None ∧ codex_record_kind v = Some "token_usage_record") ∨
  (mode u = Cumulative ∧ message_id u = None ∧ model u = None ∧
   codex_record_kind v = Some "event_msg" ∧
   string_at v ["payload"; "type"] = Some "token_count").
Proof.
  unfold extract_codex_usage. intros (p & Hp & H)%bind_Some.
  case_bool_decide as Hk.
  { apply extract_response_inv in H. naive_solver. }
  destruct (bool_decide (codex_record_kind v = _)) eqn:E1;
    apply bool_decide_eq_true in E1 || done.
  destruct (bool_decide (string_at p _ = _)) eqn:E2;
    apply bool_decide_eq_true in E2 || done.
  right. cbn in H. repeat (apply bind_Some in H as (? & _ & H)). simplify_eq/=.
  unfold string_at in *. cbn in *. rewrite Hp. naive_solver.
Qed.

(** Token counts are [i64] by construction. *)
Definition usage_range (t : UsageComponents) (reasoning total : Z) : bool :=
  all1 in_i64b t && in_i64b reasoning && in_i64b total.

Lemma positive_range v path z : positive_i64_at v path = Some z → in_i64 z.
Proof.
  unfold positive_i64_at, in_i64, i64_min.
  intros (w & _ & (n & Hn & H)%bind_Some)%bind_Some.
  destruct (Z.ltb_spec 0 n); simplify_eq/=.
  destruct w as [| |[m|m|m]| | |]; simplify_eq/=.
  - destruct (Z.leb_spec m i64_max); simplify_eq. lia.
  - lia.
Qed.

Lemma token_at_range v k : in_i64 (token_at v k).
Proof.
  unfold token_at. destruct (positive_i64_at v [k]) eqn:E; simpl.
  - by eapply positive_range.
  - by unfold in_i64, i64_min, i64_max.
Qed.

Lemma net_input_range a b c : in_i64 (net_input a b c).
Proof.
  unfold net_input, saturating_sub. generalize (clamp64 (a - b)); intros z.
  pose proof (clamp64_range (z - c)) as H. unfold in_i64, i64_min, i64_max in *. lia.
Qed.

Lemma total_token_count_range v : in_i64 (total_token_count v).
Proof.
  unfold total_token_count. destruct (positive_i64_at v _) eqn:E; simpl.
  - by eapply positive_range.
  - apply clamp64_range.
Qed.

Lemma usage_range_intro t r n :
  in_i64 (input_tokens t) → in_i64 (cached_input_tokens t) →
  in_i64 (cache_write_input_tokens t) → in_i64 (cache_write_1h_input_tokens t) →
  in_i64 (output_tokens t) → in_i64 r → in_i64 n → usage_range t r n = true.
Proof.
  rewrite <-!in_i64b_spec. unfold usage_range, all1. by intros -> -> -> -> -> -> ->.
Qed.

Lemma extract_codex_range v u :
  extract_codex_usage v = Some u →
  usage_range (tokens u) (reasoning_output_tokens u) (total_tokens u) = true.
Proof.
  unfold extract_codex_usage, extract_response. intros (p & _ & H)%bind_Some.
  assert (in_i64 0) by done.
  case_bool_decide; [|destruct (_ || _); [done|]]; cbn in H;
    repeat (apply bind_Some in H as (? & _ & H)); simplify_eq/=;
    apply usage_range_intro; cbn;
    auto using token_at_range, net_input_range, total_token_count_range.
Qed.

(** Extraction reads the record kind and the payload only. *)
Lemma extract_codex_ext v v' :
  codex_record_kind v' = codex_record_kind v →
  get v' "payload" = Some (default Null (get v "payload")) →
  extract_codex_usage v' = extract_codex_usage v.
Proof.
  intros Hk Hp. unfold extract_codex_usage. rewrite Hk, Hp.
  destruct (get v "payload") as [p|]; simpl; [done|].
  case_bool_decide; [done|]. by destruct (negb (bool_decide (_ = Some "event_msg"))).
Qed.

Lemma map2_new a b : map2 (λ _ new, new) a b = b.
Proof. by destruct b. Qed.

#[local] Arguments map2 : simpl never.
#[local] Arguments row_range : simpl never.
#[local] Arguments row_checks : simpl never.
#[local] Arguments all1 : simpl never.

Section codex.
Context (json_text : Value → string).

(** ** Well-formed Codex events

    The kind column is the one [insert_event] stores; [type] and [kind]
    agree with the rebuild's reading of them; a turn context is one by its
    record kind, and names its model by a string. *)
Record codex_event (e : UsageEvent) : Prop := {
  ce_kind : kind e = stored_event_kind Codex (payload e);
  ce_type : or_else (pg_text json_text (get (payload e) "type"))
              (pg_text json_text (get (payload e) "kind")) = codex_record_kind (payload e);
  ce_context : kind e = "turn_context" → codex_record_kind (payload e) = Some "turn_context";
  ce_model : pg_text json_text (at_path (payload e) ["payload"; "model"]) =
             string_at (payload e) ["payload"; "model"];
}.

Lemma replay_payload_kind e :
  codex_event e → codex_record_kind (replay_payload json_text e) = codex_record_kind (payload e).
Proof.
  intros He. unfold replay_payload. rewrite (ce_type _ He).
  destruct (codex_record_kind (payload e)) as [k|] eqn:E; reflexivity.
Qed.

Lemma replay_payload_payload e :
  kind e ≠ "turn_context" →
  get (replay_payload json_text e) "payload" = Some (default Null (get (payload e) "payload")).
Proof. intros Hk. unfold replay_payload. rewrite bool_decide_false by done. reflexivity. Qed.

Lemma replay_payload_model e :
  kind e = "turn_context" →
  string_at (replay_payload json_text e) ["payload"; "model"] =
  string_at (payload e) ["payload"; "model"].
Proof.
  intros Hk. unfold replay_payload. rewrite bool_decide_true by done.
  unfold string_at at 2. destruct (at_path (payload e) _) as [v|] eqn:E; reflexivity.
Qed.

Lemma stored_kind_usage v u :
  extract_codex_usage v = Some u →
  stored_event_kind Codex v ∈ ["token_count"; "token_usage_record"].
Proof.
  intros [(_ & _ & _ & _ & Hk)|(_ & _ & _ & Hk & Ht)]%extract_codex_inv;
    unfold stored_event_kind; rewrite Hk.
  - cbn. set_solver.
  - rewrite Ht. cbn. set_solver.
Qed.

Lemma stored_kind_context v :
  codex_record_kind v = Some "turn_context" → stored_event_kind Codex v = "turn_context".
Proof. intros Hk. unfold stored_event_kind. by rewrite Hk. Qed.

(** ** Rows and day entries *)

Definition entry_row (en : DayEntry) : UsageRow :=
  let '(offset, at_, u, modern) := en in
  mkRow "codex" (tokens u) (reasoning_output_tokens u) (total_tokens u) (context_tokens u)
    (model_context_window u) offset at_ (message_id u) modern.

Definition entry_offset (en : DayEntry) : Z := en.1.1.1.
Definition entry_day (en : DayEntry) : Z := date_naive en.1.1.2.

(** Later entries know at least as much as earlier ones. *)
Definition grows {A} (a b : option A) : Prop := is_Some a → is_Some b.

Definition dominated (a b : DayEntry) : Prop :=
  let ra := entry_row a in let rb := entry_row b in
  grows (row_context ra) (row_context rb) ∧ grows (row_window ra) (row_window rb) ∧
  grows (row_message_id ra) (row_message_id rb) ∧
  (row_response_records ra = true → row_response_records rb = true).

Lemma dominated_trans a b c : dominated a b → dominated b c → dominated a c.
Proof. unfold dominated, grows. naive_solver. Qed.

Lemma dominated_refl a : dominated a a.
Proof. unfold dominated, grows. naive_solver. Qed.

Definition before (a b : DayEntry) : Prop := entry_offset a < entry_offset b ∧ dominated a b.

Record entry_ok (en : DayEntry) : Prop := {
  eo_mode : mode en.1.2 = Cumulative;
  eo_checks : row_checks (entry_row en) = true;
  eo_range : row_range (entry_row en) = true;
}.

(** The entries of the days map: each under its own day, every two of them
    ordered, none after [last]. *)
Record days_ok (days : gmap Z DayEntry) (last : DayEntry) : Prop := {
  do_day d en : days !! d = Some en → entry_day en = d;
  do_ok d en : days !! d = Some en → entry_ok en;
  do_order d1 d2 a b : days !! d1 = Some a → days !! d2 = Some b →
    d1 ≠ d2 → before a b ∨ before b a;
  do_last : days !! entry_day last = Some last;
  do_max d en : days !! d = Some en → en = last ∨ before en last;
}.

(** A later entry that knows as much as [last] takes its place. *)
Lemma days_ok_insert days last en :
  days_ok days last → before last en → entry_ok en →
  days_ok (<[entry_day en := en]> days) en.
Proof.
  intros Hd [Hlt Hdom] Hok.
  assert (Hall : ∀ d a, days !! d = Some a → before a en).
  { intros d a Ha. destruct (do_max _ _ Hd d a Ha) as [->|[Hl Hm]]; [done|].
    split; [lia|by eapply dominated_trans]. }
  split.
  - intros d a. rewrite lookup_insert_Some. intros [[<- <-]|[_ Ha]]; [done|].
    by apply (do_day _ _ Hd).
  - intros d a. rewrite lookup_insert_Some. intros [[<- <-]|[_ Ha]]; [done|].
    by eapply (do_ok _ _ Hd).
  - intros d1 d2 a b. rewrite !lookup_insert_Some.
    intros [[<- <-]|[? Ha]] [[<- <-]|[? Hb]] Hne; [done| | |].
    + right. by eapply Hall.
    + left. by eapply Hall.
    + by eapply (do_order _ _ Hd d1 d2).
  - by rewrite lookup_insert_eq.
  - intros d a. rewrite lookup_insert_Some. intros [[<- <-]|[? Ha]]; [by left|].
    right. by eapply Hall.
Qed.

Lemma days_ok_singleton en : entry_ok en → days_ok {[entry_day en := en]} en.
Proof.
  intros Hok. split.
  - by intros d a [<- <-]%lookup_singleton_Some.
  - by intros d a [<- <-]%lookup_singleton_Some.
  - by intros d1 d2 a b [<- <-]%lookup_singleton_Some [<- <-]%lookup_singleton_Some.
  - by rewrite lookup_singleton_eq.
  - intros d a [<- <-]%lookup_singleton_Some. by left.
Qed.

(** ** Persisting the days *)

Definition write_day (db : UsageDb) (en : DayEntry) : UsageDb :=
  set_usage_daily (<[entry_day en := snapshot (entry_row en)]> (usage_daily db))
    (set_session_usage (Some (entry_row en)) db).

Lemma or_else_grows {A} (a b : option A) : grows b a → or_else a b = a.
Proof. destruct a, b; simpl; try done. intros H. by destruct (H (mk_is_Some _ _ eq_refl)). Qed.

Definition persist_day (db : UsageDb) (en : DayEntry) : res UsageDb :=
  let '(offset, at_, usage, modern) := en in
  db ← store_usage Codex offset at_ usage modern db;
  Ok (snapshot_daily at_ db).

Lemma persist_day_first db en :
  entry_ok en → session_usage db = None → persist_day db en = Ok (write_day db en).
Proof.
  destruct en as [[[o at_] u] b]. intros [Hm Hc _] Hnone. unfold persist_day, store_usage, check_row.
  cbn [entry_row] in Hc. cbn [agent_id]. rewrite Hc. cbn. by rewrite Hnone.
Qed.

Lemma persist_day_next db a en :
  entry_ok en → session_usage db = Some (entry_row a) → before a en →
  persist_day db en = Ok (write_day db en).
Proof.
  destruct a as [[[oa ta] ua] ba], en as [[[o at_] u] b].
  intros [Hm Hc Hr] Hrow [Hlt (Hctx & Hwin & Hid & Hrec)]. unfold entry_offset in Hlt. cbn in *.
  unfold persist_day, store_usage, check_row. cbn [agent_id]. rewrite Hc. cbn. rewrite Hrow, Hm. cbn.
  rewrite (proj2 (Z.ltb_lt oa o)) by done. cbn.
  rewrite !or_else_grows by done.
  replace (ba || b) with b by (destruct ba, b; try done; by destruct (Hrec eq_refl)).
  rewrite (bool_decide_false (Cumulative = Delta)) by done. cbn.
  rewrite map2_new. cbn in *. rewrite Hr. cbn. by rewrite Hc.
Qed.

(** A chain of entries written in order leaves the last one's row and every
    day's snapshot. *)
Lemma persist_days_chain l : ∀ db a,
  Forall entry_ok (a :: l) → StronglySorted before (a :: l) →
  session_usage db = Some (entry_row a) →
  try_fold persist_day l db = Ok (foldl write_day db l).
Proof.
  induction l as [|b l IH]; intros db a Hok Hs Hrow; [done|].
  apply Forall_cons in Hok as [_ Hok]. apply StronglySorted_inv in Hs as [Hs Hab].
  apply Forall_cons in Hab as [Hab _]. simpl.
  rewrite (persist_day_next db a b) by (done || by apply Forall_inv in Hok).
  simpl. by apply (IH _ b).
Qed.

Lemma persist_days l db :
  Forall entry_ok l → StronglySorted before l → session_usage db = None →
  try_fold persist_day l db = Ok (foldl write_day db l).
Proof.
  destruct l as [|a l]; intros Hok Hs Hnone; [done|]. simpl.
  rewrite persist_day_first by (done || by apply Forall_inv in Hok). simpl.
  by apply (persist_days_chain _ _ a).
Qed.

Lemma write_days l : ∀ db,
  usage_daily (foldl write_day db l) =
    upsert_all entry_day (λ en _, snapshot (entry_row en)) l (usage_daily db) ∧
  session_usage (foldl write_day db l) =
    or_else (entry_row <$> last l) (session_usage db) ∧
  model_daily (foldl write_day db l) = model_daily db ∧
  responses (foldl write_day db l) = responses db.
Proof.
  induction l as [|a l IH]; intros db; simpl; [done|].
  destruct (IH (write_day db a)) as (-> & -> & -> & ->). split_and!; try done.
  destruct l as [|b l]; [done|]. rewrite (last_cons_cons a b l).
  destruct (last (b :: l)) eqn:E; [done|]. by apply last_None in E.
Qed.

(** The order in which [persist_replay] visits the days. *)
Definition day_order (days : gmap Z DayEntry) : list DayEntry :=
  merge_sort day_le (map snd (map_to_list days)).

Lemma elem_of_day_order days en : en ∈ day_order days ↔ ∃ d, days !! d = Some en.
Proof.
  unfold day_order. rewrite merge_sort_Permutation, list_elem_of_fmap. split.
  - intros ([d a] & -> & Hin%elem_of_map_to_list). by exists d.
  - intros [d Hd]. exists (d, en). split; [done|]. by apply elem_of_map_to_list.
Qed.

#[local] Instance day_le_trans : Transitive day_le.
Proof. intros a b c. unfold day_le. lia. Qed.
#[local] Instance day_le_total : Total day_le.
Proof. intros a b. unfold day_le. lia. Qed.

Section days.
Context (days : gmap Z DayEntry) (en : DayEntry) (Hok : days_ok days en).

Lemma day_order_days : NoDup (entry_day <$> day_order days).
Proof using Hok.
  unfold day_order. rewrite merge_sort_Permutation.
  replace (entry_day <$> map snd (map_to_list days)) with (map_to_list days).*1.
  - apply NoDup_fst_map_to_list.
  - rewrite <-list_fmap_compose. apply list_fmap_ext. intros i [d a] Hi.
    apply list_elem_of_lookup_2, elem_of_map_to_list in Hi. cbn.
    symmetry. by eapply do_day.
Qed.

Lemma day_order_sorted : StronglySorted before (day_order days).
Proof using Hok.
  assert (Hs : StronglySorted day_le (day_order days)) by apply (StronglySorted_merge_sort _).
  pose proof day_order_days as Hnd.
  assert (Hin : ∀ a, a ∈ day_order days → days !! entry_day a = Some a).
  { intros a [d Hd]%elem_of_day_order. by rewrite (do_day _ _ Hok d a Hd). }
  induction Hs as [|a l Hs IH Ha]; [constructor|].
  rewrite fmap_cons, NoDup_cons in Hnd. destruct Hnd as [Hna Hnd].
  constructor; [apply IH; [done|]; intros; apply Hin; by right|].
  rewrite Forall_forall in Ha |- *. intros b Hb.
  destruct (do_order _ _ Hok (entry_day a) (entry_day b) a b) as [|[Hlt _]];
    [by apply Hin; left|by apply Hin; right| |done|].
  - intros E. apply Hna. rewrite E. by apply list_elem_of_fmap_2.
  - specialize (Ha b Hb). unfold day_le, entry_offset in *. lia.
Qed.

Lemma day_order_last : last (day_order days) = Some en.
Proof using Hok.
  pose proof day_order_sorted as Hs.
  assert (Hen : en ∈ day_order days).
  { apply elem_of_day_order. exists (entry_day en). apply (do_last _ _ Hok). }
  destruct (last (day_order days)) as [x|] eqn:E.
  2:{ apply last_None in E. rewrite E in Hen. by apply elem_of_nil in Hen. }
  apply last_Some in E as [l E]. rewrite E in *. f_equal.
  assert (Hx : x ∈ day_order days) by (rewrite E; set_solver).
  apply elem_of_day_order in Hx as [d Hx].
  destruct (do_max _ _ Hok d x Hx) as [|[Hlt _]]; [done|].
  apply elem_of_app in Hen as [Hen|Hen%list_elem_of_singleton]; [|done].
  apply StronglySorted_app_1_elem_of with (x1 := en) (x2 := x) in Hs; [|done|set_solver].
  destruct Hs as [Hlt' _]. lia.
Qed.

Lemma persist_days_ok :
  ∃ db, try_fold persist_day (day_order days) usage_empty = Ok db ∧
    session_usage db = Some (entry_row en) ∧
    usage_daily db = (λ a, snapshot (entry_row a)) <$> days ∧
    model_daily db = ∅ ∧ responses db = ∅.
Proof using Hok.
  exists (foldl write_day usage_empty (day_order days)).
  destruct (write_days (day_order days) usage_empty) as (Hd & Hrow & Hm & Hr).
  split; [|split; [|split]].
  - apply persist_days; [|apply day_order_sorted|done].
    apply Forall_forall. intros a [d Ha]%elem_of_day_order. by eapply do_ok.
  - by rewrite Hrow, day_order_last.
  - rewrite Hd. apply map_eq. intros d. rewrite lookup_fmap.
    destruct (days !! d) as [a|] eqn:Ha; simpl.
    + rewrite <-(do_day _ _ Hok d a Ha). apply lookup_upsert_all; [apply day_order_days|].
      apply elem_of_day_order. by exists d.
    + rewrite lookup_upsert_all_ne; [done|].
      intros (a & -> & [d' Hd']%elem_of_day_order)%list_elem_of_fmap.
      rewrite (do_day _ _ Hok d' a Hd') in Ha. by rewrite Ha in Hd'.
  - done.
Qed.
End days.

(** ** Persisting the model buckets *)

Definition bucket (t : UsageComponents) : ModelDayRow := mkModelDay "codex" t None.

Lemma date_naive_midnight d : date_naive (d * DAY_MICROS) = d.
Proof. unfold date_naive, DAY_MICROS. by rewrite Z.div_mul. Qed.

Definition persist_model (db : UsageDb) (kv : (Z * string) * UsageComponents) : res UsageDb :=
  let '((date, model), usage) := kv in
  add_model_daily "codex" model (date * DAY_MICROS) usage None db.

Lemma persist_models l : ∀ db,
  NoDup l.*1 → Forall (λ kv, checked_tokens kv.2 = Ok kv.2) l →
  (∀ k, k ∈ l.*1 → model_daily db !! k = None) →
  try_fold persist_model l db =
    Ok (set_model_daily (upsert_all fst (λ kv _, bucket kv.2) l (model_daily db)) db).
Proof.
  induction l as [|[[d m] t] l IH]; intros db Hnd Hok Hfresh; simpl; [by destruct db|].
  rewrite fmap_cons, NoDup_cons in Hnd. destruct Hnd as [Hk Hnd].
  apply Forall_cons in Hok as [Ht Hok]. simpl in Ht.
  unfold add_model_daily at 1. rewrite Ht, date_naive_midnight. simpl.
  rewrite Hfresh by (simpl; left). simpl. rewrite IH; [done|done|done|].
  intros k Hin. simpl. rewrite lookup_insert_ne by (intros <-; done).
  apply Hfresh. simpl. by right.
Qed.

Lemma persist_models_ok (models : gmap (Z * string) UsageComponents) db :
  (∀ k t, models !! k = Some t → checked_tokens t = Ok t) → model_daily db = ∅ →
  try_fold persist_model (map_to_list models) db =
    Ok (set_model_daily (bucket <$> models) db).
Proof.
  intros Hok Hnone. rewrite persist_models.
  - rewrite Hnone. do 2 f_equal. apply map_eq. intros k. rewrite lookup_fmap.
    pose proof (NoDup_fst_map_to_list models) as Hnd.
    destruct (models !! k) as [t|] eqn:Hk; simpl.
    + apply (lookup_upsert_all fst (λ kv _, bucket kv.2) (k, t)); [done|].
      by apply elem_of_map_to_list.
    + rewrite lookup_upsert_all_ne; [done|].
      intros ([k' t] & -> & Hin%elem_of_map_to_list)%list_elem_of_fmap.
      simpl in Hk. congruence.
  - apply NoDup_fst_map_to_list.
  - apply Forall_forall. intros [k t] Hin%elem_of_map_to_list. by eapply Hok.
  - intros k _. by rewrite Hnone.
Qed.

(** ** The simulation *)

Definition forget_id (row : ModelDayRow) : ModelDayRow :=
  mkModelDay (md_agent row) (md_tokens row) None.

(** The tables without [agent_model_usage_daily.last_usage_message_id],
    which a replay leaves null. *)
Definition forget_ids (db : UsageDb) : UsageDb :=
  set_model_daily (forget_id <$> model_daily db) db.

Definition total_ok (db : UsageDb) (r : Replay) : Prop :=
  match r_total r with
  | None => session_usage db = None ∧ r_days r = ∅ ∧ r_responses r = ∅
  | Some u => ∃ en, session_usage db = Some (entry_row en) ∧ days_ok (r_days r) en ∧
      en.1.2 = as_cumulative u ∧ en.2 = has_responses r ∧
      (∀ id, message_id u = Some id → id ∈ r_responses r)
  end.

Record sim (db : UsageDb) (r : Replay) : Prop := {
  sim_responses : responses db = r_responses r;
  sim_models : forget_id <$> model_daily db = bucket <$> r_models r;
  sim_models_ok k t : r_models r !! k = Some t → checked_tokens t = Ok t;
  sim_days : usage_daily db = (λ a, snapshot (entry_row a)) <$> r_days r;
  sim_total : total_ok db r;
}.

Lemma sim_empty : sim usage_empty replay_default.
Proof. by split; cbn; rewrite ?fmap_empty. Qed.

Lemma persist_replay_eq r :
  persist_replay r =
    (db ← try_fold persist_day (day_order (r_days r)) usage_empty;
     db ← try_fold persist_model (map_to_list (r_models r)) db;
     Ok (set_responses (r_responses r) db)).
Proof. reflexivity. Qed.

(** Persisting the aggregate gives the live rows. *)
Lemma persist_sim db r :
  sim db r → has_responses r = true → persist_replay r = Ok (forget_ids db).
Proof.
  intros Hs Hr. pose proof (sim_total _ _ Hs) as Ht. unfold total_ok in Ht.
  destruct (r_total r) as [u|].
  2:{ destruct Ht as (_ & _ & Hnone). unfold has_responses in Hr.
      rewrite bool_decide_true in Hr; done. }
  destruct Ht as (en & Hrow & Hdays & _).
  destruct (persist_days_ok _ _ Hdays) as (db1 & E & Hrow1 & Hd1 & Hm1 & Hr1).
  rewrite persist_replay_eq, E. simpl.
  rewrite persist_models_ok by (done || apply Hs). simpl.
  destruct db, db1. unfold set_responses, forget_ids, set_model_daily. simpl in *.
  rewrite <-(sim_models _ _ Hs), <-(sim_responses _ _ Hs). simpl.
  pose proof (sim_days _ _ Hs) as Hd. simpl in Hd. by rewrite Hrow1, Hd1, Hrow, <-Hd.
Qed.

(** ** Model buckets, one step *)

Lemma checked_tokens_Ok t t' : checked_tokens t = Ok t' → t' = t ∧ all1 in_i64b t = true.
Proof.
  unfold checked_tokens. destruct (all1 in_i64b t); [|done]. simpl.
  destruct (all1 _ t); [|done]. by intros [= ->].
Qed.

Lemma wrap_sum a b :
  all1 in_i64b (map2 Z.add a b) = true →
  map2 (λ x y, wrap64 (x + y)) a b = map2 Z.add a b.
Proof.
  unfold all1, map2. cbn. rewrite !andb_true_iff, !in_i64b_spec.
  intros [[[[H1 H2] H3] H4] H5]. by rewrite !wrap64_id.
Qed.

Lemma add_default t : map2 Z.add components_default t = t.
Proof. by destruct t. Qed.

Definition same_but_models (a b : UsageDb) : Prop :=
  session_usage a = session_usage b ∧ usage_daily a = usage_daily b ∧ responses a = responses b.

Definition bump_bucket (models : gmap (Z * string) UsageComponents) (key : Z * string)
    (delta : UsageComponents) : gmap (Z * string) UsageComponents :=
  <[key := map2 (λ a b, wrap64 (a + b)) (default components_default (models !! key)) delta]>
    models.

Lemma model_step db db' models m at_ delta id :
  forget_id <$> model_daily db = bucket <$> models →
  (∀ k t, models !! k = Some t → checked_tokens t = Ok t) →
  add_model_daily "codex" m at_ delta id db = Ok db' →
  let models' := bump_bucket models (date_naive at_, m) delta in
  forget_id <$> model_daily db' = bucket <$> models' ∧
  (∀ k t, models' !! k = Some t → checked_tokens t = Ok t) ∧ same_but_models db' db.
Proof.
  intros Hm Hok. unfold add_model_daily. intros (d' & Hd & H)%res_bind_Ok.
  pose proof (checked_tokens_Ok _ _ Hd) as [-> Hr]. simpl.
  set (key := (date_naive at_, m)) in *.
  assert (Hk : forget_id <$> (model_daily db !! key) = bucket <$> (models !! key))
    by by rewrite <-!lookup_fmap, Hm.
  assert (Hadd : ∀ t id', checked_tokens t = Ok t →
    map2 (λ a b, wrap64 (a + b)) (default components_default (models !! key)) delta = t →
    forget_id <$> <[key := mkModelDay "codex" t id']> (model_daily db) =
      bucket <$> bump_bucket models key delta ∧
    (∀ k t, bump_bucket models key delta !! k = Some t → checked_tokens t = Ok t)).
  { intros t id' Ht E. unfold bump_bucket. rewrite E, !fmap_insert, Hm. split; [done|].
    intros k t2. rewrite lookup_insert_Some. intros [[_ <-]|[_ Hk2]]; [done|by eapply Hok]. }
  destruct (model_daily db !! key) as [row|] eqn:E, (models !! key) as [t|] eqn:E';
    simpl in Hk; simplify_eq.
  - apply res_bind_Ok in H as (t' & Ht' & [= <-]).
    pose proof (checked_tokens_Ok _ _ Ht') as [-> Hr']. destruct row as [ag tk mi].
    unfold forget_id, bucket in Hk. cbn in *. injection Hk as -> ->.
    destruct (Hadd _ (or_else id mi) Ht'); [by apply wrap_sum|]. done.
  - cbn in *. destruct (Hadd _ id Hd); [|done]. rewrite wrap_sum; rewrite add_default; done.
Qed.

(** ** The session row, one step *)

Lemma check_row_Ok row row' : check_row row = Ok row' → row' = row ∧ row_checks row = true.
Proof. unfold check_row. destruct (row_checks row); [|done]. by intros [= ->]. Qed.

Lemma store_first db db' offset at_ u rr :
  session_usage db = None → row_range (entry_row (offset, at_, as_cumulative u, rr)) = true →
  store_usage Codex offset at_ u rr db = Ok db' →
  let en := (offset, at_, as_cumulative u, rr) in
  db' = set_session_usage (Some (entry_row en)) db ∧ entry_ok en.
Proof.
  intros Hnone Hr. unfold store_usage. intros (row & Hc & H)%res_bind_Ok.
  rewrite Hnone in H. injection H as <-. apply check_row_Ok in Hc as [-> Hc]. done.
Qed.

Lemma saturating_sum a b :
  all1 in_i64b (map2 Z.add a b) = true → map2 saturating_add a b = map2 Z.add a b.
Proof.
  unfold all1, map2. cbn. rewrite !andb_true_iff, !in_i64b_spec.
  intros [[[[H1 H2] H3] H4] H5]. unfold saturating_add. by rewrite !clamp64_id.
Qed.

Lemma store_next db db' offset at_ u rr en t :
  session_usage db = Some (entry_row en) → en.1.2 = as_cumulative t →
  entry_offset en < offset → (en.2 = true → rr = true) →
  (mode u = Cumulative → message_id u = None ∧ message_id t = None) →
  (mode u = Delta → is_Some (message_id u) ∧ message_id u ≠ message_id t) →
  store_usage Codex offset at_ u rr db = Ok db' →
  let en' := (offset, at_, as_cumulative (accumulate t u false), rr) in
  db' = set_session_usage (Some (entry_row en')) db ∧ entry_ok en' ∧ before en en'.
Proof.
  destruct en as [[[o ta] u0] b]. unfold entry_offset. cbn. intros Hrow -> Hlt Hb Hcum Hdel.
  unfold store_usage. intros (row & Hc & H)%res_bind_Ok.
  apply check_row_Ok in Hc as [-> _]. rewrite Hrow in H. cbn in H.
  rewrite (proj2 (Z.ltb_lt o offset)) in H by done.
  assert (Hrr : b || rr = rr) by (destruct b, rr; try done; by destruct (Hb eq_refl)).
  destruct (negb (row_range _)) eqn:Hr in H; [done|]. apply negb_false_iff in Hr.
  apply res_bind_Ok in H as (row & [-> Hc]%check_row_Ok & [= <-]). rewrite Hrr in *.
  destruct (mode u) eqn:Hm.
  - destruct (Hcum eq_refl) as [Hid Hidt].
    rewrite (bool_decide_false (Cumulative = Delta)) in * by done. cbn in *.
    rewrite !map2_new, Hid, Hidt in *. cbn in *.
    split; [|split; [split|split]]; cbn; rewrite ?Hm, ?Hid, ?Hidt; try done.
    unfold dominated, grows. cbn. rewrite Hidt. repeat split; try done.
    + by destruct (context_tokens u).
    + by destruct (model_context_window u).
  - destruct (Hdel eq_refl) as [[id Hid] Hne].
    rewrite (bool_decide_true (Delta = Delta)), (bool_decide_false (message_id u = _)) in * by done.
    rewrite andb_false_r in *. cbn in *. rewrite Hid in *. cbn in *.
    assert (Hsat : map2 saturating_add (tokens t) (tokens u) = map2 Z.add (tokens t) (tokens u) ∧
      saturating_add (reasoning_output_tokens t) (reasoning_output_tokens u) =
        reasoning_output_tokens t + reasoning_output_tokens u ∧
      saturating_add (total_tokens t) (total_tokens u) = total_tokens t + total_tokens u).
    { unfold row_range in Hr. cbn in Hr. rewrite !andb_true_iff, !in_i64b_spec in Hr.
      destruct Hr as [[H1 H2] H3]. unfold saturating_add at 2 3.
      by rewrite saturating_sum, !clamp64_id. }
    destruct Hsat as (S1 & S2 & S3).
    split; [|split; [split|split]]; cbn; rewrite ?Hm, ?S1, ?S2, ?S3, ?Hid; try done.
    unfold dominated, grows. cbn. rewrite Hm. cbn. rewrite Hid. repeat split; try done.
    + by destruct (context_tokens u).
    + by destruct (model_context_window u).
Qed.

Lemma context_next db db' offset at_ u en t :
  session_usage db = Some (entry_row en) → en.1.2 = as_cumulative t → en.2 = true →
  entry_offset en < offset → entry_ok en →
  update_context offset at_ u db = Ok db' →
  let en' := (offset, at_, as_cumulative (accumulate t u true), true) in
  db' = write_day db en' ∧ entry_ok en' ∧ before en en'.
Proof.
  destruct en as [[[o ta] u0] b]. unfold entry_offset. cbn. intros Hrow -> -> Hlt [_ Hc0 Hr0].
  unfold update_context. rewrite Hrow. cbn. rewrite (proj2 (Z.ltb_lt o offset)) by done.
  intros (db1 & (row & [-> Hc]%check_row_Ok & [= <-])%res_bind_Ok & [= <-])%res_bind_Ok.
  split; [done|]. split; [by split|]. split; [done|].
  unfold dominated, grows. cbn. repeat split; try done.
  - by destruct (context_tokens u).
  - by destruct (model_context_window u).
Qed.

(** ** One usage record *)

(** What the two kinds of counted update say about the response set. *)
Definition claims (u : UsageUpdate) (old new : gset string) : Prop :=
  match mode u with
  | Delta => ∃ id, message_id u = Some id ∧ id ∉ old ∧ new = {[id]} ∪ old
  | Cumulative => message_id u = None ∧ old = ∅ ∧ new = ∅
  end.

Definition next_total (r : Replay) (u : UsageUpdate) (context_only : bool) : UsageUpdate :=
  match r_total r with Some t => accumulate t u context_only | None => u end.

Definition next_days (r : Replay) (offset at_ : Z) (u : UsageUpdate) (modern : bool)
    : gmap Z DayEntry :=
  <[date_naive at_ := (offset, at_, as_cumulative u, modern)]> (r_days r).

Lemma store_step db db2 r offset at_ u resp :
  sim db r → (∀ row, session_usage db = Some row → row_offset row < offset) →
  row_range (entry_row (offset, at_, as_cumulative u, true)) = true →
  claims u (r_responses r) resp →
  let rr := bool_decide (mode u = Delta) in
  store_usage Codex offset at_ u rr (set_responses resp db) = Ok db2 →
  let en := (offset, at_, as_cumulative (next_total r u false), rr) in
  db2 = set_session_usage (Some (entry_row en)) (set_responses resp db) ∧
  days_ok (<[entry_day en := en]> (r_days r)) en ∧
  (∀ id, message_id (next_total r u false) = Some id → id ∈ resp).
Proof.
  intros Hs Hlt Hrange Hcl rr E. pose proof (sim_total _ _ Hs) as Ht. unfold total_ok in Ht.
  unfold next_total. destruct (r_total r) as [t|].
  - destruct Ht as (en & Hrow & Hdays & Hen & Hmod & Hids).
    assert (Hcum : mode u = Cumulative → message_id u = None ∧ message_id t = None).
    { intros Hm. unfold claims in Hcl. rewrite Hm in Hcl. destruct Hcl as (-> & Hnone & _).
      split; [done|]. destruct (message_id t) as [id|]; [|done].
      specialize (Hids id eq_refl). set_solver. }
    assert (Hdel : mode u = Delta → is_Some (message_id u) ∧ message_id u ≠ message_id t).
    { intros Hm. unfold claims in Hcl. rewrite Hm in Hcl. destruct Hcl as (id & -> & Hnot & _).
      split; [done|]. intros Heq. apply Hnot, Hids. done. }
    destruct (store_next (set_responses resp db) db2 offset at_ u rr en t) as (-> & Hok & Hbef);
      try done.
    { destruct en as [[[o ta] u0] b]. apply (Hlt _ Hrow). }
    { rewrite Hmod. unfold rr, has_responses. intros Hh. unfold claims in Hcl.
      destruct (mode u); [|done]. destruct Hcl as (_ & Hnone & _).
      by rewrite bool_decide_true in Hh. }
    split; [done|]. split; [by apply days_ok_insert with en|].
    intros id. cbn. unfold claims in Hcl. destruct (mode u) eqn:Hm; cbn.
    + by destruct Hcl as (-> & _).
    + destruct Hcl as (id' & -> & _ & ->). intros [= ->]. set_solver.
  - destruct Ht as (Hnone & Hdays & Hresp).
    destruct (store_first (set_responses resp db) db2 offset at_ u rr) as (-> & Hok); try done.
    split; [done|]. rewrite Hdays. split; [by apply days_ok_singleton|].
    intros id. unfold claims in Hcl. destruct (mode u) eqn:Hm; cbn.
    + by destruct Hcl as (-> & _).
    + destruct Hcl as (id' & -> & _ & ->). intros [= ->]. set_solver.
Qed.

Lemma claims_has u old new :
  claims u old new → negb (bool_decide (new = ∅)) = bool_decide (mode u = Delta).
Proof.
  unfold claims. destruct (mode u).
  - by intros (_ & _ & ->).
  - intros (id & _ & _ & ->). rewrite bool_decide_false by set_solver. done.
Qed.

(** A counted update: a first response, or a total before any response. *)
Lemma count_step db db2 db3 r offset at_ u resp m delta :
  sim db r → (∀ row, session_usage db = Some row → row_offset row < offset) →
  row_range (entry_row (offset, at_, as_cumulative u, true)) = true →
  claims u (r_responses r) resp →
  let rr := bool_decide (mode u = Delta) in
  store_usage Codex offset at_ u rr (set_responses resp db) = Ok db2 →
  add_model_daily "codex" m at_ delta (message_id u) db2 = Ok db3 →
  let total := next_total r u false in
  let r' := mkReplay (r_model r) (Some total) resp (next_days r offset at_ total rr)
              (bump_bucket (r_models r) (date_naive at_, m) delta) in
  sim (snapshot_daily at_ db3) r' ∧
  session_usage (snapshot_daily at_ db3) = Some (entry_row (offset, at_, as_cumulative total, rr)).
Proof.
  intros Hs Hlt Hrange Hcl rr E1 E2 total r'.
  destruct (store_step _ _ _ _ _ _ _ Hs Hlt Hrange Hcl E1) as (-> & Hdays & Hids).
  set (en := (offset, at_, as_cumulative (next_total r u false), _)) in *.
  destruct (model_step (set_session_usage (Some (entry_row en)) (set_responses resp db)) db3 (r_models r) m at_ delta (message_id u)
              (sim_models _ _ Hs) (sim_models_ok _ _ Hs) E2) as (Hm & Hmok & Hrow & Hd & Hr).
  cbn in Hrow, Hd, Hr. unfold snapshot_daily. rewrite Hrow. split; [|done]. split.
  - done.
  - exact Hm.
  - exact Hmok.
  - cbn. unfold next_days. rewrite fmap_insert, Hd, (sim_days _ _ Hs). done.
  - unfold total_ok. cbn. exists en. split; [exact Hrow|]. split; [exact Hdays|].
    split; [done|]. split; [|exact Hids]. unfold has_responses. cbn. by rewrite (claims_has _ _ _ Hcl).
Qed.

Lemma daily_delta_ext u a b :
  stored_tokens <$> a = stored_tokens <$> b →
  (a ≫= last_usage_message_id) = (b ≫= last_usage_message_id) →
  daily_delta u a = daily_delta u b.
Proof. unfold daily_delta. by intros -> ->. Qed.

(** The stored baseline a live update reads is the replay's running total. *)
Lemma baseline db r u k :
  sim db r →
  daily_delta u (stored_usage <$> session_usage db) =
  daily_delta u ((λ t, mkStored (tokens t) (message_id t) (-1) k) <$> r_total r).
Proof.
  intros Hs. pose proof (sim_total _ _ Hs) as Ht. unfold total_ok in Ht.
  destruct (r_total r) as [t|].
  - destruct Ht as ([[[o ta] u0] b] & -> & _ & Hen & _). cbn in Hen. subst u0.
    by apply daily_delta_ext.
  - by destruct Ht as (-> & _).
Qed.

(** A total after the first response moves the context only. *)
Lemma context_step db db' r offset at_ u :
  sim db r → (∀ row, session_usage db = Some row → row_offset row < offset) →
  has_responses r = true → update_context offset at_ u db = Ok db' →
  let total := next_total r u true in
  sim db' (mkReplay (r_model r) (Some total) (r_responses r)
             (next_days r offset at_ total true) (r_models r)) ∧
  session_usage db' = Some (entry_row (offset, at_, as_cumulative total, true)).
Proof.
  intros Hs Hlt Hh E total. pose proof (sim_total _ _ Hs) as Ht. unfold total_ok in Ht.
  unfold next_total in total. destruct (r_total r) as [t|].
  2:{ destruct Ht as (_ & _ & Hnone). unfold has_responses in Hh.
      by rewrite bool_decide_true in Hh. }
  destruct Ht as (en & Hrow & Hdays & Hen & Hmod & Hids).
  destruct (context_next db db' offset at_ u en t) as (-> & Hok & Hbef); try done.
  { by rewrite Hmod. }
  { destruct en as [[[o ta] u0] b]. apply (Hlt _ Hrow). }
  { eapply (do_ok _ _ Hdays), do_last, Hdays. }
  fold total in Hok, Hbef |- *. set (en' := (offset, at_, as_cumulative total, true)) in *.
  split; [|done]. split.
  - apply Hs.
  - apply Hs.
  - apply Hs.
  - cbn. unfold next_days. by rewrite fmap_insert, (sim_days _ _ Hs).
  - unfold total_ok. cbn. exists en'. split; [done|].
    split; [by apply days_ok_insert with en|]. done.
Qed.

Lemma sim_same db r db' :
  sim db r → responses db' = responses db → session_usage db' = session_usage db →
  usage_daily db' = usage_daily db → model_daily db' = model_daily db → sim db' r.
Proof.
  intros [H1 H2 H3 H4 H5] E1 E2 E3 E4.
  split; rewrite ?E1, ?E3, ?E4; try done. unfold total_ok in *. by rewrite E2.
Qed.

(** One usage record: the live update succeeding, the replay observes the
    same, and the two states stay related. *)
Lemma usage_step events db db' r offset at_ v v' u :
  sim db r → (∀ row, session_usage db = Some row → row_offset row < offset) →
  extract_codex_usage v = Some u → recorded_model json_text events offset = r_model r →
  codex_record_kind v' ≠ Some "turn_context" → extract_codex_usage v' = Some u →
  upsert_from_event json_text events Codex offset at_ v db = Ok db' →
  ∃ r', observe r offset at_ v' = Ok r' ∧ sim db' r' ∧ r_model r' = r_model r ∧
    (∀ row, session_usage db' = Some row → row_offset row ≤ offset).
Proof.
  intros Hs Hlt Hu Hmodel Hk Hu' E.
  pose proof (extract_codex_range _ _ Hu) as Hrange. apply extract_codex_inv in Hu as Hinv.
  unfold upsert_from_event in E. cbn in E. rewrite Hu in E.
  assert (Hfresh : match stored_usage <$> session_usage db with
    | Some row => offset <=? last_byte_offset row | None => false end = false).
  { destruct (session_usage db) as [row|] eqn:Hrow; [|done]. cbn. apply Z.leb_gt. by apply Hlt. }
  rewrite Hfresh in E. unfold observe. rewrite (bool_decide_false _ Hk), Hu'.
  assert (Hrec : match stored_usage <$> session_usage db with
    | Some row => codex_response_records row | None => false end = has_responses r).
  { pose proof (sim_total _ _ Hs) as Ht. unfold total_ok in Ht. destruct (r_total r).
    - destruct Ht as ([[[o ta] w] b] & -> & _ & _ & <- & _). done.
    - destruct Ht as (-> & _ & Hnone). unfold has_responses. by rewrite bool_decide_true. }
  rewrite Hrec in E. rewrite (bool_decide_false (Codex = ClaudeCode)) in E by done.
  rewrite (bool_decide_true (Codex = Codex)) in E by done. cbn in E.
  assert (Hname : or_else (model u) (if is_none (model u) then recorded_model json_text events offset
    else None) = or_else (model u) (r_model r)) by (rewrite Hmodel; by destruct (model u)).
  rewrite Hname in E. clear Hname.
  assert (Hrow' : ∀ o t db'' t', session_usage db'' = Some (entry_row (offset, o, t, t')) →
    ∀ row, session_usage db'' = Some row → row_offset row ≤ offset).
  { intros o t db'' t' -> row [= <-]. cbn. lia. }
  set (m := default unknown_model (or_else (model u) (r_model r))) in *.
  destruct Hinv as [(Hm & [id Hid] & _)|(Hm & Hid & _)].
  - rewrite Hm, Hid in *. rewrite (bool_decide_true (Delta = Delta)) in * by done.
    unfold claim_response in E. cbn in *. rewrite (sim_responses _ _ Hs) in E.
    destruct (bool_decide (id ∈ r_responses r)) eqn:Hin; cbn in E |- *.
    { apply bool_decide_eq_true in Hin. injection E as <-. exists r. split_and!; try done.
      - eapply sim_same; try done. cbn. rewrite (sim_responses _ _ Hs). set_solver.
      - intros row Hrow. pose proof (Hlt row Hrow). lia. }
    apply bool_decide_eq_false in Hin.
    apply res_bind_Ok in E as (db2 & E1 & (db3 & E2 & [= <-])%res_bind_Ok).
    assert (Hcl : claims u (r_responses r) ({[id]} ∪ r_responses r)).
    { unfold claims. rewrite Hm. by exists id. }
    destruct (count_step db db2 db3 r offset at_ u ({[id]} ∪ r_responses r) m
                (daily_delta u (stored_usage <$> session_usage db))) as [Hsim Hrow]; try done.
    { by rewrite Hm. }
    { by rewrite Hid. }
    eexists. split; [reflexivity|]. rewrite Hm in *. cbn in *.
    split; [|split; [done|by eapply Hrow']].
    rewrite (baseline db r u true Hs) in Hsim.
    replace (has_responses _) with true; [exact Hsim|].
    unfold has_responses. cbn. by rewrite bool_decide_false by set_solver.
  - rewrite Hm, Hid in *. rewrite (bool_decide_false (Cumulative = Delta)) in * by done.
    cbn in *. destruct (has_responses r) eqn:Hh; cbn in E |- *.
    + destruct (context_step db db' r offset at_ u Hs Hlt Hh E) as [Hsim Hrow].
      unfold has_responses in Hh |- *. cbn. rewrite Hh. cbn.
      eexists. split; [reflexivity|]. split; [exact Hsim|]. split; [done|by eapply Hrow'].
    + assert (Hempty : r_responses r = ∅).
      { unfold has_responses in Hh. apply negb_false_iff, bool_decide_eq_true in Hh. done. }
      apply res_bind_Ok in E as (db2 & E1 & (db3 & E2 & [= <-])%res_bind_Ok).
      assert (Hcl : claims u (r_responses r) (r_responses r)).
      { unfold claims. rewrite Hm. by rewrite Hempty. }
      destruct (count_step db db2 db3 r offset at_ u (r_responses r) m
                  (daily_delta u (stored_usage <$> session_usage db))) as [Hsim Hrow]; try done.
      { rewrite Hm. cbn. rewrite <-(sim_responses _ _ Hs). by destruct db. }
      { by rewrite Hid. }
      unfold has_responses. cbn. rewrite Hempty. cbn.
      eexists. split; [reflexivity|]. rewrite Hm in *. cbn in *.
      split; [|split; [done|by eapply Hrow']].
      rewrite (baseline db r u false Hs), Hempty in Hsim. exact Hsim.
Qed.

(** ** One event *)

Definition names_model (offset : Z) (e : UsageEvent) : Prop :=
  byte_offset e ≤ offset ∧ kind e = "turn_context" ∧ inherited e = false ∧
  is_Some (pg_text json_text (at_path (payload e) ["payload"; "model"])).

Lemma recorded_model_snoc events e offset :
  recorded_model json_text (events ++ [e]) offset =
  if decide (names_model offset e) then pg_text json_text (at_path (payload e) ["payload"; "model"])
  else recorded_model json_text events offset.
Proof.
  unfold recorded_model, names_model. rewrite filter_app, filter_cons, filter_nil.
  case_decide; [by rewrite last_snoc|by rewrite app_nil_r].
Qed.

Definition model_ok (events : list UsageEvent) (r : Replay) : Prop :=
  ∀ o, Forall (λ e, byte_offset e ≤ o) events → recorded_model json_text events o = r_model r.

Definition row_within (events : list UsageEvent) (db : UsageDb) : Prop :=
  ∀ row, session_usage db = Some row → ∃ e, e ∈ events ∧ row_offset row ≤ byte_offset e.

Definition replay_step (r : Replay) (e : UsageEvent) : res Replay :=
  if decide (replayed e)
  then observe r (byte_offset e) (timestamp e) (replay_payload json_text e) else Ok r.

(** An event that names no model and changes no table. *)
Lemma skip_event events db r e :
  (¬ ∃ o, names_model o e) → sim db r → model_ok events r → row_within events db →
  sim db r ∧ model_ok (events ++ [e]) r ∧ row_within (events ++ [e]) db.
Proof.
  intros Hn Hs Hm Hw. split_and!; [done| |].
  - intros o [Ho _]%Forall_app. rewrite recorded_model_snoc, decide_False; [by apply Hm|].
    intros He. apply Hn. by exists o.
  - intros row (e' & He & Ho)%Hw. exists e'. split; [|done]. set_solver.
Qed.

(** A turn context names the model of the records after it. *)
Lemma context_event events db r e :
  codex_event e → inherited e = false → codex_record_kind (payload e) = Some "turn_context" →
  sim db r → model_ok events r → row_within events db →
  ∃ r', replay_step r e = Ok r' ∧ sim db r' ∧ model_ok (events ++ [e]) r' ∧
    row_within (events ++ [e]) db.
Proof.
  intros He Hi Hk Hs Hm Hw.
  assert (Hkind : kind e = "turn_context") by by rewrite (ce_kind _ He), stored_kind_context.
  unfold replay_step. rewrite decide_True by (split; [done|rewrite Hkind; set_solver]).
  unfold observe. rewrite (replay_payload_kind _ He), (bool_decide_true _ Hk).
  rewrite (replay_payload_model _ Hkind), <-(ce_model _ He).
  destruct (pg_text json_text (at_path (payload e) ["payload"; "model"])) as [m|] eqn:E.
  - eexists. split; [reflexivity|]. split; [by destruct Hs|]. split.
    + intros o [_ [Ho _]%Forall_cons]%Forall_app.
      rewrite recorded_model_snoc, decide_True, E; [done|].
      unfold names_model. by rewrite E.
    + intros row (e' & Hin & Ho)%Hw. exists e'. split; [|done]. set_solver.
  - exists r. split; [done|]. apply skip_event; [|done..].
    intros (o & _ & _ & _ & [? Hsome]). by rewrite E in Hsome.
Qed.

Lemma event_step events db e s r :
  codex_event e → Forall (λ e', byte_offset e' < byte_offset e) events →
  sim db r → model_ok events r → row_within events db →
  insert_usage json_text Codex (events, db) e = Ok s →
  ∃ r', replay_step r e = Ok r' ∧ s.1 = events ++ [e] ∧ sim s.2 r' ∧
    model_ok (events ++ [e]) r' ∧ row_within (events ++ [e]) s.2.
Proof.
  intros He Hlt Hs Hm Hw. unfold insert_usage. cbn. destruct (inherited e) eqn:Hi.
  { intros [= <-]. cbn. exists r. split; [|split; [done|]].
    - unfold replay_step. rewrite decide_False; [done|]. intros [? _]. congruence.
    - apply skip_event; [|done..]. intros (o & _ & _ & ? & _). congruence. }
  intros (db' & E & [= <-])%res_bind_Ok. cbn.
  destruct (extract_codex_usage (payload e)) as [u|] eqn:Hu.
  - pose proof (stored_kind_usage _ _ Hu) as Hk. rewrite <-(ce_kind _ He) in Hk.
    assert (Hnc : kind e ≠ "turn_context") by (intros Hc; rewrite Hc in Hk; set_solver).
    assert (Hn : ¬ ∃ o, names_model o e) by (by intros (o & _ & ? & _)).
    assert (Hle : Forall (λ e', byte_offset e' ≤ byte_offset e) events)
      by (eapply Forall_impl; [exact Hlt|]; cbn; lia).
    destruct (usage_step (events ++ [e]) db db' r (byte_offset e) (timestamp e) (payload e)
                (replay_payload json_text e) u) as (r' & Hr' & Hs' & Hmod & Hrow); try done.
    + intros row (e' & Hin & Ho)%Hw. rewrite Forall_forall in Hlt. specialize (Hlt e' Hin). lia.
    + rewrite recorded_model_snoc, decide_False; [by apply Hm|].
      intros Hc. apply Hn. by eexists.
    + rewrite (replay_payload_kind _ He). intros Hc. apply Hnc.
      by rewrite (ce_kind _ He), stored_kind_context.
    + rewrite <-Hu. apply extract_codex_ext; [by apply replay_payload_kind|].
      by apply replay_payload_payload.
    + exists r'. split; [|split; [done|split; [done|split]]].
      * unfold replay_step. rewrite decide_True; [done|]. split; [done|set_solver].
      * intros o [Ho _]%Forall_app. rewrite recorded_model_snoc, Hmod, decide_False; [by apply Hm|].
        intros Hc. apply Hn. by eexists.
      * intros row Hr. exists e. split; [set_solver|by apply Hrow].
  - unfold upsert_from_event in E. cbn in E. rewrite Hu in E. injection E as <-.
    destruct (decide (codex_record_kind (payload e) = Some "turn_context")) as [Hk|Hk].
    { destruct (context_event events db r e) as (r' & ? & ? & ? & ?); try done. by exists r'. }
    assert (Hn : ¬ ∃ o, names_model o e).
    { intros (o & _ & Hc & _). apply Hk. by apply (ce_context _ He). }
    exists r. split; [|split; [done|by apply skip_event]].
    unfold replay_step. case_decide as Hr; [|done]. unfold observe.
    rewrite (replay_payload_kind _ He), (bool_decide_false _ Hk).
    assert (Hnc : kind e ≠ "turn_context") by (intros Hc; apply Hk; by apply (ce_context _ He)).
    rewrite (extract_codex_ext (payload e)), Hu; [done|by apply replay_payload_kind|].
    by apply replay_payload_payload.
Qed.

(** ** A session *)

Definition offsets_increase : list UsageEvent → Prop :=
  StronglySorted (λ a b, byte_offset a < byte_offset b).

Lemma live_step evs : ∀ events db r s,
  Forall codex_event evs → offsets_increase (events ++ evs) →
  sim db r → model_ok events r → row_within events db →
  try_fold (insert_usage json_text Codex) evs (events, db) = Ok s →
  ∃ r', try_fold replay_step evs r = Ok r' ∧ sim s.2 r'.
Proof.
  induction evs as [|e evs IH]; intros events db r s Hok Hinc Hs Hm Hw; simpl.
  { intros [= <-]. by exists r. }
  apply Forall_cons in Hok as [He Hok].
  intros ([events' db'] & E1 & E2)%res_bind_Ok.
  destruct (event_step events db e (events', db') r) as (r1 & -> & Hev & Hs1 & Hm1 & Hw1);
    try done.
  { apply Forall_forall. intros e' Hin.
    eapply (StronglySorted_app_1_elem_of (λ a b, byte_offset a < byte_offset b));
      [exact Hinc|done|by left]. }
  cbn in Hev, Hs1, Hw1 |- *. subst events'.
  eapply (IH (events ++ [e]) db' r1 s); try done. by rewrite <-app_assoc.
Qed.

Lemma live_sim evs s :
  Forall codex_event evs → offsets_increase evs →
  try_fold (insert_usage json_text Codex) evs ([], usage_empty) = Ok s →
  ∃ r, try_fold (λ r e, observe r (byte_offset e) (timestamp e) (replay_payload json_text e))
         (filter replayed evs) replay_default = Ok r ∧ sim s.2 r.
Proof.
  intros Hok Hinc E.
  destruct (live_step evs [] usage_empty replay_default s Hok Hinc sim_empty)
    as (r & Hr & Hs); [done..|].
  exists r. split; [|done]. by rewrite try_fold_filter.
Qed.

(** ** Claimed responses *)

Lemma not_stale db o :
  match session_usage db with Some row => row_offset row < o | None => True end →
  match stored_usage <$> session_usage db with
  | Some row => o <=? last_byte_offset row | None => false end = false.
Proof. destruct (session_usage db) as [row|]; [|done]. intros H. cbn. by apply Z.leb_gt. Qed.

Lemma store_keeps_responses source o at_ u rr db db' :
  store_usage source o at_ u rr db = Ok db' → responses db' = responses db.
Proof.
  unfold store_usage. intros (row & _ & H)%res_bind_Ok.
  destruct (session_usage db) as [old|]; [|by injection H as <-].
  destruct (_ <? _); [|by injection H as <-]. destruct (negb _); [done|].
  by apply res_bind_Ok in H as (? & _ & [= <-]).
Qed.

Lemma add_model_keeps_responses agent m at_ t id db db' :
  add_model_daily agent m at_ t id db = Ok db' → responses db' = responses db.
Proof.
  unfold add_model_daily. intros (? & _ & H)%res_bind_Ok.
  destruct (model_daily db !! _); [|by injection H as <-].
  by apply res_bind_Ok in H as (? & _ & [= <-]).
Qed.

Lemma snapshot_keeps_responses at_ db : responses (snapshot_daily at_ db) = responses db.
Proof. unfold snapshot_daily. by destruct (session_usage db). Qed.

(** Accounting a new record claims its response. *)
Lemma upsert_claims events o at_ v u id db db' :
  extract_codex_usage v = Some u → message_id u = Some id →
  match session_usage db with Some row => row_offset row < o | None => True end →
  upsert_from_event json_text events Codex o at_ v db = Ok db' → id ∈ responses db'.
Proof.
  intros Hu Hid Hfresh. unfold upsert_from_event. cbn [extract_usage]. rewrite Hu.
  rewrite (not_stale db o Hfresh), (bool_decide_false (Codex = ClaudeCode)) by done.
  apply extract_codex_inv in Hu as [(Hm & _)|(_ & Hnone & _)]; [|congruence].
  rewrite Hm, Hid, (bool_decide_true (Delta = Delta)), (bool_decide_true (Codex = Codex)) by done.
  unfold claim_response. cbn. destruct (bool_decide (id ∈ responses db)); cbn.
  - intros [= <-]. cbn. set_solver.
  - intros (db1 & H1%store_keeps_responses & (db2 & H2%add_model_keeps_responses & [= <-])
      %res_bind_Ok)%res_bind_Ok.
    rewrite snapshot_keeps_responses, H2, H1. cbn. set_solver.
Qed.

(** A record of a claimed response changes nothing. *)
Lemma upsert_claimed events o at_ v u id db :
  extract_codex_usage v = Some u → message_id u = Some id → id ∈ responses db →
  upsert_from_event json_text events Codex o at_ v db = Ok db.
Proof.
  intros Hu Hid Hin. unfold upsert_from_event. cbn [extract_usage]. rewrite Hu.
  destruct (match stored_usage <$> _ with Some _ => _ | None => _ end); [done|].
  apply extract_codex_inv in Hu as [(Hm & _)|(_ & Hnone & _)]; [|congruence].
  rewrite Hm, Hid, (bool_decide_true (Delta = Delta)), (bool_decide_true (Codex = Codex)),
    (bool_decide_false (Codex = ClaudeCode)) by done.
  unfold claim_response. cbn. rewrite (bool_decide_true (id ∈ responses db)) by done. cbn.
  destruct db as [r d m s]. unfold set_responses. cbn in *. do 2 f_equal. set_solver.
Qed.
End codex.
