(* ===== verification/ClaudeUsage.v ===== *)
(** * Claude accounting: every response counted once, by its last receipt

    Claude Code repeats a response over several lines, and a later line may
    correct it. [apply_response] replaces the previous contribution of the
    response; [claude_ok] states what the tables then hold: the session row
    is the sum over the last receipt of each response, and each model bucket
    the sum over the receipts of its day and model. *)

From S2P Require Import Prelude Text Json Usage.

#[local] Arguments token_at : simpl never.
#[local] Arguments positive_i64_at : simpl never.
#[local] Arguments message_id_text : simpl never.

(** ** Component arithmetic *)

Abbreviation add := (map2 Z.add).

Lemma add_comm a b : add a b = add b a.
Proof. unfold map2. f_equal; lia. Qed.

Lemma add_assoc a b c : add a (add b c) = add (add a b) c.
Proof. unfold map2. cbn. f_equal; lia. Qed.

Lemma add_0_l a : add components_default a = a.
Proof. by destruct a. Qed.

Lemma sub_add a b c : add (add a b) (map2 Z.sub c a) = add c b.
Proof. unfold map2. cbn. f_equal; lia. Qed.

Lemma sub_cancel a b : map2 Z.sub (add a b) a = b.
Proof. destruct b. unfold map2. cbn. f_equal; lia. Qed.

Lemma sum_tokens_perm l k : l ≡ₚ k → sum_tokens l = sum_tokens k.
Proof.
  unfold sum_tokens. intros HP. induction HP; cbn; try congruence.
  rewrite !add_assoc. f_equal. apply add_comm.
Qed.

Lemma sum_tokens_app l k : sum_tokens (l ++ k) = add (sum_tokens l) (sum_tokens k).
Proof.
  unfold sum_tokens. induction l as [|a l IH]; cbn; [by rewrite add_0_l|].
  by rewrite IH, add_assoc.
Qed.

(** Componentwise order. *)
Definition le5 (a b : UsageComponents) : Prop :=
  input_tokens a ≤ input_tokens b ∧ cached_input_tokens a ≤ cached_input_tokens b ∧
  cache_write_input_tokens a ≤ cache_write_input_tokens b ∧
  cache_write_1h_input_tokens a ≤ cache_write_1h_input_tokens b ∧
  output_tokens a ≤ output_tokens b.

Definition nonneg (a : UsageComponents) : Prop := le5 components_default a.

Ltac five := unfold nonneg, le5, sum_components, all1, map2 in *; cbn in *; lia.

Lemma nonneg_add a b : nonneg a → nonneg b → nonneg (add a b).
Proof. intros; five. Qed.

Lemma sum_nonneg l : Forall nonneg l → nonneg (sum_tokens l).
Proof. induction 1; [unfold sum_tokens|simpl in *]; [five|by apply nonneg_add]. Qed.

Lemma sum_components_add a b : sum_components (add a b) = sum_components a + sum_components b.
Proof. five. Qed.

(** Non-negative columns whose total fits are accepted by the tables. *)
Lemma checked_ok t : nonneg t → sum_components t ≤ i64_max → checked_tokens t = Ok t.
Proof.
  intros Hn Hb. unfold checked_tokens.
  assert (E1 : all1 in_i64b t = true).
  { unfold all1. rewrite !andb_true_iff, !in_i64b_spec. unfold in_i64, i64_min, i64_max in *. five. }
  assert (E2 : all1 (λ z, 0 <=? z) t = true).
  { unfold all1. rewrite !andb_true_iff, !Z.leb_le. five. }
  by rewrite E1, E2.
Qed.

Lemma range_ok t : nonneg t → sum_components t ≤ i64_max →
  all1 in_i64b t = true ∧ all1 (λ z, 0 <=? z) t = true ∧ in_i64b (sum_components t) = true.
Proof.
  intros Hn Hb. pose proof (checked_ok t Hn Hb) as E. unfold checked_tokens in E.
  destruct (all1 in_i64b t); [|done]. cbn in E. destruct (all1 _ t); [|done].
  split_and!; try done. apply in_i64b_spec. unfold in_i64, i64_min, i64_max in *. five.
Qed.

(** ** What a receipt says *)

Lemma positive_bounds v path z : positive_i64_at v path = Some z → 0 < z ≤ i64_max.
Proof.
  unfold positive_i64_at. intros (w & _ & (n & Hn & H)%bind_Some)%bind_Some.
  destruct (Z.ltb_spec 0 n); simplify_eq/=.
  destruct w as [| |[m|m|m]| | |]; simplify_eq/=.
  - destruct (Z.leb_spec m i64_max); simplify_eq. lia.
  - lia.
Qed.

Lemma default_positive v path : 0 ≤ default 0 (positive_i64_at v path).
Proof.
  destruct (positive_i64_at v path) eqn:E; cbn; [|lia]. apply positive_bounds in E. lia.
Qed.

Lemma token_at_nonneg v k : 0 ≤ token_at v k.
Proof. apply default_positive. Qed.

(** A receipt's columns are not negative, its total is their sum while that
    fits, and its context is that total. *)
Lemma extract_claude_facts v u :
  extract_claude_usage v = Some u →
  mode u = Delta ∧ nonneg (tokens u) ∧ reasoning_output_tokens u = 0 ∧
  context_tokens u = Some (total_tokens u) ∧ 0 ≤ total_tokens u ∧
  (sum_components (tokens u) ≤ i64_max → total_tokens u = sum_components (tokens u)) ∧
  opt_all (λ z, 0 <? z) (model_context_window u) = true ∧
  message_id u = string_at v ["message"; "id"] ∧ model u = string_at v ["message"; "model"].
Proof.
  unfold extract_claude_usage. destruct (negb (bool_decide _)); [done|].
  intros (usage & _ & H)%bind_Some. destruct (negb (is_object usage)); [done|].
  injection H as <-. cbn [mode tokens reasoning_output_tokens context_tokens total_tokens
    model_context_window message_id model].
  set (m5 := default 0 (positive_i64_at usage ["cache_creation"; "ephemeral_5m_input_tokens"])).
  set (h1 := default 0 (positive_i64_at usage ["cache_creation"; "ephemeral_1h_input_tokens"])).
  pose proof (default_positive usage ["cache_creation"; "ephemeral_5m_input_tokens"]) as H5.
  pose proof (default_positive usage ["cache_creation"; "ephemeral_1h_input_tokens"]) as H1.
  fold m5 in H5. fold h1 in H1.
  set (w := Z.max (saturating_sub (token_at usage "cache_creation_input_tokens") h1) m5).
  assert (Hw : 0 ≤ w) by lia.
  pose proof (token_at_nonneg usage "cache_read_input_tokens") as Hr.
  pose proof (token_at_nonneg usage "input_tokens") as Hi.
  pose proof (token_at_nonneg usage "output_tokens") as Ho.
  set (r := token_at usage "cache_read_input_tokens") in *.
  set (i := token_at usage "input_tokens") in *.
  set (o := token_at usage "output_tokens") in *.
  clearbody r i o. clearbody w. clear H5. clearbody h1. clear m5.
  split; [done|]. split; [five|]. split; [done|]. split; [done|].
  unfold saturating_add, clamp64, sum_components, i64_min, i64_max. cbn.
  split; [lia|]. split; [lia|].
  split.
  - destruct (positive_i64_at usage ["model_context_window"]) as [z|] eqn:E1; cbn.
    + apply positive_bounds in E1. apply Z.ltb_lt. lia.
    + destruct (positive_i64_at v ["model_context_window"]) as [z|] eqn:E2; cbn; [|done].
      apply positive_bounds in E2. apply Z.ltb_lt. lia.
  - unfold string_at. cbn. by destruct (get v "message") as [m|]; cbn;
      [destruct (get m "id"), (get m "model")|].
Qed.

Section claude.
Context (json_text : Value → string).

Local Abbreviation receipts := (receipts json_text).
Local Abbreviation receipt_key := (receipt_key json_text).
Local Abbreviation receipt_model := (receipt_model json_text).
Local Abbreviation message_id_text := (message_id_text json_text).

(** ** Well-formed Claude events

    The kind column is the one [insert_event] stores, and a message's id and
    model are strings when present. *)
Record claude_event (e : UsageEvent) : Prop := {
  cl_kind : kind e = stored_event_kind ClaudeCode (payload e);
  cl_own : inherited e = false;
  cl_id : message_id_text e = string_at (payload e) ["message"; "id"];
  cl_model : pg_text json_text (at_path (payload e) ["message"; "model"]) =
             string_at (payload e) ["message"; "model"];
}.

(** No message id is the decimal offset of a receipt without one. *)
Definition ids_distinct (events : list UsageEvent) : Prop :=
  ∀ e e' id, e ∈ events → e' ∈ events → message_id_text e = Some id →
    message_id_text e' = None → id ≠ pretty (byte_offset e').

Lemma is_receipt_extract e :
  claude_event e → is_receipt e ↔ is_Some (extract_claude_usage (payload e)).
Proof.
  intros He. unfold is_receipt. rewrite (cl_kind _ He). unfold stored_event_kind.
  assert (Hcol : claude_usage_column (payload e) =
    or_else (get (payload e) "message" ≫= λ m, get m "usage") (get (payload e) "usage")).
  { unfold claude_usage_column. cbn. destruct (get (payload e) "message") as [m|]; [|done].
    cbn. by destruct (get m "usage"). }
  rewrite Hcol. unfold extract_claude_usage.
  assert (Htype : string_at (payload e) ["type"] = get (payload e) "type" ≫= as_str).
  { unfold string_at. cbn. by destruct (get (payload e) "type"). }
  rewrite Htype. split.
  - intros [Hk Hu]. destruct (get (payload e) "type" ≫= as_str) as [t|]; cbn in Hk; [|done].
    subst t. rewrite bool_decide_true by done. cbn.
    destruct (or_else _ _) as [u|]; [|done]. cbn in *. injection Hu as ->. by eexists.
  - case_bool_decide as Hk; [|by intros [? ?]]. rewrite Hk. cbn.
    destruct (or_else _ _) as [u|]; cbn; [|by intros [? ?]].
    destruct (is_object u); [done|by intros [? ?]].
Qed.

(** ** The last receipt of each response *)

Lemma elem_of_receipts e events : e ∈ receipts events → e ∈ events ∧ is_receipt e.
Proof.
  induction events as [|a l IH]; simpl; [by intros ?%elem_of_nil|].
  assert (Hr : e ∈ receipts l → e ∈ a :: l ∧ is_receipt e).
  { intros Hin. destruct (IH Hin). split; [by right|done]. }
  case_decide as Ha; [case_decide|]; [done| |done].
  intros [->|Hin]%elem_of_cons; [split; [by left|done]|by apply Hr].
Qed.

Lemma receipts_app_skip l e : ¬ is_receipt e → receipts (l ++ [e]) = receipts l.
Proof.
  intros He. induction l as [|a l IH]; simpl; [by rewrite decide_False|]. rewrite IH.
  case_decide; [|done]. apply decide_ext. rewrite Exists_app, Exists_cons, Exists_nil. naive_solver.
Qed.

(** A receipt supersedes the earlier ones of its response. *)
Lemma receipts_snoc l e :
  is_receipt e →
  receipts (l ++ [e]) = filter (λ r, receipt_key r ≠ receipt_key e) (receipts l) ++ [e].
Proof.
  intros He. induction l as [|a l IH]; simpl.
  - by rewrite decide_True.
  - rewrite IH. clear IH. case_decide as Ha; [|done].
    destruct (decide (receipt_key a = receipt_key e)) as [Hk|Hk].
    + rewrite decide_True. 2:{ apply Exists_app. right. apply Exists_cons. by left. }
      case_decide; [done|]. rewrite filter_cons, decide_False; [done|]. naive_solver.
    + destruct (decide (Exists _ l)) as [Hex|Hex].
      * rewrite decide_True; [done|]. apply Exists_app. by left.
      * rewrite decide_False. 2:{ rewrite Exists_app, Exists_cons, Exists_nil. naive_solver. }
        by rewrite filter_cons, decide_True.
Qed.

(** The latest receipt of a response is the one its successors replace. *)
Definition latest (events : list UsageEvent) (k : string) : option UsageEvent :=
  last (filter (λ e, is_receipt e ∧ receipt_key e = k) events).

Lemma receipts_split events k :
  receipts events ≡ₚ
    option_list (latest events k) ++ filter (λ r, receipt_key r ≠ k) (receipts events).
Proof.
  unfold latest. induction events as [|a l IH]; simpl; [done|].
  rewrite filter_cons. destruct (decide (is_receipt a ∧ receipt_key a = k)) as [[Ha Hk]|Hn].
  - rewrite (decide_True _ _ Ha). case_decide as Hex.
    + replace (last (a :: _)) with (last (filter (λ e, is_receipt e ∧ receipt_key e = k) l));
        [done|].
      destruct (filter _ l) as [|b l'] eqn:E; [|by rewrite last_cons_cons]. exfalso.
      apply Exists_exists in Hex as (e' & Hin & He' & Hk').
      assert (e' ∈ []) as []%elem_of_nil. rewrite <-E. apply list_elem_of_filter. naive_solver.
    + rewrite filter_cons, decide_False by naive_solver.
      destruct (filter (λ e, is_receipt e ∧ receipt_key e = k) l) as [|b l'] eqn:E.
      * cbn. f_equiv. exact IH.
      * exfalso. apply Hex.
        assert (Hb : b ∈ filter (λ e, is_receipt e ∧ receipt_key e = k) l)
          by (rewrite E; by left).
        apply list_elem_of_filter in Hb as [[Hb1 Hb2] Hin]. apply Exists_exists.
        exists b. by rewrite Hb2.
  - case_decide as Ha; [|done]. case_decide; [done|].
    rewrite filter_cons, decide_True by naive_solver.
    etrans; [apply Permutation_skip, IH|]. by rewrite Permutation_middle.
Qed.

(** ** Sums over receipts *)

Definition no_usage : UsageUpdate := mkUsage Delta None None components_default 0 0 None None.
Definition usage_of (e : UsageEvent) : UsageUpdate :=
  default no_usage (extract_claude_usage (payload e)).
Definition tok (e : UsageEvent) : UsageComponents := tokens (usage_of e).

Definition receipts_total (l : list UsageEvent) : UsageComponents := sum_tokens (tok <$> l).

Lemma tok_nonneg e : nonneg (tok e).
Proof.
  unfold tok, usage_of. destruct (extract_claude_usage (payload e)) as [u|] eqn:E; cbn.
  - apply (extract_claude_facts _ _ E).
  - five.
Qed.

Lemma receipts_total_nonneg l : nonneg (receipts_total l).
Proof.
  apply sum_nonneg, Forall_forall. intros t (e & -> & _)%list_elem_of_fmap. apply tok_nonneg.
Qed.

(** The bucket of a receipt, and the model buckets a list of receipts makes. *)
Definition bucket (e : UsageEvent) : Z * string := (date_naive (timestamp e), receipt_model e).

Definition put (e : UsageEvent) (m : gmap (Z * string) UsageComponents) :
    gmap (Z * string) UsageComponents :=
  <[bucket e := add (default components_default (m !! bucket e)) (tok e)]> m.

#[local] Arguments put : simpl never.

Definition buckets (l : list UsageEvent) : gmap (Z * string) UsageComponents := foldr put ∅ l.

(** A bucket that may have lost its only receipt. *)
Definition touch (k : Z * string) (m : gmap (Z * string) UsageComponents) :
    gmap (Z * string) UsageComponents :=
  <[k := default components_default (m !! k)]> m.

Lemma put_comm a b m : put a (put b m) = put b (put a m).
Proof.
  unfold put. destruct (decide (bucket a = bucket b)) as [E|E].
  - rewrite E, !lookup_insert_eq, !insert_insert_eq. cbn. f_equal.
    rewrite <-!add_assoc. f_equal. apply add_comm.
  - assert (E' : bucket b ≠ bucket a) by done.
    rewrite (lookup_insert_ne _ _ _ _ E), (lookup_insert_ne _ _ _ _ E').
    by apply insert_insert_ne.
Qed.

Lemma buckets_perm l k : l ≡ₚ k → buckets l = buckets k.
Proof. unfold buckets. induction 1; cbn; [done|by f_equal|apply put_comm|congruence]. Qed.

Lemma buckets_snoc l e : buckets (l ++ [e]) = put e (buckets l).
Proof. by rewrite (buckets_perm _ _ (Permutation_app_comm l [e])). Qed.

Lemma buckets_is_Some l k : is_Some (buckets l !! k) ↔ k ∈ bucket <$> l.
Proof.
  induction l as [|a l IH]; cbn.
  - rewrite lookup_empty. split; [by intros [? ?]|by intros ?%elem_of_nil].
  - unfold put. rewrite lookup_insert_is_Some, IH, elem_of_cons.
    destruct (decide (bucket a = k)) as [->|]; naive_solver.
Qed.

Lemma put_touch e m : put e (touch (bucket e) m) = put e m.
Proof. unfold put, touch. by rewrite lookup_insert_eq, insert_insert_eq. Qed.

(** The sum over all buckets. *)
Definition total_of (m : gmap (Z * string) UsageComponents) : UsageComponents :=
  sum_tokens (snd <$> map_to_list m).

Lemma total_of_insert m k t : m !! k = None → total_of (<[k := t]> m) = add t (total_of m).
Proof.
  intros Hk. unfold total_of. rewrite (sum_tokens_perm _ (snd <$> (k, t) :: map_to_list m)).
  - done.
  - by rewrite map_to_list_insert.
Qed.

Lemma total_of_update m k t t' :
  m !! k = Some t → total_of m = add t (total_of (delete k m)) ∧
  total_of (<[k := t']> m) = add t' (total_of (delete k m)).
Proof.
  intros Hk. rewrite <-!(total_of_insert (delete k m) k) by apply lookup_delete_eq.
  by rewrite !insert_delete_eq, (insert_id m k t).
Qed.

Lemma total_of_touch k m : total_of (touch k m) = total_of m.
Proof.
  unfold touch. destruct (m !! k) as [t|] eqn:E; cbn.
  - by rewrite (insert_id m k t).
  - by rewrite total_of_insert, add_0_l.
Qed.

Lemma total_of_put e m : total_of (put e m) = add (tok e) (total_of m).
Proof.
  unfold put. destruct (m !! bucket e) as [t|] eqn:E; cbn.
  - destruct (total_of_update m (bucket e) t (add t (tok e)) E) as [-> ->].
    rewrite !add_assoc. f_equal. apply add_comm.
  - rewrite add_0_l. by rewrite total_of_insert.
Qed.

Lemma total_of_buckets l : total_of (buckets l) = receipts_total l.
Proof.
  induction l as [|a l IH]; [done|].
  change (total_of (put a (buckets l)) = add (tok a) (receipts_total l)).
  by rewrite total_of_put, IH.
Qed.

Lemma buckets_nonneg l k t : buckets l !! k = Some t → nonneg t.
Proof.
  revert k t. induction l as [|a l IH]; intros k t; [done|].
  change (put a (buckets l) !! k = Some t → nonneg t). unfold put. rewrite lookup_insert_Some. intros [[_ <-]|[_ H]]; [|by eapply IH].
  apply nonneg_add; [|apply tok_nonneg].
  destruct (buckets l !! bucket a) eqn:E; cbn; [by eapply IH|five].
Qed.

(** ** Bounds *)

Definition all_nonneg (m : gmap (Z * string) UsageComponents) : Prop :=
  ∀ k t, m !! k = Some t → nonneg t.

Lemma total_of_nonneg m : all_nonneg m → nonneg (total_of m).
Proof.
  intros Hm. apply sum_nonneg, Forall_forall.
  intros t ([k t'] & -> & Hin%elem_of_map_to_list)%list_elem_of_fmap. by eapply Hm.
Qed.

Lemma all_nonneg_delete m k : all_nonneg m → all_nonneg (delete k m).
Proof. intros Hm k' t [_ H]%lookup_delete_Some. by eapply Hm. Qed.

Lemma all_nonneg_insert m k t : nonneg t → all_nonneg m → all_nonneg (<[k := t]> m).
Proof. intros Ht Hm k' t'. rewrite lookup_insert_Some. naive_solver. Qed.

Lemma bucket_le_total m k t : all_nonneg m → m !! k = Some t → le5 t (total_of m).
Proof.
  intros Hm Hk. destruct (total_of_update m k t t Hk) as [-> _].
  pose proof (total_of_nonneg _ (all_nonneg_delete m k Hm)) as H. five.
Qed.

Lemma default_bucket m k :
  all_nonneg m →
  nonneg (default components_default (m !! k)) ∧
  le5 (default components_default (m !! k)) (total_of m).
Proof.
  intros Hm. pose proof (total_of_nonneg m Hm) as Ht.
  destruct (m !! k) as [t|] eqn:Hk; cbn.
  - split; [by eapply Hm|by eapply bucket_le_total].
  - split; [five|exact Ht].
Qed.

Lemma buckets_all_nonneg l : all_nonneg (buckets l).
Proof. intros k t. apply buckets_nonneg. Qed.

(** Any selection of the buckets sums to at most their total. *)
Lemma selection_bounds (P : (Z * string) * UsageComponents → Prop) `{∀ kv, Decision (P kv)}
    (l : list ((Z * string) * UsageComponents)) :
  Forall nonneg l.*2 →
  let s := sum_tokens (filter P l).*2 in
  nonneg s ∧ le5 s (sum_tokens l.*2).
Proof.
  induction l as [|[k t] l IH]; intros Hn; [cbn; five|].
  apply Forall_cons in Hn as [Ht Hn]. destruct (IH Hn) as [IH1 IH2].
  rewrite filter_cons. case_decide; cbn in *.
  - fold (sum_tokens (filter P l).*2).
    fold (sum_tokens l.*2). split; [by apply nonneg_add|five].
  - fold (sum_tokens l.*2). split; [done|five].
Qed.

Lemma through_day_bounds (day : Z) (m : gmap (Z * string) ModelDayRow) :
  all_nonneg (md_tokens <$> m) →
  nonneg (through_day day m) ∧ le5 (through_day day m) (total_of (md_tokens <$> m)).
Proof.
  intros Hm. unfold through_day.
  assert (E : (λ kv : Z * string * ModelDayRow, md_tokens kv.2) <$>
      filter (λ kv : Z * string * ModelDayRow, kv.1.1 ≤ day) (map_to_list m) =
    snd <$> filter (λ kv : Z * string * UsageComponents, kv.1.1 ≤ day)
              (prod_map id md_tokens <$> map_to_list m)).
  { by rewrite filter_fmap_comm, <-list_fmap_compose. }
  rewrite E. unfold total_of.
  rewrite (sum_tokens_perm (snd <$> map_to_list (md_tokens <$> m))
             (prod_map id md_tokens <$> map_to_list m).*2) by by rewrite map_to_list_fmap.
  apply selection_bounds.
  apply Forall_forall. intros t ([k t'] & -> & ([k' r] & [= -> ->] & Hin)%list_elem_of_fmap)%list_elem_of_fmap.
  apply elem_of_map_to_list in Hin. apply (Hm k'). cbn. by rewrite lookup_fmap, Hin.
Qed.

(** ** The statements of [apply_response] *)

Definition same_session (a b : UsageDb) : Prop :=
  session_usage a = session_usage b ∧ responses a = responses b.

Lemma claude_add_model db B m at_ t id :
  md_tokens <$> model_daily db = B → all_nonneg B → nonneg t →
  sum_components (total_of B) + sum_components t ≤ i64_max →
  ∃ db', add_model_daily "claude-code" m at_ t id db = Ok db' ∧ same_session db' db ∧
    md_tokens <$> model_daily db' =
      <[(date_naive at_, m) := add (default components_default (B !! (date_naive at_, m))) t]> B.
Proof.
  intros HB Hn Ht Hbound. unfold add_model_daily.
  set (key := (date_naive at_, m)).
  destruct (default_bucket B key Hn) as [Hd1 Hd2].
  pose proof (total_of_nonneg B Hn) as Htot.
  rewrite checked_ok by (done || five). cbn.
  assert (Hk : md_tokens <$> (model_daily db !! key) = B !! key) by by rewrite <-HB, lookup_fmap.
  destruct (model_daily db !! key) as [row|]; cbn in Hk; rewrite <-Hk in *; cbn in *.
  - rewrite checked_ok; [|by apply nonneg_add|rewrite sum_components_add; five]. cbn.
    eexists. split; [done|]. split; [done|]. cbn. by rewrite fmap_insert, HB.
  - eexists. split; [done|]. split; [done|]. cbn. by rewrite fmap_insert, HB, add_0_l.
Qed.

Lemma rebuild_daily_ok db :
  all_nonneg (md_tokens <$> model_daily db) →
  sum_components (total_of (md_tokens <$> model_daily db)) ≤ i64_max →
  ∃ db', rebuild_daily_snapshots db = Ok db' ∧ same_session db' db ∧
    model_daily db' = model_daily db.
Proof.
  intros Hn Hb. unfold rebuild_daily_snapshots.
  match goal with |- context [try_fold ?f ?days ?daily] =>
    assert (Hfold : ∀ l d, ∃ d', try_fold f l d = Ok d');
    [|destruct (Hfold days daily) as [d' ->]; by eexists] end.
  induction l as [|day l IH]; intros d; [by eexists|]. simpl.
  destruct (through_day_bounds day (model_daily db) Hn) as [H1 H2].
  destruct (range_ok (through_day day (model_daily db)) H1) as (-> & _ & ->); [five|]. apply IH.
Qed.

(** ** What the tables hold *)

(** The session row after the receipts [rs], the last of which is [e]. *)
Record row_for (rs : list UsageEvent) (e : UsageEvent) (row : UsageRow) : Prop := {
  rf_agent : row_agent row = "claude-code";
  rf_tokens : row_tokens row = receipts_total rs;
  rf_reasoning : row_reasoning row = 0;
  rf_total : row_total row = sum_components (receipts_total rs);
  rf_context : row_context row = context_tokens (usage_of e);
  rf_window : opt_all (λ z, 0 <? z) (row_window row) = true;
  rf_offset : row_offset row = byte_offset e;
  rf_observed : row_observed_at row = timestamp e;
  rf_message : row_message_id row = message_id (usage_of e);
}.

Record claude_ok (events : list UsageEvent) (db : UsageDb) : Prop := {
  co_row : match last (receipts events) with
           | None => session_usage db = None
           | Some e => ∃ row, session_usage db = Some row ∧ row_for (receipts events) e row
           end;
  co_models : md_tokens <$> model_daily db = buckets (receipts events);
}.

(** ** One receipt *)

Lemma usage_of_receipt e u : extract_claude_usage (payload e) = Some u → usage_of e = u.
Proof. unfold usage_of. by intros ->. Qed.

Lemma receipt_total e u :
  extract_claude_usage (payload e) = Some u → sum_components (tok e) ≤ i64_max →
  total_tokens u = sum_components (tok e).
Proof.
  intros Hu. unfold tok. rewrite (usage_of_receipt e u Hu).
  by apply (extract_claude_facts _ _ Hu).
Qed.

Lemma receipt_key_id e u :
  claude_event e → extract_claude_usage (payload e) = Some u → message_id_text e = message_id u.
Proof.
  intros He Hu. rewrite (cl_id _ He). symmetry. apply (extract_claude_facts _ _ Hu).
Qed.

Lemma receipt_bucket e u :
  claude_event e → extract_claude_usage (payload e) = Some u →
  bucket e = (date_naive (timestamp e), default unknown_model (model u)).
Proof.
  intros He Hu. unfold bucket, Usage.receipt_model. rewrite (cl_model _ He).
  do 2 f_equal. symmetry. apply (extract_claude_facts _ _ Hu).
Qed.

(** The query for a previous receipt finds the latest one of the response. *)
Lemma prior_latest events e u :
  Forall claude_event events → claude_event e → ids_distinct (events ++ [e]) →
  Forall (λ e', byte_offset e' < byte_offset e) events →
  extract_claude_usage (payload e) = Some u →
  (id ← message_id u; prior_receipt json_text (events ++ [e]) id (byte_offset e)) =
  latest events (receipt_key e).
Proof.
  intros Hev He Hd Hlt Hu. rewrite <-(receipt_key_id e u He Hu).
  unfold latest, Usage.receipt_key. rewrite Forall_forall in Hlt.
  destruct (message_id_text e) as [id|] eqn:Hid; cbn.
  - unfold prior_receipt. rewrite filter_app, (filter_cons _ e), decide_False by lia.
    rewrite filter_nil, app_nil_r. f_equal. apply filter_ext_in. intros e' Hin.
    specialize (Hlt e' Hin). destruct (message_id_text e') as [id'|] eqn:Hid'; cbn.
    + split; [intros (? & [= ->] & _); done|intros (? & ->); done].
    + split; [by intros (_ & ? & _)|]. intros [_ Hp]. exfalso.
      apply (Hd e e' id); [set_solver|set_solver|done..].
  - destruct (filter _ events) as [|b l] eqn:E; [done|]. exfalso.
    assert (Hb : b ∈ b :: l) by left. rewrite <-E in Hb.
    apply list_elem_of_filter in Hb as [[_ Hk] Hin]. specialize (Hlt b Hin).
    destruct (message_id_text b) as [id|] eqn:Hid'; cbn in Hk.
    + apply (Hd b e id); [set_solver|set_solver|done..].
    + apply (inj pretty) in Hk. lia.
Qed.

Lemma latest_receipt events k r : latest events k = Some r → r ∈ events ∧ is_receipt r.
Proof.
  unfold latest. intros [l E]%last_Some.
  assert (Hr : r ∈ filter (λ e, is_receipt e ∧ receipt_key e = k) events)
    by (rewrite E; apply elem_of_app; right; by left).
  by apply list_elem_of_filter in Hr as [[? _] ?].
Qed.

Lemma wrap_sub a b :
  nonneg a → nonneg b → sum_components a ≤ i64_max → sum_components b ≤ i64_max →
  map2 (λ x y, wrap64 (x - y)) a b = map2 Z.sub a b.
Proof.
  intros. unfold map2. f_equal; apply wrap64_id; unfold in_i64, i64_min, i64_max in *; five.
Qed.

Lemma max0_nonneg t : nonneg t → map1 (λ z, Z.max z 0) t = t.
Proof. destruct t. intros H. unfold map1, map2. cbn. f_equal; five. Qed.

Lemma first_delta u :
  mode u = Delta → nonneg (tokens u) → daily_delta u None = tokens u.
Proof.
  intros Hm Hn. unfold daily_delta. rewrite Hm.
  destruct (message_id u); cbn; by rewrite max0_nonneg.
Qed.

(** The receipts a new one leaves, and the sums over them. *)
Definition others (events : list UsageEvent) (e : UsageEvent) : list UsageEvent :=
  filter (λ r, receipt_key r ≠ receipt_key e) (receipts events).

Lemma receipts_total_snoc l e : receipts_total (l ++ [e]) = add (receipts_total l) (tok e).
Proof.
  unfold receipts_total. rewrite fmap_app, sum_tokens_app. f_equal.
  cbn. rewrite add_comm. apply add_0_l.
Qed.

Lemma receipts_total_split events e :
  receipts_total (receipts events) =
  add (default components_default (tok <$> latest events (receipt_key e)))
    (receipts_total (others events e)).
Proof.
  unfold receipts_total.
  rewrite (sum_tokens_perm _ _ (fmap_Permutation tok _ _ (receipts_split events (receipt_key e)))).
  rewrite fmap_app, sum_tokens_app. f_equal. destruct (latest events _); [|done].
  cbn. rewrite add_comm. apply add_0_l.
Qed.

Lemma buckets_split events e :
  buckets (receipts events) =
  match latest events (receipt_key e) with
  | Some r => put r (buckets (others events e))
  | None => buckets (others events e)
  end.
Proof.
  rewrite (buckets_perm _ _ (receipts_split events (receipt_key e))).
  by destruct (latest events _).
Qed.

Lemma session_before events db e :
  claude_ok events db →
  let row := default (mkRow "claude-code" components_default 0 0 None None (byte_offset e)
                        (timestamp e) None false) (session_usage db) in
  row_agent row = "claude-code" ∧ row_tokens row = receipts_total (receipts events) ∧
  row_reasoning row = 0 ∧ row_total row = sum_components (receipts_total (receipts events)) ∧
  opt_all (λ z, 0 <? z) (row_window row) = true.
Proof.
  intros Hok. pose proof (co_row _ _ Hok) as Hr.
  destruct (last (receipts events)) as [e'|] eqn:E.
  - destruct Hr as (row & -> & []). cbn. done.
  - apply last_None in E. rewrite Hr, E. done.
Qed.

(** The previous usage of the response a receipt belongs to. *)
Definition previous_of (events : list UsageEvent) (e : UsageEvent) : option UsageUpdate :=
  r ← latest events (receipt_key e); extract_claude_usage (payload r).

(** Removing the contribution of the replaced receipt. *)
Lemma remove_previous_ok events db e :
  md_tokens <$> model_daily db = buckets (receipts events) →
  Forall claude_event events →
  sum_components (receipts_total (receipts events)) ≤ i64_max →
  ∃ db', remove_previous (latest events (receipt_key e)) (previous_of events e) db = Ok db' ∧
    same_session db' db ∧
    md_tokens <$> model_daily db' =
      match latest events (receipt_key e) with
      | Some r => touch (bucket r) (buckets (others events e))
      | None => buckets (others events e)
      end.
Proof.
  intros Hm Hev Hb. pose proof (buckets_split events e) as Hsplit.
  pose proof (receipts_total_split events e) as Htot. unfold remove_previous, previous_of.
  destruct (latest events (receipt_key e)) as [r|] eqn:Hl; cbn.
  2:{ exists db. split; [done|]. split; [done|congruence]. }
  apply latest_receipt in Hl as [Hin Hr].
  assert (He : claude_event r) by (rewrite Forall_forall in Hev; by apply Hev).
  apply (is_receipt_extract r He) in Hr as [p Hp]. rewrite Hp.
  rewrite <-(receipt_bucket r p He Hp). set (B0 := buckets (others events e)) in *.
  cbn in Htot. assert (Hk : md_tokens <$> (model_daily db !! bucket r) =
    Some (add (default components_default (B0 !! bucket r)) (tok r))).
  { rewrite <-lookup_fmap, Hm, Hsplit. apply lookup_insert_eq. }
  destruct (model_daily db !! bucket r) as [row|]; [|done]. injection Hk as Hk.
  rewrite Hk. replace (tokens p) with (tok r) by (unfold tok; by rewrite (usage_of_receipt r p Hp)).
  rewrite (add_comm _ (tok r)), sub_cancel.
  destruct (default_bucket B0 (bucket r) (buckets_all_nonneg _)) as [Hd1 Hd2].
  unfold B0 in Hd2 at 2. rewrite total_of_buckets in Hd2.
  pose proof (tok_nonneg r) as Hn. rewrite Htot, sum_components_add in Hb.
  rewrite checked_ok; [|done|five]. cbn. eexists. split; [done|]. split; [done|].
  cbn. rewrite fmap_insert, Hm, Hsplit. cbn. unfold put, touch. by rewrite insert_insert_eq.
Qed.

(** Buckets without a receipt go; after the new receipt is in, none other
    is left over. *)
Lemma keep_buckets (m : gmap (Z * string) ModelDayRow) events e r :
  receipts (events ++ [e]) = others events e ++ [e] →
  md_tokens <$> m = put e (touch (bucket r) (buckets (others events e))) →
  md_tokens <$> keep_receipt_buckets json_text (events ++ [e]) m = buckets (others events e ++ [e]).
Proof.
  intros Hr Hm. rewrite buckets_snoc. set (B0 := buckets (others events e)) in *.
  apply map_eq. intros k. unfold keep_receipt_buckets. rewrite Hr, lookup_fmap.
  assert (HP : (k ∈ map (λ r, (date_naive (timestamp r), receipt_model r)) (others events e ++ [e]))
    ↔ is_Some (put e B0 !! k)).
  { unfold B0. rewrite <-buckets_snoc, buckets_is_Some. done. }
  assert (Hk : md_tokens <$> (m !! k) = put e (touch (bucket r) B0) !! k)
    by by rewrite <-Hm, lookup_fmap.
  destruct (put e B0 !! k) as [t|] eqn:E.
  - assert (Hput : put e (touch (bucket r) B0) !! k = Some t).
    { unfold put, touch in *. rewrite lookup_insert_Some in E |- *.
      destruct E as [[<- <-]|[Hne E]]; [left|right].
      - split; [done|]. f_equal. destruct (decide (bucket r = bucket e)) as [->|].
        + rewrite lookup_insert_eq. done.
        + by rewrite lookup_insert_ne.
      - split; [done|]. apply lookup_insert_Some. destruct (decide (bucket r = k)) as [->|].
        + left. by rewrite E.
        + right. done. }
    rewrite Hput in Hk. destruct (m !! k) as [row|] eqn:Em; [|done].
    rewrite (map_lookup_filter_Some_2 _ _ _ row); [exact Hk|done|].
    apply HP. by eexists.
  - rewrite map_lookup_filter_None_2; [done|]. right. intros row _ Hin.
    apply HP in Hin as [? ?]. done.
Qed.

Lemma others_bound events e :
  sum_components (receipts_total (receipts events)) + sum_components (tok e) ≤ i64_max →
  sum_components (receipts_total (others events e ++ [e])) ≤ i64_max ∧
  le5 (receipts_total (others events e)) (receipts_total (receipts events)).
Proof.
  intros Hb. rewrite (receipts_total_split events e), receipts_total_snoc in *.
  rewrite !sum_components_add in *. pose proof (receipts_total_nonneg (others events e)) as H1.
  assert (H2 : nonneg (default components_default (tok <$> latest events (receipt_key e)))).
  { destruct (latest events _); cbn; [apply tok_nonneg|five]. }
  split; five.
Qed.

(** The session row after a receipt. *)
Lemma delta_tokens events e :
  Forall claude_event events →
  sum_components (receipts_total (receipts events)) + sum_components (tok e) ≤ i64_max →
  add (receipts_total (receipts events))
    (match previous_of events e with
     | Some p => map2 (λ x y, wrap64 (x - y)) (tok e) (tokens p)
     | None => tok e end) = receipts_total (others events e ++ [e]) ∧
  match previous_of events e with
  | Some p => wrap64 (0 - reasoning_output_tokens p) | None => 0 end = 0 ∧
  sum_components (receipts_total (receipts events)) +
    (match previous_of events e with
     | Some p => wrap64 (sum_components (tok e) - total_tokens p)
     | None => sum_components (tok e) end) =
    sum_components (receipts_total (others events e ++ [e])).
Proof.
  intros Hev Hb. pose proof (receipts_total_split events e) as Htot.
  rewrite receipts_total_snoc. pose proof (tok_nonneg e) as He.
  pose proof (receipts_total_nonneg (others events e)) as Ho. unfold previous_of.
  destruct (latest events (receipt_key e)) as [r|] eqn:Hl; cbn in *.
  - apply latest_receipt in Hl as [Hin Hr]. pose proof (tok_nonneg r) as Hrn.
    assert (Hcl : claude_event r) by (rewrite Forall_forall in Hev; by apply Hev).
    apply (is_receipt_extract r Hcl) in Hr as [p Hp]. rewrite Hp.
    rewrite Htot, sum_components_add in Hb |- *.
    assert (Hrb : sum_components (tok r) ≤ i64_max) by five.
    rewrite (receipt_total r p Hp Hrb).
    replace (tokens p) with (tok r) by (unfold tok; by rewrite (usage_of_receipt r p Hp)).
    rewrite wrap_sub by (done || five). rewrite sub_add, (add_comm (tok e)).
    destruct (extract_claude_facts _ _ Hp) as (_ & _ & -> & _).
    split; [done|]. split; [done|].
    rewrite wrap64_id by (unfold in_i64, i64_min, i64_max in *; five).
    rewrite sum_components_add. lia.
  - rewrite Htot, add_0_l. split; [done|]. split; [done|]. by rewrite sum_components_add.
Qed.

Lemma add_response_ok events db e u :
  Forall claude_event events → extract_claude_usage (payload e) = Some u → claude_ok events db →
  sum_components (receipts_total (receipts events)) + sum_components (tok e) ≤ i64_max →
  ∃ row, add_response (byte_offset e) (timestamp e) u (previous_of events e) db =
           Ok (set_session_usage (Some row) db) ∧ row_for (others events e ++ [e]) e row.
Proof.
  intros Hev Hu Hok Hb. unfold add_response.
  destruct (extract_claude_facts _ _ Hu) as (_ & _ & Hreas & Hctx & Ht0 & _ & Hwin & _ & _).
  assert (Htok : tokens u = tok e) by (unfold tok; by rewrite (usage_of_receipt e u Hu)).
  destruct (others_bound events e Hb) as [Hb' Ho].
  pose proof (receipts_total_nonneg (receipts events)) as Hn. pose proof (tok_nonneg e) as Hen.
  rewrite Htok, Hreas, (receipt_total e u Hu) by five.
  destruct (session_before events db e Hok) as (R1 & R2 & R3 & R4 & R5).
  set (row := default _ (session_usage db)) in *. rewrite R1, R2, R3, R4.
  destruct (delta_tokens events e Hev Hb) as (-> & -> & ->).
  set (S := receipts_total (others events e ++ [e])) in *.
  set (row' := mkRow _ _ _ _ _ _ _ _ _ _).
  destruct (range_ok S (receipts_total_nonneg _) Hb') as (Hr1 & Hr2 & Hr3).
  assert (Hw : opt_all (λ z, 0 <? z) (row_window row') = true)
    by (unfold row'; cbn; by destruct (model_context_window u)).
  assert (Hrange : row_range row' = true).
  { unfold row_range, row'. cbn [row_tokens row_reasoning row_total]. by rewrite Hr1, Hr3. }
  assert (Hchk : row_checks row' = true).
  { unfold row_checks. rewrite Hw. unfold row'. cbn [row_tokens row_reasoning row_total row_context].
    rewrite Hr2, Hctx. cbn. rewrite (proj2 (Z.leb_le 0 (total_tokens u))) by done.
    rewrite (proj2 (Z.leb_le 0 (sum_components S))); [done|].
    pose proof (receipts_total_nonneg (others events e ++ [e])). five. }
  rewrite Hrange. cbn [negb]. unfold check_row. rewrite Hchk. cbn. exists row'. split; [done|].
  split; unfold row'; cbn; rewrite ?(usage_of_receipt e u Hu); done.
Qed.

Lemma drop_moved_ok events db e u :
  Forall claude_event events → claude_event e → extract_claude_usage (payload e) = Some u →
  receipts (events ++ [e]) = others events e ++ [e] →
  md_tokens <$> model_daily db =
    put e (match latest events (receipt_key e) with
           | Some r => touch (bucket r) (buckets (others events e))
           | None => buckets (others events e)
           end) →
  let db' := drop_moved json_text (events ++ [e]) (timestamp e) u (latest events (receipt_key e))
               (previous_of events e) db in
  same_session db' db ∧ md_tokens <$> model_daily db' = buckets (others events e ++ [e]).
Proof.
  intros Hev He Hu Hr Hm. unfold drop_moved, previous_of.
  destruct (latest events (receipt_key e)) as [r|] eqn:Hl; cbn.
  2:{ split; [done|]. by rewrite buckets_snoc. }
  apply latest_receipt in Hl as [Hin Hrec].
  assert (Hcl : claude_event r) by (rewrite Forall_forall in Hev; by apply Hev).
  apply (is_receipt_extract r Hcl) in Hrec as [p Hp]. rewrite Hp.
  destruct (_ || _) eqn:Hmoved; cbn.
  - split; [done|]. by apply keep_buckets with r.
  - split; [done|]. apply orb_false_iff in Hmoved as [M1 M2].
    apply negb_false_iff, bool_decide_eq_true in M1, M2.
    assert (Hbk : bucket r = bucket e).
    { rewrite (receipt_bucket r p Hcl Hp), (receipt_bucket e u He Hu). by rewrite M1, M2. }
    by rewrite Hm, Hbk, put_touch, buckets_snoc.
Qed.

Lemma fresh_offset events db e :
  claude_ok events db → Forall (λ e', byte_offset e' < byte_offset e) events →
  match stored_usage <$> session_usage db with
  | Some row => byte_offset e <=? last_byte_offset row | None => false end = false.
Proof.
  intros Hok Hlt. pose proof (co_row _ _ Hok) as Hr.
  destruct (last (receipts events)) as [e'|] eqn:E.
  - destruct Hr as (row & -> & Hr). cbn. apply Z.leb_gt. rewrite (rf_offset _ _ _ Hr).
    apply last_Some in E as [l E].
    assert (Hin : e' ∈ receipts events) by (rewrite E; set_solver).
    apply elem_of_receipts in Hin as [Hin _]. rewrite Forall_forall in Hlt. by apply Hlt.
  - by rewrite Hr.
Qed.

Lemma claude_step events db e :
  Forall claude_event (events ++ [e]) → ids_distinct (events ++ [e]) →
  Forall (λ e', byte_offset e' < byte_offset e) events → claude_ok events db →
  sum_components (receipts_total (receipts events)) + sum_components (tok e) ≤ i64_max →
  ∃ db', insert_usage json_text ClaudeCode (events, db) e = Ok (events ++ [e], db') ∧
    claude_ok (events ++ [e]) db'.
Proof.
  intros [Hev [He _]%Forall_cons]%Forall_app Hd Hlt Hok Hb. unfold insert_usage.
  rewrite (cl_own _ He). cbn [fst snd]. unfold upsert_from_event, extract_usage.
  destruct (extract_claude_usage (payload e)) as [u|] eqn:Hu.
  2:{ exists db. split; [done|].
      assert (Hr : receipts (events ++ [e]) = receipts events).
      { apply receipts_app_skip. rewrite (is_receipt_extract e He), Hu. by intros [? ?]. }
      destruct Hok as [H1 H2]. split; by rewrite Hr. }
  assert (Hrec : is_receipt e) by (apply (is_receipt_extract e He); by eexists).
  assert (Hsnoc : receipts (events ++ [e]) = others events e ++ [e]) by by apply receipts_snoc.
  rewrite (fresh_offset events db e Hok Hlt), (bool_decide_true (ClaudeCode = ClaudeCode)) by done.
  unfold apply_response. rewrite (prior_latest events e u) by done.
  fold (previous_of events e). destruct (others_bound events e Hb) as [Hb' Ho].
  pose proof (tok_nonneg e) as Hen. pose proof (receipts_total_nonneg (others events e)) as Hon.
  destruct (add_response_ok events db e u Hev Hu Hok Hb) as (row & -> & Hrow). cbn [mbind res_bind].
  destruct (remove_previous_ok events (set_session_usage (Some row) db) e) as (db1 & -> & [Hs1 _] & Hm1);
    [apply (co_models _ _ Hok)|done|five|]. cbn [mbind res_bind].
  destruct (extract_claude_facts _ _ Hu) as (Hmode & Hnn & _).
  assert (Htok : tokens u = tok e) by (unfold tok; by rewrite (usage_of_receipt e u Hu)).
  set (B1 := match latest events (receipt_key e) with Some r => _ | None => _ end) in Hm1.
  assert (HB1 : all_nonneg B1 ∧ total_of B1 = receipts_total (others events e)).
  { unfold B1. destruct (latest events (receipt_key e)) as [r|].
    - split; [|by rewrite total_of_touch, total_of_buckets].
      apply all_nonneg_insert; [by apply default_bucket, buckets_all_nonneg|apply buckets_all_nonneg].
    - split; [apply buckets_all_nonneg|apply total_of_buckets]. }
  destruct HB1 as [HB1 HB1t].
  destruct (claude_add_model db1 B1 (default unknown_model (model u)) (timestamp e) (tok e)
              (message_id u)) as (db2 & E2 & [Hs2 _] & Hm2); [done..|rewrite HB1t|].
  { rewrite receipts_total_snoc, sum_components_add in Hb'. lia. }
  rewrite (first_delta u Hmode Hnn), Htok, E2. cbn [mbind res_bind].
  rewrite <-(receipt_bucket e u He Hu) in Hm2.
  destruct (drop_moved_ok events db2 e u Hev He Hu Hsnoc Hm2) as [[Hs3 _] Hm3].
  set (db3 := drop_moved _ _ _ _ _ _ _) in *.
  assert (Hdone : ∀ db4, same_session db4 db3 → model_daily db4 = model_daily db3 →
    claude_ok (events ++ [e]) db4).
  { intros db4 [Hs4 _] Hm4. split; rewrite Hsnoc.
    - rewrite last_snoc. exists row. split; [|done]. by rewrite Hs4, Hs3, Hs2, Hs1.
    - by rewrite Hm4. }
  destruct (moved_day (timestamp e) _).
  - destruct (rebuild_daily_ok db3) as (db4 & -> & Hs4 & Hm4).
    + rewrite Hm3. apply buckets_all_nonneg.
    + by rewrite Hm3, total_of_buckets.
    + cbn. exists db4. split; [done|by apply Hdone].
  - cbn. eexists. split; [done|]. apply Hdone; unfold snapshot_daily; by destruct (session_usage db3).
Qed.

(** ** A session *)

Definition all_receipts_total (l : list UsageEvent) : Z :=
  sum_components (receipts_total l).

Lemma all_receipts_app l k :
  all_receipts_total (l ++ k) = all_receipts_total l + all_receipts_total k.
Proof.
  unfold all_receipts_total, receipts_total. by rewrite fmap_app, sum_tokens_app, sum_components_add.
Qed.

Lemma all_receipts_nonneg l : 0 ≤ all_receipts_total l.
Proof. pose proof (receipts_total_nonneg l). unfold all_receipts_total. five. Qed.

(** The last receipts sum to at most all of them. *)
Lemma receipts_le_all l : all_receipts_total (receipts l) ≤ all_receipts_total l.
Proof.
  induction l as [|a l IH]; [done|].
  pose proof (all_receipts_nonneg [a]) as Ha. change (a :: l) with ([a] ++ l).
  rewrite all_receipts_app. simpl. case_decide; [case_decide|]; [lia| |lia].
  change (a :: receipts l) with ([a] ++ receipts l). rewrite all_receipts_app. lia.
Qed.

Lemma claude_live evs : ∀ events db,
  Forall claude_event (events ++ evs) → ids_distinct (events ++ evs) →
  StronglySorted (λ a b, byte_offset a < byte_offset b) (events ++ evs) →
  all_receipts_total (events ++ evs) ≤ i64_max → claude_ok events db →
  ∃ db', try_fold (insert_usage json_text ClaudeCode) evs (events, db) =
           Ok (events ++ evs, db') ∧ claude_ok (events ++ evs) db'.
Proof.
  induction evs as [|e evs IH]; intros events db Hev Hd Hs Hb Hok.
  { rewrite app_nil_r. by exists db. }
  replace (events ++ e :: evs) with ((events ++ [e]) ++ evs) in * by by rewrite <-app_assoc.
  destruct (claude_step events db e) as (db1 & E & Hok1); [| | |done| |].
  - by apply Forall_app in Hev as [Hev _].
  - intros a b id Ha Hb'. apply Hd; apply elem_of_app; by left.
  - apply Forall_forall. intros a Ha. rewrite <-app_assoc in Hs.
    eapply (StronglySorted_app_1_elem_of (λ a b, byte_offset a < byte_offset b));
      [exact Hs|done|by left].
  - rewrite !all_receipts_app in Hb. pose proof (receipts_le_all events).
    pose proof (all_receipts_nonneg evs).
    replace (sum_components (tok e)) with (all_receipts_total [e]).
    + unfold all_receipts_total in *. lia.
    + unfold all_receipts_total, receipts_total. cbn.
      f_equal. rewrite add_comm. apply add_0_l.
  - simpl. rewrite E. simpl. by apply IH.
Qed.

Lemma claude_ok_empty : claude_ok [] usage_empty.
Proof. split; [done|]. cbn. by rewrite fmap_empty. Qed.
End claude.
