(* ===== verification/UsageGuarantees.v ===== *)
(** * What the usage accounting guarantees

    The properties of [Usage], each with a witness on a concrete session. *)

From S2P Require Import Prelude Text Json Usage CodexUsage ClaudeUsage.

(** ** Concrete sessions *)

Definition plain_text : Value → string := λ _, "".

Definition num (n : Z) : Value := Number (PosInt n).

Definition demo_context (o : Z) (m : string) : UsageEvent :=
  mkUsageEvent o 0 "turn_context" None
    (Object [("payload", Object [("model", Str m)]); ("type", Str "turn_context")]).

Definition demo_count (o at_ : Z) (input last : Z) : UsageEvent :=
  mkUsageEvent o at_ "token_count" None
    (Object [("payload", Object
       [("info", Object
          [("last_token_usage", Object
             [("reasoning_output_tokens", num 10); ("total_tokens", num last)]);
           ("model_context_window", num 1000);
           ("total_token_usage", Object
             [("cached_input_tokens", num 20); ("input_tokens", num input);
              ("output_tokens", num 30)])]);
        ("type", Str "token_count")]);
     ("type", Str "event_msg")]).

Definition demo_record (o at_ : Z) (id : string) (input output : Z) : UsageEvent :=
  mkUsageEvent o at_ "token_usage_record" None
    (Object [("payload", Object
       [("response_id", Str id);
        ("usage", Object [("input_tokens", num input); ("output_tokens", num output)])]);
     ("type", Str "token_usage_record")]).

(** A running total, then per-response records with a repeat, a model
    change, and a context update on the next day. *)
Definition demo_codex : list UsageEvent :=
  [demo_context 0 "m1"; demo_count 10 5 100 200; demo_record 20 6 "r1" 40 4;
   demo_record 30 7 "r1" 40 4; demo_context 40 "m2"; demo_record 50 8 "r2" 50 5;
   demo_count 60 DAY_MICROS 190 300].

Definition demo_claude_receipt (o at_ : Z) (id m : string) (input output : Z) : UsageEvent :=
  mkUsageEvent o at_ "assistant" None
    (Object [("message", Object
       [("id", Str id); ("model", Str m);
        ("usage", Object [("input_tokens", num input); ("output_tokens", num output)])]);
     ("type", Str "assistant")]).

(** Two receipts of one response, a correction of its model on the next
    day, and another response. *)
Definition demo_claude : list UsageEvent :=
  [demo_claude_receipt 0 5 "a" "m1" 100 1; demo_claude_receipt 10 6 "a" "m1" 100 20;
   demo_claude_receipt 20 7 "b" "m1" 50 5; demo_claude_receipt 30 DAY_MICROS "a" "m2" 90 20].

Definition run_of (r : res (list UsageEvent * UsageDb)) : list UsageEvent * UsageDb :=
  match r with Ok s => s | Err _ => ([], usage_empty) end.

Definition demo_codex_end : list UsageEvent * UsageDb :=
  run_of (try_fold (insert_usage plain_text Codex) demo_codex ([], usage_empty)).

Section guarantees.
Context (json_text : Value → string).

(** C8. Rebuilding the accounting of a Codex session from its events gives
    the rows that ingesting them one by one left: the session total, the
    daily snapshots, the model buckets (but for their last message id, which
    a rebuild leaves null) and the claimed responses. A session without
    response records is left to the legacy rebuild. *)
Theorem codex_rebuild_reproduces events s :
  Forall (codex_event json_text) events → offsets_increase events →
  try_fold (insert_usage json_text Codex) events ([], usage_empty) = Ok s →
  rebuild_session json_text events =
    Ok (if decide (responses s.2 = ∅) then None else Some (forget_ids s.2)).
Proof.
  intros Hev Hinc Hrun.
  destruct (live_sim json_text events s Hev Hinc Hrun) as (r & Hr & Hs).
  unfold rebuild_session. rewrite Hr. simpl. rewrite (sim_responses _ _ Hs).
  unfold has_responses at 1. case_decide as Hnone.
  - by rewrite bool_decide_true.
  - rewrite bool_decide_false by done. simpl.
    rewrite (persist_sim _ _ Hs); [done|]. unfold has_responses. by rewrite bool_decide_false.
Qed.

(** C9. Ingesting a Claude session never fails while its token counts fit,
    and leaves every response counted once, by its last receipt: the session
    row is the sum over those receipts with the last one's context, message
    and time, and a model bucket exists exactly when one of them falls in
    its day and model, and holds their sum. *)
Theorem claude_counts_last_receipts events :
  Forall (claude_event json_text) events → ids_distinct json_text events →
  offsets_increase events → all_receipts_total events ≤ i64_max →
  ∃ db, try_fold (insert_usage json_text ClaudeCode) events ([], usage_empty) = Ok (events, db) ∧
    match last (receipts json_text events) with
    | None => session_usage db = None
    | Some e => ∃ row, session_usage db = Some row ∧ row_for (receipts json_text events) e row
    end ∧
    md_tokens <$> model_daily db = buckets json_text (receipts json_text events).
Proof.
  intros Hev Hd Hinc Hb.
  destruct (claude_live json_text events [] usage_empty Hev Hd Hinc Hb (claude_ok_empty _))
    as (db & E & []). by exists db.
Qed.

(** A response is claimed once: after its record is accounted, any
    later record with the same response id changes no table, whatever it
    says about tokens. *)
Lemma response_claimed_once events events' o at_ v o' at' v' u u' id db db1 :
  extract_codex_usage v = Some u → message_id u = Some id →
  extract_codex_usage v' = Some u' → message_id u' = Some id →
  match session_usage db with Some row => row_offset row < o | None => True end →
  upsert_from_event json_text events Codex o at_ v db = Ok db1 →
  upsert_from_event json_text events' Codex o' at' v' db1 = Ok db1.
Proof.
  intros Hu Hid Hu' Hid' Hfresh E.
  assert (Hin : id ∈ responses db1)
    by exact (upsert_claims json_text _ _ _ _ _ _ _ _ Hu Hid Hfresh E).
  apply upsert_claimed with u' id; done.
Qed.

(** A [token_count] whose last reasoning tokens exceed its last total
    yields a negative context, which a CHECK of [agent_session_usage]
    refuses: the event's transaction fails, whatever the tables hold. *)
Lemma negative_context_refused events o at_ v u c db :
  extract_codex_usage v = Some u → context_tokens u = Some c → c < 0 →
  match session_usage db with Some row => row_offset row < o | None => True end →
  upsert_from_event json_text events Codex o at_ v db = check_violation.
Proof.
  intros Hu Hc Hneg Hfresh. unfold upsert_from_event. cbn [extract_usage]. rewrite Hu.
  rewrite (not_stale db o Hfresh), (bool_decide_false (Codex = ClaudeCode)) by done.
  apply extract_codex_inv in Hu as [(_ & _ & Hnone & _)|(Hm & Hid & _)]; [congruence|].
  rewrite Hm, (bool_decide_false (Cumulative = Delta)), (bool_decide_true (Codex = Codex)) by done.
  cbn [negb andb]. destruct (session_usage db) as [row|] eqn:Hrow; cbn in Hfresh |- *.
  - destruct (row_response_records row).
    + unfold update_context, check_row, row_checks. rewrite Hrow, (proj2 (Z.ltb_lt _ _) Hfresh).
      cbn. rewrite Hc. cbn. rewrite (proj2 (Z.leb_gt 0 c) Hneg). by rewrite andb_false_r.
    + unfold store_usage, check_row, row_checks. cbn. rewrite Hc. cbn.
      rewrite (proj2 (Z.leb_gt 0 c) Hneg). by rewrite andb_false_r.
  - unfold store_usage, check_row, row_checks. cbn. rewrite Hc. cbn.
    rewrite (proj2 (Z.leb_gt 0 c) Hneg). by rewrite andb_false_r.
Qed.
End guarantees.

(** ** Witnesses *)

Lemma demo_codex_events : Forall (codex_event plain_text) demo_codex.
Proof. repeat constructor; try done; intros; reflexivity. Defined.

Lemma codex_rebuild_reproduces_witness :
  rebuild_session plain_text demo_codex = Ok (Some (forget_ids demo_codex_end.2)) ∧
  row_total <$> session_usage demo_codex_end.2 = Some 229 ∧
  responses demo_codex_end.2 = {["r1"; "r2"]}.
Proof.
  split; [|split; reflexivity].
  rewrite (codex_rebuild_reproduces plain_text demo_codex demo_codex_end).
  - rewrite decide_False; [reflexivity|]. by vm_compute.
  - apply demo_codex_events.
  - unfold offsets_increase, demo_codex. repeat constructor.
  - vm_compute. reflexivity.
Defined.

Lemma claude_counts_last_receipts_witness :
  ∃ db, try_fold (insert_usage plain_text ClaudeCode) demo_claude ([], usage_empty) =
          Ok (demo_claude, db) ∧
    md_tokens <$> model_daily db = buckets plain_text (receipts plain_text demo_claude) ∧
    receipts plain_text demo_claude = drop 2 demo_claude.
Proof.
  destruct (claude_counts_last_receipts plain_text demo_claude) as (db & E & _ & Hm).
  - repeat constructor; try done; intros; reflexivity.
  - intros e e' id _ He' _ Hnone. exfalso.
    assert (Hall : Forall (λ e, is_Some (message_id_text plain_text e)) demo_claude)
      by (repeat constructor; by eexists).
    rewrite Forall_forall in Hall. destruct (Hall e' He') as [? Hid]. congruence.
  - unfold offsets_increase, demo_claude. repeat constructor.
  - by vm_compute.
  - exists db. split; [exact E|]. split; [exact Hm|]. vm_compute. reflexivity.
Defined.

Definition record_one : Value := payload (demo_record 20 6 "r1" 40 4).
Definition record_again : Value := payload (demo_record 30 7 "r1" 999 9).

Definition upsert_one (o : Z) (v : Value) (db : UsageDb) : res UsageDb :=
  upsert_from_event plain_text [] Codex o 6 v db.

Lemma response_claimed_once_witness :
  match upsert_one 20 record_one usage_empty with
  | Ok db1 => upsert_one 30 record_again db1 = Ok db1 ∧ session_usage db1 ≠ None
  | Err _ => False
  end.
Proof.
  destruct (upsert_one 20 record_one usage_empty) as [db1|] eqn:E; [|by vm_compute in E].
  split.
  - eapply (response_claimed_once plain_text [] [] 20 6 record_one 30 6 record_again _ _ "r1"
      usage_empty db1); [reflexivity|reflexivity|reflexivity|reflexivity|exact I|exact E].
  - vm_compute in E. injection E as <-. done.
Defined.

Definition overdrawn_count : Value := payload (demo_count 10 5 100 3).

Lemma negative_context_refused_witness :
  upsert_from_event plain_text [] Codex 10 5 overdrawn_count usage_empty = check_violation.
Proof.
  eapply (negative_context_refused plain_text [] 10 5 overdrawn_count _ (-7) usage_empty);
    [reflexivity|reflexivity|lia|exact I].
Defined.
