(* ===== verification/ModelSwitch.v ===== *)
(** * Model switches

    [model_switches.rs]: the two model baselines of a transcript session, the
    rows that record a change of model, and the decisions that close them.
    Rows of every session live in one table; ids are those the database
    generates, an argument of the insert. *)

From S2P Require Import Prelude Text Json Usage.

(** ** What a record reports *)

Record ModelObservation : Type := mkObservation {
  obs_source : string;
  obs_model : string;
  obs_effort : option string;
  obs_turn_id : option string;
  obs_context : object;
}.

Definition CLAUDE_SYNTHETIC_MODEL : string := "<synthetic>".

Definition non_empty (value : option Value) : option string :=
  text ← value ≫= as_str;
  let text := trim text in
  if is_empty text then None else Some text.

Definition insert_text (key : string) (value : option Value) (context : object) : object :=
  match non_empty value with
  | Some text => obj_insert key (Str text) context
  | None => context
  end.

Definition codex_observation (value : Value) : option ModelObservation :=
  kind ← codex_record_kind value;
  payload ← get value "payload";
  if bool_decide (kind = "turn_context") then
    m ← non_empty (get payload "model");
    Some (mkObservation "codex_turn_context" m
            (or_else (non_empty (get payload "effort"))
               (non_empty (get payload "reasoning_effort")))
            (non_empty (get payload "turn_id")) [])
  else if bool_decide (kind = "event_msg")
          && bool_decide ((get payload "type" ≫= as_str) = Some "thread_settings_applied") then
    settings ← get payload "thread_settings";
    let context := insert_text "model_provider_id" (get settings "model_provider_id")
                     (insert_text "service_tier" (get settings "service_tier") []) in
    m ← non_empty (get settings "model");
    Some (mkObservation "codex_thread_settings" m (non_empty (get settings "reasoning_effort"))
            None context)
  else None.

Definition json_opt (o : option Value) : Value := default Null o.

Definition is_fallback (item : Value) : bool :=
  bool_decide ((get item "type" ≫= as_str) = Some "fallback").

Definition claude_observation (value : Value) : option ModelObservation :=
  if negb (bool_decide ((get value "type" ≫= as_str) = Some "assistant")) then None
  else
    message ← get value "message";
    m ← non_empty (get message "model");
    if bool_decide (m = CLAUDE_SYNTHETIC_MODEL) then None
    else
      let fallback : option Value :=
        items ← (get message "content" ≫= as_array); List.find is_fallback items in
      let context := match fallback with
        | Some f => obj_insert "fallback" (json_object
            [("from", json_opt (get f "from" ≫= λ from, get from "model"));
             ("to", json_opt (get f "to" ≫= λ to, get to "model"))]) []
        | None => [] end in
      let usage := get message "usage" in
      let context := match (usage ← usage; iterations ← get usage "iterations";
                            as_array iterations) with
        | Some iterations => obj_insert "iterations" (Array ((λ iteration, json_object
            [("type", json_opt (get iteration "type"));
             ("model", json_opt (get iteration "model"))]) <$> iterations)) context
        | None => context end in
      let context := insert_text "service_tier" (usage ≫= λ usage, get usage "service_tier")
                       context in
      Some (mkObservation (if is_some fallback then "claude_fallback" else "claude_message") m
              (non_empty (get value "effort")) None context).

Definition observation_from_event (agent : string) (value : Value) : option ModelObservation :=
  if bool_decide (agent = "codex") then codex_observation value
  else if bool_decide (agent ∈ ["claude-code"; "claude"]) then claude_observation value
  else None.

(** ** Tables *)

(** The columns of [agent_session_metadata] the guard keeps. *)
Record Baseline : Type := mkBaseline {
  observed_model : option string;
  observed_effort : option string;
  confirmed_model : option string;
}.

Record ModelSwitch : Type := mkSwitch {
  sw_id : string;
  sw_session : string;
  sw_agent : string;
  sw_offset : Z;
  sw_source : string;
  from_model : option string;
  to_model : string;
  from_effort : option string;
  to_effort : option string;
  sw_turn_id : option string;
  turn_in_flight : bool;
  enforced : bool;
  sw_context : Value;
  sw_observed_at : Z;
  interrupted_at : option Z;
  interrupt_error : option string;
  acknowledged_at : option Z;
  adopted : option bool;
}.

(** A PTY joined with its activity row. *)
Record Pty : Type := mkPty {
  current_session : option string;
  pty_state : string;
  agent_runtime_state : string;
  activity : option string;
}.

Record World : Type := mkWorld {
  metadata : gmap string Baseline;
  switches : list ModelSwitch;
  ptys : gmap string Pty;
}.

Definition set_metadata m w := mkWorld m (switches w) (ptys w).
Definition set_switches l w := mkWorld (metadata w) l (ptys w).
Definition set_ptys p w := mkWorld (metadata w) (switches w) p.

(** ** Observing a record *)

(** The session's events before an offset, latest last. *)
Definition last_before (kinds : list string) (events : list UsageEvent) (offset : Z)
    : option UsageEvent :=
  last (filter (λ e, byte_offset e < offset ∧ kind e ∈ kinds) events).

Definition turn_state (events : list UsageEvent) (observation : ModelObservation) (offset : Z)
    : bool * option string :=
  if negb (bool_decide (obs_source observation = "codex_thread_settings"))
  then (true, obs_turn_id observation)
  else match last_before ["task_started"; "task_complete"; "turn_started"; "turn_complete";
                          "turn_aborted"] events offset with
       | Some e =>
           if bool_decide (kind e ∈ ["task_started"; "turn_started"])
           then (true, string_at (payload e) ["payload"; "turn_id"])
           else (false, None)
       | None => (false, None)
       end.

Definition write_baseline (session observed : string) (effort : option string)
    (confirmed : string) (w : World) : World :=
  let kept := b ← metadata w !! session; confirmed_model b in
  set_metadata (<[session := mkBaseline (Some observed) effort
                    (or_else kept (Some confirmed))]> (metadata w)) w.

Definition not_blank (o : option string) : option string :=
  m ← o; if is_empty m then None else Some m.

(** [rate_limits] of the last token count, kept when it is an object. The
    column is an SQL [->] chain: a missing key makes it [NULL], which does not
    decode as the [Value] the query asks for. *)
Definition rate_limits (events : list UsageEvent) (offset : Z) : res (option Value) :=
  match last_before ["token_count"] events offset with
  | None => Ok None
  | Some e =>
      match at_path (payload e) ["payload"; "rate_limits"] with
      | None => bail "unexpected null; try decoding as an `Option`"
      | Some v => Ok (if is_object v then Some v else None)
      end
  end.

Definition same_record (session : string) (offset : Z) (s : ModelSwitch) : bool :=
  bool_decide (sw_session s = session) && bool_decide (sw_offset s = offset).

(** [ON CONFLICT (session_uuid, byte_offset) DO NOTHING RETURNING id] *)
Definition insert_switch (s : ModelSwitch) (w : World) : res (option string * World) :=
  if existsb (same_record (sw_session s) (sw_offset s)) (switches w) then Ok (None, w)
  else if existsb (λ s', bool_decide (sw_id s' = sw_id s)) (switches w)
  then bail "duplicate key value violates unique constraint"
  else Ok (Some (sw_id s), set_switches (switches w ++ [s]) w).

Definition observe_event (events : list UsageEvent) (new_id session agent : string)
    (value : Value) (offset observed_at : Z) (w : World) : res (option string * World) :=
  match observation_from_event agent value with
  | None => Ok (None, w)
  | Some observation =>
    let baseline := default (mkBaseline None None None) (metadata w !! session) in
    let m := obs_model observation in
    match not_blank (observed_model baseline) with
    | None => Ok (None, write_baseline session m (obs_effort observation) m w)
    | Some previous =>
      if bool_decide (previous = m) then
        Ok (None, if bool_decide (observed_effort baseline = obs_effort observation) then w
                  else write_baseline session m (obs_effort observation) previous w)
      else
        let confirmed := default previous (confirmed_model baseline) in
        let '(in_flight, turn_id) := turn_state events observation offset in
        limits ← (if bool_decide (agent = "codex") then rate_limits events offset else Ok None);
        let context := match limits with
          | Some v => obj_insert "rate_limits" v (obs_context observation)
          | None => obs_context observation end in
        '(id, w) ← insert_switch
          (mkSwitch new_id session agent offset (obs_source observation) (Some previous) m
             (observed_effort baseline) (obs_effort observation) turn_id in_flight
             (negb (bool_decide (m = confirmed))) (Object context) observed_at
             None None None None) w;
        Ok (id, write_baseline session m (obs_effort observation) confirmed w)
    end
  end.

(** ** Decisions and enforcement *)

Definition close (now : Z) (adopt : bool) (s : ModelSwitch) : ModelSwitch :=
  mkSwitch (sw_id s) (sw_session s) (sw_agent s) (sw_offset s) (sw_source s) (from_model s)
    (to_model s) (from_effort s) (to_effort s) (sw_turn_id s) (turn_in_flight s) (enforced s)
    (sw_context s) (sw_observed_at s) (interrupted_at s) (interrupt_error s) (Some now)
    (Some adopt).

Definition is_open (s : ModelSwitch) : bool := is_none (acknowledged_at s).

Definition update_where (p : ModelSwitch → bool) (f : ModelSwitch → ModelSwitch)
    (l : list ModelSwitch) : list ModelSwitch :=
  (λ s, if p s then f s else s) <$> l.

(** The switch an acknowledgement closes: open, in the PTY's session. *)
Definition closable (pty switch : string) (w : World) (s : ModelSwitch) : bool :=
  bool_decide (sw_id s = switch) && is_open s
  && bool_decide ((p ← ptys w !! pty; current_session p) = Some (sw_session s)).

Definition acknowledge (pty switch : string) (adopt : bool) (now : Z) (w : World)
    : bool * World :=
  match List.find (closable pty switch w) (switches w) with
  | None => (false, w)
  | Some closed =>
      let w := set_switches (update_where (closable pty switch w) (close now adopt) (switches w)) w in
      if adopt then
        let session := sw_session closed in
        let to := to_model closed in
        let w := set_metadata (alter (λ b, mkBaseline (observed_model b) (observed_effort b)
                                              (Some to)) session (metadata w)) w in
        (true, set_switches
          (update_where (λ s, bool_decide (sw_session s = session) && bool_decide (to_model s = to)
                              && is_open s) (close now true) (switches w)) w)
      else (true, w)
  end.

Definition pty_running (s : ModelSwitch) (p : Pty) : bool :=
  bool_decide (current_session p = Some (sw_session s)) && bool_decide (pty_state p = "live")
  && bool_decide (agent_runtime_state p = "running") && bool_decide (activity p = Some "working").

Definition enforceable (s : ModelSwitch) : bool :=
  enforced s && is_open s && is_none (interrupted_at s).

(** The pairs [pending_enforcement] selects; their order is the rows' time. *)
Definition pending_enforcement (w : World) : list (string * string) :=
  flat_map (λ s, (λ kv : string * Pty, (sw_id s, kv.1)) <$>
                   filter (λ kv : string * Pty, pty_running s kv.2 = true) (map_to_list (ptys w)))
    (filter (λ s, enforceable s = true) (switches w)).

Definition interrupt (at_ : option Z) (err : option string) (s : ModelSwitch) : ModelSwitch :=
  mkSwitch (sw_id s) (sw_session s) (sw_agent s) (sw_offset s) (sw_source s) (from_model s)
    (to_model s) (from_effort s) (to_effort s) (sw_turn_id s) (turn_in_flight s) (enforced s)
    (sw_context s) (sw_observed_at s) at_ err (acknowledged_at s) (adopted s).

Definition mark_interrupted (switch : string) (now : Z) (w : World) : World :=
  set_switches (update_where (λ s, bool_decide (sw_id s = switch)) (interrupt (Some now) None)
                  (switches w)) w.

Definition mark_interrupt_error (switch error : string) (w : World) : World :=
  set_switches (update_where (λ s, bool_decide (sw_id s = switch))
                  (λ s, interrupt (interrupted_at s) (Some (take_chars 500 error)) s)
                  (switches w)) w.

Definition RECENT_LIMIT : Z := 50.

Definition newer (a b : ModelSwitch) : Prop :=
  sw_observed_at b < sw_observed_at a
  ∨ (sw_observed_at a = sw_observed_at b ∧ sw_offset b ≤ sw_offset a).

#[export] Instance newer_dec a b : Decision (newer a b).
Proof. unfold newer. apply _. Defined.

Definition list_for_pty (pty : string) (w : World) : list ModelSwitch :=
  let here s := (p ← ptys w !! pty; current_session p) = Some (sw_session s) in
  take (Z.to_nat RECENT_LIMIT) (merge_sort newer (filter here (switches w))).
