(* ===== verification/ModelGuard.v ===== *)
(** * The model guard

    A specification automaton for the two baselines of a session, the
    invariant of every history of observations, acknowledgements and
    interrupts, and what they guarantee: no departure from the confirmed
    model goes unrecorded, and no open enforced switch names it. *)

From S2P Require Import Prelude Text Json Usage ModelSwitch.

#[local] Arguments non_empty : simpl never.
#[local] Arguments not_blank : simpl never.

(** ** The automaton *)

(** The model a session runs on and the one the user accepted. *)
Definition Guard : Type := option string * option string.

Definition guard (w : World) (session : string) : Guard :=
  let b := default (mkBaseline None None None) (metadata w !! session) in
  (not_blank (observed_model b), confirmed_model b).

(** A change of model: where from, and whether it departs from the accepted
    model. *)
Definition guard_step (g : Guard) (m : string) : Guard * option (string * bool) :=
  match g.1 with
  | None => ((Some m, or_else g.2 (Some m)), None)
  | Some p =>
      if bool_decide (p = m) then (g, None)
      else let c := default p g.2 in
           ((Some m, Some c), Some (p, negb (bool_decide (m = c))))
  end.

Lemma non_empty_blank v m : non_empty v = Some m → m ≠ "".
Proof.
  unfold non_empty. intros (t & _ & H)%bind_Some.
  destruct (is_empty (trim t)) eqn:E; [done|]. injection H as <-.
  unfold is_empty in E. by apply bool_decide_eq_false in E.
Qed.

Lemma observation_blank agent v o : observation_from_event agent v = Some o → obs_model o ≠ "".
Proof.
  unfold observation_from_event. case_bool_decide; [|case_bool_decide; [|done]].
  - unfold codex_observation. intros (k & _ & (p & _ & HE)%bind_Some)%bind_Some.
    case_bool_decide.
    + apply bind_Some in HE as (m & Hm & [= <-]). by eapply non_empty_blank.
    + destruct (_ && _); [|done].
      apply bind_Some in HE as (s & _ & (m & Hm & [= <-])%bind_Some). by eapply non_empty_blank.
  - unfold claude_observation. destruct (negb _); [done|].
    intros (p & _ & (m & Hm & HE)%bind_Some)%bind_Some. case_bool_decide; [done|].
    injection HE as <-. by eapply non_empty_blank.
Qed.

Lemma not_blank_Some m : m ≠ "" → not_blank (Some m) = Some m.
Proof. intros Hm. unfold not_blank, is_empty. cbn. by rewrite bool_decide_false. Qed.

Lemma not_blank_inv o m : not_blank o = Some m → o = Some m ∧ m ≠ "".
Proof.
  unfold not_blank, is_empty. destruct o as [m'|]; [|done]. cbn.
  case_bool_decide; [done|]. by intros [= ->].
Qed.

Lemma guard_write_eq session m effort c w :
  m ≠ "" →
  guard (write_baseline session m effort c w) session =
    (Some m, or_else (confirmed_model (default (mkBaseline None None None) (metadata w !! session)))
               (Some c)).
Proof.
  intros Hm. unfold guard, write_baseline. cbn. rewrite lookup_insert_eq. cbn.
  rewrite not_blank_Some by done. f_equal. by destruct (metadata w !! session).
Qed.

Lemma write_other session session' m effort c w :
  session ≠ session' →
  metadata (write_baseline session m effort c w) !! session' = metadata w !! session'.
Proof. intros Hne. unfold write_baseline. cbn. by rewrite lookup_insert_ne. Qed.

(** The row an observation adds. *)
Definition recorded (new : ModelSwitch) (session : string) (offset : Z) (m from : string)
    (departs : bool) : Prop :=
  sw_session new = session ∧ sw_offset new = offset ∧ from_model new = Some from ∧
  to_model new = m ∧ enforced new = departs ∧ acknowledged_at new = None ∧
  interrupted_at new = None ∧ adopted new = None.

(** A successful observation moves the automaton, touches no other session,
    and adds a row exactly when the automaton emits one. *)
Lemma observe_guard events id session agent v offset at_ w r w' o :
  observation_from_event agent v = Some o →
  (is_Some (guard w session).1 → is_Some (guard w session).2) →
  (∀ s, s ∈ switches w → sw_session s = session → sw_offset s < offset) →
  observe_event events id session agent v offset at_ w = Ok (r, w') →
  guard w' session = (guard_step (guard w session) (obs_model o)).1 ∧
  (∀ session', session' ≠ session → metadata w' !! session' = metadata w !! session') ∧
  ptys w' = ptys w ∧
  match (guard_step (guard w session) (obs_model o)).2 with
  | None => switches w' = switches w ∧ r = None
  | Some (from, departs) =>
      ∃ new, switches w' = switches w ++ [new] ∧ r = Some id ∧ sw_id new = id ∧
        id ∉ sw_id <$> switches w ∧ recorded new session offset (obs_model o) from departs
  end.
Proof.
  intros Ho Hc Hlt. unfold observe_event. rewrite Ho.
  pose proof (observation_blank _ _ _ Ho) as Hm. set (m := obs_model o) in *.
  unfold guard in Hc |- *. set (b := default _ (metadata w !! session)) in *. cbn in Hc.
  unfold guard_step. cbn [fst snd]. destruct (not_blank (observed_model b)) as [p|] eqn:Hp.
  2:{ intros [= <- <-]. fold (guard (write_baseline session m (obs_effort o) m w) session).
      rewrite guard_write_eq by done. split_and!; try done.
      intros session' Hne. by rewrite write_other. }
  destruct (Hc (mk_is_Some _ _ eq_refl)) as [c Hcc].
  case_bool_decide as Hpm.
  - intros [= <- <-]. subst p. cbn [fst snd]. case_bool_decide as He.
    + fold b. by rewrite Hp.
    + fold (guard (write_baseline session m (obs_effort o) m w) session).
      rewrite guard_write_eq by done. fold b. rewrite Hcc. split_and!; try done.
      intros session' Hne. by rewrite write_other.
  - destruct (turn_state events o offset) as [in_flight turn_id].
    intros (limits & _ & ([id' w1] & E & [= <- <-])%res_bind_Ok)%res_bind_Ok.
    unfold insert_switch in E. cbn [sw_session sw_offset sw_id] in E.
    destruct (existsb (same_record _ _) _) eqn:Edup.
    { exfalso. apply existsb_exists in Edup as (s & Hin & Hs).
      apply andb_true_iff in Hs as [H1%bool_decide_eq_true H2%bool_decide_eq_true].
      apply list_elem_of_In in Hin. specialize (Hlt s Hin H1). lia. }
    destruct (existsb _ _) eqn:Eid in E; [done|]. injection E as <- <-.
    set (new := mkSwitch _ _ _ _ _ _ _ _ _ _ _ _ _ _ _ _ _ _).
    fold (guard (write_baseline session m (obs_effort o) (default p (confirmed_model b))
                   (set_switches (switches w ++ [new]) w)) session).
    rewrite guard_write_eq by done. cbn [metadata set_switches]. fold b. rewrite Hcc.
    split_and!; try done; [intros session' Hne; by rewrite write_other|].
    exists new. split_and!; try done; [|unfold recorded; cbn; by rewrite Hcc].
    intros ([] & Hid & Hin)%list_elem_of_fmap. apply not_true_iff_false in Eid. apply Eid.
    apply existsb_exists. eexists. split; [by apply list_elem_of_In|]. cbn in Hid |- *.
    by apply bool_decide_eq_true.
Qed.

(** ** Histories *)

Definition world_empty : World := mkWorld ∅ [] ∅.

(** What happens to a guard: records observed in offset order, decisions,
    interrupts, and PTYs changing on their own. *)
Inductive step (w : World) : World → Prop :=
  | step_observe events id session agent v offset at_ r w' :
      (∀ s, s ∈ switches w → sw_session s = session → sw_offset s < offset) →
      observe_event events id session agent v offset at_ w = Ok (r, w') → step w w'
  | step_acknowledge pty switch adopt now :
      step w (acknowledge pty switch adopt now w).2
  | step_interrupted switch now : step w (mark_interrupted switch now w)
  | step_interrupt_error switch err : step w (mark_interrupt_error switch err w)
  | step_ptys p : step w (set_ptys p w).

Definition reachable (w : World) : Prop := rtc step world_empty w.

Definition rows_of (session : string) (l : list ModelSwitch) : list ModelSwitch :=
  filter (λ s, sw_session s = session) l.

(** Rows in order lead from one model to the next, never to the same. *)
Fixpoint chain (from : string) (l : list ModelSwitch) (to : string) : Prop :=
  match l with
  | [] => from = to
  | s :: l => from_model s = Some from ∧ to_model s ≠ from ∧ chain (to_model s) l to
  end.

Definition open_enforced (s : ModelSwitch) : Prop :=
  enforced s = true ∧ acknowledged_at s = None.

Definition adopted_to (c : string) (l : list ModelSwitch) : Prop :=
  ∃ s, s ∈ l ∧ to_model s = c ∧ adopted s = Some true.

(** One session: its rows, and the models it runs on and accepts. *)
Record session_ok (g : Guard) (rows : list ModelSwitch) : Prop := {
  so_none : g.1 = None → rows = [] ∧ g.2 = None;
  so_some m : g.1 = Some m → ∃ c, g.2 = Some c ∧ (∃ launch, chain launch rows m) ∧
    (∀ s, s ∈ rows → open_enforced s → to_model s ≠ c) ∧
    (m ≠ c → ∃ s, last rows = Some s ∧ (enforced s = true ∨ adopted_to c rows));
  so_adopted s : s ∈ rows → adopted s = Some true → acknowledged_at s ≠ None;
}.

Record guarded (w : World) : Prop := {
  gd_sessions session : session_ok (guard w session) (rows_of session (switches w));
  gd_ids : NoDup (sw_id <$> switches w);
}.

Lemma chain_snoc from l to s m :
  chain from l to → from_model s = Some to → to_model s = m → m ≠ to → chain from (l ++ [s]) m.
Proof.
  revert from. induction l as [|a l IH]; intros from; cbn.
  - by intros -> -> <- ?.
  - intros (-> & ? & Hc) ? ? ?. split_and!; [done|done|by apply IH].
Qed.

Lemma chain_last from l to s : chain from l to → last l = Some s → to_model s = to.
Proof.
  revert from. induction l as [|a l IH]; intros from; [done|]. intros (_ & _ & Hc).
  destruct l as [|b l]; [cbn in *; congruence|]. rewrite last_cons_cons. by apply (IH _ Hc).
Qed.

(** Updates that keep models, and close switches only. *)
Lemma rows_update session p f l :
  (∀ s, sw_session (f s) = sw_session s) →
  rows_of session (update_where p f l) = update_where p f (rows_of session l).
Proof.
  intros Hf. unfold rows_of, update_where. rewrite filter_fmap_comm. f_equal.
  apply filter_ext_in. intros a _. destruct (p a); by rewrite ?Hf.
Qed.

Definition keeps_models (f : ModelSwitch → ModelSwitch) : Prop :=
  ∀ s, sw_id (f s) = sw_id s ∧ sw_session (f s) = sw_session s ∧ from_model (f s) = from_model s ∧
    to_model (f s) = to_model s ∧ enforced (f s) = enforced s.

Lemma chain_update p f l from to :
  keeps_models f → chain from l to → chain from (update_where p f l) to.
Proof.
  intros Hf. revert from. induction l as [|a l IH]; intros from; [done|].
  cbn. destruct (Hf a) as (_ & _ & H1 & H2 & _).
  intros (? & ? & ?). destruct (p a); rewrite ?H1, ?H2; split_and!; try done; by apply IH.
Qed.

Lemma last_update p f l :
  last (update_where p f l) = (λ s, if p s then f s else s) <$> last l.
Proof. unfold update_where. apply fmap_last. Qed.

Lemma elem_of_update p f l s :
  s ∈ update_where p f l ↔ ∃ s0, s0 ∈ l ∧ s = if p s0 then f s0 else s0.
Proof. unfold update_where. rewrite list_elem_of_fmap. naive_solver. Qed.

Definition harmless (p : ModelSwitch → bool) (f : ModelSwitch → ModelSwitch) : Prop :=
  ∀ s, p s = true → (adopted s = Some true → acknowledged_at s ≠ None) →
    (acknowledged_at (f s) = None → acknowledged_at s = None) ∧
    (adopted s = Some true → adopted (f s) = Some true) ∧
    (adopted (f s) = Some true → acknowledged_at (f s) ≠ None).

Lemma adopted_update p f c l :
  keeps_models f → harmless p f → (∀ s, s ∈ l → adopted s = Some true → acknowledged_at s ≠ None) →
  adopted_to c l → adopted_to c (update_where p f l).
Proof.
  intros Hk Hh Ha (s & Hin & Ht & Had). exists (if p s then f s else s). split_and!.
  - apply elem_of_update. by exists s.
  - destruct (p s); [|done]. by destruct (Hk s) as (_ & _ & _ & -> & _).
  - destruct (p s) eqn:Hp; [|done]. by apply (Hh s Hp (Ha s Hin)).
Qed.

Lemma session_update g rows p f :
  keeps_models f → harmless p f → session_ok g rows → session_ok g (update_where p f rows).
Proof.
  intros Hk Hh [Hnone Hsome Had]. split.
  - intros Hg. by destruct (Hnone Hg) as [-> ?].
  - intros m Hg. destruct (Hsome m Hg) as (c & Hc & (launch & Hl) & Hopen & Hdep).
    exists c. split; [done|]. split; [exists launch; by apply chain_update|]. split.
    + intros s (s0 & Hin & ->)%elem_of_update [He Ha]. destruct (p s0) eqn:Hp.
      * destruct (Hk s0) as (_ & _ & _ & Ht & Hen). rewrite Ht. rewrite Hen in He.
        apply Hopen; [done|]. split; [done|]. by apply (Hh s0 Hp (Had s0 Hin)).
      * by apply Hopen.
    + intros Hne. destruct (Hdep Hne) as (s & Hlast & Hs). rewrite last_update, Hlast.
      eexists. split; [done|]. destruct Hs as [He|Hs]; [left|right; by apply adopted_update].
      destruct (p s); [|done]. by destruct (Hk s) as (_ & _ & _ & _ & ->).
  - intros s (s0 & Hin & ->)%elem_of_update. destruct (p s0) eqn:Hp; [|by apply Had].
    by apply (Hh s0 Hp (Had s0 Hin)).
Qed.

Lemma close_keeps now a : keeps_models (close now a).
Proof. by intros s. Qed.

Lemma close_harmless p now a : (∀ s, p s = true → is_open s = true) → harmless p (close now a).
Proof.
  intros Hp s Hs Ha. apply Hp in Hs. unfold is_open, is_none in Hs. cbn. split_and!; try done.
  intros Had. by destruct (acknowledged_at s), (Ha Had).
Qed.

Lemma interrupt_keeps f g : keeps_models (λ s, interrupt (f s) (g s) s).
Proof. by intros s. Qed.

Lemma interrupt_harmless p f g : harmless p (λ s, interrupt (f s) (g s) s).
Proof. intros s _ Ha. cbn. split_and!; try done. Qed.

Lemma ids_update p f l : keeps_models f → sw_id <$> update_where p f l = sw_id <$> l.
Proof.
  intros Hk. unfold update_where. rewrite <-list_fmap_compose. apply list_fmap_ext.
  intros i s _. cbn. destruct (p s); [|done]. by destruct (Hk s) as (-> & _).
Qed.

(** An update of the rows that leaves the baselines alone. *)
Lemma guarded_update w p f :
  keeps_models f → harmless p f → guarded w →
  guarded (set_switches (update_where p f (switches w)) w).
Proof.
  intros Hk Hh [Hs Hid]. split.
  - intros session.
    change (session_ok (guard w session) (rows_of session (update_where p f (switches w)))).
    rewrite rows_update by apply Hk. by apply session_update.
  - cbn. by rewrite ids_update.
Qed.

(** ** Each step *)

Lemma session_observe g rows new session offset m departs from g' id :
  session_ok g rows → guard_step g m = (g', Some (from, departs)) → sw_id new = id →
  recorded new session offset m from departs → session_ok g' (rows ++ [new]).
Proof.
  intros [Hnone Hsome Had] Hstep _ (_ & _ & Hf & Ht & He & Hack & _ & Hadn).
  unfold guard_step in Hstep. destruct (g.1) as [p|] eqn:Hg; [|done].
  case_bool_decide as Hpm; [done|]. injection Hstep as <- <- Hd. split; [done| |].
  - intros m' [= <-]. destruct (Hsome p eq_refl) as (c & Hc & (launch & Hl) & Hopen & Hdep).
    rewrite Hc in *. cbn in *. exists c. split; [done|].
    split; [exists launch; by eapply chain_snoc|]. split.
    + intros s [Hin|Hin%list_elem_of_singleton]%elem_of_app; [by apply Hopen|]. subst s.
      intros [He' _]. rewrite He, <-Hd in He'. rewrite Ht.
      by apply negb_true_iff, bool_decide_eq_false in He'.
    + intros Hne. exists new. rewrite last_snoc. split; [done|]. left.
      rewrite He, <-Hd. apply negb_true_iff, bool_decide_eq_false. done.
  - intros s [Hin|Hin%list_elem_of_singleton]%elem_of_app; [by apply Had|]. subst s. by rewrite Hadn.
Qed.

Lemma guard_same session w w' : metadata w' !! session = metadata w !! session →
  guard w' session = guard w session.
Proof. unfold guard. by intros ->. Qed.

Lemma guarded_observe w events id session agent v offset at_ r w' :
  guarded w → (∀ s, s ∈ switches w → sw_session s = session → sw_offset s < offset) →
  observe_event events id session agent v offset at_ w = Ok (r, w') → guarded w'.
Proof.
  intros [Hs Hid] Hlt E.
  destruct (observation_from_event agent v) as [o|] eqn:Ho.
  2:{ unfold observe_event in E. rewrite Ho in E. injection E as <- <-. by split. }
  assert (Hc : is_Some (guard w session).1 → is_Some (guard w session).2).
  { intros [m Hm]. destruct (so_some _ _ (Hs session) m Hm) as (c & Hc & _). by eexists. }
  destruct (observe_guard _ _ _ _ _ _ _ _ _ _ _ Ho Hc Hlt E) as (Hg & Hother & _ & Hrow).
  destruct (guard_step (guard w session) (obs_model o)) as [g' [[from departs]|]] eqn:Hstep;
    cbn in Hg, Hrow.
  - destruct Hrow as (new & Hsw & _ & Hnew & Hfresh & Hrec). split.
    + intros session'. rewrite Hsw. unfold rows_of. rewrite filter_app, filter_cons, filter_nil.
      pose proof Hrec as (Hses & _). rewrite Hses. case_decide as Hd.
      * subst session'. rewrite Hg.
        exact (session_observe _ _ new session offset _ departs from g' id (Hs session)
                 Hstep Hnew Hrec).
      * rewrite app_nil_r, (guard_same session' w w'); [apply Hs|by apply Hother].
    + rewrite Hsw, fmap_app. apply NoDup_app. split_and!; [done| |apply NoDup_singleton].
      intros i Hi Hi'. apply list_elem_of_singleton in Hi'. cbn in Hi'. subst i.
      by rewrite Hnew in Hi.
  - destruct Hrow as [Hsw _]. split; [|by rewrite Hsw].
    intros session'. rewrite Hsw. destruct (decide (session' = session)) as [->|Hne].
    + rewrite Hg. destruct (Hs session) as [Hnone Hsome Had].
      unfold guard_step in Hstep. destruct (guard w session).1 as [p|] eqn:Hp.
      * case_bool_decide; [|done]. injection Hstep as <-. by split; rewrite ?Hp.
      * injection Hstep as <-. destruct (Hnone eq_refl) as [-> Hconf].
        unfold guard in Hconf. cbn in Hconf |- *. rewrite Hconf. cbn.
        split; [done| |by intros s ?%elem_of_nil].
        intros m [= <-]. exists (obs_model o). split_and!; [done|by exists (obs_model o)| |done].
        by intros s ?%elem_of_nil.
    + rewrite (guard_same session' w w'); [apply Hs|by apply Hother].
Qed.

(** What a successful acknowledgement leaves. *)
Definition after_adopt (closed : ModelSwitch) (pty switch : string) (now : Z) (w : World) : World :=
  set_switches
    (update_where (λ s, bool_decide (sw_session s = sw_session closed)
                        && bool_decide (to_model s = to_model closed) && is_open s)
       (close now true) (update_where (closable pty switch w) (close now true) (switches w)))
    (set_metadata (alter (λ b, mkBaseline (observed_model b) (observed_effort b)
                                 (Some (to_model closed))) (sw_session closed) (metadata w)) w).

Lemma acknowledge_adopt pty switch now w closed :
  List.find (closable pty switch w) (switches w) = Some closed →
  acknowledge pty switch true now w = (true, after_adopt closed pty switch now w).
Proof. unfold acknowledge. by intros ->. Qed.

Lemma closed_row pty switch w closed :
  List.find (closable pty switch w) (switches w) = Some closed →
  closed ∈ switches w ∧ closable pty switch w closed = true.
Proof. intros H%List.find_some. by rewrite <-list_elem_of_In in H. Qed.

Lemma closable_open pty switch w s : closable pty switch w s = true → is_open s = true.
Proof. unfold closable. rewrite !andb_true_iff. tauto. Qed.

(** No open row of the session leads to the adopted model. *)
Lemma after_adopt_settled closed pty switch now w s :
  s ∈ switches (after_adopt closed pty switch now w) → sw_session s = sw_session closed →
  to_model s = to_model closed → acknowledged_at s ≠ None.
Proof.
  intros (s0 & _ & ->)%elem_of_update Hse Hto.
  destruct (_ && _) eqn:E in Hse, Hto |- *; [done|].
  rewrite (bool_decide_true _ Hse), (bool_decide_true _ Hto) in E. cbn in E.
  unfold is_open in E. by destruct (acknowledged_at s0).
Qed.

Lemma after_adopt_guard closed pty switch now w session :
  guard (after_adopt closed pty switch now w) session =
  if decide (session = sw_session closed) then
    match metadata w !! session with
    | Some b => (not_blank (observed_model b), Some (to_model closed))
    | None => guard w session
    end
  else guard w session.
Proof.
  unfold guard, after_adopt. cbn. case_decide as Hd.
  - subst session. rewrite lookup_alter_eq. by destruct (metadata w !! sw_session closed).
  - by rewrite lookup_alter_ne.
Qed.

Lemma guarded_adopt closed pty switch now w :
  guarded w → List.find (closable pty switch w) (switches w) = Some closed →
  guarded (after_adopt closed pty switch now w).
Proof.
  intros Hw Hfind. destruct (closed_row _ _ _ _ Hfind) as [Hin Hcl].
  assert (Hh1 : harmless (closable pty switch w) (close now true))
    by (apply close_harmless, closable_open).
  pose proof (guarded_update w _ _ (close_keeps now true) Hh1 Hw) as Hw1.
  set (p2 := λ s, bool_decide (sw_session s = sw_session closed)
                  && bool_decide (to_model s = to_model closed) && is_open s).
  assert (Hh2 : harmless p2 (close now true)).
  { apply close_harmless. intros s. unfold p2. rewrite !andb_true_iff. tauto. }
  pose proof (guarded_update _ _ _ (close_keeps now true) Hh2 Hw1) as Hw2. cbn in Hw2.
  assert (Hadopted : adopted_to (to_model closed)
    (rows_of (sw_session closed) (switches (after_adopt closed pty switch now w)))).
  { set (closed' := close now true closed). exists (if p2 closed' then close now true closed' else closed').
    split_and!; [|by destruct (p2 closed')|by destruct (p2 closed')].
    apply list_elem_of_filter. split; [by destruct (p2 closed')|].
    apply elem_of_update. exists closed'. split; [|done].
    apply elem_of_update. exists closed. split; [done|]. by rewrite Hcl. }
  split; [|apply (gd_ids _ Hw2)]. intros session.
  assert (Hs : session_ok (guard w session)
    (rows_of session (switches (after_adopt closed pty switch now w))))
    by exact (gd_sessions _ Hw2 session).
  rewrite after_adopt_guard. case_decide as Hd; [|exact Hs].
  subst session. destruct Hs as [Hnone Hsome Had].
  destruct (metadata w !! sw_session closed) as [b|] eqn:Hb.
  2:{ split; [exact Hnone|exact Hsome|exact Had]. }
  assert (Hg : (guard w (sw_session closed)).1 = not_blank (observed_model b))
    by (unfold guard; by rewrite Hb).
  rewrite Hg in Hnone, Hsome. split; cbn [fst snd].
  - intros Hn. destruct (Hnone Hn) as [Hrows _]. destruct Hadopted as (s & Hs & _).
    rewrite Hrows in Hs. by apply elem_of_nil in Hs.
  - intros m Hm. destruct (Hsome m Hm) as (c & Hc & Hl & Hopen & Hdep).
    exists (to_model closed). split; [done|]. split; [exact Hl|]. split.
    + intros s Hs [_ Hack] Hto. apply list_elem_of_filter in Hs as [Hse Hs].
      by apply (after_adopt_settled closed pty switch now w s).
    + intros _. destruct Hadopted as (s & Hs & Hrest).
      destruct (last _) as [s'|] eqn:El.
      2:{ apply last_None in El. rewrite El in Hs. by apply elem_of_nil in Hs. }
      exists s'. split; [done|]. right. by exists s.
  - exact Had.
Qed.

Lemma guarded_empty : guarded world_empty.
Proof.
  split; [|constructor]. intros session. split; cbn; try done. by intros s ?%elem_of_nil.
Qed.

Lemma guarded_step w w' : guarded w → step w w' → guarded w'.
Proof.
  intros Hw Hs. destruct Hs as [events id session agent v offset at_ r w' Hlt E| | | |].
  - by eapply guarded_observe.
  - destruct (List.find (closable pty switch w) (switches w)) as [closed|] eqn:E.
    + destruct adopt.
      * rewrite (acknowledge_adopt _ _ _ _ _ E). by apply guarded_adopt.
      * unfold acknowledge. rewrite E. apply guarded_update; [apply close_keeps| |done].
        apply close_harmless, closable_open.
    + unfold acknowledge. by rewrite E.
  - apply guarded_update; [apply (interrupt_keeps (λ _, Some now) (λ _, None))| |done].
    apply (interrupt_harmless _ (λ _, Some now) (λ _, None)).
  - apply guarded_update; [apply (interrupt_keeps interrupted_at (λ _, Some _))| |done].
    apply (interrupt_harmless _ interrupted_at (λ _, Some _)).
  - destruct Hw as [H1 H2]. by split.
Qed.

Lemma reachable_guarded w : reachable w → guarded w.
Proof.
  unfold reachable. revert w. apply rtc_ind_r; [apply guarded_empty|].
  intros w1 w2 _ Hs IH. by eapply guarded_step.
Qed.

Lemma confirmed_with_observed w session :
  guarded w → is_Some (guard w session).1 → is_Some (guard w session).2.
Proof.
  intros Hw [m Hm]. destruct (so_some _ _ (gd_sessions _ Hw session) m Hm) as (c & Hc & _).
  by eexists.
Qed.

(** An observation fails only for want of [rate_limits] or of a fresh row. *)
Lemma observe_succeeds events id session agent v offset at_ w o :
  observation_from_event agent v = Some o →
  (∀ s, s ∈ switches w → sw_session s = session → sw_offset s < offset) →
  id ∉ sw_id <$> switches w →
  (agent = "codex" → is_ok (rate_limits events offset) = true) →
  ∃ r w', observe_event events id session agent v offset at_ w = Ok (r, w').
Proof.
  intros Ho Hlt Hid Hlim. unfold observe_event. rewrite Ho.
  destruct (not_blank _) as [p|]; [|do 2 eexists; reflexivity].
  case_bool_decide; [do 2 eexists; reflexivity|].
  destruct (turn_state events o offset) as [in_flight turn_id].
  assert (Hl : ∃ l, (if bool_decide (agent = "codex") then rate_limits events offset else Ok None)
                    = Ok l).
  { case_bool_decide as Ha; [|by eexists]. specialize (Hlim Ha).
    destruct (rate_limits events offset); [by eexists|done]. }
  destruct Hl as [l ->]. cbn [mbind res_bind]. unfold insert_switch. cbn [sw_session sw_offset sw_id].
  destruct (existsb (same_record _ _) _) eqn:Edup; [do 2 eexists; reflexivity|].
  destruct (existsb (λ s', bool_decide (sw_id s' = id)) (switches w)) eqn:Eid; [|do 2 eexists; reflexivity]. exfalso. apply Hid.
  apply existsb_exists in Eid as (s & Hin & Hs%bool_decide_eq_true).
  apply list_elem_of_In in Hin. rewrite <-Hs. by apply list_elem_of_fmap_2.
Qed.
