(* ===== verification/ModelGuarantees.v ===== *)
(** * What the model guard guarantees

    Properties of every history of [ModelSwitch], with witnesses on a small
    session. *)

From S2P Require Import Prelude Text Json Usage ModelSwitch ModelGuard.

(** ** A concrete session *)

Definition context_of (m : string) : Value :=
  Object [("payload", Object [("model", Str m)]); ("type", Str "turn_context")].

Definition seen (id m : string) (offset : Z) (w : World) : World :=
  match observe_event [] id "s" "codex" (context_of m) offset 0 w with
  | Ok (_, w) => w
  | Err _ => w
  end.

Definition demo_pty : Pty := mkPty (Some "s") "live" "running" (Some "working").

Definition demo_start : World := seen "x0" "model-a" 10 (set_ptys {["p" := demo_pty]} world_empty).
Definition demo_moved : World := seen "x1" "model-b" 20 demo_start.
Definition demo_back : World := seen "x2" "model-a" 30 demo_moved.

Lemma seen_step id m offset w :
  (∀ s, s ∈ switches w → sw_session s = "s" → sw_offset s < offset) → rtc step w (seen id m offset w).
Proof.
  intros Hlt. unfold seen. destruct (observe_event _ _ _ _ _ _ _ w) as [[r w']|] eqn:E; [|done].
  by eapply rtc_once, step_observe.
Defined.

Lemma demo_start_reachable : reachable demo_start.
Proof.
  eapply rtc_l; [apply (step_ptys _ {["p" := demo_pty]})|].
  apply seen_step. by intros s ?%elem_of_nil.
Defined.

Lemma demo_moved_reachable : reachable demo_moved.
Proof.
  unfold reachable. etrans; [apply demo_start_reachable|].
  apply seen_step. by intros s ?%elem_of_nil.
Defined.

Lemma demo_back_reachable : reachable demo_back.
Proof.
  unfold reachable. etrans; [apply demo_moved_reachable|]. apply seen_step.
  intros s Hs _. change (switches demo_moved) with [List.hd (mkSwitch "" "" "" 0 "" None "" None
    None None false false Null 0 None None None None) (switches demo_moved)] in Hs.
  apply list_elem_of_singleton in Hs as ->. vm_compute. reflexivity.
Defined.

(** ** Properties *)

(** C12. No departure goes unrecorded: while a session runs on a model other
    than the accepted one, a row to that model exists, and it is enforced
    unless the user has since adopted the accepted model from another row. *)
Theorem departure_recorded w session m c :
  reachable w → guard w session = (Some m, Some c) → m ≠ c →
  ∃ s, s ∈ switches w ∧ sw_session s = session ∧ to_model s = m ∧
    (enforced s = true ∨
     ∃ s', s' ∈ switches w ∧ sw_session s' = session ∧ to_model s' = c ∧ adopted s' = Some true).
Proof.
  intros Hw Hg Hne. destruct (gd_sessions _ (reachable_guarded _ Hw) session) as [_ Hsome _].
  rewrite Hg in Hsome.
  destruct (Hsome m eq_refl) as (c' & [= <-] & (launch & Hchain) & _ & Hdep).
  destruct (Hdep Hne) as (s & Hlast & Hs). exists s.
  pose proof (chain_last _ _ _ _ Hchain Hlast) as Hto.
  apply last_Some in Hlast as [l Hl].
  assert (Hin : s ∈ rows_of session (switches w)) by (rewrite Hl; set_solver).
  apply list_elem_of_filter in Hin as [Hse Hin]. split_and!; try done.
  destruct Hs as [He|(s' & Hin' & Ht & Ha)]; [by left|right]. exists s'.
  by apply list_elem_of_filter in Hin' as [? ?].
Qed.

Lemma departure_recorded_witness :
  guard demo_moved "s" = (Some "model-b", Some "model-a") ∧
  ∃ s, s ∈ switches demo_moved ∧ sw_session s = "s" ∧ to_model s = "model-b".
Proof.
  split; [reflexivity|].
  destruct (departure_recorded demo_moved "s" "model-b" "model-a") as (s & ? & ? & ? & _);
    [apply demo_moved_reachable|reflexivity|done|]. by exists s.
Defined.

(** An open enforced switch never names the accepted model: the dialog
    and the interrupt only ever concern a model the user has not accepted. *)
Lemma open_switch_unaccepted w s :
  reachable w → s ∈ switches w → enforced s = true → acknowledged_at s = None →
  ∃ c, (guard w (sw_session s)).2 = Some c ∧ to_model s ≠ c.
Proof.
  intros Hw Hin He Ha.
  destruct (gd_sessions _ (reachable_guarded _ Hw) (sw_session s)) as [Hnone Hsome _].
  assert (Hrow : s ∈ rows_of (sw_session s) (switches w)) by by apply list_elem_of_filter.
  destruct (guard w (sw_session s)).1 as [m|] eqn:Hm.
  - destruct (Hsome m eq_refl) as (c & Hc & _ & Hopen & _). exists c. split; [done|].
    by apply Hopen.
  - destruct (Hnone eq_refl) as [Hrows _]. rewrite Hrows in Hrow. by apply elem_of_nil in Hrow.
Qed.

Definition first_switch (w : World) : ModelSwitch :=
  List.hd (mkSwitch "" "" "" 0 "" None "" None None None false false Null 0 None None None None)
    (switches w).

Lemma open_switch_unaccepted_witness :
  ∃ c, (guard demo_moved (sw_session (first_switch demo_moved))).2 = Some c ∧
       to_model (first_switch demo_moved) ≠ c.
Proof.
  apply (open_switch_unaccepted demo_moved (first_switch demo_moved));
    [apply demo_moved_reachable|vm_compute; left|reflexivity|reflexivity].
Defined.

(** A session's switch rows, in order, lead from the model it launched
    with to the one it runs on, each from the model the last one reached,
    and none from a model to itself. *)
Lemma switches_chain w session m :
  reachable w → (guard w session).1 = Some m →
  ∃ launch, chain launch (rows_of session (switches w)) m.
Proof.
  intros Hw Hm. destruct (gd_sessions _ (reachable_guarded _ Hw) session) as [_ Hsome _].
  by destruct (Hsome m Hm) as (_ & _ & ? & _).
Qed.

Lemma switches_chain_witness :
  (∃ launch, chain launch (rows_of "s" (switches demo_back)) "model-a") ∧
  length (switches demo_back) = 2%nat.
Proof.
  split; [|reflexivity].
  apply (switches_chain demo_back "s" "model-a"); [apply demo_back_reachable|reflexivity].
Defined.

(** C15. Observing a record moves the session's baselines as the automaton
    does, leaves other sessions alone, and adds exactly the row it emits:
    none for the first model or the same one, and otherwise a row from the
    old model to the new, enforced when the new model is not the accepted
    one. It fails only where the last token count has no [rate_limits]. *)
Theorem observe_refines w events id session agent v offset at_ o :
  reachable w → observation_from_event agent v = Some o →
  (∀ s, s ∈ switches w → sw_session s = session → sw_offset s < offset) →
  id ∉ sw_id <$> switches w →
  (agent = "codex" → is_ok (rate_limits events offset) = true) →
  ∃ r w', observe_event events id session agent v offset at_ w = Ok (r, w') ∧
    guard w' session = (guard_step (guard w session) (obs_model o)).1 ∧
    (∀ session', session' ≠ session → metadata w' !! session' = metadata w !! session') ∧
    match (guard_step (guard w session) (obs_model o)).2 with
    | None => switches w' = switches w ∧ r = None
    | Some (from, departs) =>
        ∃ new, switches w' = switches w ++ [new] ∧ r = Some id ∧
          recorded new session offset (obs_model o) from departs
    end.
Proof.
  intros Hw Ho Hlt Hid Hlim.
  destruct (observe_succeeds events id session agent v offset at_ w o Ho Hlt Hid Hlim)
    as (r & w' & E).
  destruct (observe_guard _ _ _ _ _ _ _ _ _ _ _ Ho
              (confirmed_with_observed w session (reachable_guarded w Hw)) Hlt E)
    as (Hg & Hother & _ & Hrow).
  exists r, w'. split_and!; try done.
  destruct (_.2) as [[from departs]|]; [|done].
  destruct Hrow as (new & ? & ? & _ & _ & ?). by exists new.
Qed.

Lemma observe_refines_witness :
  ∃ r w', observe_event [] "x1" "s" "codex" (context_of "model-b") 20 0 demo_start = Ok (r, w') ∧
    guard w' "s" = (Some "model-b", Some "model-a").
Proof.
  destruct (observe_refines demo_start [] "x1" "s" "codex" (context_of "model-b") 20 0
    (mkObservation "codex_turn_context" "model-b" None None [])) as (r & w' & E & Hg & _).
  - apply demo_start_reachable.
  - reflexivity.
  - by intros s ?%elem_of_nil.
  - by intros ?%elem_of_nil.
  - reflexivity.
  - exists r, w'. split; [exact E|exact Hg].
Defined.

(** Adopting a switch settles it: its model becomes the accepted one, no
    switch to that model stays open in the session, and moving to it from
    another model is not enforced. *)
Lemma adopt_settles w pty switch now closed m :
  reachable w → List.find (closable pty switch w) (switches w) = Some closed →
  (guard w (sw_session closed)).1 = Some m →
  let w' := (acknowledge pty switch true now w).2 in
  (acknowledge pty switch true now w).1 = true ∧
  guard w' (sw_session closed) = (Some m, Some (to_model closed)) ∧
  (∀ s, s ∈ switches w' → sw_session s = sw_session closed → to_model s = to_model closed →
     acknowledged_at s ≠ None) ∧
  (m ≠ to_model closed →
   (guard_step (guard w' (sw_session closed)) (to_model closed)).2 = Some (m, false)).
Proof.
  intros Hw Hfind Hm w'. unfold w'. rewrite (acknowledge_adopt _ _ _ _ _ Hfind). cbn [fst snd].
  assert (Hg : guard (after_adopt closed pty switch now w) (sw_session closed) =
    (Some m, Some (to_model closed))).
  { rewrite after_adopt_guard, decide_True by done. unfold guard in Hm.
    destruct (metadata w !! sw_session closed) as [b|]; [|done]. cbn in Hm. by rewrite Hm. }
  split_and!; [done|done|intros s; apply after_adopt_settled|].
  intros Hne. rewrite Hg. unfold guard_step. cbn [fst snd].
  rewrite bool_decide_false by done. cbn. by rewrite bool_decide_true.
Qed.

Lemma adopt_settles_witness :
  guard (acknowledge "p" "x1" true 5 demo_moved).2 "s" = (Some "model-b", Some "model-b").
Proof.
  destruct (adopt_settles demo_moved "p" "x1" 5 (first_switch demo_moved) "model-b")
    as (_ & Hg & _); [apply demo_moved_reachable|reflexivity|reflexivity|exact Hg].
Defined.

(** A session restored to its accepted model by hand can still be
    interrupted: the unanswered switch stays pending while a turn runs on
    the accepted model. *)
Lemma restored_session_pending :
  ∃ w, reachable w ∧ guard w "s" = (Some "model-a", Some "model-a") ∧
    ("x1", "p") ∈ pending_enforcement w.
Proof.
  exists demo_back. split; [apply demo_back_reachable|]. split; [reflexivity|].
  vm_compute. left.
Qed.

(** A Codex model change goes unrecorded when the last token count has
    no [rate_limits] key: the observation fails and leaves the baselines
    where they were. *)
Lemma switch_lost_without_limits w events id session v offset at_ o p e :
  observation_from_event "codex" v = Some o → (guard w session).1 = Some p → obs_model o ≠ p →
  last_before ["token_count"] events offset = Some e →
  at_path (payload e) ["payload"; "rate_limits"] = None →
  is_ok (observe_event events id session "codex" v offset at_ w) = false.
Proof.
  intros Ho Hp Hne He Hlim. unfold observe_event. rewrite Ho. unfold guard in Hp. cbn [fst] in Hp.
  rewrite Hp, bool_decide_false by done. destruct (turn_state events o offset).
  unfold rate_limits. by rewrite He, Hlim.
Qed.

Definition bare_count : UsageEvent :=
  mkUsageEvent 15 0 "token_count" None
    (Object [("payload", Object [("type", Str "token_count")]); ("type", Str "event_msg")]).

Lemma switch_lost_without_limits_witness :
  is_ok (observe_event [bare_count] "x1" "s" "codex" (context_of "model-b") 20 0 demo_start) = false.
Proof.
  apply (switch_lost_without_limits demo_start [bare_count] "x1" "s" (context_of "model-b") 20 0
    (mkObservation "codex_turn_context" "model-b" None None []) "model-a" bare_count);
    [reflexivity|reflexivity|done|reflexivity|reflexivity].
Defined.
