(* ===== verification/Ingester.v ===== *)
(** * Reading transcripts

    [ingest/ingester.rs], [ingest/tail.rs], [ingest/file_scan.rs] and the
    event insert of [ingest/ingester/insert.rs], for one transcript file: a
    bounded window is read from the committed offset, every complete line in
    it is inserted under its byte offset, and the offset moves past the last
    one. A file is the list of its bytes. What the environment decides is an
    argument: how a line parses as JSON, when the time of an admission is up,
    and which insert the database fails. *)

From S2P Require Import Prelude Text Json.

Definition bytes_of (s : string) : list Ascii.ascii := String.list_ascii_of_string s.
Abbreviation text := (list Ascii.ascii).

Definition nl : Ascii.ascii := Ascii.ascii_of_nat 10.

Definition MAX_READ_BYTES : Z := 8 * 1024 * 1024.
Definition CHUNK : nat := N.to_nat 65536.
Definition ADMIT_LINES_PER_TICK : Z := 2000.

Definition len (l : text) : Z := Z.of_nat (length l).

(** The bytes from an offset on, and a slice. *)
Definition from (offset : Z) (l : text) : text := drop (Z.to_nat offset) l.
Definition slice (a b : nat) (l : text) : text := take (b - a) (drop a l).

(** ** Skipping to a boundary *)

Fixpoint position (c : Ascii.ascii) (l : text) : option nat :=
  match l with
  | [] => None
  | b :: l => if bool_decide (b = c) then Some 0%nat else S <$> position c l
  end.

(** The scan in chunks; each round reads at most [chunk] bytes. *)
Fixpoint scan_chunks (fuel chunk : nat) (rest : text) (offset : Z) : option Z :=
  match fuel with
  | O => None
  | S fuel =>
      let read := take chunk rest in
      match read with
      | [] => None
      | _ =>
          match position nl read with
          | Some index => Some (offset + Z.of_nat index + 1)
          | None => scan_chunks fuel chunk (drop chunk rest) (offset + len read)
          end
      end
  end.

(** One round per chunk, and one that reads nothing, are enough. *)
Definition next_line_boundary (file : text) (from_ : Z) : option Z :=
  let rest := from from_ file in
  scan_chunks (S (length rest)) CHUNK rest from_.

(** ** Inserting a line *)

Definition is_ascii_whitespace (b : Ascii.ascii) : bool :=
  bool_decide (Ascii.nat_of_ascii b ∈ [9; 10; 12; 13; 32]%nat).

Inductive InsertError : Type := ParseFailed | DbError.

(** Whether the insert's transaction fails. *)
Definition Failures : Type := Z → bool.

Section ingester.
Context (parse_json : text → option Value).

(** [events] is keyed by offset; [ON CONFLICT DO NOTHING]. The rows written
    in the same transaction belong to other components; their failing is the
    transaction's. *)
Definition insert_event (fails : Failures) (offset : Z) (line : text) (events : gmap Z Value)
    : (bool + InsertError) * gmap Z Value :=
  if forallb is_ascii_whitespace line then (inl false, events)
  else match parse_json line with
  | None => (inr ParseFailed, events)
  | Some value =>
      if fails offset then (inr DbError, events)
      else match events !! offset with
           | Some _ => (inl false, events)
           | None => (inl true, <[offset := value]> events)
           end
  end.

(** ** One pass over a file *)

(** [ingester_state] and [events] of the session, and whether a rebuild of
    its timeline was requested. *)
Record FileState : Type := mkFileState {
  committed : option Z;
  events : gmap Z Value;
}.

Record FileResult : Type := mkFileResult {
  events_inserted : Z;
  parse_errors : Z;
  committed_offset : Z;
  backlogged : bool;
}.

(** The environment of one pass. *)
Record Env : Type := mkEnv {
  time_up : Z → bool;
  db_fails : Failures;
}.

Definition admission_closed (env : Env) (admitted : Z) : bool :=
  (admitted =? ADMIT_LINES_PER_TICK) || ((0 <? admitted) && time_up env admitted).

(** The variables of the loop over the buffer. *)
Record Walk : Type := mkWalk {
  line_start : nat;
  first_inserted : option Z;
  admitted : Z;
  w_inserted : Z;
  w_errors : Z;
  w_backlogged : bool;
  w_events : gmap Z Value;
}.

Definition walk_start (events : gmap Z Value) : Walk := mkWalk 0 None 0 0 0 false events.

(** One newline at index [i] of the buffer. *)
Definition admit_line (env : Env) (buf : text) (base : Z) (i : nat) (w : Walk) : Walk :=
  let offset := base + Z.of_nat (line_start w) in
  let '(r, events) := insert_event (db_fails env) offset (slice (line_start w) i buf) (w_events w) in
  match r with
  | inl inserted =>
      mkWalk (S i)
        (if inserted then or_else (first_inserted w) (Some offset) else first_inserted w)
        (admitted w + 1) (if inserted then w_inserted w + 1 else w_inserted w)
        (w_errors w) (w_backlogged w) events
  | inr ParseFailed =>
      mkWalk (S i) (first_inserted w) (admitted w + 1) (w_inserted w) (w_errors w + 1)
        (w_backlogged w) events
  | inr DbError =>
      mkWalk (S i) (first_inserted w) (admitted w + 1) (w_inserted w) (w_errors w)
        (w_backlogged w) events
  end.

Fixpoint walk (env : Env) (buf : text) (base : Z) (i : nat) (rest : text) (w : Walk) : Walk :=
  match rest with
  | [] => w
  | b :: rest =>
      if negb (bool_decide (b = nl)) then walk env buf base (S i) rest w
      else if admission_closed env (admitted w)
      then mkWalk (line_start w) (first_inserted w) (admitted w) (w_inserted w) (w_errors w) true
             (w_events w)
      else walk env buf base (S i) rest (admit_line env buf base i w)
  end.

Definition set_offset (offset : Z) (st : FileState) : FileState :=
  mkFileState (Some offset) (events st).

Definition skip_oversized_line (file : text) (base scanned : Z) (result : FileResult)
    (st : FileState) : FileResult * FileState :=
  match next_line_boundary file (base + scanned) with
  | Some resume =>
      (mkFileResult (events_inserted result) (parse_errors result + 1) resume (backlogged result),
       set_offset resume st)
  | None => (result, st)
  end.

(** The window of one pass. *)
Definition read_window (file : text) (file_len base : Z) : text :=
  take (Z.to_nat (Z.min (file_len - base) MAX_READ_BYTES)) (from base file).

(** [file] is the file when it is read, [file_len] and [base] its length and
    the committed offset when the directory was scanned. The last result is
    the offset from which the timeline may have to be rebuilt. *)
Definition process_file (env : Env) (purged : bool) (file : text) (file_len base : Z)
    (st : FileState) : FileResult * FileState * option Z :=
  if purged then (mkFileResult 0 0 base false, st, None)
  else if file_len <? base then (mkFileResult 0 0 0 false, set_offset 0 st, None)
  else
    let buf := read_window file file_len base in
    let w := walk env buf base 0 buf (walk_start (events st)) in
    let result := mkFileResult (w_inserted w) (w_errors w) base (w_backlogged w) in
    let st := mkFileState (committed st) (w_events w) in
    let next_committed := base + Z.of_nat (line_start w) in
    if (next_committed =? base) && (MAX_READ_BYTES <=? len buf)
    then (skip_oversized_line file base (len buf) result st, None)
    else if next_committed =? base then (result, st, first_inserted w)
    else (mkFileResult (w_inserted w) (w_errors w) next_committed (w_backlogged w),
          set_offset next_committed st, first_inserted w).

(** ** The scan *)

(** A file is read when its length is not the committed offset. *)
Definition dirty (file_len : Z) (st : FileState) : bool :=
  negb (file_len =? default 0 (committed st)).

Definition ingest_file (env : Env) (purged : bool) (file : text) (file_len : Z) (st : FileState)
    : FileState :=
  if dirty file_len st
  then (process_file env purged file file_len (default 0 (committed st)) st).1.2
  else st.
End ingester.

(** ** The projection queue *)

Section queue.
Context {A : Type} `{Countable A}.

Record ProjectionQueue : Type := mkQueue {
  order : list A;
  queued : gset A;
}.

Definition queue_empty : ProjectionQueue := mkQueue [] ∅.

Definition queue_push (session : A) (q : ProjectionQueue) : ProjectionQueue :=
  if bool_decide (session ∈ queued q) then q
  else mkQueue (order q ++ [session]) ({[session]} ∪ queued q).

Definition queue_pop (q : ProjectionQueue) : option (A * ProjectionQueue) :=
  match order q with
  | [] => None
  | session :: rest => Some (session, mkQueue rest (queued q ∖ {[session]}))
  end.

(** [project_one_batch]: a session with more waiting goes to the back. *)
Definition serve (more : A → bool) (q : ProjectionQueue) : option (A * ProjectionQueue) :=
  '(session, q) ← queue_pop q;
  Some (session, if more session then queue_push session q else q).
End queue.
Arguments ProjectionQueue A {_ _}.
