(* ===== verification/IngesterSpec.v ===== *)
(** * Lines, boundaries and the window walk

    What a transcript's lines are, independently of how they are read, and
    how each part of a pass relates to them. *)

From S2P Require Import Prelude Text Json Ingester.

(** ** Lines of a file *)

(** An offset where a line may start. *)
Definition boundary (file : text) (c : nat) : Prop :=
  (c ≤ length file)%nat ∧ (c = 0%nat ∨ file !! (c - 1)%nat = Some nl).

(** A complete line [L], without its newline, starting at [s]. *)
Record line_at (file : text) (s : nat) (L : text) : Prop := {
  la_start : boundary file s;
  la_bytes i : (i < length L)%nat → file !! (s + i)%nat = L !! i;
  la_end : file !! (s + length L)%nat = Some nl;
  la_plain : nl ∉ L;
}.

Lemma boundary_app file more c : boundary file c → boundary (file ++ more) c.
Proof.
  intros [Hc H]. split; [rewrite length_app; lia|].
  destruct H as [|H]; [by left|right]. by apply lookup_app_l_Some.
Qed.

Lemma line_at_app file more s L : line_at file s L → line_at (file ++ more) s L.
Proof.
  intros [Hs Hb He Hp]. pose proof (lookup_lt_Some _ _ _ He) as Hlt. split.
  - by apply boundary_app.
  - intros i Hi. rewrite lookup_app_l by lia. by apply Hb.
  - by apply lookup_app_l_Some.
  - done.
Qed.

(** A line of a longer file that ends inside the shorter one is its line. *)
Lemma line_at_app_inv file more s L :
  line_at (file ++ more) s L → (s + length L < length file)%nat → line_at file s L.
Proof.
  intros [[Hs Hb] Hl He Hp] Hlt. split.
  - split; [lia|]. destruct Hb as [|Hb]; [by left|right]. rewrite lookup_app_l in Hb by lia. done.
  - intros i Hi. rewrite <-Hl by done. by rewrite lookup_app_l by lia.
  - by rewrite lookup_app_l in He by lia.
  - done.
Qed.

(** Between two newlines. *)
Lemma line_at_middle pre L post :
  boundary (pre ++ L ++ nl :: post) (length pre) → nl ∉ L →
  line_at (pre ++ L ++ nl :: post) (length pre) L.
Proof.
  intros Hb Hp. split; [done| | |done].
  - intros i Hi. rewrite lookup_app_r by lia. rewrite lookup_app_l by lia. f_equal. lia.
  - rewrite lookup_app_r by lia. rewrite lookup_app_r by lia.
    by replace (length pre + length L - length pre - length L)%nat with 0%nat by lia.
Qed.

Lemma line_unique file s L L' : line_at file s L → line_at file s L' → L = L'.
Proof.
  intros H H'.
  assert (Hle : ∀ A B, line_at file s A → line_at file s B → (length A ≤ length B)%nat).
  { intros A B HA HB. destruct (decide (length A ≤ length B)%nat) as [|Hlt]; [done|]. exfalso.
    apply (la_plain _ _ _ HA). apply list_elem_of_lookup. exists (length B).
    rewrite <-(la_bytes _ _ _ HA) by lia. apply (la_end _ _ _ HB). }
  assert (length L = length L') by (apply Nat.le_antisymm; by apply Hle).
  apply list_eq_same_length with (length L); [done|done|].
  intros i x y Hi Hx Hy.
  rewrite <-(la_bytes _ _ _ H) in Hx by done. rewrite <-(la_bytes _ _ _ H') in Hy by lia.
  congruence.
Qed.

(** A line does not straddle a boundary. *)
Lemma line_side file s L c :
  line_at file s L → boundary file c → (s + length L < c)%nat ∨ (c ≤ s)%nat.
Proof.
  intros HL [_ [->|Hc]]; [right; lia|].
  destruct (decide (c ≤ s)%nat) as [|Hs]; [by right|left].
  destruct (decide (s + length L < c)%nat) as [|Hn]; [done|]. exfalso.
  apply (la_plain _ _ _ HL). apply list_elem_of_lookup. exists (c - 1 - s)%nat.
  rewrite <-(la_bytes _ _ _ HL) by lia. by replace (s + (c - 1 - s))%nat with (c - 1)%nat by lia.
Qed.

(** ** The boundary scan *)

Lemma position_Some c l k :
  position c l = Some k ↔ l !! k = Some c ∧ ∀ j, (j < k)%nat → l !! j ≠ Some c.
Proof.
  revert k. induction l as [|b l IH]; intros k; simpl; [naive_solver|].
  case_bool_decide as Hb.
  - split.
    + intros [= <-]. split; [by rewrite Hb|]. intros j. lia.
    + intros [Hk Hj]. destruct k as [|k]; [done|]. exfalso.
      apply (Hj 0%nat); [lia|]. cbn. by rewrite Hb.
  - destruct k as [|k]; cbn.
    + split; [by intros (? & ? & ?)%fmap_Some|]. intros [[= ->] _]. done.
    + rewrite fmap_Some. setoid_rewrite IH. split.
      * intros (k' & [Hk Hj] & [= ->]). split; [done|]. intros [|j] Hlt; cbn; [congruence|].
        apply Hj. lia.
      * intros [Hk Hj]. exists k. split; [|done]. split; [done|].
        intros j Hlt. apply (Hj (S j)). lia.
Qed.

Lemma position_None c l : position c l = None ↔ c ∉ l.
Proof.
  induction l as [|b l IH]; simpl; [split; [intros _; apply not_elem_of_nil|done]|].
  rewrite not_elem_of_cons. case_bool_decide as Hb; [naive_solver|].
  rewrite fmap_None, IH. naive_solver.
Qed.

Lemma position_split c n l :
  position c l =
  match position c (take n l) with
  | Some k => Some k
  | None => (λ k, length (take n l) + k)%nat <$> position c (drop n l)
  end.
Proof.
  revert n. induction l as [|b l IH]; intros [|n]; simpl; try done.
  - by destruct (if bool_decide (b = c) then _ else _).
  - case_bool_decide; [done|]. rewrite (IH n).
    destruct (position c (take n l)); [done|]. simpl. by destruct (position c (drop n l)).
Qed.

(** The chunked scan is the plain one. *)
Lemma scan_chunks_eq fuel chunk rest offset :
  (0 < chunk)%nat → (length rest < fuel)%nat →
  scan_chunks fuel chunk rest offset =
  (λ k, offset + Z.of_nat k + 1) <$> position nl rest.
Proof.
  intros Hc. revert rest offset. induction fuel as [|fuel IH]; intros rest offset Hf; [lia|].
  cbn [scan_chunks]. destruct (take chunk rest) as [|b l] eqn:E.
  - destruct rest as [|b rest]; [done|]. destruct chunk; [lia|done].
  - rewrite (position_split nl chunk rest), E. destruct (position nl (b :: l)) as [k|] eqn:Ek; [done|].
    rewrite IH.
    + destruct (position nl (drop chunk rest)); cbn; [|done]. f_equal. unfold len. cbn. lia.
    + assert (rest ≠ []) by (intros ->; by rewrite take_nil in E).
      rewrite length_drop. destruct rest; [done|]. cbn in *. lia.
Qed.

(** ** What a walk absorbs *)

Section walk.
Context (parse_json : text → option Value).

(** A line the events table holds: not blank, and parsed. *)
Definition worthy (L : text) (v : Value) : Prop :=
  forallb is_ascii_whitespace L = false ∧ parse_json L = Some v.

(** From [old] to [new] the lines between two offsets were taken in. *)
Record absorbed (file : text) (fails : Failures) (old new : gmap Z Value) (a b bound : nat) : Prop := {
  ab_old : old ⊆ new;
  ab_new o v : new !! o = Some v → old !! o = None →
    ∃ s L, o = Z.of_nat s ∧ (a ≤ s)%nat ∧ line_at file s L ∧ worthy L v ∧ (length L < bound)%nat ∧
      fails o = false;
  ab_all s L v : line_at file s L → (a ≤ s)%nat → (s + length L < b)%nat → worthy L v →
    fails (Z.of_nat s) = false → is_Some (new !! Z.of_nat s);
}.

Lemma absorbed_refl file fails m a b bound :
  (∀ s L, line_at file s L → (a ≤ s)%nat → (s + length L < b)%nat → ∀ v, ¬ worthy L v) →
  absorbed file fails m m a b bound.
Proof.
  intros Hn. split; [done| |].
  - intros o v Ho Hno. congruence.
  - intros s L v HL Ha Hb Hw. by destruct (Hn s L HL Ha Hb v).
Qed.

Lemma absorbed_trans file fails m1 m2 m3 a b c bound :
  boundary file b → (a ≤ b)%nat → absorbed file fails m1 m2 a b bound →
  absorbed file fails m2 m3 b c bound → absorbed file fails m1 m3 a c bound.
Proof.
  intros Hb Hab H1 H2. split.
  - etrans; [apply (ab_old _ _ _ _ _ _ _ H1)|apply (ab_old _ _ _ _ _ _ _ H2)].
  - intros o v Ho Hno. destruct (m2 !! o) as [v'|] eqn:E.
    + assert (v' = v) as ->.
      { pose proof (lookup_weaken _ _ _ _ E (ab_old _ _ _ _ _ _ _ H2)). congruence. }
      by eapply (ab_new _ _ _ _ _ _ _ H1).
    + destruct (ab_new _ _ _ _ _ _ _ H2 o v Ho E) as (s & L & -> & Hs & ?).
      exists s, L. split; [done|]. split; [lia|done].
  - intros s L v HL Ha Hc Hw Hf. destruct (line_side _ _ _ _ HL Hb) as [Hlt|Hge].
    + destruct (ab_all _ _ _ _ _ _ _ H1 s L v HL Ha Hlt Hw Hf) as [v' Hv'].
      exists v'. by eapply lookup_weaken, (ab_old _ _ _ _ _ _ _ H2).
    + by apply (ab_all _ _ _ _ _ _ _ H2 s L v).
Qed.

(** One line. *)
Lemma insert_absorbed file fails s L m bound :
  line_at file s L → (length L < bound)%nat →
  absorbed file fails m (insert_event parse_json fails (Z.of_nat s) L m).2 s (s + length L + 1) bound.
Proof.
  intros HL Hbound. assert (Hone : ∀ s' L', line_at file s' L' → (s ≤ s')%nat →
    (s' + length L' < s + length L + 1)%nat → s' = s ∧ L' = L).
  { intros s' L' HL' Hs' Hlt. destruct (decide (s' = s)) as [->|Hne].
    - split; [done|]. by eapply line_unique.
    - exfalso. destruct (line_side _ _ _ _ HL (la_start _ _ _ HL')) as [H|H]; lia. }
  assert (Hsame : (∀ v, worthy L v → fails (Z.of_nat s) = false → is_Some (m !! Z.of_nat s)) →
    absorbed file fails m m s (s + length L + 1) bound).
  { intros Hw. split; [done|congruence|]. intros s' L' v HL' Ha Hb Hv Hf.
    destruct (Hone s' L' HL' Ha Hb) as [-> ->]. by eapply Hw. }
  unfold insert_event. destruct (forallb is_ascii_whitespace L) eqn:Hws.
  { apply Hsame. intros v [Hv _]. congruence. }
  destruct (parse_json L) as [value|] eqn:Hp.
  2:{ apply Hsame. intros v [_ Hv]. congruence. }
  destruct (fails (Z.of_nat s)) eqn:Hfail.
  { apply Hsame. intros; congruence. }
  destruct (m !! Z.of_nat s) as [v0|] eqn:E; cbn.
  { apply Hsame. by eexists. }
  split.
  - by apply insert_subseteq.
  - intros o v. rewrite lookup_insert_Some. intros [[<- <-]|[_ Ho]] Hno; [|congruence].
    exists s, L. split_and!; try done.
  - intros s' L' v HL' Ha Hb Hv Hf. destruct (Hone s' L' HL' Ha Hb) as [-> ->].
    rewrite lookup_insert_eq. by eexists.
Qed.

(** ** The walk *)

Lemma admit_line_facts env buf base i w :
  let w' := admit_line parse_json env buf base i w in
  line_start w' = S i ∧ admitted w' = admitted w + 1 ∧ w_backlogged w' = w_backlogged w ∧
  w_events w' = (insert_event parse_json (db_fails env) (base + Z.of_nat (line_start w))
                   (slice (line_start w) i buf) (w_events w)).2.
Proof.
  unfold admit_line. destruct (insert_event _ _ _ _ _) as [[|[]] ev]; cbn; done.
Qed.

(** The buffer is a window of the file; [plain] is the stretch of it that
    holds no newline. *)
Definition window (file buf : text) (b : nat) : Prop :=
  ∀ i, (i < length buf)%nat → buf !! i = file !! (b + i)%nat.

Definition plain (buf : text) (a i : nat) : Prop :=
  ∀ j, (a ≤ j)%nat → (j < i)%nat → buf !! j ≠ Some nl.

Lemma lookup_slice a i k buf : (k < i - a)%nat → slice a i buf !! k = buf !! (a + k)%nat.
Proof. intros Hk. unfold slice. by rewrite lookup_take_lt, lookup_drop. Qed.

Lemma length_slice a i buf : (i ≤ length buf)%nat → length (slice a i buf) = (i - a)%nat.
Proof. intros Hi. unfold slice. rewrite length_take, length_drop. lia. Qed.

(** The stretch before a newline is a line. *)
Lemma slice_line file buf b a i :
  window file buf b → boundary file (b + a) → plain buf a i → (a ≤ i)%nat → buf !! i = Some nl →
  line_at file (b + a) (slice a i buf).
Proof.
  intros Hw Hb Hp Ha Hi. pose proof (lookup_lt_Some _ _ _ Hi) as Hlt.
  pose proof (length_slice a i buf) as Hlen. split; [done| | |].
  - intros k Hk. rewrite Hlen in Hk by lia. rewrite lookup_slice by done.
    rewrite Hw by lia. f_equal. lia.
  - rewrite Hlen by lia. replace (b + a + (i - a))%nat with (b + i)%nat by lia.
    by rewrite <-Hw.
  - intros (k & Hk)%list_elem_of_lookup. pose proof (lookup_lt_Some _ _ _ Hk) as Hkl.
    rewrite Hlen in Hkl by lia. rewrite lookup_slice in Hk by done. by apply (Hp (a + k)%nat); [lia..|].
Qed.

Record walked (file buf : text) (env : Env) (b : nat) (w w' : Walk) : Prop := {
  wk_start : (line_start w ≤ line_start w' ≤ length buf)%nat;
  wk_boundary : boundary file (b + line_start w');
  wk_absorbed : absorbed file (db_fails env) (w_events w) (w_events w') (b + line_start w)
                  (b + line_start w') (length buf);
  wk_plain : w_backlogged w' = false → plain buf (line_start w') (length buf);
}.

Lemma absorbed_here file fails m a bound : absorbed file fails m m a a bound.
Proof. apply absorbed_refl. intros s L _ Ha Hb v _. lia. Qed.

Lemma walk_ok file buf env b : window file buf b →
  ∀ rest i w, rest = drop i buf → (i ≤ length buf)%nat → (line_start w ≤ i)%nat →
  boundary file (b + line_start w) → plain buf (line_start w) i →
  walked file buf env b w (walk parse_json env buf (Z.of_nat b) i rest w).
Proof.
  intros Hwin rest. induction rest as [|x rest IH]; intros i w Hrest Hi Hls Hb Hp.
  - assert (i = length buf) as ->.
    { apply (f_equal length) in Hrest. rewrite length_drop in Hrest. cbn in Hrest. lia. }
    cbn [walk]. split; [lia|done|apply absorbed_here|done].
  - assert (Hx : buf !! i = Some x).
    { pose proof (lookup_drop buf i 0) as E. rewrite <-Hrest, Nat.add_0_r in E. by rewrite <-E. }
    pose proof (lookup_lt_Some _ _ _ Hx) as Hlt.
    assert (Hnext : rest = drop (S i) buf).
    { rewrite <-Nat.add_1_r. by rewrite <-drop_drop, <-Hrest. }
    cbn [walk]. case_bool_decide as Hxn; cbn [negb].
    + subst x. destruct (admission_closed env (admitted w)).
      * split; cbn; [lia|done|apply absorbed_here|done].
      * destruct (admit_line_facts env buf (Z.of_nat b) i w) as (Hs' & _ & _ & He').
        pose proof (slice_line file buf b _ i Hwin Hb Hp Hls Hx) as HL.
        pose proof (length_slice (line_start w) i buf) as Hlen.
        assert (Hb' : boundary file (b + S i)).
        { pose proof (la_end _ _ _ HL) as Hend. pose proof (lookup_lt_Some _ _ _ Hend) as Hfl.
          rewrite Hlen in Hend, Hfl by lia. split; [lia|right].
          by replace (b + S i - 1)%nat with (b + line_start w + (i - line_start w))%nat by lia. }
        destruct (IH (S i) (admit_line parse_json env buf (Z.of_nat b) i w)) as [K1 K2 K3 K4];
          [done|lia|rewrite Hs'; lia|by rewrite Hs'|rewrite Hs'; intros j; lia|].
        rewrite Hs' in K1, K3. split; [lia|done| |done].
        eapply absorbed_trans; [exact Hb'|lia| |exact K3].
        rewrite He'. replace (Z.of_nat b + Z.of_nat (line_start w)) with
          (Z.of_nat (b + line_start w)) by lia.
        replace (b + S i)%nat with (b + line_start w + length (slice (line_start w) i buf) + 1)%nat
          by (rewrite Hlen; lia).
        apply insert_absorbed; [done|]. rewrite Hlen; lia.
    + apply IH; [done|lia|lia|done|]. intros j Hj1 Hj2 Hj.
      destruct (decide (j = i)) as [->|]; [congruence|]. apply (Hp j); [lia|lia|done].
Qed.

(** The first line of a pass always goes in. *)
Lemma walk_progress env buf base : ∀ rest i w,
  rest = drop i buf → (line_start w ≤ i)%nat → admitted w = 0 → nl ∈ rest →
  (i < line_start (walk parse_json env buf base i rest w))%nat.
Proof.
  assert (Hmono : ∀ rest i w, (line_start w ≤ i)%nat →
    (line_start w ≤ line_start (walk parse_json env buf base i rest w))%nat).
  { induction rest as [|x rest IH]; intros i w Hls; [done|]. cbn [walk].
    destruct (negb _); [apply IH; lia|]. destruct (admission_closed env (admitted w)); [done|].
    destruct (admit_line_facts env buf base i w) as (Hs' & _).
    specialize (IH (S i) (admit_line parse_json env buf base i w)). lia. }
  induction rest as [|x rest IH]; intros i w Hrest Hls Hadm Hin; [by apply elem_of_nil in Hin|].
  cbn [walk]. case_bool_decide as Hx; cbn [negb].
  - unfold admission_closed. rewrite Hadm. cbn [orb andb Z.ltb Z.compare Z.eqb].
    destruct (admit_line_facts env buf base i w) as (Hs' & _).
    specialize (Hmono rest (S i) (admit_line parse_json env buf base i w)). rewrite Hs' in Hmono.
    cbn. lia.
  - apply elem_of_cons in Hin as [|Hin]; [done|].
    assert ((S i < line_start (walk parse_json env buf base (S i) rest w))%nat); [|lia].
    apply IH; [|lia|done|done].
    rewrite <-Nat.add_1_r. by rewrite <-drop_drop, <-Hrest.
Qed.

(** ** A whole pass *)

(** What a pass from offset [a] to [b] takes in: every line between them
    short enough for a window, unless the database failed it. *)
Record took (file : text) (fails : Failures) (old new : gmap Z Value) (a b : nat) : Prop := {
  tk_old : old ⊆ new;
  tk_new o v : new !! o = Some v → old !! o = None →
    ∃ s L, o = Z.of_nat s ∧ (a ≤ s)%nat ∧ line_at file s L ∧ worthy L v ∧ len L < MAX_READ_BYTES ∧
      fails o = false;
  tk_all s L v : line_at file s L → (a ≤ s)%nat → (s + length L < b)%nat → worthy L v →
    len L < MAX_READ_BYTES → fails (Z.of_nat s) = false → is_Some (new !! Z.of_nat s);
}.

Lemma absorbed_took file fails old new a b bound :
  Z.of_nat bound <= MAX_READ_BYTES → absorbed file fails old new a b bound → took file fails old new a b.
Proof.
  intros Hb [H1 H2 H3]. split; [done| |].
  - intros o v Ho Hno. destruct (H2 o v Ho Hno) as (s & L & -> & Hs & HL & Hw & Hlt & Hf).
    exists s, L. split_and!; try done. unfold len. lia.
  - intros s L v ? ? ? ? _. by eapply H3.
Qed.

Lemma read_window_window file n c : window file (read_window file n (Z.of_nat c)) c.
Proof.
  intros i Hi. unfold read_window, from in *. rewrite Nat2Z.id in *.
  rewrite length_take in Hi. rewrite lookup_take_lt by lia. by rewrite lookup_drop.
Qed.

Lemma read_window_length file n c : (c ≤ length file)%nat → n <= len file →
  let k := length (read_window file n (Z.of_nat c)) in
  Z.of_nat k <= MAX_READ_BYTES ∧ (k ≤ length file - c)%nat ∧
  (n = len file → Z.of_nat k < MAX_READ_BYTES → k = (length file - c)%nat).
Proof.
  intros Hc Hn. unfold read_window, from, len in *. rewrite Nat2Z.id, length_take, length_drop.
  assert (0 <= MAX_READ_BYTES) by done. lia.
Qed.

(** The newline found past the window ends the line that filled it. *)
Lemma boundary_scan_ok file c m r :
  next_line_boundary file (Z.of_nat c + Z.of_nat m) = Some r →
  plain (drop c file) 0 m →
  ∃ k, r = Z.of_nat (c + k + 1) ∧ file !! (c + k)%nat = Some nl ∧ (m ≤ k)%nat ∧
    plain (drop c file) 0 k.
Proof.
  unfold next_line_boundary, from. rewrite <-Nat2Z.inj_add, Nat2Z.id. intros H Hp.
  rewrite scan_chunks_eq in H by (try lia; by apply Nat.ltb_lt).
  apply fmap_Some in H as (k & Hk & ->). apply position_Some in Hk as [Hk Hj].
  rewrite lookup_drop in Hk. exists (m + k)%nat. split_and!.
  - lia.
  - by rewrite Nat.add_assoc.
  - lia.
  - intros j _ Hjk. destruct (decide (j < m)%nat) as [|Hm]; [by apply Hp; lia|].
    specialize (Hj (j - m)%nat ltac:(lia)). rewrite lookup_drop in *.
    by replace (c + m + (j - m))%nat with (c + j)%nat in Hj by lia.
Qed.

Lemma boundary_succ file k : file !! k = Some nl → boundary file (k + 1).
Proof.
  intros H. pose proof (lookup_lt_Some _ _ _ H). split; [lia|right]. by rewrite Nat.add_sub.
Qed.

(** Nothing short enough lies between a boundary and the end of an oversized
    line. *)
Lemma oversized_took file fails m c k : boundary file c →
  MAX_READ_BYTES <= Z.of_nat k → file !! (c + k)%nat = Some nl → plain (drop c file) 0 k →
  took file fails m m c (c + k + 1).
Proof.
  intros Hb Hk Hnl Hp. split; [done|congruence|].
  intros s L v HL Ha Hlt Hw Hlen Hf. exfalso.
  pose proof (la_end _ _ _ HL) as Hend.
  assert (s + length L = c + k)%nat as He.
  { destruct (decide (s + length L < c + k)%nat) as [Hlt'|]; [|lia]. exfalso.
    apply (Hp (s + length L - c)%nat); [lia|lia|]. rewrite lookup_drop.
    by replace (c + (s + length L - c))%nat with (s + length L)%nat by lia. }
  assert (s = c) as ->; [|unfold len in Hlen; lia].
  destruct (decide (s = c)) as [|Hne]; [done|exfalso].
  destruct (la_start _ _ _ HL) as [_ [->|Hs]]; [lia|].
  apply (Hp (s - 1 - c)%nat); [lia|lia|]. rewrite lookup_drop.
  by replace (c + (s - 1 - c))%nat with (s - 1)%nat by lia.
Qed.

(** From [st], committed at [a], a pass leaves [st'], committed at [b]. *)
Record passed (file : text) (fails : Failures) (st st' : FileState) (a b : nat) : Prop := {
  ps_le : (a ≤ b)%nat;
  ps_committed : default 0 (committed st') = Z.of_nat b;
  ps_boundary : boundary file b;
  ps_took : took file fails (events st) (events st') a b;
}.

(** A newline is still to be read. *)
Definition waiting (file : text) (c : nat) : Prop := nl ∈ drop c file.

Lemma process_ok file env n st c :
  default 0 (committed st) = Z.of_nat c → boundary file c → Z.of_nat c <= n → n <= len file →
  ∃ b, passed file (db_fails env) st
         (process_file parse_json env false file n (Z.of_nat c) st).1.2 c b ∧
       (n = len file → waiting file c → (c < b)%nat).
Proof.
  intros Hc Hb Hn Hlen. unfold process_file. replace (n <? Z.of_nat c) with false by lia.
  set (buf := read_window file n (Z.of_nat c)).
  pose proof (read_window_window file n c : window file buf c) as Hwin.
  destruct (read_window_length file n c (proj1 Hb) Hlen) as (Hmax & Hfit & Hfull).
  fold buf in Hmax, Hfit, Hfull.
  pose proof (walk_ok file buf env c Hwin buf 0 (walk_start (events st)) eq_refl ltac:(lia)
    ltac:(cbn; lia) ltac:(cbn; by rewrite Nat.add_0_r) ltac:(intros j; lia)) as [W1 W2 W3 W4].
  pose proof (walk_progress env buf (Z.of_nat c) buf 0 (walk_start (events st)) eq_refl
    ltac:(cbn; lia) eq_refl) as Hprog.
  set (w := walk parse_json env buf (Z.of_nat c) 0 buf (walk_start (events st))) in *.
  cbn [walk_start line_start w_events] in W3. rewrite Nat.add_0_r in W3.
  apply absorbed_took in W3; [|done].
  destruct (Z.of_nat c + Z.of_nat (line_start w) =? Z.of_nat c) eqn:E; cbn [andb].
  - assert (line_start w = 0%nat) as E0 by lia. rewrite E0, Nat.add_0_r in W2, W3.
    assert (Hnone : nl ∉ buf) by (intros Hin; specialize (Hprog Hin); lia).
    assert (Hplain : plain (drop c file) 0 (length buf)).
    { intros j _ Hj Hnl. rewrite lookup_drop, <-Hwin in Hnl by done.
      apply Hnone. apply list_elem_of_lookup. by exists j. }
    assert (Hstay : passed file (db_fails env) st (mkFileState (committed st) (w_events w)) c c)
      by (split; done).
    assert (Hend : n = len file → waiting file c → MAX_READ_BYTES <= len buf).
    { intros Hnf (j & Hj)%list_elem_of_lookup.
      destruct (decide (MAX_READ_BYTES <= len buf)) as [|Hs]; [done|exfalso].
      pose proof (lookup_lt_Some _ _ _ Hj) as Hjl. rewrite length_drop in Hjl.
      apply (Hplain j); [lia| |done]. rewrite Hfull; [done|done|unfold len in Hs; lia]. }
    destruct (MAX_READ_BYTES <=? len buf) eqn:Eb.
    + unfold skip_oversized_line. destruct (next_line_boundary _ _) as [r|] eqn:Er; cbn.
      * destruct (boundary_scan_ok _ _ _ _ Er Hplain) as (k & -> & Hk & Hmk & Hpk).
        exists (c + k + 1)%nat. split; [|intros; lia]. split; cbn; [lia|done|by apply boundary_succ|].
        assert (MAX_READ_BYTES <= Z.of_nat k) by (unfold len in Eb; lia).
        destruct (oversized_took file (db_fails env) (w_events w) c k Hb) as [T1 T2 T3]; [done..|].
        split; [apply (tk_old _ _ _ _ _ _ W3)|apply (tk_new _ _ _ _ _ _ W3)|exact T3].
      * exists c. split; [done|]. intros Hnf Hwait. exfalso. revert Er.
        unfold next_line_boundary, from, len. rewrite <-Nat2Z.inj_add, Nat2Z.id.
        rewrite scan_chunks_eq by (try lia; by apply Nat.ltb_lt).
        intros Er%fmap_None. apply position_None in Er.
        apply list_elem_of_lookup in Hwait as (j & Hj). apply Er.
        destruct (decide (j < length buf)%nat) as [|Hge]; [by destruct (Hplain j); [lia|..]|].
        apply list_elem_of_lookup. exists (j - length buf)%nat. rewrite lookup_drop in *.
        by replace (c + length buf + (j - length buf))%nat with (c + j)%nat by lia.
    + exists c. split; [done|]. intros Hnf Hwait. specialize (Hend Hnf Hwait). lia.
  - exists (c + line_start w)%nat. split; [|intros; lia]. split; cbn; [lia|lia|done|done].
Qed.

(** ** Worlds *)

(** A file and what is stored of it. Files only grow; a pass sees a length
    between the committed offset and the present one. A crash loses the
    offset of a pass and keeps the rows it had inserted: a pass cut short is
    one whose time is up. *)
Definition World : Type := text * FileState.

Inductive step (allowed : Env → Prop) : World → World → Prop :=
  | step_append file more st : step allowed (file, st) (file ++ more, st)
  | step_pass env purged file n st :
      allowed env → default 0 (committed st) <= n → n <= len file →
      step allowed (file, st) (file, ingest_file parse_json env purged file n st)
  | step_crash env purged file n st :
      allowed env → default 0 (committed st) <= n → n <= len file →
      step allowed (file, st)
        (file, mkFileState (committed st) (events (ingest_file parse_json env purged file n st))).

Definition fresh : FileState := mkFileState None ∅.

Lemma ingest_ok env purged file n st c :
  default 0 (committed st) = Z.of_nat c → boundary file c → Z.of_nat c <= n → n <= len file →
  ∃ b, passed file (db_fails env) st (ingest_file parse_json env purged file n st) c b ∧
    (n = len file → purged = false → waiting file c → (c < b)%nat).
Proof.
  intros Hc Hb Hn Hlen. unfold ingest_file, dirty. rewrite Hc.
  assert (Hstay : passed file (db_fails env) st st c c).
  { split; [lia|done|done|]. split; [done|congruence|]. intros; lia. }
  destruct (n =? Z.of_nat c) eqn:E; cbn [negb].
  - exists c. split; [done|]. intros -> _ (j & Hj)%list_elem_of_lookup.
    apply lookup_lt_Some in Hj. rewrite length_drop in Hj. unfold len in E. lia.
  - destruct purged; [exists c; split; [done|congruence]|].
    destruct (process_ok file env n st c Hc Hb Hn Hlen) as (b & Hpass & Hprog).
    exists b. split; [done|]. intros Hl _. by apply Hprog.
Qed.

(** The committed offset is a boundary, and every stored event is a line. *)
Record grounded (w : World) (c : nat) : Prop := {
  gr_committed : default 0 (committed w.2) = Z.of_nat c;
  gr_boundary : boundary w.1 c;
  gr_sound o v : events w.2 !! o = Some v →
    ∃ s L, o = Z.of_nat s ∧ line_at w.1 s L ∧ worthy L v ∧ len L < MAX_READ_BYTES;
}.

Lemma grounded_value w c s L v v' : grounded w c → events w.2 !! Z.of_nat s = Some v' →
  line_at w.1 s L → worthy L v → v' = v.
Proof.
  intros G Hv' HL [_ Hp]. destruct (gr_sound _ _ G _ _ Hv') as (s' & L' & Hs & HL' & [_ Hp'] & _).
  assert (s' = s) as -> by lia. pose proof (line_unique _ _ _ _ HL HL') as ->. congruence.
Qed.

(** Every line before an offset is stored. *)
Definition complete (w : World) (c : nat) : Prop := ∀ s L v,
  line_at w.1 s L → (s + length L < c)%nat → worthy L v → len L < MAX_READ_BYTES →
  is_Some (events w.2 !! Z.of_nat s).

Definition reliable (env : Env) : Prop := ∀ o, db_fails env o = false.

Lemma grounded_fresh file : grounded (file, fresh) 0.
Proof. split; cbn; [done|split; [lia|by left]|]. intros o v. by rewrite lookup_empty. Qed.

Lemma grounded_offset file st c : grounded (file, st) c → Z.to_nat (default 0 (committed st)) = c.
Proof. intros G. pose proof (gr_committed _ _ G) as E. cbn in E. rewrite E. apply Nat2Z.id. Qed.

Lemma grounded_append file more st c : grounded (file, st) c → grounded (file ++ more, st) c.
Proof.
  intros [H1 H2 H3]. split; [done|by apply boundary_app|]. intros o v Ho.
  destruct (H3 o v Ho) as (s & L & ? & ? & ?). exists s, L. split; [done|]. split; [|done].
  by apply line_at_app.
Qed.

Lemma passed_grounded file fails st st' a b : grounded (file, st) a →
  passed file fails st st' a b → grounded (file, st') b ∧
  grounded (file, mkFileState (committed st) (events st')) a.
Proof.
  intros [H1 H2 H3] [P1 P2 P3 P4].
  assert (Hs : ∀ o v, events st' !! o = Some v →
    ∃ s L, o = Z.of_nat s ∧ line_at file s L ∧ worthy L v ∧ len L < MAX_READ_BYTES).
  { intros o v Ho. destruct (events st !! o) as [v0|] eqn:E.
    - pose proof (lookup_weaken _ _ _ _ E (tk_old _ _ _ _ _ _ P4)). apply H3. cbn. congruence.
    - destruct (tk_new _ _ _ _ _ _ P4 o v Ho E) as (s & L & ? & _ & ? & ? & ? & _).
      by exists s, L. }
  split; split; done.
Qed.

Lemma complete_append file more st c :
  boundary file c → complete (file, st) c → complete (file ++ more, st) c.
Proof.
  intros [Hc _] H s L v HL Hlt. apply (H s L v); [|done].
  eapply line_at_app_inv; [exact HL|]. cbn in *. lia.
Qed.

Lemma passed_complete file fails st st' a b : (∀ o, fails o = false) → boundary file a →
  complete (file, st) a → passed file fails st st' a b →
  complete (file, st') b ∧ complete (file, mkFileState (committed st) (events st')) a.
Proof.
  intros Hf Ha Hc [P1 P2 P3 P4].
  assert (Hold : ∀ o, is_Some (events st !! o) → is_Some (events st' !! o)).
  { intros o [v Hv]. exists v. eapply lookup_weaken, (tk_old _ _ _ _ _ _ P4). done. }
  split; intros s L v HL Hlt Hw Hlen; cbn in *.
  - destruct (line_side _ _ _ _ HL Ha); [apply Hold; by eapply Hc|].
    by eapply (tk_all _ _ _ _ _ _ P4).
  - apply Hold. by eapply Hc.
Qed.

Lemma step_grounded allowed w w' c : step allowed w w' → grounded w c →
  ∃ c', (c ≤ c')%nat ∧ grounded w' c' ∧
    ((∀ env, allowed env → reliable env) → complete w c → complete w' c') ∧
    (∀ o, o < Z.of_nat c → events w.2 !! o = None → events w'.2 !! o = None).
Proof.
  assert (Hpass : ∀ file fails st st' a b, passed file fails st st' a b →
    ∀ o, o < Z.of_nat a → events st !! o = None → events st' !! o = None).
  { intros file fails st st' a b [_ _ _ P4] o Ho Hno. destruct (events st' !! o) as [v|] eqn:E; [|done].
    destruct (tk_new _ _ _ _ _ _ P4 o v E Hno) as (s & L & -> & ? & _). lia. }
  intros [file more st|env purged file n st Henv Hn Hlen|env purged file n st Henv Hn Hlen] G.
  - exists c. split; [lia|]. split; [by apply grounded_append|].
    split; [|done]. intros _. apply complete_append, (gr_boundary _ _ G).
  - destruct (ingest_ok env purged file n st c (gr_committed _ _ G) (gr_boundary _ _ G))
      as (b & Hp & _); [rewrite <-(gr_committed _ _ G); done|done|].
    exists b. split; [apply (ps_le _ _ _ _ _ _ Hp)|]. split; [exact (proj1 (passed_grounded _ _ _ _ _ _ G Hp))|].
    split; [|by eapply Hpass]. intros Hr Hc.
    exact (proj1 (passed_complete _ _ _ _ _ _ (Hr env Henv) (gr_boundary _ _ G) Hc Hp)).
  - destruct (ingest_ok env purged file n st c (gr_committed _ _ G) (gr_boundary _ _ G))
      as (b & Hp & _); [rewrite <-(gr_committed _ _ G); done|done|].
    exists c. split; [lia|]. split; [exact (proj2 (passed_grounded _ _ _ _ _ _ G Hp))|].
    split; [|exact (Hpass _ _ _ _ _ _ Hp)]. intros Hr Hc.
    exact (proj2 (passed_complete _ _ _ _ _ _ (Hr env Henv) (gr_boundary _ _ G) Hc Hp)).
Qed.

Lemma steps_grounded allowed w w' c : rtc (step allowed) w w' → grounded w c →
  ∃ c', (c ≤ c')%nat ∧ grounded w' c' ∧
    ((∀ env, allowed env → reliable env) → complete w c → complete w' c') ∧
    (∀ o, o < Z.of_nat c → events w.2 !! o = None → events w'.2 !! o = None).
Proof.
  intros Hsteps. revert c. induction Hsteps as [w|w1 w2 w3 H1 _ IH]; intros c G.
  - exists c. split_and!; done.
  - destruct (step_grounded _ _ _ _ H1 G) as (c2 & Hc2 & G2 & C2 & N2).
    destruct (IH c2 G2) as (c3 & Hc3 & G3 & C3 & N3). exists c3. split; [lia|]. split; [done|].
    split; [auto|]. intros o Ho Hno. apply N3; [lia|]. by apply N2.
Qed.

(** A grounded and complete world that waits for nothing holds the lines. *)
Lemma caught_up_exact w c : grounded w c → complete w c → ¬ waiting w.1 c → ∀ o v,
  events w.2 !! o = Some v ↔
  ∃ s L, o = Z.of_nat s ∧ line_at w.1 s L ∧ worthy L v ∧ len L < MAX_READ_BYTES.
Proof.
  intros G Hc Hw o v. split; [apply (gr_sound _ _ G)|]. intros (s & L & -> & HL & Hv & Hlen).
  assert (is_Some (events w.2 !! Z.of_nat s)) as [v' Hv'].
  { apply (Hc s L v); [done| |done|done].
    destruct (decide (s + length L < c)%nat) as [|Hge]; [done|]. exfalso. apply Hw.
    apply list_elem_of_lookup. exists (s + length L - c)%nat. rewrite lookup_drop.
    replace (c + (s + length L - c))%nat with (s + length L)%nat by lia. apply (la_end _ _ _ HL). }
  by rewrite Hv', (grounded_value _ _ _ _ _ _ G Hv' HL Hv).
Qed.

(** Every history without a failed insert is grounded and complete. *)
Lemma history_grounded file0 w : rtc (step reliable) (file0, fresh) w →
  ∃ c, grounded w c ∧ complete w c.
Proof.
  intros Hsteps. destruct (steps_grounded _ _ _ _ Hsteps (grounded_fresh file0)) as (c & _ & G & C & _).
  exists c. split; [done|]. apply C; [done|]. intros s L v _ ?. lia.
Qed.

(** ** Draining *)

(** The newlines still to be read. *)
Definition lines_left (file : text) (c : nat) : nat :=
  length (filter (λ b, b = nl) (drop c file)).

Lemma lines_left_0 file c : lines_left file c = 0%nat ↔ ¬ waiting file c.
Proof.
  unfold lines_left, waiting. split.
  - intros H%nil_length_inv Hin. assert (nl ∈ filter (λ b, b = nl) (drop c file)) as Hf
      by by apply list_elem_of_filter. rewrite H in Hf. by apply elem_of_nil in Hf.
  - intros H. destruct (filter _ _) as [|x l] eqn:E; [done|]. exfalso. apply H.
    assert (x ∈ filter (λ b, b = nl) (drop c file)) as Hx by (rewrite E; by left).
    by apply list_elem_of_filter in Hx as [-> Hx].
Qed.

(** A pass that reaches a later boundary has read a newline. *)
Lemma lines_left_lt file a b : boundary file b → (a < b)%nat →
  (lines_left file b < lines_left file a)%nat.
Proof.
  intros [Hb [->|Hnl]] Hab; [lia|]. unfold lines_left.
  rewrite <-(take_drop (b - a) (drop a file)), filter_app, length_app, drop_drop.
  replace (a + (b - a))%nat with b by lia.
  assert (nl ∈ filter (λ c, c = nl) (take (b - a) (drop a file))) as Hin.
  { apply list_elem_of_filter. split; [done|]. apply list_elem_of_lookup. exists (b - a - 1)%nat.
    rewrite lookup_take_lt, lookup_drop by lia. by replace (a + (b - a - 1))%nat with (b - 1)%nat by lia. }
  destruct (filter _ (take _ _)); [by apply elem_of_nil in Hin|]. cbn. lia.
Qed.

(** Passes over a file that has stopped growing. *)
Definition drain (file : text) (envs : list Env) (st : FileState) : FileState :=
  fold_left (λ st env, ingest_file parse_json env false file (len file) st) envs st.

Lemma drain_grounded file envs st c : grounded (file, st) c → ∃ c',
  grounded (file, drain file envs st) c' ∧
  (Forall reliable envs → complete (file, st) c → complete (file, drain file envs st) c') ∧
  (lines_left file c' ≤ lines_left file c - length envs)%nat.
Proof.
  revert st c. induction envs as [|env envs IH]; intros st c G.
  - exists c. split_and!; [done|done|cbn; lia].
  - pose proof (gr_boundary _ _ G) as Hb. cbn in Hb.
    destruct (ingest_ok env false file (len file) st c (gr_committed _ _ G) Hb) as (b & Hp & Hprog);
      [destruct Hb; unfold len; lia|done|].
    destruct (passed_grounded _ _ _ _ _ _ G Hp) as [G' _].
    destruct (IH _ b G') as (c' & Gc & Cc & Hl). exists c'. split; [done|]. split.
    + intros [Hr Hrs]%Forall_cons Hc. apply Cc; [done|].
      exact (proj1 (passed_complete _ _ _ _ _ _ Hr Hb Hc Hp)).
    + cbn [length]. pose proof (ps_le _ _ _ _ _ _ Hp) as Hle.
      destruct (decide (lines_left file c = 0)%nat) as [E|E].
      * assert (lines_left file b ≤ lines_left file c)%nat; [|lia].
        destruct (decide (b = c)) as [->|]; [done|].
        apply Nat.lt_le_incl, lines_left_lt; [apply (ps_boundary _ _ _ _ _ _ Hp)|lia].
      * assert (waiting file c) as Hw.
        { destruct (decide (nl ∈ drop c file)) as [|Hn]; [done|]. by apply lines_left_0 in Hn. }
        pose proof (lines_left_lt file c b (ps_boundary _ _ _ _ _ _ Hp) (Hprog eq_refl eq_refl Hw)). lia.
Qed.
End walk.

(** ** The projection queue *)

Section queue.
Context {A : Type} `{Countable A}.

(** What happens to the queue: a session has new events, or one batch is
    projected and reports whether more is waiting. *)
Inductive QueueOp : Type :=
  | Arrive (session : A)
  | Serve (more : A → bool).

(** The sessions served, in order, and the queue left. *)
Fixpoint serve_all (ops : list QueueOp) (q : ProjectionQueue A) : list A * ProjectionQueue A :=
  match ops with
  | [] => ([], q)
  | Arrive session :: ops => serve_all ops (queue_push session q)
  | Serve more :: ops =>
      match serve more q with
      | None => serve_all ops q
      | Some (session, q) => let '(served, q) := serve_all ops q in (session :: served, q)
      end
  end.

Fixpoint serves (ops : list QueueOp) : nat :=
  match ops with
  | [] => 0
  | Arrive _ :: ops => serves ops
  | Serve _ :: ops => S (serves ops)
  end.

(** No session waits twice, and the set is the list's. *)
Record queue_ok (q : ProjectionQueue A) : Prop := {
  qo_nodup : NoDup (order q);
  qo_queued s : s ∈ queued q ↔ s ∈ order q;
}.

Lemma queue_empty_ok : queue_ok (queue_empty : ProjectionQueue A).
Proof. split; [constructor|]. intros s. cbn. set_solver. Qed.

Lemma queue_push_ok s q : queue_ok q → queue_ok (queue_push s q) ∧ s ∈ order (queue_push s q) ∧
  order q `prefix_of` order (queue_push s q).
Proof.
  intros [Hn Hq]. unfold queue_push. case_bool_decide as Hs.
  - split_and!; [done|by apply Hq|done].
  - cbn. split_and!; [|set_solver|by exists [s]]. split; cbn; [|set_solver].
    apply NoDup_app. split_and!; [done|set_solver|apply NoDup_singleton].
Qed.

Lemma serve_ok more q : queue_ok q → match serve more q with
  | None => order q = []
  | Some (s, q') => queue_ok q' ∧ ∃ rest, order q = s :: rest ∧ rest `prefix_of` order q' ∧
      (more s = true → s ∈ order q')
  end.
Proof.
  intros [Hn Hq]. unfold serve, queue_pop. destruct (order q) as [|s rest] eqn:E; [done|]. cbn.
  apply NoDup_cons in Hn as [Hs Hn].
  assert (queue_ok (mkQueue rest (queued q ∖ {[s]}))) as Hok.
  { split; cbn; [done|]. intros s'. rewrite elem_of_difference, Hq, not_elem_of_singleton.
    rewrite elem_of_cons. naive_solver. }
  destruct (more s).
  - destruct (queue_push_ok s _ Hok) as (Hok' & Hin & Hpre). split; [done|]. exists rest.
    split_and!; [done|exact Hpre|done].
  - split; [done|]. exists rest. split_and!; done.
Qed.

Lemma serve_all_ok ops q : queue_ok q → queue_ok (serve_all ops q).2.
Proof.
  revert q. induction ops as [|[s|more] ops IH]; intros q Hq; [done|apply IH, queue_push_ok, Hq|].
  cbn. pose proof (serve_ok more q Hq) as Hs. destruct (serve more q) as [[s q']|]; [|by apply IH].
  destruct Hs as [Hq' _]. specialize (IH q' Hq'). by destruct (serve_all ops q').
Qed.

(** Nobody overtakes: the session at position [k] is served by the serve
    after the next [k]. *)
Lemma serve_all_position ops q k s : queue_ok q → order q !! k = Some s → (k < serves ops)%nat →
  (serve_all ops q).1 !! k = Some s.
Proof.
  revert q k. induction ops as [|[s'|more] ops IH]; intros q k Hq Hk Hlt; [cbn in Hlt; lia| |].
  - cbn. destruct (queue_push_ok s' q Hq) as (Hq' & _ & Hpre).
    apply IH; [done|by eapply prefix_lookup_Some|done].
  - cbn. pose proof (serve_ok more q Hq) as Hs. destruct (serve more q) as [[s0 q']|].
    2:{ by rewrite Hs in Hk. }
    destruct Hs as (Hq' & rest & Hr & Hpre & _). rewrite Hr in Hk.
    assert (Hrest : ∀ j, rest !! j = Some s → (j < serves ops)%nat →
      (serve_all ops q').1 !! j = Some s).
    { intros j Hj Hjl. apply IH; [done|by eapply prefix_lookup_Some|done]. }
    destruct (serve_all ops q') as [served q'']. cbn in *. destruct k as [|k]; [done|].
    apply Hrest; [done|lia].
Qed.
End queue.
