(* ===== verification/IngesterGuarantees.v ===== *)
(** * What the ingester guarantees

    Properties of every history of [IngesterSpec], with witnesses on a file of
    three lines, the last one unfinished. *)

From S2P Require Import Prelude Text Json Ingester IngesterSpec.

(** ** A concrete transcript *)

Definition parse_demo (l : text) : option Value :=
  if bool_decide (l = bytes_of "{}") then Some (Object []) else None.

Definition demo_file : text := bytes_of "{}" ++ [nl] ++ bytes_of "oops" ++ [nl].
Definition demo_more : text := bytes_of "{}" ++ [nl] ++ bytes_of "{".

(** An environment that admits one line a pass and fails no insert, and one
    that fails every insert. *)
Definition hurried : Env := mkEnv (λ _, true) (λ _, false).
Definition failing : Env := mkEnv (λ _, false) (λ _, true).

Lemma hurried_reliable : reliable hurried.
Proof. done. Qed.

Lemma nl_plain : nl ∉ bytes_of "{}".
Proof. by apply (bool_decide_unpack (nl ∉ bytes_of "{}")). Qed.

Lemma demo_line : line_at demo_file 0 (bytes_of "{}").
Proof.
  apply (line_at_middle [] (bytes_of "{}") (bytes_of "oops" ++ [nl])); [|apply nl_plain].
  split; [cbn; lia|by left].
Qed.

Lemma demo_more_line : line_at (demo_file ++ demo_more) 8 (bytes_of "{}").
Proof.
  apply (line_at_middle demo_file (bytes_of "{}") (bytes_of "{")); [|apply nl_plain].
  split; [cbn; lia|by right].
Qed.

Section ingester.
Context (parse_json : text → option Value).

(** ** Properties *)

(** C19. In every history of passes, crashes and appends in which no insert
    fails, the stored events are complete lines of the file under their own
    offsets, each with what the line parses to, and every line before the
    committed offset that is not blank, parses and fits a window is stored. *)
Theorem ingest_exact file0 w :
  rtc (step parse_json reliable) (file0, fresh) w →
  ∃ c, default 0 (committed w.2) = Z.of_nat c ∧ boundary w.1 c ∧
    (∀ o v, events w.2 !! o = Some v →
       ∃ s L, o = Z.of_nat s ∧ line_at w.1 s L ∧ worthy parse_json L v ∧ len L < MAX_READ_BYTES) ∧
    (∀ s L v, line_at w.1 s L → (s + length L < c)%nat → worthy parse_json L v →
       len L < MAX_READ_BYTES → events w.2 !! Z.of_nat s = Some v).
Proof.
  intros (c & G & Hc)%history_grounded. exists c. split; [apply (gr_committed _ _ _ G)|]. split; [apply (gr_boundary _ _ _ G)|].
  split; [apply (gr_sound _ _ _ G)|]. intros s L v HL Hlt Hw Hlen.
  destruct (Hc s L v HL Hlt Hw Hlen) as [v' Hv'].
  by rewrite Hv', (grounded_value _ _ _ _ _ _ _ G Hv' HL Hw).
Qed.

(** C20. Once the file stops growing, as many passes as there are newlines
    past the committed offset are enough, however little time each has: the
    stored events are then exactly the lines that are not blank, parse and
    fit a window. *)
Theorem drain_exact file0 file st envs :
  rtc (step parse_json reliable) (file0, fresh) (file, st) → Forall reliable envs →
  (lines_left file (Z.to_nat (default 0%Z (committed st))) ≤ length envs)%nat → ∀ o v,
  events (drain parse_json file envs st) !! o = Some v ↔
  ∃ s L, o = Z.of_nat s ∧ line_at file s L ∧ worthy parse_json L v ∧ len L < MAX_READ_BYTES.
Proof.
  intros (c & G & Hc)%history_grounded Hrel Hlen.
  rewrite (grounded_offset _ _ _ _ G) in Hlen.
  destruct (drain_grounded _ _ envs _ _ G) as (c' & G' & C' & Hl).
  apply (caught_up_exact _ (file, drain parse_json file envs st) c' G').
  - by apply C'.
  - apply lines_left_0. cbn [fst]. lia.
Qed.

(** What is stored of a file does not depend on how it was read: two
    histories that end with the same file and nothing left to read have the
    same events, wherever their passes, crashes and appends fell. *)
Theorem schedule_independent file1 file2 file st1 st2 :
  rtc (step parse_json reliable) (file1, fresh) (file, st1) →
  rtc (step parse_json reliable) (file2, fresh) (file, st2) →
  lines_left file (Z.to_nat (default 0%Z (committed st1))) = 0%nat →
  lines_left file (Z.to_nat (default 0%Z (committed st2))) = 0%nat →
  events st1 = events st2.
Proof.
  intros (c1 & G1 & C1)%history_grounded (c2 & G2 & C2)%history_grounded.
  rewrite (grounded_offset _ _ _ _ G1), (grounded_offset _ _ _ _ G2). intros L1%lines_left_0 L2%lines_left_0.
  apply map_eq. intros o. apply option_eq. intros v.
  by rewrite (caught_up_exact _ _ _ G1 C1 L1), (caught_up_exact _ _ _ G2 C2 L2).
Qed.

(** A line whose insert the database fails is lost: the pass moves its
    offset past the line all the same, and no later pass, crash or append
    stores it. *)
Lemma failed_insert_lost file0 file st env L w :
  rtc (step parse_json (λ _, True)) (file0, fresh) (file, st) →
  line_at file (Z.to_nat (default 0%Z (committed st))) L →
  events st !! default 0 (committed st) = None → db_fails env (default 0 (committed st)) = true →
  rtc (step parse_json (λ _, True))
    (file, ingest_file parse_json env false file (len file) st) w →
  events w.2 !! default 0 (committed st) = None.
Proof.
  intros Hsteps HL Hno Hf Hrest.
  destruct (steps_grounded _ _ _ _ _ Hsteps (grounded_fresh _ file0)) as (c & _ & G & _).
  rewrite (grounded_offset _ _ _ _ G) in HL. pose proof (gr_committed _ _ _ G) as Ec. cbn in Ec.
  rewrite Ec in *. pose proof (gr_boundary _ _ _ G) as Hb.
  destruct (ingest_ok parse_json env false file (len file) st c (gr_committed _ _ _ G) Hb)
    as (b & Hp & Hprog); [destruct Hb; unfold len; cbn in *; lia|done|].
  assert (Hw : waiting file c).
  { apply list_elem_of_lookup. exists (length L). rewrite lookup_drop. apply (la_end _ _ _ HL). }
  specialize (Hprog eq_refl eq_refl Hw).
  destruct (passed_grounded _ _ _ _ _ _ _ G Hp) as [G' _].
  destruct (steps_grounded _ _ _ _ _ Hrest G') as (_ & _ & _ & _ & Hkeep).
  apply Hkeep; [lia|]. cbn.
  destruct (events (ingest_file parse_json env false file (len file) st) !! Z.of_nat c) as [v|] eqn:E;
    [|done]. exfalso.
  destruct (tk_new _ _ _ _ _ _ _ (ps_took _ _ _ _ _ _ _ Hp) _ v E Hno)
    as (s & L' & _ & _ & _ & _ & _ & Hfs). congruence.
Qed.
End ingester.

(** The chunked scan past an oversized line finds the first newline at
    or after the offset, or none when there is none. *)
Lemma boundary_scan file from_ : (from_ ≤ length file)%nat →
  match next_line_boundary file (Z.of_nat from_) with
  | Some r => ∃ k, r = Z.of_nat (k + 1) ∧ (from_ ≤ k)%nat ∧ file !! k = Some nl ∧
      ∀ j, (from_ ≤ j < k)%nat → file !! j ≠ Some nl
  | None => ∀ j, (from_ ≤ j)%nat → file !! j ≠ Some nl
  end.
Proof.
  intros Hle. unfold next_line_boundary, from. rewrite Nat2Z.id.
  rewrite scan_chunks_eq by (try lia; by apply Nat.ltb_lt).
  destruct (position nl (drop from_ file)) as [k|] eqn:E; cbn.
  - apply position_Some in E as [Hk Hj]. rewrite lookup_drop in Hk. exists (from_ + k)%nat.
    split_and!; [lia|lia|done|]. intros j Hjk Hnl. apply (Hj (j - from_)%nat); [lia|].
    rewrite lookup_drop. by replace (from_ + (j - from_))%nat with j by lia.
  - apply position_None in E. intros j Hj Hnl. apply E. apply list_elem_of_lookup.
    exists (j - from_)%nat. rewrite lookup_drop. by replace (from_ + (j - from_))%nat with j by lia.
Qed.

Lemma boundary_scan_witness : next_line_boundary demo_file 1 ≠ None.
Proof.
  pose proof (boundary_scan demo_file 1 ltac:(cbn; lia)) as H. intros E.
  change (Z.of_nat 1) with 1 in H. rewrite E in H. by apply (H 2%nat ltac:(lia)).
Defined.

(** ** Witnesses *)

Definition demo_read : FileState := ingest_file parse_demo hurried false demo_file 8 fresh.

Lemma demo_history : rtc (step parse_demo reliable) (demo_file, fresh) (demo_file ++ demo_more, demo_read).
Proof.
  eapply rtc_l; [|apply rtc_once, step_append].
  apply step_pass; [apply hurried_reliable|vm_compute; congruence|vm_compute; congruence].
Defined.

Lemma ingest_exact_witness : ∃ c, default 0 (committed demo_read) = Z.of_nat c.
Proof.
  destruct (ingest_exact parse_demo demo_file (demo_file ++ demo_more, demo_read) demo_history)
    as (c & Hc & _). by exists c.
Defined.

Lemma drain_exact_witness :
  events (drain parse_demo (demo_file ++ demo_more) [hurried; hurried] demo_read) !! 8 =
  Some (Object []).
Proof.
  apply (drain_exact parse_demo demo_file (demo_file ++ demo_more) demo_read [hurried; hurried]
    demo_history).
  - repeat constructor.
  - vm_compute. lia.
  - exists 8%nat, (bytes_of "{}"). split_and!; [done|apply demo_more_line|done|done].
Defined.

(** The same file, read line by line and in one go. *)
Definition demo_final : FileState :=
  drain parse_demo (demo_file ++ demo_more) [hurried; hurried] demo_read.

Definition patient : Env := mkEnv (λ _, false) (λ _, false).

Definition demo_at_once : FileState :=
  ingest_file parse_demo patient false (demo_file ++ demo_more) 12 fresh.

Lemma demo_final_history : rtc (step parse_demo reliable) (demo_file, fresh) (demo_file ++ demo_more, demo_final).
Proof.
  etrans; [apply demo_history|]. unfold demo_final, drain. cbn [fold_left].
  eapply rtc_l; [apply (step_pass _ _ hurried false _ 12)|apply rtc_once, step_pass];
    [done|vm_compute; congruence..].
Defined.

Lemma demo_at_once_history :
  rtc (step parse_demo reliable) (demo_file ++ demo_more, fresh) (demo_file ++ demo_more, demo_at_once).
Proof.
  apply rtc_once, step_pass; [done|vm_compute; congruence|vm_compute; congruence].
Defined.

Lemma schedule_independent_witness : events demo_final = events demo_at_once.
Proof.
  apply (schedule_independent parse_demo demo_file (demo_file ++ demo_more) (demo_file ++ demo_more)
    demo_final demo_at_once demo_final_history demo_at_once_history); vm_compute; reflexivity.
Defined.

(** The first line's insert fails; a whole reading of the file afterwards
    does not bring it back. *)
Definition demo_failed : FileState := ingest_file parse_demo failing false demo_file (len demo_file) fresh.

Lemma failed_insert_lost_witness :
  events (ingest_file parse_demo patient false (demo_file ++ demo_more) 12 demo_failed) !! 0 = None.
Proof.
  apply (failed_insert_lost parse_demo demo_file demo_file fresh failing (bytes_of "{}")
    (demo_file ++ demo_more, ingest_file parse_demo patient false (demo_file ++ demo_more) 12 demo_failed)).
  - apply rtc_refl.
  - apply demo_line.
  - reflexivity.
  - reflexivity.
  - eapply rtc_l; [apply step_append|]. apply rtc_once, step_pass;
      [done|vm_compute; congruence|vm_compute; congruence].
Defined.

(** ** The projection queue *)

(** The projection queue is fair: whatever arrives and however many
    batches each session still needs, no session waits twice, an arriving
    session is in the queue, and the session at position [k] is the [k]th
    served from now. *)
Lemma queue_fair `{Countable A} (before after : list (QueueOp (A := A))) session k :
  let q := (serve_all before queue_empty).2 in
  NoDup (order q) ∧ session ∈ order (queue_push session q) ∧
  (order q !! k = Some session → (k < serves after)%nat →
   (serve_all after q).1 !! k = Some session).
Proof.
  intros q. assert (Hq : queue_ok q) by apply serve_all_ok, queue_empty_ok.
  split_and!; [apply (qo_nodup _ Hq)|apply (queue_push_ok session q Hq)|].
  by apply serve_all_position.
Qed.

Lemma queue_fair_witness :
  (serve_all [Serve (λ _, true); Arrive 3; Serve (λ _, true)]
    (serve_all [Arrive 1; Arrive 2; Arrive 1] queue_empty).2).1 !! 1%nat = Some 2.
Proof.
  apply (queue_fair [Arrive 1; Arrive 2; Arrive 1] [Serve (λ _, true); Arrive 3; Serve (λ _, true)] 2 1);
    [reflexivity|vm_compute; lia].
Defined.
