(* ===== verification/Plans.v ===== *)
(** * Published plans

    [plans.rs], [plans/phases.rs], [plans/branches.rs] and [plans/guidance.rs]:
    plans with ordered phases, the branches opened under phases of a plan,
    the terminals attached to plans and the log of what happened. Each
    operation is one transaction: a function of the tables that yields the new
    tables or an error, and on an error nothing is written. [NOW()] is the
    transaction's time, an argument; so are the identifiers it generates. *)

From S2P Require Import Prelude Text.

Definition MAX_TITLE_CHARS : Z := 160.
Definition MAX_SUMMARY_CHARS : Z := 1000.
Definition MAX_DESCRIPTION_CHARS : Z := 1000.
Definition MAX_NOTE_CHARS : Z := 1000.
Definition MAX_BRANCH_DEPTH : Z := 8.

(** ** Data *)

Inductive BoundarySource : Type := UserRequirement | UserCorrection | AgentProposal.

#[export] Instance BoundarySource_eq_dec : EqDecision BoundarySource.
Proof. solve_decision. Defined.

Record PlanBoundary : Type := mkBoundary { bound_source : BoundarySource; bound_text : string }.

#[export] Instance PlanBoundary_eq_dec : EqDecision PlanBoundary.
Proof. solve_decision. Defined.

Record PlanGuidance : Type := mkGuidance {
  outcome : string;
  principles : list string;
  assumptions : list string;
  boundaries : list PlanBoundary;
}.

#[export] Instance PlanGuidance_eq_dec : EqDecision PlanGuidance.
Proof. solve_decision. Defined.

Definition default_guidance : PlanGuidance := mkGuidance "" [] [] [].

Record PlanActor : Type := mkActor {
  actor_kind : string;
  actor_pty : option Uuid;
  actor_session : option Uuid;
}.

Record NewPhase : Type := mkNewPhase {
  new_title : string;
  new_description : string;
  new_status : option string;
  new_size : option string;
}.

Record CreatePlanInput : Type := mkCreate {
  cr_repo_name : string;
  cr_title : string;
  cr_summary : string;
  cr_guidance : PlanGuidance;
  cr_phases : list NewPhase;
  cr_all_pending : bool;
  cr_attach_current_pty : bool;
}.

Record BranchPlanInput : Type := mkBranchInput {
  br_title : string;
  br_summary : string;
  br_guidance : PlanGuidance;
  br_phases : list NewPhase;
  br_all_pending : bool;
  br_parent_phase_refs : list string;
  br_note : option string;
}.

Record UpdatePlanInput : Type := mkUpdate {
  up_title : option string;
  up_summary : option string;
  up_outcome : option string;
  up_principles : option (list string);
  up_assumptions : option (list string);
  up_boundaries : option (list PlanBoundary);
  up_status : option string;
  up_note : option string;
  up_skip_remaining : bool;
  up_require_branch : bool;
}.

Record UpdatePhaseInput : Type := mkUpdatePhase {
  upp_title : option string;
  upp_description : option string;
  upp_status : option string;
  upp_status_note : option string;
  upp_position : option Z;
  upp_size : option string;
}.

(** ** Tables *)

Record Plan : Type := mkPlan {
  pl_repo_name : string;
  pl_title : string;
  pl_summary : string;
  pl_guidance : PlanGuidance;
  pl_status : string;
  pl_revision : Z;
  pl_parent : option Uuid;
  pl_root : Uuid;
  pl_depth : Z;
  pl_created_by_pty : option Uuid;
  pl_created_by_session : option Uuid;
  pl_created_at : Z;
  pl_updated_at : Z;
  pl_closed_at : option Z;
}.

Record Phase : Type := mkPhase {
  ph_plan : Uuid;
  ph_position : Z;
  ph_title : string;
  ph_description : string;
  ph_status : string;
  ph_note : option string;
  ph_size : option string;
  ph_started_at : option Z;
  ph_completed_at : option Z;
  ph_created_at : Z;
  ph_updated_at : Z;
}.

Record Attachment : Type := mkAttachment {
  at_plan : Uuid;
  at_pty : Uuid;
  at_session : option Uuid;
  attached_at : Z;
  detached_at : option Z;
}.

Record PlanEvent : Type := mkPlanEvent {
  pe_plan : Uuid;
  pe_phase : option Uuid;
  pe_type : string;
  pe_actor : PlanActor;
  from_status : option string;
  to_status : option string;
  pe_note : option string;
  guidance_before : option PlanGuidance;
  guidance_after : option PlanGuidance;
  pe_created_at : Z;
}.

(** The columns of [pty_sessions] the operations read. *)
Record PtyRow : Type := mkPtyRow {
  pty_repo : string;
  pty_current_session : option Uuid;
  pty_state : string;
}.

Record World : Type := mkWorld {
  plans : gmap Uuid Plan;
  phases : gmap Uuid Phase;
  attachments : list Attachment;
  anchors : gset (Uuid * Uuid);
  plan_events : list PlanEvent;
  pty_sessions : gmap Uuid PtyRow;
  agent_sessions : gset Uuid;
}.

Definition set_plans t w := mkWorld t (phases w) (attachments w) (anchors w) (plan_events w)
  (pty_sessions w) (agent_sessions w).
Definition set_phases t w := mkWorld (plans w) t (attachments w) (anchors w) (plan_events w)
  (pty_sessions w) (agent_sessions w).
Definition set_attachments t w := mkWorld (plans w) (phases w) t (anchors w) (plan_events w)
  (pty_sessions w) (agent_sessions w).
Definition set_anchors t w := mkWorld (plans w) (phases w) (attachments w) t (plan_events w)
  (pty_sessions w) (agent_sessions w).
Definition set_plan_events t w := mkWorld (plans w) (phases w) (attachments w) (anchors w) t
  (pty_sessions w) (agent_sessions w).

Definition PLAN_STATUSES : list string := ["active"; "paused"; "completed"; "canceled"].
Definition PHASE_STATUSES : list string :=
  ["pending"; "in_progress"; "blocked"; "completed"; "skipped"].

Definition is_open (status : string) : bool := bool_decide (status ∈ ["active"; "paused"]).
Definition is_closed (status : string) : bool := bool_decide (status ∈ ["completed"; "canceled"]).
Definition is_done (status : string) : bool := bool_decide (status ∈ ["completed"; "skipped"]).

(** ** Validation *)

Definition limited_text (value label : string) (max_chars : Z) : res string :=
  let value := trim value in
  if max_chars <? chars_count value
  then bail (label +:+ " exceeds " +:+ pretty max_chars +:+ " characters")
  else Ok value.

Definition required_text (value label : string) (max_chars : Z) : res string :=
  let value := trim value in
  if is_empty value then bail (label +:+ " is required") else limited_text value label max_chars.

Definition clean_note (value : option string) : res (option string) :=
  match value with
  | None => Ok None
  | Some value =>
      value ← limited_text value "note" MAX_NOTE_CHARS;
      Ok (if is_empty value then None else Some value)
  end.

Definition validate_plan_status (status : string) : res unit :=
  if bool_decide (status ∈ PLAN_STATUSES) then Ok ()
  else bail ("invalid plan status: " +:+ status).

Definition validate_actor (actor : PlanActor) : res unit :=
  if bool_decide (actor_kind actor ∈ ["agent"; "user"; "system"]) then Ok ()
  else bail ("invalid plan actor kind: " +:+ actor_kind actor).

Definition validate_phase_status (status : string) : res unit :=
  if bool_decide (status ∈ PHASE_STATUSES) then Ok ()
  else bail ("invalid phase status: " +:+ status).

Definition validate_phase_size (size : option string) : res (option string) :=
  match size with
  | None => Ok None
  | Some raw =>
      let normalized := to_ascii_lowercase (trim raw) in
      if is_empty normalized then Ok None
      else if bool_decide (normalized ∈ ["s"; "m"; "l"]) then Ok (Some normalized)
      else bail ("invalid phase size: " +:+ raw +:+ " (expected s, m, or l)")
  end.

Definition initial_phase_status (requested : option string) (index : nat) (all_pending : bool)
    : res string :=
  let status := default (if bool_decide (index = 0%nat) && negb all_pending
                         then "in_progress" else "pending") requested in
  _ ← validate_phase_status status;
  Ok status.

Definition validate_items (items : list string) (label : string) : res (list string) :=
  if 10 <? Z.of_nat (length items)
  then bail ("guidance allows at most 10 " +:+ label +:+ " entries")
  else try_map (λ item, required_text item label 500) items.

Definition validated (g : PlanGuidance) : res PlanGuidance :=
  if 10 <? Z.of_nat (length (boundaries g))
  then bail "guidance allows at most 10 boundary entries"
  else
    o ← limited_text (outcome g) "outcome" 1000;
    p ← validate_items (principles g) "principle";
    a ← validate_items (assumptions g) "assumption";
    b ← try_map (λ b, t ← required_text (bound_text b) "boundary" 500;
                      Ok (mkBoundary (bound_source b) t)) (boundaries g);
    Ok (mkGuidance o p a b).

Definition with_update (g : PlanGuidance) (input : UpdatePlanInput) : res PlanGuidance :=
  validated (mkGuidance (default (outcome g) (up_outcome input))
    (default (principles g) (up_principles input))
    (default (assumptions g) (up_assumptions input))
    (default (boundaries g) (up_boundaries input))).

(** Title, description, initial status and size of a phase to insert. *)
Definition CheckedPhase : Type := string * string * string * option string.

Definition check_new_phase (all_pending : bool) (p : nat * NewPhase) : res CheckedPhase :=
  t ← required_text (new_title p.2) "phase title" MAX_TITLE_CHARS;
  d ← limited_text (new_description p.2) "phase description" MAX_DESCRIPTION_CHARS;
  s ← initial_phase_status (new_status p.2) p.1 all_pending;
  z ← validate_phase_size (new_size p.2);
  Ok (t, d, s, z).

(** [iter().enumerate()] *)
Definition enumerate {A} (l : list A) : list (nat * A) := zip (seq 0 (length l)) l.

Definition validate_new_phases (phases : list NewPhase) (all_pending : bool)
    : res (list CheckedPhase) :=
  match phases with
  | [] => bail "a published plan requires at least one phase"
  | _ => try_map (check_new_phase all_pending) (enumerate phases)
  end.

(** ** Statements *)

Definition violates_fk {A} : res A := bail "violates foreign key constraint".
Definition violates_unique {A} : res A :=
  bail "duplicate key value violates unique constraint".
Definition violates_check {A} : res A := bail "violates check constraint".

Definition references {A} (id : option Uuid) (t : gmap Uuid A) : bool :=
  match id with Some id => is_some (t !! id) | None => true end.

(** The foreign keys to the acting terminal and agent session. *)
Definition actor_exists (actor : PlanActor) (w : World) : bool :=
  references (actor_pty actor) (pty_sessions w)
  && match actor_session actor with
     | Some s => bool_decide (s ∈ agent_sessions w)
     | None => true
     end.

Definition insert_event_row (e : PlanEvent) (w : World) : res World :=
  if is_some (plans w !! pe_plan e) && references (pe_phase e) (phases w)
     && actor_exists (pe_actor e) w
  then Ok (set_plan_events (plan_events w ++ [e]) w)
  else violates_fk.

Definition insert_event (plan_id : Uuid) (phase_id : option Uuid) (event_type : string)
    (actor : PlanActor) (from_status to_status note : option string) (now : Z) (w : World)
    : res World :=
  insert_event_row (mkPlanEvent plan_id phase_id event_type actor from_status to_status note
    None None now) w.

Definition record_change (plan_id : Uuid) (actor : PlanActor) (before : option PlanGuidance)
    (after : PlanGuidance) (note : option string) (now : Z) (w : World) : res World :=
  if bool_decide (before = Some after)
     || (is_none before && bool_decide (after = default_guidance))
  then Ok w
  else insert_event_row (mkPlanEvent plan_id None "guidance_changed" actor None None note
         before (Some after) now) w.

Definition update_plan_row (f : Plan → Plan) (plan_id : Uuid) (w : World) : World :=
  set_plans (alter f plan_id (plans w)) w.

Definition with_revision (revision now : Z) (p : Plan) : Plan :=
  mkPlan (pl_repo_name p) (pl_title p) (pl_summary p) (pl_guidance p) (pl_status p) revision
    (pl_parent p) (pl_root p) (pl_depth p) (pl_created_by_pty p) (pl_created_by_session p)
    (pl_created_at p) now (pl_closed_at p).

Definition bump_revision (plan_id : Uuid) (now : Z) (w : World) : res World :=
  match plans w !! plan_id with
  | None => Ok w
  | Some p =>
      r ← pg_bigint (pl_revision p + 1);
      Ok (update_plan_row (with_revision r now) plan_id w)
  end.

(** [plans_root_matches_parentage] *)
Definition root_matches (plan_id : Uuid) (p : Plan) : bool :=
  match pl_parent p with
  | None => bool_decide (pl_root p = plan_id) && (pl_depth p =? 0)
  | Some _ => negb (bool_decide (pl_root p = plan_id)) && (0 <? pl_depth p)
  end.

Definition insert_plan (plan_id : Uuid) (repo_name title summary : string)
    (guidance : PlanGuidance) (parent : option Uuid) (root : Uuid) (depth : Z)
    (actor : PlanActor) (now : Z) (w : World) : res World :=
  let p := mkPlan repo_name title summary guidance "active" 1 parent root depth
             (actor_pty actor) (actor_session actor) now now None in
  if is_some (plans w !! plan_id) then violates_unique
  else if negb (root_matches plan_id p) then violates_check
  else if negb (references parent (plans w) && actor_exists actor w
                && (bool_decide (root = plan_id) || is_some (plans w !! root)))
  then violates_fk
  else
    w ← insert_event plan_id None (if is_some parent then "branch_created" else "plan_created")
          actor None (Some "active") None now (set_plans (<[plan_id := p]> (plans w)) w);
    record_change plan_id actor None guidance None now w.

(** The phases of a plan, in table order. *)
Definition phases_of (plan_id : Uuid) (w : World) : list (Uuid * Phase) :=
  filter (λ kv, ph_plan kv.2 = plan_id) (map_to_list (phases w)).

Definition insert_phase_row (phase_id : Uuid) (ph : Phase) (w : World) : res World :=
  if is_some (phases w !! phase_id)
     || existsb (λ kv, ph_position kv.2 =? ph_position ph) (phases_of (ph_plan ph) w)
  then violates_unique
  else if negb ((0 <? ph_position ph) && bool_decide (ph_status ph ∈ PHASE_STATUSES))
  then violates_check
  else if negb (is_some (plans w !! ph_plan ph)) then violates_fk
  else Ok (set_phases (<[phase_id := ph]> (phases w)) w).

(** The [index]-th phase of a new plan; its identifier is [ids index]. *)
Definition insert_new_phase (plan_id : Uuid) (ids : nat → Uuid) (actor : PlanActor) (now : Z)
    (w : World) (p : nat * CheckedPhase) : res World :=
  let '(index, (title, description, status, size)) := p in
  let started := if bool_decide (status = "in_progress") then Some now else None in
  w ← insert_phase_row (ids index)
        (mkPhase plan_id (Z.of_nat index + 1) title description status None size started None
           now now) w;
  insert_event plan_id (Some (ids index)) "phase_added" actor None (Some status) None now w.

Definition insert_phases (plan_id : Uuid) (ids : nat → Uuid) (phases : list CheckedPhase)
    (actor : PlanActor) (now : Z) (w : World) : res World :=
  try_fold (insert_new_phase plan_id ids actor now) (enumerate phases) w.

(** ** Renaming a repository *)

Definition renamed_plan (old_name new_name : string) (now : Z) (p : Plan) : Plan :=
  if bool_decide (pl_repo_name p = old_name)
  then mkPlan new_name (pl_title p) (pl_summary p) (pl_guidance p) (pl_status p)
         (pl_revision p + 1) (pl_parent p) (pl_root p) (pl_depth p) (pl_created_by_pty p)
         (pl_created_by_session p) (pl_created_at p) now (pl_closed_at p)
  else p.

(** [repo_lifecycle.rs]: the plans' part of a rename. *)
Definition rename_repo_plans (old_name new_name : string) (now : Z) (w : World) : res World :=
  let renamed := renamed_plan old_name new_name now <$> plans w in
  if forallb (λ kv, pl_revision kv.2 <? 2 ^ 63) (map_to_list renamed)
  then Ok (set_plans renamed w) else bail "bigint out of range".

(** The [uuid] crate's parser and printer. *)
Section plans.
Context (parse_uuid : string → option Uuid) (show_uuid : Uuid → string).

(** ** Attachments *)

Definition ensure_plan_open (plan_id : Uuid) (w : World) : res unit :=
  p ← ok_or (plans w !! plan_id) ("plan not found: " +:+ show_uuid plan_id);
  if is_closed (pl_status p) then bail ("plan is closed with status " +:+ pl_status p) else Ok ().

Definition is_live (a : Attachment) : bool := is_none (detached_at a).

Definition detach_row (now : Z) (a : Attachment) : Attachment :=
  mkAttachment (at_plan a) (at_pty a) (at_session a) (attached_at a) (Some now).

(** [UPDATE plan_attachments SET detached_at = NOW() WHERE ... AND detached_at IS NULL] *)
Definition detach_where (p : Attachment → bool) (now : Z) (w : World) : World :=
  set_attachments ((λ a, if is_live a && p a then detach_row now a else a) <$> attachments w) w.

Definition attached_plan (pty : Uuid) (w : World) : option Uuid :=
  at_plan <$> List.find (λ a, is_live a && bool_decide (at_pty a = pty)) (attachments w).

Definition live_pty (pty : Uuid) (w : World) : option PtyRow :=
  p ← pty_sessions w !! pty;
  if bool_decide (pty_state p = "live") then Some p else None.

(** The row, under the partial unique index on live rows. *)
Definition insert_attachment (a : Attachment) (w : World) : res World :=
  if existsb (λ b, is_live b && bool_decide (at_pty b = at_pty a)) (attachments w)
  then violates_unique
  else Ok (set_attachments (attachments w ++ [a]) w).

Definition pty_note (pty : Uuid) (rest : string) : option string :=
  Some ("PTY " +:+ show_uuid pty +:+ rest).

Definition attach_in_tx (plan_id pty : Uuid) (actor : PlanActor) (bump : bool) (now : Z)
    (w : World) : res World :=
  p ← ok_or (plans w !! plan_id) "no rows returned by a query that expected to return at least one row";
  row ← ok_or (live_pty pty w) ("live PTY session not found: " +:+ show_uuid pty);
  if negb (bool_decide (pty_repo row = pl_repo_name p))
  then bail ("cannot attach PTY from repo " +:+ pty_repo row +:+ " to plan in repo "
             +:+ pl_repo_name p)
  else
    let existing := attached_plan pty w in
    if bool_decide (existing = Some plan_id) then Ok w
    else
      w ← match existing with
          | Some old_plan_id =>
              w ← bump_revision old_plan_id now
                    (detach_where (λ a, bool_decide (at_pty a = pty)) now w);
              insert_event old_plan_id None "plan_detached" actor None None
                (pty_note pty " attached to another plan") now w
          | None => Ok w
          end;
      w ← insert_attachment (mkAttachment plan_id pty (pty_current_session row) now None) w;
      w ← (if bump then bump_revision plan_id now w else Ok w);
      insert_event plan_id None "plan_attached" actor None None (pty_note pty "") now w.

Definition attach (plan_id pty : Uuid) (actor : PlanActor) (now : Z) (w : World) : res World :=
  _ ← validate_actor actor;
  _ ← ensure_plan_open plan_id w;
  attach_in_tx plan_id pty actor true now w.

Definition detach (plan_id pty : Uuid) (actor : PlanActor) (now : Z) (w : World) : res World :=
  _ ← validate_actor actor;
  let mine a := bool_decide (at_plan a = plan_id) && bool_decide (at_pty a = pty) in
  if existsb (λ a, is_live a && mine a) (attachments w) then
    w ← bump_revision plan_id now (detach_where mine now w);
    insert_event plan_id None "plan_detached" actor None None (pty_note pty "") now w
  else Ok w.

(** ** Creating a plan *)

(** [ids 0] is the plan's identifier, the rest its phases'. *)
Definition create (ids : nat → Uuid) (input : CreatePlanInput) (actor : PlanActor) (now : Z)
    (w : World) : res World :=
  _ ← validate_actor actor;
  repo ← required_text (cr_repo_name input) "repo name" MAX_TITLE_CHARS;
  title ← required_text (cr_title input) "plan title" MAX_TITLE_CHARS;
  summary ← limited_text (cr_summary input) "plan summary" MAX_SUMMARY_CHARS;
  guidance ← validated (cr_guidance input);
  new_phases ← validate_new_phases (cr_phases input) (cr_all_pending input);
  let plan_id := ids 0%nat in
  w ← insert_plan plan_id repo title summary guidance None plan_id 0 actor now w;
  w ← insert_phases plan_id (λ i, ids (S i)) new_phases actor now w;
  match actor_pty actor with
  | Some pty =>
      if cr_attach_current_pty input then attach_in_tx plan_id pty actor false now w else Ok w
  | None => Ok w
  end.

(** ** Phases *)

Definition position_le (a b : Uuid * Phase) : Prop := ph_position a.2 ≤ ph_position b.2.

#[export] Instance position_le_dec a b : Decision (position_le a b).
Proof. unfold position_le. apply _. Defined.

(** [ORDER BY position] *)
Definition ordered_phases (plan_id : Uuid) (w : World) : list (Uuid * Phase) :=
  merge_sort position_le (phases_of plan_id w).

Definition max_position (l : list (Uuid * Phase)) : Z :=
  foldr (λ kv m, Z.max (ph_position kv.2) m) 0 l.

Definition pg_int (z : Z) : res Z :=
  if (- 2 ^ 31 <=? z) && (z <? 2 ^ 31) then Ok z else bail "integer out of range".

Definition add_phase (phase_id plan_id : Uuid) (phase : NewPhase) (actor : PlanActor) (now : Z)
    (w : World) : res World :=
  _ ← validate_actor actor;
  title ← required_text (new_title phase) "phase title" MAX_TITLE_CHARS;
  description ← limited_text (new_description phase) "phase description" MAX_DESCRIPTION_CHARS;
  let status := default "pending" (new_status phase) in
  _ ← validate_phase_status status;
  size ← validate_phase_size (new_size phase);
  _ ← ensure_plan_open plan_id w;
  position ← pg_int (max_position (phases_of plan_id w) + 1);
  w ← insert_phase_row phase_id
        (mkPhase plan_id position title description status None size
           (if bool_decide (status = "in_progress") then Some now else None)
           (if is_done status then Some now else None) now now) w;
  w ← bump_revision plan_id now w;
  insert_event plan_id (Some phase_id) "phase_added" actor None (Some status) None now w.

Definition update_phase_row (f : Phase → Phase) (phase_id : Uuid) (w : World) : World :=
  set_phases (alter f phase_id (phases w)) w.

Definition with_position (position now : Z) (ph : Phase) : Phase :=
  mkPhase (ph_plan ph) position (ph_title ph) (ph_description ph) (ph_status ph) (ph_note ph)
    (ph_size ph) (ph_started_at ph) (ph_completed_at ph) (ph_created_at ph) now.

(** [UPDATE plan_phases SET position = position + d WHERE plan_id = $1 AND ... AND id <> $4] *)
Definition shift_phases (plan_id moved : Uuid) (p : Z → bool) (d now : Z) (w : World) : World :=
  set_phases (map_imap (λ id ph, Some
    (if bool_decide (ph_plan ph = plan_id) && negb (bool_decide (id = moved)) && p (ph_position ph)
     then with_position (ph_position ph + d) now ph else ph)) (phases w)) w.

(** [i32::clamp] *)
Definition clamp (z lo hi : Z) : res Z :=
  if hi <? lo then panic "min > max" else Ok (Z.max lo (Z.min z hi)).

Definition move_phase (plan_id phase_id : Uuid) (old_position requested_position now : Z)
    (w : World) : res World :=
  new_position ← clamp requested_position 1 (Z.of_nat (length (phases_of plan_id w)));
  if new_position =? old_position then Ok w
  else
    let w :=
      if new_position <? old_position
      then shift_phases plan_id phase_id
             (λ p, (new_position <=? p) && (p <? old_position)) 1 now w
      else shift_phases plan_id phase_id
             (λ p, (old_position <? p) && (p <=? new_position)) (-1) now w in
    Ok (update_phase_row (λ ph, with_position new_position (ph_updated_at ph) ph) phase_id w).

(** The deferred constraint, when the transaction commits. *)
Definition positions_unique (plan_id : Uuid) (w : World) : bool :=
  bool_decide (NoDup ((λ kv, ph_position kv.2) <$> phases_of plan_id w)).

Definition phase_started (status : string) (now : Z) (started : option Z) : option Z :=
  if bool_decide (status ∈ ["in_progress"; "blocked"]) then or_else started (Some now)
  else if bool_decide (status = "pending") then None else started.

Definition phase_completed (status : string) (now : Z) (completed : option Z) : option Z :=
  if is_done status then or_else completed (Some now) else None.

Definition updated_phase (title description status : string) (note size : option string)
    (now : Z) (ph : Phase) : Phase :=
  mkPhase (ph_plan ph) (ph_position ph) title description status note size
    (phase_started status now (ph_started_at ph))
    (phase_completed status now (ph_completed_at ph)) (ph_created_at ph) now.

Definition update_phase (plan_id phase_id : Uuid) (input : UpdatePhaseInput) (actor : PlanActor)
    (now : Z) (w : World) : res World :=
  _ ← validate_actor actor;
  _ ← ensure_plan_open plan_id w;
  current ← ok_or (ph ← phases w !! phase_id;
                   if bool_decide (ph_plan ph = plan_id) then Some ph else None)
             ("phase not found: " +:+ show_uuid phase_id);
  title ← match upp_title input with
          | Some value => required_text value "phase title" MAX_TITLE_CHARS
          | None => Ok (ph_title current) end;
  description ← match upp_description input with
          | Some value => limited_text value "phase description" MAX_DESCRIPTION_CHARS
          | None => Ok (ph_description current) end;
  let status := default (ph_status current) (upp_status input) in
  _ ← validate_phase_status status;
  note ← match upp_status_note input with
         | Some value => clean_note (Some value)
         | None => Ok (ph_note current) end;
  size ← match upp_size input with
         | Some value => validate_phase_size (Some value)
         | None => Ok (ph_size current) end;
  w ← match upp_position input with
      | Some position => move_phase plan_id phase_id (ph_position current) position now w
      | None => Ok w end;
  w ← bump_revision plan_id now
        (update_phase_row (updated_phase title description status note size now) phase_id w);
  w ← insert_event plan_id (Some phase_id)
        (if bool_decide (status = ph_status current) then "phase_updated"
         else "phase_status_changed")
        actor (Some (ph_status current)) (Some status) note now w;
  if positions_unique plan_id w then Ok w else violates_unique.

Definition skipped_phase (note : option string) (now : Z) (ph : Phase) : Phase :=
  mkPhase (ph_plan ph) (ph_position ph) (ph_title ph) (ph_description ph) "skipped"
    (or_else note (ph_note ph)) (ph_size ph) (ph_started_at ph) (Some now) (ph_created_at ph) now.

Definition skip_phase (plan_id : Uuid) (actor : PlanActor) (note : option string) (now : Z)
    (w : World) (p : Uuid * Phase) : res World :=
  insert_event plan_id (Some p.1) "phase_status_changed" actor (Some (ph_status p.2))
    (Some "skipped") note now (update_phase_row (skipped_phase note now) p.1 w).

Definition unfinished_phases (plan_id : Uuid) (w : World) : list (Uuid * Phase) :=
  filter (λ kv, is_done (ph_status kv.2) = false) (ordered_phases plan_id w).

Definition skip_remaining_phases (plan_id : Uuid) (actor : PlanActor) (note : option string)
    (now : Z) (w : World) : res World :=
  try_fold (skip_phase plan_id actor note now) (unfinished_phases plan_id w) w.

(** ** Phase references *)

Definition digit_value (c : Ascii.ascii) : option Z :=
  let n := Z.of_N (Ascii.N_of_ascii c) in
  if (48 <=? n) && (n <=? 57) then Some (n - 48) else None.

Fixpoint parse_digits (s : string) (acc : Z) : option Z :=
  match s with
  | EmptyString => Some acc
  | String c s => d ← digit_value c; parse_digits s (10 * acc + d)
  end.

(** [str::parse::<i32>]: an optional sign, at least one digit, in range. *)
Definition parse_i32 (s : string) : option Z :=
  let '(sign, digits) := match s with
    | String c rest =>
        if Ascii.eqb c (Ascii.ascii_of_nat 43) then (1, rest)
        else if Ascii.eqb c (Ascii.ascii_of_nat 45) then (-1, rest) else (1, s)
    | EmptyString => (1, s) end in
  if is_empty digits then None
  else n ← parse_digits digits 0;
       if (- 2 ^ 31 <=? sign * n) && (sign * n <? 2 ^ 31) then Some (sign * n) else None.

Definition resolve_phase_id (plan_id : Uuid) (reference : string) (w : World) : res Uuid :=
  match parse_uuid reference with
  | Some id =>
      ok_or (ph ← phases w !! id;
             if bool_decide (ph_plan ph = plan_id) then Some id else None)
        ("phase not found in parent plan: " +:+ reference)
  | None =>
      position ← ok_or (parse_i32 reference) "phase must be a UUID or 1-based position";
      ok_or (fst <$> List.find (λ kv, ph_position kv.2 =? position) (phases_of plan_id w))
        ("phase not found at position " +:+ pretty position)
  end.

Definition current_rank (status : string) : Z := if bool_decide (status = "blocked") then 0 else 1.

Definition current_le (a b : Uuid * Phase) : Prop :=
  current_rank (ph_status a.2) < current_rank (ph_status b.2)
  ∨ (current_rank (ph_status a.2) = current_rank (ph_status b.2) ∧ position_le a b).

#[export] Instance current_le_dec a b : Decision (current_le a b).
Proof. unfold current_le. apply _. Defined.

(** The phase [plan current] reports: a blocked one first, then the first in
    progress. *)
Definition current_phase (plan_id : Uuid) (w : World) : option (Uuid * Phase) :=
  head (merge_sort current_le
          (filter (λ kv, ph_status kv.2 ∈ ["in_progress"; "blocked"]) (phases_of plan_id w))).

Definition push_new (out : list Uuid) (id : Uuid) : list Uuid :=
  if bool_decide (id ∈ out) then out else out ++ [id].

Definition resolve_anchor_phases (parent : Uuid) (refs : list string) (w : World)
    : res (list Uuid) :=
  match refs with
  | [] =>
      id ← ok_or (fst <$> current_phase parent w)
             "parent plan has no phase in progress; name the phases with parent_phase_refs";
      Ok [id]
  | _ =>
      try_fold (λ out reference, id ← resolve_phase_id parent reference w; Ok (push_new out id))
        refs []
  end.

Definition branch_note (title : string) (note : option string) : string :=
  match note with
  | Some note => "branched to " +:+ quote_char +:+ title +:+ quote_char +:+ ": " +:+ note
  | None => "branched to " +:+ quote_char +:+ title +:+ quote_char
  end.

Definition insert_anchor (plan_id phase_id : Uuid) (w : World) : res World :=
  if bool_decide ((plan_id, phase_id) ∈ anchors w) then violates_unique
  else Ok (set_anchors ({[(plan_id, phase_id)]} ∪ anchors w) w).

(** A pending phase whose work has moved into a branch is under way. *)
Definition start_anchor (now : Z) (ph : Phase) : Phase :=
  if bool_decide (ph_status ph = "pending")
  then mkPhase (ph_plan ph) (ph_position ph) (ph_title ph) (ph_description ph) "in_progress"
         (ph_note ph) (ph_size ph) (or_else (ph_started_at ph) (Some now)) (ph_completed_at ph)
         (ph_created_at ph) now
  else ph.

Definition anchor_phase (plan_id parent : Uuid) (title : string) (note : option string)
    (actor : PlanActor) (now : Z) (w : World) (anchor : Uuid) : res World :=
  w ← insert_anchor plan_id anchor w;
  insert_event parent (Some anchor) "branch_opened" actor None None
    (Some (branch_note title note)) now (update_phase_row (start_anchor now) anchor w).

Definition branch (ids : nat → Uuid) (parent : Uuid) (input : BranchPlanInput)
    (actor : PlanActor) (now : Z) (w : World) : res World :=
  _ ← validate_actor actor;
  title ← required_text (br_title input) "plan title" MAX_TITLE_CHARS;
  summary ← limited_text (br_summary input) "plan summary" MAX_SUMMARY_CHARS;
  guidance ← validated (br_guidance input);
  note ← clean_note (br_note input);
  new_phases ← validate_new_phases (br_phases input) (br_all_pending input);
  _ ← ensure_plan_open parent w;
  p ← ok_or (plans w !! parent) "no rows returned by a query that expected to return at least one row";
  let depth := pl_depth p + 1 in
  if MAX_BRANCH_DEPTH <? depth
  then bail ("branch depth " +:+ pretty depth +:+ " exceeds the maximum of "
             +:+ pretty MAX_BRANCH_DEPTH +:+ "; close a branch before opening another")
  else
    found ← resolve_anchor_phases parent (br_parent_phase_refs input) w;
    let plan_id := ids 0%nat in
    w ← insert_plan plan_id (pl_repo_name p) title summary guidance (Some parent) (pl_root p)
          depth actor now w;
    w ← insert_phases plan_id (λ i, ids (S i)) new_phases actor now w;
    w ← try_fold (anchor_phase plan_id parent title note actor now) found w;
    w ← bump_revision parent now w;
    match actor_pty actor with
    | Some pty => attach_in_tx plan_id pty actor false now w
    | None => Ok w
    end.

(** ** Closing *)

Definition anchored (plan_id : Uuid) (w : World) (phase_id : Uuid) : bool :=
  bool_decide ((plan_id, phase_id) ∈ anchors w).

Definition release_phase (now : Z) (ph : Phase) : Phase :=
  mkPhase (ph_plan ph) (ph_position ph) (ph_title ph) (ph_description ph) "in_progress"
    (ph_note ph) (ph_size ph) (ph_started_at ph) (ph_completed_at ph) (ph_created_at ph) now.

(** The blocked anchors of a completed branch. *)
Definition blocked_anchors (plan_id : Uuid) (w : World) : list (Uuid * Phase) :=
  filter (λ kv, ph_status kv.2 = "blocked" ∧ anchored plan_id w kv.1 = true) (map_to_list (phases w)).

Definition release_anchors (plan_id parent : Uuid) (actor : PlanActor) (note : option string)
    (now : Z) (w : World) : res World :=
  let released := blocked_anchors plan_id w in
  let w := foldr (λ kv w, update_phase_row (release_phase now) kv.1 w) w released in
  try_fold (λ w kv, insert_event parent (Some kv.1) "phase_status_changed" actor (Some "blocked")
                      (Some "in_progress") (Some (default "branch completed" note)) now w)
    released w.

Definition attached_le (a b : Attachment) : Prop := attached_at a ≤ attached_at b.

#[export] Instance attached_le_dec a b : Decision (attached_le a b).
Proof. unfold attached_le. apply _. Defined.

(** The live attachments of a plan, [ORDER BY attached_at]. *)
Definition live_attachments (plan_id : Uuid) (w : World) : list Attachment :=
  merge_sort attached_le
    (filter (λ a, is_live a = true ∧ at_plan a = plan_id) (attachments w)).

(** A terminal that exited while its branch was open has nothing to pop to. *)
Definition pop_pty (parent : Uuid) (actor : PlanActor) (now : Z) (w : World) (pty : Uuid)
    : res World :=
  if is_some (live_pty pty w) then attach_in_tx parent pty actor false now w else Ok w.

Definition parent_open (parent : option Uuid) (w : World) : option Uuid :=
  id ← parent; p ← plans w !! id; if is_open (pl_status p) then Some id else None.

Definition close_branch_into_parent (plan_id : Uuid) (parent : option Uuid) (status : string)
    (actor : PlanActor) (note : option string) (now : Z) (w : World) : res World :=
  let here a := bool_decide (at_plan a = plan_id) in
  match parent_open parent w with
  | None => Ok (detach_where here now w)
  | Some parent_id =>
      w ← (if bool_decide (status = "completed")
           then release_anchors plan_id parent_id actor note now w else Ok w);
      let ptys := at_pty <$> live_attachments plan_id w in
      w ← try_fold (pop_pty parent_id actor now) ptys (detach_where here now w);
      w ← bump_revision parent_id now w;
      insert_event parent_id None "branch_closed" actor None (Some status) note now w
  end.

Definition open_branches (plan_id : Uuid) (w : World) : list (Uuid * Plan) :=
  filter (λ kv, pl_parent kv.2 = Some plan_id ∧ is_open (pl_status kv.2) = true)
    (map_to_list (plans w)).

Definition created_le (a b : Uuid * Plan) : Prop := pl_created_at a.2 ≤ pl_created_at b.2.

#[export] Instance created_le_dec a b : Decision (created_le a b).
Proof. unfold created_le. apply _. Defined.

Definition updated_plan (title summary status : string) (guidance : PlanGuidance)
    (revision now : Z) (p : Plan) : Plan :=
  mkPlan (pl_repo_name p) title summary guidance status revision (pl_parent p) (pl_root p)
    (pl_depth p) (pl_created_by_pty p) (pl_created_by_session p) (pl_created_at p) now
    (if is_closed status then or_else (pl_closed_at p) (Some now) else None).

(** A plan is closed bottom-up, and completed only with its phases done or
    explicitly skipped. *)
Definition may_close (plan_id : Uuid) (status : string) (skip_remaining : bool) (w : World)
    : res unit :=
  if is_closed status && negb (bool_decide (length (open_branches plan_id w) = 0%nat))
  then bail ("plan has " +:+ pretty (Z.of_nat (length (open_branches plan_id w)))
             +:+ " open branch(es): "
             +:+ join ", " ((λ kv, pl_title kv.2) <$> merge_sort created_le (open_branches plan_id w))
             +:+ "; close them first")
  else
    let unfinished := Z.of_nat (length (unfinished_phases plan_id w)) in
    if bool_decide (status = "completed") && (0 <? unfinished) && negb skip_remaining
    then bail ("plan has " +:+ pretty unfinished
               +:+ " unfinished phase(s); use skip_remaining to complete it")
    else Ok ().

Definition update (plan_id : Uuid) (input : UpdatePlanInput) (actor : PlanActor) (now : Z)
    (w : World) : res World :=
  _ ← validate_actor actor;
  current ← ok_or (plans w !! plan_id) ("plan not found: " +:+ show_uuid plan_id);
  title ← match up_title input with
          | Some value => required_text value "plan title" MAX_TITLE_CHARS
          | None => Ok (pl_title current) end;
  summary ← match up_summary input with
            | Some value => limited_text value "plan summary" MAX_SUMMARY_CHARS
            | None => Ok (pl_summary current) end;
  guidance ← with_update (pl_guidance current) input;
  let status := default (pl_status current) (up_status input) in
  _ ← validate_plan_status status;
  note ← clean_note (up_note input);
  if up_require_branch input && is_none (pl_parent current)
  then bail "this plan is not a branch; close it with plan close instead of plan return"
  else
    _ ← may_close plan_id status (up_skip_remaining input) w;
    w ← (if is_closed status && up_skip_remaining input
         then skip_remaining_phases plan_id actor note now w else Ok w);
    revision ← pg_bigint (pl_revision current + 1);
    let w := update_plan_row (updated_plan title summary status guidance revision now) plan_id w in
    w ← record_change plan_id actor (Some (pl_guidance current)) guidance note now w;
    w ← insert_event plan_id None
          (if bool_decide (status = pl_status current) then "plan_updated"
           else if is_closed status then "plan_closed" else "plan_status_changed")
          actor (Some (pl_status current)) (Some status) note now w;
    if is_closed status
    then close_branch_into_parent plan_id (pl_parent current) status actor note now w
    else Ok w.
End plans.
