(* ===== verification/PlanInv.v ===== *)
(** * The invariant of published plans

    What every history of [Plans] keeps: a tree of plans of bounded depth,
    phases numbered from one, terminals attached to open plans only, anchors
    in the parent, completed plans with their phases done, and a log from
    which the status of every phase without branches can be replayed. *)

From S2P Require Import Prelude Text Plans.

(** ** What the invariant reads *)

(** The columns of a plan that place it in its tree, and its status. *)
Record Skel : Type := mkSkel {
  sk_repo : string;
  sk_status : string;
  sk_parent : option Uuid;
  sk_root : Uuid;
  sk_depth : Z;
}.

Definition skel (p : Plan) : Skel :=
  mkSkel (pl_repo_name p) (pl_status p) (pl_parent p) (pl_root p) (pl_depth p).

Definition skels (w : World) : gmap Uuid Skel := skel <$> plans w.
Arguments skels : simpl never.

(** The status a log entry gives a phase, as the flow metrics read it. *)
Definition transition (e : PlanEvent) : option (Uuid * Uuid * string) :=
  id ← pe_phase e; s ← to_status e;
  if bool_decide (pe_type e ∈ ["phase_added"; "phase_status_changed"; "phase_updated"])
  then Some (pe_plan e, id, s) else None.

Definition transitions (l : list PlanEvent) : list (Uuid * Uuid * string) := omap transition l.

(** The last status logged for a phase. *)
Definition last_status (id : Uuid) (l : list PlanEvent) : option string :=
  (λ t, t.2) <$> last (filter (λ t, t.1.2 = id) (transitions l)).

Definition positions (plan_id : Uuid) (ph : gmap Uuid Phase) : list Z :=
  (λ kv, ph_position kv.2) <$> filter (λ kv, ph_plan kv.2 = plan_id) (map_to_list ph).

(** ** The invariant *)

Record skel_ok (sk : gmap Uuid Skel) (id : Uuid) (s : Skel) : Prop := {
  so_status : sk_status s ∈ PLAN_STATUSES;
  so_depth : 0 ≤ sk_depth s ≤ MAX_BRANCH_DEPTH;
  so_parent : match sk_parent s with
    | None => sk_root s = id ∧ sk_depth s = 0
    | Some q => ∃ t, sk !! q = Some t ∧ sk_depth s = sk_depth t + 1 ∧ sk_root s = sk_root t
                     ∧ sk_repo s = sk_repo t
    end;
}.

Definition tree_ok (sk : gmap Uuid Skel) : Prop := map_Forall (skel_ok sk) sk.

Definition phases_ok (sk : gmap Uuid Skel) (ph : gmap Uuid Phase) : Prop :=
  map_Forall (λ _ x, is_Some (sk !! ph_plan x) ∧ ph_status x ∈ PHASE_STATUSES) ph.

Definition positions_ok (ph : gmap Uuid Phase) : Prop := ∀ plan_id,
  positions plan_id ph ≡ₚ seqZ 1 (Z.of_nat (length (positions plan_id ph))).

(** The live attachments, except those of a plan being closed. *)
Definition live (att : list Attachment) : list Attachment := filter (λ a, is_live a = true) att.

Definition attached_ok (but : option Uuid) (sk : gmap Uuid Skel) (att : list Attachment) : Prop :=
  NoDup (at_pty <$> live att) ∧
  ∀ a, a ∈ live att → but ≠ Some (at_plan a) →
    ∃ s, sk !! at_plan a = Some s ∧ is_open (sk_status s) = true.

Definition anchors_ok (sk : gmap Uuid Skel) (ph : gmap Uuid Phase) (an : gset (Uuid * Uuid)) : Prop :=
  ∀ b id, (b, id) ∈ an → ∃ s x,
    sk !! b = Some s ∧ ph !! id = Some x ∧ sk_parent s = Some (ph_plan x).

Definition done_ok (sk : gmap Uuid Skel) (ph : gmap Uuid Phase) : Prop := ∀ id x s,
  ph !! id = Some x → sk !! ph_plan x = Some s → sk_status s = "completed" →
  is_done (ph_status x) = true.

Definition leaf (id : Uuid) (an : gset (Uuid * Uuid)) : Prop := ∀ b, (b, id) ∉ an.

Record log_ok (ph : gmap Uuid Phase) (an : gset (Uuid * Uuid)) (log : list PlanEvent) : Prop := {
  lo_known p id s : (p, id, s) ∈ transitions log → ∃ x, ph !! id = Some x ∧ ph_plan x = p;
  lo_valid : Forall (λ t, t.2 ∈ PHASE_STATUSES) (transitions log);
  lo_last id x : ph !! id = Some x → leaf id an → last_status id log = Some (ph_status x);
}.

(** Nothing is later than the last transaction, and the log is in order. *)
Record times_ok (ph : gmap Uuid Phase) (log : list PlanEvent) (t : Z) : Prop := {
  to_sorted : Sorted Z.le (pe_created_at <$> log);
  to_log : Forall (λ e, pe_created_at e ≤ t) log;
  to_phases : map_Forall (λ _ x, ph_created_at x ≤ t) ph;
}.

Record inv (but : option Uuid) (t : Z) (w : World) : Prop := {
  in_tree : tree_ok (skels w);
  in_phases : phases_ok (skels w) (phases w);
  in_positions : positions_ok (phases w);
  in_attached : attached_ok but (skels w) (attachments w);
  in_anchors : anchors_ok (skels w) (phases w) (anchors w);
  in_done : done_ok (skels w) (phases w);
  in_log : log_ok (phases w) (anchors w) (plan_events w);
  in_times : times_ok (phases w) (plan_events w) t;
}.

(** ** The log *)

Lemma transitions_app l1 l2 : transitions (l1 ++ l2) = transitions l1 ++ transitions l2.
Proof. apply omap_app. Qed.

Lemma transitions_one e : transitions [e] = match transition e with Some t => [t] | None => [] end.
Proof. done. Qed.

Lemma last_status_other id l e :
  (∀ p s, transition e ≠ Some (p, id, s)) → last_status id (l ++ [e]) = last_status id l.
Proof.
  intros He. unfold last_status. rewrite transitions_app, filter_app.
  assert (filter (λ t : Uuid * Uuid * string, t.1.2 = id) (transitions [e]) = []) as ->;
    [|by rewrite app_nil_r].
  unfold transitions. cbn. destruct (transition e) as [[[p id'] s]|]; [|done].
  rewrite filter_cons. case_decide as Hid; [|done]. cbn in Hid. subst. by destruct (He p s).
Qed.

Lemma last_status_here p id s l e :
  transition e = Some (p, id, s) → last_status id (l ++ [e]) = Some s.
Proof.
  intros He. unfold last_status. rewrite transitions_app, filter_app.
  assert (filter (λ t : Uuid * Uuid * string, t.1.2 = id) (transitions [e]) = [(p, id, s)]) as ->.
  { unfold transitions. cbn. rewrite He. cbn. by rewrite decide_True. }
  by rewrite last_snoc.
Qed.

Lemma log_ok_quiet ph an l e : log_ok ph an l → transition e = None → log_ok ph an (l ++ [e]).
Proof.
  intros [H1 HV H2] He.
  assert (E : transitions (l ++ [e]) = transitions l)
    by (rewrite transitions_app, transitions_one, He; apply app_nil_r).
  split; rewrite ?E; [exact H1|exact HV|].
  intros id x Hx Hl. rewrite last_status_other by (intros; congruence). by apply H2.
Qed.

Lemma times_ok_event ph l t e :
  times_ok ph l t → t ≤ pe_created_at e → times_ok ph (l ++ [e]) (pe_created_at e).
Proof.
  intros [H1 H2 H3] Ht. split.
  - rewrite fmap_app. cbn. induction l as [|a l IH]; cbn in *; [by repeat constructor|].
    apply Sorted_inv in H1 as [H1 Hhd].
    apply Forall_cons in H2 as [Ha H2]. constructor; [by apply IH|].
    destruct l; cbn in *; constructor; [lia|by inversion Hhd].
  - apply Forall_app. split; [|by repeat constructor].
    eapply Forall_impl; [exact H2|]. intros ?; cbn. lia.
  - eapply map_Forall_impl; [exact H3|]. intros ??; cbn. lia.
Qed.

Lemma times_ok_later ph l t t' : times_ok ph l t → t ≤ t' → times_ok ph l t'.
Proof.
  intros [H1 H2 H3] Ht. split; [done| |].
  - eapply Forall_impl; [exact H2|]. intros ?; cbn. lia.
  - eapply map_Forall_impl; [exact H3|]. intros ??; cbn. lia.
Qed.

(** ** Statements that leave the rows alone *)

Lemma inv_later but t t' w : inv but t w → t ≤ t' → inv but t' w.
Proof. intros [] ?. split; try done. by eapply times_ok_later. Qed.

Lemma inv_frame but t w w' : inv but t w → skels w' = skels w → phases w' = phases w →
  attachments w' = attachments w → anchors w' = anchors w → plan_events w' = plan_events w →
  inv but t w'.
Proof. intros [] E1 E2 E3 E4 E5. split; by rewrite ?E1, ?E2, ?E3, ?E4, ?E5. Qed.

Lemma insert_event_row_Ok e w w' : insert_event_row e w = Ok w' →
  w' = set_plan_events (plan_events w ++ [e]) w.
Proof. unfold insert_event_row. by destruct (_ && _); [intros [= <-]|]. Qed.

Lemma inv_event_row but now e w w' : inv but now w → insert_event_row e w = Ok w' →
  transition e = None → pe_created_at e = now → inv but now w'.
Proof.
  intros [] ->%insert_event_row_Ok He Ht. split; cbn; try done.
  - by apply log_ok_quiet.
  - subst now. by eapply times_ok_event.
Qed.

Lemma skels_update f plan_id w :
  (∀ p, plans w !! plan_id = Some p → skel (f p) = skel p) → skels (update_plan_row f plan_id w) = skels w.
Proof.
  intros Hf. unfold skels. cbn. apply map_eq. intros id. rewrite !lookup_fmap.
  destruct (decide (id = plan_id)) as [->|]; [|by rewrite lookup_alter_ne].
  rewrite lookup_alter_eq. destruct (plans w !! plan_id) eqn:E; cbn; [|done]. by rewrite Hf.
Qed.

Lemma bump_revision_Ok plan_id now w w' : bump_revision plan_id now w = Ok w' →
  ∃ r, w' = update_plan_row (with_revision r now) plan_id w.
Proof.
  unfold bump_revision. destruct (plans w !! plan_id) as [p|] eqn:E.
  - intros (r & _ & [= <-])%res_bind_Ok. by exists r.
  - intros [= <-]. exists 0. unfold update_plan_row, set_plans.
    rewrite alter_alt, E. by destruct w.
Qed.

Lemma inv_bump but t plan_id now w w' :
  inv but t w → bump_revision plan_id now w = Ok w' → inv but t w'.
Proof.
  intros Hi (r & ->)%bump_revision_Ok. eapply inv_frame; [exact Hi| |done..].
  by apply skels_update.
Qed.

Lemma inv_event but now plan_id phase_id ty actor from to n w w' :
  inv but now w → insert_event plan_id phase_id ty actor from to n now w = Ok w' →
  (phase_id = None ∨ to = None) → inv but now w'.
Proof.
  intros Hi He Hq. eapply inv_event_row; [exact Hi|exact He| |done].
  unfold transition. cbn. destruct Hq as [->| ->]; [done|]. by destruct phase_id.
Qed.

Lemma inv_record_change but now plan_id actor before after n w w' :
  inv but now w → record_change plan_id actor before after n now w = Ok w' → inv but now w'.
Proof.
  unfold record_change. intros Hi. destruct (_ || _); [by intros [= <-]|].
  intros He. by eapply inv_event_row.
Qed.

(** ** Plans *)

Lemma inv_plan_insert but now id p w : inv but now w → plans w !! id = None →
  skel_ok (skels w) id (skel p) → inv but now (set_plans (<[id := p]> (plans w)) w).
Proof.
  intros [] Hid Hp. assert (Hnone : skels w !! id = None) by (unfold skels; by rewrite lookup_fmap, Hid).
  assert (Hsub : skels w ⊆ <[id := skel p]> (skels w)) by by apply insert_subseteq.
  assert (Hsk : skels (set_plans (<[id := p]> (plans w)) w) = <[id := skel p]> (skels w)).
  { unfold skels. cbn. by rewrite fmap_insert. }
  assert (Hmono : ∀ q s, skel_ok (skels w) q s → skel_ok (<[id := skel p]> (skels w)) q s).
  { intros q s [S1 S2 S3]. split; [done|done|]. destruct (sk_parent s); [|done].
    destruct S3 as (t & Ht & ?). exists t. split; [|done]. by eapply lookup_weaken. }
  split; rewrite ?Hsk; cbn; try done.
  - intros q s. rewrite lookup_insert_Some. intros [[<- <-]|[_ Hq]]; [by apply Hmono|].
    by apply Hmono, in_tree0.
  - intros q x Hx. destruct (in_phases0 q x Hx) as [[s Hs] ?]. split; [|done].
    exists s. by eapply lookup_weaken.
  - destruct in_attached0 as [N O]. split; [done|]. intros a Ha Hb.
    destruct (O a Ha Hb) as (s & Hs & ?). exists s. split; [|done]. by eapply lookup_weaken.
  - intros b x Hbx. destruct (in_anchors0 b x Hbx) as (s & y & Hs & ?). exists s, y.
    split; [|done]. by eapply lookup_weaken.
  - intros q x s Hx Hs. destruct (in_phases0 q x Hx) as [[s' Hs'] _].
    assert (s' = s) as -> by (pose proof (lookup_weaken _ _ _ _ Hs' Hsub); congruence).
    by eapply in_done0.
Qed.

Lemma skels_status f plan_id p w : plans w !! plan_id = Some p →
  skels (update_plan_row f plan_id w) = <[plan_id := skel (f p)]> (skels w).
Proof.
  intros Hp. unfold skels. cbn. by rewrite alter_alt, Hp, fmap_insert.
Qed.

(** A new status; the plan's attachments, if it closes, are still there. *)
Lemma inv_plan_status now f plan_id p w : inv None now w → plans w !! plan_id = Some p →
  sk_repo (skel (f p)) = sk_repo (skel p) → sk_parent (skel (f p)) = sk_parent (skel p) →
  sk_root (skel (f p)) = sk_root (skel p) → sk_depth (skel (f p)) = sk_depth (skel p) →
  pl_status (f p) ∈ PLAN_STATUSES →
  (pl_status (f p) = "completed" → ∀ id x, phases w !! id = Some x → ph_plan x = plan_id →
     is_done (ph_status x) = true) →
  inv (if is_open (pl_status (f p)) then None else Some plan_id) now (update_plan_row f plan_id w).
Proof.
  intros [] Hp E1 E2 E3 E4 Hs Hd.
  assert (Hps : skels w !! plan_id = Some (skel p)) by (unfold skels; by rewrite lookup_fmap, Hp).
  assert (Hlk : ∀ q t, skels w !! q = Some t → ∃ t', <[plan_id := skel (f p)]> (skels w) !! q = Some t' ∧
    sk_repo t' = sk_repo t ∧ sk_parent t' = sk_parent t ∧ sk_root t' = sk_root t ∧
    sk_depth t' = sk_depth t ∧ (q ≠ plan_id → t' = t)).
  { intros q t Hq. destruct (decide (q = plan_id)) as [->|Hne].
    - rewrite lookup_insert_eq. eexists. split; [done|]. assert (t = skel p) as -> by congruence.
      by split_and!.
    - rewrite lookup_insert_ne by done. exists t. by split_and!. }
  split; rewrite ?(skels_status _ _ _ _ Hp); cbn; try done.
  - intros q s. rewrite lookup_insert_Some.
    assert (Hgen : ∀ s0, skel_ok (skels w) q s0 → sk_status s ∈ PLAN_STATUSES →
      sk_repo s = sk_repo s0 → sk_parent s = sk_parent s0 → sk_root s = sk_root s0 →
      sk_depth s = sk_depth s0 → skel_ok (<[plan_id := skel (f p)]> (skels w)) q s).
    { intros s0 [S1 S2 S3] Hst H1 H2 H3 H4. split; [done|by rewrite H4|]. rewrite H1, H2, H3, H4.
      destruct (sk_parent s0) as [r|]; [|done]. destruct S3 as (t & Ht & ? & ? & ?).
      destruct (Hlk r t Ht) as (t' & Ht' & R & _ & Ro & D & _). exists t'.
      split; [done|]. rewrite D, Ro, R. done. }
    intros [[<- <-]|[_ Hq]].
    + apply (Hgen (skel p)); [by apply in_tree0|done..].
    + apply (Hgen s); [by apply in_tree0|by apply (in_tree0 q s Hq)|done..].
  - intros q x Hx. destruct (in_phases0 q x Hx) as [[s Hq] ?]. split; [|done].
    destruct (Hlk _ _ Hq) as (s' & ? & _). by exists s'.
  - destruct in_attached0 as [N O]. split; [done|]. intros a Ha Hb.
    destruct (O a Ha ltac:(done)) as (s & Hq & Ho). destruct (Hlk _ _ Hq) as (s' & Hs' & _ & _ & _ & _ & Hne).
    exists s'. split; [done|]. destruct (decide (at_plan a = plan_id)) as [Ea|]; [|by rewrite Hne].
    rewrite Ea, lookup_insert_eq in Hs'. simplify_eq.
    destruct (is_open (pl_status (f p))) eqn:Eo; [exact Eo|done].
  - intros b x Hbx. destruct (in_anchors0 b x Hbx) as (s & y & Hq & ? & Hpar).
    destruct (Hlk _ _ Hq) as (s' & ? & _ & P & _). exists s', y. by rewrite P.
  - intros q x s Hx. rewrite lookup_insert_Some. intros [[E <-]|[Hne Hq]] Hc.
    + by apply (Hd Hc q x).
    + by eapply in_done0.
Qed.

(** ** Positions *)

Lemma positions_insert plan_id id x ph : ph !! id = None →
  positions plan_id (<[id := x]> ph) ≡ₚ
  (if decide (ph_plan x = plan_id) then [ph_position x] else []) ++ positions plan_id ph.
Proof.
  intros Hid. unfold positions. rewrite (map_to_list_insert _ _ _ Hid), filter_cons.
  cbn. by case_decide.
Qed.

Lemma positions_alter plan_id id f ph :
  (∀ x, ph !! id = Some x → ph_plan (f x) = ph_plan x ∧ ph_position (f x) = ph_position x) →
  positions plan_id (alter f id ph) ≡ₚ positions plan_id ph.
Proof.
  intros Hf. rewrite alter_alt. destruct (ph !! id) as [x|] eqn:E; [|done].
  destruct (Hf x eq_refl) as [E1 E2].
  rewrite <-insert_delete_eq, positions_insert by apply lookup_delete_eq.
  rewrite <-(insert_delete_id _ _ _ E) at 2. rewrite positions_insert by apply lookup_delete_eq.
  by rewrite E1, E2.
Qed.

Lemma positions_ok_perm ph ph' :
  (∀ plan_id, positions plan_id ph' ≡ₚ positions plan_id ph) → positions_ok ph → positions_ok ph'.
Proof. intros Hp H plan_id. rewrite Hp. apply H. Qed.

Lemma positions_range ph plan_id z : positions_ok ph → z ∈ positions plan_id ph →
  1 ≤ z ≤ Z.of_nat (length (positions plan_id ph)).
Proof. intros H Hz. apply (elem_of_Permutation_proper _ _ _ (H plan_id)), elem_of_seqZ in Hz. lia. Qed.

Lemma elem_of_positions ph plan_id id x :
  ph !! id = Some x → ph_plan x = plan_id → ph_position x ∈ positions plan_id ph.
Proof.
  intros Hx Hp. apply list_elem_of_fmap. exists (id, x). split; [done|].
  apply list_elem_of_filter. split; [done|]. by apply elem_of_map_to_list.
Qed.

Lemma NoDup_fmap_inj_on {A B} (f : A → B) (l : list A) a b :
  NoDup (f <$> l) → a ∈ l → b ∈ l → f a = f b → a = b.
Proof.
  induction l as [|c l IH]; [by intros _ ?%elem_of_nil|]. rewrite fmap_cons.
  intros [Hc Hn]%NoDup_cons [->|Ha]%elem_of_cons [->|Hb]%elem_of_cons E; [done| | |by apply IH];
    exfalso; apply Hc.
  - rewrite E. by apply list_elem_of_fmap_2.
  - rewrite <-E. by apply list_elem_of_fmap_2.
Qed.

(** A new phase takes the next position. *)
Lemma positions_ok_insert ph id x : positions_ok ph → ph !! id = None →
  ph_position x = Z.of_nat (length (positions (ph_plan x) ph)) + 1 → positions_ok (<[id := x]> ph).
Proof.
  intros H Hid Hx plan_id. rewrite positions_insert by done. case_decide as Hp; [|apply H].
  subst plan_id. cbn [app length]. rewrite (H (ph_plan x)) at 1. rewrite Hx.
  rewrite seqZ_S, Permutation_app_comm. cbn. by rewrite Z.add_comm.
Qed.

(** Positions are those of the rows, whatever else they hold. *)
Definition place (x : Phase) : Uuid * Z := (ph_plan x, ph_position x).

Lemma positions_place plan_id ph :
  positions plan_id ph = snd <$> (filter (λ pz, pz.1 = plan_id) (snd <$> map_to_list (place <$> ph))).
Proof.
  unfold positions. rewrite map_to_list_fmap, <-!list_fmap_compose.
  rewrite filter_fmap_comm, <-list_fmap_compose. done.
Qed.

Lemma positions_ext plan_id ph ph' : place <$> ph = place <$> ph' →
  positions plan_id ph = positions plan_id ph'.
Proof. intros E. by rewrite !positions_place, E. Qed.

(** Where a move from [old] to [new] puts the phase at [p]. *)
Definition moved (old new p : Z) : Z :=
  if p =? old then new
  else if (new <=? p) && (p <? old) then p + 1
  else if (old <? p) && (p <=? new) then p - 1
  else p.

Definition move_place (plan_id : Uuid) (old new : Z) (pz : Uuid * Z) : Uuid * Z :=
  if bool_decide (pz.1 = plan_id) then (pz.1, moved old new pz.2) else pz.

Ltac moved_cases :=
  unfold moved in *;
  repeat match goal with
  | |- context [if ?b then _ else _] => destruct b eqn:?
  | H : context [if ?b then _ else _] |- _ => destruct b eqn:?
  end; lia.

Lemma moved_perm n old new : 1 ≤ old ≤ n → 1 ≤ new ≤ n →
  moved old new <$> seqZ 1 n ≡ₚ seqZ 1 n.
Proof.
  intros Ho Hn. apply NoDup_Permutation.
  - apply NoDup_fmap_2_strong; [|apply NoDup_seqZ].
    intros x y _ _ E. moved_cases.
  - apply NoDup_seqZ.
  - intros z. rewrite list_elem_of_fmap, elem_of_seqZ. split.
    + intros (y & -> & Hy%elem_of_seqZ). moved_cases.
    + intros Hz. exists (moved new old z). rewrite elem_of_seqZ. moved_cases.
Qed.

Lemma positions_ok_move ph ph' plan_id old new : positions_ok ph →
  old ∈ positions plan_id ph → 1 ≤ new ≤ Z.of_nat (length (positions plan_id ph)) →
  place <$> ph' = move_place plan_id old new <$> (place <$> ph) → positions_ok ph'.
Proof.
  intros Hok Hold Hnew E q. pose proof (positions_range _ _ _ Hok Hold) as Hr.
  assert (positions q ph' = if decide (q = plan_id) then moved old new <$> positions q ph
                            else positions q ph) as ->.
  { rewrite !positions_place, E, map_to_list_fmap, <-list_fmap_compose.
    change (snd ∘ prod_map id (move_place plan_id old new)) with
      (move_place plan_id old new ∘ (snd : Uuid * (Uuid * Z) → _)).
    rewrite list_fmap_compose. generalize (snd <$> map_to_list (place <$> ph)). intros l.
    rewrite filter_fmap_comm, <-list_fmap_compose.
    assert (∀ pz, (move_place plan_id old new pz).1 = pz.1) as Hfst
      by (intros pz; unfold move_place; by case_bool_decide).
    rewrite (filter_ext_in _ (λ pz, pz.1 = q)) by (intros pz _; by rewrite Hfst).
    case_decide as Hq.
    - subst q. rewrite <-list_fmap_compose. apply list_fmap_ext. intros i pz Hpz.
      apply list_elem_of_lookup_2, list_elem_of_filter in Hpz as [Hpz _].
      cbn. unfold move_place. by rewrite bool_decide_true.
    - apply list_fmap_ext. intros i pz Hpz.
      apply list_elem_of_lookup_2, list_elem_of_filter in Hpz as [Hpz _].
      cbn. unfold move_place. by rewrite bool_decide_false by congruence. }
  case_decide as Hq; [|apply Hok]. subst q. rewrite length_fmap, (Hok plan_id) at 1.
  by apply moved_perm.
Qed.

(** ** Phases *)

Lemma inv_phase_insert but now id x e w : inv but now w → phases w !! id = None →
  is_Some (skels w !! ph_plan x) → ph_status x ∈ PHASE_STATUSES →
  ph_position x = Z.of_nat (length (positions (ph_plan x) (phases w))) + 1 →
  (∀ s, skels w !! ph_plan x = Some s → sk_status s = "completed" → is_done (ph_status x) = true) →
  ph_created_at x = now → pe_created_at e = now → transition e = Some (ph_plan x, id, ph_status x) →
  inv but now (set_plan_events (plan_events w ++ [e]) (set_phases (<[id := x]> (phases w)) w)).
Proof.
  intros [] Hid Hsk Hst Hpos Hd Hc He Ht. split; cbn; try done.
  - intros q y. rewrite lookup_insert_Some. intros [[<- <-]|[_ Hq]]; [done|exact (in_phases0 q y Hq)].
  - by apply positions_ok_insert.
  - intros b q Hb. destruct (in_anchors0 b q Hb) as (s & y & ? & Hy & ?). exists s, y.
    rewrite lookup_insert_ne by congruence. done.
  - intros q y s. rewrite lookup_insert_Some. intros [[<- <-]|[_ Hq]]; [by apply Hd|by eapply in_done0].
  - destruct in_log0 as [L1 LV L2]. split.
    + intros p q s. rewrite transitions_app, elem_of_app. intros [Hin|Hin].
      * destruct (L1 _ _ _ Hin) as (y & Hy & ?). exists y. by rewrite lookup_insert_ne by congruence.
      * unfold transitions in Hin. cbn in Hin. rewrite Ht in Hin. apply list_elem_of_singleton in Hin.
        simplify_eq. exists x. by rewrite lookup_insert_eq.
    + rewrite transitions_app, transitions_one, Ht. apply Forall_app. split; [done|]. by apply Forall_singleton.
    + intros q y. rewrite lookup_insert_Some. intros [[<- <-]|[Hne Hq]] Hl.
      * by eapply last_status_here.
      * rewrite last_status_other by (intros; congruence). by apply L2.
  - rewrite <-He. apply (times_ok_event _ _ now); [|lia]. destruct in_times0 as [T1 T2 T3].
    split; [done|done|]. intros q y. rewrite lookup_insert_Some.
    intros [[<- <-]|[_ Hq]]; [lia|by eapply T3].
Qed.

(** What a change of phases may not touch. *)
Definition fixed (x : Phase) : Uuid * Z := (ph_plan x, ph_created_at x).

Lemma inv_phases but now ph w log : inv but now w → positions_ok ph →
  (∀ id y, ph !! id = Some y → ∃ x, phases w !! id = Some x ∧ fixed y = fixed x ∧
     (ph_status y = ph_status x ∨ ph_status y ∈ PHASE_STATUSES ∧
        ∀ s, skels w !! ph_plan x = Some s → sk_status s = "completed" → is_done (ph_status y) = true)) →
  (∀ id, is_Some (phases w !! id) → is_Some (ph !! id)) →
  log_ok ph (anchors w) log → times_ok (phases w) log now →
  inv but now (set_plan_events log (set_phases ph w)).
Proof.
  intros [] Hpos Hold Hdom Hlog Htimes. split; cbn; try done.
  - intros id y Hy. destruct (Hold id y Hy) as (x & Hx & [= E1 E2] & Hst).
    destruct (in_phases0 id x Hx) as [? Hs]. rewrite E1. split; [done|].
    destruct Hst as [->|[? _]]; done.
  - intros b id Hb. destruct (in_anchors0 b id Hb) as (s & x & Hs & Hx & Hp).
    destruct (Hdom id) as [y Hy]; [by exists x|]. exists s, y.
    destruct (Hold id y Hy) as (x' & Hx' & [= E1 _] & _). simplify_eq. by rewrite E1.
  - intros id y s Hy. destruct (Hold id y Hy) as (x & Hx & [= E1 E2] & Hst). rewrite E1. intros Hs Hc.
    destruct Hst as [->|[_ Hd]]; [by eapply in_done0|by apply (Hd s)].
  - destruct Htimes as [T1 T2 T3]. split; [done|done|]. intros id y Hy.
    destruct (Hold id y Hy) as (x & Hx & [= _ ->] & _). by eapply T3.
Qed.

Lemma log_ok_update id f x an log log' ph : log_ok ph an log → ph !! id = Some x →
  ph_plan (f x) = ph_plan x → transitions log' = transitions log ∨ (∃ s, s ∈ PHASE_STATUSES ∧ transitions log' = transitions log ++ [(ph_plan x, id, s)]) →
  (∀ q, q ≠ id → last_status q log' = last_status q log) →
  (leaf id an → last_status id log' = Some (ph_status (f x))) →
  log_ok (alter f id ph) an log'.
Proof.
  intros [L1 LV L2] Hx Hp Htr Hother Hhere. split.
  - assert (Hk : ∀ q y, ph !! q = Some y → ∃ z, alter f id ph !! q = Some z ∧ ph_plan z = ph_plan y).
    { intros q y Hy. destruct (decide (q = id)) as [->|]; [|rewrite lookup_alter_ne by done; by exists y].
      rewrite lookup_alter_eq, Hy. cbn. exists (f y). simplify_eq. by split. }
    intros p q s Hin.
    assert ((p, q, s) ∈ transitions log ∨ (p = ph_plan x ∧ q = id)) as [Hin'|[-> ->]].
    { destruct Htr as [E|(s' & _ & E)]; rewrite E in Hin; [by left|].
      apply elem_of_app in Hin as [|Hin]; [by left|].
      apply list_elem_of_singleton in Hin. simplify_eq. by right. }
    + destruct (L1 _ _ _ Hin') as (y & Hy & <-). by apply Hk.
    + by apply Hk.
  - destruct Htr as [E|(s' & Hs' & E)]; rewrite E; [done|]. apply Forall_app. split; [done|].
    by apply Forall_singleton.
  - intros q y. destruct (decide (q = id)) as [->|Hne].
    + rewrite lookup_alter_eq, Hx. cbn. intros [= <-]. apply Hhere.
    + rewrite lookup_alter_ne by done. rewrite Hother by done. apply L2.
Qed.

(** A phase's columns change and the log says so. *)
Lemma inv_phase_event but now id f x e w : inv but now w → phases w !! id = Some x →
  fixed (f x) = fixed x → ph_position (f x) = ph_position x → ph_status (f x) ∈ PHASE_STATUSES →
  (∀ s, skels w !! ph_plan x = Some s → sk_status s = "completed" → is_done (ph_status (f x)) = true) →
  transition e = Some (ph_plan x, id, ph_status (f x)) → pe_created_at e = now →
  inv but now (set_plan_events (plan_events w ++ [e]) (update_phase_row f id w)).
Proof.
  intros Hi Hx Hfix Hpos Hst Hd He Ht. unfold update_phase_row.
  apply (inv_phases but now (alter f id (phases w)) w (plan_events w ++ [e])); [done|..].
  - eapply positions_ok_perm; [|apply Hi]. intros plan_id. apply positions_alter.
    intros x' Hx'. assert (x' = x) as -> by congruence. split; [exact (f_equal fst Hfix)|done].
  - intros q y. destruct (decide (q = id)) as [->|].
    + rewrite lookup_alter_eq, Hx. cbn. intros [= <-]. exists x. split_and!; [done|done|]. right. by split.
    + rewrite lookup_alter_ne by done. intros Hy. exists y. split_and!; [done|done|by left].
  - intros q Hq. by rewrite lookup_alter_is_Some.
  - eapply log_ok_update; [apply Hi|exact Hx|exact (f_equal fst Hfix)| | |].
    + right. exists (ph_status (f x)). split; [done|]. rewrite transitions_app. unfold transitions at 2. cbn. by rewrite He.
    + intros q Hq. apply last_status_other. intros; congruence.
    + intros _. by eapply last_status_here.
  - subst now. eapply times_ok_event; [apply Hi|done].
Qed.

(** An anchored phase changes and the log need not say so. *)
Lemma inv_phase_anchored but now id f x b w : inv but now w → phases w !! id = Some x →
  (b, id) ∈ anchors w → fixed (f x) = fixed x → ph_position (f x) = ph_position x →
  ph_status (f x) ∈ PHASE_STATUSES →
  (∀ s, skels w !! ph_plan x = Some s → sk_status s ≠ "completed") →
  inv but now (update_phase_row f id w).
Proof.
  intros Hi Hx Hb Hfix Hpos Hst Hd. unfold update_phase_row.
  eapply (inv_frame but now (set_plan_events (plan_events w) (set_phases (alter f id (phases w)) w)));
    [|done..].
  apply inv_phases; [done|..].
  - eapply positions_ok_perm; [|apply Hi]. intros plan_id. apply positions_alter.
    intros x' Hx'. assert (x' = x) as -> by congruence. split; [exact (f_equal fst Hfix)|done].
  - intros q y. destruct (decide (q = id)) as [->|].
    + rewrite lookup_alter_eq, Hx. cbn. intros [= <-]. exists x. split_and!; [done|done|]. right. split; [done|].
      intros s Hs Hc. by destruct (Hd s Hs).
    + rewrite lookup_alter_ne by done. intros Hy. exists y. split_and!; [done|done|by left].
  - intros q Hq. by rewrite lookup_alter_is_Some.
  - eapply log_ok_update; [apply Hi|exact Hx|exact (f_equal fst Hfix)|by left|done|].
    intros Hl. by destruct (Hl b).
  - apply Hi.
Qed.

(** ** Attachments *)

Lemma live_detach p now att :
  live ((λ a, if is_live a && p a then detach_row now a else a) <$> att) =
  filter (λ a, p a = false) (live att).
Proof.
  unfold live. induction att as [|a att IH]; [done|].
  rewrite fmap_cons, !filter_cons, IH. destruct (is_live a) eqn:Ea; cbn [andb].
  - destruct (p a) eqn:Ep.
    + rewrite decide_False by done. rewrite decide_True by done. rewrite filter_cons.
      by rewrite decide_False by congruence.
    + rewrite decide_True by done. rewrite decide_True by done. rewrite filter_cons.
      by rewrite decide_True.
  - rewrite !decide_False by congruence. done.
Qed.

Lemma skels_detach p now w : skels (detach_where p now w) = skels w.
Proof. done. Qed.

Lemma attached_detach but but' sk p now att : attached_ok but sk att →
  (∀ a, a ∈ live att → p a = false → but ≠ Some (at_plan a) ∨ but' = but) →
  attached_ok but' sk ((λ a, if is_live a && p a then detach_row now a else a) <$> att).
Proof.
  intros [N O] Hb. unfold attached_ok. rewrite live_detach. split.
  - eapply sublist_NoDup; [exact N|]. apply fmap_sublist, sublist_filter.
  - intros a [Hp Ha]%list_elem_of_filter Hne. apply O; [done|].
    destruct (Hb a Ha Hp) as [|<-]; done.
Qed.

Lemma inv_detach but t p now w : inv but t w → inv but t (detach_where p now w).
Proof.
  intros []. split; try done. eapply attached_detach; [done|]. intros; by right.
Qed.

Lemma inv_detach_plan plan_id t now w : inv (Some plan_id) t w →
  inv None t (detach_where (λ a, bool_decide (at_plan a = plan_id)) now w).
Proof.
  intros []. split; try done. eapply attached_detach; [done|].
  intros a _ Ha%bool_decide_eq_false. left. congruence.
Qed.

Lemma insert_attachment_Ok a w w' : insert_attachment a w = Ok w' →
  w' = set_attachments (attachments w ++ [a]) w ∧
  ∀ b, b ∈ live (attachments w) → at_pty b ≠ at_pty a.
Proof.
  unfold insert_attachment. destruct (existsb _ _) eqn:E; [done|]. intros [= <-]. split; [done|].
  intros b [Hl Hb]%list_elem_of_filter Hp. assert (existsb (λ b, is_live b && bool_decide (at_pty b = at_pty a)) (attachments w) = true); [|congruence].
  apply existsb_exists. exists b. split; [by apply list_elem_of_In|]. by rewrite Hl, bool_decide_true.
Qed.

Lemma live_snoc att a : is_live a = true → live (att ++ [a]) = live att ++ [a].
Proof. intros Ha. unfold live. rewrite filter_app, filter_cons. by rewrite decide_True. Qed.

Lemma inv_attach but t a w w' : inv but t w → insert_attachment a w = Ok w' → is_live a = true →
  (∃ s, skels w !! at_plan a = Some s ∧ is_open (sk_status s) = true) → inv but t w'.
Proof.
  intros [] [-> Hn]%insert_attachment_Ok Hl Ho. destruct in_attached0 as [N O].
  split; try done. unfold attached_ok. cbn. rewrite live_snoc by done. split.
  - rewrite fmap_app. apply NoDup_app. split_and!; [done| |apply NoDup_singleton].
    intros x (b & -> & Hb)%list_elem_of_fmap Hx. apply list_elem_of_singleton in Hx. by apply (Hn b).
  - intros b [Hb|Hb]%elem_of_app Hne; [by apply O|].
    apply list_elem_of_singleton in Hb as ->. exact Ho.
Qed.

Record same_rows (w w' : World) : Prop := {
  sr_skels : skels w' = skels w;
  sr_phases : phases w' = phases w;
  sr_anchors : anchors w' = anchors w;
  sr_ptys : pty_sessions w' = pty_sessions w;
}.

Record same_rows_but_phases (w w' : World) : Prop := {
  sp_skels : skels w' = skels w;
  sp_anchors : anchors w' = anchors w;
  sp_ptys : pty_sessions w' = pty_sessions w;
}.

Lemma same_rows_refl w : same_rows w w.
Proof. done. Qed.

Lemma same_rows_trans w1 w2 w3 : same_rows w1 w2 → same_rows w2 w3 → same_rows w1 w3.
Proof. intros [] []. split; congruence. Qed.

Lemma event_same plan_id phase_id ty actor from to n now w w' :
  insert_event plan_id phase_id ty actor from to n now w = Ok w' → same_rows w w'.
Proof. by intros ->%insert_event_row_Ok. Qed.

Lemma event_attachments plan_id phase_id ty actor from to n now w w' :
  insert_event plan_id phase_id ty actor from to n now w = Ok w' → attachments w' = attachments w.
Proof. by intros ->%insert_event_row_Ok. Qed.

Lemma bump_same plan_id now w w' : bump_revision plan_id now w = Ok w' → same_rows w w'.
Proof. intros (r & ->)%bump_revision_Ok. split; try done. by apply skels_update. Qed.

Lemma bump_attachments plan_id now w w' :
  bump_revision plan_id now w = Ok w' → attachments w' = attachments w.
Proof. by intros (r & ->)%bump_revision_Ok. Qed.

(** Where a terminal is attached, among live attachments. *)
Definition at_of (q : Uuid) (l : list Attachment) : option Uuid :=
  at_plan <$> List.find (λ a, bool_decide (at_pty a = q)) l.

#[local] Arguments at_of : simpl never.

Lemma attached_plan_live q w : attached_plan q w = at_of q (live (attachments w)).
Proof.
  unfold attached_plan, at_of, live. f_equal. induction (attachments w) as [|a l IH]; [done|].
  rewrite filter_cons. cbn. destruct (is_live a) eqn:Ea; cbn.
  - rewrite decide_True by done. cbn. by rewrite IH.
  - by rewrite decide_False by congruence.
Qed.

Lemma at_of_Some q p l : NoDup (at_pty <$> l) →
  at_of q l = Some p ↔ ∃ a, a ∈ l ∧ at_pty a = q ∧ at_plan a = p.
Proof.
  unfold at_of. induction l as [|a l IH]; intros Hn; cbn.
  - split; [done|]. by intros (a & Ha%elem_of_nil & _).
  - apply NoDup_cons in Hn as [Ha Hn]. case_bool_decide as Hq.
    + split.
      * intros [= <-]. exists a. split; [by left|done].
      * intros (b & [->|Hb]%elem_of_cons & Hbq & <-); [done|]. exfalso. apply Ha.
        rewrite Hq, <-Hbq. by apply list_elem_of_fmap_2.
    + rewrite IH by done. split.
      * intros (b & Hb & ?). exists b. split; [by right|done].
      * intros (b & [->|Hb]%elem_of_cons & Hbq & <-); [done|]. by exists b.
Qed.

Lemma at_of_filter q p l : NoDup (at_pty <$> l) →
  at_of q (filter (λ a, p a = false) l) =
  match List.find (λ a, bool_decide (at_pty a = q)) l with
  | Some a => if p a then None else Some (at_plan a)
  | None => None
  end.
Proof.
  unfold at_of. induction l as [|a l IH]; intros Hn; [done|].
  apply NoDup_cons in Hn as [Ha Hn]. rewrite filter_cons. cbn [List.find].
  case_bool_decide as Hq.
  - destruct (p a) eqn:Ep.
    + rewrite decide_False by done. rewrite IH by done.
      destruct (List.find _ l) as [b|] eqn:E; [|done]. exfalso. apply Ha.
      apply find_some in E as [Hb Hbq%bool_decide_eq_true].
      rewrite Hq, <-Hbq. apply list_elem_of_fmap_2. by apply list_elem_of_In.
    + rewrite decide_True by done. cbn. by rewrite bool_decide_true.
  - case_decide; cbn; [rewrite bool_decide_false by done|]; by apply IH.
Qed.

Lemma at_of_snoc q l a : at_of q (l ++ [a]) =
  or_else (at_of q l) (if bool_decide (at_pty a = q) then Some (at_plan a) else None).
Proof.
  unfold at_of. induction l as [|b l IH]; cbn; [by case_bool_decide|].
  destruct (bool_decide (at_pty b = q)); [done|apply IH].
Qed.

(** The terminals of a detached set. *)
Lemma attached_plan_detach q p now w : NoDup (at_pty <$> live (attachments w)) →
  attached_plan q (detach_where p now w) =
  match List.find (λ a, bool_decide (at_pty a = q)) (live (attachments w)) with
  | Some a => if p a then None else Some (at_plan a)
  | None => None
  end.
Proof. intros Hn. rewrite attached_plan_live. cbn. rewrite live_detach. by apply at_of_filter. Qed.

Lemma attached_plan_insert q a w w' : insert_attachment a w = Ok w' → is_live a = true →
  attached_plan q w' = if bool_decide (at_pty a = q) then Some (at_plan a) else attached_plan q w.
Proof.
  intros [-> Hn]%insert_attachment_Ok Hl. rewrite !attached_plan_live. cbn.
  rewrite live_snoc, at_of_snoc by done. case_bool_decide as Hq.
  - assert (at_of q (live (attachments w)) = None) as ->; [|done].
    unfold at_of. destruct (List.find _ _) as [b|] eqn:E; [|done].
    apply find_some in E as [Hb%list_elem_of_In Hbq%bool_decide_eq_true].
    destruct (Hn b Hb). congruence.
  - by destruct (at_of q _).
Qed.

Lemma attached_plan_same q w w' : attachments w' = attachments w → attached_plan q w' = attached_plan q w.
Proof. unfold attached_plan. by intros ->. Qed.

Lemma not_closed_open s : s ∈ PLAN_STATUSES → is_closed s = negb (is_open s).
Proof.
  unfold PLAN_STATUSES. intros H. repeat (apply elem_of_cons in H as [->|H]; [done|]).
  by apply elem_of_nil in H.
Qed.

Lemma open_skel but t plan_id p w : inv but t w → plans w !! plan_id = Some p →
  is_closed (pl_status p) = false → ∃ s, skels w !! plan_id = Some s ∧ is_open (sk_status s) = true.
Proof.
  intros Hi Hp Hc. assert (skels w !! plan_id = Some (skel p)) as Hs
    by (unfold skels; by rewrite lookup_fmap, Hp).
  exists (skel p). split; [done|]. pose proof (so_status _ _ _ (in_tree _ _ _ Hi _ _ Hs)) as H.
  apply not_closed_open in H. cbn in *. rewrite Hc in H. by destruct (is_open _).
Qed.
