(* ===== verification/PlanOps.v ===== *)
(** * The operations keep the invariant

    For every operation of [Plans] that succeeds: the invariant holds after
    it, and what it did to the tree of plans and to the attachments. At the
    end the operations as one labelled step, and the tables some sequence of
    them reaches: transactions run one after the other, and the clock they
    read does not go back. *)

From S2P Require Import Prelude Text Plans PlanInv.

Section ops.
Context (parse_uuid : string → option Uuid) (show_uuid : Uuid → string).

(** Attaching: the invariant, and what becomes of the live attachments. *)
Lemma attach_in_tx_Ok but plan_id pty actor bump now w w' :
  attach_in_tx show_uuid plan_id pty actor bump now w = Ok w' → inv but now w →
  (∃ s, skels w !! plan_id = Some s ∧ is_open (sk_status s) = true) →
  inv but now w' ∧ same_rows w w' ∧
  ∀ q, attached_plan q w' = if bool_decide (pty = q) then Some plan_id else attached_plan q w.
Proof.
  unfold attach_in_tx. intros (p & _ & H)%res_bind_Ok Hi Ho.
  apply res_bind_Ok in H as (row & _ & H). destruct (negb _); [done|].
  case_bool_decide as Hex.
  { injection H as <-. split; [done|]. split; [done|]. intros q. case_bool_decide; congruence. }
  apply res_bind_Ok in H as (w1 & H1 & H). apply res_bind_Ok in H as (w2 & H2 & H).
  apply res_bind_Ok in H as (w3 & H3 & H).
  assert (inv but now w1 ∧ same_rows w w1 ∧
    ∀ q, q ≠ pty → attached_plan q w1 = attached_plan q w) as (I1 & S1 & A1).
  { destruct (attached_plan pty w) as [old|] eqn:Eold; [|injection H1 as <-; done].
    apply res_bind_Ok in H1 as (w0 & H0 & H1).
    pose proof (inv_detach _ _ (λ a, bool_decide (at_pty a = pty)) now w Hi) as Id.
    pose proof (inv_bump _ _ _ _ _ _ Id H0) as I0.
    split; [eapply inv_event; [exact I0|exact H1|by left]|]. split.
    - eapply same_rows_trans; [|by eapply event_same].
      eapply same_rows_trans; [|by eapply bump_same]. done.
    - intros q Hq. rewrite (attached_plan_same _ _ _ (event_attachments _ _ _ _ _ _ _ _ _ _ H1)).
      rewrite (attached_plan_same _ _ _ (bump_attachments _ _ _ _ H0)).
      rewrite attached_plan_detach by apply (in_attached _ _ _ Hi).
      rewrite attached_plan_live. unfold at_of.
      destruct (List.find _ _) as [a|] eqn:E; [|done]. apply find_some in E as [_ Ea%bool_decide_eq_true].
      cbn. rewrite bool_decide_false by congruence. done. }
  assert (I2 : inv but now w2).
  { eapply inv_attach; [exact I1|exact H2|done|]. cbn. by rewrite (sr_skels _ _ S1). }
  assert (S2 : same_rows w w2).
  { eapply same_rows_trans; [exact S1|]. by apply insert_attachment_Ok in H2 as [-> _]. }
  assert (inv but now w3 ∧ same_rows w w3 ∧ attachments w3 = attachments w2) as (I3 & S3 & A3).
  { destruct bump; [|injection H3 as <-; done]. split; [by eapply inv_bump|].
    split; [eapply same_rows_trans; [exact S2|by eapply bump_same]|by eapply bump_attachments]. }
  split; [eapply inv_event; [exact I3|exact H|by left]|].
  split; [eapply same_rows_trans; [exact S3|by eapply event_same]|]. intros q.
  rewrite (attached_plan_same _ _ _ (event_attachments _ _ _ _ _ _ _ _ _ _ H)).
  rewrite (attached_plan_same _ _ _ A3). rewrite (attached_plan_insert _ _ _ _ H2) by done. cbn.
  case_bool_decide; [done|]. by apply A1.
Qed.

Lemma inv_attach_op plan_id pty actor now w w' : attach show_uuid plan_id pty actor now w = Ok w' →
  inv None now w → inv None now w'.
Proof.
  unfold attach, ensure_plan_open. intros (_ & _ & H)%res_bind_Ok Hi.
  apply res_bind_Ok in H as (u & Ho & H). apply res_bind_Ok in Ho as (p & Hp%ok_or_Ok & Ho).
  destruct (is_closed _) eqn:Ec; [done|].
  eapply attach_in_tx_Ok; [exact H|done|]. by eapply open_skel.
Qed.

Lemma inv_detach_op plan_id pty actor now w w' : detach show_uuid plan_id pty actor now w = Ok w' →
  inv None now w → inv None now w'.
Proof.
  unfold detach. intros (_ & _ & H)%res_bind_Ok Hi. destruct (existsb _ _); [|by injection H as <-].
  apply res_bind_Ok in H as (w1 & H1 & H). eapply inv_event; [|exact H|by left].
  eapply inv_bump; [|exact H1]. by apply inv_detach.
Qed.

(** ** New plans *)

Lemma insert_plan_Ok but plan_id repo title summary g parent root depth actor now w w' :
  insert_plan plan_id repo title summary g parent root depth actor now w = Ok w' →
  inv but now w → skel_ok (skels w) plan_id (mkSkel repo "active" parent root depth) →
  inv but now w' ∧ skels w' = <[plan_id := mkSkel repo "active" parent root depth]> (skels w) ∧
  skels w !! plan_id = None ∧ phases w' = phases w ∧ attachments w' = attachments w ∧
  anchors w' = anchors w ∧ pty_sessions w' = pty_sessions w.
Proof.
  unfold insert_plan. destruct (plans w !! plan_id) as [|] eqn:En; [done|]. cbn [is_some is_none negb].
  set (p := mkPlan _ _ _ _ _ _ _ _ _ _ _ _ _ _). destruct (root_matches _ _); [|done].
  cbn [negb]. destruct (_ && _); [|done]. cbn [negb]. intros (w1 & H1 & H2)%res_bind_Ok Hi Hs.
  pose proof (inv_plan_insert _ _ _ p _ Hi En Hs) as I0.
  pose proof (inv_event _ _ _ _ _ _ _ _ _ _ _ I0 H1 (or_introl eq_refl)) as I1.
  split; [by eapply inv_record_change|].
  assert (∀ w2, record_change plan_id actor None g None now w1 = Ok w2 →
    same_rows w1 w2 ∧ attachments w2 = attachments w1) as Hrc.
  { intros w2. unfold record_change. destruct (_ || _); [by intros [= <-]|].
    by intros ->%insert_event_row_Ok. }
  destruct (Hrc _ H2) as [[E1 E2 E3 E4] E5]. destruct (event_same _ _ _ _ _ _ _ _ _ _ H1) as [F1 F2 F3 F4].
  pose proof (event_attachments _ _ _ _ _ _ _ _ _ _ H1) as F5.
  rewrite E1, F1, E2, F2, E3, F3, E4, F4, E5, F5. split_and!; try done.
  - unfold skels. cbn. by rewrite fmap_insert.
  - unfold skels. by rewrite lookup_fmap, En.
Qed.

(** Rows are only added: phases, under plans that stay as they are. *)
Record extends (w w' : World) : Prop := {
  ex_skels : skels w' = skels w;
  ex_phases : phases w ⊆ phases w';
  ex_attachments : attachments w' = attachments w;
  ex_anchors : anchors w' = anchors w;
  ex_ptys : pty_sessions w' = pty_sessions w;
}.

Lemma insert_phase_row_Ok id x w w' : insert_phase_row id x w = Ok w' →
  w' = set_phases (<[id := x]> (phases w)) w ∧ phases w !! id = None ∧
  ph_status x ∈ PHASE_STATUSES ∧ is_Some (skels w !! ph_plan x).
Proof.
  unfold insert_phase_row. destruct (phases w !! id) eqn:E; [done|]. cbn [is_some is_none negb orb].
  destruct (existsb _ _); [done|].
  destruct (0 <? ph_position x); cbn [andb negb]; [|done]. case_bool_decide; cbn [negb]; [|done].
  destruct (plans w !! ph_plan x) as [p|] eqn:Ep; cbn; [|done]. intros [= <-]. split_and!; try done.
  unfold skels. rewrite lookup_fmap, Ep. by eexists.
Qed.

(** A phase row and its [phase_added] event. *)
Lemma phase_added but id x actor now w w1 w2 : inv but now w →
  insert_phase_row id x w = Ok w1 →
  insert_event (ph_plan x) (Some id) "phase_added" actor None (Some (ph_status x)) None now w1 = Ok w2 →
  ph_position x = Z.of_nat (length (positions (ph_plan x) (phases w))) + 1 → ph_created_at x = now →
  (∀ s, skels w !! ph_plan x = Some s → sk_status s ≠ "completed") →
  inv but now w2 ∧ extends w w2 ∧ phases w2 = <[id := x]> (phases w).
Proof.
  intros Hi (-> & Hn & Hst & Hsk)%insert_phase_row_Ok ->%insert_event_row_Ok Hpos Hc Hd.
  split; [|split; [split; try done; by apply insert_subseteq|done]].
  refine (inv_phase_insert but now id x _ w Hi Hn Hsk Hst Hpos _ Hc _ _); [|done|done].
  intros s Hs ?. by destruct (Hd s Hs).
Qed.

Lemma extends_refl w : extends w w.
Proof. done. Qed.

Lemma extends_trans w1 w2 w3 : extends w1 w2 → extends w2 w3 → extends w1 w3.
Proof. intros [] []. split; [congruence|by etrans|congruence..]. Qed.

Lemma insert_phases_Ok but plan_id ids l actor now w w' s :
  insert_phases plan_id ids l actor now w = Ok w' → inv but now w →
  skels w !! plan_id = Some s → sk_status s ≠ "completed" → positions plan_id (phases w) = [] →
  inv but now w' ∧ extends w w' ∧ length (positions plan_id (phases w')) = length l.
Proof.
  unfold insert_phases, enumerate. intros H Hi Hs Hc Hp.
  assert (Hgen : ∀ k w, length (positions plan_id (phases w)) = k → inv but now w →
    skels w !! plan_id = Some s →
    try_fold (insert_new_phase plan_id ids actor now) (zip (seq k (length l)) l) w = Ok w' →
    inv but now w' ∧ extends w w' ∧ length (positions plan_id (phases w')) = (k + length l)%nat).
  { clear H Hi Hs Hp w. induction l as [|[[[t d] st] z] l IH]; intros k w Hk Hi Hs; cbn.
    - intros [= <-]. split_and!; [done|done|lia].
    - intros (w1 & H1 & H2)%res_bind_Ok. apply res_bind_Ok in H1 as (w0 & H0 & H1).
      destruct (phase_added but _ _ actor now w w0 w1 Hi H0 H1) as (I1 & E1 & P1);
        [cbn; lia|done|cbn; congruence|].
      assert (ids k ∉ dom (phases w)) as Hfresh.
      { apply insert_phase_row_Ok in H0 as (_ & Hn & _). by apply not_elem_of_dom. }
      destruct (IH (S k) w1) as (I2 & E2 & L2); [|done|by rewrite (ex_skels _ _ E1)|done|].
      + rewrite P1, positions_insert by by apply not_elem_of_dom. cbn. rewrite decide_True by done.
        cbn. by rewrite Hk.
      + split_and!; [done|by eapply extends_trans|lia]. }
  destruct (Hgen 0%nat w) as (? & ? & ?); [by rewrite Hp|done..].
Qed.

(** A new plan with its phases. *)
Lemma no_positions but t plan_id w : inv but t w → skels w !! plan_id = None →
  positions plan_id (phases w) = [].
Proof.
  intros Hi Hn. unfold positions.
  destruct (filter _ _) as [|[id x] l] eqn:E; [done|]. exfalso.
  assert ((id, x) ∈ filter (λ kv, ph_plan kv.2 = plan_id) (map_to_list (phases w))) as Hin
    by (rewrite E; by left).
  apply list_elem_of_filter in Hin as [Hp Hx%elem_of_map_to_list]. cbn in Hp.
  destruct (in_phases _ _ _ Hi id x Hx) as [[s Hs] _]. congruence.
Qed.

Lemma new_plan_Ok but plan_id ids repo title summary g parent root depth l actor now w w1 w2 :
  insert_plan plan_id repo title summary g parent root depth actor now w = Ok w1 →
  insert_phases plan_id ids l actor now w1 = Ok w2 → inv but now w →
  skel_ok (skels w) plan_id (mkSkel repo "active" parent root depth) →
  inv but now w2 ∧ skels w2 = <[plan_id := mkSkel repo "active" parent root depth]> (skels w) ∧
  skels w !! plan_id = None ∧ phases w ⊆ phases w2 ∧ attachments w2 = attachments w ∧
  anchors w2 = anchors w ∧ pty_sessions w2 = pty_sessions w.
Proof.
  intros H1 H2 Hi Hs. destruct (insert_plan_Ok _ _ _ _ _ _ _ _ _ _ _ _ _ H1 Hi Hs)
    as (I1 & S1 & N1 & P1 & A1 & An1 & T1).
  destruct (insert_phases_Ok _ _ _ _ _ _ _ _ (mkSkel repo "active" parent root depth) H2 I1)
    as (I2 & [S2 P2 A2 An2 T2] & _).
  - rewrite S1. apply lookup_insert_eq.
  - done.
  - rewrite P1. by eapply no_positions.
  - split_and!; [done|by rewrite S2|done|by rewrite <-P1|congruence..].
Qed.

Lemma inv_create ids input actor now w w' : create show_uuid ids input actor now w = Ok w' →
  inv None now w → inv None now w'.
Proof.
  unfold create. intros (_ & _ & H)%res_bind_Ok Hi.
  do 5 (apply res_bind_Ok in H as (? & _ & H)).
  apply res_bind_Ok in H as (w1 & H1 & H). apply res_bind_Ok in H as (w2 & H2 & H).
  destruct (new_plan_Ok None _ _ _ _ _ _ _ _ _ _ _ _ _ _ _ H1 H2 Hi) as (I2 & S2 & _).
  { split; [by left|done|done]. }
  destruct (actor_pty actor) as [pty|]; [|by injection H as <-].
  destruct (cr_attach_current_pty input); [|by injection H as <-].
  eapply attach_in_tx_Ok; [exact H|done|]. rewrite S2, lookup_insert_eq. by eexists.
Qed.

Lemma ensure_open plan_id w u : ensure_plan_open show_uuid plan_id w = Ok u →
  ∃ p, plans w !! plan_id = Some p ∧ is_closed (pl_status p) = false.
Proof.
  unfold ensure_plan_open. intros (p & Hp%ok_or_Ok & Ho)%res_bind_Ok. exists p.
  by destruct (is_closed _).
Qed.

Lemma open_not_completed s : is_open s = true → s ≠ "completed".
Proof. by intros H ->. Qed.

Lemma max_position_ok ph plan_id : positions_ok ph →
  max_position (filter (λ kv, ph_plan kv.2 = plan_id) (map_to_list ph)) =
  Z.of_nat (length (positions plan_id ph)).
Proof.
  intros Hok. specialize (Hok plan_id). revert Hok. unfold positions.
  generalize (filter (λ kv, ph_plan kv.2 = plan_id) (map_to_list ph)). intros l.
  assert (E : max_position l = foldr Z.max 0 ((λ kv : Uuid * Phase, ph_position kv.2) <$> l)).
  { unfold max_position. induction l as [|a l IH]; [done|]. cbn. by rewrite IH. }
  rewrite E. clear E. generalize ((λ kv : Uuid * Phase, ph_position kv.2) <$> l). clear. intros zs Hp.
  assert (Hle : ∀ z, z ∈ zs → z ≤ foldr Z.max 0 zs).
  { clear. induction zs as [|y zs IH]; intros z; [by intros ?%elem_of_nil|].
    intros [->|Hz]%elem_of_cons; cbn; [lia|]. specialize (IH z Hz). lia. }
  assert (Hin : foldr Z.max 0 zs = 0 ∨ foldr Z.max 0 zs ∈ zs).
  { clear. induction zs as [|y zs IH]; [by left|]. cbn.
    destruct (Z.max_spec y (foldr Z.max 0 zs)) as [[? ->]|[? ->]]; [|right; by left].
    destruct IH as [E|]; [left; lia|right; by right]. }
  assert (Hr : ∀ z, z ∈ zs ↔ 1 ≤ z < 1 + Z.of_nat (length zs)).
  { intros z. rewrite Hp at 1. by rewrite elem_of_seqZ. }
  destruct Hin as [H0|Hin].
  - rewrite H0. destruct zs as [|y zs]; [done|]. exfalso.
    assert (y ∈ y :: zs) as Hy by by left. pose proof (Hle y Hy). apply Hr in Hy. lia.
  - pose proof (proj1 (Hr _) Hin). assert (Z.of_nat (length zs) ∈ zs) as Hl by (apply Hr; lia).
    specialize (Hle _ Hl). lia.
Qed.

Lemma inv_add_phase phase_id plan_id phase actor now w w' :
  add_phase show_uuid phase_id plan_id phase actor now w = Ok w' → inv None now w → inv None now w'.
Proof.
  unfold add_phase. intros (_ & _ & H)%res_bind_Ok Hi.
  do 4 (apply res_bind_Ok in H as (? & _ & H)).
  apply res_bind_Ok in H as (u & Ho & H). destruct (ensure_open _ _ _ Ho) as (p & Hp & Hc).
  destruct (open_skel _ _ _ _ _ Hi Hp Hc) as (s & Hs & Hopen).
  apply res_bind_Ok in H as (pos & Hpos & H). unfold pg_int in Hpos.
  destruct (_ && _) in Hpos; [|done]. injection Hpos as <-.
  apply res_bind_Ok in H as (w1 & H1 & H). apply res_bind_Ok in H as (w2 & H2 & H).
  apply bump_revision_Ok in H2 as (r & ->).
  set (ph := mkPhase _ _ _ _ _ _ _ _ _ _ _) in H1.
  assert (∃ w3, insert_event plan_id (Some phase_id) "phase_added" actor None
    (Some (ph_status ph)) None now w1 = Ok w3 ∧ w' = update_plan_row (with_revision r now) plan_id w3)
    as (w3 & H3 & ->).
  { revert H. unfold insert_event, insert_event_row. cbn.
    assert (∀ q, is_some (alter (with_revision r now) plan_id (plans w1) !! q) = is_some (plans w1 !! q)) as Hd.
    { intros q. destruct (decide (q = plan_id)) as [->|]; [|by rewrite lookup_alter_ne].
      rewrite lookup_alter_eq. by destruct (plans w1 !! plan_id). }
    rewrite Hd. unfold actor_exists. cbn. destruct (_ && _); [|done]. intros [= <-]. by eexists. }
  destruct (phase_added None phase_id ph actor now w w1 w3 Hi H1 H3) as (I3 & _).
  - cbn. unfold phases_of. by rewrite max_position_ok by apply Hi.
  - done.
  - cbn. rewrite Hs. intros s' [= <-]. by apply open_not_completed.
  - eapply inv_frame; [exact I3| |done..]. by apply skels_update.
Qed.

(** ** Moving and updating a phase *)

Lemma length_positions plan_id w :
  length (phases_of plan_id w) = length (positions plan_id (phases w)).
Proof. unfold positions. by rewrite length_fmap. Qed.

(** The row a move leaves for a phase: only its place, and when it was
    updated, differ. *)
Lemma move_phase_Ok plan_id id x requested now w w' :
  move_phase plan_id id (ph_position x) requested now w = Ok w' → phases w !! id = Some x →
  ph_plan x = plan_id → positions_ok (phases w) →
  let n := Z.of_nat (length (positions plan_id (phases w))) in
  w' = set_phases (phases w') w ∧
  ∀ q, phases w' !! q =
    (λ y, with_position (if bool_decide (ph_plan y = plan_id)
                         then moved (ph_position x) (Z.max 1 (Z.min requested n)) (ph_position y)
                         else ph_position y)
            (match phases w' !! q with Some y' => ph_updated_at y' | None => 0 end) y) <$> phases w !! q.
Proof.
  intros H Hx Hp Hok n. unfold move_phase in H. rewrite length_positions in H. fold n in H.
  apply res_bind_Ok in H as (new & Hc & H). unfold clamp in Hc.
  destruct (n <? 1) eqn:En; [done|]. injection Hc as Hc.
  pose proof (elem_of_positions _ _ _ _ Hx Hp) as Hin.
  pose proof (positions_range _ _ _ Hok Hin) as Hr.
  assert (Huniq : ∀ q y, phases w !! q = Some y → ph_plan y = plan_id → q ≠ id →
    ph_position y ≠ ph_position x).
  { intros q y Hy Hyp Hne E.
    assert (Hnd : NoDup (positions plan_id (phases w))) by (rewrite (Hok plan_id); apply NoDup_seqZ).
    unfold positions in Hnd. apply Hne.
    assert (∀ k z, phases w !! k = Some z → ph_plan z = plan_id →
      (k, z) ∈ filter (λ kv, ph_plan kv.2 = plan_id) (map_to_list (phases w))) as Hmem.
    { intros k z Hz Hzp. apply list_elem_of_filter. split; [done|]. by apply elem_of_map_to_list. }
    apply (f_equal fst (x := (q, y)) (y := (id, x))).
    eapply (NoDup_fmap_inj_on _ _ _ _ Hnd); [by apply Hmem|by apply Hmem|done]. }
  destruct (new =? ph_position x) eqn:Ene.
  - injection H as <-. split; [by destruct w|]. intros q. destruct (phases w !! q) as [y|] eqn:Ey; [|done].
    cbn. f_equal. destruct y; cbn in *. unfold with_position. cbn. f_equal.
    case_bool_decide; [|done]. moved_cases.
  - injection H as <-. split; [by destruct (new <? ph_position x)|]. intros q. unfold update_phase_row.
    set (w1 := if new <? ph_position x then _ else _).
    assert (Hw1 : ∀ k, phases w1 !! k = (λ y, if bool_decide (ph_plan y = plan_id) && negb (bool_decide (k = id))
        then if bool_decide (moved (ph_position x) new (ph_position y) = ph_position y) then y
             else with_position (moved (ph_position x) new (ph_position y)) now y
        else y) <$> phases w !! k).
    { intros k. unfold w1, shift_phases. destruct (new <? ph_position x) eqn:E; cbn;
        rewrite map_lookup_imap; destruct (phases w !! k) as [y|] eqn:Ey; cbn; try done;
        f_equal; destruct (bool_decide (ph_plan y = plan_id)) eqn:E1; cbn; try done;
        destruct (bool_decide (k = id)) eqn:E2; cbn; try done;
        apply bool_decide_eq_true in E1; apply bool_decide_eq_false in E2;
        pose proof (Huniq k y Ey E1 E2) as Hnp;
        destruct (_ && _) eqn:E3; case_bool_decide as E4; try done; try (exfalso; moved_cases);
        f_equal; moved_cases. }
    cbn. destruct (decide (q = id)) as [->|Hne].
    + rewrite lookup_alter_eq, Hw1, Hx. cbn. rewrite (bool_decide_true (id = id)), andb_false_r by done.
      cbn. rewrite bool_decide_true by done. f_equal. unfold with_position. cbn. f_equal. rewrite <-Hc. moved_cases.
    + rewrite lookup_alter_ne by done. rewrite Hw1. destruct (phases w !! q) as [y|] eqn:Ey; [|done]. cbn.
      rewrite (bool_decide_false (q = id)), andb_true_r by done. f_equal. rewrite Hc.
      case_bool_decide as Hyp; [|by destruct y]. case_bool_decide as E; [|done].
      destruct y; unfold with_position; cbn in *. by rewrite E.
Qed.

Lemma validate_phase_status_Ok s u : validate_phase_status s = Ok u → s ∈ PHASE_STATUSES.
Proof. unfold validate_phase_status. by case_bool_decide. Qed.

Lemma inv_move but now plan_id id x requested w w' : inv but now w →
  move_phase plan_id id (ph_position x) requested now w = Ok w' → phases w !! id = Some x →
  ph_plan x = plan_id →
  inv but now w' ∧ ∃ x', phases w' !! id = Some x' ∧ fixed x' = fixed x ∧ ph_status x' = ph_status x ∧
    w' = set_phases (phases w') w.
Proof.
  intros Hi H Hx Hp. pose proof (in_positions _ _ _ Hi) as Hok.
  destruct (move_phase_Ok _ _ _ _ _ _ _ H Hx Hp Hok) as [Hw' Hrow]. cbn zeta in Hrow.
  set (new := Z.max 1 _) in Hrow. split.
  2:{ pose proof (Hrow id) as Hid. rewrite Hx in Hid. cbn in Hid. eexists.
      split; [exact Hid|]. split; [done|]. split; [done|exact Hw']. }
  rewrite Hw'. change (inv but now (set_plan_events (plan_events w) (set_phases (phases w') w))).
  apply inv_phases; [done|..].
  - pose proof (elem_of_positions _ _ _ _ Hx Hp) as Hin. pose proof (positions_range _ _ _ Hok Hin).
    apply (positions_ok_move (phases w) _ plan_id (ph_position x) new Hok Hin); [unfold new; lia|].
    apply map_eq. intros q. rewrite !lookup_fmap, Hrow. destruct (phases w !! q) as [y|]; [|done].
    cbn. f_equal. unfold place, move_place. cbn. by case_bool_decide.
  - intros q y Hy. rewrite Hrow in Hy. apply fmap_Some in Hy as (z & Hz & ->). exists z. split_and!; [done|done|by left].
  - intros q [y Hy]. rewrite Hrow, Hy. by eexists.
  - destruct (in_log _ _ _ Hi) as [L1 LV L2]. split.
    + intros p q s Hin. destruct (L1 _ _ _ Hin) as (y & Hy & Hyp).
      pose proof (Hrow q) as Hq. rewrite Hy in Hq. cbn in Hq. eexists. split; [exact Hq|done].
    + exact LV.
    + intros q y Hy Hl. rewrite Hrow in Hy. apply fmap_Some in Hy as (z & Hz & ->). exact (L2 q z Hz Hl).
  - apply Hi.
Qed.

Lemma inv_update_phase plan_id id input actor now w w' :
  update_phase show_uuid plan_id id input actor now w = Ok w' → inv None now w → inv None now w'.
Proof.
  unfold update_phase. intros (_ & _ & H)%res_bind_Ok Hi.
  apply res_bind_Ok in H as (u & Ho & H). destruct (ensure_open _ _ _ Ho) as (p & Hp & Hc).
  destruct (open_skel _ _ _ _ _ Hi Hp Hc) as (s & Hs & Hopen).
  apply res_bind_Ok in H as (x & Hx%ok_or_Ok & H).
  apply bind_Some in Hx as (x0 & Hx & Hxp). destruct (bool_decide _) eqn:Hplan in Hxp; [|done].
  apply bool_decide_eq_true in Hplan. injection Hxp as ->.
  apply res_bind_Ok in H as (title & _ & H). apply res_bind_Ok in H as (desc & _ & H).
  apply res_bind_Ok in H as (u' & Hst%validate_phase_status_Ok & H). set (status := default _ _) in *.
  apply res_bind_Ok in H as (note & _ & H). apply res_bind_Ok in H as (size & _ & H).
  apply res_bind_Ok in H as (w1 & H1 & H).
  assert (inv None now w1 ∧ ∃ x', phases w1 !! id = Some x' ∧ fixed x' = fixed x ∧
    skels w1 = skels w) as (I1 & x1 & Hx1 & Hf & Hsk).
  { destruct (upp_position input) as [pos|]; [|injection H1 as <-; split; [done|by exists x]].
    destruct (inv_move _ _ _ _ _ _ _ _ Hi H1 Hx Hplan) as (I1 & x1 & Hx1 & Hf & _ & E).
    split; [done|]. exists x1. by rewrite E. }
  apply res_bind_Ok in H as (w2 & (r & ->)%bump_revision_Ok & H).
  apply res_bind_Ok in H as (w3 & ->%insert_event_row_Ok & H).
  destruct (positions_unique _ _); [|done]. injection H as <-.
  assert (Hplan1 : ph_plan x1 = plan_id) by (by rewrite <-Hplan; injection Hf).
  set (e := mkPlanEvent _ _ _ _ _ _ _ _ _ _). set (f := updated_phase _ _ _ _ _ _).
  eapply (inv_frame None now (set_plan_events (plan_events w1 ++ [e]) (update_phase_row f id w1)));
    [|exact (skels_update (with_revision r now) plan_id w1 (λ _ _, eq_refl))|done..].
  apply (inv_phase_event None now id f x1 e w1 I1 Hx1); try done.
  - rewrite Hplan1, Hsk, Hs. intros s' [= <-] E. by destruct (open_not_completed _ Hopen).
  - unfold transition, e. cbn [pe_phase to_status pe_type pe_plan]. rewrite Hplan1.
    by destruct (bool_decide (status = ph_status x)).
Qed.

(** ** Skipping what remains *)

Lemma inv_skip_phase but plan_id actor note now w w' p x : inv but now w →
  skip_phase plan_id actor note now w p = Ok w' → phases w !! p.1 = Some x → ph_plan x = plan_id →
  inv but now w' ∧ skels w' = skels w ∧ anchors w' = anchors w ∧ attachments w' = attachments w ∧
  pty_sessions w' = pty_sessions w ∧ phases w' = alter (skipped_phase note now) p.1 (phases w).
Proof.
  intros Hi ->%insert_event_row_Ok Hx Hp. set (e := mkPlanEvent _ _ _ _ _ _ _ _ _ _).
  split; [|split_and!; done].
  apply (inv_phase_event but now p.1 (skipped_phase note now) x e w Hi Hx); try done.
  - cbn. by apply (bool_decide_unpack _).
  - unfold transition, e. cbn. by rewrite Hp.
Qed.

Lemma skip_phases_Ok but plan_id actor note now l w w' : inv but now w →
  try_fold (skip_phase plan_id actor note now) l w = Ok w' →
  (∀ kv, kv ∈ l → ∃ x, phases w !! kv.1 = Some x ∧ ph_plan x = plan_id) →
  inv but now w' ∧ skels w' = skels w ∧ anchors w' = anchors w ∧ attachments w' = attachments w ∧
  pty_sessions w' = pty_sessions w ∧
  ∀ q, phases w' !! q = if decide (q ∈ l.*1) then skipped_phase note now <$> phases w !! q
                        else phases w !! q.
Proof.
  revert w. induction l as [|p l IH]; intros w Hi H Hl.
  - injection H as <-. split_and!; done.
  - cbn in H. apply res_bind_Ok in H as (w1 & H1 & H).
    destruct (Hl p) as (x & Hx & Hp); [by left|].
    destruct (inv_skip_phase _ _ _ _ _ _ _ _ _ Hi H1 Hx Hp) as (I1 & S1 & A1 & T1 & E1 & P1).
    destruct (IH w1 I1 H) as (I2 & S2 & A2 & T2 & E2 & P2).
    { intros kv Hkv. destruct (Hl kv) as (y & Hy & Hyp); [by right|]. rewrite P1.
      destruct (decide (kv.1 = p.1)) as [E|Hne]; [|rewrite lookup_alter_ne by done; by exists y].
      rewrite E in *. rewrite lookup_alter_eq, Hy. by eexists. }
    split; [done|]. split_and!; try congruence. intros q. rewrite P2, P1. cbn.
    destruct (decide (q = p.1)) as [->|Hne].
    + rewrite lookup_alter_eq. rewrite (decide_True (P := p.1 ∈ _ :: _)) by by left.
      case_decide; [|done]. destruct (phases w !! p.1) as [y|]; [|done]. cbn.
      unfold skipped_phase. cbn. by destruct note.
    + rewrite lookup_alter_ne by done. destruct (decide (q ∈ l.*1)).
      * by rewrite decide_True by by right.
      * by rewrite decide_False by by intros [|]%elem_of_cons.
Qed.

Lemma elem_of_ordered plan_id w id x :
  (id, x) ∈ ordered_phases plan_id w ↔ phases w !! id = Some x ∧ ph_plan x = plan_id.
Proof.
  unfold ordered_phases, phases_of. rewrite merge_sort_Permutation, list_elem_of_filter, elem_of_map_to_list.
  cbn. split; by intros [? ?].
Qed.

Lemma skip_remaining_plans plan_id actor note now w w' :
  skip_remaining_phases plan_id actor note now w = Ok w' → plans w' = plans w.
Proof.
  unfold skip_remaining_phases. generalize (unfinished_phases plan_id w). intros l. revert w.
  induction l as [|p l IH]; intros w; [by intros [= <-]|]. cbn.
  intros (w1 & ->%insert_event_row_Ok & H)%res_bind_Ok. by rewrite (IH _ H).
Qed.

Lemma skip_remaining_Ok but plan_id actor note now w w' : inv but now w →
  skip_remaining_phases plan_id actor note now w = Ok w' →
  inv but now w' ∧ skels w' = skels w ∧ anchors w' = anchors w ∧ attachments w' = attachments w ∧
  pty_sessions w' = pty_sessions w ∧
  ∀ q, phases w' !! q = (λ x, if bool_decide (ph_plan x = plan_id) && negb (is_done (ph_status x))
                              then skipped_phase note now x else x) <$> phases w !! q.
Proof.
  intros Hi H. destruct (skip_phases_Ok _ _ _ _ _ _ _ _ Hi H) as (I1 & S1 & A1 & T1 & E1 & P1).
  - intros [id x] [_ Hx%elem_of_ordered]%list_elem_of_filter. by exists x.
  - split; [done|]. split_and!; try done. intros q. rewrite P1.
    destruct (phases w !! q) as [x|] eqn:Ex; [|by case_decide].
    assert (q ∈ (unfinished_phases plan_id w).*1 ↔ ph_plan x = plan_id ∧ is_done (ph_status x) = false) as Hq.
    { rewrite list_elem_of_fmap. split.
      - intros ([q' y] & -> & [Hd Hy%elem_of_ordered]%list_elem_of_filter). cbn in *.
        destruct Hy as [Hy ?]. by simplify_eq.
      - intros [Hp Hd]. exists (q, x). split; [done|]. apply list_elem_of_filter. split; [done|].
        by apply elem_of_ordered. }
    cbn. case_decide as Hc; rewrite Hq in Hc.
    + destruct Hc as [Hp Hd]. by rewrite bool_decide_true, Hd.
    + case_bool_decide; [|done]. destruct (is_done (ph_status x)); [done|by destruct Hc].
Qed.

(** ** Branching *)

Lemma inv_insert_anchor but t plan_id id w w' s x : inv but t w →
  insert_anchor plan_id id w = Ok w' → skels w !! plan_id = Some s → phases w !! id = Some x →
  sk_parent s = Some (ph_plan x) →
  inv but t w' ∧ w' = set_anchors ({[(plan_id, id)]} ∪ anchors w) w.
Proof.
  unfold insert_anchor.
  intros [in_tree0 in_phases0 in_positions0 in_attached0 in_anchors0 in_done0 in_log0 in_times0] H Hs Hx Hp. case_bool_decide; [done|]. injection H as <-.
  split; [|done]. split; try done; cbn.
  - intros b q [[= -> ->]%elem_of_singleton|Hb]%elem_of_union; [by exists s, x|by apply in_anchors0].
  - destruct in_log0 as [L1 LV L2]. split; [done|done|]. intros q y Hy Hl. apply L2; [done|].
    intros b Hb. apply (Hl b). set_solver.
Qed.

Lemma inv_anchor_phase but plan_id parent title note actor now w anchor w' s t x : inv but now w →
  anchor_phase plan_id parent title note actor now w anchor = Ok w' →
  skels w !! plan_id = Some s → sk_parent s = Some parent →
  skels w !! parent = Some t → is_open (sk_status t) = true →
  phases w !! anchor = Some x → ph_plan x = parent →
  inv but now w' ∧ skels w' = skels w ∧ attachments w' = attachments w ∧
  pty_sessions w' = pty_sessions w ∧ phases w' = alter (start_anchor now) anchor (phases w) ∧
  anchors w' = {[(plan_id, anchor)]} ∪ anchors w.
Proof.
  intros Hi (w1 & H1 & H2)%res_bind_Ok Hs Hpar Ht Hopen Hx Hp.
  destruct (inv_insert_anchor _ _ _ _ _ _ s x Hi H1 Hs Hx) as [I1 ->]; [by rewrite Hp|].
  assert (inv but now (update_phase_row (start_anchor now) anchor
    (set_anchors ({[(plan_id, anchor)]} ∪ anchors w) w))) as I2.
  { apply (inv_phase_anchored but now anchor (start_anchor now) x plan_id); try done.
    - cbn. set_solver.
    - unfold start_anchor. by case_bool_decide.
    - unfold start_anchor. by case_bool_decide.
    - unfold start_anchor. case_bool_decide; [by apply (bool_decide_unpack _)|].
      by apply (in_phases _ _ _ Hi anchor x).
    - change (∀ u, skels w !! ph_plan x = Some u → sk_status u ≠ "completed").
      rewrite Hp, Ht. intros u [= <-]. by apply open_not_completed. }
  split; [eapply inv_event; [exact I2|exact H2|by right]|].
  apply insert_event_row_Ok in H2 as ->. split_and!; done.
Qed.

Lemma resolve_phase_id_Ok plan_id reference w id :
  resolve_phase_id parse_uuid plan_id reference w = Ok id →
  ∃ x, phases w !! id = Some x ∧ ph_plan x = plan_id.
Proof.
  unfold resolve_phase_id. destruct (parse_uuid reference) as [u|].
  - intros (x & Hx & H)%ok_or_Ok%bind_Some. destruct (bool_decide _) eqn:E; [|done].
    apply bool_decide_eq_true in E. injection H as <-. by exists x.
  - intros (z & _ & H%ok_or_Ok)%res_bind_Ok. apply fmap_Some in H as ([q x] & Hf & ->).
    apply find_some in Hf as [Hin%list_elem_of_In _]. apply list_elem_of_filter in Hin as [Hp Hin].
    exists x. split; [by apply elem_of_map_to_list|done].
Qed.

Lemma resolve_anchors_Ok parent refs w l : resolve_anchor_phases parse_uuid parent refs w = Ok l →
  ∀ id, id ∈ l → ∃ x, phases w !! id = Some x ∧ ph_plan x = parent.
Proof.
  unfold resolve_anchor_phases. destruct refs as [|r refs].
  - intros (z & Hz%ok_or_Ok & [= <-])%res_bind_Ok id ->%list_elem_of_singleton.
    apply fmap_Some in Hz as ([q x] & Hh & ->). unfold current_phase in Hh.
    apply head_Some_elem_of in Hh. rewrite merge_sort_Permutation in Hh.
    apply list_elem_of_filter in Hh as [_ Hh]. apply list_elem_of_filter in Hh as [Hp Hin].
    exists x. split; [by apply elem_of_map_to_list|done].
  - intros H id. revert id.
    refine (try_fold_invariant _ (λ l : list Uuid, ∀ id, id ∈ l → ∃ x, phases w !! id = Some x ∧
      ph_plan x = parent) _ _ _ _ _ H); [|by intros id ?%elem_of_nil].
    intros out ref out' _ Hout (z & Hz & [= <-])%res_bind_Ok id. unfold push_new.
    case_bool_decide; [apply Hout|]. rewrite elem_of_app, list_elem_of_singleton.
    intros [Hid| ->]; [by apply Hout|]. by eapply resolve_phase_id_Ok.
Qed.

Lemma anchor_phases_Ok but plan_id parent title note actor now l w w' s t : inv but now w →
  try_fold (anchor_phase plan_id parent title note actor now) l w = Ok w' →
  skels w !! plan_id = Some s → sk_parent s = Some parent →
  skels w !! parent = Some t → is_open (sk_status t) = true →
  (∀ id, id ∈ l → ∃ x, phases w !! id = Some x ∧ ph_plan x = parent) →
  inv but now w' ∧ skels w' = skels w ∧ attachments w' = attachments w ∧
  pty_sessions w' = pty_sessions w ∧ (∀ id, id ∈ l → (plan_id, id) ∈ anchors w') ∧
  anchors w ⊆ anchors w'.
Proof.
  revert w. induction l as [|a l IH]; intros w Hi H Hs Hp Ht Ho Hl.
  - injection H as <-. split_and!; try done. by intros id ?%elem_of_nil.
  - cbn in H. apply res_bind_Ok in H as (w1 & H1 & H). destruct (Hl a) as (x & Hx & Hxp); [by left|].
    destruct (inv_anchor_phase _ _ _ _ _ _ _ _ _ _ _ _ _ Hi H1 Hs Hp Ht Ho Hx Hxp)
      as (I1 & S1 & A1 & T1 & P1 & An1).
    destruct (IH w1 I1 H) as (I2 & S2 & A2 & T2 & An2 & An3); rewrite ?S1; try done.
    { intros id Hid. destruct (Hl id) as (y & Hy & Hyp); [by right|]. rewrite P1.
      destruct (decide (id = a)) as [E|Hne]; [|rewrite lookup_alter_ne by done; by exists y].
      subst id. rewrite lookup_alter_eq, Hy. cbn. eexists. split; [done|].
      unfold start_anchor. by case_bool_decide. }
    split; [done|]. split_and!; try congruence.
    + intros id [->|Hid]%elem_of_cons; [|by apply An2]. apply An3. rewrite An1. set_solver.
    + etrans; [|exact An3]. rewrite An1. set_solver.
Qed.

(** The tables after a branch: one more open plan under its parent, its
    anchors, and the acting terminal on it. *)
Lemma branch_Ok ids parent input actor now w w' :
  branch parse_uuid show_uuid ids parent input actor now w = Ok w' → inv None now w →
  inv None now w' ∧
  (∃ s, skels w !! parent = Some s ∧ is_open (sk_status s) = true ∧
     skels w' = <[ids 0%nat := mkSkel (sk_repo s) "active" (Some parent) (sk_root s) (sk_depth s + 1)]>
                  (skels w)) ∧
  skels w !! ids 0%nat = None ∧ pty_sessions w' = pty_sessions w ∧
  ∀ q, attached_plan q w' = if bool_decide (actor_pty actor = Some q) then Some (ids 0%nat)
                            else attached_plan q w.
Proof.
  unfold branch. intros (_ & _ & H)%res_bind_Ok Hi.
  apply res_bind_Ok in H as (title & _ & H). apply res_bind_Ok in H as (summary & _ & H).
  apply res_bind_Ok in H as (g & _ & H). apply res_bind_Ok in H as (note & _ & H).
  apply res_bind_Ok in H as (l & _ & H).
  apply res_bind_Ok in H as (u & Ho & H). destruct (ensure_open _ _ _ Ho) as (p0 & Hp0 & Hc).
  apply res_bind_Ok in H as (p & Hp%ok_or_Ok & H). assert (p0 = p) as -> by congruence.
  destruct (open_skel _ _ _ _ _ Hi Hp Hc) as (s & Hs & Hopen).
  assert (s = skel p) as -> by (unfold skels in Hs; rewrite lookup_fmap, Hp in Hs; by injection Hs).
  destruct (MAX_BRANCH_DEPTH <? pl_depth p + 1) eqn:Ed; [done|].
  apply res_bind_Ok in H as (found & Hf & H). pose proof (resolve_anchors_Ok _ _ _ _ Hf) as Hfound.
  apply res_bind_Ok in H as (w1 & H1 & H). apply res_bind_Ok in H as (w2 & H2 & H).
  set (new := mkSkel (pl_repo_name p) "active" (Some parent) (pl_root p) (pl_depth p + 1)).
  destruct (new_plan_Ok None _ _ _ _ _ _ _ _ _ _ _ _ _ _ _ H1 H2 Hi)
    as (I2 & S2 & N2 & P2 & A2 & An2 & T2).
  { pose proof (so_depth _ _ _ (in_tree _ _ _ Hi _ _ Hs)) as Hd. cbn in Hd.
    split; cbn; [by left|lia|]. exists (skel p). by split_and!. }
  assert (Hne : parent ≠ ids 0%nat) by congruence.
  apply res_bind_Ok in H as (w3 & H3 & H). apply res_bind_Ok in H as (w4 & H4 & H).
  destruct (anchor_phases_Ok None _ _ _ _ _ _ _ _ _ new (skel p) I2 H3) as (I3 & S3 & A3 & T3 & _).
  { by rewrite S2, lookup_insert_eq. }
  { done. }
  { by rewrite S2, lookup_insert_ne. }
  { done. }
  { intros id Hid. destruct (Hfound id Hid) as (x & Hx & ?). exists x. split; [|done].
    by eapply lookup_weaken. }
  pose proof (inv_bump _ _ _ _ _ _ I3 H4) as I4. destruct (bump_same _ _ _ _ H4) as [S4 _ _ T4].
  assert (Hsk : skels w4 = <[ids 0%nat := new]> (skels w)) by by rewrite S4, S3, S2.
  assert (Hat : ∀ q, attached_plan q w4 = attached_plan q w).
  { intros q. apply attached_plan_same. rewrite (bump_attachments _ _ _ _ H4). congruence. }
  destruct (actor_pty actor) as [pty|] eqn:Epty.
  - destruct (attach_in_tx_Ok _ _ _ _ _ _ _ _ H I4) as (I5 & [S5 _ _ T5] & A5).
    { rewrite Hsk, lookup_insert_eq. by exists new. }
    split; [done|]. split; [exists (skel p); split_and!; [done|done|by rewrite S5, Hsk]|].
    split; [done|]. split; [congruence|]. intros q. rewrite A5, Hat.
    destruct (decide (pty = q)) as [->|]; [by rewrite !bool_decide_true|].
    by rewrite !bool_decide_false by congruence.
  - injection H as <-. split; [done|]. split; [by exists (skel p)|]. split; [done|].
    split; [congruence|]. intros q. rewrite Hat. by rewrite bool_decide_false.
Qed.

(** ** Closing *)

Lemma inv_event_anchored but now b p id ty actor from st note w w' x : inv but now w →
  insert_event p (Some id) ty actor from (Some st) note now w = Ok w' →
  phases w !! id = Some x → ph_plan x = p → (b, id) ∈ anchors w → st ∈ PHASE_STATUSES →
  inv but now w'.
Proof.
  intros Hi ->%insert_event_row_Ok Hx Hp Hb Hst. set (e := mkPlanEvent _ _ _ _ _ _ _ _ _ _).
  destruct Hi as [in_tree0 in_phases0 in_positions0 in_attached0 in_anchors0 in_done0 in_log0 in_times0].
  split; try done; cbn.
  - destruct in_log0 as [L1 LV L2].
    assert (transition e = None ∨ transition e = Some (p, id, st)) as He.
    { unfold transition, e. cbn. case_bool_decide; auto. }
    split.
    + intros p' q s'. rewrite transitions_app, elem_of_app. intros [Hin|Hin]; [by eapply L1|].
      rewrite transitions_one in Hin. destruct He as [He|He]; rewrite He in Hin;
        [by apply elem_of_nil in Hin|]. apply list_elem_of_singleton in Hin. simplify_eq. by exists x.
    + rewrite transitions_app, transitions_one. apply Forall_app. split; [done|].
      destruct He as [He|He]; rewrite He; [by constructor|by apply Forall_singleton].
    + intros q y Hy Hl. rewrite last_status_other; [by apply L2|]. intros p' s' E.
      destruct He as [He|He]; rewrite He in E; [done|]. injection E as _ <- _. by apply (Hl b).
  - by eapply times_ok_event.
Qed.

Lemma release_phases_Ok but now b w l : inv but now w →
  (∀ kv, kv ∈ l → (b, kv.1) ∈ anchors w ∧ ∃ x s, phases w !! kv.1 = Some x ∧
     skels w !! ph_plan x = Some s ∧ sk_status s ≠ "completed") →
  let w' := foldr (λ kv w, update_phase_row (release_phase now) kv.1 w) w (l : list (Uuid * Phase)) in
  inv but now w' ∧ skels w' = skels w ∧ anchors w' = anchors w ∧ attachments w' = attachments w ∧
  pty_sessions w' = pty_sessions w ∧ plan_events w' = plan_events w ∧
  ∀ q x, phases w !! q = Some x → ∃ y, phases w' !! q = Some y ∧ ph_plan y = ph_plan x.
Proof.
  intros Hi. induction l as [|kv l IH]; intros Hl; cbn [foldr].
  { split_and!; try done. intros q x Hx. by exists x. }
  destruct IH as (I1 & S1 & A1 & T1 & E1 & L1 & P1); [intros kv' ?; apply Hl; by right|].
  set (w1 := foldr _ w l) in *. destruct (Hl kv) as (Hb & x & s & Hx & Hs & Hc); [by left|].
  destruct (P1 _ _ Hx) as (y & Hy & Hyp). split.
  { apply (inv_phase_anchored but now kv.1 (release_phase now) y b); try done.
    - by rewrite A1.
    - by apply (bool_decide_unpack _).
    - intros s'. rewrite S1, Hyp, Hs. by intros [= <-]. }
  split_and!; try done. intros q z Hz. destruct (P1 _ _ Hz) as (z1 & Hz1 & Hzp). cbn.
  destruct (decide (q = kv.1)) as [->|Hne]; [|rewrite lookup_alter_ne by done; by exists z1].
  rewrite lookup_alter_eq, Hz1. by eexists.
Qed.

Lemma release_anchors_Ok but plan_id parent actor note now w w' s t : inv but now w →
  release_anchors plan_id parent actor note now w = Ok w' →
  skels w !! plan_id = Some s → sk_parent s = Some parent →
  skels w !! parent = Some t → is_open (sk_status t) = true →
  inv but now w' ∧ same_rows_but_phases w w' ∧ attachments w' = attachments w.
Proof.
  intros Hi H Hs Hp Ht Ho. unfold release_anchors in H.
  assert (Hl : ∀ kv, kv ∈ blocked_anchors plan_id w → (plan_id, kv.1) ∈ anchors w ∧
    ∃ x, phases w !! kv.1 = Some x ∧ ph_plan x = parent).
  { intros kv [[_ Ha] Hin]%list_elem_of_filter. apply bool_decide_eq_true in Ha. split; [done|].
    destruct (in_anchors _ _ _ Hi _ _ Ha) as (s' & x & Hs' & Hx & Hpar). exists x. split; [done|]. congruence. }
  destruct (release_phases_Ok but now plan_id w (blocked_anchors plan_id w) Hi)
    as (I1 & S1 & A1 & T1 & E1 & L1 & P1).
  { intros kv Hkv. destruct (Hl kv Hkv) as (Ha & x & Hx & Hxp). split; [done|]. exists x, t.
    rewrite Hxp. split_and!; [done|done|by apply open_not_completed]. }
  revert H. cbn zeta in *. set (w1 := foldr _ w _) in *. intros H.
  assert (Hgen : ∀ l w2, (∀ kv, kv ∈ l → kv ∈ blocked_anchors plan_id w) → inv but now w2 →
    skels w2 = skels w1 ∧ anchors w2 = anchors w1 ∧ attachments w2 = attachments w1 ∧
    pty_sessions w2 = pty_sessions w1 ∧ phases w2 = phases w1 →
    try_fold (λ w kv, insert_event parent (Some kv.1) "phase_status_changed" actor (Some "blocked")
                (Some "in_progress") (Some (default "branch completed" note)) now w) l w2 = Ok w' →
    inv but now w' ∧ skels w' = skels w1 ∧ anchors w' = anchors w1 ∧ attachments w' = attachments w1 ∧
    pty_sessions w' = pty_sessions w1).
  { induction l as [|kv l IH]; intros w2 Hin I2 (S2 & A2 & T2 & E2 & P2); cbn.
    - intros [= <-]. by split_and!.
    - intros (w3 & H3 & H4)%res_bind_Ok. destruct (Hl kv) as (Ha & x & Hx & Hxp); [apply Hin; by left|].
      destruct (P1 _ _ Hx) as (y & Hy & Hyp). eapply IH; [intros; apply Hin; by right| |..|exact H4].
      + eapply (inv_event_anchored but now plan_id); [exact I2|exact H3|by rewrite P2| | |].
        * congruence.
        * by rewrite A2, A1.
        * by apply (bool_decide_unpack _).
      + apply insert_event_row_Ok in H3 as ->. by split_and!. }
  destruct (Hgen _ w1 (λ kv Hk, Hk) I1 ltac:(by split_and!) H) as (I2 & S2 & A2 & T2 & E2).
  split; [done|]. split; [split; congruence|congruence].
Qed.

(** Where the terminals of a closing plan go. *)
Definition popped (plan_id : Uuid) (parent : option Uuid) (w : World) (q : Uuid) : option Uuid :=
  if bool_decide (attached_plan q w = Some plan_id)
  then if is_some (live_pty q w) then parent else None
  else attached_plan q w.

Lemma pop_ptys_Ok but parent actor now l w w' : inv but now w →
  try_fold (pop_pty show_uuid parent actor now) l w = Ok w' →
  (∃ s, skels w !! parent = Some s ∧ is_open (sk_status s) = true) →
  inv but now w' ∧ same_rows w w' ∧
  ∀ q, attached_plan q w' = if bool_decide (q ∈ l) && is_some (live_pty q w) then Some parent
                            else attached_plan q w.
Proof.
  intros Hi. revert w Hi. induction l as [|a l IH]; intros w Hi H Hp.
  - injection H as <-. split_and!; done.
  - cbn in H. apply res_bind_Ok in H as (w1 & H1 & H).
    assert (inv but now w1 ∧ same_rows w w1 ∧
      ∀ q, attached_plan q w1 = if bool_decide (q = a) && is_some (live_pty q w) then Some parent
                                else attached_plan q w) as (I1 & S1 & A1).
    { unfold pop_pty in H1. destruct (is_some (live_pty a w)) eqn:El.
      - destruct (attach_in_tx_Ok _ _ _ _ _ _ _ _ H1 Hi Hp) as (I1 & S1 & A1).
        split_and!; [done|done|]. intros q. rewrite A1.
        destruct (decide (a = q)) as [->|]; [by rewrite !bool_decide_true, El|].
        by rewrite !bool_decide_false by congruence.
      - injection H1 as <-. split_and!; [done|done|]. intros q.
        case_bool_decide; [|done]. subst q. by rewrite El. }
    destruct (IH w1 I1 H) as (I2 & S2 & A2); [by rewrite (sr_skels _ _ S1)|].
    split_and!; [done|by eapply same_rows_trans|]. intros q. rewrite A2, A1.
    assert (live_pty q w1 = live_pty q w) as -> by (unfold live_pty; by rewrite (sr_ptys _ _ S1)).
    destruct (is_some (live_pty q w)); [|by rewrite !andb_false_r]. rewrite !andb_true_r.
    destruct (decide (q = a)) as [->|Hne].
    + rewrite (bool_decide_true (a ∈ a :: l)) by by left. rewrite (bool_decide_true (a = a)) by done.
      by case_bool_decide.
    + rewrite (bool_decide_false (q = a)) by done. rewrite (bool_decide_ext (q ∈ a :: l) (q ∈ l)); [done|].
      rewrite elem_of_cons. split; [by intros [|]|by right].
Qed.

Lemma elem_of_live_attachments plan_id w q : NoDup (at_pty <$> live (attachments w)) →
  q ∈ (at_pty <$> live_attachments plan_id w) ↔ attached_plan q w = Some plan_id.
Proof.
  intros Hn. rewrite attached_plan_live, at_of_Some by done. rewrite list_elem_of_fmap.
  unfold live_attachments, live. setoid_rewrite merge_sort_Permutation.
  split.
  - intros (a & -> & [[Hl Hp] Ha]%list_elem_of_filter). exists a. split_and!; [|done|done].
    by apply list_elem_of_filter.
  - intros (a & [Hl Ha]%list_elem_of_filter & <- & Hp). exists a. split; [done|].
    by apply list_elem_of_filter.
Qed.

Lemma close_Ok plan_id parent status actor note now w w' s :
  close_branch_into_parent show_uuid plan_id parent status actor note now w = Ok w' →
  inv (Some plan_id) now w → skels w !! plan_id = Some s → sk_parent s = parent →
  is_open (sk_status s) = false →
  inv None now w' ∧ same_rows_but_phases w w' ∧
  ∀ q, attached_plan q w' = popped plan_id (parent_open parent w) w q.
Proof.
  unfold close_branch_into_parent. intros H Hi Hs Hpar Hcl.
  pose proof (proj1 (in_attached _ _ _ Hi)) as Hn.
  assert (Hdet : ∀ w1, NoDup (at_pty <$> live (attachments w1)) → ∀ q,
    attached_plan q (detach_where (λ a, bool_decide (at_plan a = plan_id)) now w1) =
    if bool_decide (attached_plan q w1 = Some plan_id) then None else attached_plan q w1).
  { intros w1 Hn1 q. rewrite attached_plan_detach by done. rewrite attached_plan_live. unfold at_of.
    destruct (List.find _ _) as [a|]; [|by rewrite bool_decide_false]. cbn.
    rewrite (bool_decide_ext (Some (at_plan a) = Some plan_id) (at_plan a = plan_id)) by (split; [by intros [= ->]|by intros ->]).
    done. }
  destruct (parent_open parent w) as [p|] eqn:Ep.
  2:{ injection H as <-. split; [by apply inv_detach_plan|]. split; [done|]. intros q.
      rewrite Hdet by done. unfold popped. case_bool_decide; [|done]. by destruct (is_some _). }
  apply bind_Some in Ep as (p0 & -> & (pp & Hpp & E)%bind_Some).
  destruct (is_open (pl_status pp)) eqn:Hopen; [|done]. injection E as ->.
  assert (Ht : skels w !! p = Some (skel pp)) by (unfold skels; by rewrite lookup_fmap, Hpp).
  assert (Hne : p ≠ plan_id).
  { intros ->. assert (s = skel pp) as -> by congruence. cbn in Hcl. congruence. }
  apply res_bind_Ok in H as (w1 & H1 & H). apply res_bind_Ok in H as (w2 & H2 & H).
  apply res_bind_Ok in H as (w3 & H3 & H).
  assert (inv (Some plan_id) now w1 ∧ same_rows_but_phases w w1 ∧ attachments w1 = attachments w)
    as (I1 & S1 & A1).
  { case_bool_decide; [|by injection H1 as <-].
    by eapply (release_anchors_Ok (Some plan_id) plan_id p _ _ _ _ _ s (skel pp) Hi H1). }
  assert (Hn1 : NoDup (at_pty <$> live (attachments w1))) by by rewrite A1.
  destruct (pop_ptys_Ok None p actor now _ _ w2 (inv_detach_plan _ _ now _ I1) H2) as (I2 & S2 & A2).
  { exists (skel pp). split; [|done]. by rewrite skels_detach, (sp_skels _ _ S1). }
  pose proof (inv_bump _ _ _ _ _ _ I2 H3) as I3.
  split; [eapply inv_event; [exact I3|exact H|by left]|].
  destruct (event_same _ _ _ _ _ _ _ _ _ _ H) as [E1 _ E3 E4].
  destruct (bump_same _ _ _ _ H3) as [F1 _ F3 F4]. destruct S2 as [G1 _ G3 G4], S1 as [K1 K3 K4].
  split; [split; [rewrite E1, F1, G1; exact K1|rewrite E3, F3, G3; exact K3|rewrite E4, F4, G4; exact K4]|].
  intros q. rewrite (attached_plan_same _ _ _ (event_attachments _ _ _ _ _ _ _ _ _ _ H)).
  rewrite (attached_plan_same _ _ _ (bump_attachments _ _ _ _ H3)), A2, (Hdet w1 Hn1).
  rewrite (attached_plan_same q w w1 A1). unfold popped.
  assert (live_pty q (detach_where (λ a, bool_decide (at_plan a = plan_id)) now w1) = live_pty q w) as ->
    by (unfold live_pty; cbn; by rewrite K4).
  rewrite (bool_decide_ext (q ∈ _) (attached_plan q w = Some plan_id)).
  2:{ rewrite elem_of_live_attachments by done. by rewrite (attached_plan_same q w w1 A1). }
  destruct (bool_decide (attached_plan q w = Some plan_id)); [|done]. cbn.
  by destruct (is_some (live_pty q w)).
Qed.
Lemma parent_open_skels parent w :
  parent_open parent w =
  (id ← parent; s ← skels w !! id; if is_open (sk_status s) then Some id else None).
Proof.
  unfold parent_open, skels. destruct parent as [id|]; [|done]. cbn. rewrite lookup_fmap.
  by destruct (plans w !! id).
Qed.

(** ** Updating and closing *)

Lemma may_close_Ok plan_id skip w u : may_close plan_id "completed" skip w = Ok u → skip = false →
  ∀ id x, phases w !! id = Some x → ph_plan x = plan_id → is_done (ph_status x) = true.
Proof.
  unfold may_close. intros H -> id x Hx Hp. destruct (_ && _) in H; [done|].
  rewrite bool_decide_true, andb_true_r in H by done. cbn [andb] in H.
  destruct (unfinished_phases plan_id w) as [|kv l] eqn:E.
  2:{ cbn zeta in H. by rewrite (proj2 (Z.ltb_lt 0 (Z.of_nat (length (kv :: l)))) ltac:(cbn; lia)) in H. }
  destruct (is_done (ph_status x)) eqn:Ed; [done|]. exfalso.
  assert ((id, x) ∈ unfinished_phases plan_id w) as Hin.
  { apply list_elem_of_filter. split; [done|]. by apply elem_of_ordered. }
  rewrite E in Hin. by apply elem_of_nil in Hin.
Qed.

Lemma record_change_same plan_id actor before after n now w w' :
  record_change plan_id actor before after n now w = Ok w' →
  same_rows w w' ∧ attachments w' = attachments w.
Proof.
  unfold record_change. destruct (_ || _); [by intros [= <-]|]. by intros ->%insert_event_row_Ok.
Qed.

Definition with_skel_status (status : string) (s : Skel) : Skel :=
  mkSkel (sk_repo s) status (sk_parent s) (sk_root s) (sk_depth s).

Lemma update_Ok plan_id input actor now w w' p :
  update show_uuid plan_id input actor now w = Ok w' → inv None now w →
  plans w !! plan_id = Some p →
  let status := default (pl_status p) (up_status input) in
  inv None now w' ∧ skels w' = <[plan_id := with_skel_status status (skel p)]> (skels w) ∧
  pty_sessions w' = pty_sessions w ∧ anchors w' = anchors w ∧
  ∀ q, attached_plan q w' = if is_closed status
                            then popped plan_id (parent_open (pl_parent p) w) w q
                            else attached_plan q w.
Proof.
  unfold update. intros (_ & _ & H)%res_bind_Ok Hi Hp.
  apply res_bind_Ok in H as (p0 & Hp0%ok_or_Ok & H). assert (p0 = p) as -> by congruence.
  apply res_bind_Ok in H as (title & _ & H). apply res_bind_Ok in H as (summary & _ & H).
  apply res_bind_Ok in H as (g & _ & H). cbn zeta in *. set (status := default _ _) in *.
  apply res_bind_Ok in H as (u & Hst & H). unfold validate_plan_status in Hst.
  destruct (bool_decide (status ∈ PLAN_STATUSES)) eqn:Hst' in Hst; [|done].
  apply bool_decide_eq_true in Hst'. apply res_bind_Ok in H as (note & _ & H).
  destruct (up_require_branch input && is_none (pl_parent p)); [done|].
  apply res_bind_Ok in H as (u2 & Hclose & H). apply res_bind_Ok in H as (w1 & H1 & H).
  apply res_bind_Ok in H as (r & _ & H).
  assert (Hpar : pl_parent p ≠ Some plan_id).
  { intros E. pose proof (in_tree _ _ _ Hi plan_id (skel p)) as Ht.
    destruct Ht as [_ _ Ht]; [unfold skels; by rewrite lookup_fmap, Hp|]. cbn in Ht. rewrite E in Ht.
    destruct Ht as (t & Ht & Hd & _). unfold skels in Ht. rewrite lookup_fmap, Hp in Ht.
    injection Ht as <-. cbn in Hd. lia. }
  assert (inv None now w1 ∧ plans w1 = plans w ∧ anchors w1 = anchors w ∧
    attachments w1 = attachments w ∧ pty_sessions w1 = pty_sessions w ∧
    (status = "completed" → ∀ id x, phases w1 !! id = Some x → ph_plan x = plan_id →
       is_done (ph_status x) = true)) as (I1 & P1 & An1 & A1 & T1 & D1).
  { destruct (is_closed status && up_skip_remaining input) eqn:Eskip.
    - destruct (skip_remaining_Ok _ _ _ _ _ _ _ Hi H1) as (I1 & _ & An1 & A1 & T1 & R1).
      split; [done|]. split; [by eapply skip_remaining_plans|]. split_and!; [done..|].
      intros _ id x Hx Hxp. rewrite R1 in Hx. apply fmap_Some in Hx as (y & Hy & ->).
      destruct (bool_decide (ph_plan y = plan_id)) eqn:Ey; cbn [andb] in *.
      + destruct (is_done (ph_status y)) eqn:Ed; [exact Ed|]. by apply (bool_decide_unpack _).
      + by apply bool_decide_eq_false in Ey.
    - injection H1 as <-. split_and!; [done..|]. intros E. rewrite E in Eskip, Hclose. cbn in Eskip.
      by apply (may_close_Ok _ _ _ _ Hclose). }
  set (f := updated_plan _ _ _ _ _ _) in H. cbn zeta in H.
  assert (Hp1 : plans w1 !! plan_id = Some p) by by rewrite P1.
  assert (Hsk1 : skels w1 = skels w) by (unfold skels; by rewrite P1).
  pose proof (inv_plan_status now f plan_id p w1 I1 Hp1 eq_refl eq_refl eq_refl eq_refl Hst' D1) as I2.
  pose proof (skels_status f plan_id p w1 Hp1) as S2. set (w2 := update_plan_row f plan_id w1) in *.
  apply res_bind_Ok in H as (w3 & H3 & H). apply res_bind_Ok in H as (w4 & H4 & H).
  pose proof (inv_record_change _ _ _ _ _ _ _ _ _ I2 H3) as I3.
  pose proof (inv_event _ _ _ _ _ _ _ _ _ _ _ I3 H4 (or_introl eq_refl)) as I4.
  destruct (record_change_same _ _ _ _ _ _ _ _ H3) as [E3 A3].
  pose proof (same_rows_trans _ _ _ E3 (event_same _ _ _ _ _ _ _ _ _ _ H4)) as [S4 _ An4 T4].
  assert (A4 : attachments w4 = attachments w).
  { rewrite (event_attachments _ _ _ _ _ _ _ _ _ _ H4), A3. exact A1. }
  change (pl_status (f p)) with status in I4.
  assert (Hsk4 : skels w4 = <[plan_id := with_skel_status status (skel p)]> (skels w))
    by (rewrite S4, S2, Hsk1; done).
  rewrite (not_closed_open _ Hst') in *. destruct (is_open status) eqn:Eo; cbn [negb] in *.
  - injection H as <-. split_and!; [exact I4|exact Hsk4|rewrite T4; exact T1|rewrite An4; exact An1|].
    intros q. by apply attached_plan_same.
  - destruct (close_Ok _ _ _ _ _ _ _ _ (with_skel_status status (skel p)) H I4) as (I5 & [S5 An5 T5] & A5);
      [by rewrite Hsk4, lookup_insert_eq|done|done|].
    split_and!; [done|by rewrite S5|rewrite T5, T4; exact T1|rewrite An5, An4; exact An1|].
    intros q. rewrite A5. unfold popped. rewrite (attached_plan_same q w w4 A4).
    assert (live_pty q w4 = live_pty q w) as -> by (unfold live_pty; rewrite T4; cbn; by rewrite T1).
    assert (parent_open (pl_parent p) w4 = parent_open (pl_parent p) w) as ->; [|done].
    rewrite !parent_open_skels, Hsk4. destruct (pl_parent p) as [par|]; [|done]. cbn.
    by rewrite lookup_insert_ne by congruence.
Qed.
(** ** Renaming a repository *)

Definition renamed_skel (old_name new_name : string) (s : Skel) : Skel :=
  if bool_decide (sk_repo s = old_name)
  then mkSkel new_name (sk_status s) (sk_parent s) (sk_root s) (sk_depth s) else s.

Lemma inv_rename old_name new_name now w w' : rename_repo_plans old_name new_name now w = Ok w' →
  inv None now w → inv None now w'.
Proof.
  unfold rename_repo_plans. destruct (forallb _ _); [|done].
  intros [= <-] [T P Po A An D L Ti].
  assert (Hsk : skels (set_plans (renamed_plan old_name new_name now <$> plans w) w)
                = renamed_skel old_name new_name <$> skels w).
  { unfold skels. cbn. rewrite <-!map_fmap_compose. apply map_fmap_ext. intros i p _. cbn.
    unfold renamed_plan, renamed_skel, skel. cbn. by case_bool_decide. }
  assert (Hf : ∀ s, let s' := renamed_skel old_name new_name s in
    sk_status s' = sk_status s ∧ sk_parent s' = sk_parent s ∧ sk_root s' = sk_root s ∧
    sk_depth s' = sk_depth s).
  { intros s. unfold renamed_skel. by case_bool_decide. }
  split; rewrite ?Hsk; cbn; try done.
  - intros id s'. rewrite lookup_fmap. intros (s & Hs & ->)%fmap_Some.
    destruct (Hf s) as (E1 & E2 & E3 & E4). destruct (T id s Hs) as [S1 S2 S3].
    split; rewrite ?E1, ?E2, ?E3, ?E4; [done..|]. destruct (sk_parent s); [|done].
    destruct S3 as (t & Ht & ? & ? & Er). exists (renamed_skel old_name new_name t).
    rewrite lookup_fmap, Ht. destruct (Hf t) as (F1 & F2 & F3 & F4). rewrite F3, F4.
    split_and!; [done..|]. unfold renamed_skel. rewrite Er. by case_bool_decide.
  - intros id x Hx. destruct (P id x Hx) as [[s Hs] ?]. split; [|done]. rewrite lookup_fmap, Hs. by eexists.
  - destruct A as [N O]. split; [done|]. intros a Ha Hb. destruct (O a Ha Hb) as (s & Hs & ?).
    eexists. rewrite lookup_fmap, Hs. split; [done|]. by rewrite (proj1 (Hf s)).
  - intros b id Hb. destruct (An b id Hb) as (s & x & Hs & Hx & ?).
    eexists _, x. rewrite lookup_fmap, Hs. split_and!; [done|done|]. by rewrite (proj1 (proj2 (Hf s))).
  - intros id x s' Hx. rewrite lookup_fmap. intros (s & Hs & ->)%fmap_Some.
    rewrite (proj1 (Hf s)). by apply (D id x s).
Qed.
End ops.

(** ** Histories *)

Section histories.
Context (parse_uuid : string → option Uuid) (show_uuid : Uuid → string).

(** ** Histories *)

Inductive PlanOp : Type :=
| OpCreate (ids : nat → Uuid) (input : CreatePlanInput)
| OpAddPhase (phase_id plan_id : Uuid) (phase : NewPhase)
| OpUpdatePhase (plan_id phase_id : Uuid) (input : UpdatePhaseInput)
| OpUpdate (plan_id : Uuid) (input : UpdatePlanInput)
| OpBranch (ids : nat → Uuid) (parent : Uuid) (input : BranchPlanInput)
| OpAttach (plan_id pty : Uuid)
| OpDetach (plan_id pty : Uuid)
| OpRename (old_name new_name : string).

Definition run_op (op : PlanOp) (actor : PlanActor) (now : Z) (w : World) : res World :=
  match op with
  | OpCreate ids input => create show_uuid ids input actor now w
  | OpAddPhase phase_id plan_id phase => add_phase show_uuid phase_id plan_id phase actor now w
  | OpUpdatePhase plan_id phase_id input => update_phase show_uuid plan_id phase_id input actor now w
  | OpUpdate plan_id input => update show_uuid plan_id input actor now w
  | OpBranch ids parent input => branch parse_uuid show_uuid ids parent input actor now w
  | OpAttach plan_id pty => attach show_uuid plan_id pty actor now w
  | OpDetach plan_id pty => detach show_uuid plan_id pty actor now w
  | OpRename old_name new_name => rename_repo_plans old_name new_name now w
  end.

Definition set_sessions (ptys : gmap Uuid PtyRow) (sessions : gset Uuid) (w : World) : World :=
  mkWorld (plans w) (phases w) (attachments w) (anchors w) (plan_events w) ptys sessions.

(** The tables and the time of the last transaction. Terminals and agent
    sessions come and go as the rest of the program has it. *)
Inductive step : Z * World → Z * World → Prop :=
| StepOp op actor t now w w' :
    t ≤ now → run_op op actor now w = Ok w' → step (t, w) (now, w')
| StepSessions ptys sessions t w : step (t, w) (t, set_sessions ptys sessions w).

Definition no_plans (ptys : gmap Uuid PtyRow) (sessions : gset Uuid) : World :=
  mkWorld ∅ ∅ [] ∅ [] ptys sessions.

(** What some history reaches from empty tables. *)
Definition reachable (t : Z) (w : World) : Prop :=
  ∃ t0 ptys sessions, rtc step (t0, no_plans ptys sessions) (t, w).

Lemma inv_none t ptys sessions : inv None t (no_plans ptys sessions).
Proof.
  assert (E : skels (no_plans ptys sessions) = ∅) by apply fmap_empty.
  split; rewrite ?E; cbn.
  - intros id s. by rewrite lookup_empty.
  - intros id s. by rewrite lookup_empty.
  - intros p. unfold positions. by rewrite map_to_list_empty.
  - split; [apply NoDup_nil_2|]. by intros a ?%elem_of_nil.
  - by intros b id ?%elem_of_empty.
  - intros id x s. by rewrite lookup_empty.
  - split; [by intros p id s ?%elem_of_nil|constructor|]. intros id x. by rewrite lookup_empty.
  - split; [constructor|constructor|apply map_Forall_empty].
Qed.

Lemma inv_op op actor now w w' : run_op op actor now w = Ok w' → inv None now w → inv None now w'.
Proof.
  intros H Hi. destruct op; cbn in H.
  - by eapply inv_create.
  - by eapply inv_add_phase.
  - by eapply inv_update_phase.
  - pose proof H as H0. unfold update in H0. apply res_bind_Ok in H0 as (u & _ & H0).
    apply res_bind_Ok in H0 as (p & Hp%ok_or_Ok & _).
    by eapply update_Ok.
  - by eapply branch_Ok.
  - by eapply inv_attach_op.
  - by eapply inv_detach_op.
  - by eapply inv_rename.
Qed.

Lemma reachable_inv t w : reachable t w → inv None t w.
Proof.
  intros (t0 & ptys & sessions & H).
  refine (rtc_ind_r (λ s, inv None s.1 s.2) _ _ _ _ H); [apply inv_none|].
  intros s s' _ Hs Hi. destruct Hs as [op actor t1 now w1 w2 Ht Hop|ptys' sessions' t1 w1]; cbn in *.
  - eapply inv_op; [done|]. by eapply inv_later.
  - by eapply inv_frame.
Qed.
End histories.

(** ** The order of phases *)

(** The phases of a plan in order. *)
Definition ordered_ids (plan_id : Uuid) (w : World) : list Uuid := (ordered_phases plan_id w).*1.

(** The [old]-th of a list taken out and put back as the [new]-th. *)
Definition relocate {A} (old new : nat) (l : list A) : list A :=
  let rest := delete old l in
  take new rest ++ match l !! old with Some x => [x] | None => [] end ++ drop new rest.

Lemma ordered_sorted plan_id w :
  StronglySorted Z.le ((λ kv, ph_position kv.2) <$> ordered_phases plan_id w).
Proof.
  unfold ordered_phases. assert (StronglySorted position_le (merge_sort position_le (phases_of plan_id w))) as Hs.
  { apply StronglySorted_merge_sort; unfold position_le.
    - intros a b c; cbn. lia.
    - intros a b; cbn. lia. }
  induction Hs as [|a l Hs IH Hall]; cbn; constructor; [done|].
  rewrite Forall_fmap. eapply Forall_impl; [exact Hall|]. intros b. unfold position_le. done.
Qed.

Lemma ordered_positions plan_id w : positions_ok (phases w) →
  (λ kv, ph_position kv.2) <$> ordered_phases plan_id w =
  seqZ 1 (Z.of_nat (length (ordered_phases plan_id w))).
Proof.
  intros Hok. apply (StronglySorted_unique Z.le).
  - apply ordered_sorted.
  - apply Sorted_StronglySorted; [exact Z.le_trans|]. generalize (Z.of_nat (length (ordered_phases plan_id w))).
    intros n. destruct (decide (0 ≤ n)) as [Hn|]; [|rewrite seqZ_nil by lia; constructor].
    generalize 1. revert Hn. apply (natlike_ind (λ n, ∀ k, Sorted Z.le (seqZ k n))); [constructor|].
    intros m Hm IH k. rewrite seqZ_cons by lia. rewrite Z.pred_succ. constructor; [apply IH|].
    destruct (decide (m = 0)) as [->|]; [constructor|]. rewrite seqZ_cons by lia. constructor. lia.
  - unfold ordered_phases. rewrite merge_sort_Permutation. specialize (Hok plan_id).
    unfold positions in Hok. fold (phases_of plan_id w) in Hok. rewrite length_fmap in Hok. exact Hok.
Qed.

(** Where a phase stands in the list is its position. *)
Lemma ordered_lookup plan_id w i id : positions_ok (phases w) →
  ordered_ids plan_id w !! i = Some id ↔
  ∃ x, phases w !! id = Some x ∧ ph_plan x = plan_id ∧ ph_position x = Z.of_nat i + 1.
Proof.
  intros Hok. pose proof (ordered_positions plan_id w Hok) as Hp. unfold ordered_ids.
  rewrite list_lookup_fmap. split.
  - intros ([id' x] & Hi & ->)%fmap_Some. pose proof (list_elem_of_lookup_2 _ _ _ Hi) as Hx.
    apply elem_of_ordered in Hx as [Hx Hplan]. exists x. split_and!; [done|done|].
    apply (f_equal (λ l : list Z, l !! i)) in Hp. rewrite list_lookup_fmap, Hi in Hp. cbn in Hp.
    symmetry in Hp. apply lookup_seqZ in Hp as [Hp _]. lia.
  - intros (x & Hx & Hplan & Hpos).
    assert ((id, x) ∈ ordered_phases plan_id w) as Hin by by apply elem_of_ordered.
    apply list_elem_of_lookup in Hin as (j & Hj).
    apply (f_equal (λ l : list Z, l !! j)) in Hp. rewrite list_lookup_fmap, Hj in Hp. cbn in Hp.
    symmetry in Hp. apply lookup_seqZ in Hp as [Hp _]. assert (j = i) as -> by lia. by rewrite Hj.
Qed.

Lemma length_ordered plan_id w : length (ordered_ids plan_id w) = length (positions plan_id (phases w)).
Proof.
  unfold ordered_ids, ordered_phases. rewrite length_fmap, merge_sort_Permutation. apply length_positions.
Qed.

Lemma relocate_lookup {A} (old new i : nat) (l : list A) : (old < length l)%nat → (new < length l)%nat →
  relocate old new l !! i =
  l !! (if decide (i = new) then old
        else if decide (i < new)%nat then (if decide (i < old)%nat then i else S i)
        else (if decide (old < i)%nat then i else (i - 1)%nat)).
Proof.
  intros Ho Hn. unfold relocate. destruct (lookup_lt_is_Some_2 l old Ho) as [x Hx]. rewrite Hx.
  assert (Hlen : length (delete old l) = (length l - 1)%nat) by by apply length_delete.
  assert (Htake : length (take new (delete old l)) = new) by (rewrite length_take; lia).
  assert (Hdel : ∀ k, delete old l !! k = l !! (if decide (k < old)%nat then k else S k)).
  { intros k. apply list_lookup_delete. }
  destruct (decide (i = new)) as [->|Hne].
  - rewrite lookup_app_r by lia. rewrite Htake, Nat.sub_diag. cbn. by rewrite Hx.
  - destruct (decide (i < new)%nat).
    + rewrite lookup_app_l by lia. rewrite lookup_take_lt by done. apply Hdel.
    + rewrite lookup_app_r by lia. rewrite Htake. rewrite lookup_app_r by (cbn; lia). rewrite lookup_drop, Hdel. cbn [length].
      f_equal. repeat case_decide; lia.
Qed.

Lemma place_lookup (ph : gmap Uuid Phase) id : (place <$> ph) !! id = place <$> (ph !! id).
Proof. apply lookup_fmap. Qed.

Lemma ordered_moved plan_id w w' old new : positions_ok (phases w) → positions_ok (phases w') →
  1 ≤ old ≤ Z.of_nat (length (ordered_ids plan_id w)) →
  1 ≤ new ≤ Z.of_nat (length (ordered_ids plan_id w)) →
  place <$> phases w' = move_place plan_id old new <$> (place <$> phases w) →
  ordered_ids plan_id w' =
  relocate (Z.to_nat (old - 1)) (Z.to_nat (new - 1)) (ordered_ids plan_id w).
Proof.
  intros Hok Hok' Ho Hn E. apply list_eq. intros i. apply option_eq. intros id.
  rewrite relocate_lookup by lia. rewrite !ordered_lookup by done.
  assert (Hpl : ∀ x', phases w' !! id = Some x' ↔ phases w' !! id = Some x' ∧ ∃ x,
    phases w !! id = Some x ∧ place x' = move_place plan_id old new (place x)).
  { intros x'. split; [|tauto]. intros Hx'. split; [done|].
    apply (f_equal (λ m : gmap Uuid (Uuid * Z), m !! id)) in E.
    rewrite (lookup_fmap (move_place plan_id old new)), !place_lookup, Hx' in E.
    destruct (phases w !! id) as [x|]; [|done]. injection E as E. by exists x. }
  assert (Hmv : ∀ z, moved old new z = Z.of_nat i + 1 ↔ z = Z.of_nat
    (if decide (i = Z.to_nat (new - 1)) then Z.to_nat (old - 1)
     else if decide (i < Z.to_nat (new - 1))%nat then
       (if decide (i < Z.to_nat (old - 1))%nat then i else S i)
     else if decide (Z.to_nat (old - 1) < i)%nat then i else (i - 1)%nat) + 1 ).
  { intros z. clear -Ho Hn. unfold moved.
    repeat case_decide; repeat match goal with |- context [if ?b then _ else _] => destruct b eqn:? end; try lia. }
  split.
  - intros (x' & Hx' & Hplan & Hpos). apply Hpl in Hx' as (_ & x & Hx & Ep). exists x.
    unfold place, move_place in Ep. cbn in Ep. case_bool_decide as Hp; injection Ep as Ep1 Ep2; [|congruence].
    split_and!; [done|done|]. apply Hmv. congruence.
  - intros (x & Hx & Hplan & Hpos).
    apply (f_equal (λ m : gmap Uuid (Uuid * Z), m !! id)) in E.
    rewrite (lookup_fmap (move_place plan_id old new)), !place_lookup, Hx in E.
    destruct (phases w' !! id) as [x'|]; [|done]. exists x'. split; [done|].
    injection E as E. unfold place, move_place in E. cbn in E. rewrite bool_decide_true in E by done.
    injection E as E1 E2. split; [congruence|]. rewrite E2. by apply Hmv.
Qed.

Lemma place_alter f id (ph : gmap Uuid Phase) :
  (∀ x, place (f x) = place x) → place <$> alter f id ph = place <$> ph.
Proof.
  intros Hf. apply map_eq. intros q. rewrite !place_lookup.
  destruct (decide (q = id)) as [->|]; [|by rewrite lookup_alter_ne].
  rewrite lookup_alter_eq. destruct (ph !! id) as [x|]; [|done]. cbn. by rewrite Hf.
Qed.

(** What updating a phase does to the places of the plan's phases. *)
Lemma update_phase_places show_uuid plan_id id input actor now w w' :
  update_phase show_uuid plan_id id input actor now w = Ok w' → positions_ok (phases w) →
  ∃ x, phases w !! id = Some x ∧ ph_plan x = plan_id ∧
    place <$> phases w' =
    match upp_position input with
    | Some pos => move_place plan_id (ph_position x)
        (Z.max 1 (Z.min pos (Z.of_nat (length (positions plan_id (phases w)))))) <$> (place <$> phases w)
    | None => place <$> phases w
    end.
Proof.
  unfold update_phase. intros (u0 & _ & H)%res_bind_Ok Hok.
  apply res_bind_Ok in H as (u & _ & H). apply res_bind_Ok in H as (x & Hx%ok_or_Ok & H).
  apply bind_Some in Hx as (x0 & Hx & Hxp). destruct (bool_decide _) eqn:Hplan in Hxp; [|done].
  apply bool_decide_eq_true in Hplan. injection Hxp as ->. exists x. split; [done|]. split; [done|].
  do 5 (apply res_bind_Ok in H as (? & _ & H)). apply res_bind_Ok in H as (w1 & H1 & H).
  apply res_bind_Ok in H as (w2 & (r & ->)%bump_revision_Ok & H).
  apply res_bind_Ok in H as (w3 & ->%insert_event_row_Ok & H).
  destruct (positions_unique _ _); [|done]. injection H as <-. cbn.
  rewrite place_alter by done. destruct (upp_position input) as [pos|]; [|by injection H1 as <-].
  destruct (move_phase_Ok _ _ _ _ _ _ _ H1 Hx Hplan Hok) as [_ Hrow].
  apply map_eq. intros q. rewrite (lookup_fmap (move_place _ _ _)), !place_lookup, Hrow.
  destruct (phases w !! q) as [y|]; [|done]. cbn. f_equal. unfold move_place, place. cbn.
  by case_bool_decide.
Qed.
