(* ===== verification/PlanViews.v ===== *)
(** * What is read of published plans

    The queries of [plans.rs], [plans/branches.rs] and [plans/phases.rs]: a
    plan with its phases, attachments, breadcrumb and branches, the lists, the
    tree, and the plan or phase a terminal's command names. The recursive
    query for the ancestors of a plan ends, with the path from the root. *)

From S2P Require Import Prelude Text Plans PlanInv.

(** ** Views *)

Record PlanBranchView : Type := mkBranchView {
  bv_id : Uuid;
  bv_plan : Plan;
  bv_total : Z;
  bv_completed : Z;
  bv_anchor_phase_ids : list Uuid;
}.

Record PlanTreeNodeView : Type := mkNode {
  nv_id : Uuid;
  nv_plan : Plan;
  nv_total : Z;
  nv_completed : Z;
  nv_blocked : Z;
  nv_attached : list Uuid;
}.

Record PlanSummaryView : Type := mkSummary {
  sv_id : Uuid;
  sv_plan : Plan;
  sv_total : Z;
  sv_completed : Z;
  sv_blocked : Z;
  sv_current : option (Uuid * Phase);
  sv_attached : list Uuid;
  sv_open_branches : Z;
}.

(** A plan's row and what hangs off it. *)
Record PlanView : Type := mkView {
  pv_id : Uuid;
  pv_row : Plan;
  pv_phases : list (Uuid * Phase);
  pv_attachments : list Attachment;
  pv_anchor_phase_ids : list Uuid;
  pv_ancestors : list (Uuid * Plan);
  pv_branches : list PlanBranchView;
}.

(** ** Breadcrumbs *)

(** The recursive query, one step per row; out of fuel when the parents form
    a cycle, where the query would not end. *)
Fixpoint chain (fuel : nat) (w : World) (id : Uuid) : option (list (Uuid * Plan)) :=
  match fuel with
  | O => None
  | S fuel =>
      match plans w !! id with
      | None => Some []
      | Some p =>
          match pl_parent p with
          | None => Some [(id, p)]
          | Some parent => rest ← chain fuel w parent; Some ((id, p) :: rest)
          end
      end
  end.

Definition depth_le (a b : Uuid * Plan) : Prop := pl_depth a.2 ≤ pl_depth b.2.

#[export] Instance depth_le_dec a b : Decision (depth_le a b).
Proof. unfold depth_le. apply _. Defined.

(** Root first, immediate parent last. *)
Definition ancestors (fuel : nat) (plan_id : Uuid) (w : World) : option (list (Uuid * Plan)) :=
  l ← chain fuel w plan_id;
  Some (merge_sort depth_le (filter (λ kv, kv.1 ≠ plan_id) l)).

(** ** Plans with what hangs off them *)

Definition count_phases (p : Phase → bool) (plan_id : Uuid) (w : World) : Z :=
  Z.of_nat (length (filter (λ kv, p kv.2 = true) (phases_of plan_id w))).

Definition with_status (status : string) (ph : Phase) : bool := bool_decide (ph_status ph = status).

(** Phases in the parent plan that this plan covers. *)
Definition anchor_phase_ids (plan_id : Uuid) (w : World) : list Uuid :=
  (merge_sort position_le (filter (λ kv, (plan_id, kv.1) ∈ anchors w) (map_to_list (phases w)))).*1.

Definition branch_rank (p : Plan) : Z := if is_open (pl_status p) then 0 else 1.

Definition branch_le (a b : Uuid * Plan) : Prop :=
  branch_rank a.2 < branch_rank b.2
  ∨ (branch_rank a.2 = branch_rank b.2 ∧ pl_created_at a.2 ≤ pl_created_at b.2).

#[export] Instance branch_le_dec a b : Decision (branch_le a b).
Proof. unfold branch_le. apply _. Defined.

Definition branch_view (w : World) (kv : Uuid * Plan) : PlanBranchView :=
  mkBranchView kv.1 kv.2 (count_phases (λ _, true) kv.1 w)
    (count_phases (λ ph, is_done (ph_status ph)) kv.1 w) (anchor_phase_ids kv.1 w).

(** Direct sub-plans, open first. *)
Definition branch_views (plan_id : Uuid) (w : World) : list PlanBranchView :=
  branch_view w <$>
    merge_sort branch_le (filter (λ kv, pl_parent kv.2 = Some plan_id) (map_to_list (plans w))).

Definition hydrate (fuel : nat) (id : Uuid) (row : Plan) (w : World) : option PlanView :=
  above ← (if is_some (pl_parent row) then ancestors fuel id w else Some []);
  Some (mkView id row (ordered_phases id w) (live_attachments id w) (anchor_phase_ids id w) above
          (branch_views id w)).

Section views.
Context (show_uuid : Uuid → string) (parse_uuid : string → option Uuid).
(** How the database orders the names of repositories. *)
Context (collate : string → string → bool).

Definition get (fuel : nat) (plan_id : Uuid) (w : World) : res (option PlanView) :=
  row ← ok_or (plans w !! plan_id) ("plan not found: " +:+ show_uuid plan_id);
  Ok (hydrate fuel plan_id row w).

Definition attached_to (pty : Uuid) (w : World) : res Uuid :=
  ok_or (attached_plan pty w) "no plan is attached to this PTY".

Definition current_for_pty (fuel : nat) (pty : Uuid) (w : World) : res (option PlanView) :=
  id ← attached_to pty w; get fuel id w.

(** ** Lists *)

Definition status_rank (status : string) : Z :=
  if bool_decide (status = "active") then 0 else if bool_decide (status = "paused") then 1 else 2.

Definition listing_le (a b : Uuid * Plan) : Prop :=
  status_rank (pl_status a.2) < status_rank (pl_status b.2)
  ∨ (status_rank (pl_status a.2) = status_rank (pl_status b.2)
     ∧ pl_updated_at b.2 ≤ pl_updated_at a.2).

#[export] Instance listing_le_dec a b : Decision (listing_le a b).
Proof. unfold listing_le. apply _. Defined.

Definition repo_rows (repo_name : string) (include_closed : bool) (w : World) : list (Uuid * Plan) :=
  merge_sort listing_le
    (filter (λ kv, pl_repo_name kv.2 = repo_name
                   ∧ (include_closed || is_open (pl_status kv.2)) = true) (map_to_list (plans w))).

Definition list_for_repo (fuel : nat) (repo_name : string) (include_closed : bool) (w : World)
    : option (list PlanView) :=
  mapM (λ kv, hydrate fuel kv.1 kv.2 w) (repo_rows repo_name include_closed w).

Definition summary_le (a b : Uuid * Plan) : Prop :=
  (collate (pl_repo_name a.2) (pl_repo_name b.2) = true
   ∧ collate (pl_repo_name b.2) (pl_repo_name a.2) = false)
  ∨ (pl_repo_name a.2 = pl_repo_name b.2 ∧ pl_updated_at b.2 ≤ pl_updated_at a.2).

#[export] Instance summary_le_dec a b : Decision (summary_le a b).
Proof. unfold summary_le. apply _. Defined.

Definition summary (w : World) (kv : Uuid * Plan) : PlanSummaryView :=
  mkSummary kv.1 kv.2 (count_phases (λ _, true) kv.1 w)
    (count_phases (with_status "completed") kv.1 w) (count_phases (with_status "blocked") kv.1 w)
    (current_phase kv.1 w) (at_pty <$> live_attachments kv.1 w)
    (Z.of_nat (length (open_branches kv.1 w))).

Definition list_open_summaries (w : World) : list PlanSummaryView :=
  summary w <$> merge_sort summary_le
    (filter (λ kv, is_open (pl_status kv.2) = true) (map_to_list (plans w))).

(** ** The tree *)

Definition tree_le (a b : Uuid * Plan) : Prop :=
  pl_depth a.2 < pl_depth b.2
  ∨ (pl_depth a.2 = pl_depth b.2 ∧ pl_created_at a.2 ≤ pl_created_at b.2).

#[export] Instance tree_le_dec a b : Decision (tree_le a b).
Proof. unfold tree_le. apply _. Defined.

Definition node (w : World) (kv : Uuid * Plan) : PlanTreeNodeView :=
  mkNode kv.1 kv.2 (count_phases (λ _, true) kv.1 w)
    (count_phases (λ ph, is_done (ph_status ph)) kv.1 w)
    (count_phases (with_status "blocked") kv.1 w) (at_pty <$> live_attachments kv.1 w).

Definition tree (plan_id : Uuid) (w : World) : res (list PlanTreeNodeView) :=
  p ← ok_or (plans w !! plan_id) ("plan not found: " +:+ show_uuid plan_id);
  Ok (node w <$> merge_sort tree_le
        (filter (λ kv, pl_root kv.2 = pl_root p) (map_to_list (plans w)))).

(** ** The log *)

Definition event_le (a b : nat * PlanEvent) : Prop :=
  pe_created_at b.2 < pe_created_at a.2
  ∨ (pe_created_at b.2 = pe_created_at a.2 ∧ (b.1 ≤ a.1)%nat).

#[export] Instance event_le_dec a b : Decision (event_le a b).
Proof. unfold event_le. apply _. Defined.

(** [ORDER BY created_at DESC, id DESC]: identifiers count the rows. *)
Definition events (plan_id : Uuid) (w : World) : list PlanEvent :=
  (merge_sort event_le (filter (λ ie, pe_plan ie.2 = plan_id) (enumerate (plan_events w)))).*2.

(** ** What a command names *)

Definition for_pty (pty : Uuid) (w : World) : res (PlanActor * string) :=
  row ← ok_or (live_pty pty w) ("live PTY session not found: " +:+ show_uuid pty);
  Ok (mkActor "agent" (Some pty) (pty_current_session row), pty_repo row).

Definition resolve_plan_id (pty : Uuid) (requested : option Uuid) (repo_name : string) (w : World)
    : res Uuid :=
  id ← match requested with Some id => Ok id | None => attached_to pty w end;
  if bool_decide (pl_repo_name <$> plans w !! id = Some repo_name) then Ok id
  else bail ("plan not found in current repo: " +:+ show_uuid id).

Definition phases_resolve_phase_id (plan_id : Uuid) (reference : string) (w : World) : res Uuid :=
  match parse_uuid reference with
  | Some id =>
      ok_or (ph ← phases w !! id;
             if bool_decide (ph_plan ph = plan_id) then Some id else None)
        ("phase not found: " +:+ reference)
  | None =>
      position ← ok_or (parse_i32 reference) "phase must be a UUID or 1-based position";
      ok_or (fst <$> List.find (λ kv, ph_position kv.2 =? position) (phases_of plan_id w))
        ("phase not found at position " +:+ pretty position)
  end.
End views.

(** ** Breadcrumbs *)

(** A path of plans from a root: depths count up and each is the parent of
    the next. *)
Definition path_from (w : World) (root : Uuid) (l : list (Uuid * Plan)) : Prop :=
  ∀ i c, l !! i = Some c →
    plans w !! c.1 = Some c.2 ∧ pl_depth c.2 = Z.of_nat i ∧ pl_root c.2 = root ∧
    match i with
    | O => c.1 = root ∧ pl_parent c.2 = None
    | S j => ∃ a, l !! j = Some a ∧ pl_parent c.2 = Some a.1
    end.

Lemma path_from_app w root l l' : path_from w root (l ++ l') → path_from w root l.
Proof.
  intros H i c Hc. destruct (H i c) as (H1 & H2 & H3 & H4); [by apply lookup_app_l_Some|].
  split_and!; [done..|]. destruct i as [|j]; [done|]. destruct H4 as (a & Ha & Hp). exists a.
  split; [|done]. apply lookup_lt_Some in Hc. rewrite lookup_app_l in Ha by lia. done.
Qed.

Lemma plan_skel w id p : plans w !! id = Some p → skels w !! id = Some (skel p).
Proof. intros H. unfold skels. by rewrite lookup_fmap, H. Qed.

Lemma chain_path w : tree_ok (skels w) → ∀ n id p fuel, plans w !! id = Some p →
  pl_depth p = Z.of_nat n → (n < fuel)%nat →
  ∃ l, chain fuel w id = Some (reverse (l ++ [(id, p)])) ∧ length l = n ∧
       path_from w (pl_root p) (l ++ [(id, p)]).
Proof.
  intros Ht. induction n as [|n IH]; intros id p fuel Hp Hd Hf; (destruct fuel as [|fuel]; [lia|]);
    pose proof (so_parent _ _ _ (Ht _ _ (plan_skel _ _ _ Hp))) as Hpar; cbn in Hpar |- *; rewrite Hp.
  - destruct (pl_parent p) as [q|] eqn:Eq.
    + destruct Hpar as (s & Hs & Hds & _). pose proof (so_depth _ _ _ (Ht _ _ Hs)). lia.
    + exists []. split_and!; [done|done|]. intros [|i] c; [|done]. intros [= <-]. cbn.
      split_and!; [done|done|done|by destruct Hpar|done].
  - destruct (pl_parent p) as [q|] eqn:Eq; [|lia]. destruct Hpar as (s & Hs & Hds & Hr & _).
    unfold skels in Hs. rewrite lookup_fmap in Hs. apply fmap_Some in Hs as (pq & Hq & ->). cbn in Hds, Hr.
    destruct (IH q pq fuel Hq) as (l & Hl & Hlen & Hpath); [lia|lia|]. rewrite Hl. cbn.
    exists (l ++ [(q, pq)]). split_and!.
    + by rewrite (reverse_app _ [(id, p)]).
    + rewrite length_app. cbn. lia.
    + intros i c Hc. apply lookup_app_Some in Hc as [Hc|[Hge Hc]].
      * destruct (Hpath i c Hc) as (H1 & H2 & H3 & H4). rewrite Hr. split_and!; [done..|].
        destruct i as [|j]; [done|]. destruct H4 as (a & Ha & ?). exists a. split; [|done].
        by apply lookup_app_l_Some.
      * rewrite length_app in Hge, Hc. cbn in Hge, Hc.
        apply list_lookup_singleton_Some in Hc as [Hi <-]. assert (i = S (length l)) as -> by lia. cbn.
        split_and!; [done|lia|done|]. exists (q, pq). split; [|done].
        rewrite lookup_app_l by (rewrite length_app; cbn; lia). rewrite lookup_app_r by lia.
        by rewrite Nat.sub_diag.
Qed.

Lemma path_depths w root l : path_from w root l → StronglySorted depth_le l.
Proof.
  intros H. induction l as [|a l IH] using rev_ind; [constructor|].
  apply StronglySorted_app_2; [|apply IH; by eapply path_from_app|by repeat constructor].
  intros x y (i & Hi)%list_elem_of_lookup ->%list_elem_of_singleton. unfold depth_le.
  destruct (H i x) as (_ & -> & _); [by apply lookup_app_l_Some|].
  destruct (H (length l) a) as (_ & -> & _); [by rewrite lookup_app_r, Nat.sub_diag|].
  apply lookup_lt_Some in Hi. lia.
Qed.

Lemma ancestors_path w id p fuel : tree_ok (skels w) → plans w !! id = Some p →
  (Z.to_nat (pl_depth p) < fuel)%nat →
  ∃ l, ancestors fuel id w = Some l ∧ length l = Z.to_nat (pl_depth p) ∧
       path_from w (pl_root p) (l ++ [(id, p)]).
Proof.
  intros Ht Hp Hf. pose proof (so_depth _ _ _ (Ht _ _ (plan_skel _ _ _ Hp))) as Hd. cbn in Hd.
  destruct (chain_path w Ht (Z.to_nat (pl_depth p)) id p fuel Hp) as (l & Hl & Hlen & Hpath); [lia|lia|].
  exists l. split_and!; [|done|done]. unfold ancestors. rewrite Hl. cbn [mbind option_bind]. f_equal.
  rewrite reverse_app. cbn [reverse rev_append app]. rewrite filter_cons. rewrite decide_False by (intros E; by apply E).
  assert (filter (λ kv : Uuid * Plan, kv.1 ≠ id) (reverse l) = reverse l) as ->.
  { apply filter_everything. intros x Hx Hid. rewrite elem_of_reverse in Hx.
    apply list_elem_of_lookup in Hx as (i & Hi).
    destruct (Hpath i x) as (H1 & H2 & _); [by apply lookup_app_l_Some|].
    rewrite Hid, Hp in H1. injection H1 as H1. rewrite <-H1 in H2. apply lookup_lt_Some in Hi. lia. }
  pose proof (path_from_app _ _ _ _ Hpath) as Hpl. apply (StronglySorted_unique_strong depth_le).
  - intros x y Hx (j & Hj)%list_elem_of_lookup Hxy Hyx. rewrite merge_sort_Permutation in Hx.
    rewrite elem_of_reverse in Hx. apply list_elem_of_lookup in Hx as (i & Hi).
    destruct (Hpl _ _ Hi) as (_ & Hdi & _), (Hpl _ _ Hj) as (_ & Hdj & _).
    unfold depth_le in *. assert (i = j) as -> by lia. congruence.
  - apply StronglySorted_merge_sort; unfold depth_le; [intros ???; lia|intros ??; lia].
  - by eapply path_depths.
  - rewrite merge_sort_Permutation. apply reverse_Permutation.
Qed.
