(* ===== verification/Flow.v ===== *)
(** * Flow metrics

    [metrics/flow.rs]: what is under way, blocked and completed in the plans
    of the last weeks, replayed day by day from the log of [Plans]. Times are
    microseconds since the epoch and days are counted from it. *)

From S2P Require Import Prelude Text Plans.

Definition DAILY_WINDOW_DAYS : Z := 14.

Definition MINUTE : Z := 60 * 10 ^ 6.
Definition DAY : Z := 24 * 60 * MINUTE.

(** ** Data *)

Record FlowPlan : Type := mkFlowPlan {
  fpl_id : Uuid;
  fpl_repo : string;
  fpl_title : string;
  fpl_status : string;
  fpl_root : Uuid;
  fpl_depth : Z;
}.

Record FlowPhase : Type := mkFlowPhase {
  fph_id : Uuid;
  fph_plan : Uuid;
  fph_status : string;
  fph_size : option string;
  fph_created_at : Z;
  fph_started_at : option Z;
  fph_completed_at : option Z;
}.

Record FlowEvent : Type := mkFlowEvent {
  fe_phase : option Uuid;
  fe_type : string;
  fe_to : option string;
  fe_created_at : Z;
}.

Record CfdDay : Type := mkCfd {
  cfd_day : Z;
  cfd_pending : Z;
  cfd_in_progress : Z;
  cfd_blocked : Z;
  cfd_completed : Z;
  cfd_skipped : Z;
}.

Record BurndownDay : Type := mkBurndownDay {
  bd_day : Z;
  remaining_weight : Z;
  bd_total_weight : Z;
}.

Record PlanBurndown : Type := mkBurndown {
  bd_plan : Uuid;
  bd_repo : string;
  bd_title : string;
  total_weight : Z;
  bd_days : list BurndownDay;
}.

Record FlowMetrics : Type := mkMetrics {
  wip : Z;
  blocked : Z;
  throughput_weeks : list (Z * Z);
  cycle_time_minutes_p50 : option Z;
  cfd : list CfdDay;
  burndowns : list PlanBurndown;
}.

(** The history of a phase: times and the statuses taken at them. *)
Definition History : Type := list (Z * string).

Definition size_weight (size : option string) : Z :=
  match size with
  | Some s => if bool_decide (s = "m") then 2 else if bool_decide (s = "l") then 3 else 1
  | None => 1
  end.

Definition weight (ph : FlowPhase) : Z := size_weight (fph_size ph).

(** ** Replay *)

Fixpoint status_loop (h : History) (at_ : Z) (status : option string) : option string :=
  match h with
  | [] => status
  | (ts, next) :: h => if at_ <? ts then status else status_loop h at_ (Some next)
  end.

(** Status of a phase as of a time. *)
Definition status_at (h : History) (at_ : Z) : option string := status_loop h at_ None.

Definition STATUS_EVENTS : list string := ["phase_added"; "phase_status_changed"; "phase_updated"].

Definition push_event (t : gmap Uuid History) (e : FlowEvent) : gmap Uuid History :=
  match fe_phase e, fe_to e with
  | Some id, Some status =>
      if bool_decide (fe_type e ∈ STATUS_EVENTS)
      then alter (λ h, h ++ [(fe_created_at e, status)]) id t else t
  | _, _ => t
  end.

Definition seed (t : gmap Uuid History) (ph : FlowPhase) : gmap Uuid History :=
  <[fph_id ph := [(fph_created_at ph, "pending")]]> t.

(** A seeded [pending] at creation, then every status-bearing event. *)
Definition phase_transitions (phases : list FlowPhase) (events : list FlowEvent)
    : gmap Uuid History :=
  foldl push_event (foldl seed ∅ phases) events.

Definition replayed (t : gmap Uuid History) (at_ : Z) (ph : FlowPhase) : option string :=
  h ← t !! fph_id ph; status_at h at_.

(** ** Days *)

Definition date (t : Z) : Z := t / DAY.

Definition daily_window (now : Z) : list Z :=
  (λ back, date now - back) <$> reverse (seqZ 0 DAILY_WINDOW_DAYS).

(** End of the day, clamped to now. *)
Definition day_end (day now : Z) : Z := Z.min ((day + 1) * DAY) now.

(** ** Cumulative flow *)

Definition add_to_bucket (t : gmap Uuid History) (at_ : Z) (b : CfdDay) (ph : FlowPhase) : CfdDay :=
  let w := weight ph in
  let only s := match replayed t at_ ph with
                | Some status => if bool_decide (status = s) then w else 0
                | None => 0
                end in
  mkCfd (cfd_day b) (cfd_pending b + only "pending") (cfd_in_progress b + only "in_progress")
    (cfd_blocked b + only "blocked") (cfd_completed b + only "completed")
    (cfd_skipped b + only "skipped").

Definition cumulative_flow (phases : list FlowPhase) (t : gmap Uuid History) (days : list Z)
    (now : Z) : list CfdDay :=
  (λ day, foldl (add_to_bucket t (day_end day now)) (mkCfd day 0 0 0 0 0) phases) <$> days.

(** ** Burndown *)

Definition burndown_step (t : gmap Uuid History) (at_ : Z) (acc : Z * Z) (ph : FlowPhase) : Z * Z :=
  let '(total, don) := acc in
  if at_ <? fph_created_at ph then (total, don)
  else
    (total + weight ph,
     match replayed t at_ ph with
     | Some status => if is_done status then don + weight ph else don
     | None => don
     end).

Definition burndown_day (t : gmap Uuid History) (phases : list FlowPhase) (now day : Z)
    : BurndownDay :=
  let '(total, don) := foldl (burndown_step t (day_end day now)) (0, 0) phases in
  mkBurndownDay day (total - don) total.

Definition sum_weights (phases : list FlowPhase) : Z := foldr (λ ph s, weight ph + s) 0 phases.

Definition tree_phases (plans : list FlowPlan) (phases : list FlowPhase) (root : Uuid)
    : list FlowPhase :=
  let tree := fpl_id <$> filter (λ p, fpl_root p = root) plans in
  filter (λ ph, fph_plan ph ∈ tree) phases.

(** One line per open plan tree; a branch's phases roll into its root. *)
Definition plan_burndowns (plans : list FlowPlan) (phases : list FlowPhase)
    (t : gmap Uuid History) (days : list Z) (now : Z) : list PlanBurndown :=
  omap (λ plan,
    match tree_phases plans phases (fpl_id plan) with
    | [] => None
    | mine => Some (mkBurndown (fpl_id plan) (fpl_repo plan) (fpl_title plan) (sum_weights mine)
                      (burndown_day t mine now <$> days))
    end)
    (filter (λ p, fpl_status p = "active" ∧ fpl_depth p = 0) plans).

(** ** Completion *)

(** The Monday of a day's week; the epoch was a Thursday. *)
Definition week_start (day : Z) : Z := day - (day + 3) mod 7.

Definition add_throughput (now : Z) (m : gmap Z Z) (ph : FlowPhase) : gmap Z Z :=
  match fph_completed_at ph with
  | Some completed_at =>
      if bool_decide (fph_status ph = "completed") && (now - 28 * DAY <=? completed_at)
      then
        let week := week_start (date completed_at) in
        <[week := default 0 (m !! week) + weight ph]> m
      else m
  | None => m
  end.

Definition week_le (a b : Z * Z) : Prop := a.1 ≤ b.1.

#[export] Instance week_le_dec a b : Decision (week_le a b).
Proof. unfold week_le. apply _. Defined.

Definition throughput (phases : list FlowPhase) (now : Z) : list (Z * Z) :=
  merge_sort week_le (map_to_list (foldl (add_throughput now) ∅ phases)).

(** [num_minutes] of the span, from which the code makes hours. *)
Definition cycle_minutes (now : Z) (ph : FlowPhase) : option Z :=
  if bool_decide (fph_status ph = "completed") then
    started ← fph_started_at ph;
    completed ← fph_completed_at ph;
    if completed <? now - 30 * DAY then None else Some (Z.quot (completed - started) MINUTE)
  else None.

(** The element in the middle of the sorted spans. *)
Definition cycle_time_p50 (phases : list FlowPhase) (now : Z) : option Z :=
  let spans := merge_sort Z.le (omap (cycle_minutes now) phases) in
  spans !! (length spans / 2)%nat.

(** ** The queries *)

Definition touched (root : Uuid) (now : Z) (w : World) : option Z :=
  match filter (λ kv, pl_root kv.2 = root ∧
                      (is_open (pl_status kv.2) || (now - 30 * DAY <=? pl_updated_at kv.2)) = true)
               (map_to_list (plans w)) with
  | [] => None
  | rows => Some (foldr (λ kv m, Z.max (pl_updated_at kv.2) m) (- 2 ^ 63) rows)
  end.

Definition root_le (a b : Uuid * Z) : Prop := b.2 ≤ a.2.

#[export] Instance root_le_dec a b : Decision (root_le a b).
Proof. unfold root_le. apply _. Defined.

Definition recent_roots (now : Z) (w : World) : list Uuid :=
  let roots := elements (list_to_set ((λ kv, pl_root kv.2) <$> map_to_list (plans w)) : gset Uuid) in
  (take 100 (merge_sort root_le (omap (λ r, t ← touched r now w; Some (r, t)) roots))).*1.

Definition flow_plan_le (a b : Uuid * Plan) : Prop :=
  pl_depth a.2 < pl_depth b.2
  ∨ (pl_depth a.2 = pl_depth b.2 ∧ pl_created_at a.2 ≤ pl_created_at b.2).

#[export] Instance flow_plan_le_dec a b : Decision (flow_plan_le a b).
Proof. unfold flow_plan_le. apply _. Defined.

Definition flow_plan (kv : Uuid * Plan) : FlowPlan :=
  mkFlowPlan kv.1 (pl_repo_name kv.2) (pl_title kv.2) (pl_status kv.2) (pl_root kv.2)
    (pl_depth kv.2).

(** Whole trees, by depth. *)
Definition flow_plans (now : Z) (w : World) : list FlowPlan :=
  flow_plan <$> merge_sort flow_plan_le
    (filter (λ kv, pl_root kv.2 ∈ recent_roots now w) (map_to_list (plans w))).

Definition flow_phase (kv : Uuid * Phase) : FlowPhase :=
  mkFlowPhase kv.1 (ph_plan kv.2) (ph_status kv.2) (ph_size kv.2) (ph_created_at kv.2)
    (ph_started_at kv.2) (ph_completed_at kv.2).

Definition flow_phases (plan_ids : list Uuid) (w : World) : list FlowPhase :=
  flow_phase <$> filter (λ kv, ph_plan kv.2 ∈ plan_ids) (map_to_list (phases w)).

Definition flow_event (e : PlanEvent) : FlowEvent :=
  mkFlowEvent (pe_phase e) (pe_type e) (to_status e) (pe_created_at e).

Definition event_time_le (a b : nat * PlanEvent) : Prop :=
  pe_created_at a.2 < pe_created_at b.2
  ∨ (pe_created_at a.2 = pe_created_at b.2 ∧ (a.1 ≤ b.1)%nat).

#[export] Instance event_time_le_dec a b : Decision (event_time_le a b).
Proof. unfold event_time_le. apply _. Defined.

(** [ORDER BY created_at, id]: identifiers count the rows. *)
Definition flow_events (plan_ids : list Uuid) (w : World) : list FlowEvent :=
  (λ ie, flow_event ie.2) <$> merge_sort event_time_le
    (filter (λ ie, pe_plan ie.2 ∈ plan_ids ∧ is_some (pe_phase ie.2) = true)
            (enumerate (plan_events w))).

(** Phases that have a sub-plan anchored to them are dropped. *)
Definition leaf_phases (phases : list FlowPhase) (w : World) : list FlowPhase :=
  let containers := (elements (anchors w)).*2 in
  filter (λ ph, fph_id ph ∉ containers) phases.

Definition count_status (status : string) (phases : list FlowPhase) : Z :=
  Z.of_nat (length (filter (λ ph, fph_status ph = status) phases)).

Definition flow_metrics (now : Z) (w : World) : FlowMetrics :=
  match flow_plans now w with
  | [] => mkMetrics 0 0 [] None [] []
  | plans =>
      let plan_ids := fpl_id <$> plans in
      let phases := leaf_phases (flow_phases plan_ids w) w in
      let t := phase_transitions phases (flow_events plan_ids w) in
      let days := daily_window now in
      mkMetrics (count_status "in_progress" phases) (count_status "blocked" phases)
        (throughput phases now) (cycle_time_p50 phases now)
        (cumulative_flow phases t days now) (plan_burndowns plans phases t days now)
  end.
