(* ===== verification/FlowReplay.v ===== *)
(** * The flow metrics against the tables they are replayed from

    Lemmas that take the histories [Flow] builds to the log of the tables, and
    the sums it makes of a day to the phases of that day. *)

From S2P Require Import Prelude Text Plans PlanInv Flow.

(** ** Histories *)

(** What an event adds to the history of a phase. *)
Definition entry (id : Uuid) (e : FlowEvent) : option (Z * string) :=
  q ← fe_phase e; s ← fe_to e;
  if bool_decide (q = id) && bool_decide (fe_type e ∈ STATUS_EVENTS)
  then Some (fe_created_at e, s) else None.

Lemma push_event_lookup t e id :
  push_event t e !! id = (λ h, h ++ match entry id e with Some x => [x] | None => [] end) <$> t !! id.
Proof.
  assert (Hn : (λ h : History, h ++ []) <$> t !! id = t !! id).
  { destruct (t !! id); [|done]. cbn. by rewrite app_nil_r. }
  unfold push_event, entry. destruct (fe_phase e) as [q|]; cbn; [|exact (eq_sym Hn)].
  destruct (fe_to e) as [s|]; cbn; [|exact (eq_sym Hn)]. destruct (bool_decide (fe_type e ∈ _)) eqn:E.
  - rewrite andb_true_r. destruct (decide (q = id)) as [->|Hq].
    + by rewrite bool_decide_true, lookup_alter_eq.
    + rewrite bool_decide_false, lookup_alter_ne by done. exact (eq_sym Hn).
  - rewrite andb_false_r. exact (eq_sym Hn).
Qed.

Lemma foldl_push_lookup id l : ∀ t,
  foldl push_event t l !! id = (λ h, h ++ omap (entry id) l) <$> t !! id.
Proof.
  induction l as [|e l IH]; intros t; cbn.
  - destruct (t !! id); [|done]. cbn. by rewrite app_nil_r.
  - rewrite IH, push_event_lookup. destruct (t !! id); [|done]. cbn.
    rewrite <-app_assoc. by destruct (entry id e).
Qed.

Lemma foldl_seed_other id l : ∀ t, id ∉ fph_id <$> l → foldl seed t l !! id = t !! id.
Proof.
  induction l as [|ph l IH]; intros t Hid; cbn; [done|].
  rewrite fmap_cons in Hid. apply not_elem_of_cons in Hid as [Hne Hid]. rewrite IH by done.
  unfold seed. by rewrite lookup_insert_ne.
Qed.

Lemma foldl_seed_lookup ph l : ∀ t, NoDup (fph_id <$> l) → ph ∈ l →
  foldl seed t l !! fph_id ph = Some [(fph_created_at ph, "pending")].
Proof.
  induction l as [|x l IH]; intros t Hn; [by intros ?%elem_of_nil|]. rewrite fmap_cons in Hn.
  apply NoDup_cons in Hn as [Hx Hn]. intros [->|Hin]%elem_of_cons; cbn; [|by apply IH].
  rewrite foldl_seed_other by done. unfold seed. by rewrite lookup_insert_eq.
Qed.

Lemma history_lookup phases events ph : NoDup (fph_id <$> phases) → ph ∈ phases →
  phase_transitions phases events !! fph_id ph =
  Some ((fph_created_at ph, "pending") :: omap (entry (fph_id ph)) events).
Proof.
  intros Hn Hin. unfold phase_transitions. by rewrite foldl_push_lookup, (foldl_seed_lookup ph).
Qed.

(** ** Replay *)

Lemma status_loop_all h at_ : Forall (λ x, x.1 ≤ at_) h → ∀ s,
  status_loop h at_ s = or_else (last (snd <$> h)) s.
Proof.
  induction 1 as [|[ts next] h Hx Hf IH]; intros s; [done|]. cbn [status_loop]. cbn in Hx.
  rewrite (proj2 (Z.ltb_ge at_ ts)) by lia. rewrite IH, fmap_cons, last_cons.
  by destruct (last (snd <$> h)).
Qed.

Lemma status_loop_in h at_ : ∀ s, status_loop h at_ s = s ∨ ∃ x, x ∈ h ∧ status_loop h at_ s = Some x.2.
Proof.
  induction h as [|[ts next] h IH]; intros s; [by left|]. cbn.
  destruct (at_ <? ts); [by left|]. destruct (IH (Some next)) as [->|(x & Hx & E)].
  - right. exists (ts, next). split; [by left|done].
  - right. exists x. split; [by right|done].
Qed.

(** A phase has a status from its creation on. *)
Lemma status_at_seeded c h at_ :
  status_at ((c, "pending") :: h) at_ = None ↔ at_ < c.
Proof.
  unfold status_at. cbn. destruct (at_ <? c) eqn:E; [split; [lia|done]|]. split; [|lia].
  intros Hs. exfalso. revert Hs. generalize "pending". clear E. induction h as [|[ts n] h IH]; intros s; [done|].
  cbn. destruct (at_ <? ts); [done|apply IH].
Qed.

(** ** The events of the log *)

Lemma elem_of_enumerate {A} (l : list A) (i : nat) (x : A) : (i, x) ∈ enumerate l → l !! i = Some x.
Proof.
  unfold enumerate. intros (k & Hk)%list_elem_of_lookup. apply lookup_zip_with_Some in Hk as (a & b & E & Ha & Hb).
  apply lookup_seq in Ha as [-> _]. by injection E as -> ->.
Qed.

Lemma enumerate_snd {A} (l : list A) : snd <$> enumerate l = l.
Proof. apply snd_zip. by rewrite length_seq. Qed.

Lemma enumerate_from_sorted (l : list PlanEvent) : ∀ k, Sorted Z.le (pe_created_at <$> l) →
  StronglySorted event_time_le (zip (seq k (length l)) l).
Proof.
  induction l as [|e l IH]; intros k Hs; cbn; [constructor|].
  rewrite fmap_cons in Hs. apply Sorted_StronglySorted in Hs; [|exact Z.le_trans].
  apply StronglySorted_inv in Hs as [Hs Hall]. constructor.
  - apply IH. by apply StronglySorted_Sorted.
  - apply Forall_forall. intros [i x] (j & Hj)%list_elem_of_lookup.
    apply lookup_zip_with_Some in Hj as (a & b & E & Ha & Hb). injection E as -> ->.
    apply lookup_seq in Ha as [-> _]. rewrite Forall_fmap, Forall_forall in Hall.
    apply list_elem_of_lookup_2 in Hb. specialize (Hall _ Hb). cbn in *. unfold event_time_le. cbn. lia.
Qed.

Lemma flow_events_log plan_ids w t : inv None t w →
  flow_events plan_ids w =
  flow_event <$> filter (λ e, pe_plan e ∈ plan_ids ∧ is_some (pe_phase e) = true) (plan_events w).
Proof.
  intros Hi. unfold flow_events. set (P e := pe_plan e ∈ plan_ids ∧ is_some (pe_phase e) = true).
  change (λ ie : nat * PlanEvent, pe_plan ie.2 ∈ plan_ids ∧ is_some (pe_phase ie.2) = true)
    with (λ ie : nat * PlanEvent, P ie.2).
  set (l := filter (λ ie, P ie.2) (enumerate (plan_events w))).
  assert (merge_sort event_time_le l = l) as ->.
  { apply (StronglySorted_unique_strong event_time_le).
    - intros [i x] [j y] Hx Hy. rewrite merge_sort_Permutation in Hx. unfold event_time_le. cbn.
      intros [?|[? ?]] [?|[? ?]]; [lia..|]. assert (i = j) as -> by lia.
      apply list_elem_of_filter in Hx as [_ Hx], Hy as [_ Hy].
      apply elem_of_enumerate in Hx, Hy. congruence.
    - apply StronglySorted_merge_sort; unfold event_time_le.
      + intros [i x] [j y] [k z]; cbn. lia.
      + intros [i x] [j y]; cbn. lia.
    - apply StronglySorted_filter, enumerate_from_sorted. apply (in_times _ _ _ Hi).
    - apply merge_sort_Permutation. }
  change (λ ie : nat * PlanEvent, flow_event ie.2) with (flow_event ∘ (snd : nat * PlanEvent → _)).
  rewrite list_fmap_compose. f_equal. unfold l.
  rewrite <-(enumerate_snd (plan_events w)) at 2. symmetry. apply filter_fmap_comm.
Qed.

(** ** Replay of the log *)

Lemma entry_flow id e :
  entry id (flow_event e) = match transition e with
    | Some (_, q, s) => if decide (q = id) then Some (pe_created_at e, s) else None
    | None => None end.
Proof.
  unfold entry, transition, flow_event. cbn. destruct (pe_phase e) as [q|]; cbn; [|done].
  destruct (to_status e) as [s|]; cbn; [|done]. unfold STATUS_EVENTS.
  destruct (bool_decide (pe_type e ∈ _)); [|by rewrite andb_false_r].
  rewrite andb_true_r. by rewrite bool_decide_decide; destruct (decide (q = id)).
Qed.

Lemma transition_plan e p q s : transition e = Some (p, q, s) → p = pe_plan e ∧ pe_phase e = Some q.
Proof.
  unfold transition. destruct (pe_phase e); cbn; [|done]. destruct (to_status e); cbn; [|done].
  case_bool_decide; [|done]. by intros [= -> -> ->].
Qed.

Lemma omap_cons_app {A B} (f : A → option B) x l :
  omap f (x :: l) = match f x with Some y => [y] | None => [] end ++ omap f l.
Proof. cbn. by destruct (f x). Qed.

Lemma omap_entry_log (id : Uuid) (plan_ids : list Uuid) (l : list PlanEvent) :
  (∀ p q s, (p, q, s) ∈ transitions l → q = id → p ∈ plan_ids) →
  snd <$> omap (entry id)
    (flow_event <$> filter (λ e, pe_plan e ∈ plan_ids ∧ is_some (pe_phase e) = true) l) =
  snd <$> filter (λ t, t.1.2 = id) (transitions l).
Proof.
  induction l as [|e l IH]; intros Hp; [done|]. unfold transitions in *.
  rewrite omap_cons_app in Hp |- *. rewrite filter_app, fmap_app, <-IH; clear IH.
  2:{ intros p q s Hin. apply (Hp p q s). apply elem_of_app. by right. }
  rewrite filter_cons. destruct (transition e) as [[[p q] s]|] eqn:Et.
  - destruct (transition_plan _ _ _ _ Et) as [-> Hq]. rewrite filter_cons, filter_nil.
    destruct (decide (q = id)) as [->|Hne].
    + rewrite (decide_True (P := (_, id, s).1.2 = id)) by done.
      rewrite decide_True by (split; [apply (Hp (pe_plan e) id s); [by left|done]|by rewrite Hq]).
      rewrite fmap_cons, omap_cons_app, entry_flow, Et. by rewrite decide_True.
    + rewrite (decide_False (P := (_, q, s).1.2 = id)) by done.
      case_decide; [|done]. rewrite fmap_cons, omap_cons_app, entry_flow, Et. by rewrite decide_False.
  - case_decide; [|done]. by rewrite fmap_cons, omap_cons_app, entry_flow, Et.
Qed.

(** ** The phases the metrics read *)

(** The phases of some plans, without the containers, and their histories. *)
Definition leaves_of (plan_ids : list Uuid) (w : World) : list FlowPhase :=
  leaf_phases (flow_phases plan_ids w) w.

Definition histories_of (plan_ids : list Uuid) (w : World) : gmap Uuid History :=
  phase_transitions (leaves_of plan_ids w) (flow_events plan_ids w).

Lemma elem_of_leaves plan_ids w ph : ph ∈ leaves_of plan_ids w →
  ∃ x, phases w !! fph_id ph = Some x ∧ ph = flow_phase (fph_id ph, x) ∧ ph_plan x ∈ plan_ids ∧
       leaf (fph_id ph) (anchors w).
Proof.
  unfold leaves_of, leaf_phases, flow_phases. intros [Hl Hin]%list_elem_of_filter.
  apply list_elem_of_fmap in Hin as ([id x] & -> & [Hp Hx%elem_of_map_to_list]%list_elem_of_filter).
  exists x. split_and!; [done|done|done|]. intros b Hb. apply Hl. cbn.
  apply list_elem_of_fmap. exists (b, id). split; [done|]. by apply elem_of_elements.
Qed.

Lemma NoDup_leaves plan_ids w : NoDup (fph_id <$> leaves_of plan_ids w).
Proof.
  unfold leaves_of, leaf_phases, flow_phases.
  eapply sublist_NoDup; [|apply fmap_sublist, sublist_filter].
  rewrite <-list_fmap_compose.
  eapply sublist_NoDup; [|apply (fmap_sublist (fph_id ∘ flow_phase)), sublist_filter].
  change (fph_id ∘ flow_phase) with (fst : Uuid * Phase → Uuid). apply NoDup_fst_map_to_list.
Qed.

Section replay.
Context (t now : Z) (w : World) (plan_ids : list Uuid) (Hi : inv None t w) (Ht : t ≤ now).

Lemma leaf_history ph : ph ∈ leaves_of plan_ids w →
  histories_of plan_ids w !! fph_id ph =
  Some ((fph_created_at ph, "pending") :: omap (entry (fph_id ph)) (flow_events plan_ids w) : History).
Proof. intros Hin. exact (history_lookup _ _ _ (NoDup_leaves _ _) Hin). Qed.

Lemma leaf_statuses ph : ph ∈ leaves_of plan_ids w →
  snd <$> omap (entry (fph_id ph)) (flow_events plan_ids w) =
  snd <$> filter (λ e, e.1.2 = fph_id ph) (transitions (plan_events w)).
Proof.
  intros (x & Hx & _ & Hp & _)%elem_of_leaves. rewrite (flow_events_log _ _ _ Hi).
  apply omap_entry_log. intros p q s Hin ->.
  destruct (lo_known _ _ _ (in_log _ _ _ Hi) _ _ _ Hin) as (y & Hy & <-). congruence.
Qed.

(** Replayed to its end, the log gives each of them its status. *)
Lemma replayed_now ph : ph ∈ leaves_of plan_ids w → replayed (histories_of plan_ids w) now ph = Some (fph_status ph).
Proof.
  intros Hin. unfold replayed. rewrite (leaf_history _ Hin). cbn [mbind option_bind].
  pose proof (elem_of_leaves _ _ _ Hin) as (x & Hx & E & Hp & Hl).
  unfold status_at. rewrite status_loop_all.
  - rewrite fmap_cons, (leaf_statuses _ Hin), last_cons.
    pose proof (lo_last _ _ _ (in_log _ _ _ Hi) _ _ Hx Hl) as Hlast. unfold last_status in Hlast.
    change (λ t, t.2) with (snd : Uuid * Uuid * string → string) in Hlast.
    rewrite <-fmap_last in Hlast. rewrite Hlast. by rewrite E.
  - apply Forall_cons. split.
    + rewrite E. cbn. pose proof (to_phases _ _ _ (in_times _ _ _ Hi) _ _ Hx) as Hc. cbn in Hc. lia.
    + apply Forall_forall. intros [ts s] (e & He & Hen)%list_elem_of_omap. cbn.
      rewrite (flow_events_log _ _ _ Hi) in He.
      apply list_elem_of_fmap in He as (pe & -> & [_ Hpe]%list_elem_of_filter).
      rewrite entry_flow in Hen. destruct (transition pe) as [[[? q] s']|]; [|done].
      case_decide; [|done]. injection Hen as <- _.
      pose proof (to_log _ _ _ (in_times _ _ _ Hi)) as Hlog. rewrite Forall_forall in Hlog.
      specialize (Hlog _ Hpe). cbn in Hlog. lia.
Qed.

Lemma replayed_valid ph at_ s : ph ∈ leaves_of plan_ids w → replayed (histories_of plan_ids w) at_ ph = Some s → s ∈ PHASE_STATUSES.
Proof.
  intros Hin. unfold replayed. rewrite (leaf_history _ Hin). cbn [mbind option_bind].
  unfold status_at. intros Hs. destruct (status_loop_in ((fph_created_at ph, "pending") ::
    omap (entry (fph_id ph)) (flow_events plan_ids w)) at_ None) as [E|(x & Hx & E)]; [congruence|].
  rewrite E in Hs. injection Hs as <-. apply elem_of_cons in Hx as [->|Hx]; [by left|].
  apply (list_elem_of_fmap_2 snd) in Hx. rewrite (leaf_statuses _ Hin) in Hx.
  apply list_elem_of_fmap in Hx as (y & -> & [_ Hy]%list_elem_of_filter).
  pose proof (lo_valid _ _ _ (in_log _ _ _ Hi)) as Hv. rewrite Forall_forall in Hv. by apply Hv.
Qed.

Lemma replayed_none ph at_ : ph ∈ leaves_of plan_ids w → replayed (histories_of plan_ids w) at_ ph = None ↔ at_ < fph_created_at ph.
Proof.
  intros Hin. unfold replayed. rewrite (leaf_history _ Hin). apply status_at_seeded.
Qed.
End replay.

(** ** Sums of a day *)

Definition weight_if (p : FlowPhase → bool) (l : list FlowPhase) : Z :=
  foldr (λ ph s, (if p ph then weight ph else 0) + s) 0 l.

Definition replays (t : gmap Uuid History) (at_ : Z) (s : string) (ph : FlowPhase) : bool :=
  bool_decide (replayed t at_ ph = Some s).

Lemma weight_pos ph : 1 ≤ weight ph.
Proof. unfold weight, size_weight. destruct (fph_size ph); [|lia]. repeat case_bool_decide; lia. Qed.

Lemma weight_if_le p q l : (∀ ph, ph ∈ l → p ph = true → q ph = true) → 0 ≤ weight_if p l ≤ weight_if q l.
Proof.
  unfold weight_if. induction l as [|ph l IH]; intros H; cbn; [lia|].
  specialize (IH (λ x Hx, H x (list_elem_of_further _ _ _ Hx))).
  pose proof (weight_pos ph). specialize (H ph (list_elem_of_here _ _)).
  destruct (p ph), (q ph); try discriminate (H eq_refl); lia.
Qed.

Lemma weight_if_ext p q l : (∀ ph, ph ∈ l → p ph = q ph) → weight_if p l = weight_if q l.
Proof.
  induction l as [|ph l IH]; intros H; cbn; [done|].
  rewrite (H ph) by by left. f_equal. apply IH. intros x Hx. apply H. by right.
Qed.

Lemma sum_weights_if l : sum_weights l = weight_if (λ _, true) l.
Proof. done. Qed.

Lemma bucket_fold t at_ l : ∀ b, foldl (add_to_bucket t at_) b l =
  mkCfd (cfd_day b) (cfd_pending b + weight_if (replays t at_ "pending") l)
    (cfd_in_progress b + weight_if (replays t at_ "in_progress") l)
    (cfd_blocked b + weight_if (replays t at_ "blocked") l)
    (cfd_completed b + weight_if (replays t at_ "completed") l)
    (cfd_skipped b + weight_if (replays t at_ "skipped") l).
Proof.
  induction l as [|ph l IH]; intros b; cbn; [destruct b; cbn; f_equal; lia|].
  rewrite IH. unfold add_to_bucket, replays. cbn.
  assert (Hs : ∀ s, match replayed t at_ ph with
      | Some status => if bool_decide (status = s) then weight ph else 0 | None => 0 end =
    (if bool_decide (replayed t at_ ph = Some s) then weight ph else 0)).
  { intros s. destruct (replayed t at_ ph) as [st|]; [|done].
    by rewrite (bool_decide_ext (Some st = Some s) (st = s)) by naive_solver. }
  rewrite !Hs. unfold weight_if. f_equal; lia.
Qed.

Lemma weight_if_complement p l :
  weight_if (λ _, true) l - weight_if p l = weight_if (λ ph, negb (p ph)) l.
Proof. unfold weight_if. induction l as [|ph l IH]; cbn; [done|]. rewrite <-IH. destruct (p ph); cbn; lia. Qed.

Definition exists_by (at_ : Z) (ph : FlowPhase) : bool := negb (at_ <? fph_created_at ph).

Definition done_by (t : gmap Uuid History) (at_ : Z) (ph : FlowPhase) : bool :=
  exists_by at_ ph && match replayed t at_ ph with Some s => is_done s | None => false end.

Lemma burndown_fold t at_ l : ∀ a, foldl (burndown_step t at_) a l =
  (a.1 + weight_if (exists_by at_) l, a.2 + weight_if (done_by t at_) l).
Proof.
  unfold weight_if. induction l as [|ph l IH]; intros [a b]; cbn; [f_equal; lia|].
  rewrite IH. unfold burndown_step, done_by, exists_by.
  destruct (at_ <? fph_created_at ph); cbn; [f_equal; lia|].
  destruct (replayed t at_ ph) as [s|]; [destruct (is_done s)|]; cbn; f_equal; lia.
Qed.

(** ** Days *)

Lemma burndown_day_eq t l now day : burndown_day t l now day =
  mkBurndownDay day (weight_if (exists_by (day_end day now)) l - weight_if (done_by t (day_end day now)) l)
    (weight_if (exists_by (day_end day now)) l).
Proof. unfold burndown_day. by rewrite burndown_fold. Qed.

Lemma daily_window_days now :
  daily_window now = (λ back, date now - back) <$> [13; 12; 11; 10; 9; 8; 7; 6; 5; 4; 3; 2; 1; 0].
Proof. done. Qed.

Lemma daily_window_today now : last (daily_window now) = Some (date now).
Proof. rewrite daily_window_days. cbn -[date]. f_equal. lia. Qed.

Lemma daily_window_lookup now i day : daily_window now !! i = Some day →
  day = date now - 13 + Z.of_nat i.
Proof.
  rewrite daily_window_days. cbn -[date]. intros H.
  do 14 (destruct i as [|i]; [cbn -[date] in H; injection H as <-; lia|]). done.
Qed.

Lemma day_end_today now : day_end (date now) now = now.
Proof.
  unfold day_end, date. apply Z.min_r. pose proof (Z.mul_div_le now DAY ltac:(done)).
  pose proof (Z.mod_pos_bound now DAY ltac:(done)). pose proof (Z.div_mod now DAY ltac:(done)). lia.
Qed.

Lemma day_end_mono d d' now : d ≤ d' → day_end d now ≤ day_end d' now.
Proof. unfold day_end, DAY, MINUTE. lia. Qed.

Lemma day_end_now d now : day_end d now ≤ now.
Proof. unfold day_end. lia. Qed.

(** ** What the metrics are made of *)

Lemma flow_cfd now w : flow_plans now w ≠ [] →
  cfd (flow_metrics now w) = cumulative_flow (leaves_of (fpl_id <$> flow_plans now w) w)
    (histories_of (fpl_id <$> flow_plans now w) w) (daily_window now) now.
Proof. unfold flow_metrics. by destruct (flow_plans now w). Qed.

Lemma flow_burndowns now w b : b ∈ burndowns (flow_metrics now w) →
  let plan_ids := fpl_id <$> flow_plans now w in
  let mine := tree_phases (flow_plans now w) (leaves_of plan_ids w) (bd_plan b) in
  total_weight b = sum_weights mine ∧
  bd_days b = burndown_day (histories_of plan_ids w) mine now <$> daily_window now.
Proof.
  unfold flow_metrics. destruct (flow_plans now w) as [|p ps] eqn:E; [by intros ?%elem_of_nil|].
  rewrite <-E. cbn [burndowns]. unfold plan_burndowns. intros (plan & _ & Hb)%list_elem_of_omap.
  fold (leaves_of (fpl_id <$> flow_plans now w) w) in *.
  fold (histories_of (fpl_id <$> flow_plans now w) w) in *.
  destruct (tree_phases _ _ (fpl_id plan)) as [|x l] eqn:Ex; [done|].
  injection Hb as <-. cbn [bd_plan bd_days total_weight]. by rewrite Ex.
Qed.

Lemma elem_of_tree_phases plans phases root ph : ph ∈ tree_phases plans phases root → ph ∈ phases.
Proof. by intros [_ H]%list_elem_of_filter. Qed.

Ltac decide_closed :=
  repeat match goal with
  | |- context [bool_decide ?P] =>
      let b := eval vm_compute in (bool_decide P) in change (bool_decide P) with b
  end.

Lemma five_statuses (a : FlowPhase → bool) (s : FlowPhase → option string) l :
  (∀ ph, ph ∈ l → if a ph then ∃ x, s ph = Some x ∧ x ∈ PHASE_STATUSES else s ph = None) →
  let at_ x := weight_if (λ ph, bool_decide (s ph = Some x)) l in
  at_ "pending" + at_ "in_progress" + at_ "blocked" + at_ "completed" + at_ "skipped" = weight_if a l.
Proof.
  unfold weight_if. induction l as [|ph l IH]; intros H; cbn -[bool_decide]; [done|].
  cbn -[bool_decide] in IH. rewrite <-IH by (intros x Hx; apply H; by right). clear IH.
  specialize (H ph ltac:(by left)). destruct (a ph).
  - destruct H as (x & -> & Hx). unfold PHASE_STATUSES in Hx.
    repeat (apply elem_of_cons in Hx as [->|Hx]; [decide_closed; cbv iota; lia|]). by apply elem_of_nil in Hx.
  - rewrite H. decide_closed. cbv iota. lia.
Qed.
