(* ===== verification/PlanGuarantees.v ===== *)
(** * What holds of published plans

    The claims about plans, their phases and branches, and about the flow
    metrics replayed from their log, each at work on the small history
    of plans it begins with. *)

From S2P Require Import Prelude Text Plans PlanInv PlanOps PlanViews Flow FlowReplay.

(** ** A concrete history of plans *)

(** Identifiers printed as numbers, and none parsed. *)
Definition demo_show (id : Uuid) : string := pretty id.
Definition demo_parse (s : string) : option Uuid := None.

(** The operations of a list run one after the other. *)
Fixpoint replay (t : Z) (w : World) (l : list (Z * PlanActor * PlanOp)) : option (Z * World) :=
  match l with
  | [] => Some (t, w)
  | (now, actor, op) :: l =>
      if t <=? now then
        match run_op demo_parse demo_show op actor now w with
        | Ok w' => replay now w' l
        | _ => None
        end
      else None
  end.

Lemma replay_steps l : ∀ t w t' w', replay t w l = Some (t', w') →
  rtc (step demo_parse demo_show) (t, w) (t', w').
Proof.
  induction l as [|[[now actor] op] l IH]; intros t w t' w'; cbn [replay].
  - intros [= -> ->]. done.
  - destruct (t <=? now) eqn:Et; [|done].
    destruct (run_op _ _ op actor now w) as [w1|e] eqn:E; [|done..]. intros H.
    eapply rtc_l; [|by apply IH]. eapply StepOp; [lia|done].
Qed.

Definition demo_ptys : gmap Uuid PtyRow := {[ 1%N := mkPtyRow "repo" (Some 9%N) "live" ]}.

Definition demo_agent : PlanActor := mkActor "agent" (Some 1%N) None.

Definition demo_phase (title : string) : NewPhase := mkNewPhase title "" None (Some "m").

Definition demo_create : CreatePlanInput :=
  mkCreate "repo" "Ship it" "" default_guidance [demo_phase "design"; demo_phase "build"; demo_phase "test"]
    false true.

Definition demo_branch : BranchPlanInput :=
  mkBranchInput "Detour" "" default_guidance [demo_phase "dig"] false ["1"] None.

Definition demo_close (status : string) (skip : bool) : UpdatePlanInput :=
  mkUpdate None None None None None None (Some status) None skip false.

Definition demo_phase_update (status : option string) (position : option Z) : UpdatePhaseInput :=
  mkUpdatePhase None None status None position None.

Definition plan_ids (k : N) (i : nat) : Uuid := (k + N.of_nat i)%N.

Definition demo_ops : list (Z * PlanActor * PlanOp) :=
  [(10, demo_agent, OpCreate (plan_ids 10) demo_create);
   (20, demo_agent, OpUpdatePhase 10%N 11%N (demo_phase_update (Some "completed") None));
   (30, demo_agent, OpUpdatePhase 10%N 12%N (demo_phase_update (Some "in_progress") (Some 1)))].

Definition demo_world : World :=
  match replay 0 (no_plans demo_ptys ∅) demo_ops with
  | Some (_, w) => w
  | None => no_plans demo_ptys ∅
  end.

Lemma plan_demo_reachable : reachable demo_parse demo_show 30 demo_world.
Proof.
  exists 0, demo_ptys, ∅. apply (replay_steps demo_ops). unfold demo_world.
  destruct (replay 0 (no_plans demo_ptys ∅) demo_ops) as [[t w]|] eqn:E; [|by vm_compute in E].
  assert (fst <$> replay 0 (no_plans demo_ptys ∅) demo_ops = Some 30) as Ht by by vm_compute.
  rewrite E in Ht. by injection Ht as ->.
Qed.

(** What an operation leaves. *)
Definition done_or (w : World) (r : res World) : World := match r with Ok w' => w' | _ => w end.

(** C25. Whatever operations ran and whatever they were given, the tables are
    well formed: branches form trees at most eight deep within one repository,
    every plan's phases are numbered 1 to n, every live terminal is attached
    to at most one plan and that plan is open, anchors of a branch are phases
    of its parent, a completed plan has only completed or skipped phases, and
    the log is in order and its last status for a phase without branches is
    the phase's status. *)
Theorem plans_invariant parse_uuid show_uuid t w :
  reachable parse_uuid show_uuid t w → inv None t w.
Proof. apply reachable_inv. Qed.

Lemma plans_invariant_witness :
  reachable demo_parse demo_show 30 demo_world ∧ inv None 30 demo_world.
Proof. split; [apply plan_demo_reachable|]. apply (plans_invariant _ _ _ _ plan_demo_reachable). Defined.

(** Updating a phase with a position takes it out of the plan's ordered
    phases and puts it back at that position, brought into range; without a
    position the order stays. *)
Theorem phase_relocated parse_uuid show_uuid t w plan_id id input actor now w' :
  reachable parse_uuid show_uuid t w → t ≤ now →
  update_phase show_uuid plan_id id input actor now w = Ok w' →
  ∃ i, ordered_ids plan_id w !! i = Some id ∧
    ordered_ids plan_id w' =
    match upp_position input with
    | Some pos => relocate i
        (Z.to_nat (Z.max 1 (Z.min pos (Z.of_nat (length (ordered_ids plan_id w)))) - 1))
        (ordered_ids plan_id w)
    | None => ordered_ids plan_id w
    end.
Proof.
  intros Hr Ht H. pose proof (reachable_inv _ _ _ _ Hr) as Hi.
  pose proof (inv_update_phase _ _ _ _ _ _ _ _ H (inv_later _ _ _ _ Hi Ht)) as Hi'.
  destruct (update_phase_places _ _ _ _ _ _ _ _ H (in_positions _ _ _ Hi)) as (x & Hx & Hp & E).
  pose proof (elem_of_positions _ _ _ _ Hx Hp) as Hin.
  pose proof (positions_range _ _ _ (in_positions _ _ _ Hi) Hin) as Hrange.
  exists (Z.to_nat (ph_position x - 1)). split.
  - apply ordered_lookup; [apply Hi|]. exists x. split_and!; [done|done|lia].
  - rewrite length_ordered. destruct (upp_position input) as [pos|].
    + apply ordered_moved; rewrite ?length_ordered; [apply Hi|apply Hi'|done|lia|done].
    + apply list_eq. intros i. apply option_eq. intros q.
      rewrite !ordered_lookup by (apply Hi || apply Hi').
      assert (Hq : place <$> (phases w' !! q) = place <$> (phases w !! q))
        by (rewrite <-!place_lookup; by rewrite E).
      unfold place in Hq. 
      destruct (phases w' !! q) as [y|], (phases w !! q) as [z|]; try done.
      injection Hq as E1 E2. split; intros (? & [= <-] & <- & <-); eexists; by split_and!.
Qed.

Definition demo_moved : World :=
  done_or demo_world (update_phase demo_show 10%N 13%N (demo_phase_update None (Some (-4)))
    demo_agent 40 demo_world).

Lemma phase_relocated_witness :
  ordered_ids 10%N demo_world = [12%N; 11%N; 13%N] ∧ ordered_ids 10%N demo_moved = [13%N; 12%N; 11%N] ∧
  ∃ i, ordered_ids 10%N demo_world !! i = Some 13%N ∧
    ordered_ids 10%N demo_moved = relocate i 0 (ordered_ids 10%N demo_world).
Proof.
  split; [by vm_compute|]. split; [by vm_compute|].
  apply (phase_relocated _ _ _ _ 10%N 13%N (demo_phase_update None (Some (-4))) demo_agent 40 demo_moved
    plan_demo_reachable); [done|by vm_compute].
Defined.

(** Opening a branch under the plan a terminal is attached to and then
    closing the branch, in whatever way, puts the terminal back on that plan
    and leaves every other terminal where it was. *)
Theorem branch_returns parse_uuid show_uuid t w ids parent pty input actor now w1 close actor' now' w2 :
  reachable parse_uuid show_uuid t w → t ≤ now → now ≤ now' →
  actor_pty actor = Some pty → attached_plan pty w = Some parent →
  is_some (live_pty pty w) = true →
  branch parse_uuid show_uuid ids parent input actor now w = Ok w1 →
  is_closed (default "active" (up_status close)) = true →
  update show_uuid (ids 0%nat) close actor' now' w1 = Ok w2 →
  ∀ q, attached_plan q w2 = attached_plan q w.
Proof.
  intros Hr Ht Ht' Hpty Hat Hlive Hb Hc Hu q.
  pose proof (inv_later _ _ _ _ (reachable_inv _ _ _ _ Hr) Ht) as Hi.
  destruct (branch_Ok _ _ _ _ _ _ _ _ _ Hb Hi) as (I1 & (s & Hs & Ho & Hsk) & Hnew & Hptys & A1).
  assert (Hp : ∃ p, plans w1 !! ids 0%nat = Some p ∧ skel p =
    mkSkel (sk_repo s) "active" (Some parent) (sk_root s) (sk_depth s + 1)).
  { pose proof (f_equal (λ m : gmap Uuid Skel, m !! ids 0%nat) Hsk) as E. cbn beta in E.
    rewrite lookup_insert_eq in E. unfold skels in E. rewrite lookup_fmap in E.
    apply fmap_Some in E as (p & Hp & E). by exists p. }
  destruct Hp as (p & Hp & [= Erepo Est Epar Eroot Edep]).
  destruct (update_Ok _ _ _ _ _ _ _ _ Hu (inv_later _ _ _ _ I1 Ht') Hp) as (_ & _ & _ & _ & A2).
  rewrite A2, Est, Hc, Epar. unfold popped.
  assert (Hpo : parent_open (Some parent) w1 = Some parent).
  { rewrite parent_open_skels, Hsk. cbn. rewrite lookup_insert_ne by congruence. rewrite Hs. cbn.
    by rewrite Ho. }
  rewrite Hpo, A1, Hpty. assert (live_pty q w1 = live_pty q w) as -> by (unfold live_pty; by rewrite Hptys).
  destruct (decide (q = pty)) as [->|Hne].
  - rewrite (bool_decide_true (Some pty = Some pty)) by done.
    by rewrite bool_decide_true, Hlive, Hat.
  - rewrite (bool_decide_false (Some pty = Some q)) by congruence. case_bool_decide as Eq; [|done].
    exfalso. destruct (in_attached _ _ _ Hi) as [Hn Hopen].
    rewrite attached_plan_live in Eq. apply at_of_Some in Eq as (a & Ha & _ & Hpl); [|done].
    destruct (Hopen a Ha ltac:(done)) as (s' & Hs' & _). congruence.
Qed.

Definition demo_branched : World :=
  done_or demo_world (branch demo_parse demo_show (plan_ids 20) 10%N demo_branch demo_agent 40 demo_world).

Definition demo_returned : World :=
  done_or demo_branched (update demo_show 20%N (demo_close "completed" true) demo_agent 50 demo_branched).

Lemma branch_returns_witness :
  attached_plan 1%N demo_world = Some 10%N ∧ attached_plan 1%N demo_branched = Some 20%N ∧
  ∀ q, attached_plan q demo_returned = attached_plan q demo_world.
Proof.
  split; [by vm_compute|]. split; [by vm_compute|].
  apply (branch_returns _ _ _ _ (plan_ids 20) 10%N 1%N demo_branch demo_agent 40 demo_branched
    (demo_close "completed" true) demo_agent 50 demo_returned plan_demo_reachable);
    [lia|lia|reflexivity|vm_compute; reflexivity..].
Defined.

(** A plan with an open branch cannot be closed, and one with unfinished
    phases can be completed only by skipping them; both refusals leave the
    tables alone. *)
Theorem closing_refused show_uuid plan_id input actor now w p status :
  plans w !! plan_id = Some p → up_status input = Some status →
  (is_closed status = true ∧ open_branches plan_id w ≠ []) ∨
  (status = "completed" ∧ unfinished_phases plan_id w ≠ [] ∧ up_skip_remaining input = false) →
  ∃ e, update show_uuid plan_id input actor now w = Err e.
Proof.
  intros Hp Hs Hno. unfold update. destruct (validate_actor actor) as [|e]; cbn; [|by exists e].
  rewrite Hp. cbn. destruct (match up_title input with Some _ => _ | None => _ end) as [title|e]; cbn; [|by exists e].
  destruct (match up_summary input with Some _ => _ | None => _ end) as [summary|e]; cbn; [|by exists e].
  destruct (with_update _ _) as [g|e]; cbn; [|by exists e].
  destruct (validate_plan_status _) as [|e]; cbn; [|by exists e].
  destruct (clean_note _) as [note|e]; cbn; [|by exists e].
  destruct (_ && _); [by eexists|]. rewrite Hs. cbn.
  assert (∃ e, may_close plan_id status (up_skip_remaining input) w = Err e) as (e & ->); [|by exists e].
  unfold may_close. destruct Hno as [[Hc Hb]|(-> & Hu & Hskip)].
  - rewrite Hc. destruct (open_branches plan_id w) as [|b l]; [done|]. rewrite bool_decide_false by done.
    by eexists.
  - destruct (_ && _); [by eexists|]. rewrite Hskip. cbn zeta. rewrite bool_decide_true by done.
    destruct (unfinished_phases plan_id w) as [|u l]; [done|].
    rewrite (proj2 (Z.ltb_lt 0 (Z.of_nat (length (u :: l)))) ltac:(cbn; lia)). by eexists.
Qed.

Lemma closing_refused_witness :
  open_branches 10%N demo_branched ≠ [] ∧
  ∃ e, update demo_show 10%N (demo_close "canceled" true) demo_agent 50 demo_branched = Err e.
Proof.
  assert (open_branches 10%N demo_branched ≠ []) as Hb by by vm_compute.
  split; [exact Hb|]. destruct (plans demo_branched !! 10%N) as [p|] eqn:Hp; [|by vm_compute in Hp].
  apply (closing_refused demo_show 10%N (demo_close "canceled" true) demo_agent 50 demo_branched p "canceled" Hp);
    [done|]. left. by split.
Defined.

(** The breadcrumb of a plan is found, nine steps being enough: the path
    of plans from the root to it, as long as the plan is deep, each the parent
    of the next. *)
Lemma ancestors_found parse_uuid show_uuid t w id p fuel :
  reachable parse_uuid show_uuid t w → plans w !! id = Some p → (9 ≤ fuel)%nat →
  ∃ l, ancestors fuel id w = Some l ∧ length l = Z.to_nat (pl_depth p) ∧ (length l ≤ 8)%nat ∧
       path_from w (pl_root p) (l ++ [(id, p)]).
Proof.
  intros Hr Hp Hf. pose proof (in_tree _ _ _ (reachable_inv _ _ _ _ Hr)) as Ht.
  pose proof (so_depth _ _ _ (Ht _ _ (plan_skel _ _ _ Hp))) as Hd. cbn in Hd. unfold MAX_BRANCH_DEPTH in Hd.
  destruct (ancestors_path w id p fuel Ht Hp) as (l & Hl & Hlen & Hpath); [lia|].
  exists l. split_and!; [done|done|lia|done].
Qed.

Lemma ancestors_found_witness :
  ∃ p l, plans demo_world !! 10%N = Some p ∧ ancestors 9 10%N demo_world = Some l ∧
         path_from demo_world (pl_root p) (l ++ [(10%N, p)]).
Proof.
  destruct (plans demo_world !! 10%N) as [p|] eqn:Hp; [|by vm_compute in Hp].
  destruct (ancestors_found demo_parse demo_show 30 demo_world 10%N p 9 plan_demo_reachable Hp) as (l & Hl & _ & _ & Hpath);
    [lia|]. exists p, l. split; [reflexivity|]. split; [exact Hl|exact Hpath].
Defined.

(** The weight of phases whose current status satisfies a test. *)
Definition weight_of (test : string → bool) (phases : list FlowPhase) : Z :=
  weight_if (λ ph, test (fph_status ph)) phases.

Definition now_in (status : string) (s : string) : bool := bool_decide (s = status).

(** The phases the metrics read: those of recent plan trees, without the ones
    a branch stands for. *)
Definition measured (now : Z) (w : World) : list FlowPhase :=
  leaves_of (fpl_id <$> flow_plans now w) w.

(** The log replayed to today gives the tables: today's column of the
    cumulative flow weighs the phases by the status they have now, and today's
    point of every burndown is what is not yet completed or skipped of all the
    phases of its tree. *)
Theorem flow_today parse_uuid show_uuid t w now :
  reachable parse_uuid show_uuid t w → t ≤ now → flow_plans now w ≠ [] →
  let m := flow_metrics now w in
  last (cfd m) = Some (mkCfd (date now) (weight_of (now_in "pending") (measured now w))
    (weight_of (now_in "in_progress") (measured now w)) (weight_of (now_in "blocked") (measured now w))
    (weight_of (now_in "completed") (measured now w)) (weight_of (now_in "skipped") (measured now w))) ∧
  ∀ b, b ∈ burndowns m →
    let mine := tree_phases (flow_plans now w) (measured now w) (bd_plan b) in
    last (bd_days b) = Some (mkBurndownDay (date now) (weight_of (λ s, negb (is_done s)) mine)
                                           (total_weight b)).
Proof.
  intros Hr Ht Hne m. pose proof (reachable_inv _ _ _ _ Hr) as Hi. unfold m, weight_of, measured. split.
  - rewrite (flow_cfd now w Hne). unfold cumulative_flow. rewrite fmap_last, daily_window_today. cbn -[date day_end].
    rewrite bucket_fold, day_end_today. cbn -[date]. f_equal.
    assert (Hw : ∀ s, weight_if (replays (histories_of (fpl_id <$> flow_plans now w) w) now s)
        (leaves_of (fpl_id <$> flow_plans now w) w) =
      weight_if (λ ph, now_in s (fph_status ph)) (leaves_of (fpl_id <$> flow_plans now w) w)).
    { intros s. apply weight_if_ext. intros ph Hph. unfold replays, now_in.
      rewrite (replayed_now _ _ _ _ Hi Ht _ Hph).
      apply bool_decide_ext. split; [by intros [= ->]|by intros ->]. }
    by rewrite !Hw.
  - intros b Hb. destruct (flow_burndowns _ _ _ Hb) as [Htot Hdays]. cbn zeta in *.
    rewrite Hdays, fmap_last, daily_window_today, Htot. cbn -[date day_end].
    rewrite burndown_day_eq, day_end_today. f_equal. set (mine := tree_phases _ _ _).
    assert (Hmine : ∀ ph, ph ∈ mine → ph ∈ leaves_of (fpl_id <$> flow_plans now w) w)
      by (intros ph; apply elem_of_tree_phases).
    assert (Hall : weight_if (exists_by now) mine = sum_weights mine).
    { rewrite sum_weights_if. apply weight_if_ext. intros ph Hph. unfold exists_by.
      pose proof (replayed_now _ _ _ _ Hi Ht _ (Hmine _ Hph)) as Hnow.
      destruct (now <? fph_created_at ph) eqn:E; [|done].
      rewrite (proj2 (replayed_none _ _ _ now (Hmine _ Hph))) in Hnow by lia. done. }
    rewrite Hall. f_equal.
    assert (Hd : weight_if (done_by (histories_of (fpl_id <$> flow_plans now w) w) now) mine =
      weight_if (λ ph, is_done (fph_status ph)) mine).
    { apply weight_if_ext. intros ph Hph. unfold done_by, exists_by.
      pose proof (replayed_now _ _ _ _ Hi Ht _ (Hmine _ Hph)) as Hnow. rewrite Hnow.
      destruct (now <? fph_created_at ph) eqn:E; [|done].
      rewrite (proj2 (replayed_none _ _ _ now (Hmine _ Hph))) in Hnow by lia. done. }
    rewrite Hd, sum_weights_if. apply weight_if_complement.
Qed.

Lemma flow_today_witness :
  flow_plans 40 demo_world ≠ [] ∧
  last (cfd (flow_metrics 40 demo_world)) = Some (mkCfd 0 2 2 0 2 0).
Proof.
  assert (flow_plans 40 demo_world ≠ []) as Hne by by vm_compute. split; [exact Hne|].
  destruct (flow_today demo_parse demo_show 30 demo_world 40 plan_demo_reachable ltac:(lia) Hne) as [-> _].
  by vm_compute.
Defined.

(** On every day of the cumulative flow each phase that exists counts in
    one column, and along every burndown what remains is between nothing and
    the scope, which only grows, up to the scope of today. *)
Lemma flow_bounds parse_uuid show_uuid t w now :
  reachable parse_uuid show_uuid t w → t ≤ now →
  let m := flow_metrics now w in
  (∀ d, d ∈ cfd m →
     cfd_pending d + cfd_in_progress d + cfd_blocked d + cfd_completed d + cfd_skipped d =
     weight_if (exists_by (day_end (cfd_day d) now)) (measured now w)) ∧
  ∀ b, b ∈ burndowns m → ∀ i j d e, bd_days b !! i = Some d → bd_days b !! j = Some e → (i ≤ j)%nat →
    0 ≤ remaining_weight d ≤ bd_total_weight d ∧
    bd_total_weight d ≤ bd_total_weight e ≤ total_weight b.
Proof.
  intros Hr Ht m. pose proof (reachable_inv _ _ _ _ Hr) as Hi. unfold m, measured. split.
  - intros d Hd. destruct (decide (flow_plans now w = [])) as [E|Hne].
    { unfold flow_metrics in Hd. rewrite E in Hd. by apply elem_of_nil in Hd. }
    rewrite (flow_cfd now w Hne) in Hd. apply list_elem_of_fmap in Hd as (day & -> & _).
    rewrite bucket_fold. cbn -[day_end]. rewrite !Z.add_0_l. unfold replays.
    apply (five_statuses (exists_by (day_end day now))). intros ph Hph. unfold exists_by.
    destruct (replayed _ _ ph) as [s|] eqn:Es.
    + destruct (day_end day now <? fph_created_at ph) eqn:E; cbn.
      * rewrite (proj2 (replayed_none _ _ _ _ Hph)) in Es by lia. done.
      * exists s. split; [done|]. by eapply replayed_valid.
    + apply (replayed_none _ _ _ _ Hph) in Es. by rewrite (proj2 (Z.ltb_lt _ _) Es).
  - intros b Hb i j d e Hd He Hij. destruct (flow_burndowns _ _ _ Hb) as [Htot Hdays]. cbn zeta in *.
    rewrite Hdays in Hd, He. rewrite list_lookup_fmap in Hd, He.
    apply fmap_Some in Hd as (day & Hday & ->), He as (day' & Hday' & ->).
    apply daily_window_lookup in Hday, Hday'. rewrite !burndown_day_eq, Htot, sum_weights_if.
    cbn [remaining_weight bd_total_weight]. set (mine := tree_phases _ _ _).
    pose proof (day_end_mono day day' now ltac:(lia)) as Hmono.
    assert (H1 := weight_if_le (done_by (histories_of (fpl_id <$> flow_plans now w) w) (day_end day now))
      (exists_by (day_end day now)) mine (λ ph _ H, proj1 (andb_prop _ _ H))).
    assert (H2 := weight_if_le (exists_by (day_end day now)) (exists_by (day_end day' now)) mine).
    assert (H3 := weight_if_le (exists_by (day_end day' now)) (λ _, true) mine (λ ph _ _, eq_refl)).
    destruct H2 as [? ?]; [intros ph _; unfold exists_by; lia|]. lia.
Qed.

Lemma flow_bounds_witness :
  ∃ b d, b ∈ burndowns (flow_metrics 40 demo_world) ∧ bd_days b !! 13%nat = Some d ∧
         0 ≤ remaining_weight d ≤ bd_total_weight d.
Proof.
  destruct (burndowns (flow_metrics 40 demo_world)) as [|b l] eqn:E; [by vm_compute in E|].
  destruct (bd_days b !! 13%nat) as [d|] eqn:Ed.
  - exists b, d. split; [by left|]. split; [done|].
    destruct (flow_bounds demo_parse demo_show 30 demo_world 40 plan_demo_reachable ltac:(lia)) as [_ H].
    apply (H b ltac:(rewrite E; by left) 13%nat 13%nat d d Ed Ed). lia.
  - exfalso. assert (Hd : (λ b, bd_days b !! 13%nat) <$> head (burndowns (flow_metrics 40 demo_world)) ≠ Some None)
      by by vm_compute. rewrite E in Hd. cbn in Hd. congruence.
Defined.

(** A plan whose branch was closed can be closed, and the branch opened again
    under it: the refusal of C28 looks down the tree only. *)
Definition demo_stranded : option World :=
  snd <$> replay 30 demo_world
    [(40, demo_agent, OpBranch (plan_ids 20) 10%N demo_branch);
     (50, demo_agent, OpUpdate 20%N (demo_close "canceled" false));
     (60, demo_agent, OpUpdate 10%N (demo_close "canceled" false));
     (70, demo_agent, OpUpdate 20%N (demo_close "active" false))].

Lemma reopened_branch_stranded :
  (λ w, (pl_status <$> plans w !! 10%N, pl_status <$> plans w !! 20%N, pl_parent <$> plans w !! 20%N))
    <$> demo_stranded = Some (Some "canceled", Some "active", Some (Some 10%N)).
Proof. by vm_compute. Qed.

(** A phase created already completed has no completion time, one added so
    has: the throughput counts only the latter. *)
Lemma created_completed_uncounted :
  let done_phase := mkNewPhase "done" "" (Some "completed") None in
  let input := mkCreate "repo" "Ship it" "" default_guidance [done_phase] false false in
  (λ w, (ph_completed_at <$> phases w.2 !! 11%N, ph_completed_at <$> phases w.2 !! 12%N,
         throughput_weeks (flow_metrics 40 w.2))) <$>
    replay 0 (no_plans demo_ptys ∅)
      [(10, demo_agent, OpCreate (plan_ids 10) input);
       (20, demo_agent, OpAddPhase 12%N 10%N done_phase)]
  = Some (Some None, Some (Some 20), [(-3, 1)]).
Proof. by vm_compute. Qed.
