(* ===== verification/UsageReport.v ===== *)
(** * The usage report

    [metrics.rs]: the daily usage rows of the database summed by day, by
    repository and by model, with the list prices of the models known. Costs
    are kept exactly, in billionths of a dollar; the rounding of the report's
    floating-point figures is left out. *)

From S2P Require Import Prelude Text.

(** ** Data *)

Record UsageComponents : Type := mkComponents {
  standard_input : Z;
  cache_read : Z;
  cache_write : Z;
  cache_write_1h : Z;
  output : Z;
}.

Record UsageAccumulator : Type := mkAcc {
  acc_usage : UsageComponents;
  acc_cost_nanos : Z;
  acc_unpriced : Z;
}.

Record UsageWindow : Type := mkWindow {
  input_tokens : Z;
  cache_write_input_tokens : Z;
  cached_input_tokens : Z;
  output_tokens : Z;
  cost_nanos : Z;
  unpriced_tokens : Z;
}.

Record CatalogPrice : Type := mkPrice {
  published : bool;
  input_nanos : Z;
  cached_input_nanos : Z;
  cache_write_nanos : Z;
  cache_write_1h_nanos : Z;
  output_nanos : Z;
}.

Record DailyUsageRow : Type := mkRow {
  row_day : Z;
  row_repo : option string;
  row_agent : string;
  row_model : string;
  row_components : UsageComponents;
}.

Record RepoAccumulators : Type := mkRepoAcc {
  ra_all_time : UsageAccumulator;
  ra_today : UsageAccumulator;
  ra_last_7d : UsageAccumulator;
}.

Record RepoUsage : Type := mkRepoUsage {
  ru_repo : string;
  ru_all_time : UsageWindow;
  ru_today : UsageWindow;
  ru_last_7d : UsageWindow;
}.

Record ModelUsage : Type := mkModelUsage {
  mu_model : string;
  mu_agent : string;
  mu_usage : UsageWindow;
  mu_price : option CatalogPrice;
}.

Record UsageDay : Type := mkUsageDay { ud_day : Z; ud_window : UsageWindow }.

Record UsageMetrics : Type := mkUsageMetrics {
  um_all_time : UsageWindow;
  um_today : UsageWindow;
  um_last_7d : UsageWindow;
  um_per_repo : list RepoUsage;
  um_by_model : list ModelUsage;
  um_daily : list UsageDay;
}.

Definition no_usage : UsageAccumulator := mkAcc (mkComponents 0 0 0 0 0) 0 0.
Definition no_repo : RepoAccumulators := mkRepoAcc no_usage no_usage no_usage.

(** ** Prices *)

(** Dollars per million tokens, in thousandths, are billionths per token. *)
Definition price (input cached_input cache_write cache_write_1h output : Z) : CatalogPrice :=
  mkPrice true input cached_input cache_write cache_write_1h output.

Definition estimated (p : CatalogPrice) : CatalogPrice :=
  mkPrice false (input_nanos p) (cached_input_nanos p) (cache_write_nanos p)
    (cache_write_1h_nanos p) (output_nanos p).

Definition catalog : list (list string * CatalogPrice) :=
  [(["fugu"], estimated (price 5000 500 5000 5000 30000));
   (["gpt-6.1-sol"], price 2000 100 2500 2500 10000);
   (["gpt-6-astra"], price 10000 1000 12500 12500 50000);
   (["gpt-5.6-sol"; "gpt-5.6"], price 4000 400 5000 5000 20000);
   (["gpt-5.6-terra"], price 2000 200 2500 2500 12000);
   (["gpt-5.6-luna"], price 200 20 250 250 1200);
   (["claude-opus-5-5"], price 4000 200 5000 8000 20000);
   (["claude-opus-5"; "claude-opus-4-8"], price 5000 500 6250 10000 25000);
   (["claude-fable-5"], price 10000 1000 12500 20000 50000);
   (["claude-fable-5-1"], price 10000 250 12500 20000 50000);
   (["claude-haiku-4-5"; "claude-haiku-4-5-20251001"], price 1000 100 1250 2000 5000)].

Definition catalog_price (model : string) : option CatalogPrice :=
  snd <$> List.find (λ mp, bool_decide (model ∈ mp.1)) catalog.

Definition usage_cost (p : CatalogPrice) (u : UsageComponents) : Z :=
  standard_input u * input_nanos p + cache_read u * cached_input_nanos p
  + cache_write u * cache_write_nanos p + cache_write_1h u * cache_write_1h_nanos p
  + output u * output_nanos p.

(** ** Accumulators *)

Definition components_total (u : UsageComponents) : Z :=
  saturating_add (saturating_add (saturating_add (saturating_add (standard_input u) (cache_read u))
    (cache_write u)) (cache_write_1h u)) (output u).

Definition components_add (a b : UsageComponents) : UsageComponents :=
  mkComponents (saturating_add (standard_input a) (standard_input b))
    (saturating_add (cache_read a) (cache_read b)) (saturating_add (cache_write a) (cache_write b))
    (saturating_add (cache_write_1h a) (cache_write_1h b)) (saturating_add (output a) (output b)).

Definition add (u : UsageComponents) (model : string) (acc : UsageAccumulator) : UsageAccumulator :=
  match catalog_price model with
  | Some p => mkAcc (components_add (acc_usage acc) u) (acc_cost_nanos acc + usage_cost p u)
                (acc_unpriced acc)
  | None => mkAcc (components_add (acc_usage acc) u) (acc_cost_nanos acc)
              (saturating_add (acc_unpriced acc) (components_total u))
  end.

Definition window (acc : UsageAccumulator) : UsageWindow :=
  let u := acc_usage acc in
  mkWindow (saturating_add (saturating_add (standard_input u) (cache_write u)) (cache_write_1h u))
    (saturating_add (cache_write u) (cache_write_1h u)) (cache_read u) (output u)
    (acc_cost_nanos acc) (acc_unpriced acc).

Definition add_row (acc : UsageAccumulator) (row : DailyUsageRow) : UsageAccumulator :=
  add (row_components row) (row_model row) acc.

(** ** The report *)

Definition repo_name (repo : option string) : string := default "(unattributed)" repo.

Record ReportState : Type := mkReport {
  rs_all_time : UsageAccumulator;
  rs_repos : gmap string RepoAccumulators;
  rs_today : UsageAccumulator;
  rs_last_7d : UsageAccumulator;
  rs_models : gmap (string * string) UsageAccumulator;
  rs_agents_by_model : gset (string * string);
  rs_days : gmap Z UsageAccumulator;
}.

Definition USAGE_WINDOW_DAYS : Z := 14.

(** [entry(key).or_default()], then changed. *)
Definition entry_or {K A} `{Countable K} (d : A) (f : A → A) (k : K) (m : gmap K A) : gmap K A :=
  <[k := f (default d (m !! k))]> m.
#[global] Arguments entry_or : simpl never.

Definition on_all_time f r := mkRepoAcc (f (ra_all_time r)) (ra_today r) (ra_last_7d r).
Definition on_today f r := mkRepoAcc (ra_all_time r) (f (ra_today r)) (ra_last_7d r).
Definition on_last_7d f r := mkRepoAcc (ra_all_time r) (ra_today r) (f (ra_last_7d r)).

Definition in_window (now : Z) (row : DailyUsageRow) : bool :=
  (now - (USAGE_WINDOW_DAYS - 1) <=? row_day row) && (row_day row <=? now).

Definition in_today (now : Z) (row : DailyUsageRow) : bool := row_day row =? now.

Definition in_week (now : Z) (row : DailyUsageRow) : bool :=
  (now - 6 <=? row_day row) && (row_day row <=? now).

Definition agent_model (row : DailyUsageRow) : string * string := (row_agent row, row_model row).

Definition report_row (now : Z) (s : ReportState) (row : DailyUsageRow) : ReportState :=
  let plus acc := add_row acc row in
  let repo := repo_name (row_repo row) in
  let s := mkReport (plus (rs_all_time s)) (entry_or no_repo (on_all_time plus) repo (rs_repos s))
             (rs_today s) (rs_last_7d s) (rs_models s) (rs_agents_by_model s) (rs_days s) in
  let s := if in_window now row
           then mkReport (rs_all_time s) (rs_repos s) (rs_today s) (rs_last_7d s)
                  (entry_or no_usage plus (agent_model row) (rs_models s))
                  ({[agent_model row]} ∪ rs_agents_by_model s)
                  (entry_or no_usage plus (row_day row) (rs_days s))
           else s in
  let s := if in_today now row
           then mkReport (rs_all_time s) (entry_or no_repo (on_today plus) repo (rs_repos s))
                  (plus (rs_today s)) (rs_last_7d s) (rs_models s) (rs_agents_by_model s) (rs_days s)
           else s in
  if in_week now row
  then mkReport (rs_all_time s) (entry_or no_repo (on_last_7d plus) repo (rs_repos s))
         (rs_today s) (plus (rs_last_7d s)) (rs_models s) (rs_agents_by_model s) (rs_days s)
  else s.

Definition report_days (now : Z) : gmap Z UsageAccumulator :=
  list_to_map ((λ back, (now - back, no_usage)) <$> seqZ 0 USAGE_WINDOW_DAYS).

Definition report_init (now : Z) : ReportState :=
  mkReport no_usage ∅ no_usage no_usage ∅ ∅ (report_days now).

Definition string_le (a b : string) : Prop := string_ltb b a = false.

#[export] Instance string_le_dec a b : Decision (string_le a b).
Proof. unfold string_le. apply _. Defined.

Definition pair_le (a b : string * string) : Prop :=
  string_ltb a.1 b.1 = true ∨ (a.1 = b.1 ∧ string_le a.2 b.2).

#[export] Instance pair_le_dec a b : Decision (pair_le a b).
Proof. unfold pair_le. apply _. Defined.

(** Standard input, cache reads and output. *)
Definition headline (u : UsageWindow) : Z :=
  saturating_add (saturating_add (input_tokens u) (cached_input_tokens u)) (output_tokens u).

Definition repo_desc (a b : RepoUsage) : Prop := headline (ru_all_time b) ≤ headline (ru_all_time a).

#[export] Instance repo_desc_dec a b : Decision (repo_desc a b).
Proof. unfold repo_desc. apply _. Defined.

Definition model_desc (a b : ModelUsage) : Prop := headline (mu_usage b) ≤ headline (mu_usage a).

#[export] Instance model_desc_dec a b : Decision (model_desc a b).
Proof. unfold model_desc. apply _. Defined.

Definition repo_usage (kv : string * RepoAccumulators) : RepoUsage :=
  mkRepoUsage kv.1 (window (ra_all_time kv.2)) (window (ra_today kv.2)) (window (ra_last_7d kv.2)).

Definition model_usage (models : gmap (string * string) UsageAccumulator) (am : string * string)
    : ModelUsage :=
  mkModelUsage am.2 am.1 (window (default no_usage (models !! am))) (catalog_price am.2).

Definition first_le {A} (R : A → A → Prop) {B} (a b : A * B) : Prop := R a.1 b.1.

#[export] Instance first_le_dec {A} (R : A → A → Prop) `{∀ a b, Decision (R a b)} {B} (a b : A * B) :
  Decision (first_le R a b).
Proof. unfold first_le. apply _. Defined.

Definition usage_metrics (now : Z) (rows : list DailyUsageRow) : UsageMetrics :=
  let s := foldl (report_row now) (report_init now) rows in
  mkUsageMetrics (window (rs_all_time s)) (window (rs_today s)) (window (rs_last_7d s))
    (merge_sort repo_desc (repo_usage <$> merge_sort (first_le string_le) (map_to_list (rs_repos s))))
    (merge_sort model_desc
       (model_usage (rs_models s) <$> merge_sort pair_le (elements (rs_agents_by_model s))))
    ((λ kv, mkUsageDay kv.1 (window kv.2)) <$> merge_sort (first_le Z.le) (map_to_list (rs_days s))).

(** ** One pass against one sum per group *)

(** The sum of the rows that satisfy a test. *)
Definition sum_rows (p : DailyUsageRow → bool) (rows : list DailyUsageRow) : UsageAccumulator :=
  foldl add_row no_usage (filter (λ row, p row = true) rows).

Lemma sum_rows_snoc p rows row : sum_rows p (rows ++ [row]) =
  if p row then add_row (sum_rows p rows) row else sum_rows p rows.
Proof.
  unfold sum_rows. rewrite filter_app, foldl_app, filter_cons, filter_nil.
  destruct (p row) eqn:E; [by rewrite decide_True|by rewrite decide_False].
Qed.

Definition of_repo (repo : string) (row : DailyUsageRow) : bool :=
  bool_decide (repo_name (row_repo row) = repo).

Definition of_model (am : string * string) (row : DailyUsageRow) : bool :=
  bool_decide (agent_model row = am).

Definition of_day (day : Z) (row : DailyUsageRow) : bool := row_day row =? day.

Definition both (p q : DailyUsageRow → bool) (row : DailyUsageRow) : bool := p row && q row.

(** The accumulators after some rows, group by group. *)
Record report_of (now : Z) (rows : list DailyUsageRow) (s : ReportState) : Prop := {
  ro_all_time : rs_all_time s = sum_rows (λ _, true) rows;
  ro_today : rs_today s = sum_rows (in_today now) rows;
  ro_last_7d : rs_last_7d s = sum_rows (in_week now) rows;
  ro_repos repo : rs_repos s !! repo =
    if existsb (of_repo repo) rows
    then Some (mkRepoAcc (sum_rows (of_repo repo) rows) (sum_rows (both (of_repo repo) (in_today now)) rows)
                 (sum_rows (both (of_repo repo) (in_week now)) rows))
    else None;
  ro_models am : default no_usage (rs_models s !! am) = sum_rows (both (of_model am) (in_window now)) rows;
  ro_agents am : am ∈ rs_agents_by_model s ↔ existsb (both (of_model am) (in_window now)) rows = true;
  ro_days day : rs_days s !! day =
    if (now - 13 <=? day) && (day <=? now) then Some (sum_rows (of_day day) rows) else None;
}.

Lemma lookup_entry_or {K A} `{Countable K} (d : A) f k (m : gmap K A) q :
  entry_or d f k m !! q = if bool_decide (k = q) then Some (f (default d (m !! k))) else m !! q.
Proof.
  unfold entry_or. case_bool_decide as E; [subst; apply lookup_insert_eq|by apply lookup_insert_ne].
Qed.

Lemma existsb_snoc {A} (f : A → bool) l x : existsb f (l ++ [x]) = existsb f l || f x.
Proof. rewrite existsb_app. cbn. by rewrite orb_false_r. Qed.

Lemma sum_rows_none p rows : existsb p rows = false → sum_rows p rows = no_usage.
Proof.
  intros H. induction rows as [|row rows IH] using rev_ind; [done|].
  rewrite existsb_snoc in H. apply orb_false_elim in H as [H1 H2]. by rewrite sum_rows_snoc, H2, IH.
Qed.

Lemma existsb_both p q rows : existsb p rows = false → existsb (both p q) rows = false.
Proof.
  unfold both. intros H. induction rows as [|row rows IH]; [done|]. cbn in *.
  apply orb_false_elim in H as [H1 H2]. by rewrite H1, IH.
Qed.

Lemma report_step now rows s row :
  report_of now rows s → report_of now (rows ++ [row]) (report_row now s row).
Proof.
  intros [R1 R2 R3 R4 R5 R6 R7].
  assert (Hwin : in_window now row = (now - 13 <=? row_day row) && (row_day row <=? now)) by done.
  split.
  - unfold report_row. rewrite sum_rows_snoc, <-R1. by destruct (in_window _ _), (in_today _ _), (in_week _ _).
  - unfold report_row. rewrite sum_rows_snoc, <-R2. by destruct (in_window _ _), (in_today _ _), (in_week _ _).
  - unfold report_row. rewrite sum_rows_snoc, <-R3. by destruct (in_window _ _), (in_today _ _), (in_week _ _).
  - intros repo. rewrite existsb_snoc, !sum_rows_snoc.
    change (both (of_repo repo) (in_today now) row) with (of_repo repo row && in_today now row).
    change (both (of_repo repo) (in_week now) row) with (of_repo repo row && in_week now row).
    assert (E : rs_repos (report_row now s row) !! repo =
      if of_repo repo row then
        let r := default no_repo (rs_repos s !! repo) in
        Some (mkRepoAcc (add_row (ra_all_time r) row)
          (if in_today now row then add_row (ra_today r) row else ra_today r)
          (if in_week now row then add_row (ra_last_7d r) row else ra_last_7d r))
      else rs_repos s !! repo).
    { unfold report_row. destruct (in_window _ _), (in_today _ _), (in_week _ _); cbn;
        rewrite !lookup_entry_or; unfold of_repo; case_bool_decide as Er; try done; subst repo;
        by rewrite ?bool_decide_true by done. }
    rewrite E, R4. destruct (of_repo repo row); cbn [andb].
    + rewrite orb_true_r. destruct (existsb (of_repo repo) rows) eqn:Ex; cbn.
      * by destruct (in_today _ _), (in_week _ _).
      * rewrite (sum_rows_none _ _ Ex), !(sum_rows_none _ _ (existsb_both _ _ _ Ex)).
        by destruct (in_today _ _), (in_week _ _).
    + by rewrite orb_false_r.
  - intros am. rewrite sum_rows_snoc.
    change (both (of_model am) (in_window now) row) with (of_model am row && in_window now row).
    assert (E : rs_models (report_row now s row) !! am =
      if in_window now row && of_model am row
      then Some (add_row (default no_usage (rs_models s !! am)) row) else rs_models s !! am).
    { unfold report_row. destruct (in_window _ _), (in_today _ _), (in_week _ _); cbn; try done;
        rewrite lookup_entry_or; unfold of_model; case_bool_decide; by subst. }
    rewrite E, (andb_comm (in_window now row)), <-R5.
    by destruct (of_model am row && in_window now row).
  - intros am. rewrite existsb_snoc.
    change (both (of_model am) (in_window now) row) with (of_model am row && in_window now row).
    assert (E : am ∈ rs_agents_by_model (report_row now s row) ↔
      (in_window now row && of_model am row) = true ∨ am ∈ rs_agents_by_model s).
    { unfold report_row. unfold of_model. rewrite andb_true_iff, bool_decide_eq_true.
      destruct (in_window _ _), (in_today _ _), (in_week _ _); cbn; rewrite ?elem_of_union, ?elem_of_singleton;
        naive_solver. }
    rewrite E, R6, (andb_comm (in_window now row)), orb_true_iff. tauto.
  - intros day. rewrite sum_rows_snoc. change (of_day day row) with (row_day row =? day).
    assert (E : rs_days (report_row now s row) !! day =
      if in_window now row && (row_day row =? day)
      then Some (add_row (default no_usage (rs_days s !! day)) row) else rs_days s !! day).
    { unfold report_row. destruct (in_window _ _), (in_today _ _), (in_week _ _); cbn; try done;
        rewrite lookup_entry_or; (destruct (row_day row =? day) eqn:Ed; cbn;
        [apply Z.eqb_eq in Ed; subst; by rewrite bool_decide_true|
         apply Z.eqb_neq in Ed; by rewrite bool_decide_false]). }
    rewrite E, R7, Hwin. destruct (row_day row =? day) eqn:Ed.
    + apply Z.eqb_eq in Ed as ->. rewrite andb_true_r.
      by destruct ((now - 13 <=? day) && (day <=? now)).
    + by rewrite andb_false_r.
Qed.

Lemma report_days_lookup now day :
  report_days now !! day = if (now - 13 <=? day) && (day <=? now) then Some no_usage else None.
Proof.
  unfold report_days. destruct (_ && _) eqn:E.
  - apply elem_of_list_to_map_1.
    + rewrite <-list_fmap_compose. change (fst ∘ _) with (λ back, now - back).
      apply NoDup_fmap_2; [intros a b; lia|apply NoDup_seqZ].
    + apply list_elem_of_fmap. exists (now - day). split; [f_equal; lia|].
      apply elem_of_seqZ. unfold USAGE_WINDOW_DAYS. lia.
  - apply not_elem_of_list_to_map_1. rewrite <-list_fmap_compose.
    intros (back & -> & Hb)%list_elem_of_fmap. apply elem_of_seqZ in Hb. cbn in E.
    unfold USAGE_WINDOW_DAYS in Hb. lia.
Qed.

Lemma report_groups now rows : report_of now rows (foldl (report_row now) (report_init now) rows).
Proof.
  induction rows as [|row rows IH] using rev_ind; [|rewrite foldl_app; by apply report_step].
  split; try done.
  intros day. cbn [foldl rs_days report_init]. by rewrite report_days_lookup.
Qed.

Lemma seqZ_StronglySorted n : ∀ k, StronglySorted Z.le (seqZ k (Z.of_nat n)).
Proof.
  induction n as [|n IH]; intros k; [constructor|]. rewrite seqZ_cons by lia.
  replace (Z.pred (Z.of_nat (S n))) with (Z.of_nat n) by lia. constructor; [apply IH|].
  apply Forall_forall. intros z Hz%elem_of_seqZ. lia.
Qed.

Lemma sorted_days (m : gmap Z UsageAccumulator) f now :
  (∀ day, m !! day = if (now - 13 <=? day) && (day <=? now) then Some (f day) else None) →
  merge_sort (first_le Z.le) (map_to_list m) = (λ i, (now - 13 + i, f (now - 13 + i))) <$> seqZ 0 14.
Proof.
  intros Hm. apply (StronglySorted_unique_strong (first_le Z.le)).
  - intros [d a] [e b] Hd H Hde Hed. rewrite merge_sort_Permutation in Hd. unfold first_le in *. cbn in *.
    assert (d = e) as -> by lia. f_equal. revert H. intros (i & [= -> ->] & _)%list_elem_of_fmap.
    apply elem_of_map_to_list in Hd. rewrite Hm in Hd. destruct (_ && _); [|done]. by injection Hd.
  - apply StronglySorted_merge_sort; unfold first_le; [intros [??] [??] [??]; cbn; lia|intros [??] [??]; cbn; lia].
  - assert (StronglySorted Z.le (seqZ 0 14)) as Hs by apply (seqZ_StronglySorted 14).
    induction Hs as [|i l Hs IH Hall]; cbn; constructor; [done|].
    rewrite Forall_fmap. eapply Forall_impl; [exact Hall|]. intros j; unfold first_le; cbn. lia.
  - rewrite merge_sort_Permutation. apply NoDup_Permutation.
    + apply NoDup_map_to_list.
    + apply NoDup_fmap_2; [intros i j [= E _]; lia|apply NoDup_seqZ].
    + intros [d a]. rewrite elem_of_map_to_list, list_elem_of_fmap, Hm. split.
      * destruct (_ && _) eqn:E; [|done]. intros [= <-]. exists (d - now + 13).
        rewrite elem_of_seqZ. split; [f_equal; [lia|f_equal; lia]|lia].
      * intros (i & [= -> ->] & Hi%elem_of_seqZ).
        by rewrite (proj2 (Z.leb_le (now - 13) _)), (proj2 (Z.leb_le _ now)) by lia.
Qed.

(** The one pass over the rows reports for every window, day, repository
    and model the sum of exactly the rows of that group: repositories are
    those with a row, each once, models those with a row in the two weeks, and
    every one of the fourteen days is there, in order, rows or not. *)
Lemma usage_report_grouped now rows :
  let m := usage_metrics now rows in
  um_all_time m = window (sum_rows (λ _, true) rows) ∧
  um_today m = window (sum_rows (in_today now) rows) ∧
  um_last_7d m = window (sum_rows (in_week now) rows) ∧
  NoDup (ru_repo <$> um_per_repo m) ∧
  (∀ u, u ∈ um_per_repo m ↔ existsb (of_repo (ru_repo u)) rows = true ∧
     u = mkRepoUsage (ru_repo u) (window (sum_rows (of_repo (ru_repo u)) rows))
           (window (sum_rows (both (of_repo (ru_repo u)) (in_today now)) rows))
           (window (sum_rows (both (of_repo (ru_repo u)) (in_week now)) rows))) ∧
  (∀ u, let am := (mu_agent u, mu_model u) in
     u ∈ um_by_model m ↔ existsb (both (of_model am) (in_window now)) rows = true ∧
     u = mkModelUsage (mu_model u) (mu_agent u)
           (window (sum_rows (both (of_model am) (in_window now)) rows)) (catalog_price (mu_model u))) ∧
  um_daily m = (λ i, mkUsageDay (now - 13 + i) (window (sum_rows (of_day (now - 13 + i)) rows))) <$> seqZ 0 14.
Proof.
  destruct (report_groups now rows) as [R1 R2 R3 R4 R5 R6 R7]. cbn zeta. unfold usage_metrics.
  set (s := foldl _ _ rows) in *. cbn [um_all_time um_today um_last_7d um_per_repo um_by_model um_daily].
  rewrite R1, R2, R3. split_and!; [done|done|done|..].
  - rewrite !merge_sort_Permutation, <-list_fmap_compose.
    change (ru_repo ∘ repo_usage) with (fst : string * RepoAccumulators → _). apply NoDup_fst_map_to_list.
  - intros u. rewrite merge_sort_Permutation, list_elem_of_fmap. setoid_rewrite merge_sort_Permutation.
    split.
    + intros ([repo acc] & -> & Hin%elem_of_map_to_list). rewrite R4 in Hin. cbn.
      destruct (existsb _ rows); [|done]. by injection Hin as <-.
    + intros [Hex ->]. eexists (ru_repo u, _). split; [|apply elem_of_map_to_list; rewrite R4, Hex; done]. done.
  - intros u. cbn zeta. rewrite merge_sort_Permutation, list_elem_of_fmap. setoid_rewrite merge_sort_Permutation.
    split.
    + intros ([a mo] & -> & Hin%elem_of_elements). rewrite R6 in Hin. cbn. split; [done|].
      unfold model_usage. cbn. by rewrite R5.
    + intros [Hex ->]. exists (mu_agent u, mu_model u). split.
      * unfold model_usage. cbn. by rewrite R5.
      * apply elem_of_elements. by apply R6.
  - pose proof (sorted_days _ (λ day, sum_rows (of_day day) rows) now R7) as Hd.
    etrans; [apply (f_equal (fmap (λ kv, mkUsageDay kv.1 (window kv.2)))); exact Hd|].
    by rewrite <-list_fmap_compose.
Qed.

(** The catalog against the figures the code's own tests expect. *)
Lemma catalog_costs :
  (λ model, (λ p, usage_cost p (mkComponents 1000000 2000000 1000000 1000000 1000000)) <$> catalog_price model)
    <$> ["fugu"; "gpt-6.1-sol"; "gpt-6-astra"; "gpt-5.6-sol"; "gpt-5.6"; "gpt-5.6-terra"; "gpt-5.6-luna";
         "claude-opus-5-5"; "claude-opus-4-8"; "claude-fable-5-1"; "claude-haiku-4-5-20251001"]
  = Some <$> [46000000000; 17200000000; 87000000000; 34800000000; 34800000000; 19400000000; 1940000000;
              37400000000; 47250000000; 93000000000; 9450000000].
Proof. by vm_compute. Qed.
