(* ===== verification/CodeMode.v ===== *)
(** * Code Mode

    [ingest/canonical/code_mode.rs]: the tool calls inside the JavaScript a
    Codex [exec] call carries, and the program a shell command runs. The
    JavaScript grammar is the tree-sitter crate's and JSON text serde's; both
    are parameters. *)

From S2P Require Import Prelude Text Json.

(** ** The parser of JavaScript *)

(** A node of a syntax tree, with the text of the source under it. *)
Class TreeSitter : Type := {
  Node : Type;
  node_kind : Node → string;
  node_text : Node → option string;
  named_children : Node → list Node;
  child_by_field_name : Node → string → option Node;
  (** The root of the tree, if the parser yields one. *)
  parse_javascript : string → option Node;
  (** The number of nodes of a subtree. *)
  node_size : Node → nat;
}.

(** Trees are finite. *)
Class TreeSitterLaws (T : TreeSitter) : Prop := {
  named_children_size n c : c ∈ named_children n → (node_size c < node_size n)%nat;
  field_size n f c : child_by_field_name n f = Some c → (node_size c < node_size n)%nat;
}.

(** [serde_json::from_str] and [Value::to_string]. *)
Class SerdeText : Type := {
  from_str : string → option Value;
  to_json : Value → string;
}.

Record CodeModeCall : Type := mkCall { call_raw_name : string; call_input : Value }.

(** ** String literals *)

Definition single_quote : string := bytes [39%N].
Definition backslash : string := bytes [92%N].
Definition backtick : string := bytes [96%N].
Definition nul : string := bytes [0%N].

(** [value.replace('\0', "")] *)
Definition strip_nul (value : string) : string :=
  concat_text (filter (λ c, c ≠ nul) (chars value)).

(** What an escaped character stands for. *)
Definition unescape (c : string) : string :=
  if bool_decide (c = "n") then newline
  else if bool_decide (c = "r") then bytes [13%N]
  else if bool_decide (c = "t") then bytes [9%N]
  else if bool_decide (c = single_quote) then single_quote
  else if bool_decide (c = backslash) then backslash
  else backslash +:+ c.

Fixpoint decode_chars (cs : list string) : string :=
  match cs with
  | [] => ""
  | c :: cs =>
      if bool_decide (c = backslash) then
        match cs with
        | [] => backslash
        | e :: cs => unescape e +:+ decode_chars cs
        end
      else c +:+ decode_chars cs
  end.

Definition decode_single_quoted (body : string) : string := decode_chars (chars body).

(** [&raw[1..raw.len().saturating_sub(1)]]: a lone quote has no such slice. *)
Definition inside (raw : string) : res string :=
  match raw with
  | String _ rest =>
      match string_rev rest with
      | String _ body => Ok (string_rev body)
      | EmptyString => panic "begin > end (1 > 0) when slicing"
      end
  | EmptyString => panic "byte index 1 is out of bounds"
  end.

Section code_mode.
Context `{T : TreeSitter} `{J : SerdeText}.

Definition from_str_string (s : string) : option string := v ← from_str s; as_str v.

Definition decode_string (raw : string) : res (option string) :=
  if starts_with quote_char raw then Ok (strip_nul <$> from_str_string raw)
  else if starts_with single_quote raw && ends_with single_quote raw then
    body ← inside raw;
    Ok (Some (strip_nul (decode_single_quoted body)))
  else Ok None.

Definition decode_template (raw : string) : res (option string) :=
  if negb (starts_with backtick raw) || negb (ends_with backtick raw) || contains "${" raw
  then Ok None
  else
    body ← inside raw;
    Ok (Some (strip_nul body)).

Definition property_name (node : Node) : res (option string) :=
  match node_text node with
  | None => Ok None
  | Some text =>
      if bool_decide (node_kind node = "string") then decode_string text else Ok (Some text)
  end.

Definition first_named_child (node : Node) : option Node := head (named_children node).

(** One pair of an object literal; anything else is passed over. *)
Definition object_pair (js_literal : Node → res (option Value)) (m : object) (child : Node)
    : res object :=
  if negb (bool_decide (node_kind child = "pair")) then Ok m
  else
    match child_by_field_name child "key", child_by_field_name child "value" with
    | Some key_node, Some value_node =>
        key ← property_name key_node;
        match key with
        | None => Ok m
        | Some key =>
            value ← js_literal value_node;
            Ok (match value with Some value => obj_insert key value m | None => m end)
        end
    | _, _ => Ok m
    end.

Definition keep_literal (js_literal : Node → res (option Value)) (l : list Value) (child : Node)
    : res (list Value) :=
  value ← js_literal child;
  Ok (match value with Some value => l ++ [value] | None => l end).

(** [fuel] bounds the depth of the literal; [S (node_size node)] is enough. *)
Fixpoint js_literal (fuel : nat) (node : Node) : res (option Value) :=
  match fuel with
  | O => Ok None
  | S fuel =>
      let kind := node_kind node in
      if bool_decide (kind = "object") then
        m ← try_fold (object_pair (js_literal fuel)) (named_children node) [];
        Ok (Some (Object m))
      else if bool_decide (kind = "array") then
        l ← try_fold (keep_literal (js_literal fuel)) (named_children node) [];
        Ok (Some (Array l))
      else if bool_decide (kind = "string") then
        match node_text node with
        | Some raw => s ← decode_string raw; Ok (option_map Str s)
        | None => Ok None
        end
      else if bool_decide (kind = "template_string") then
        match node_text node with
        | Some raw => s ← decode_template raw; Ok (option_map Str s)
        | None => Ok None
        end
      else if bool_decide (kind = "number") then Ok (node_text node ≫= from_str)
      else if bool_decide (kind = "true") then Ok (Some (Bool true))
      else if bool_decide (kind = "false") then Ok (Some (Bool false))
      else if bool_decide (kind = "null") then Ok (Some Null)
      else if bool_decide (kind = "parenthesized_expression") then
        match first_named_child node with
        | Some child => js_literal fuel child
        | None => Ok None
        end
      else if bool_decide (kind = "unary_expression") then Ok (node_text node ≫= from_str)
      else Ok None
  end.

(** The member expression [tools.name] a call is made on. *)
Definition tool_called (node : Node) : option string :=
  function ← child_by_field_name node "function";
  if negb (bool_decide (node_kind function = "member_expression")) then None
  else
    object ← child_by_field_name function "object";
    text ← node_text object;
    if negb (bool_decide (text = "tools")) then None
    else
      property ← child_by_field_name function "property";
      node_text property.

Definition tool_call (node : Node) : res (option CodeModeCall) :=
  match tool_called node, child_by_field_name node "arguments" with
  | Some raw_name, Some arguments =>
      input ← match first_named_child arguments with
              | Some argument => js_literal (S (node_size argument)) argument
              | None => Ok None
              end;
      Ok (Some (mkCall raw_name (default (Object []) input)))
  | _, _ => Ok None
  end.

Fixpoint collect_tool_calls (fuel : nat) (calls : list CodeModeCall) (node : Node)
    : res (list CodeModeCall) :=
  match fuel with
  | O => Ok calls
  | S fuel =>
      call ← (if bool_decide (node_kind node = "call_expression") then tool_call node else Ok None);
      match call with
      | Some call => Ok (calls ++ [call])
      | None => try_fold (collect_tool_calls fuel) (named_children node) calls
      end
  end.

Definition parse_tool_calls (code : string) : res (list CodeModeCall) :=
  match parse_javascript code with
  | Some root => collect_tool_calls (S (node_size root)) [] root
  | None => Ok []
  end.
End code_mode.

(** ** The program of a shell command *)

Record Lexer : Type := mkLexer {
  tokens : list string;
  token : string;
  quote : option string;
  escaped : bool;
}.

Definition end_token (l : Lexer) : list string :=
  if is_empty (token l) then tokens l else tokens l ++ [token l].

Definition push_char (c : string) (l : Lexer) : Lexer :=
  mkLexer (tokens l) (token l +:+ c) (quote l) false.

(** The words of the first command, up to a separator. *)
Fixpoint lex (cs : list string) (l : Lexer) : list string :=
  match cs with
  | [] => end_token l
  | c :: cs =>
      if escaped l then lex cs (push_char c l)
      else if bool_decide (c = backslash) && negb (bool_decide (quote l = Some single_quote))
      then lex cs (mkLexer (tokens l) (token l) (quote l) true)
      else
        match quote l with
        | Some delimiter =>
            if bool_decide (c = delimiter) then lex cs (mkLexer (tokens l) (token l) None false)
            else lex cs (push_char c l)
        | None =>
            if bool_decide (c ∈ [single_quote; quote_char; backtick])
            then lex cs (mkLexer (tokens l) (token l) (Some c) false)
            else if is_whitespace c then lex cs (mkLexer (end_token l) "" None false)
            else if bool_decide (c ∈ [";"; "|"; "&"]) then end_token l
            else lex cs (push_char c l)
        end
  end.

Definition first_command_tokens (command : string) : list string :=
  lex (chars command) (mkLexer [] "" None false).

Definition ascii_alphanumeric (c : Ascii.ascii) : bool :=
  let n := Z.of_N (Ascii.N_of_ascii c) in
  ((48 <=? n) && (n <=? 57)) || ((65 <=? n) && (n <=? 90)) || ((97 <=? n) && (n <=? 122)).

Fixpoint all_bytes (p : Ascii.ascii → bool) (s : string) : bool :=
  match s with
  | EmptyString => true
  | String c s => p c && all_bytes p s
  end.

Definition is_assignment (token : string) : bool :=
  match split_once "=" token with
  | None => false
  | Some (name, _) =>
      negb (is_empty name)
      && all_bytes (λ c, ascii_alphanumeric c || Ascii.eqb c (Ascii.ascii_of_nat 95)) name
  end.

Fixpoint skip_while (p : string → bool) (l : list string) : list string :=
  match l with
  | [] => []
  | x :: l' => if p x then skip_while p l' else l
  end.

(** The tokens after the first [--]. *)
Fixpoint after_dashes (l : list string) : option (list string) :=
  match l with
  | [] => None
  | x :: l => if bool_decide (x = "--") then Some l else after_dashes l
  end.

(** The name of the program, past the commands that run another; [l] is what
    is left of the tokens. *)
Fixpoint executable_loop (fuel : nat) (l : list string) : option string :=
  match fuel, l with
  | O, _ | _, [] => None
  | S fuel, executable :: rest =>
      if bool_decide (executable ∈ ["env"; "command"; "sudo"]) then
        executable_loop fuel (skip_while is_assignment (skip_while (starts_with "-") rest))
      else if bool_decide (executable = "with-cred") then
        executable_loop fuel (default (tail rest) (after_dashes rest))
      else if bool_decide (executable = "timeout") then
        executable_loop fuel (tail (skip_while (starts_with "-") rest))
      else Some (to_ascii_lowercase (rsplit_first (Ascii.ascii_of_nat 47) executable))
  end.

Definition shell_executable (command : string) : option string :=
  let l := skip_while is_assignment (first_command_tokens command) in
  executable_loop (length l) l.

Example env_program :
  shell_executable "FOO=1 sudo -E env -i A=2 timeout 10 /usr/bin/CARGO test; rm x" = Some "cargo".
Proof. by vm_compute. Qed.
