(* ===== verification/Tools.v ===== *)
(** * Canonical tools

    [ingest/canonical/tools.rs]: the names, inputs and results of tool calls
    brought to one vocabulary, whichever agent made them. *)

From S2P Require Import Prelude Text Json CodeMode.

(** ** Text *)

Definition carriage_return : string := bytes [13%N].

(** The text after the last occurrence of [sep], if any. *)
Fixpoint after_last (sep s : string) : option string :=
  match s with
  | EmptyString => None
  | String c s' =>
      match after_last sep s' with
      | Some rest => Some rest
      | None => strip_prefix sep s
      end
  end.

(** [str::lines]: the pieces between newlines, without a last empty one and
    without the carriage return a newline ends. *)
Definition lines (s : string) : list string :=
  let pieces := split_char (Ascii.ascii_of_nat 10) s in
  let complete := (λ l, default l (strip_suffix carriage_return l)) <$> removelast pieces in
  let rest := List.last pieces "" in
  if is_empty rest then complete else complete ++ [rest].

(** [trim_end_matches('\n')] *)
Definition trim_newlines_end (s : string) : string :=
  trim_end_by (λ c, bool_decide (c = newline)) s.

Definition is_upper (c : Ascii.ascii) : bool :=
  let n := Z.of_N (Ascii.N_of_ascii c) in (65 <=? n) && (n <=? 90).
Definition is_lower_or_digit (c : Ascii.ascii) : bool :=
  let n := Z.of_N (Ascii.N_of_ascii c) in ((97 <=? n) && (n <=? 122)) || ((48 <=? n) && (n <=? 57)).

Definition underscore : Ascii.ascii := Ascii.ascii_of_nat 95.

(** Bytes of a character beyond ASCII are copied one by one. *)
Fixpoint snake_loop (s : string) (prev_lower : bool) : string :=
  match s with
  | EmptyString => ""
  | String c s =>
      if is_upper c then
        let rest := String (ascii_lower c) (snake_loop s false) in
        if prev_lower then String underscore rest else rest
      else if Ascii.eqb c (Ascii.ascii_of_nat 45) || Ascii.eqb c (Ascii.ascii_of_nat 32)
      then String underscore (snake_loop s false)
      else String c (snake_loop s (is_lower_or_digit c))
  end.

Definition to_snake_case (s : string) : string := snake_loop s false.

(** ** Names *)

Definition CANONICAL_NAMES : list (list string * string) :=
  [(["Read"; "read_file"], "read"); (["Write"; "write_file"], "write");
   (["Edit"; "apply_diff"], "edit"); (["MultiEdit"], "multi_edit");
   (["Bash"; "shell"; "execute_shell"], "bash"); (["Grep"; "grep_search"], "grep");
   (["Glob"; "glob_files"], "glob"); (["Task"; "Agent"; "spawn_agent"], "task");
   (["TodoWrite"; "todo_update"], "todo_write"); (["WebFetch"; "fetch_url"], "web_fetch");
   (["WebSearch"; "web_search_query"], "web_search"); (["NotebookEdit"], "notebook_edit");
   (["BashOutput"], "bash_output"); (["KillShell"; "killShell"], "kill_shell");
   (["ExitPlanMode"; "exitPlanMode"], "exit_plan_mode")].

Definition canonicalize_tool_name (raw : string) : string :=
  let name := rsplit_first (Ascii.ascii_of_nat 46) raw in
  match List.find (λ nc, bool_decide (name ∈ nc.1)) CANONICAL_NAMES with
  | Some (_, canonical) => canonical
  | None => to_snake_case name
  end.

Definition code_mode_tool_name (raw_name : string) : string :=
  canonicalize_tool_name (default raw_name (after_last "__" raw_name)).

(** ** Inputs *)

Definition first_of (obj : object) (keys : list string) : option Value :=
  head (omap (λ k, obj_get k obj) keys).

Definition copy_first (src dst : object) (target : string) (candidates : list string) : object :=
  match first_of src candidates with
  | Some value => obj_insert target value dst
  | None => dst
  end.

Definition copy_key (src dst : object) (key : string) : object := copy_first src dst key [key].

(** The edit of one file, before and after. *)
Definition file_edit (path : Value) (obj : object) : Value :=
  let old_text := default (Str "") (first_of obj ["old_text"; "old_string"]) in
  let new_text := default (Str "") (first_of obj ["new_text"; "new_string"]) in
  let entry := obj_insert "path" path [] in
  let entry := obj_insert "operation" (Str "update") entry in
  let in_out := obj_insert "new_text" new_text (obj_insert "old_text" old_text []) in
  let entry := obj_insert "in_out" (Object in_out) entry in
  Object (match obj_get "replace_all" obj with
          | Some value => obj_insert "replace_all" value entry
          | None => entry
          end).

Definition multi_edit_to_file_edit (path edit : Value) : Value :=
  match edit with Object obj => file_edit path obj | _ => Null end.

Definition edit_path (obj : object) : Value := default Null (first_of obj ["path"; "file_path"]).

(** The input of a tool other than [apply_patch] and [exec]. *)
Definition canonical_object (canonical_name : string) (obj : object) : object :=
  let name s := bool_decide (canonical_name = s) in
  if name "read" then
    copy_key obj (copy_key obj (copy_first obj [] "path" ["path"; "file_path"]) "offset") "limit"
  else if name "write" then copy_key obj (copy_first obj [] "path" ["path"; "file_path"]) "content"
  else if name "edit" then [("file_edits", Array [file_edit (edit_path obj) obj])]
  else if name "multi_edit" then
    let edits := match obj_get "edits" obj with
                 | Some (Array edits) => multi_edit_to_file_edit (edit_path obj) <$> edits
                 | _ => []
                 end in
    [("file_edits", Array edits)]
  else if name "bash" then copy_key obj (copy_key obj [] "command") "description"
  else if name "grep" then
    copy_first obj (copy_first obj (copy_key obj [] "pattern") "path" ["path"; "glob"])
      "mode" ["mode"; "output_mode"]
  else if name "glob" then copy_key obj (copy_key obj [] "pattern") "path"
  else if name "task" then
    copy_first obj
      (copy_first obj (copy_first obj [] "agent" ["agent"; "subagent_type"])
         "description" ["description"; "task_name"])
      "prompt" ["prompt"; "message"]
  else if name "todo_write" then copy_key obj [] "todos"
  else if name "web_fetch" then copy_key obj (copy_key obj [] "url") "prompt"
  else if name "web_search" then copy_key obj (copy_key obj [] "query") "prompt"
  else obj.

(** ** Patches *)

Record FileEditBuf : Type := mkEdit {
  edit_file : string;
  edit_operation : string;
  edit_old_path : option string;
  edit_diff : string;
}.

Definition edit_value (buf : FileEditBuf) : Value :=
  let obj := obj_insert "path" (Str (edit_file buf)) [] in
  let obj := obj_insert "operation" (Str (edit_operation buf)) obj in
  let obj := match edit_old_path buf with
             | Some old_path => obj_insert "old_path" (Str old_path) obj
             | None => obj
             end in
  Object (obj_insert "diff" (Str (trim_newlines_end (edit_diff buf))) obj).

Definition split_move (rest : string) : option (string * string) :=
  match split_once " to " rest with
  | None => None
  | Some (from, to) =>
      let from := trim from in
      let to := trim to in
      if is_empty from || is_empty to then None else Some (from, to)
  end.

(** The file a directive header opens. *)
Definition directive (header : string) : option FileEditBuf :=
  match strip_prefix "Update File: " header with
  | Some path => Some (mkEdit (trim path) "update" None "")
  | None =>
  match strip_prefix "Add File: " header with
  | Some path => Some (mkEdit (trim path) "add" None "")
  | None =>
  match strip_prefix "Delete File: " header with
  | Some path => Some (mkEdit (trim path) "delete" None "")
  | None =>
  match strip_prefix "Move File: " header with
  | Some rest =>
      let '(from, to) := default (trim rest, trim rest) (split_move rest) in
      Some (mkEdit to "move" (Some from) "")
  | None => None
  end end end end.

Definition add_line (line : string) (buf : FileEditBuf) : FileEditBuf :=
  mkEdit (edit_file buf) (edit_operation buf) (edit_old_path buf)
    (edit_diff buf +:+ line +:+ newline).

Definition flush (entries : list Value) (current : option FileEditBuf) : list Value :=
  match current with Some buf => entries ++ [edit_value buf] | None => entries end.

Definition patch_line (st : list Value * option FileEditBuf) (line : string)
    : list Value * option FileEditBuf :=
  let '(entries, current) := st in
  match strip_prefix "*** " line with
  | Some header =>
      (flush entries current,
       if bool_decide (header ∈ ["Begin Patch"; "End Patch"]) then None else directive header)
  | None => (entries, add_line line <$> current)
  end.

Definition patch_edits (raw : string) : list Value :=
  let '(entries, current) := foldl patch_line ([], None) (lines raw) in
  flush entries current.

Definition parse_apply_patch (raw : string) : Value :=
  Object [("file_edits", Array (patch_edits raw))].

(** ** Code Mode *)

Section tools.
Context `{T : TreeSitter} `{J : SerdeText}.

(** The literal that starts a string: its text up to and with the closing
    quote, and what follows. *)
Fixpoint literal_end (s : string) (escaped : bool) : option (string * string) :=
  match s with
  | EmptyString => None
  | String c s =>
      let continue_ esc := prod_map (String c) id <$> literal_end s esc in
      if escaped then continue_ false
      else if Ascii.eqb c (Ascii.ascii_of_nat 92) then continue_ true
      else if Ascii.eqb c (Ascii.ascii_of_nat 34) then Some (String c "", s)
      else continue_ false
  end.

(** [js_string_literal_at], at the start of [s]. *)
Definition js_string_literal_at (s : string) : option (string * string) :=
  match s with
  | EmptyString => None
  | String c rest =>
      if negb (Ascii.eqb c (Ascii.ascii_of_nat 34)) then None
      else
        lit ← literal_end rest false;
        decoded ← from_str_string (String c lit.1);
        Some (strip_nul decoded, lit.2)
  end.

(** The literals that start a patch, and the edits in them; [fuel] bounds the
    number of searches, one per byte. *)
Fixpoint patches_in (fuel : nat) (code : string) : list Value :=
  match fuel with
  | O => []
  | S fuel =>
      match split_once (quote_char +:+ "*** Begin Patch") code with
      | None => []
      | Some (before, after) =>
          let found := quote_char +:+ "*** Begin Patch" +:+ after in
          match js_string_literal_at found with
          | None => patches_in fuel ("*** Begin Patch" +:+ after)
          | Some (patch, rest) => patch_edits patch ++ patches_in fuel rest
          end
      end
  end.

Definition WEB_ACTIONS : list string :=
  ["search_query"; "image_query"; "open"; "click"; "find"; "screenshot"; "weather"; "finance";
   "sports"; "time"].

Definition code_mode_operation_name (raw_name tool_name : string) (input : Value) : string :=
  if bool_decide (tool_name = "exec_command") then
    default tool_name
      (object ← as_object input; v ← first_of object ["cmd"; "command"]; s ← as_str v;
       shell_executable s)
  else if bool_decide (raw_name = "web__run") then
    match List.filter (λ key, match get input key with
                              | Some value => negb (is_null value) | None => false end) WEB_ACTIONS with
    | [action] => action
    | [] => tool_name
    | _ => "parallel"
    end
  else tool_name.

(** What the loop over the calls gathers. *)
Record Calls : Type := mkCalls {
  commands : list string;
  operation_names : list string;
  operations : list Value;
  single_input : option Value;
}.

Definition operation_value (name raw_name : string) (input : Value) : Value :=
  Object (obj_insert "input" input (obj_insert "raw_name" (Str raw_name)
    (obj_insert "name" (Str name) []))).

Definition gather_call (canonicalize : string → Value → res Value) (acc : Calls)
    (call : CodeModeCall) : res Calls :=
  let tool_name := code_mode_tool_name (call_raw_name call) in
  input ← canonicalize tool_name (call_input call);
  let operation_name := code_mode_operation_name (call_raw_name call) tool_name input in
  let command :=
    if bool_decide (tool_name = "exec_command") then
      object ← as_object input; v ← first_of object ["command"; "cmd"]; as_str v
    else None in
  let operations := operations acc ++ [operation_value operation_name (call_raw_name call) input] in
  Ok (mkCalls (commands acc ++ match command with Some c => [c] | None => [] end)
        (operation_names acc ++ [operation_name]) operations
        (if bool_decide (length operations = 1%nat) then Some input else None)).

(** [Map::extend] *)
Definition extend (out input : object) : object := foldl (λ m kv, obj_insert kv.1 kv.2 m) out input.

Definition exec_value (code : string) (calls : Calls) (file_edits : list Value) : Value :=
  let has_single := is_some (single_input calls) in
  let out := match single_input calls with
             | Some (Object input) => extend [] input
             | _ => match operations calls with
                    | [] => []
                    | ops => obj_insert "operations" (Array ops) []
                    end
             end in
  let out := if (1 <? Z.of_nat (length (commands calls)))
                || (negb has_single && negb (bool_decide (commands calls = [])))
             then obj_insert "command" (Str (join " && " (commands calls))) out else out in
  let out := match file_edits with
             | [] => out
             | _ => obj_insert "file_edits" (Array file_edits) out
             end in
  let has_edits := is_some (obj_get "file_edits" out) in
  let out := match operation_names calls with
             | [] => out
             | first :: _ =>
                 let operation_name :=
                   if negb has_edits && forallb (λ name, bool_decide (name = first)) (operation_names calls)
                   then first
                   else if has_edits then "apply_patch" else "parallel" in
                 obj_insert "operation_name" (Str operation_name) out
             end in
  Object (obj_insert "code" (Str code) out).

Definition parse_exec_code (canonicalize : string → Value → res Value) (code : string) : res Value :=
  calls ← parse_tool_calls code;
  acc ← try_fold (gather_call canonicalize) calls (mkCalls [] [] [] None);
  Ok (exec_value code acc (patches_in (S (String.length code)) code)).

(** [fuel] bounds how deep [exec] calls are nested in each other's literals. *)
Fixpoint canonicalize_tool_input (fuel : nat) (canonical_name : string) (input : Value) : res Value :=
  match input with
  | Str raw =>
      if bool_decide (canonical_name = "apply_patch") then Ok (parse_apply_patch raw)
      else if bool_decide (canonical_name = "exec") then
        match fuel with
        | O => bail "out of fuel"
        | S fuel => parse_exec_code (canonicalize_tool_input fuel) raw
        end
      else Ok input
  | Object obj => Ok (Object (canonical_object canonical_name obj))
  | _ => Ok input
  end.

Fixpoint obj_remove (k : string) (m : object) : object :=
  match m with
  | [] => []
  | (k', v) :: m => if bool_decide (k = k') then m else (k', v) :: obj_remove k m
  end.

Definition canonicalize_tool_use (fuel : nat) (raw_name : string) (input : Value)
    : res (string * Value) :=
  let canonical_name := canonicalize_tool_name raw_name in
  input ← canonicalize_tool_input fuel canonical_name input;
  if bool_decide (canonical_name = "exec") then
    match input with
    | Object obj =>
        Ok (default canonical_name (obj_get "operation_name" obj ≫= as_str),
            Object (obj_remove "operation_name" obj))
    | _ => Ok (canonical_name, input)
    end
  else Ok (canonical_name, input).
End tools.

(** ** Results *)

Definition normalize_result_key (raw : string) : string :=
  if bool_decide (raw ∈ ["filePath"; "file_path"]) then "path"
  else if bool_decide (raw ∈ ["oldString"; "old_string"]) then "old_text"
  else if bool_decide (raw ∈ ["newString"; "new_string"]) then "new_text"
  else if bool_decide (raw ∈ ["replaceAll"; "replace_all"]) then "replace_all"
  else if bool_decide (raw ∈ ["originalFile"; "original_file"]) then "original_file"
  else if bool_decide (raw ∈ ["structuredPatch"; "structured_patch"]) then "structured_patch"
  else if bool_decide (raw ∈ ["userModified"; "user_modified"]) then "user_modified"
  else to_snake_case raw.

Fixpoint normalize_result_value (value : Value) : Value :=
  match value with
  | Array values => Array (normalize_result_value <$> values)
  | Object obj =>
      Object ((fix go (out obj : object) :=
                 match obj with
                 | [] => out
                 | (k, v) :: obj =>
                     go (obj_insert (normalize_result_key k) (normalize_result_value v) out) obj
                 end) [] obj)
  | other => other
  end.

Definition canonicalize_tool_result_payload (payload : Value) : Value :=
  normalize_result_value payload.
