(* ===== verification/Canonical.v ===== *)
(** * Canonical events

    [ingest/canonical/types.rs], [claude.rs], [claude_text.rs] and [codex.rs]:
    a record of either agent's transcript brought to blocks of text, thinking,
    tool calls and tool results. *)

From S2P Require Import Prelude Text Json Events CodeMode Tools.

(** ** Data *)

Inductive Speaker : Type := SpUser | SpAssistant | SpSystem | SpSummary | SpOther.

Definition speaker_str (s : Speaker) : string :=
  match s with
  | SpUser => "user" | SpAssistant => "assistant" | SpSystem => "system"
  | SpSummary => "summary" | SpOther => "other"
  end.

Inductive ContentKind : Type := CkNone | CkText | CkThinking | CkToolUse | CkToolResult | CkMixed.

Record CanonicalEvent : Type := mkCanonical {
  ce_agent : string;
  ce_speaker : Speaker;
  ce_content_kind : ContentKind;
  ce_event_uuid : option string;
  ce_parent_event_uuid : option string;
  ce_related_tool_use_id : option string;
  ce_is_sidechain : bool;
  ce_is_meta : bool;
  ce_subtype : option string;
  ce_blocks : list Block;
}.

Definition block_thinking (ord : Z) (text : string) : Block :=
  mkBlock ord BThinking (Some text) None None None None None None None None None.

Definition block_tool_result (ord : Z) (tool_id : string) (text : option string) (is_error : bool)
    (tool_output : option Value) : Block :=
  mkBlock ord BToolResult text (Some tool_id) None None None None None tool_output (Some is_error)
    None.

Definition has_kind (k : BlockKind) (blocks : list Block) : bool :=
  existsb (λ b, bool_decide (kind b = k)) blocks.

Definition content_kind_of (blocks : list Block) : ContentKind :=
  let text := has_kind BText blocks in
  let thinking := has_kind BThinking blocks in
  let tool_use := has_kind BToolUse blocks in
  let tool_result := has_kind BToolResult blocks in
  let count := Z.b2z text + Z.b2z thinking + Z.b2z tool_use + Z.b2z tool_result in
  if count =? 0 then CkNone
  else if negb (count =? 1) then CkMixed
  else if text then CkText
  else if thinking then CkThinking
  else if tool_use then CkToolUse
  else CkToolResult.

(** ** Reading records *)

Definition as_bool (v : Value) : option bool := match v with Bool b => Some b | _ => None end.

Definition get_str (v : Value) (k : string) : option string := get v k ≫= as_str.
Definition get_bool (v : Value) (k : string) : option bool := get v k ≫= as_bool.

Definition string_field (v : Value) (keys : list string) : option string :=
  head (omap (get_str v) keys).
Definition bool_field (v : Value) (keys : list string) : option bool :=
  head (omap (get_bool v) keys).

Definition text_of_block (b : Block) : option string := text b.

Definition with_text (f : string → string) (b : Block) : Block :=
  mkBlock (ord b) (kind b) (f <$> text b) (tool_id b) (tool_name b) (tool_name_canonical b)
    (block_operation_type b) (operation_category b) (tool_input b) (tool_output b)
    (block_is_error b) (raw b).

(** ** Pasted text *)

(** [split_inclusive('\n')] *)
Fixpoint split_inclusive (s : string) : list string :=
  match s with
  | EmptyString => []
  | String c s =>
      if Ascii.eqb c (Ascii.ascii_of_nat 10) then String c "" :: split_inclusive s
      else match split_inclusive s with
           | line :: rest => String c line :: rest
           | [] => [String c ""]
           end
  end.

Definition tilde : string := bytes [126%N].
Definition fence_start (c : string) : string := c +:+ c +:+ c.

(** The marker of a fence line, how many of it, and what follows. *)
Definition fence_marker (trimmed : string) : option (string * nat * string) :=
  let marked c := let cs := chars trimmed in
              let rest := drop_while (λ d, bool_decide (d = c)) cs in
              (c, (length cs - length rest)%nat, concat_text rest) in
  if starts_with (fence_start backtick) trimmed then Some (marked backtick)
  else if starts_with (fence_start tilde) trimmed then Some (marked tilde)
  else None.

Definition id_char (c : Ascii.ascii) : bool :=
  ascii_alphanumeric c || Ascii.eqb c (Ascii.ascii_of_nat 45) || Ascii.eqb c (Ascii.ascii_of_nat 95).

Definition paste_open : string := "<pasted_content id=" +:+ quote_char.
Definition paste_end : string := quote_char +:+ ">".

Definition opening_id (trimmed : string) : option string :=
  s ← strip_prefix paste_open trimmed;
  id ← strip_suffix paste_end s;
  if negb (is_empty id) && all_bytes id_char id then Some id else None.

Definition closing_tag (id : string) : string := "</pasted_content id=" +:+ quote_char +:+ id +:+ paste_end.

Record PasteScan : Type := mkScan {
  remove : list bool;
  fence : option (string * nat);
  opening : option (nat * string);
}.

Definition scan_line (st : PasteScan) (index : nat) (line : string) : PasteScan :=
  let trimmed := trim line in
  match fence_marker trimmed with
  | Some (marker, length, rest) =>
      mkScan (remove st)
        (match fence st with
         | Some (open, size) =>
             if bool_decide (open = marker) && (size <=? length)%nat && is_empty (trim rest)
             then None else fence st
         | None => Some (marker, length)
         end) (opening st)
  | None =>
      if is_some (fence st) then st
      else
        match opening st with
        | Some (start, id) =>
            if bool_decide (trimmed = closing_tag id)
            then mkScan (<[index := true]> (<[start := true]> (remove st))) (fence st) None
            else st
        | None =>
            match opening_id trimmed with
            | Some id => mkScan (remove st) (fence st) (Some (index, id))
            | None => st
            end
        end
  end.

Fixpoint scan_lines (st : PasteScan) (index : nat) (lines : list string) : PasteScan :=
  match lines with
  | [] => st
  | line :: lines => scan_lines (scan_line st index line) (S index) lines
  end.

Definition trim_newlines (s : string) : string :=
  trim_by (λ c, bool_decide (c ∈ [carriage_return; newline])) s.

(** The lines not removed. *)
Definition kept (lines : list string) (remove : list bool) : list string :=
  (filter (λ lr, lr.2 = false) (zip lines remove)).*1.

Definition normalize_user_text (text : string) : string :=
  let lines := split_inclusive text in
  let st := scan_lines (mkScan (replicate (length lines) false) None None) 0 lines in
  if negb (existsb id (remove st)) then text
  else trim_newlines (concat_text (kept lines (remove st))).

(** ** Claude Code *)

Definition claude_compaction_subtype (value : Value) : option string :=
  if bool_decide (get_bool value "isCompactSummary" = Some true) then Some "compact_summary"
  else if negb (bool_decide (get_str value "type" = Some "system")) then None
  else
    match get_str value "subtype" with
    | Some s =>
        if bool_decide (s = "compact_boundary") then Some "compact_boundary"
        else if bool_decide (s = "informational")
                && match get_str value "content" with
                   | Some text => starts_with "Compacted while idle," text
                   | None => false
                   end
        then Some "compact_status" else None
    | None => None
    end.

Section canonical.
Context `{T : TreeSitter} `{J : SerdeText}.

Definition input_fuel (input : Value) : nat :=
  match input with Str raw => S (String.length raw) | _ => 1 end.

Definition block_tool_use (ord : Z) (tool_id tool_name : string) (input : Value) : res Block :=
  ci ← canonicalize_tool_use (input_fuel input) tool_name input;
  Ok (mkBlock ord BToolUse None (Some tool_id) (Some tool_name) (Some ci.1) None None (Some ci.2)
        None None None).

Definition add_part (buf : string) (part : Value) : string :=
  match get_str part "text" with
  | Some s => (if is_empty buf then buf else buf +:+ newline) +:+ s
  | None => buf
  end.

(** The text of a tool result: a string, parts of text, or any other value. *)
Definition result_text (raw : Value) : option string :=
  match get raw "content" with
  | Some (Str s) => Some s
  | Some (Array parts) =>
      let buf := foldl add_part "" parts in
      if is_empty buf then None else Some buf
  | Some other => Some (to_json other)
  | None => None
  end.

(** One content block; the structured payload goes to the first result. *)
Definition parse_block (payload : option Value) (st : list Block * bool) (p : nat * Value)
    : res (list Block * bool) :=
  let '(out, attached) := st in
  let ord := wrap32 (Z.of_nat p.1) in
  let raw := p.2 in
  let str k := default "" (get_str raw k) in
  match get_str raw "type" with
  | None => Ok (out ++ [block_unknown ord raw], attached)
  | Some ty =>
      if bool_decide (ty = "text") then Ok (out ++ [block_text ord (str "text")], attached)
      else if bool_decide (ty = "thinking")
      then Ok (out ++ [block_thinking ord (str "thinking")], attached)
      else if bool_decide (ty = "tool_use") then
        b ← block_tool_use ord (str "id") (str "name") (default Null (get raw "input"));
        Ok (out ++ [b], attached)
      else if bool_decide (ty = "tool_result") then
        let b := block_tool_result ord (str "tool_use_id") (result_text raw)
                   (default false (get_bool raw "is_error")) (if attached then None else payload) in
        Ok (out ++ [b], attached || is_some payload)
      else Ok (out ++ [block_unknown ord raw], attached)
  end.

Definition parse_blocks (arr : list Value) (payload : option Value) : res (list Block) :=
  st ← try_fold (parse_block payload) (zip (seq 0 (length arr)) arr) ([], false);
  Ok st.1.

Definition text_blocks (texts : list string) : list Block :=
  zip_with (λ i t, block_text (wrap32 (Z.of_nat i)) t) (seq 0 (length texts)) texts.

Definition claude_parse (value : Value) : res CanonicalEvent :=
  let kind := default "" (get_str value "type") in
  let compaction := claude_compaction_subtype value in
  let attachment := get value "attachment" in
  let is_attachment := bool_decide (kind = "attachment") in
  let queued_human := is_none compaction && is_attachment
    && match attachment with
       | Some a =>
           bool_decide (get_str a "type" = Some "queued_command")
           && bool_decide (get_str a "commandMode" = Some "prompt")
           && (bool_decide (at_path a ["origin"; "kind"] ≫= as_str = Some "human")
               || bool_decide (get_bool a "humanTurn" = Some true))
       | None => false
       end in
  let speaker :=
    if is_some compaction then SpSystem
    else if is_attachment then if queued_human then SpUser else SpSystem
    else if bool_decide (kind = "user") then SpUser
    else if bool_decide (kind = "assistant") then SpAssistant
    else if bool_decide (kind = "system") then SpSystem
    else if bool_decide (kind = "summary") then SpSummary
    else SpOther in
  let content :=
    if queued_human then attachment ≫= (λ a, get a "prompt")
    else or_else (get value "message" ≫= (λ m, get m "content"))
           (if is_some compaction then get value "content" else None) in
  let payload := match get value "toolUseResult" with
                 | Some p => if is_null p then None else Some (canonicalize_tool_result_payload p)
                 | None => None
                 end in
  blocks ← match content with
           | Some (Array arr) => parse_blocks arr payload
           | Some (Str s) => Ok [block_text 0 s]
           | _ => Ok []
           end;
  let blocks :=
    if bool_decide (length blocks = 0%nat) && bool_decide (kind = "summary")
    then match get_str value "summary" with Some s => [block_text 0 s] | None => blocks end
    else blocks in
  let blocks :=
    if is_attachment && negb queued_human
    then match get value "rendered" ≫= as_array with
         | Some rendered => blocks ++ text_blocks (omap (λ part, get_str part "content") rendered)
         | None => blocks
         end
    else blocks in
  let blocks :=
    match speaker with
    | SpUser => (λ b, match Events.kind b with
                      | BText => with_text normalize_user_text b | _ => b end) <$> blocks
    | _ => blocks
    end in
  Ok (mkCanonical "claude-code" speaker (content_kind_of blocks)
    (or_else (if queued_human then attachment ≫= (λ a, string_field a ["source_uuid"]) else None)
       (string_field value ["uuid"]))
    (string_field value ["parentUuid"; "parent_uuid"])
    (string_field value ["tool_use_id"])
    (default false (bool_field value ["isSidechain"]))
    (if queued_human then false
     else is_some compaction || is_attachment || default false (bool_field value ["isMeta"]))
    (if is_some compaction then compaction
     else if queued_human then Some "queued_user_prompt"
     else or_else (string_field value ["subtype"])
            (attachment ≫= (λ a, string_field a ["type"])))
    blocks).

(** ** Codex *)

Definition codex_kind (value : Value) : option string :=
  or_else (get_str value "kind") (get_str value "type").

Definition codex_event (speaker : Speaker) (subtype : string) (blocks : list Block) : CanonicalEvent :=
  mkCanonical "codex" speaker (content_kind_of blocks) None None None false false (Some subtype) blocks.

Definition meta (e : CanonicalEvent) : CanonicalEvent :=
  mkCanonical (ce_agent e) (ce_speaker e) (ce_content_kind e) (ce_event_uuid e)
    (ce_parent_event_uuid e) (ce_related_tool_use_id e) (ce_is_sidechain e) true (ce_subtype e)
    (ce_blocks e).

Definition with_event_uuid (id : option string) (e : CanonicalEvent) : CanonicalEvent :=
  mkCanonical (ce_agent e) (ce_speaker e) (ce_content_kind e) id (ce_parent_event_uuid e)
    (ce_related_tool_use_id e) (ce_is_sidechain e) (ce_is_meta e) (ce_subtype e) (ce_blocks e).

Definition with_related (id : option string) (e : CanonicalEvent) : CanonicalEvent :=
  mkCanonical (ce_agent e) (ce_speaker e) (ce_content_kind e) (ce_event_uuid e)
    (ce_parent_event_uuid e) id (ce_is_sidechain e) (ce_is_meta e) (ce_subtype e) (ce_blocks e).

Definition parse_codex_message_items (items : list Value) : list Block :=
  zip_with (λ i item,
    let ord := wrap32 (Z.of_nat i) in
    if bool_decide (default "" (get_str item "type") ∈ ["input_text"; "output_text"])
    then block_text ord (default "" (get_str item "text"))
    else block_unknown ord item) (seq 0 (length items)) items.

Definition arrow : string := bytes [226;134;146]%N.

Definition agent_item (blocks : list Block) (item : Value) : list Block :=
  let ord := wrap32 (Z.of_nat (length blocks)) in
  let text := or_else (get_str item "text")
    (if bool_decide (get_str item "type" = Some "encrypted_content")
     then Some "[Encrypted agent message; plaintext unavailable]" else None) in
  blocks ++ [match text with Some text => block_text ord text | None => block_unknown ord item end].

Definition codex_reasoning_text (payload : Value) : option string :=
  summary ← get payload "summary" ≫= as_array;
  let parts := omap (λ item,
    s ← (match item with Str s => Some s | _ => get_str item "text" end);
    if is_empty (trim s) then None else Some s) summary in
  match parts with [] => None | _ => Some (join newline parts) end.

Definition parse_json_string (value : option Value) : Value :=
  match value with
  | Some (Str raw) => default (Str raw) (from_str raw)
  | other => default Null other
  end.

Fixpoint value_to_text (value : Value) : option string :=
  match value with
  | Null => None
  | Str s => Some s
  | Array parts =>
      let out := filter (λ text, is_empty (trim text) = false) (omap value_to_text parts) in
      match out with [] => None | _ => Some (join newline out) end
  | Object obj => or_else (obj_get "text" obj ≫= as_str) (Some (to_json (Object obj)))
  | other => Some (to_json other)
  end.

Definition script_failed (text : option string) : bool :=
  match text ≫= first_line with
  | Some line => bool_decide (trim_end_by is_whitespace line = "Script failed")
  | None => false
  end.

Definition codex_message (payload : Value) (subtype : string) : CanonicalEvent :=
  let role := default "other" (get_str payload "role") in
  let is_meta := bool_decide (role ∈ ["developer"; "system"]) in
  let speaker := if bool_decide (role = "user") then SpUser
                 else if bool_decide (role = "assistant") then SpAssistant
                 else if is_meta then SpSystem else SpOther in
  let blocks := match get payload "content" with
                | Some (Array items) => parse_codex_message_items items
                | Some (Str s) => [block_text 0 s]
                | _ => []
                end in
  let e := codex_event speaker subtype blocks in
  if is_meta then meta e else e.

Definition codex_call_name (payload : Value) (subtype : string) : string :=
  let name := default subtype (get_str payload "name") in
  match get_str payload "namespace" with
  | Some namespace => if is_empty namespace then name else namespace +:+ "." +:+ name
  | None => name
  end.

Definition parse_codex_response_item (value : Value) : res CanonicalEvent :=
  let payload := default Null (get value "payload") in
  let subtype := default "response_item" (get_str payload "type") in
  let named s := bool_decide (subtype = s) in
  if named "agent_message" then
    let author := default "unknown agent" (get_str payload "author") in
    let recipient := default "unknown recipient" (get_str payload "recipient") in
    let blocks := foldl agent_item
      [block_text 0 ("Agent message: " +:+ author +:+ " " +:+ arrow +:+ " " +:+ recipient)]
      (default [] (get payload "content" ≫= as_array)) in
    Ok (with_event_uuid (get_str payload "id") (codex_event SpSystem subtype blocks))
  else if named "message" then Ok (codex_message payload subtype)
  else if named "reasoning" then
    Ok (codex_event SpAssistant subtype
          [block_thinking 0 (default "" (codex_reasoning_text payload))])
  else if named "function_call" || named "custom_tool_call" then
    let input := if named "function_call" then parse_json_string (get payload "arguments")
                 else default Null (get payload "input") in
    b ← block_tool_use 0 (default "" (get_str payload "call_id")) (codex_call_name payload subtype)
          input;
    Ok (codex_event SpAssistant subtype [b])
  else if named "function_call_output" || named "custom_tool_call_output" then
    let call_id := default "" (get_str payload "call_id") in
    let text := get payload "output" ≫= value_to_text in
    let is_error := default false (get_bool payload "is_error") || script_failed text in
    Ok (with_related (Some call_id)
          (codex_event SpSystem subtype [block_tool_result 0 call_id text is_error None]))
  else Ok (meta (codex_event SpSystem subtype [])).

Definition runtime_item_failed (item : Value) : bool :=
  match get item "exit_code" ≫= as_i64 with
  | Some n => negb (n =? 0)
  | None => false
  end
  || bool_decide (get_str item "status" = Some "failed").

Definition RUNTIME_ITEMS : list string :=
  ["CommandExecution"; "FileChange"; "Extension"; "ImageView"].

Definition parse_codex_event_msg (value : Value) : CanonicalEvent :=
  let payload := default Null (get value "payload") in
  let subtype := default "event_msg" (get_str payload "type") in
  let blocks :=
    if bool_decide (subtype = "item_completed") then
      match get payload "item" with
      | Some item =>
          match get_str item "type" with
          | Some ty =>
              if bool_decide (ty ∈ RUNTIME_ITEMS) then
                [block_tool_result 0 (default "" (get_str item "id")) None (runtime_item_failed item)
                   (Some (json_object
                      [("runtime_item", item);
                       ("started_at_ms", default Null (get payload "started_at_ms"));
                       ("completed_at_ms", default Null (get payload "completed_at_ms"))]))]
              else []
          | None => []
          end
      | None => []
      end
    else [] in
  with_related (get_str payload "call_id") (meta (codex_event SpSystem subtype blocks)).

Definition codex_parse (value : Value) : res CanonicalEvent :=
  let kind := default "" (codex_kind value) in
  let named s := bool_decide (kind = s) in
  if named "response_item" then parse_codex_response_item value
  else if named "event_msg" then Ok (parse_codex_event_msg value)
  else if bool_decide (kind ∈ ["session_meta"; "turn_context"; "compacted"; "token_usage_record"])
  then Ok (meta (codex_event SpSystem kind []))
  else Ok (meta (codex_event SpOther kind [block_unknown 0 value])).

(** ** Search text *)

Definition unless_blank (s : string) : list string := if is_empty (trim s) then [] else [s].

Definition serialized (v : option Value) : list string :=
  match v with
  | Some v => let s := to_json v in if bool_decide (s = "null") then [] else unless_blank s
  | None => []
  end.

Definition opt_text (s : option string) : list string :=
  match s with Some s => unless_blank s | None => [] end.

Definition block_search_text (b : Block) : list string :=
  match kind b with
  | BText | BThinking | BToolResult => opt_text (text b) ++ serialized (tool_output b)
  | BToolUse =>
      match tool_name_canonical b with Some name => [name] | None => [] end
      ++ opt_text (tool_name b) ++ serialized (tool_input b)
  | BUnknown => match raw b with Some v => unless_blank (to_json v) | None => [] end
  end.

Definition search_text (e : CanonicalEvent) : string :=
  join newline ([speaker_str (ce_speaker e)] ++ opt_text (ce_subtype e)
                ++ mjoin (block_search_text <$> ce_blocks e)).
End canonical.
