(* ===== verification/PatchText.v ===== *)
(** * Patches written and read back

    A list of file edits as the text of a patch, and the lemmas by which
    [parse_apply_patch] reads it back. *)

From S2P Require Import Prelude Text Json CodeMode Tools.

(** ** Lines *)

Definition newline_char : Ascii.ascii := Ascii.ascii_of_nat 10.

(** A line as [str::lines] keeps it: without newline or final return. *)
Definition is_line (s : string) : bool :=
  no_byte newline_char s && is_none (strip_suffix carriage_return s).

(** Text made of lines, each ended by a newline. *)
Definition unlines (l : list string) : string := concat_text ((λ s, s +:+ newline) <$> l).

Lemma newline_eq : newline = String newline_char "".
Proof. done. Qed.

Lemma unlines_cons s l : unlines (s :: l) = s +:+ String newline_char (unlines l).
Proof. unfold unlines. cbn. by rewrite append_assoc. Qed.

Lemma split_unlines l : Forall (λ s, is_line s = true) l →
  split_char newline_char (unlines l) = l ++ [""].
Proof.
  induction 1 as [|s l Hs Hl IH]; [done|]. rewrite unlines_cons.
  apply andb_true_iff in Hs as [Hs _]. by rewrite split_char_cons, IH.
Qed.

Lemma lines_unlines l : Forall (λ s, is_line s = true) l → lines (unlines l) = l.
Proof.
  intros Hl. unfold lines. change (Ascii.ascii_of_nat 10) with newline_char.
  rewrite (split_unlines l Hl), removelast_last, last_last.
  change (is_empty "") with true. cbn match. rewrite <-(list_fmap_id l) at 2.
  apply list_fmap_ext. intros i s Hs. rewrite Forall_lookup in Hl. specialize (Hl i s Hs).
  unfold is_line in Hl. destruct (strip_suffix carriage_return s); [|done].
  by rewrite andb_false_r in Hl.
Qed.

(** ** Patches *)

Definition directive_line (e : FileEditBuf) : string :=
  "*** " +:+
  (if bool_decide (edit_operation e = "update") then "Update File: " +:+ edit_file e
   else if bool_decide (edit_operation e = "add") then "Add File: " +:+ edit_file e
   else if bool_decide (edit_operation e = "delete") then "Delete File: " +:+ edit_file e
   else "Move File: " +:+ default "" (edit_old_path e) +:+ " to " +:+ edit_file e).

(** The lines of a diff; an empty one has none. *)
Definition diff_lines (e : FileEditBuf) : list string :=
  if is_empty (edit_diff e) then [] else split_char newline_char (edit_diff e).

Definition edit_lines (e : FileEditBuf) : list string := directive_line e :: diff_lines e.

Definition render_patch (es : list FileEditBuf) : string :=
  unlines (["*** Begin Patch"] ++ mjoin (edit_lines <$> es) ++ ["*** End Patch"]).

(** The edits a patch can hold: a trimmed path that is one line; a diff whose
    lines are not directives, without a last newline; the old path of a move,
    and of nothing else. Both paths of a move are trimmed and not empty, and
    the first " to " of its header is the one between them. *)
Record valid_edit (e : FileEditBuf) : Prop := {
  ve_path : trim (edit_file e) = edit_file e;
  ve_line : is_line (directive_line e) = true;
  ve_diff : trim_newlines_end (edit_diff e) = edit_diff e;
  ve_lines : Forall (λ l, is_line l = true ∧ strip_prefix "*** " l = None) (diff_lines e);
  ve_operation : match edit_old_path e with
    | None => edit_operation e ∈ ["update"; "add"; "delete"]
    | Some from => edit_operation e = "move" ∧ from ≠ "" ∧ trim from = from ∧ edit_file e ≠ "" ∧
        ∀ a b, from +:+ " to" ≠ a +:+ " to " +:+ b
    end;
}.

(** ** The header of a move *)

Lemma strip_prefix_longer p s t : (String.length p ≤ String.length s)%nat →
  strip_prefix p s = None → strip_prefix p (s +:+ t) = None.
Proof.
  revert s. induction p as [|a p IH]; intros s Hl; [done|]. destruct s as [|b s]; [cbn in Hl; lia|].
  rewrite append_cons. cbn. destruct (Ascii.eqb a b); [|done]. apply IH. cbn in Hl. lia.
Qed.

(** The first " to " is the one between the paths. *)
Lemma split_once_to from to : (∀ a b, from +:+ " to" ≠ a +:+ " to " +:+ b) →
  split_once " to " (from +:+ " to " +:+ to) = Some (from, to).
Proof.
  induction from as [|c from IH]; intros Hno; [reflexivity|].
  assert (Hp : strip_prefix " to " ((String c from +:+ " to") +:+ (" " +:+ to)) = None).
  { apply strip_prefix_longer.
    - rewrite append_cons. cbn [String.length]. rewrite length_append. cbn. lia.
    - destruct (strip_prefix " to " (String c from +:+ " to")) as [r|] eqn:E; [|done].
      apply strip_prefix_Some in E. by destruct (Hno "" r). }
  rewrite append_assoc in Hp.
  change (strip_prefix " to " (String c (from +:+ " to " +:+ to)) = None) in Hp.
  rewrite append_cons. cbn [split_once]. rewrite Hp.
  rewrite IH; [done|]. intros a b E. apply (Hno (String c a) b). rewrite append_cons. by rewrite E.
Qed.

Lemma contains_between sep a b : contains sep (a +:+ sep +:+ b) = true.
Proof.
  unfold contains. induction a as [|c a IH].
  - rewrite append_nil_l. assert (Hp : strip_prefix sep (sep +:+ b) = Some b) by by apply strip_prefix_Some.
    destruct (sep +:+ b) as [|d s]; cbn [split_once]; by rewrite Hp.
  - rewrite append_cons. cbn [split_once]. destruct (strip_prefix _ _); [done|].
    by destruct (split_once sep (a +:+ sep +:+ b)) as [[]|].
Qed.

Lemma split_move_paths from to : from ≠ "" → trim from = from → to ≠ "" → trim to = to →
  (∀ a b, from +:+ " to" ≠ a +:+ " to " +:+ b) →
  split_move (from +:+ " to " +:+ to) = Some (from, to).
Proof.
  intros Hf Htf Ht Htt Hno. unfold split_move. rewrite (split_once_to from to Hno), Htf, Htt. unfold is_empty.
  by rewrite !bool_decide_false.
Qed.

Lemma strip_prefix_app p s : strip_prefix p (p +:+ s) = Some s.
Proof. by apply strip_prefix_Some. Qed.

Lemma directive_path op header path :
  (op, header) ∈ [("update", "Update File: "); ("add", "Add File: "); ("delete", "Delete File: ")] →
  directive (header +:+ path) = Some (mkEdit (trim path) op None "").
Proof.
  intros H. repeat (apply elem_of_cons in H as [[= -> ->]|H]; [reflexivity|]).
  by apply elem_of_nil in H.
Qed.

Lemma directive_move from to rest : split_move rest = Some (from, to) →
  directive ("Move File: " +:+ rest) = Some (mkEdit to "move" (Some from) "").
Proof.
  intros H. transitivity (let '(from, to) := default (trim rest, trim rest) (split_move rest) in
    Some (mkEdit to "move" (Some from) "")); [reflexivity|by rewrite H].
Qed.

Lemma directive_opens e : valid_edit e →
  ∃ header, directive_line e = "*** " +:+ header ∧ header ∉ ["Begin Patch"; "End Patch"] ∧
    directive header = Some (mkEdit (edit_file e) (edit_operation e) (edit_old_path e) "").
Proof.
  intros [Hp _ _ _ Ho]. destruct e as [path op old diff]. cbn [edit_file edit_operation edit_old_path edit_diff] in *.
  assert (Hne : ∀ c s, c ≠ "B"%char → c ≠ "E"%char → String c s ∉ ["Begin Patch"; "End Patch"]).
  { intros c s H1 H2 H. apply elem_of_cons in H as [H|H]; [by injection H|].
    apply list_elem_of_singleton in H. by injection H. }
  eexists. split; [reflexivity|]. cbn [edit_file edit_operation edit_old_path].
  destruct old as [from|].
  - destruct Ho as (-> & Hf & Ht & Hto & Hno). split; [by apply Hne|].
    exact (directive_move _ _ _ (split_move_paths from path Hf Ht Hto Hp Hno)).
  - assert (Hd : ∀ header, (op, header) ∈
      [("update", "Update File: "); ("add", "Add File: "); ("delete", "Delete File: ")] →
      directive (header +:+ path) = Some (mkEdit path op None "")).
    { intros header Hh. rewrite (directive_path _ _ _ Hh), Hp. done. }
    set_unfold in Ho.
    destruct Ho as [->|[->|[->|[]]]]; (split; [by apply Hne|]).
    + apply (Hd "Update File: "). set_solver.
    + apply (Hd "Add File: "). set_solver.
    + apply (Hd "Delete File: "). set_solver.
Qed.

Lemma patch_diff entries buf l : Forall (λ s, is_line s = true ∧ strip_prefix "*** " s = None) l →
  foldl patch_line (entries, Some buf) l =
  (entries, Some (mkEdit (edit_file buf) (edit_operation buf) (edit_old_path buf)
                    (edit_diff buf +:+ unlines l))).
Proof.
  intros Hl. revert buf. induction Hl as [|s l [_ Hs] Hl IH]; intros buf.
  - cbn. rewrite append_nil_r. by destruct buf.
  - cbn [foldl]. unfold patch_line at 2. rewrite Hs. cbn [fmap option_fmap option_map].
    rewrite IH, unlines_cons. unfold add_line. rewrite newline_eq.
    cbn [edit_file edit_operation edit_old_path edit_diff]. by rewrite !append_assoc.
Qed.

(** ** Reading a patch back *)

Lemma unlines_split s : unlines (split_char newline_char s) = s +:+ newline.
Proof.
  induction s as [|d s IH]; [done|]. destruct (Ascii.eqb_spec d newline_char) as [->|Hd].
  - by rewrite split_char_newline, unlines_cons, IH.
  - rewrite split_char_push by by apply Ascii.eqb_neq.
    destruct (split_char newline_char s) as [|hd tl] eqn:E; [by apply split_char_not_nil in E|].
    rewrite unlines_cons, !append_cons in *. by rewrite IH.
Qed.

(** A newline is a character of its own. *)
Lemma chars_newline s : chars (s +:+ newline) = chars s ++ [newline].
Proof.
  induction s as [|c s IH]; [done|]. rewrite append_cons. cbn [chars]. rewrite IH.
  assert (starts_with_continuation (s +:+ newline) = starts_with_continuation s) as ->.
  { by destruct s. }
  unfold push_byte. destruct (chars s) as [|hd tl] eqn:E; [|cbn; by destruct (starts_with_continuation s)].
  destruct s as [|d s]; [done|]. cbn [chars] in E. unfold push_byte in E.
  by destruct (chars s), (starts_with_continuation s).
Qed.

Lemma trim_newline s : trim_newlines_end (s +:+ newline) = trim_newlines_end s.
Proof. unfold trim_newlines_end, trim_end_by. by rewrite chars_newline, rev_unit. Qed.

Lemma trim_diff_lines e :
  trim_newlines_end (unlines (diff_lines e)) = trim_newlines_end (edit_diff e).
Proof.
  unfold diff_lines, is_empty. case_bool_decide as H; [by rewrite H|].
  by rewrite unlines_split, trim_newline.
Qed.

Lemma patch_lines_edit entries current e : valid_edit e →
  ∃ buf, foldl patch_line (entries, current) (edit_lines e) = (flush entries current, Some buf) ∧
    edit_value buf = edit_value e.
Proof.
  intros He. destruct (directive_opens e He) as (header & Hl & Hnot & Hd).
  eexists. split.
  - unfold edit_lines. cbn [foldl]. unfold patch_line at 2. rewrite Hl, strip_prefix_app, Hd.
    rewrite bool_decide_false by done. apply patch_diff, (ve_lines e He).
  - unfold edit_value. cbn [edit_file edit_operation edit_old_path edit_diff].
    rewrite append_nil_l. by rewrite trim_diff_lines.
Qed.

Lemma patch_lines_edits es entries current : Forall valid_edit es →
  ∃ st, foldl patch_line (entries, current) (mjoin (edit_lines <$> es)) = st ∧
    flush st.1 st.2 = flush entries current ++ (edit_value <$> es).
Proof.
  intros Hes. revert entries current. induction Hes as [|e es He Hes IH]; intros entries current.
  - eexists. split; [done|]. by rewrite app_nil_r.
  - change (mjoin (edit_lines <$> e :: es)) with (edit_lines e ++ mjoin (edit_lines <$> es)).
    rewrite foldl_app.
    destruct (patch_lines_edit entries current e He) as (buf & -> & Hv).
    destruct (IH (flush entries current) (Some buf)) as (st & -> & Hst).
    eexists. split; [done|]. rewrite Hst. cbn [flush fmap list_fmap]. by rewrite Hv, <-app_assoc.
Qed.

Lemma edit_lines_are_lines e : valid_edit e → Forall (λ l, is_line l = true) (edit_lines e).
Proof.
  intros He. constructor; [apply (ve_line e He)|].
  eapply Forall_impl; [apply (ve_lines e He)|]. by intros l [Hl _].
Qed.

Lemma patch_line_marker m st : m ∈ ["Begin Patch"; "End Patch"] →
  patch_line st ("*** " +:+ m) = (flush st.1 st.2, None).
Proof.
  intros Hm. destruct st as [entries current]. unfold patch_line.
  by rewrite strip_prefix_app, bool_decide_true.
Qed.

Lemma patch_edits_render es : Forall valid_edit es →
  patch_edits (render_patch es) = edit_value <$> es.
Proof.
  intros Hes. unfold patch_edits, render_patch. rewrite lines_unlines.
  - rewrite !foldl_app. cbn [foldl]. rewrite (patch_line_marker "Begin Patch") by set_solver.
    destruct (patch_lines_edits es [] None Hes) as (st & Hst & Hf).
    cbn [flush fst snd]. rewrite Hst, (patch_line_marker "End Patch") by set_solver. exact Hf.
  - apply Forall_app. split; [by repeat constructor|]. apply Forall_app. split; [|by repeat constructor].
    apply Forall_join, Forall_fmap. eapply Forall_impl; [exact Hes|apply edit_lines_are_lines].
Qed.
