(* ===== verification/CanonicalInv.v ===== *)
(** * The blocks of a canonical event

    How the parsers number blocks and where the structured payload of a tool
    result goes. *)

From S2P Require Import Prelude Text Json Events CodeMode Tools Canonical.

(** ** Numbering *)

(** Blocks carry their position, as the [i32] of the column. *)
Definition numbered (blocks : list Block) : Prop :=
  ord <$> blocks = (λ i, wrap32 (Z.of_nat i)) <$> seq 0 (length blocks).

Lemma numbered_nil : numbered [].
Proof. done. Qed.

Lemma numbered_snoc blocks b :
  numbered blocks → ord b = wrap32 (Z.of_nat (length blocks)) → numbered (blocks ++ [b]).
Proof.
  unfold numbered. intros Hn Hb.
  rewrite length_app, seq_app, !fmap_app, Hn. cbn. by rewrite Hb.
Qed.

Lemma numbered_singleton b : ord b = 0 → numbered [b].
Proof. intros Hb. by apply (numbered_snoc []). Qed.

Lemma numbered_zip {A} (f : nat → A → Block) (l : list A) :
  (∀ i a, ord (f i a) = wrap32 (Z.of_nat i)) →
  numbered (zip_with f (seq 0 (length l)) l).
Proof.
  intros Hf. unfold numbered.
  assert (Hl : length (zip_with f (seq 0 (length l)) l) = length l).
  { rewrite length_zip_with, length_seq. lia. }
  rewrite Hl. apply list_eq. intros i. rewrite !list_lookup_fmap, lookup_zip_with.
  destruct (l !! i) as [a|] eqn:Ha.
  - apply lookup_lt_Some in Ha as Hi. rewrite lookup_seq_lt by done. cbn. by rewrite Hf.
  - apply lookup_ge_None in Ha. by rewrite lookup_seq_ge.
Qed.

Lemma numbered_fmap (f : Block → Block) blocks :
  (∀ b, ord (f b) = ord b) → numbered blocks → numbered (f <$> blocks).
Proof.
  unfold numbered. intros Hf Hn. rewrite length_fmap, <-list_fmap_compose, <-Hn.
  apply list_fmap_ext. intros i b _. apply Hf.
Qed.

Lemma numbered_foldl {A} (step : list Block → A → list Block) l blocks :
  (∀ blocks a, numbered blocks → numbered (step blocks a)) →
  numbered blocks → numbered (foldl step blocks l).
Proof. intros Hs. revert blocks. induction l as [|a l IH]; cbn; auto. Qed.

(** As many as an [i32] counts are numbered without repetition. *)
Lemma numbered_NoDup blocks : numbered blocks → Z.of_nat (length blocks) ≤ 2 ^ 31 →
  NoDup (ord <$> blocks).
Proof.
  intros Hn Hl. rewrite Hn. apply NoDup_fmap_2_strong; [|apply NoDup_ListNoDup, seq_NoDup].
  intros i j Hi Hj. apply elem_of_seq in Hi, Hj. rewrite !wrap32_id by lia. lia.
Qed.

(** ** The payload of a result *)

(** The first tool result has the payload, and no other. *)
Definition payload_first (payload : option Value) (outputs : list (option Value)) : Prop :=
  match outputs with
  | [] => True
  | first :: rest => first = payload ∧ Forall (λ o, o = None) rest
  end.

Definition outputs (blocks : list Block) : list (option Value) :=
  tool_output <$> filter (λ b, kind b = BToolResult) blocks.

(** What the loop over the content blocks of a Claude Code message keeps. *)
Record Parsed (payload : option Value) (n : nat) (st : list Block * bool) : Prop := {
  ps_length : length st.1 = n;
  ps_numbered : numbered st.1;
  ps_payload : payload_first payload (outputs st.1);
  ps_attached : st.2 = negb (bool_decide (outputs st.1 = [])) && is_some payload;
  ps_others : Forall (λ b, kind b ≠ BToolResult → tool_output b = None) st.1;
}.

Lemma outputs_snoc_other blocks b : kind b ≠ BToolResult → outputs (blocks ++ [b]) = outputs blocks.
Proof.
  intros Hb. unfold outputs. rewrite filter_app, filter_cons_False by done.
  by rewrite filter_nil, app_nil_r.
Qed.

Lemma outputs_snoc_result blocks b :
  kind b = BToolResult → outputs (blocks ++ [b]) = outputs blocks ++ [tool_output b].
Proof.
  intros Hb. unfold outputs. by rewrite filter_app, fmap_app, (filter_cons_True _ b []).
Qed.

Section parsers.
Context `{T : TreeSitter} `{J : SerdeText}.

Lemma tool_use_block ord id name input b : block_tool_use ord id name input = Ok b →
  Events.ord b = ord ∧ kind b = BToolUse ∧ tool_output b = None.
Proof. unfold block_tool_use. intros (ci & _ & [= <-])%res_bind_Ok. done. Qed.

Lemma Parsed_other payload n out att b : Parsed payload n (out, att) →
  ord b = wrap32 (Z.of_nat n) → kind b ≠ BToolResult → tool_output b = None →
  Parsed payload (S n) (out ++ [b], att).
Proof.
  intros [Hl Hn Hp Ha Ho] Hb Hk Ht. cbn [fst snd] in *. split; cbn [fst snd].
  - rewrite length_app, Hl. cbn. lia.
  - apply numbered_snoc; [done|by rewrite Hl].
  - by rewrite outputs_snoc_other.
  - by rewrite outputs_snoc_other.
  - apply Forall_app. by repeat constructor.
Qed.

Lemma Parsed_result payload n out att id text err : Parsed payload n (out, att) →
  Parsed payload (S n)
    (out ++ [block_tool_result (wrap32 (Z.of_nat n)) id text err (if att then None else payload)],
     att || is_some payload).
Proof.
  intros [Hl Hn Hp Ha Ho]. cbn [fst snd] in *. split; cbn [fst snd].
  - rewrite length_app, Hl. cbn. lia.
  - apply numbered_snoc; [done|by rewrite Hl].
  - rewrite outputs_snoc_result by done. cbn [tool_output]. destruct (outputs out) as [|o os] eqn:E.
    + rewrite bool_decide_true in Ha by done. subst att. by cbn.
    + cbn. destruct Hp as [-> Hos]. split; [done|]. apply Forall_app. split; [done|].
      constructor; [|done]. rewrite bool_decide_false in Ha by done. subst att. by destruct payload.
  - rewrite outputs_snoc_result by done. rewrite bool_decide_false by (by destruct (outputs out)).
    subst att. by destruct (is_some payload), (bool_decide _).
  - apply Forall_app. split; [done|]. constructor; [|done]. cbn. congruence.
Qed.

Lemma parse_block_step payload n v st st' : Parsed payload n st →
  parse_block payload st (n, v) = Ok st' → Parsed payload (S n) st'.
Proof.
  intros HP. destruct st as [out att]. unfold parse_block. cbn [fst snd].
  destruct (get_str v "type") as [ty|]; [|intros [= <-]; by apply Parsed_other].
  repeat (destruct (bool_decide _); [try (intros [= <-]; by apply Parsed_other)|]).
  - intros (b & (Hb & Hk & Ht)%tool_use_block & [= <-])%res_bind_Ok.
    apply Parsed_other; [done..|by rewrite Hk|done].
  - intros [= <-]. by apply Parsed_result.
  - intros [= <-]. by apply Parsed_other.
Qed.

Lemma parse_blocks_ok arr payload blocks : parse_blocks arr payload = Ok blocks →
  ∃ att, Parsed payload (length arr) (blocks, att).
Proof.
  unfold parse_blocks. intros ([out att] & Hf & [= <-])%res_bind_Ok. exists att.
  enough (H : ∀ n st st', Parsed payload n st →
    try_fold (parse_block payload) (zip (seq n (length arr)) arr) st = Ok st' →
    Parsed payload (n + length arr) st').
  { apply (H 0%nat) in Hf; [done|]. by split. }
  clear. induction arr as [|v arr IH]; intros n st st' HP.
  - intros [= <-]. by rewrite Nat.add_0_r.
  - cbn [length seq zip_with try_fold]. intros (st1 & H1 & H2)%res_bind_Ok.
    cbn [length]. rewrite <-Nat.add_succ_comm. eapply IH, H2. by eapply parse_block_step.
Qed.

(** ** Codex *)

Lemma agent_item_numbered blocks item : numbered blocks → numbered (agent_item blocks item).
Proof.
  intros Hn. apply numbered_snoc; [done|]. by case_match.
Qed.

Lemma codex_message_numbered payload subtype : numbered (ce_blocks (codex_message payload subtype)).
Proof.
  unfold codex_message.
  assert (H : numbered match get payload "content" with
    | Some (Array items) => parse_codex_message_items items
    | Some (Str s) => [block_text 0 s] | _ => [] end).
  { repeat case_match; try apply numbered_nil; [by apply numbered_singleton|].
    apply numbered_zip. intros i a. by case_match. }
  by destruct (bool_decide (default _ _ ∈ ["developer"; "system"])).
Qed.

Lemma response_item_numbered v e : parse_codex_response_item v = Ok e → numbered (ce_blocks e).
Proof.
  unfold parse_codex_response_item. cbv zeta.
  set (subtype := default "response_item" _). set (payload := default Null _).
  destruct (bool_decide (subtype = "agent_message")).
  { intros [= <-]. apply numbered_foldl; [apply agent_item_numbered|by apply numbered_singleton]. }
  destruct (bool_decide (subtype = "message")).
  { intros [= <-]. apply codex_message_numbered. }
  destruct (bool_decide (subtype = "reasoning")).
  { intros [= <-]. by apply numbered_singleton. }
  destruct (_ || bool_decide (subtype = "custom_tool_call")).
  { intros (b & (Hb & _)%tool_use_block & [= <-])%res_bind_Ok. by apply numbered_singleton. }
  destruct (_ || bool_decide (subtype = "custom_tool_call_output")).
  { intros [= <-]. by apply numbered_singleton. }
  intros [= <-]. apply numbered_nil.
Qed.

Lemma codex_numbered v e : codex_parse v = Ok e → numbered (ce_blocks e).
Proof.
  unfold codex_parse. repeat (destruct (bool_decide _)).
  - apply response_item_numbered.
  - intros [= <-]. cbn. repeat (case_match; try apply numbered_nil). by apply numbered_singleton.
  - intros [= <-]. apply numbered_nil.
  - intros [= <-]. by apply numbered_singleton.
Qed.

(** ** Claude Code *)

(** The structured result of a record. *)
Definition claude_payload (v : Value) : option Value :=
  match get v "toolUseResult" with
  | Some p => if is_null p then None else Some (canonicalize_tool_result_payload p)
  | None => None
  end.

(** What holds of the blocks, whichever way they were made. *)
Definition well_formed (payload : option Value) (blocks : list Block) : Prop :=
  numbered blocks ∧ payload_first payload (outputs blocks) ∧
  Forall (λ b, kind b ≠ BToolResult → tool_output b = None) blocks.

Lemma well_formed_texts payload texts : well_formed payload (text_blocks texts).
Proof.
  split; [by apply numbered_zip|]. unfold text_blocks. generalize 0%nat.
  induction texts as [|t texts IH]; intros n; [done|].
  destruct (IH (S n)) as [Hp Ho]. by split; [|constructor].
Qed.

Lemma well_formed_text payload s : well_formed payload [block_text 0 s].
Proof. apply (well_formed_texts payload [s]). Qed.

Lemma well_formed_fmap payload (f : Block → Block) blocks :
  (∀ b, ord (f b) = ord b ∧ kind (f b) = kind b ∧ tool_output (f b) = tool_output b) →
  well_formed payload blocks → well_formed payload (f <$> blocks).
Proof.
  intros Hf (Hn & Hp & Ho). split; [|split].
  - apply numbered_fmap; [intros b; apply Hf|done].
  - enough (outputs (f <$> blocks) = outputs blocks) as -> by done.
    clear -Hf. unfold outputs. induction blocks as [|b blocks IH]; [done|].
    destruct (Hf b) as (_ & Hk & Ht). rewrite fmap_cons, !filter_cons, Hk.
    destruct (decide _); [|done]. by rewrite !fmap_cons, Ht, IH.
  - apply Forall_fmap. eapply Forall_impl; [exact Ho|]. intros b Hb. cbn.
    destruct (Hf b) as (_ & -> & ->). done.
Qed.

(** The blocks of the content of a record. *)
Definition content_blocks (content payload : option Value) : res (list Block) :=
  match content with
  | Some (Array arr) => parse_blocks arr payload
  | Some (Str s) => Ok [block_text 0 s]
  | _ => Ok []
  end.

Lemma content_blocks_ok content payload blocks :
  content_blocks content payload = Ok blocks → well_formed payload blocks.
Proof.
  unfold content_blocks. intros H. repeat case_match;
    try (injection H as <-; apply (well_formed_texts _ [])).
  - injection H as <-. apply well_formed_text.
  - apply parse_blocks_ok in H as (att & [_ Hn Hp _ Ho]). by split.
Qed.

Lemma claude_well_formed v e :
  (get_str v "type" = Some "attachment" → get v "message" = None ∧ get v "content" = None) →
  claude_parse v = Ok e → well_formed (claude_payload v) (ce_blocks e).
Proof.
  intros Hatt. unfold claude_parse. cbv zeta. fold (claude_payload v).
  set (queued := is_none _ && _ && _). set (content := if queued then _ else or_else (get v "message" ≫= _) _).
  fold (content_blocks content (claude_payload v)).
  set (ty := default "" (get_str v "type")) in *.
  intros (blocks & Hb & [= <-])%res_bind_Ok. cbn [ce_blocks].
  set (with_summary := if _ && bool_decide (ty = "summary") then _ else blocks).
  assert (Hs : well_formed (claude_payload v) with_summary).
  { unfold with_summary. apply content_blocks_ok in Hb.
    destruct (bool_decide (length blocks = _) && _); [|exact Hb].
    case_match; [apply well_formed_text|exact Hb]. }
  set (all := if _ && negb queued then _ else with_summary).
  assert (Ha : well_formed (claude_payload v) all).
  { unfold all. destruct (bool_decide (ty = "attachment")) eqn:Hk; [|done].
    apply bool_decide_eq_true in Hk. cbn [andb]. destruct queued; [done|]. cbn [negb].
    assert (get_str v "type" = Some "attachment") as [Hm Hc]%Hatt.
    { unfold ty in Hk. by destruct (get_str v "type"); [f_equal|]. }
    case_match; [|done]. enough (with_summary = []) as -> by apply well_formed_texts.
    unfold with_summary, content in *. rewrite Hm, Hc, Hk in *. cbn in Hb.
    destruct (is_some _); by injection Hb as <-. }
  case_match; try done. apply well_formed_fmap; [|done].
  intros b. by destruct (Events.kind b) eqn:?.
Qed.
End parsers.

(** ** Pasted text *)

(** ** The rules *)

Definition Fence : Type := option (string * nat).

(** The fence after a line, and the trimmed line where it lies outside. *)
Definition through_fence (fence : Fence) (line : string) : Fence * option string :=
  let trimmed := trim line in
  match fence_marker trimmed with
  | Some (marker, size, rest) =>
      (match fence with
       | Some (open, least) =>
           if bool_decide (open = marker) && (least <=? size)%nat && is_empty (trim rest)
           then None else fence
       | None => Some (marker, size)
       end, None)
  | None => (fence, if is_some fence then None else Some trimmed)
  end.

(** The lines of a text, each with what can be a delimiter. *)
Fixpoint outside (fence : Fence) (lines : list string) : list (string * option string) :=
  match lines with
  | [] => []
  | line :: lines =>
      let '(fence, visible) := through_fence fence line in
      (line, visible) :: outside fence lines
  end.

Definition opens (visible : option string) : option string := visible ≫= opening_id.

Definition closes (id : string) (l : string * option string) : Prop :=
  l.2 = Some (closing_tag id).

(** A delimiter goes with the next one that closes it, what is between stays;
    one that is never closed keeps everything after it. *)
Inductive Unwraps : list (string * option string) → list string → Prop :=
  | Unwraps_nil : Unwraps [] []
  | Unwraps_line line visible rest out :
      opens visible = None → Unwraps rest out →
      Unwraps ((line, visible) :: rest) (line :: out)
  | Unwraps_paste line visible id body close rest out :
      opens visible = Some id → Forall (λ l, ¬ closes id l) body →
      closes id close → Unwraps rest out →
      Unwraps ((line, visible) :: body ++ close :: rest) (body.*1 ++ out)
  | Unwraps_unclosed line visible id rest :
      opens visible = Some id → Forall (λ l, ¬ closes id l) rest →
      Unwraps ((line, visible) :: rest) (line :: rest.*1).

#[export] Instance closes_dec id l : Decision (closes id l).
Proof. unfold closes. apply _. Defined.

(** ** Every text unwraps *)

Lemma first_closing id l :
  Forall (λ l, ¬ closes id l) l ∨
  ∃ body close rest, l = body ++ close :: rest ∧ Forall (λ l, ¬ closes id l) body ∧ closes id close.
Proof.
  induction l as [|x l IH]; [by left|]. destruct (decide (closes id x)).
  - right. by exists [], x, l.
  - destruct IH as [IH|(body & close & rest & -> & Hb & Hc)]; [left; by constructor|].
    right. exists (x :: body), close, rest. split; [done|]. split; [by constructor|done].
Qed.

Lemma Unwraps_total_below n l : (length l < n)%nat → ∃ out, Unwraps l out.
Proof.
  revert l. induction n as [|n IH]; intros l Hl; [lia|].
  destruct l as [|[line visible] l]; [eexists; constructor|]. cbn in Hl.
  destruct (opens visible) as [id|] eqn:Ho.
  - destruct (first_closing id l) as [H|(body & close & rest & -> & Hb & Hc)].
    + eexists. by eapply Unwraps_unclosed.
    + destruct (IH rest) as [out Hout]; [rewrite length_app in Hl; cbn in Hl; lia|].
      eexists. by eapply Unwraps_paste.
  - destruct (IH l) as [out Hout]; [lia|]. eexists. by eapply Unwraps_line.
Qed.

Lemma Unwraps_total l : ∃ out, Unwraps l out.
Proof. apply (Unwraps_total_below (S (length l))). lia. Qed.

(** ** The scan *)

Lemma scan_line_eq st i line :
  scan_line st i line =
  let '(fence', visible) := through_fence (fence st) line in
  match visible, opening st with
  | None, _ => mkScan (remove st) fence' (opening st)
  | Some trimmed, Some (start, id) =>
      if bool_decide (trimmed = closing_tag id)
      then mkScan (<[i := true]> (<[start := true]> (remove st))) fence' None
      else mkScan (remove st) fence' (opening st)
  | Some trimmed, None =>
      mkScan (remove st) fence' ((λ id, (i, id)) <$> opening_id trimmed)
  end.
Proof.
  destruct st as [r f o]. unfold scan_line, through_fence.
  cbn [remove fence opening]. destruct (fence_marker (trim line)) as [[[m n] rest]|]; [done|].
  destruct f as [f|]; [done|]. change (is_some (@None (string * nat))) with false. cbn match.
  destruct o as [[start id]|]; [by destruct (bool_decide _)|]. by destruct (opening_id (trim line)).
Qed.

Lemma outside_fst fence lines : (outside fence lines).*1 = lines.
Proof.
  revert fence. induction lines as [|line lines IH]; intros fence; [done|].
  cbn. destruct (through_fence fence line). cbn. by rewrite IH.
Qed.

(** Nothing is removed while the closing delimiter is missing. *)
Lemma scan_unclosed id start r fence i lines :
  Forall (λ l, ¬ closes id l) (outside fence lines) →
  remove (scan_lines (mkScan r fence (Some (start, id))) i lines) = r.
Proof.
  revert fence i. induction lines as [|line lines IH]; intros fence i; [done|].
  cbn [outside scan_lines]. rewrite scan_line_eq. cbn [Canonical.fence remove opening].
  destruct (through_fence fence line) as [fence' [trimmed|]]; intros [Hl Hls]%Forall_cons.
  - rewrite bool_decide_false by (intros ->; by apply Hl). by apply IH.
  - by apply IH.
Qed.

Lemma scan_closed id start r fence i lines body close rest :
  outside fence lines = body ++ close :: rest →
  Forall (λ l, ¬ closes id l) body → closes id close →
  ∃ fence', rest = outside fence' rest.*1 ∧
    scan_lines (mkScan r fence (Some (start, id))) i lines =
    scan_lines (mkScan (<[(i + length body)%nat := true]> (<[start := true]> r)) fence' None)
      (S (i + length body)) rest.*1.
Proof.
  revert fence i body. induction lines as [|line lines IH]; intros fence i body Ho Hb Hc.
  { by destruct body. }
  cbn [outside scan_lines] in *. rewrite scan_line_eq. cbn [Canonical.fence remove opening].
  destruct (through_fence fence line) as [fence' visible].
  destruct body as [|x body]; injection Ho as <- Ho; cbn [length].
  - destruct visible as [trimmed|]; [|done]. injection Hc as ->.
    rewrite bool_decide_true by done. exists fence'. rewrite Nat.add_0_r, <-Ho.
    by rewrite outside_fst.
  - apply Forall_cons in Hb as [Hx Hb].
    destruct (IH fence' (S i) body Ho Hb Hc) as (fence2 & Hf & IH').
    exists fence2. split; [done|]. rewrite <-Nat.add_succ_comm, <-IH'.
    destruct visible as [trimmed|]; [|done].
    rewrite bool_decide_false; [done|]. intros ->. by apply Hx.
Qed.

(** ** What is kept *)

Lemma kept_app l1 l2 r1 r2 : length l1 = length r1 →
  kept (l1 ++ l2) (r1 ++ r2) = kept l1 r1 ++ kept l2 r2.
Proof.
  intros Hl. unfold kept. by rewrite zip_with_app, filter_app, fmap_app.
Qed.

Lemma kept_cons l r x b : kept (x :: l) (b :: r) = (if b then [] else [x]) ++ kept l r.
Proof. unfold kept. cbn [zip_with]. rewrite filter_cons. by destruct b. Qed.

Lemma kept_none l : kept l (replicate (length l) false) = l.
Proof. induction l as [|x l IH]; [done|]. cbn [length replicate]. by rewrite kept_cons, IH. Qed.

Lemma length_kept_le l r : (length (kept l r) ≤ length l)%nat.
Proof.
  revert r. induction l as [|x l IH]; intros [|b r]; try (cbn; lia). specialize (IH r).
  rewrite kept_cons, length_app. destruct b; cbn; lia.
Qed.

Lemma length_kept l r : length l = length r →
  length (kept l r) = length l ↔ existsb id r = false.
Proof.
  revert r. induction l as [|x l IH]; intros [|b r] Hl; try done.
  injection Hl as Hl. specialize (IH r Hl). rewrite kept_cons, length_app. cbn [existsb].
  pose proof (length_kept_le l r). destruct b; cbn.
  - split; [lia|done].
  - rewrite <-IH. lia.
Qed.

(** ** The scan follows the rules *)

Lemma mark_pair (done : list bool) n m :
  <[(S (length done) + n)%nat := true]> (<[length done := true]> (done ++ replicate (S (n + S m)) false)) =
  (done ++ true :: replicate n false ++ [true]) ++ replicate m false.
Proof.
  induction done as [|x done IH]; cbn.
  - f_equal. rewrite replicate_add, <-app_assoc. induction n as [|n IHn]; cbn; [done|].
    f_equal. exact IHn.
  - f_equal. exact IH.
Qed.

Lemma outside_cons_inv line visible rest fence lines : (line, visible) :: rest = outside fence lines →
  ∃ fence' lines', lines = line :: lines' ∧ through_fence fence line = (fence', visible) ∧
    rest = outside fence' lines'.
Proof.
  destruct lines as [|line' lines]; [done|]. cbn [outside].
  destruct (through_fence fence line') as [fence' visible'] eqn:Ht. intros [= -> -> ->].
  by exists fence', lines.
Qed.

(** One line that is no delimiter, or that opens a paste. *)
Lemma scan_visible fence fence' line visible r i :
  through_fence fence line = (fence', visible) →
  scan_line (mkScan r fence None) i line = mkScan r fence' ((λ id, (i, id)) <$> opens visible).
Proof.
  intros Ht. rewrite scan_line_eq. cbn [Canonical.fence remove opening]. rewrite Ht.
  by destruct visible.
Qed.

Lemma length_outside fence lines : length (outside fence lines) = length lines.
Proof. by rewrite <-(outside_fst fence lines) at 2; rewrite length_fmap. Qed.

Lemma scan_unwraps l out : Unwraps l out → ∀ fence lines done, l = outside fence lines →
  ∃ rm, remove (scan_lines (mkScan (done ++ replicate (length lines) false) fence None)
                  (length done) lines) = done ++ rm ∧
    length rm = length lines ∧ kept lines rm = out.
Proof.
  induction 1 as [|line visible rest out Ho _ IH|line visible id body close rest out Ho Hb Hc _ IH
                 |line visible id rest Ho Hr]; intros fence lines done E.
  - destruct lines as [|x lines]; [by exists []|]. cbn in E. by destruct (through_fence fence x).
  - apply outside_cons_inv in E as (fence' & lines' & -> & Ht & E).
    cbn [scan_lines length replicate]. rewrite (scan_visible _ _ _ _ _ _ Ht), Ho.
    destruct (IH fence' lines' (done ++ [false]) E) as (rm & Hrm & Hl & Hk).
    rewrite <-app_assoc, length_app, Nat.add_comm in Hrm. cbn in Hrm.
    exists (false :: rm). split; [by rewrite <-app_assoc in Hrm|].
    split; [cbn; by rewrite Hl|]. by rewrite kept_cons, Hk.
  - apply outside_cons_inv in E as (fence' & lines' & -> & Ht & E).
    cbn [scan_lines]. rewrite (scan_visible _ _ _ _ _ _ Ht), Ho.
    edestruct (scan_closed id (length done)) as (fence2 & Hf & ->); [by rewrite <-E|done..|].
    assert (Hl : length lines' = (length body + S (length rest))%nat).
    { by rewrite <-(length_outside fence'), <-E, length_app. }
    cbn [length]. rewrite Hl, mark_pair.
    destruct (IH fence2 rest.*1 (done ++ true :: replicate (length body) false ++ [true]) Hf)
      as (rm & Hrm & Hlr & Hk).
    rewrite !length_app in Hrm. cbn [length] in Hrm. rewrite length_app, length_replicate, length_fmap in Hrm.
    exists (true :: replicate (length body) false ++ true :: rm). split; [|split].
    + replace (S (S (length done) + length body)) with (length done + S (length body + 1))%nat by lia.
      cbn [length] in Hrm. rewrite Hrm, <-app_assoc. cbn. by rewrite <-app_assoc.
    + cbn. rewrite length_app, length_replicate. cbn. by rewrite Hlr, length_fmap.
    + assert (lines' = body.*1 ++ close.1 :: rest.*1) as ->.
      { by rewrite <-(outside_fst fence' lines'), <-E, fmap_app. }
      rewrite kept_cons, kept_app by by rewrite length_fmap, length_replicate.
      rewrite kept_cons, Hk. cbn. by rewrite <-(length_fmap fst body), kept_none.
  - apply outside_cons_inv in E as (fence' & lines' & -> & Ht & ->).
    cbn [scan_lines]. rewrite (scan_visible _ _ _ _ _ _ Ht), Ho.
    exists (replicate (S (length lines')) false). cbn [fmap option_fmap option_map].
    rewrite scan_unclosed by done. rewrite outside_fst, length_replicate.
    split; [done|]. split; [done|]. apply (kept_none (line :: lines')).
Qed.

(** [normalize_user_text] against the rules: a text nothing is removed from is
    returned as it is, otherwise the lines left are joined and trimmed. *)
Lemma normalize_unwraps text out : Unwraps (outside None (split_inclusive text)) out →
  normalize_user_text text =
  if bool_decide (length out = length (split_inclusive text)) then text
  else trim_newlines (concat_text out).
Proof.
  intros Hu. destruct (scan_unwraps _ _ Hu None (split_inclusive text) [] eq_refl)
    as (rm & Hrm & Hl & Hk). cbn [app length] in Hrm.
  unfold normalize_user_text. rewrite Hrm, Hk.
  pose proof (length_kept (split_inclusive text) rm (eq_sym Hl)) as He. rewrite Hk in He.
  destruct (existsb id rm); cbn [negb].
  - by rewrite bool_decide_false by (intros H; by apply He in H).
  - by rewrite bool_decide_true by (by apply He).
Qed.
