(* ===== verification/ToolsTotal.v ===== *)
(** * Reading tool calls ends

    The fuel of the recursive readers is enough, and they panic on nothing but
    a quote that is a whole token. *)

From S2P Require Import Prelude Text Json Events CodeMode Tools Canonical.

(** ** Documented behaviour of the parsers *)

(** The nodes of a tree. *)
Inductive Under `{T : TreeSitter} (root : Node) : Node → Prop :=
  | Under_root : Under root root
  | Under_child n c : Under root n → c ∈ named_children n → Under root c
  | Under_field n f c : Under root n → child_by_field_name n f = Some c → Under root c.

(** A node's text is a part of the source. *)
Class NodeTexts (T : TreeSitter) : Prop := {
  text_within code root n t : parse_javascript code = Some root → Under root n →
    node_text n = Some t → (String.length t ≤ String.length code)%nat;
}.

(** A JSON text is longer than the string it denotes, by its quotes. *)
Class SerdeTextLaws (J : SerdeText) : Prop := {
  from_str_shorter s t : from_str s = Some (Str t) → (String.length t < String.length s)%nat;
}.

(** No string of the program is a lone quote, as error recovery could make
    one of a string that is not closed. *)
Definition quotes_paired `{T : TreeSitter} (code : string) : Prop :=
  ∀ root n t, parse_javascript code = Some root → Under root n → node_text n = Some t →
    (node_kind n = "string" → t ≠ single_quote) ∧ (node_kind n = "template_string" → t ≠ backtick).

(** The programs that are parsed for an input under a canonical name: the text
    of an [exec], and those for the inputs of its calls. *)
Inductive Reached `{T : TreeSitter} `{J : SerdeText} : string → Value → string → Prop :=
  | Reached_here raw : Reached "exec" (Str raw) raw
  | Reached_call raw calls call code :
      parse_tool_calls raw = Ok calls → call ∈ calls →
      Reached (code_mode_tool_name (call_raw_name call)) (call_input call) code →
      Reached "exec" (Str raw) code.

(** ** Decoding *)

(** A result that is a value, of a text shorter than [n]. *)
Definition shorter (n : nat) (r : res (option string)) : Prop :=
  ∃ o, r = Ok o ∧ ∀ s, o = Some s → (String.length s < n)%nat.

Lemma length_string_rev s : String.length (string_rev s) = String.length s.
Proof. induction s as [|c s IH]; [done|]. cbn. rewrite length_append, IH. cbn. lia. Qed.

Lemma length_concat_filter (P : string → Prop) `{∀ c, Decision (P c)} cs :
  (String.length (concat_text (filter P cs)) ≤ String.length (concat_text cs))%nat.
Proof.
  unfold concat_text. induction cs as [|c cs IH]; [done|]. rewrite filter_cons.
  destruct (decide (P c)); cbn [foldr]; rewrite ?length_append; lia.
Qed.

Lemma length_strip_nul s : (String.length (strip_nul s) ≤ String.length s)%nat.
Proof. unfold strip_nul. etransitivity; [apply length_concat_filter|]. by rewrite concat_chars. Qed.

Lemma length_unescape c :
  (String.length (unescape c) ≤ S (String.length c))%nat.
Proof.
  unfold unescape.
  repeat (destruct (bool_decide _); [exact (le_n_S 0 _ (Nat.le_0_l _))|]).
  rewrite length_append. done.
Qed.

Lemma length_decode_chars n cs : (length cs < n)%nat →
  (String.length (decode_chars cs) ≤ String.length (concat_text cs))%nat.
Proof.
  revert cs. induction n as [|n IH]; intros cs Hn; [lia|].
  destruct cs as [|c cs]; [done|]. cbn in Hn. cbn [decode_chars].
  case_bool_decide as Hc.
  - subst c. destruct cs as [|e cs]; [done|]. cbn in Hn. specialize (IH cs ltac:(lia)).
    pose proof (length_unescape e). unfold concat_text in *. cbn [foldr].
    rewrite !length_append. change (String.length backslash) with 1%nat. lia.
  - specialize (IH cs ltac:(lia)). unfold concat_text in *. cbn [foldr].
    rewrite !length_append. lia.
Qed.

Lemma length_decode_single_quoted body :
  (String.length (decode_single_quoted body) ≤ String.length body)%nat.
Proof.
  unfold decode_single_quoted.
  rewrite <-(concat_chars body) at 2. apply (length_decode_chars (S (length (chars body)))). lia.
Qed.

(** A slice without its ends exists when the text is longer than one byte. *)
Lemma inside_ok c s : s ≠ "" → ∃ body, inside (String c s) = Ok body ∧
  (String.length body < String.length s)%nat.
Proof.
  intros Hs. unfold inside. destruct (string_rev s) as [|d body] eqn:E.
  - apply (f_equal String.length) in E. rewrite length_string_rev in E. by destruct s.
  - exists (string_rev body). split; [done|]. rewrite length_string_rev.
    apply (f_equal String.length) in E. rewrite length_string_rev in E. rewrite E. cbn. lia.
Qed.

Lemma inside_lone c : panics (inside (String c "")).
Proof. by eexists. Qed.

(** What starts with a quote and is not just that has an inside. *)
Lemma inside_quoted q raw : String.length q = 1%nat → starts_with q raw = true → raw ≠ q →
  ∃ body, inside raw = Ok body ∧ (String.length body < String.length raw)%nat.
Proof.
  intros Hq [r ->]%starts_with_spec Hne. destruct q as [|c [|d q]]; try done.
  destruct (inside_ok c r) as (body & Hb & Hl).
  - intros ->. by apply Hne.
  - exists body. split; [exact Hb|]. rewrite append_cons, append_nil_l. cbn. lia.
Qed.

Section total.
Context `{T : TreeSitter} `{J : SerdeText} `{!SerdeTextLaws J}.

Lemma from_str_string_shorter raw s : from_str_string raw = Some s →
  (String.length s < String.length raw)%nat.
Proof.
  unfold from_str_string. destruct (from_str raw) as [[]|] eqn:E; cbn; try done.
  intros [= <-]. by apply from_str_shorter.
Qed.

Lemma decode_string_ok raw : raw ≠ single_quote → shorter (String.length raw) (decode_string raw).
Proof.
  intros Hne. unfold decode_string, shorter.
  destruct (starts_with quote_char raw).
  { eexists. split; [done|]. intros s. destruct (from_str_string raw) as [t|] eqn:E; [|done].
    intros [= <-]. apply from_str_string_shorter in E. pose proof (length_strip_nul t). lia. }
  destruct (starts_with single_quote raw) eqn:Hq; cbn [andb]; [|by eexists].
  destruct (ends_with single_quote raw); [|by eexists].
  destruct (inside_quoted single_quote raw) as (body & -> & Hl); [done..|].
  eexists. split; [done|]. intros s [= <-].
  pose proof (length_strip_nul (decode_single_quoted body)).
  pose proof (length_decode_single_quoted body). lia.
Qed.

Lemma decode_template_ok raw : raw ≠ backtick → shorter (String.length raw) (decode_template raw).
Proof.
  intros Hne. unfold decode_template, shorter.
  destruct (starts_with backtick raw) eqn:Hq; cbn [negb orb]; [|by eexists].
  destruct (negb _ || _); [by eexists|].
  destruct (inside_quoted backtick raw) as (body & -> & Hl); [done..|].
  eexists. split; [done|]. intros s [= <-]. pose proof (length_strip_nul body). lia.
Qed.

(** ** Literals and calls *)

(** A string that is an input is shorter than [n]. *)
Definition string_below (n : nat) (v : Value) : Prop :=
  ∀ s, v = Str s → (String.length s < n)%nat.

Section program.
Context `{!NodeTexts T} (code : string) (root : Node).
Hypothesis parsed : parse_javascript code = Some root.
Hypothesis paired : quotes_paired code.

Definition literal_ok (r : res (option Value)) : Prop :=
  ∃ o, r = Ok o ∧ ∀ v, o = Some v → string_below (String.length code) v.

Lemma literal_ok_not_string o : (∀ v s, o = Some v → v ≠ Str s) → literal_ok (Ok o).
Proof. intros H. eexists. split; [done|]. intros v Hv s ->. by destruct (H _ s Hv). Qed.

Lemma literal_ok_decoded n (decode : string → res (option string)) raw :
  shorter (String.length raw) (decode raw) → (String.length raw ≤ String.length code)%nat →
  n = raw → literal_ok (s ← decode n; Ok (option_map Str s)).
Proof.
  intros (o & Ho & Hs) Hl ->. rewrite Ho. eexists. split; [done|].
  intros v Hv s ->. destruct o as [t|]; [|done]. injection Hv as ->. specialize (Hs s eq_refl). lia.
Qed.

Lemma literal_ok_text node : Under root node → literal_ok (Ok (node_text node ≫= from_str)).
Proof.
  intros Hu. eexists. split; [done|]. intros v Hv s ->.
  destruct (node_text node) as [t|] eqn:Ht; [|done]. cbn in Hv.
  apply from_str_shorter in Hv. pose proof (text_within code root node t parsed Hu Ht). lia.
Qed.

Lemma property_name_ok node : Under root node → ∃ o, property_name node = Ok o.
Proof.
  intros Hu. unfold property_name. destruct (node_text node) as [t|] eqn:Ht; [|by eexists].
  destruct (bool_decide_reflect (node_kind node = "string")) as [Hk|]; [|by eexists].
  destruct (paired root node t parsed Hu Ht) as [Hq _].
  destruct (decode_string_ok t (Hq Hk)) as (o & Ho & _). by exists o.
Qed.

Lemma js_literal_ok fuel node : Under root node → literal_ok (js_literal fuel node).
Proof.
  revert node. induction fuel as [|fuel IH]; intros node Hu; [apply literal_ok_not_string; congruence|].
  cbn [js_literal].
  destruct (bool_decide (node_kind node = "object")).
  { destruct (try_fold_ok (object_pair (js_literal fuel)) (λ _, True) (named_children node) [])
      as (m & -> & _); [|done|apply literal_ok_not_string; congruence].
    intros m child Hc _. unfold object_pair. destruct (negb _); [by eexists|].
    destruct (child_by_field_name child "key") as [k|] eqn:Hk; [|by eexists].
    destruct (child_by_field_name child "value") as [v|] eqn:Hv; [|by eexists].
    assert (Hchild : Under root child) by by eapply Under_child.
    destruct (property_name_ok k) as [o ->]; [by eapply Under_field|].
    cbn. destruct o as [key|]; [|by eexists].
    destruct (IH v) as (w & -> & _); [by eapply Under_field|]. by eexists. }
  destruct (bool_decide (node_kind node = "array")).
  { destruct (try_fold_ok (keep_literal (js_literal fuel)) (λ _, True) (named_children node) [])
      as (m & -> & _); [|done|apply literal_ok_not_string; congruence].
    intros l child Hc _. unfold keep_literal.
    destruct (IH child) as (w & -> & _); [by eapply Under_child|]. by eexists. }
  destruct (bool_decide_reflect (node_kind node = "string")) as [Hk|].
  { destruct (node_text node) as [t|] eqn:Ht; [|apply literal_ok_not_string; congruence].
    destruct (paired root node t parsed Hu Ht) as [Hq _]. specialize (Hq Hk).
    eapply literal_ok_decoded; [by apply decode_string_ok|by eapply text_within|done]. }
  destruct (bool_decide_reflect (node_kind node = "template_string")) as [Hk'|].
  { destruct (node_text node) as [t|] eqn:Ht; [|apply literal_ok_not_string; congruence].
    destruct (paired root node t parsed Hu Ht) as [_ Hq]. specialize (Hq Hk').
    eapply literal_ok_decoded; [by apply decode_template_ok|by eapply text_within|done]. }
  destruct (bool_decide (node_kind node = "number")); [by apply literal_ok_text|].
  destruct (bool_decide (node_kind node = "true")); [apply literal_ok_not_string; congruence|].
  destruct (bool_decide (node_kind node = "false")); [apply literal_ok_not_string; congruence|].
  destruct (bool_decide (node_kind node = "null")); [apply literal_ok_not_string; congruence|].
  destruct (bool_decide (node_kind node = "parenthesized_expression")).
  { unfold first_named_child. destruct (named_children node) as [|child l] eqn:E; cbn.
    - apply literal_ok_not_string; congruence.
    - apply IH. eapply Under_child; [exact Hu|]. rewrite E. by left. }
  destruct (bool_decide (node_kind node = "unary_expression")); [by apply literal_ok_text|].
  apply literal_ok_not_string; congruence.
Qed.

Definition calls_below (calls : list CodeModeCall) : Prop :=
  Forall (λ call, string_below (String.length code) (call_input call)) calls.

Lemma tool_call_ok node : Under root node →
  ∃ o, tool_call node = Ok o ∧ ∀ call, o = Some call → calls_below [call].
Proof.
  intros Hu. unfold tool_call. destruct (tool_called node) as [name|]; [|by eexists].
  destruct (child_by_field_name node "arguments") as [arguments|] eqn:Ha; [|by eexists].
  assert (H : literal_ok match first_named_child arguments with
    | Some argument => js_literal (S (node_size argument)) argument | None => Ok None end).
  { unfold first_named_child. destruct (named_children arguments) as [|child l] eqn:E; cbn [head].
    - apply literal_ok_not_string; congruence.
    - apply js_literal_ok. eapply Under_child; [by eapply Under_field|]. rewrite E. by left. }
  destruct H as (o & -> & Ho). eexists. split; [done|]. intros call [= <-].
  repeat constructor. cbn. destruct o as [v|]; [by apply Ho|by intros s].
Qed.

Lemma collect_ok fuel calls node : Under root node → calls_below calls →
  ∃ calls', collect_tool_calls fuel calls node = Ok calls' ∧ calls_below calls'.
Proof.
  revert calls node. induction fuel as [|fuel IH]; intros calls node Hu Hc; [by eexists|].
  cbn [collect_tool_calls].
  destruct (tool_call_ok node Hu) as (o & Ho & Hcall).
  destruct (bool_decide _); [rewrite Ho; destruct o as [call|]|]; cbn;
    try (apply try_fold_ok; [|done]; intros s a Ha; apply IH; by eapply Under_child).
  eexists. split; [done|]. apply Forall_app. split; [done|]. by apply Hcall.
Qed.
End program.

(** ** Fuel *)

Lemma object_pair_ext (f g : Node → res (option Value)) m child :
  (∀ v, child_by_field_name child "value" = Some v → f v = g v) →
  object_pair f m child = object_pair g m child.
Proof.
  intros H. unfold object_pair. destruct (negb _); [done|].
  destruct (child_by_field_name child "key"); [|done].
  destruct (child_by_field_name child "value") as [v|] eqn:E; [|done].
  destruct (property_name _) as [[key|]|]; cbn; [|done..]. by rewrite H.
Qed.

(** A literal is read the same with any fuel above the size of its tree. *)
Lemma js_literal_fuel `{!TreeSitterLaws T} n m node :
  (node_size node < n)%nat → (node_size node < m)%nat → js_literal n node = js_literal m node.
Proof.
  revert m node. induction n as [|n IH]; intros [|m] node Hn Hm; try lia.
  assert (Hchild : ∀ c, c ∈ named_children node → js_literal n c = js_literal m c).
  { intros c Hc%named_children_size. apply IH; lia. }
  cbn [js_literal].
  destruct (bool_decide (node_kind node = "object")).
  { f_equal. apply try_fold_ext. intros s c Hc%named_children_size. apply object_pair_ext.
    intros v Hv%field_size. apply IH; lia. }
  destruct (bool_decide (node_kind node = "array")).
  { f_equal. apply try_fold_ext. intros s c Hc. unfold keep_literal. by rewrite Hchild. }
  repeat (destruct (bool_decide _); [try done|]); [|done].
  unfold first_named_child. destruct (named_children node) as [|c l]; [done|].
  apply Hchild. by left.
Qed.

Lemma collect_fuel `{!TreeSitterLaws T} n m calls node :
  (node_size node < n)%nat → (node_size node < m)%nat →
  collect_tool_calls n calls node = collect_tool_calls m calls node.
Proof.
  revert m calls node. induction n as [|n IH]; intros [|m] calls node Hn Hm; try lia.
  cbn [collect_tool_calls].
  assert (H : try_fold (collect_tool_calls n) (named_children node) calls =
              try_fold (collect_tool_calls m) (named_children node) calls).
  { apply try_fold_ext. intros s c Hc%named_children_size. apply IH; lia. }
  destruct (if bool_decide _ then _ else _) as [[call|]|]; [done|exact H|done].
Qed.

(** ** Inputs *)

Section inputs.
Context `{!NodeTexts T}.

Lemma parse_tool_calls_ok code : quotes_paired code →
  ∃ calls, parse_tool_calls code = Ok calls ∧
    Forall (λ call, string_below (String.length code) (call_input call)) calls.
Proof.
  intros Hq. unfold parse_tool_calls. destruct (parse_javascript code) as [root|] eqn:Hp.
  - apply (collect_ok code root Hp Hq); [apply Under_root|constructor].
  - by exists [].
Qed.

Lemma gather_call_ok (canonicalize : string → Value → res Value) acc call :
  (∃ v, canonicalize (code_mode_tool_name (call_raw_name call)) (call_input call) = Ok v) →
  ∃ acc', gather_call canonicalize acc call = Ok acc'.
Proof.
  intros [v Hv]. unfold gather_call. rewrite Hv.
  by eexists.
Qed.

(** The calls of a program that reads its inputs with [canonicalize]. *)
Lemma exec_code_agree (f g : string → Value → res Value) code :
  quotes_paired code →
  (∀ calls call, parse_tool_calls code = Ok calls → call ∈ calls → string_below (String.length code) (call_input call) →
     let name := code_mode_tool_name (call_raw_name call) in
     ∃ w, f name (call_input call) = Ok w ∧ g name (call_input call) = Ok w) →
  ∃ v, parse_exec_code f code = Ok v ∧ parse_exec_code g code = Ok v.
Proof.
  intros Hq Hfg. unfold parse_exec_code.
  destruct (parse_tool_calls_ok code Hq) as (calls & Hcalls & Hc). rewrite Hcalls. cbn.
  rewrite Forall_forall in Hc.
  assert (Hstep : ∀ call, call ∈ calls → let name := code_mode_tool_name (call_raw_name call) in
    ∃ w, f name (call_input call) = Ok w ∧ g name (call_input call) = Ok w).
  { intros call Hcall. eapply Hfg; [done..|by apply Hc]. }
  rewrite (try_fold_ext (gather_call g) (gather_call f)).
  - destruct (try_fold_ok (gather_call f) (λ _, True) calls (mkCalls [] [] [] None)) as (acc & -> & _);
      [|done|by eexists].
    intros acc call Hcall _. destruct (gather_call_ok f acc call) as [acc' H]; [|by exists acc'].
    destruct (Hstep call Hcall) as (w & Hw & _). by exists w.
  - intros acc call Hcall. unfold gather_call.
    by destruct (Hstep call Hcall) as (w & -> & ->).
Qed.

(** With enough fuel, and whatever there is more of it, there is one
    canonical input. *)
Lemma canonicalize_input_ok fuel more name input :
  (∀ code, Reached name input code → quotes_paired code) →
  string_below fuel input → (fuel ≤ more)%nat →
  ∃ v, canonicalize_tool_input fuel name input = Ok v ∧ canonicalize_tool_input more name input = Ok v.
Proof.
  revert more name input. induction fuel as [|fuel IH]; intros more name input Hq Hl Hm.
  { destruct input as [| | |raw| |]; try (destruct more; by eexists).
    specialize (Hl _ eq_refl). lia. }
  destruct more as [|more]; [lia|].
  destruct input as [| | |raw| |]; try by eexists. specialize (Hl _ eq_refl).
  cbn [canonicalize_tool_input].
  destruct (bool_decide (name = "apply_patch")); [by eexists|].
  destruct (bool_decide_reflect (name = "exec")) as [->|]; [|by eexists].
  apply exec_code_agree; [apply Hq, Reached_here|]. intros calls call Hcalls Hcall Hv.
  apply IH; [|intros s Hs; specialize (Hv s Hs); lia|lia].
  intros code Hc. apply Hq. by eapply Reached_call.
Qed.

Lemma canonicalize_use_ok fuel name input :
  (∀ code, Reached (canonicalize_tool_name name) input code → quotes_paired code) →
  (input_fuel input ≤ fuel)%nat →
  ∃ r, canonicalize_tool_use (input_fuel input) name input = Ok r ∧
    canonicalize_tool_use fuel name input = Ok r.
Proof.
  intros Hq Hf. unfold canonicalize_tool_use.
  destruct (canonicalize_input_ok (input_fuel input) fuel (canonicalize_tool_name name) input)
    as (v & -> & ->); [done| |done|].
  - intros s ->. cbn. lia.
  - cbn. destruct (bool_decide _); [destruct v|]; by eexists.
Qed.
End inputs.
End total.
