(* ===== verification/Lineage.v ===== *)
(** * Lineage of records

    [ingest/ingester/codex_lineage.rs], the parsing of a line in [insert.rs]
    and the parent detection of [canonical_backfill.rs]: the session, parent
    and turn a record belongs to. A session's id is its text; [parse_uuid]
    yields the canonical text of the UUID it reads. *)

From S2P Require Import Prelude Text Json Events Usage CodeMode Tools Canonical.

Definition as_u64 (v : Value) : option Z :=
  match v with Number (PosInt n) => Some n | _ => None end.

(** ** The context carried across lines *)

Record CodexSessionContext : Type := mkContext {
  ctx_session_id : string;
  parent_session_id : option string;
  current_turn_id : option string;
  history_start_ordinal : option Z;
}.

#[export] Instance CodexSessionContext_eq_dec : EqDecision CodexSessionContext.
Proof. solve_decision. Defined.

Definition context_new (session : string) : CodexSessionContext := mkContext session None None None.

Definition is_inherited (self : CodexSessionContext) (value : Value) : bool :=
  let foreign_meta :=
    bool_decide (codex_record_kind value = Some "session_meta")
    && match at_path value ["payload"; "id"] ≫= as_str with
       | Some id => negb (bool_decide (id = ctx_session_id self))
       | None => false
       end in
  foreign_meta
  || match history_start_ordinal self, get value "ordinal" ≫= as_u64 with
     | Some start, Some ordinal => (0 <? ordinal) && (ordinal <? start)
     | _, _ => false
     end.

Definition codex_string_at_path (value : Value) (path : list string) : option string :=
  at_path value path ≫= as_str.

Definition payload_of (value : Value) : Value := default Null (get value "payload").

Definition codex_parent_session_string (value : Value) : option string :=
  let payload := payload_of value in
  or_else (codex_string_at_path payload ["forked_from_id"])
    (codex_string_at_path payload ["source"; "subagent"; "thread_spawn"; "parent_thread_id"]).

Definition set_turn (turn : option string) (ctx : CodexSessionContext) : CodexSessionContext :=
  mkContext (ctx_session_id ctx) (parent_session_id ctx) turn (history_start_ordinal ctx).

Definition update_codex_context (ctx : CodexSessionContext) (value : Value) (session : string)
    : CodexSessionContext :=
  if is_inherited ctx value then ctx
  else
    let payload := payload_of value in
    let kind := default "" (codex_record_kind value) in
    if bool_decide (kind = "session_meta") then
      mkContext (default session (codex_string_at_path payload ["id"]))
        (codex_parent_session_string value) (current_turn_id ctx)
        (get payload "subagent_history_start_ordinal" ≫= as_u64)
    else if bool_decide (kind = "turn_context")
            || bool_decide (kind = "event_msg")
               && bool_decide (get payload "type" ≫= as_str = Some "task_started")
    then set_turn (codex_string_at_path payload ["turn_id"]) ctx
    else ctx.

Section lineage.
Context (json_text : Value → string) (parse_uuid : string → option string).

(** The row that opened the latest turn. *)
Definition turn_row (events : list UsageEvent) : option UsageEvent :=
  last (filter (λ e, Usage.kind e ∈ ["turn_context"; "task_started"] ∧ inherited e = false) events).

(** The rows of the session, in offset order. *)
Definition load_codex_context (events : list UsageEvent) (session : string) : CodexSessionContext :=
  let ctx := context_new session in
  let meta_row := head (filter (λ e, Usage.kind e = "session_meta" ∧
    pg_text json_text (at_path (payload e) ["payload"; "id"]) = Some session) events) in
  let ctx := match meta_row with
             | Some e => update_codex_context ctx (payload e) session
             | None => ctx
             end in
  match turn_row events with
  | Some e => update_codex_context ctx (payload e) session
  | None => ctx
  end.

(** ** The columns of a record *)

Definition colon_join (parts : list string) : string := join ":" parts.

Definition with_lineage (uuid parent related : option string) (sidechain : bool)
    (e : CanonicalEvent) : CanonicalEvent :=
  mkCanonical (ce_agent e) (ce_speaker e) (ce_content_kind e) uuid parent related sidechain
    (ce_is_meta e) (ce_subtype e) (ce_blocks e).

Definition enrich_codex_lineage (parsed : CanonicalEvent) (value : Value) (session : string)
    (byte_offset : Z) (codex_ctx : option CodexSessionContext) : CanonicalEvent :=
  let payload := payload_of value in
  let outer := default "" (codex_record_kind value) in
  let subtype := default "" (ce_subtype parsed) in
  let session_id := default session (ctx_session_id <$> codex_ctx) in
  let session_parent := codex_ctx ≫= parent_session_id in
  let turn := codex_ctx ≫= current_turn_id in
  let synthetic_id := colon_join ["codex"; session; pretty byte_offset] in
  let named s := bool_decide (subtype = s) in
  if match codex_ctx with Some ctx => is_inherited ctx value | None => false end then
    mkCanonical (ce_agent parsed) SpSystem CkNone (Some synthetic_id) None None
      (is_some session_parent) true (Some "inherited_history") []
  else if bool_decide (outer = "session_meta") then
    let parent := codex_parent_session_string value in
    with_lineage (or_else (codex_string_at_path payload ["id"]) (Some session_id)) parent
      (ce_related_tool_use_id parsed) (is_some parent) parsed
  else if bool_decide (outer = "turn_context") then
    with_lineage (or_else (codex_string_at_path payload ["turn_id"]) (Some synthetic_id))
      (Some session_id) (ce_related_tool_use_id parsed) (is_some session_parent) parsed
  else if bool_decide (outer = "response_item") then
    let uuid :=
      if named "agent_message" then or_else (get payload "id" ≫= as_str) (Some synthetic_id)
      else if named "function_call" || named "custom_tool_call"
      then or_else (head (omap tool_id (ce_blocks parsed))) (Some synthetic_id)
      else if named "function_call_output" || named "custom_tool_call_output"
      then or_else ((λ id, colon_join [id; "output"; pretty byte_offset]) <$> ce_related_tool_use_id parsed)
             (Some synthetic_id)
      else Some synthetic_id in
    with_lineage uuid (or_else turn (Some session_id)) (ce_related_tool_use_id parsed)
      (is_some session_parent) parsed
  else if bool_decide (outer = "event_msg") then
    let related := or_else (ce_related_tool_use_id parsed) (codex_string_at_path payload ["call_id"]) in
    if named "item_completed"
       && bool_decide (at_path payload ["item"; "type"] ≫= as_str = Some "SubAgentActivity")
       && bool_decide (at_path payload ["item"; "kind"] ≫= as_str = Some "started")
    then
      with_lineage
        (or_else (at_path payload ["item"; "agent_thread_id"] ≫= as_str) (Some synthetic_id))
        (or_else turn (Some session_id)) (at_path payload ["item"; "id"] ≫= as_str) false parsed
    else if named "task_started" then
      with_lineage (or_else (codex_string_at_path payload ["turn_id"]) (Some synthetic_id))
        (Some session_id) related (is_some session_parent) parsed
    else if named "collab_agent_spawn_end" then
      with_lineage (or_else (codex_string_at_path payload ["new_thread_id"]) (Some synthetic_id))
        (or_else turn (Some session_id)) related false parsed
    else
      with_lineage (Some synthetic_id)
        (or_else (or_else (codex_string_at_path payload ["turn_id"]) turn) (Some session_id))
        related (is_some session_parent) parsed
  else parsed.

(** ** Parents *)

Definition detect_codex_parent_session (value : Value) (current : string) : option string :=
  if negb (bool_decide (at_path value ["payload"; "id"] ≫= as_str = Some current)) then None
  else
    uuid ← codex_parent_session_string value ≫= parse_uuid;
    if bool_decide (uuid = current) then None else Some uuid.

Definition PARENT_CANDIDATES : list string :=
  ["leafUuid"; "parentSessionUuid"; "parent_session_uuid"; "parentSessionId"; "parent_session_id";
   "compactedFromSessionUuid"].

Definition detect_compaction_parent (value : Value) (current : string) : option string :=
  let is_compact :=
    default false (get value "isCompactSummary" ≫= as_bool)
    || match get value "type" ≫= as_str with
       | Some s => bool_decide (to_ascii_lowercase s ∈ ["summary"; "compact_summary"])
       | None => false
       end in
  head (omap (λ key,
    uuid ← (get value key ≫= as_str) ≫= parse_uuid;
    if negb (bool_decide (uuid = current)) && (is_compact || negb (bool_decide (key = "leafUuid")))
    then Some uuid else None) PARENT_CANDIDATES).

Definition parent_session (source : TranscriptSource) (value : Value) (current : string) : option string :=
  match source with
  | ClaudeCode => detect_compaction_parent value current
  | Codex => detect_codex_parent_session value current
  end.

(** ** Parsing a line *)

Context `{T : TreeSitter} `{J : SerdeText}.

Definition parse_canonical_event (agent : string) (value : Value) (session : string)
    (byte_offset : Z) (codex_ctx : option CodexSessionContext) : res CanonicalEvent :=
  let codex := bool_decide (agent = "codex") in
  parsed ← (if codex then codex_parse value else claude_parse value);
  Ok (if codex then enrich_codex_lineage parsed value session byte_offset codex_ctx else parsed).
End lineage.
