(* ===== verification/Metadata.v ===== *)
(** * Session metadata

    [ingest/metadata.rs]: what the records of a session say about the model,
    the client and the directory it runs in. *)

From S2P Require Import Prelude Text Json Usage Tools.

Record MetadataPatch : Type := mkPatch {
  model : option string;
  model_provider : option string;
  reasoning_effort : option string;
  cli_version : option string;
  cwd : option string;
  model_context_window : option Z;
  raw : object;
}.

Definition patch_default : MetadataPatch := mkPatch None None None None None None [].

Definition is_empty_patch (self : MetadataPatch) : bool :=
  is_none (model self) && is_none (model_provider self) && is_none (reasoning_effort self)
  && is_none (cli_version self) && is_none (cwd self) && is_none (model_context_window self)
  && bool_decide (raw self = []).

Definition i64_at (value : Value) (path : list string) : option Z := at_path value path ≫= as_i64.

(** [json!] of an optional integer that fits an [i64]. *)
Definition json_opt_i64 (n : option Z) : Value :=
  match n with
  | Some n => Number (match n with Zneg p => NegInt p | _ => PosInt n end)
  | None => Null
  end.

Definition compact_object (value : Value) : Value :=
  if negb (is_object value) then value
  else json_object ((λ k, (k, json_opt_str (string_at value [k]))) <$>
    ["id"; "cwd"; "model"; "model_provider"; "cli_version"; "effort"; "reasoning_effort"]).

Definition extract_codex_metadata (value : Value) : MetadataPatch :=
  let kind := default "" (codex_record_kind value) in
  let payload := default Null (get value "payload") in
  let s k := string_at payload [k] in
  let event t := bool_decide (kind = "event_msg") && bool_decide (s "type" = Some t) in
  let effort := or_else (s "reasoning_effort") (s "effort") in
  if bool_decide (kind = "session_meta") then
    mkPatch None (s "model_provider") None (s "cli_version") (s "cwd") None
      [("session_meta", compact_object payload)]
  else if bool_decide (kind = "turn_context") then
    mkPatch (s "model") None effort None (s "cwd") None [("turn_context", compact_object payload)]
  else if event "task_started" then
    let window := i64_at payload ["model_context_window"] in
    mkPatch None None None None None window
      [("task_started", json_object
         [("model_context_window", json_opt_i64 window);
          ("collaboration_mode_kind", json_opt_str (s "collaboration_mode_kind"))])]
  else if event "token_count" then
    let window := i64_at payload ["info"; "model_context_window"] in
    mkPatch None None None None None window
      [("token_count", json_object [("model_context_window", json_opt_i64 window)])]
  else if event "collab_agent_spawn_end" then
    mkPatch (s "model") None effort None None None
      [("collab_agent_spawn_end", json_object
         [("model", json_opt_str (s "model")); ("reasoning_effort", json_opt_str effort)])]
  else patch_default.

Definition extract_claude_metadata (value : Value) : MetadataPatch :=
  let m := keep (λ m, negb (bool_decide (m = "<synthetic>")))
             (or_else (string_at value ["message"; "model"]) (string_at value ["model"])) in
  let version := or_else (string_at value ["version"]) (string_at value ["cli_version"]) in
  let dir := string_at value ["cwd"] in
  mkPatch m None None version dir None
    (if is_some m || is_some version || is_some dir then
       [("claude", json_object
          [("type", json_opt_str (string_at value ["type"])); ("model", json_opt_str m);
           ("version", json_opt_str version); ("cwd", json_opt_str dir)])]
     else []).

Definition extract_metadata (agent : string) (value : Value) : MetadataPatch :=
  if bool_decide (agent = "codex") then extract_codex_metadata value
  else extract_claude_metadata value.

(** A row of [agent_session_metadata]: its agent and what was said last. *)
Record MetadataRow : Type := mkMetadata {
  md_agent : string;
  md : MetadataPatch;
  md_updated_at : Z;
}.

(** What a patch does not say stays. *)
Definition merge (new old : MetadataPatch) : MetadataPatch :=
  mkPatch (or_else (model new) (model old)) (or_else (model_provider new) (model_provider old))
    (or_else (reasoning_effort new) (reasoning_effort old))
    (or_else (cli_version new) (cli_version old)) (or_else (cwd new) (cwd old))
    (or_else (model_context_window new) (model_context_window old))
    (extend (raw old) (raw new)).

Definition metadata_upsert (agent : string) (value : Value) (now : Z) (row : option MetadataRow)
    : option MetadataRow :=
  let patch := extract_metadata agent value in
  if is_empty_patch patch then row
  else Some (mkMetadata agent
    (match row with Some old => merge patch (md old) | None => patch end) now).
