(* ===== verification/Activity.v ===== *)
(** * Activity of agents

    [activity.rs] and [ingest/activity_projection.rs]: what an agent is doing,
    as reported for the PTY it runs in and as read from its transcript. *)

From S2P Require Import Prelude Text Json Usage CodeMode Tools Canonical.

Inductive ActivityState : Type := Working | AwaitingPrompt | NeedsInput | Blocked | Unknown.

#[export] Instance ActivityState_eq_dec : EqDecision ActivityState.
Proof. solve_decision. Defined.

Definition activity_str (s : ActivityState) : string :=
  match s with
  | Working => "working" | AwaitingPrompt => "awaiting_prompt" | NeedsInput => "needs_input"
  | Blocked => "blocked" | Unknown => "unknown"
  end.

Record ActivityRecord : Type := mkActivity {
  act_state : string;
  act_summary : option string;
  act_reason : option string;
  act_source : string;
  act_confidence : string;
  act_updated_at : Z;
}.

#[export] Instance ActivityRecord_eq_dec : EqDecision ActivityRecord.
Proof. solve_decision. Defined.

(** The columns of [pty_sessions] the reports depend on. *)
Record PtySession : Type := mkPtySession {
  current_session_uuid : option string;
  pty_state : string;
  agent_runtime_state : string;
}.

(** [pty_sessions] and [session_activity_state], by PTY. *)
Record Terminals : Type := mkTerminals {
  ptys : gmap string PtySession;
  activity : gmap string ActivityRecord;
}.

Definition set_activity (a : gmap string ActivityRecord) (t : Terminals) : Terminals :=
  mkTerminals (ptys t) a.

(** ** Reports *)

Definition clean_optional (value : option string) (max_chars : nat) : option string :=
  value ← value;
  let value := trim value in
  if is_empty value then None else Some (take_chars max_chars value).

Definition validate_source (source : string) : res unit :=
  if bool_decide (source ∈ ["launcher"; "hook"; "ingester"; "agent"; "user"]) then Ok tt
  else bail ("invalid activity source: " +:+ source).

Definition validate_confidence (confidence : string) : res unit :=
  if bool_decide (confidence ∈ ["explicit"; "derived"; "unknown"]) then Ok tt
  else bail ("invalid activity confidence: " +:+ confidence).

(** What an agent asked for is not taken back by a prompt that waits. *)
Definition kept_report (old : ActivityRecord) (state : string) : bool :=
  bool_decide (act_source old = "agent")
  && bool_decide (act_state old ∈ ["needs_input"; "blocked"])
  && bool_decide (state = "awaiting_prompt").

(** The upsert both writers make. *)
Definition report (new : ActivityRecord) (old : option ActivityRecord) : ActivityRecord :=
  match old with
  | Some old => if kept_report old (act_state new) then old else new
  | None => new
  end.

Definition new_report (state : ActivityState) (summary reason : option string)
    (source confidence : string) (now : Z) : ActivityRecord :=
  mkActivity (activity_str state) (clean_optional summary 240) (clean_optional reason 500)
    source confidence now.

Definition activity_set (pty : string) (state : ActivityState) (summary reason : option string)
    (source confidence : string) (now : Z) (t : Terminals) : res (ActivityRecord * Terminals) :=
  _ ← validate_source source;
  _ ← validate_confidence confidence;
  let new := new_report state summary reason source confidence now in
  let live := match ptys t !! pty with
              | Some ps => bool_decide (pty_state ps = "live")
              | None => false
              end in
  let t := if live then set_activity (<[pty := report new (activity t !! pty)]> (activity t)) t else t in
  match activity t !! pty with
  | Some record => Ok (record, t)
  | None => bail ("live PTY session not found: " +:+ pty)
  end.

Definition activity_clear (pty : string) (t : Terminals) : Terminals :=
  set_activity (delete pty (activity t)) t.

(** The PTYs that run an agent session. *)
Definition runs (session : string) (ps : PtySession) : bool :=
  bool_decide (current_session_uuid ps = Some session)
  && bool_decide (pty_state ps = "live")
  && bool_decide (agent_runtime_state ps ∈ ["starting"; "running"]).

Definition set_for_current_agent_session (session : string) (state : ActivityState)
    (summary reason : option string) (source confidence : string) (now : Z) (t : Terminals)
    : res (bool * Terminals) :=
  _ ← validate_source source;
  _ ← validate_confidence confidence;
  let new := new_report state summary reason source confidence now in
  let takes (kv : string * PtySession) :=
    runs session kv.2
    && match activity t !! kv.1 with
       | Some old => negb (kept_report old (act_state new))
       | None => true
       end in
  let written := filter (λ kv, takes kv = true) (ptys t) in
  Ok (negb (bool_decide (written = ∅)),
      set_activity (((λ _, new) <$> written) ∪ activity t) t).

(** ** Transitions *)

Definition Transition : Type := ActivityState * option string * string.

Definition non_empty_prefix (value : string) : option string :=
  let value := trim value in
  if is_empty value then None else Some (take_chars 240 value).

Definition first_message_text (value : Value) : option string :=
  content ← at_path value ["message"; "content"];
  match content with
  | Str text => non_empty_prefix text
  | Array items =>
      head (omap (λ item,
        if negb (bool_decide (get_str item "type" = Some "text")) then None
        else get_str item "text" ≫= non_empty_prefix) items)
  | _ => None
  end.

Definition interactive_claude_tool (value : Value) : option string :=
  content ← at_path value ["message"; "content"] ≫= as_array;
  head (omap (λ item,
    if negb (bool_decide (get_str item "type" = Some "tool_use")) then None
    else
      name ← get_str item "name";
      if bool_decide (name ∈ ["ExitPlanMode"; "exitPlanMode"])
      then Some "Plan ready for review in the terminal"
      else if bool_decide (name = "AskUserQuestion") then
        let question :=
          questions ← at_path item ["input"; "questions"] ≫= as_array;
          question ← head questions;
          get_str question "question" in
        Some (match question with
              | Some question => "Question in the terminal: " +:+ question
              | None => "Question awaiting an answer in the terminal"
              end)
      else None) content).

Definition claude_transition (value : Value) : option Transition :=
  let ty := get_str value "type" in
  if is_some (claude_compaction_subtype value)
     || (bool_decide (ty = Some "user") && bool_decide (get_bool value "isMeta" = Some true))
  then None
  else if bool_decide (ty = Some "user") then Some (Working, first_message_text value, "derived")
  else if bool_decide (ty = Some "assistant") then
    interactive ← interactive_claude_tool value;
    Some (NeedsInput, Some interactive, "derived")
  else if bool_decide (ty = Some "system") then
    if bool_decide (get_str value "subtype" ∈ [Some "turn_duration"; Some "stop_hook_summary"])
    then Some (AwaitingPrompt, None, "derived") else None
  else None.

Definition codex_transition (value : Value) : option Transition :=
  let outer := default "" (codex_record_kind value) in
  let payload := get value "payload" in
  let subtype := default "" (payload ≫= (λ p, get_str p "type")) in
  if bool_decide (outer = "event_msg") then
    if bool_decide (subtype ∈ ["task_started"; "turn_started"]) then Some (Working, None, "explicit")
    else if bool_decide (subtype ∈ ["task_complete"; "turn_complete"; "turn_aborted"])
    then Some (AwaitingPrompt, None, "explicit")
    else None
  else if bool_decide (outer = "response_item") then
    if bool_decide (subtype ∈ ["custom_tool_call"; "function_call"]) then
      payload ← payload;
      let name := default "" (get_str payload "name") in
      let requests_input :=
        bool_decide (name = "request_user_input")
        || (bool_decide (name = "exec")
            && match get_str payload "input" with
               | Some code => contains "request_user_input" code
               | None => false
               end) in
      if requests_input then Some (NeedsInput, Some "Input requested in the terminal", "derived")
      else None
    else if bool_decide (subtype ∈ ["custom_tool_call_output"; "function_call_output"])
    then Some (Working, None, "derived")
    else None
  else None.

Definition transition (source : TranscriptSource) (value : Value) : option Transition :=
  match source with ClaudeCode => claude_transition value | Codex => codex_transition value end.

(** [project_from_event_best_effort]: its sources and confidences are valid,
    so only the database could fail. *)
Definition project_from_event (session : string) (source : TranscriptSource) (value : Value)
    (now : Z) (t : Terminals) : Terminals :=
  match transition source value with
  | None => t
  | Some (state, summary, confidence) =>
      match set_for_current_agent_session session state summary None "ingester" confidence now t with
      | Ok (_, t) => t
      | Err _ => t
      end
  end.

(** ** Repair *)

(** Walking back from an offset: the last transition, if the summary was seen
    on the way. The pages of 64 rows do not show. *)
Fixpoint before_compaction (found : bool) (summary : string) (rows : list UsageEvent)
    : option Transition :=
  match rows with
  | [] => None
  | e :: rows =>
      let found := found
        || bool_decide (claude_compaction_subtype (payload e) = Some "compact_summary")
           && bool_decide (first_message_text (payload e) = Some summary) in
      match claude_transition (payload e) with
      | Some t => if found then Some t else None
      | None => before_compaction found summary rows
      end
  end.

(** [events] is in offset order. *)
Definition activity_before_compaction (events : list UsageEvent) (through : Z) (summary : string)
    : option Transition :=
  before_compaction false summary
    (rev (filter (λ e, byte_offset e ≤ through ∧ Usage.kind e ∈ ["user"; "assistant"; "system"]) events)).

Definition max_offset (events : list UsageEvent) : option Z :=
  foldr (λ e m, match m with Some m => Some (Z.max (byte_offset e) m) | None => Some (byte_offset e) end)
    None events.

(** What the repair read of a PTY. *)
Record Candidate : Type := mkCandidate {
  cand_session : string;
  cand_updated_at : Z;
  cand_summary : string;
  cand_through : Z;
}.

Definition ingester_working (a : ActivityRecord) : bool :=
  bool_decide (act_source a = "ingester") && bool_decide (act_confidence a = "derived")
  && bool_decide (act_state a = "working").

Section repair.
Context (json_text : Value → string).

(** The agent and the events of each session. *)
Definition History : Type := string → TranscriptSource * list UsageEvent.

Definition candidate (history : History) (t : Terminals) (pty : string)
    : option Candidate :=
  ps ← ptys t !! pty;
  a ← activity t !! pty;
  session ← current_session_uuid ps;
  summary ← act_summary a;
  through ← max_offset (history session).2;
  if bool_decide ((history session).1 = ClaudeCode) && ingester_working a && runs session ps
     && existsb (λ e, bool_decide (pg_text json_text (get (payload e) "isCompactSummary") = Some "true"))
          (history session).2
  then Some (mkCandidate session (act_updated_at a) summary through)
  else None.

(** The update, on the tables as they are by then. *)
Definition apply_repair (history : History) (pty : string) (c : Candidate)
    (new : Transition) (now : Z) (t : Terminals) : Terminals :=
  match ptys t !! pty, activity t !! pty with
  | Some ps, Some a =>
      if runs (cand_session c) ps && ingester_working a
         && (act_updated_at a =? cand_updated_at c)
         && bool_decide (max_offset (history (cand_session c)).2 = Some (cand_through c))
      then
        let '(state, summary, confidence) := new in
        set_activity (<[pty := mkActivity (activity_str state) summary None (act_source a) confidence now]>
                        (activity t)) t
      else t
  | _, _ => t
  end.

(** One PTY of [repair_compaction_activity]: the tables may change between
    the two reads and the update. *)
Definition repair_pty (before after : Terminals * History) (pty : string) (now : Z)
    : Terminals :=
  match candidate before.2 before.1 pty with
  | None => after.1
  | Some c =>
      match activity_before_compaction (before.2 (cand_session c)).2 (cand_through c) (cand_summary c) with
      | None => after.1
      | Some new => apply_repair after.2 pty c new now after.1
      end
  end.
End repair.

(** ** The report that stands *)

(** ** Reports of the ingester *)

(** The row a transition writes. *)
Definition report_of (t : Transition) (now : Z) : ActivityRecord :=
  new_report t.1.1 t.1.2 None "ingester" t.2 now.


Lemma transition_confidence source value t : transition source value = Some t →
  t.2 ∈ ["derived"; "explicit"].
Proof.
  destruct source; cbn; [unfold claude_transition|unfold codex_transition]; intros H.
  - repeat match type of H with (if ?b then _ else _) = _ => destruct b end; try done;
      try (injection H as <-; set_solver).
    destruct (interactive_claude_tool value); [|done]. injection H as <-. set_solver.
  - repeat match type of H with (if ?b then _ else _) = _ => destruct b end; try done;
      try (injection H as <-; set_solver).
    destruct (get value "payload"); [|done]. cbn [mbind option_bind] in H.
    repeat match type of H with (if ?b then _ else _) = _ => destruct b end; try done.
    injection H as <-. set_solver.
Qed.

Lemma confidence_valid c : c ∈ ["derived"; "explicit"] → validate_confidence c = Ok tt.
Proof. intros Hc. unfold validate_confidence. rewrite bool_decide_true; [done|set_solver]. Qed.

(** The PTYs a report is written for. *)
Definition takes (session state : string) (ts : Terminals) (kv : string * PtySession) : bool :=
  runs session kv.2
  && match activity ts !! kv.1 with
     | Some old => negb (kept_report old state)
     | None => true
     end.

Lemma project_eq session source value now ts :
  project_from_event session source value now ts =
  match transition source value with
  | None => ts
  | Some t =>
      set_activity (((λ _, report_of t now) <$>
        filter (λ kv, takes session (act_state (report_of t now)) ts kv = true) (ptys ts)) ∪ activity ts) ts
  end.
Proof.
  unfold project_from_event. destruct (transition source value) as [[[state summary] c]|] eqn:E; [|done].
  apply transition_confidence in E. cbn in E. unfold set_for_current_agent_session.
  by rewrite (confidence_valid c E).
Qed.

(** A report reaches the PTYs that run the session, and no other. *)
Lemma lookup_project session source value now ts pty :
  activity (project_from_event session source value now ts) !! pty =
  match transition source value, ptys ts !! pty with
  | Some t, Some ps =>
      if runs session ps then Some (report (report_of t now) (activity ts !! pty))
      else activity ts !! pty
  | _, _ => activity ts !! pty
  end.
Proof.
  rewrite project_eq. destruct (transition source value) as [t|]; [|done]. cbn [activity set_activity].
  set (new := report_of t now). clearbody new. rewrite lookup_union, lookup_fmap.
  destruct (ptys ts !! pty) as [ps|] eqn:Hp.
  - destruct (takes session (act_state new) ts (pty, ps)) eqn:Ht.
    + rewrite (map_lookup_filter_Some_2 _ _ pty ps) by done. unfold takes in Ht. cbn in Ht.
      apply andb_true_iff in Ht as [-> Hk]. cbn. unfold report.
      destruct (activity ts !! pty) as [old|]; [|done]. apply negb_true_iff in Hk. by rewrite Hk.
    + rewrite map_lookup_filter_None_2.
      * unfold takes in Ht. cbn in *. rewrite (left_id None _).
        destruct (runs session ps); [|done]. cbn in Ht. unfold report.
        destruct (activity ts !! pty) as [old|]; [|done]. apply negb_false_iff in Ht. by rewrite Ht.
      * right. intros x Hx. rewrite Hp in Hx. injection Hx as <-. by rewrite Ht.
  - rewrite map_lookup_filter_None_2 by (by left). by rewrite (left_id None _).
Qed.

Lemma ptys_project session source value now ts :
  ptys (project_from_event session source value now ts) = ptys ts.
Proof. rewrite project_eq. by case_match. Qed.

(** ** A list of records *)

Definition project_all (session : string) (source : TranscriptSource) (records : list (Value * Z))
    (ts : Terminals) : Terminals :=
  foldl (λ ts r, project_from_event session source r.1 r.2 ts) ts records.

(** The reports of the records, in order. *)
Definition reports (source : TranscriptSource) (records : list (Value * Z)) : list ActivityRecord :=
  omap (λ r, (λ t, report_of t r.2) <$> transition source r.1) records.

(** An agent that asked for something. *)
Definition asks (old : ActivityRecord) : bool :=
  bool_decide (act_source old = "agent") && bool_decide (act_state old ∈ ["needs_input"; "blocked"]).

Definition awaits (r : ActivityRecord) : bool := bool_decide (act_state r = "awaiting_prompt").

(** What an agent asked for outlasts reports that it waits; otherwise the last
    report stands. *)
Definition standing (old : option ActivityRecord) (rs : list ActivityRecord) : option ActivityRecord :=
  let rs := match old with
            | Some old => if asks old then drop_while awaits rs else rs
            | None => rs
            end in
  or_else (last rs) old.

Lemma kept_asks old state : kept_report old state = asks old && bool_decide (state = "awaiting_prompt").
Proof. done. Qed.

Lemma reports_not_agent source records r : r ∈ reports source records → asks r = false.
Proof.
  unfold reports. intros ([v now] & _ & H)%list_elem_of_omap. cbn in H.
  destruct (transition source v); [|done]. by injection H as <-.
Qed.

Lemma standing_cons old r rs : Forall (λ r, asks r = false) (r :: rs) →
  standing (Some (report r old)) rs = standing old (r :: rs).
Proof.
  intros [Hr Hrs]%Forall_cons. unfold standing, report. destruct old as [old|].
  - rewrite kept_asks. change (bool_decide (act_state r = "awaiting_prompt")) with (awaits r).
    destruct (asks old) eqn:Ho; cbn [andb drop_while]; [destruct (awaits r)|];
      rewrite ?Ho, ?Hr, ?last_cons; try done; by destruct (last rs).
  - rewrite Hr, last_cons. by destruct (last rs).
Qed.

Lemma last_report source (events : list UsageEvent) clock t :
  last (omap (λ e, transition source (payload e)) events) = Some t →
  ∃ now, last (reports source ((λ e, (payload e, clock e)) <$> events)) = Some (report_of t now).
Proof.
  induction events as [|e events IH] using rev_ind; [done|].
  unfold reports. rewrite fmap_app, !omap_app.
  change (omap (λ e, transition source (payload e)) [e]) with
    (match transition source (payload e) with Some y => [y] | None => [] end).
  change (omap (λ r, (λ t, report_of t r.2) <$> transition source r.1) ((λ e, (payload e, clock e)) <$> [e])) with
    (match (λ t, report_of t (clock e)) <$> transition source (payload e) with Some y => [y] | None => [] end).
  destruct (transition source (payload e)) as [t'|]; cbn.
  - rewrite !last_snoc. intros [= ->]. by eexists.
  - rewrite !app_nil_r. exact IH.
Qed.

Lemma project_all_standing session source records ts pty ps :
  ptys ts !! pty = Some ps → runs session ps = true →
  activity (project_all session source records ts) !! pty =
  standing (activity ts !! pty) (reports source records).
Proof.
  intros Hp Hr. unfold project_all. revert ts Hp. induction records as [|[v now] records IH]; intros ts Hp.
  - unfold standing. cbn. destruct (activity ts !! pty) as [old|]; [|done]. by destruct (asks old).
  - cbn [foldl fst snd]. rewrite IH by by rewrite ptys_project. rewrite lookup_project, Hp, Hr.
    destruct (transition source v) as [t|] eqn:E.
    + assert (Hrs : reports source ((v, now) :: records) = report_of t now :: reports source records).
      { unfold reports. cbn. by rewrite E. }
      rewrite Hrs, standing_cons; [done|]. rewrite <-Hrs. apply Forall_forall. apply reports_not_agent.
    + assert (Hrs : reports source ((v, now) :: records) = reports source records).
      { unfold reports. cbn. by rewrite E. }
      by rewrite Hrs.
Qed.

Lemma project_all_others session source records ts pty :
  match ptys ts !! pty with Some ps => runs session ps = false | None => True end →
  activity (project_all session source records ts) !! pty = activity ts !! pty.
Proof.
  intros Hp. unfold project_all. revert ts Hp. induction records as [|[v now] records IH]; intros ts Hp; [done|].
  cbn [foldl fst snd]. rewrite IH by by rewrite ptys_project. rewrite lookup_project.
  destruct (transition source v); [|done]. destruct (ptys ts !! pty); [|done]. by rewrite Hp.
Qed.

(** ** Repair *)

Lemma before_compaction_head found summary rows t :
  before_compaction found summary rows = Some t →
  head (omap (λ e, claude_transition (payload e)) rows) = Some t.
Proof.
  revert found. induction rows as [|e rows IH]; intros found; [done|].
  cbn [before_compaction]. cbv zeta. intros H.
  change (omap (λ e, claude_transition (payload e)) (e :: rows)) with
    (match claude_transition (payload e) with
     | Some t => t :: omap (λ e, claude_transition (payload e)) rows
     | None => omap (λ e, claude_transition (payload e)) rows end).
  destruct (claude_transition (payload e)) as [t'|]; [|by eapply IH].
  destruct (_ || _); [|done]. exact H.
Qed.

Lemma claude_transition_type v t : claude_transition v = Some t →
  default "unknown" (get v "type" ≫= as_str) ∈ ["user"; "assistant"; "system"].
Proof.
  unfold claude_transition. change (get v "type" ≫= as_str) with (get_str v "type").
  destruct (is_some _ || _); [done|].
  destruct (bool_decide_reflect (get_str v "type" = Some "user")) as [->|]; [set_solver|].
  destruct (bool_decide_reflect (get_str v "type" = Some "assistant")) as [->|]; [set_solver|].
  destruct (bool_decide_reflect (get_str v "type" = Some "system")) as [->|]; [set_solver|done].
Qed.

Lemma head_omap_rev {A B} (f : A → option B) (l : list A) : head (omap f (rev l)) = last (omap f l).
Proof.
  induction l as [|x l IH] using rev_ind; [done|]. rewrite rev_unit, omap_app.
  change (omap f (x :: rev l)) with
    (match f x with Some y => y :: omap f (rev l) | None => omap f (rev l) end).
  change (omap f [x]) with (match f x with Some y => [y] | None => [] end).
  destruct (f x); [by rewrite last_snoc|]. by rewrite app_nil_r.
Qed.

Lemma omap_filter {A B} (f : A → option B) (P : A → Prop) `{∀ a, Decision (P a)} (l : list A) :
  (∀ x y, x ∈ l → f x = Some y → P x) → omap f (filter P l) = omap f l.
Proof.
  induction l as [|x l IH]; intros HP; [done|]. rewrite filter_cons.
  assert (Hrest : omap f (filter P l) = omap f l).
  { apply IH. intros y z Hy. apply HP. by right. }
  destruct (decide (P x)) as [Hx|Hx]; cbn; [by rewrite Hrest|].
  destruct (f x) as [y|] eqn:E; [|done]. destruct Hx. eapply HP; [by left|exact E].
Qed.

Lemma max_offset_ge events m e : max_offset events = Some m → e ∈ events → byte_offset e ≤ m.
Proof.
  revert m. induction events as [|x events IH]; intros m; [by intros _ ?%elem_of_nil|].
  change (max_offset (x :: events)) with
    (match max_offset events with Some m => Some (Z.max (byte_offset x) m) | None => Some (byte_offset x) end).
  destruct (max_offset events) as [k|] eqn:E; intros [= <-] [->|He]%elem_of_cons; try lia.
  - specialize (IH k eq_refl He). lia.
  - destruct events as [|y events]; [by apply elem_of_nil in He|]. unfold max_offset in E. cbn in E.
    by case_match.
Qed.

(** The events of a Claude Code session are stored with the kind they name. *)
Definition kinds_named (events : list UsageEvent) : Prop :=
  Forall (λ e, Usage.kind e = stored_event_kind ClaudeCode (payload e)) events.

Lemma repaired_transition events through summary t : kinds_named events →
  max_offset events = Some through →
  activity_before_compaction events through summary = Some t →
  last (omap (λ e, claude_transition (payload e)) events) = Some t.
Proof.
  intros Hk Hm H. apply before_compaction_head in H. rewrite head_omap_rev in H.
  rewrite omap_filter in H; [done|]. intros e t' He Ht. split; [by eapply max_offset_ge|].
  eapply Forall_forall in Hk; [|exact He]. rewrite Hk. by eapply claude_transition_type.
Qed.

Section repair.
Context (json_text : Value → string).

Lemma candidate_Some history ts pty c : candidate json_text history ts pty = Some c →
  ∃ ps a, ptys ts !! pty = Some ps ∧ activity ts !! pty = Some a ∧ runs (cand_session c) ps = true ∧
    ingester_working a = true ∧ act_updated_at a = cand_updated_at c ∧
    (history (cand_session c)).1 = ClaudeCode ∧
    max_offset (history (cand_session c)).2 = Some (cand_through c).
Proof.
  unfold candidate. intros H.
  destruct (ptys ts !! pty) as [ps|] eqn:Hp; [|done]. cbn in H.
  destruct (activity ts !! pty) as [a|] eqn:Ha; [|done]. cbn in H.
  destruct (current_session_uuid ps) as [s|] eqn:Hs; [|done]. cbn in H.
  destruct (act_summary a) as [sm|]; [|done]. cbn in H.
  destruct (max_offset (history s).2) as [m|] eqn:Hm; [|done]. cbn in H.
  destruct (bool_decide_reflect ((history s).1 = ClaudeCode)) as [Hc|]; [|done].
  destruct (ingester_working a) eqn:Hw; [|done]. destruct (runs s ps) eqn:Hr; [|done].
  cbn [andb] in H. destruct (existsb _ _); [|done]. injection H as <-. by exists ps, a.
Qed.

(** A repair on unchanged tables. *)
Lemma repair_unchanged history ts pty now c t :
  candidate json_text history ts pty = Some c →
  activity_before_compaction (history (cand_session c)).2 (cand_through c) (cand_summary c) = Some t →
  activity (repair_pty json_text (ts, history) (ts, history) pty now) !! pty =
  Some (mkActivity (activity_str t.1.1) t.1.2 None "ingester" t.2 now).
Proof.
  intros Hc Hb. unfold repair_pty. cbn [fst snd]. rewrite Hc, Hb.
  apply candidate_Some in Hc as (ps & a & Hp & Ha & Hr & Hw & Hu & _ & Hm).
  unfold apply_repair. rewrite Hp, Ha, Hr, Hw, Hu, Z.eqb_refl, bool_decide_true by done.
  destruct t as [[state summary] confidence]. cbn. rewrite lookup_insert_eq.
  unfold ingester_working in Hw. apply andb_true_iff in Hw as [Hw _].
  apply andb_true_iff in Hw as [Hs _]. apply bool_decide_eq_true in Hs. by rewrite Hs.
Qed.

(** Whatever changed in between wins. *)
Lemma repair_changed (before after : Terminals * History) pty now c :
  candidate json_text before.2 before.1 pty = Some c →
  (∀ ps, ptys after.1 !! pty = Some ps → current_session_uuid ps ≠ Some (cand_session c)) ∨
  (∀ a, activity after.1 !! pty = Some a → act_updated_at a ≠ cand_updated_at c) ∨
  max_offset (after.2 (cand_session c)).2 ≠ Some (cand_through c) →
  repair_pty json_text before after pty now = after.1.
Proof.
  intros Hc Hch. unfold repair_pty. rewrite Hc.
  destruct (activity_before_compaction _ _ _) as [t|]; [|done]. unfold apply_repair.
  destruct (ptys after.1 !! pty) as [ps|] eqn:Hp; [|done].
  destruct (activity after.1 !! pty) as [a|] eqn:Ha; [|done].
  destruct (runs (cand_session c) ps) eqn:Hr; [|done]. cbn [andb].
  destruct (ingester_working a); [|done]. cbn [andb].
  destruct (Z.eqb_spec (act_updated_at a) (cand_updated_at c)); [|done]. cbn [andb].
  destruct (bool_decide_reflect (max_offset (after.2 (cand_session c)).2 = Some (cand_through c))); [|done].
  exfalso. destruct Hch as [Hch|[Hch|Hch]].
  - unfold runs in Hr. apply andb_true_iff in Hr as [Hr _]. apply andb_true_iff in Hr as [Hr _].
    apply bool_decide_eq_true in Hr. by eapply Hch.
  - by eapply Hch.
  - done.
Qed.
End repair.
