(* ===== verification/EventStore.v ===== *)
(** * Events as they are stored

    [ingest/ingester/insert.rs], the rewriting of [canonical_backfill.rs],
    [replay.rs] and [load_event_blocks] of [ingest/timeline/load.rs]: the rows
    a line leaves behind, and the blocks read back from them. The tables are
    those of one session. *)

From S2P Require Import Prelude Text Json Events Usage ModelSwitch Ingester Store CodeMode Tools Canonical Lineage Metadata Activity.

(** ** Rows *)

Record EventRow : Type := mkEventRow {
  er_timestamp : Z;
  er_kind : string;
  er_payload : Value;
  er_agent : string;
  er_speaker : string;
  er_content_kind : string;
  er_event_uuid : option string;
  er_parent_event_uuid : option string;
  er_related_tool_use_id : option string;
  er_is_sidechain : bool;
  er_is_meta : bool;
  er_subtype : option string;
  er_search_text : string;
}.

Record BlockRow : Type := mkBlockRow {
  br_kind : string;
  br_text : option string;
  br_tool_id : option string;
  br_tool_name : option string;
  br_tool_name_canonical : option string;
  br_tool_input : option Value;
  br_tool_output : option Value;
  br_is_error : option bool;
  br_raw : option Value;
}.

(** A row of [retrieval_embedding_sources] whose family is [event_block]; its
    key names the session, the offset and the block. *)
Record EmbeddingSource : Type := mkSource {
  es_kind : string;
  es_content_hash : string;
  es_status : string;
  es_deleted : bool;
}.

Record SessionTables : Type := mkTables {
  t_events : gmap Z EventRow;
  t_blocks : gmap key2 BlockRow;
  t_sources : gmap key2 EmbeddingSource;
  t_embeddings : gset key2;
  t_usage : UsageDb;
  t_parent : option string;
  t_metadata : option MetadataRow;
  t_world : World;
  t_terminals : Terminals;
}.

Definition with_events f t := mkTables (f (t_events t)) (t_blocks t) (t_sources t) (t_embeddings t) (t_usage t) (t_parent t) (t_metadata t) (t_world t) (t_terminals t).
Definition with_blocks f t := mkTables (t_events t) (f (t_blocks t)) (t_sources t) (t_embeddings t) (t_usage t) (t_parent t) (t_metadata t) (t_world t) (t_terminals t).
Definition with_sources f g t := mkTables (t_events t) (t_blocks t) (f (t_sources t)) (g (t_embeddings t)) (t_usage t) (t_parent t) (t_metadata t) (t_world t) (t_terminals t).
Definition with_usage u t := mkTables (t_events t) (t_blocks t) (t_sources t) (t_embeddings t) u (t_parent t) (t_metadata t) (t_world t) (t_terminals t).
Definition with_parent p t := mkTables (t_events t) (t_blocks t) (t_sources t) (t_embeddings t) (t_usage t) p (t_metadata t) (t_world t) (t_terminals t).
Definition with_projections m w a t := mkTables (t_events t) (t_blocks t) (t_sources t) (t_embeddings t) (t_usage t) (t_parent t) m w a.

Definition content_kind_str (k : ContentKind) : string :=
  match k with
  | CkNone => "none" | CkText => "text" | CkThinking => "thinking" | CkToolUse => "tool_use"
  | CkToolResult => "tool_result" | CkMixed => "mixed"
  end.

Definition block_kind_str (k : BlockKind) : string :=
  match k with
  | BText => "text" | BThinking => "thinking" | BToolUse => "tool_use"
  | BToolResult => "tool_result" | BUnknown => "unknown"
  end.

Definition block_kind_parse (s : string) : BlockKind :=
  if bool_decide (s = "text") then BText
  else if bool_decide (s = "thinking") then BThinking
  else if bool_decide (s = "tool_use") then BToolUse
  else if bool_decide (s = "tool_result") then BToolResult
  else BUnknown.

Definition row_of_block (b : Block) : BlockRow :=
  mkBlockRow (block_kind_str (Events.kind b)) (Events.text b) (tool_id b) (tool_name b) (tool_name_canonical b)
    (tool_input b) (tool_output b) (block_is_error b) (Events.raw b).

(** The columns of [events] the usage accounting and the lineage read. *)
Definition usage_event (offset : Z) (row : EventRow) : UsageEvent :=
  mkUsageEvent offset (er_timestamp row) (er_kind row) (er_subtype row) (er_payload row).

Definition event_list (events : gmap Z EventRow) : list UsageEvent :=
  omap (λ offset, usage_event offset <$> events !! offset) (sorted_ids (dom events)).

(** ** Embedding sources *)

Definition event_embedding_source (speaker : Speaker) (b : Block) : option (string * string) :=
  match speaker, Events.kind b with
  | SpAssistant, BText => text ← Events.text b; Some ("assistant_text", text)
  | SpUser, BText => text ← Events.text b; Some ("user_prompt", text)
  | SpSummary, BText => text ← Events.text b; Some ("summary", text)
  | _, BToolResult =>
      if default false (block_is_error b) then text ← Events.text b; Some ("tool_error", text) else None
  | _, _ => None
  end.

Definition mark_embedding_source_deleted (key : key2) : SessionTables → SessionTables :=
  with_sources (alter (λ s, mkSource (es_kind s) (es_content_hash s) "deleted" true) key)
    (λ e, e ∖ {[key]}).

Section store.
Context (hash_text : string → string).

Definition enqueue_event_embedding_source (offset : Z) (speaker : Speaker) (b : Block)
    : SessionTables → SessionTables :=
  let key := (offset, ord b) in
  match event_embedding_source speaker b with
  | None => mark_embedding_source_deleted key
  | Some (source_kind, text) =>
      let text := trim text in
      if is_empty text then mark_embedding_source_deleted key
      else with_sources (<[key := mkSource source_kind (hash_text text) "pending" false]>) id
  end.

Definition insert_block (offset : Z) (speaker : Speaker) (t : SessionTables) (b : Block) : SessionTables :=
  enqueue_event_embedding_source offset speaker b
    (with_blocks (<[(offset, ord b) := row_of_block b]>) t).

Definition insert_blocks (offset : Z) (speaker : Speaker) (blocks : list Block) (t : SessionTables)
    : SessionTables :=
  foldl (insert_block offset speaker) t blocks.

(** ** Inserting a line *)

Context (json_text : Value → string) (parse_uuid : string → option string).
Context (parse_json : list Ascii.ascii → option Value) (parse_rfc3339 : string → option Z).
Context `{T : TreeSitter} `{J : SerdeText}.

Definition event_row (timestamp : Z) (kind : string) (value : Value) (e : CanonicalEvent) : EventRow :=
  mkEventRow timestamp kind value (ce_agent e) (speaker_str (ce_speaker e))
    (content_kind_str (ce_content_kind e)) (ce_event_uuid e) (ce_parent_event_uuid e)
    (ce_related_tool_use_id e) (ce_is_sidechain e) (ce_is_meta e) (ce_subtype e) (search_text e).

Definition parse_event_timestamp (value : Value) : option Z :=
  (or_else (get value "timestamp") (get value "ts") ≫= as_str) ≫= parse_rfc3339.

(** What a line needs of its surroundings. *)
Record LineEnv : Type := mkLine {
  le_session : string;
  le_source : TranscriptSource;
  le_now : Z;
  le_switch_id : string;
  le_subagent_tool_use_id : option string;
  le_fallback_timestamp : option Z;
}.

Definition insert_event_derivatives (env : LineEnv) (offset timestamp : Z) (value : Value)
    (parsed : CanonicalEvent) (t : SessionTables) : res SessionTables :=
  if bool_decide (ce_subtype parsed = Some "inherited_history") then Ok t
  else
    let t := match ce_blocks parsed with
             | [] => t
             | blocks => insert_blocks offset (ce_speaker parsed) blocks t
             end in
    usage ← upsert_from_event json_text (event_list (t_events t)) (le_source env) offset timestamp value
              (t_usage t);
    Ok (with_usage usage t).

(** Each projection that fails is logged and leaves its rows. *)
Definition project_after_insert (env : LineEnv) (value : Value) (offset timestamp : Z)
    (t : SessionTables) : SessionTables :=
  let agent := agent_id (le_source env) in
  let world := match observe_event (event_list (t_events t)) (le_switch_id env) (le_session env)
                       agent value offset timestamp (t_world t) with
               | Ok (_, w) => w
               | Err _ => t_world t
               end in
  with_projections (metadata_upsert agent value (le_now env) (t_metadata t)) world
    (project_from_event (le_session env) (le_source env) value (le_now env) (t_terminals t)) t.

(** Only the first parent found is kept. *)
Definition set_parent_session (parent : string) (t : SessionTables) : SessionTables :=
  match t_parent t with Some _ => t | None => with_parent (Some parent) t end.

Definition link_parent_session (env : LineEnv) (value : Value) (t : SessionTables) : SessionTables :=
  match parent_session parse_uuid (le_source env) value (le_session env) with
  | Some parent => set_parent_session parent t
  | None => t
  end.

(** The [subagent_tool_use_id] claims a record no tool call claims. *)
Definition claim_related (id : option string) (e : CanonicalEvent) : CanonicalEvent :=
  match id, ce_related_tool_use_id e with
  | Some id, None => with_related (Some id) e
  | _, _ => e
  end.

(** [insert_event], of a line that is a JSON value. *)
Definition insert_value (env : LineEnv) (offset : Z) (value : Value)
    (codex_ctx : option CodexSessionContext) (t : SessionTables)
    : res (bool * option CodexSessionContext * SessionTables) :=
  parsed ← parse_canonical_event (agent_id (le_source env)) value (le_session env) offset codex_ctx;
  let parsed := claim_related (le_subagent_tool_use_id env) parsed in
  let kind := stored_event_kind (le_source env) value in
  let timestamp := default (le_now env) (or_else (parse_event_timestamp value) (le_fallback_timestamp env)) in
  let inserted := is_none (t_events t !! offset) in
  t ← (if inserted
       then insert_event_derivatives env offset timestamp value parsed
              (with_events (<[offset := event_row timestamp kind value parsed]>) t)
       else Ok t);
  let t := if inserted && negb (bool_decide (ce_subtype parsed = Some "inherited_history"))
           then project_after_insert env value offset timestamp t else t in
  Ok (inserted, (λ ctx, update_codex_context ctx value (le_session env)) <$> codex_ctx,
      link_parent_session env value t).

(** A line: blank, malformed, or a value. *)
Definition insert_line (env : LineEnv) (offset : Z) (line : list Ascii.ascii)
    (codex_ctx : option CodexSessionContext) (t : SessionTables)
    : res (option bool * option CodexSessionContext * SessionTables) :=
  if forallb is_ascii_whitespace line then Ok (Some false, codex_ctx, t)
  else match parse_json line with
       | None => Ok (None, codex_ctx, t)
       | Some value =>
           r ← insert_value env offset value codex_ctx t;
           let '(inserted, ctx, t) := r in
           Ok (Some inserted, ctx, t)
       end.

(** ** Passes over lines *)

(** The context a pass starts with: [load_codex_context] for Codex. *)
Definition pass_context (env : LineEnv) (t : SessionTables) : option CodexSessionContext :=
  match le_source env with
  | Codex => Some (load_codex_context json_text (event_list (t_events t)) (le_session env))
  | ClaudeCode => None
  end.

(** The loop of [ingest_file] over the complete lines of its window. *)
Definition insert_step (env : LineEnv) (st : option CodexSessionContext * SessionTables)
    (line : Z * Value) : res (option CodexSessionContext * SessionTables) :=
  r ← insert_value env line.1 line.2 st.1 st.2;
  Ok (r.1.2, r.2).

Definition insert_values (env : LineEnv) (lines : list (Z * Value))
    (st : option CodexSessionContext * SessionTables) : res (option CodexSessionContext * SessionTables) :=
  try_fold (insert_step env) lines st.

(** One pass over lines that are values. *)
Definition pass (env : LineEnv) (t : SessionTables) (lines : list (Z * Value)) : res SessionTables :=
  st ← insert_values env lines (pass_context env t, t);
  Ok st.2.

Record ReplayLine : Type := mkReplayLine {
  rl_byte_offset : Z;
  rl_timestamp : Z;
  rl_related_tool_use_id : option string;
  rl_payload : list Ascii.ascii;
}.

Record ReplayStats : Type := mkStats {
  events_inserted : Z;
  parse_errors : Z;
}.

Definition replay_line (env : LineEnv)
    (st : ReplayStats * option CodexSessionContext * SessionTables) (line : ReplayLine)
    : res (ReplayStats * option CodexSessionContext * SessionTables) :=
  let '(stats, ctx, t) := st in
  let env := mkLine (le_session env) (le_source env) (le_now env) (le_switch_id env)
               (rl_related_tool_use_id line) (Some (rl_timestamp line)) in
  r ← insert_line env (rl_byte_offset line) (rl_payload line) ctx t;
  let '(inserted, ctx, t) := r in
  Ok (match inserted with
      | Some true => mkStats (events_inserted stats + 1) (parse_errors stats)
      | Some false => stats
      | None => mkStats (events_inserted stats) (parse_errors stats + 1)
      end, ctx, t).

(** [replay_session_lines]; the rebuild of the projection that follows is that
    of the timeline. *)
Definition replay_session_lines (env : LineEnv) (lines : list ReplayLine) (t : SessionTables)
    : res (ReplayStats * SessionTables) :=
  st ← try_fold (replay_line env) lines (mkStats 0 0, pass_context env t, t);
  Ok (st.1.1, st.2).

(** ** Rewriting *)

Definition rewrite_canonical_event (offset : Z) (parsed : CanonicalEvent) (t : SessionTables)
    : SessionTables :=
  let t := with_events (alter (λ row, event_row (er_timestamp row) (er_kind row) (er_payload row)
             (mkCanonical (er_agent row) (ce_speaker parsed) (ce_content_kind parsed)
                (ce_event_uuid parsed) (ce_parent_event_uuid parsed) (ce_related_tool_use_id parsed)
                (ce_is_sidechain parsed) (ce_is_meta parsed) (ce_subtype parsed) (ce_blocks parsed)))
             offset) t in
  let t := with_blocks (filter (λ kv, kv.1.1 ≠ offset)) t in
  insert_blocks offset (ce_speaker parsed) (ce_blocks parsed) t.

(** One row of [repair_codex_session]. *)
Definition repair_row (session : string) (now : Z) (st : CodexSessionContext * SessionTables)
    (row : Z * EventRow) : res (CodexSessionContext * SessionTables) :=
  let '(ctx, t) := st in
  let '(offset, row) := row in
  parsed ← parse_canonical_event (er_agent row) (er_payload row) session offset (Some ctx);
  let t := rewrite_canonical_event offset parsed t in
  let t := if bool_decide (ce_subtype parsed = Some "inherited_history") then t
           else with_projections (metadata_upsert (er_agent row) (er_payload row) now (t_metadata t))
                  (t_world t) (t_terminals t) t in
  let t := match detect_codex_parent_session parse_uuid (er_payload row) session with
           | Some parent => set_parent_session parent t
           | None => t
           end in
  Ok (update_codex_context ctx (er_payload row) session, t).

Definition repair_codex_session (session : string) (now : Z) (t : SessionTables) : res SessionTables :=
  let rows := omap (λ offset, pair offset <$> t_events t !! offset) (sorted_ids (dom (t_events t))) in
  st ← try_fold (repair_row session now) rows (context_new session, t);
  Ok st.2.
End store.

(** ** Reading blocks back *)

Record CategoryRule : Type := mkRule {
  match_kind : string;
  pattern : string;
  rule_operation_type : string;
  rule_category : string;
  precedence : Z;
}.

(** SQL's [LIKE]: an underscore stands for any character. *)
Fixpoint like (p s : list string) : bool :=
  match p with
  | [] => bool_decide (s = [])
  | c :: p =>
      if bool_decide (c = "%") then
        (fix any (s : list string) : bool :=
           like p s || match s with [] => false | _ :: s => any s end) s
      else match s with
           | [] => false
           | d :: s => (bool_decide (c = "_") || bool_decide (c = d)) && like p s
           end
  end.

Definition rule_applies (name : string) (r : CategoryRule) : bool :=
  (bool_decide (match_kind r = "exact") && bool_decide (pattern r = name))
  || (bool_decide (match_kind r = "prefix") && like (chars (pattern r +:+ "%")) (chars name)).

Definition by_precedence (a b : CategoryRule) : Prop := precedence a ≤ precedence b.

#[export] Instance by_precedence_dec a b : Decision (by_precedence a b).
Proof. unfold by_precedence. apply _. Defined.

(** [ORDER BY r.precedence ASC LIMIT 1]; the table breaks ties. *)
Definition category_rule (rules : list CategoryRule) (name : string) : option CategoryRule :=
  head (merge_sort by_precedence (List.filter (rule_applies name) rules)).

(** The [?] operator of [jsonb]. *)
Definition has_key (v : option Value) (k : string) : bool :=
  match v with
  | Some (Object m) => is_some (obj_get k m)
  | Some (Array l) => existsb (λ x, bool_decide (as_str x = Some k)) l
  | Some (Str s) => bool_decide (s = k)
  | _ => false
  end.

Section load.
Context (rules : list CategoryRule).
(** [plan_commands::project]: the input, operation type and category of a
    call that runs plan commands. *)
Context (project : Value → option string → option OperationCategory →
                   Value * option string * option OperationCategory).

Definition block_operation (row : BlockRow) : option string * option OperationCategory :=
  if negb (bool_decide (br_kind row = "tool_use")) then (None, None)
  else
    let name := rsplit_first (Ascii.ascii_of_nat 46)
                  (default "" (or_else (br_tool_name_canonical row) (br_tool_name row))) in
    let rule := category_rule rules name in
    let edits := has_key (br_tool_input row) "file_edits" in
    let operation_type :=
      if edits && bool_decide (name = "exec") then "apply_patch"
      else default name (rule_operation_type <$> rule) in
    let category :=
      if edits then "create_content"
      else if bool_decide (default "" (br_tool_name row) = "exec")
              && (has_key (br_tool_input row) "cmd" || has_key (br_tool_input row) "command")
              && is_none rule then "utility"
      else default "other" (rule_category <$> rule) in
    (Some operation_type, OperationCategories.parse category).

Definition block_of_row (ord : Z) (row : BlockRow) : Block :=
  let k := block_kind_parse (br_kind row) in
  let '(op, cat) := block_operation row in
  let '(input, op, cat) :=
    match k, br_tool_input row with
    | BToolUse, Some input => let '(input, op, cat) := project input op cat in (Some input, op, cat)
    | _, input => (input, op, cat)
    end in
  mkBlock ord k (br_text row) (br_tool_id row) (br_tool_name row) (br_tool_name_canonical row)
    op cat input (br_tool_output row) (br_is_error row) None.

Definition load_event_blocks (offset : Z) (blocks : gmap key2 BlockRow) : list Block :=
  let at_offset := sorted_keys (filter (λ k, k.1 = offset) (dom blocks)) in
  omap (λ k, block_of_row k.2 <$> blocks !! k) at_offset.
End load.
