(* ===== verification/LineageInv.v ===== *)
(** * Lineage across passes

    The context a pass loads from the rows is the one the lines before it
    left, so where a pass ends does not show in what is stored; and rewriting
    a session stores what inserting it did. *)

From S2P Require Import Prelude Text Json Events Usage ModelSwitch Ingester CodeMode Tools Canonical CanonicalInv Lineage Metadata Activity EventStore.

(** ** The list of rows *)

Lemma sorted_ids_insert o (s : gset Z) : (∀ x, x ∈ s → x < o) →
  sorted_ids ({[o]} ∪ s) = sorted_ids s ++ [o].
Proof.
  intros Hs. apply (StronglySorted_unique Z.le).
  - apply (StronglySorted_merge_sort _).
  - assert (Hl : ∀ l, StronglySorted Z.le l → Forall (λ x, x < o) l → StronglySorted Z.le (l ++ [o])).
    { induction 1 as [|x l Hss IH Hall]; intros Hlt; cbn; [by repeat constructor|].
      apply Forall_cons in Hlt as [Hx Hlt]. constructor; [by apply IH|].
      apply Forall_app. split; [done|]. repeat constructor. lia. }
    apply Hl; [apply (StronglySorted_merge_sort _)|].
    apply Forall_forall. intros x Hx%elem_of_sorted_ids. by apply Hs.
  - apply NoDup_Permutation; [apply sorted_ids_NoDup| |].
    + apply NoDup_app. split; [apply sorted_ids_NoDup|]. split; [|apply NoDup_singleton].
      intros x Hx%elem_of_sorted_ids ->%list_elem_of_singleton. specialize (Hs o Hx). lia.
    + intros x. rewrite elem_of_app, !elem_of_sorted_ids, list_elem_of_singleton. set_solver.
Qed.

(** Offsets of rows are below the next line's. *)
Definition below (o : Z) (events : gmap Z EventRow) : Prop := ∀ k, is_Some (events !! k) → k < o.

Lemma omap_ext_in {A B} (f g : A → option B) (l : list A) : (∀ x, x ∈ l → f x = g x) → omap f l = omap g l.
Proof.
  induction l as [|x l IH]; intros H; [done|]. cbn. rewrite H by by left.
  rewrite IH by (intros y Hy; apply H; by right). done.
Qed.

Lemma event_list_insert o row events : below o events →
  event_list (<[o := row]> events) = event_list events ++ [usage_event o row].
Proof.
  intros Hb. unfold event_list. rewrite dom_insert_L, sorted_ids_insert.
  - rewrite omap_app. f_equal.
    + apply omap_ext_in. intros x Hx%elem_of_sorted_ids%elem_of_dom.
      specialize (Hb x Hx). by rewrite lookup_insert_ne by lia.
    + cbn. by rewrite lookup_insert_eq.
  - intros x Hx%elem_of_dom. by apply Hb.
Qed.

Lemma below_fresh o events : below o events → events !! o = None.
Proof. intros Hb. destruct (events !! o) eqn:E; [|done]. specialize (Hb o ltac:(by eexists)). lia. Qed.

Lemma below_insert o o' row events : below o events → o < o' → below o' (<[o := row]> events).
Proof. intros Hb Ho k. rewrite lookup_insert_is_Some'. intros [->|Hk]; [done|]. specialize (Hb k Hk). lia. Qed.

(** ** The transcript of a Codex session *)

Definition start_of (v : Value) : option Z :=
  get (payload_of v) "subagent_history_start_ordinal" ≫= as_u64.

Definition id_of (v : Value) : option string := at_path v ["payload"; "id"] ≫= as_str.

(** A record that describes the session itself, not one it was copied from. *)
Definition own_meta (session : string) (v : Value) : Prop :=
  codex_record_kind v = Some "session_meta" ∧ ∀ id, id_of v = Some id → id = session.

(** A record that opens a turn. *)
Definition opens_turn (v : Value) : Prop :=
  codex_record_kind v = Some "turn_context" ∨
  codex_record_kind v = Some "event_msg" ∧ get (payload_of v) "type" ≫= as_str = Some "task_started".

#[export] Instance opens_turn_dec v : Decision (opens_turn v).
Proof. unfold opens_turn. apply _. Defined.

(** It starts with the session's own description, which later ones repeat, and
    nothing but what opens a turn is stored as that. *)
Record codex_transcript (session : string) (vs : list Value) : Prop := {
  ct_first first : head vs = Some first →
    codex_record_kind first = Some "session_meta" ∧ at_path first ["payload"; "id"] = Some (Str session);
  ct_metas first v : head vs = Some first → v ∈ vs → own_meta session v →
    codex_parent_session_string v = codex_parent_session_string first ∧ start_of v = start_of first;
  ct_turns v : v ∈ vs → stored_event_kind Codex v ∈ ["turn_context"; "task_started"] → opens_turn v;
}.

Lemma payload_path v k : get (payload_of v) k = at_path v ["payload"; k].
Proof.
  unfold payload_of. cbn. destruct (get v "payload"); cbn; [|done]. by destruct (get _ k).
Qed.

Lemma payload_id v : codex_string_at_path (payload_of v) ["id"] = id_of v.
Proof.
  unfold id_of. rewrite <-payload_path. unfold codex_string_at_path. cbn.
  by destruct (get (payload_of v) "id").
Qed.

Lemma inherited_ext a b v : ctx_session_id a = ctx_session_id b →
  history_start_ordinal a = history_start_ordinal b → is_inherited a v = is_inherited b v.
Proof. unfold is_inherited. by intros -> ->. Qed.

Lemma opens_turn_kind v : opens_turn v → stored_event_kind Codex v ∈ ["turn_context"; "task_started"].
Proof.
  intros [Hk|[Hk Ht]]; unfold stored_event_kind; rewrite Hk; cbn [default from_option].
  - rewrite bool_decide_false by set_solver. set_solver.
  - rewrite bool_decide_true by set_solver. unfold string_at.
    rewrite payload_path in Ht. unfold mbind in *.
    match goal with |- context [keep _ ?o] => replace o with (Some "task_started") end.
    cbn. set_solver.
Qed.

Lemma opens_turn_update ctx v session : opens_turn v → is_inherited ctx v = false →
  update_codex_context ctx v session = set_turn (codex_string_at_path (payload_of v) ["turn_id"]) ctx.
Proof.
  intros Ho Hi. unfold update_codex_context. rewrite Hi. destruct Ho as [->|[-> ->]]; done.
Qed.

(** ** The context against the rows *)

Section threaded.
Context (json_text : Value → string) (session : string) (first : Value).

Definition base : CodexSessionContext :=
  mkContext session (codex_parent_session_string first) None (start_of first).

Definition turn_id_of (row : option UsageEvent) : option string :=
  row ≫= λ e, codex_string_at_path (payload_of (payload e)) ["turn_id"].

Record Threaded (rows : list UsageEvent) (ctx : CodexSessionContext) : Prop := {
  th_ctx : ctx = set_turn (turn_id_of (turn_row rows)) base;
  th_first : ∃ e rest, rows = e :: rest ∧ payload e = first ∧ Usage.kind e = "session_meta";
  th_turn e : turn_row rows = Some e → is_inherited base (payload e) = false ∧ opens_turn (payload e);
}.

Hypothesis first_kind : codex_record_kind first = Some "session_meta".
Hypothesis first_id : at_path first ["payload"; "id"] = Some (Str session).

Lemma first_not_inherited : is_inherited (context_new session) first = false.
Proof.
  unfold is_inherited. rewrite first_kind, first_id. cbn.
  by rewrite (bool_decide_true (session = session)).
Qed.

Lemma first_context : update_codex_context (context_new session) first session = base.
Proof.
  unfold update_codex_context. rewrite first_not_inherited, first_kind.
  cbn [default from_option]. rewrite bool_decide_true, payload_id by done.
  unfold base, id_of. by rewrite first_id.
Qed.

Lemma load_threaded rows ctx : Threaded rows ctx → load_codex_context json_text rows session = ctx.
Proof.
  intros [-> (e & rest & -> & He & Hk) Hturn]. unfold load_codex_context.
  rewrite filter_cons_True by (split; [done|]; by rewrite He, first_id). cbn [head].
  rewrite He, first_context. destruct (turn_row (e :: rest)) as [row|]; [|done].
  destruct (Hturn row eq_refl) as [Hi Ho]. by rewrite opens_turn_update.
Qed.

Lemma turn_row_snoc rows e :
  turn_row (rows ++ [e]) =
  if decide (Usage.kind e ∈ ["turn_context"; "task_started"] ∧ inherited e = false)
  then Some e else turn_row rows.
Proof.
  unfold turn_row. rewrite filter_app, filter_cons, filter_nil. destruct (decide _).
  - by rewrite last_snoc.
  - by rewrite app_nil_r.
Qed.

(** A row that opens no turn and a context that stays. *)
Lemma threaded_other rows ctx e : Threaded rows ctx →
  ¬ (Usage.kind e ∈ ["turn_context"; "task_started"] ∧ inherited e = false) →
  Threaded (rows ++ [e]) ctx.
Proof.
  intros [Hc (x & rest & -> & Hx & Hk) Ht] He. split; rewrite ?turn_row_snoc, ?decide_False by done.
  - done.
  - by exists x, (rest ++ [e]).
  - done.
Qed.

Lemma threaded_turn rows ctx e : Threaded rows ctx → opens_turn (payload e) →
  Usage.kind e = stored_event_kind Codex (payload e) → inherited e = false →
  is_inherited ctx (payload e) = false →
  Threaded (rows ++ [e]) (update_codex_context ctx (payload e) session).
Proof.
  intros [-> (x & rest & -> & Hx & Hk) Ht] Ho Hkind Hrow Hi.
  assert (turn_row ((x :: rest) ++ [e]) = Some e) as Hlast.
  { rewrite turn_row_snoc, decide_True; [done|]. split; [|done].
    rewrite Hkind. by apply opens_turn_kind. }
  split; rewrite ?Hlast.
  - by rewrite opens_turn_update.
  - by exists x, (rest ++ [e]).
  - intros ? [= <-]. split; [|done]. by rewrite <-Hi; apply inherited_ext.
Qed.
(** Another description of the session says the same. *)
Lemma update_same rows ctx v : Threaded rows ctx → is_inherited ctx v = false → ¬ opens_turn v →
  (own_meta session v →
     codex_parent_session_string v = codex_parent_session_string first ∧ start_of v = start_of first) →
  update_codex_context ctx v session = ctx.
Proof.
  intros [-> _ _] Hi Ho Hmeta. unfold update_codex_context. rewrite Hi.
  destruct (codex_record_kind v) as [k|] eqn:Hk; cbn [default from_option]; [|done].
  destruct (decide (k = "session_meta")) as [->|Hne].
  - assert (Hid : ∀ id, id_of v = Some id → id = session).
    { intros id Hid. unfold id_of in Hid. unfold is_inherited in Hi. rewrite Hk, Hid in Hi.
      apply orb_false_iff in Hi as [Hi _]. rewrite bool_decide_true in Hi by done. cbn in Hi.
      apply negb_false_iff, bool_decide_eq_true in Hi. done. }
    destruct Hmeta as [Hp Hs]; [by split|]. rewrite bool_decide_true by done.
    unfold set_turn, base. cbn [ctx_session_id parent_session_id current_turn_id history_start_ordinal].
    rewrite Hp. unfold start_of in Hs at 1. rewrite Hs, payload_id.
    destruct (id_of v) as [id|]; cbn; [|done]. by rewrite (Hid id eq_refl).
  - rewrite bool_decide_false by done. unfold opens_turn in Ho. rewrite Hk in Ho.
    rewrite (bool_decide_false (k = "turn_context")) by (intros ->; apply Ho; by left).
    destruct (decide (k = "event_msg")) as [->|He]; [|by rewrite (bool_decide_false _ He)].
    rewrite (bool_decide_false (get _ _ ≫= _ = _)); [by rewrite andb_false_r|].
    intros Ht. apply Ho. by right.
Qed.
End threaded.

(** ** One line *)

Section lines.
Context (hash_text : string → string) (json_text : Value → string) (parse_uuid : string → option string).
Context (parse_rfc3339 : string → option Z).
Context `{T : TreeSitter} `{J : SerdeText}.

Local Abbreviation insert_value := (insert_value hash_text json_text parse_uuid parse_rfc3339).
Local Abbreviation insert_values := (insert_values hash_text json_text parse_uuid parse_rfc3339).
Local Abbreviation insert_step := (insert_step hash_text json_text parse_uuid parse_rfc3339).

Lemma events_insert_blocks o sp blocks t :
  t_events (insert_blocks hash_text o sp blocks t) = t_events t.
Proof.
  unfold insert_blocks. revert t. induction blocks as [|b blocks IH]; intros t; [done|].
  cbn [foldl]. rewrite IH. unfold insert_block, enqueue_event_embedding_source.
  repeat case_match; done.
Qed.

Lemma events_derivatives env o ts v e t t' :
  insert_event_derivatives hash_text json_text env o ts v e t = Ok t' → t_events t' = t_events t.
Proof.
  unfold insert_event_derivatives. destruct (bool_decide _); [by intros [= <-]|].
  intros (u & _ & [= <-])%res_bind_Ok. cbn [t_events with_usage].
  destruct (ce_blocks e) as [|b l] eqn:E; [done|]. apply (events_insert_blocks o (ce_speaker e) (b :: l)).
Qed.

Lemma events_linked env v t : t_events (link_parent_session parse_uuid env v t) = t_events t.
Proof. unfold link_parent_session, set_parent_session. by repeat case_match. Qed.

(** A line at a new offset adds its row, whatever else it changes. *)
Lemma insert_value_row env o v ctx t ctx' t' b : t_events t !! o = None →
  insert_value env o v ctx t = Ok (b, ctx', t') →
  ∃ parsed row, parse_canonical_event (agent_id (le_source env)) v (le_session env) o ctx = Ok parsed ∧
    t_events t' = <[o := row]> (t_events t) ∧
    er_kind row = stored_event_kind (le_source env) v ∧ er_payload row = v ∧
    er_subtype row = ce_subtype parsed ∧
    ctx' = (λ c, update_codex_context c v (le_session env)) <$> ctx.
Proof.
  intros Hfresh. unfold EventStore.insert_value. intros (parsed & Hp & H)%res_bind_Ok.
  rewrite Hfresh in H. cbn [is_none] in H. apply res_bind_Ok in H as (t1 & Ht1 & [= _ <- <-]).
  apply events_derivatives in Ht1. cbn in Ht1.
  eexists parsed, _. split; [done|]. rewrite events_linked.
  match goal with |- context [t_events (if ?c then ?a else t1)] =>
    replace (t_events (if c then a else t1)) with (t_events t1) by (by destruct c) end.
  split; [exact Ht1|]. cbn. split; [done|]. split; [done|]. split; [|done].
  unfold claim_related. by repeat case_match.
Qed.

(** ** What a Codex line is stored as *)

Lemma enrich_subtype e v session o ctx :
  ce_subtype (enrich_codex_lineage e v session o (Some ctx)) =
  if is_inherited ctx v then Some "inherited_history" else ce_subtype e.
Proof.
  unfold enrich_codex_lineage. destruct (is_inherited ctx v); [done|].
  repeat (destruct (bool_decide (default "" (codex_record_kind v) = _)); [try done|]); try done.
  by repeat (destruct (_ && _) || destruct (bool_decide (default "" (ce_subtype e) = _))).
Qed.

Lemma opens_turn_subtype v e : opens_turn v → codex_parse v = Ok e →
  ce_subtype e = Some "turn_context" ∨ ce_subtype e = Some "task_started".
Proof.
  intros Ho. unfold codex_parse.
  change (Canonical.codex_kind v) with (codex_record_kind v).
  destruct Ho as [->|[-> Ht]]; cbn [default from_option].
  - rewrite !bool_decide_false by done. rewrite bool_decide_true by set_solver.
    intros [= <-]. by left.
  - rewrite bool_decide_false by done. rewrite bool_decide_true by done. intros [= <-]. right.
    unfold parse_codex_event_msg. cbn. unfold get_str. fold (payload_of v). by rewrite Ht.
Qed.

Definition codex_env (env : LineEnv) : Prop := le_source env = Codex.

Lemma codex_row_subtype v session o ctx parsed :
  parse_canonical_event "codex" v session o (Some ctx) = Ok parsed →
  (is_inherited ctx v = true → ce_subtype parsed = Some "inherited_history") ∧
  (is_inherited ctx v = false → opens_turn v → ce_subtype parsed ≠ Some "inherited_history").
Proof.
  unfold parse_canonical_event. rewrite bool_decide_true by done.
  intros (e & He & [= <-])%res_bind_Ok. rewrite enrich_subtype.
  split; [by intros ->|]. intros -> Ho.
  destruct (opens_turn_subtype v e Ho He) as [->| ->]; done.
Qed.

(** ** Threading *)

Lemma threaded_line env first rows ctx t o v b ctx' t' :
  codex_env env → codex_record_kind first = Some "session_meta" →
  Threaded (le_session env) first rows ctx → event_list (t_events t) = rows → below o (t_events t) →
  (own_meta (le_session env) v →
     codex_parent_session_string v = codex_parent_session_string first ∧ start_of v = start_of first) →
  (stored_event_kind Codex v ∈ ["turn_context"; "task_started"] → opens_turn v) →
  insert_value env o v (Some ctx) t = Ok (b, Some ctx', t') →
  Threaded (le_session env) first (event_list (t_events t')) ctx'.
Proof.
  intros Henv Hfk Hth Hrows Hb Hmeta Hturn Hins. unfold codex_env in Henv.
  destruct (insert_value_row _ _ _ _ _ _ _ _ (below_fresh _ _ Hb) Hins)
    as (parsed & row & Hp & Hev & Hk & Hv & Hs & Hc).
  rewrite Henv in *. cbn [agent_id fmap option_fmap option_map] in *. injection Hc as ->.
  rewrite Hev, event_list_insert, Hrows by done. set (e := usage_event o row).
  assert (He : payload e = v ∧ Usage.kind e = stored_event_kind Codex v ∧ Usage.subtype e = ce_subtype parsed) by done.
  destruct He as (Hev' & Hek & Hes). clearbody e.
  destruct (codex_row_subtype _ _ _ _ _ Hp) as [Hin Hout].
  destruct (is_inherited ctx v) eqn:Hi.
  { unfold update_codex_context. rewrite Hi. apply threaded_other; [done|].
    unfold inherited. rewrite Hes, Hin by done. intros [_ ?]. by rewrite bool_decide_true in *. }
  destruct (decide (opens_turn v)) as [Ho|Ho].
  { rewrite <-Hev' in *. apply threaded_turn; try done.
    unfold inherited. rewrite Hes. apply bool_decide_false. by apply Hout. }
  assert (Hsame : update_codex_context ctx v (le_session env) = ctx).
  { by eapply update_same. }
  rewrite Hsame. apply threaded_other; [done|]. rewrite Hek. intros [Hkind _]. by apply Ho, Hturn.
Qed.

(** ** Passes *)

(** The lines done so far, the context they left and the rows. *)
Definition resumed (session : string) (done : list Value) (ctx : CodexSessionContext)
    (t : SessionTables) : Prop :=
  match done with
  | [] => t_events t = ∅ ∧ ctx = context_new session
  | first :: _ => Threaded session first (event_list (t_events t)) ctx
  end.

Lemma resumed_load session done rest ctx t : codex_transcript session (done ++ rest) →
  resumed session done ctx t → load_codex_context json_text (event_list (t_events t)) session = ctx.
Proof.
  intros Htr. destruct done as [|first done]; cbn.
  - by intros [-> ->].
  - destruct (ct_first _ _ Htr first eq_refl) as [Hk Hi]. by apply load_threaded.
Qed.

Lemma resumed_line env done v rest ctx t o b ctx' t' :
  codex_env env → codex_transcript (le_session env) (done ++ v :: rest) →
  resumed (le_session env) done ctx t → below o (t_events t) →
  insert_value env o v (Some ctx) t = Ok (b, Some ctx', t') →
  resumed (le_session env) (done ++ [v]) ctx' t'.
Proof.
  intros Henv Htr Hres Hb Hins. destruct done as [|first done].
  - destruct Hres as [Hempty ->]. destruct (ct_first _ _ Htr v eq_refl) as [Hk Hi].
    destruct (insert_value_row _ _ _ _ _ _ _ _ (below_fresh _ _ Hb) Hins)
      as (parsed & row & _ & Hev & Hkind & Hv & _ & Hc).
    rewrite Henv in Hkind. injection Hc as ->. cbn. rewrite Hev, event_list_insert, Hempty by done.
    rewrite first_context by done.
    assert (Hkind' : Usage.kind (usage_event o row) = "session_meta").
    { cbn. rewrite Hkind. unfold stored_event_kind. by rewrite Hk. }
    change (event_list ∅) with (@nil UsageEvent). cbn [app].
    assert (Hrow : turn_row [usage_event o row] = None).
    { unfold turn_row. rewrite filter_cons_False; [done|]. rewrite Hkind'. set_solver. }
    split; rewrite ?Hrow; [done| |done].
    exists (usage_event o row), []. split; [done|]. split; [done|exact Hkind'].
  - destruct (ct_first _ _ Htr first eq_refl) as [Hk Hi]. cbn in Hres |- *.
    assert (Hin : v ∈ first :: done ++ v :: rest) by set_solver.
    eapply threaded_line; [done|done|done|done|done| | |done].
    + intros Hown. by eapply (ct_metas _ _ Htr first).
    + intros Hkind. by eapply (ct_turns _ _ Htr).
Qed.

(** Offsets grow, from the first one free. *)
Fixpoint offsets_from (o : Z) (lines : list (Z * Value)) : Prop :=
  match lines with
  | [] => True
  | l :: lines => o ≤ l.1 ∧ offsets_from (l.1 + 1) lines
  end.

Lemma below_weaken o o' events : below o events → o ≤ o' → below o' events.
Proof. intros Hb Ho k Hk. specialize (Hb k Hk). lia. Qed.

Lemma offsets_from_app o l1 l2 : offsets_from o (l1 ++ l2) → offsets_from o l1.
Proof. revert o. induction l1 as [|l l1 IH]; intros o; cbn; [done|]. intros [? ?]. split; eauto. Qed.

Lemma resumed_lines env o lines done rest ctx t st :
  codex_env env → codex_transcript (le_session env) (done ++ lines.*2 ++ rest) →
  resumed (le_session env) done ctx t → below o (t_events t) → offsets_from o lines →
  insert_values env lines (Some ctx, t) = Ok st →
  ∃ ctx', st.1 = Some ctx' ∧ resumed (le_session env) (done ++ lines.*2) ctx' st.2 ∧
    ∀ more, offsets_from o (lines ++ more) → ∃ o', below o' (t_events st.2) ∧ offsets_from o' more.
Proof.
  intros Henv. revert o done ctx t. induction lines as [|[o1 v] lines IH];
    intros o done ctx t Htr Hres Hb Hoff.
  - intros [= <-]. exists ctx. rewrite app_nil_r. split; [done|]. split; [done|]. intros more Hm. by exists o.
  - cbn in Hoff. destruct Hoff as [Ho Hoff]. unfold EventStore.insert_values. cbn [try_fold].
    intros (st1 & H1 & H2)%res_bind_Ok. unfold EventStore.insert_step in H1. cbn [fst snd] in H1.
    apply res_bind_Ok in H1 as ([[b octx] t1] & Hins & [= <-]). cbn [fst snd] in H2.
    assert (Hb1 : below o1 (t_events t)) by by eapply below_weaken.
    destruct (insert_value_row _ _ _ _ _ _ _ _ (below_fresh _ _ Hb1) Hins)
      as (parsed & row & _ & Hev & _ & _ & _ & Hc). cbn in Hc. subst octx.
    edestruct (IH (o1 + 1) (done ++ [v])) as (ctx' & Hc' & Hres' & Hmore); [| | |exact Hoff|exact H2|].
    + by rewrite <-app_assoc.
    + eapply resumed_line; [done| |done|exact Hb1|exact Hins]. exact Htr.
    + rewrite Hev. eapply below_insert; [exact Hb1|lia].
    + exists ctx'. split; [done|]. split; [by rewrite <-app_assoc in Hres'|].
      intros more [_ Hm]. by apply Hmore.
Qed.

(** Whatever the passes, the rows are those of one. *)
Lemma passes_one env o chunks done ctx t :
  codex_env env → codex_transcript (le_session env) (done ++ (mjoin chunks).*2) →
  resumed (le_session env) done ctx t → below o (t_events t) → offsets_from o (mjoin chunks) →
  try_fold (pass hash_text json_text parse_uuid parse_rfc3339 env) chunks t =
  st ← insert_values env (mjoin chunks) (Some ctx, t); Ok st.2.
Proof.
  intros Henv. revert o done ctx t. induction chunks as [|c chunks IH]; intros o done ctx t Htr Hres Hb Hoff.
  - done.
  - change (mjoin (c :: chunks)) with (c ++ mjoin chunks) in *. rewrite fmap_app in Htr.
    assert (Hpass : pass hash_text json_text parse_uuid parse_rfc3339 env t c =
      st ← insert_values env c (Some ctx, t); Ok st.2).
    { unfold pass, pass_context. by rewrite Henv, (resumed_load _ _ _ _ _ Htr Hres). }
    cbn [try_fold]. rewrite Hpass.
    unfold EventStore.insert_values at 2. rewrite try_fold_app.
    fold (insert_values env c (Some ctx, t)).
    destruct (insert_values env c (Some ctx, t)) as [[octx t1]|err] eqn:E; [|done]. cbn [mbind res_bind].
    edestruct resumed_lines as (ctx' & Hc & Hres' & Hmore); [done|exact Htr|done|done| |exact E|].
    { by eapply offsets_from_app. }
    cbn in Hc, Hres'. subst octx. destruct (Hmore _ Hoff) as (o' & Hb' & Hoff'). cbn in *.
    eapply (IH o' (done ++ c.*2)); [by rewrite <-app_assoc|done|done|done].
Qed.
End lines.
