(* ===== verification/RepairInv.v ===== *)
(** * Rewriting a session

    [repair_codex_session] derives the rows of a session again from the
    payloads; what it stores is what inserting the lines stored. Blocks are
    read back as they were written. *)

From S2P Require Import Prelude Text Json Events Usage ModelSwitch Ingester CodeMode Tools Canonical CanonicalInv Lineage Metadata Activity EventStore LineageInv.

(** ** Blocks of an event *)

(** The last block of each position wins. *)
Definition written (blocks : list Block) (i : Z) : option BlockRow :=
  foldl (λ acc b, if bool_decide (ord b = i) then Some (row_of_block b) else acc) None blocks.

Lemma written_acc blocks i acc :
  foldl (λ acc b, if bool_decide (ord b = i) then Some (row_of_block b) else acc) acc blocks =
  or_else (written blocks i) acc.
Proof.
  unfold written. revert acc. induction blocks as [|b blocks IH] using rev_ind; intros acc; [done|].
  rewrite !foldl_app. cbn. destruct (bool_decide _); [done|]. apply IH.
Qed.

Lemma written_cons b blocks i :
  written (b :: blocks) i =
  or_else (written blocks i) (if bool_decide (ord b = i) then Some (row_of_block b) else None).
Proof. unfold written at 1. cbn. apply written_acc. Qed.

Section repair.
Context (hash_text : string → string) (json_text : Value → string) (parse_uuid : string → option string).
Context (parse_rfc3339 : string → option Z).
Context `{T : TreeSitter} `{J : SerdeText}.

Lemma blocks_enqueued o sp b t :
  t_blocks (enqueue_event_embedding_source hash_text o sp b t) = t_blocks t.
Proof. unfold enqueue_event_embedding_source. by repeat case_match. Qed.

Lemma lookup_insert_blocks o sp blocks t o' i :
  t_blocks (insert_blocks hash_text o sp blocks t) !! (o', i) =
  if decide (o' = o) then or_else (written blocks i) (t_blocks t !! (o', i)) else t_blocks t !! (o', i).
Proof.
  unfold insert_blocks. revert t. induction blocks as [|b blocks IH]; intros t; cbn [foldl].
  - by destruct (decide (o' = o)).
  - rewrite IH. unfold insert_block. rewrite blocks_enqueued. cbn [t_blocks with_blocks].
    destruct (decide (o' = o)) as [->|Ho].
    + rewrite written_cons. destruct (bool_decide_reflect (ord b = i)) as [->|Hi].
      * rewrite lookup_insert_eq. by destruct (written blocks i).
      * rewrite lookup_insert_ne by congruence. by destruct (written blocks i).
    + by rewrite lookup_insert_ne by congruence.
Qed.

Lemma parent_insert_blocks o sp blocks t :
  t_parent (insert_blocks hash_text o sp blocks t) = t_parent t.
Proof.
  unfold insert_blocks. revert t. induction blocks as [|b blocks IH]; intros t; [done|].
  cbn [foldl]. rewrite IH. unfold insert_block, enqueue_event_embedding_source.
  by repeat case_match.
Qed.

(** ** What insertion stored *)

Definition row_list (events : gmap Z EventRow) : list (Z * EventRow) :=
  omap (λ offset, pair offset <$> events !! offset) (sorted_ids (dom events)).

Lemma row_list_insert o row events : below o events →
  row_list (<[o := row]> events) = row_list events ++ [(o, row)].
Proof.
  intros Hb. unfold row_list. rewrite dom_insert_L, sorted_ids_insert.
  - rewrite omap_app. f_equal.
    + apply omap_ext_in. intros x Hx%elem_of_sorted_ids%elem_of_dom.
      specialize (Hb x Hx). by rewrite lookup_insert_ne by lia.
    + cbn. by rewrite lookup_insert_eq.
  - intros x Hx%elem_of_dom. by apply Hb.
Qed.

Lemma elem_of_row_list o row events : (o, row) ∈ row_list events → events !! o = Some row.
Proof.
  unfold row_list. intros (x & Hx & E)%list_elem_of_omap.
  destruct (events !! x) as [r|] eqn:Hr; [|done]. by injection E as <- <-.
Qed.

(** A row is what its payload is parsed to, with its blocks. *)
Record derived (session : string) (ctx : CodexSessionContext) (t : SessionTables)
    (o : Z) (row : EventRow) (parsed : CanonicalEvent) : Prop := {
  de_parsed : parse_canonical_event "codex" (er_payload row) session o (Some ctx) = Ok parsed;
  de_agent : ce_agent parsed = "codex";
  de_row : row = event_row (er_timestamp row) (er_kind row) (er_payload row) parsed;
  de_blocks i : t_blocks t !! (o, i) = written (ce_blocks parsed) i;
}.

Fixpoint all_derived (session : string) (ctx : CodexSessionContext) (t : SessionTables)
    (rows : list (Z * EventRow)) : Prop :=
  match rows with
  | [] => True
  | (o, row) :: rows =>
      (∃ parsed, derived session ctx t o row parsed) ∧
      all_derived session (update_codex_context ctx (er_payload row) session) t rows
  end.

Definition context_after (session : string) (ctx : CodexSessionContext) (rows : list (Z * EventRow))
    : CodexSessionContext :=
  foldl (λ ctx row, update_codex_context ctx (er_payload row.2) session) ctx rows.

Lemma all_derived_snoc session ctx t rows o row :
  all_derived session ctx t (rows ++ [(o, row)]) ↔
  all_derived session ctx t rows ∧
  ∃ parsed, derived session (context_after session ctx rows) t o row parsed.
Proof.
  revert ctx. induction rows as [|[o' row'] rows IH]; intros ctx; cbn; [tauto|].
  rewrite IH. tauto.
Qed.

(** Blocks of other offsets do not matter. *)
Lemma all_derived_blocks session ctx t t' rows :
  (∀ o row i, (o, row) ∈ rows → t_blocks t' !! (o, i) = t_blocks t !! (o, i)) →
  all_derived session ctx t rows → all_derived session ctx t' rows.
Proof.
  revert ctx. induction rows as [|[o row] rows IH]; intros ctx Hsame; [done|].
  intros [(parsed & [Hp Ha Hr Hb]) Hrest]. split.
  - exists parsed. split; try done. intros i. by rewrite (Hsame o row i) by by left.
  - apply IH; [|done]. intros o' row' i Hin. apply (Hsame o' row' i). by right.
Qed.

Record stored (session : string) (ctx : CodexSessionContext) (t : SessionTables) : Prop := {
  so_derived : all_derived session (context_new session) t (row_list (t_events t));
  so_context : ctx = context_after session (context_new session) (row_list (t_events t));
  so_blocks o i : t_events t !! o = None → t_blocks t !! (o, i) = None;
  so_parent : t_parent t = None →
    Forall (λ row, detect_codex_parent_session parse_uuid (er_payload row.2) session = None)
      (row_list (t_events t));
}.

Lemma codex_agent v session o ctx parsed :
  parse_canonical_event "codex" v session o (Some ctx) = Ok parsed → ce_agent parsed = "codex".
Proof.
  unfold parse_canonical_event. rewrite bool_decide_true by done.
  intros (e & He & [= <-])%res_bind_Ok.
  assert (Hen : ce_agent (enrich_codex_lineage e v session o (Some ctx)) = ce_agent e).
  { unfold enrich_codex_lineage. destruct (is_inherited ctx v); [done|].
    repeat (destruct (bool_decide (default "" (codex_record_kind v) = _)); [try done|]); try done.
    by repeat (destruct (_ && _) || destruct (bool_decide (default "" (ce_subtype e) = _))). }
  rewrite Hen. clear Hen. revert He. unfold codex_parse.
  repeat (destruct (bool_decide (default "" _ = _)) || destruct (bool_decide (default "" _ ∈ _)));
    try (intros [= <-]; done).
  unfold parse_codex_response_item. cbv zeta. set (subtype := default "response_item" _).
  destruct (bool_decide (subtype = "agent_message")); [by intros [= <-]|].
  destruct (bool_decide (subtype = "message")).
  { intros [= <-]. unfold codex_message. by destruct (bool_decide (default _ _ ∈ ["developer"; "system"])). }
  destruct (bool_decide (subtype = "reasoning")); [by intros [= <-]|].
  destruct (_ || bool_decide (subtype = "custom_tool_call")).
  { by intros (b & _ & [= <-])%res_bind_Ok. }
  by destruct (_ || bool_decide (subtype = "custom_tool_call_output")); intros [= <-].
Qed.

(** A record marked as copied history has no blocks. *)
Lemma inherited_response v e : parse_codex_response_item v = Ok e →
  ce_subtype e = Some "inherited_history" → ce_blocks e = [].
Proof.
  unfold parse_codex_response_item. cbv zeta. set (subtype := default "response_item" _).
  destruct (bool_decide_reflect (subtype = "agent_message")) as [->|]; [by intros [= <-]|].
  destruct (bool_decide_reflect (subtype = "message")) as [->|].
  { intros [= <-]. unfold codex_message. by destruct (bool_decide (default _ _ ∈ ["developer"; "system"])). }
  destruct (bool_decide_reflect (subtype = "reasoning")) as [->|]; [by intros [= <-]|].
  destruct (bool_decide_reflect (subtype = "function_call")) as [->|]; cbn [orb].
  { by intros (b & _ & [= <-])%res_bind_Ok. }
  destruct (bool_decide_reflect (subtype = "custom_tool_call")) as [->|].
  { by intros (b & _ & [= <-])%res_bind_Ok. }
  destruct (bool_decide_reflect (subtype = "function_call_output")) as [->|]; cbn [orb]; [by intros [= <-]|].
  destruct (bool_decide_reflect (subtype = "custom_tool_call_output")) as [->|]; by intros [= <-].
Qed.

Lemma inherited_blocks v session o ctx parsed :
  codex_record_kind v ≠ Some "inherited_history" →
  parse_canonical_event "codex" v session o (Some ctx) = Ok parsed →
  ce_subtype parsed = Some "inherited_history" → ce_blocks parsed = [].
Proof.
  intros Hk. unfold parse_canonical_event. rewrite bool_decide_true by done.
  intros (e & He & [= <-])%res_bind_Ok. rewrite enrich_subtype.
  destruct (is_inherited ctx v) eqn:Hi.
  { intros _. unfold enrich_codex_lineage. by rewrite Hi. }
  intros Hs. assert (Hen : ce_blocks (enrich_codex_lineage e v session o (Some ctx)) = ce_blocks e).
  { unfold enrich_codex_lineage. rewrite Hi.
    repeat (destruct (bool_decide (default "" (codex_record_kind v) = _)); [try done|]); try done.
    by repeat (destruct (_ && _) || destruct (bool_decide (default "" (ce_subtype e) = _))). }
  rewrite Hen. clear Hen. revert He. unfold codex_parse. cbv zeta beta.
  change (Canonical.codex_kind v) with (codex_record_kind v).
  destruct (codex_record_kind v) as [k|] eqn:Ek; cbn [default from_option id].
  - destruct (bool_decide_reflect (k = "response_item")) as [->|].
    { intros He. by eapply inherited_response. }
    destruct (bool_decide_reflect (k = "event_msg")) as [->|].
    { intros [= <-]. unfold parse_codex_event_msg in *. cbn in *. injection Hs as Hs.
      by rewrite Hs. }
    destruct (bool_decide (k ∈ _)); intros [= <-]; [done|]. cbn in Hs. congruence.
  - rewrite !bool_decide_false by (done || set_solver). intros [= <-]. done.
Qed.

(** ** Insertion keeps what the rewriting needs *)

Local Abbreviation insert_value := (insert_value hash_text json_text parse_uuid parse_rfc3339).

Lemma link_tables env v t :
  t_events (link_parent_session parse_uuid env v t) = t_events t ∧
  t_blocks (link_parent_session parse_uuid env v t) = t_blocks t.
Proof. unfold link_parent_session, set_parent_session. by repeat case_match. Qed.

Lemma link_parent env v t : le_source env = Codex →
  t_parent (link_parent_session parse_uuid env v t) =
  or_else (t_parent t) (detect_codex_parent_session parse_uuid v (le_session env)).
Proof.
  intros Henv. unfold link_parent_session, parent_session. rewrite Henv.
  destruct (detect_codex_parent_session _ _ _); unfold set_parent_session;
    destruct (t_parent t) eqn:E; cbn; by rewrite ?E.
Qed.

Lemma derivatives_tables env o ts v e t t' : (ce_subtype e = Some "inherited_history" → ce_blocks e = []) →
  insert_event_derivatives hash_text json_text env o ts v e t = Ok t' →
  t_events t' = t_events t ∧ t_parent t' = t_parent t ∧
  (∀ o' i, t_blocks t' !! (o', i) =
    if decide (o' = o) then or_else (written (ce_blocks e) i) (t_blocks t !! (o', i)) else t_blocks t !! (o', i)).
Proof.
  intros Hinh. unfold insert_event_derivatives.
  destruct (bool_decide_reflect (ce_subtype e = Some "inherited_history")) as [Hs|_].
  - intros [= <-]. rewrite (Hinh Hs). split; [done|]. split; [done|]. intros o' i. by destruct (decide _).
  - set (t1 := match ce_blocks e with [] => t | _ => _ end).
    assert (Ht1 : t1 = insert_blocks hash_text o (ce_speaker e) (ce_blocks e) t).
    { unfold t1. by destruct (ce_blocks e). }
    clearbody t1. subst t1. intros (u & _ & [= <-])%res_bind_Ok. split; [apply events_insert_blocks|].
    split; [apply parent_insert_blocks|]. intros o' i. apply lookup_insert_blocks.
Qed.

Lemma stored_line env o v ctx t b ctx' t' :
  le_source env = Codex → le_subagent_tool_use_id env = None →
  codex_record_kind v ≠ Some "inherited_history" →
  stored (le_session env) ctx t → below o (t_events t) →
  insert_value env o v (Some ctx) t = Ok (b, Some ctx', t') → stored (le_session env) ctx' t'.
Proof.
  intros Henv Hsub Hk [Hd Hc Hbl Hpar] Hb. pose proof (below_fresh _ _ Hb) as Hfresh.
  unfold EventStore.insert_value. intros (parsed & Hp & H)%res_bind_Ok.
  rewrite Hfresh in H. cbn [is_none] in H. apply res_bind_Ok in H as (t1 & Ht1 & H).
  assert (Hclaim : claim_related (le_subagent_tool_use_id env) parsed = parsed) by by rewrite Hsub.
  rewrite Hclaim in *. rewrite Henv in Hp. cbn [agent_id] in Hp.
  apply derivatives_tables in Ht1 as (Hev & Hpa & Hblk); [|intros Hs; by eapply inherited_blocks].
  cbn [t_events t_parent t_blocks with_events] in Hev, Hpa, Hblk.
  injection H as _ <- <-.
  match goal with |- context [link_parent_session _ _ _ ?x] => set (t2 := x) end.
  assert (Ht2 : t_events t2 = t_events t1 ∧ t_blocks t2 = t_blocks t1 ∧ t_parent t2 = t_parent t1).
  { unfold t2. by destruct (negb _). }
  clearbody t2. destruct Ht2 as (He2 & Hb2 & Hp2). rewrite Hev in He2. rewrite Hpa in Hp2.
  destruct (link_tables env v t2) as [Hle Hlb].
  match type of He2 with _ = <[o := ?r]> _ => set (row := r) in * end.
  assert (Hrows : row_list (t_events (link_parent_session parse_uuid env v t2)) =
                  row_list (t_events t) ++ [(o, row)]).
  { by rewrite Hle, He2, row_list_insert. }
  split.
  - rewrite Hrows. apply all_derived_snoc. split.
    + eapply all_derived_blocks; [|exact Hd]. intros o' row' i Hin%elem_of_row_list.
      rewrite Hlb, Hb2, Hblk, decide_False; [done|]. intros ->. congruence.
    + exists parsed. rewrite <-Hc. split; [done|by eapply codex_agent|done|].
      intros i. rewrite Hlb, Hb2, Hblk, decide_True, Hbl by done. by destruct (written _ i).
  - rewrite Hrows. unfold context_after. by rewrite foldl_app, Hc.
  - intros o' i. rewrite Hle, He2, lookup_insert_None, Hlb, Hb2, Hblk. intros [Ho' Hne].
    rewrite decide_False by done. by apply Hbl.
  - rewrite Hrows, link_parent, Hp2 by done. intros Hn. apply Forall_app.
    destruct (t_parent t); [done|]. split; [by apply Hpar|]. by repeat constructor.
Qed.

(** ** Rewriting *)

(** The tables a rewriting leaves as they are. *)
Definition agree (a b : SessionTables) : Prop :=
  t_events a = t_events b ∧ t_blocks a = t_blocks b ∧ t_parent a = t_parent b.

Lemma rewrite_agree t t1 session ctx o row parsed : derived session ctx t o row parsed →
  t_events t !! o = Some row → agree t1 t → agree (rewrite_canonical_event hash_text o parsed t1) t.
Proof.
  intros [Hp Ha Hr Hbl] Hrow (He & Hb & Hpa). unfold rewrite_canonical_event.
  split; [|split].
  - rewrite events_insert_blocks. cbn [t_events with_events with_blocks]. rewrite He.
    apply map_eq. intros k. destruct (decide (k = o)) as [->|Hk].
    + rewrite lookup_alter_eq, Hrow. cbn. f_equal. rewrite Hr at 5. f_equal.
      assert (er_agent row = ce_agent parsed) as -> by by rewrite Hr. by destruct parsed.
    + by rewrite lookup_alter_ne.
  - apply map_eq. intros [o' i]. rewrite lookup_insert_blocks. cbn [t_blocks with_events with_blocks].
    rewrite Hb. destruct (decide (o' = o)) as [->|Ho].
    + rewrite map_lookup_filter_None_2; [by rewrite Hbl; destruct (written _ i)|].
      right. intros x _ Hx. by apply Hx.
    + apply option_eq. intros x. rewrite map_lookup_filter_Some. naive_solver.
  - by rewrite parent_insert_blocks.
Qed.

Lemma repair_row_agree session now ctx t t1 o row : agree t1 t →
  t_events t !! o = Some row → (∃ parsed, derived session ctx t o row parsed) →
  (t_parent t = None → detect_codex_parent_session parse_uuid (er_payload row) session = None) →
  ∃ t2, repair_row hash_text parse_uuid session now (ctx, t1) (o, row) =
    Ok (update_codex_context ctx (er_payload row) session, t2) ∧ agree t2 t.
Proof.
  intros Hag Hrow (parsed & Hd) Hpar. unfold repair_row.
  assert (er_agent row = "codex") as ->.
  { destruct Hd as [_ Ha Hr _]. rewrite Hr. exact Ha. }
  rewrite (de_parsed _ _ _ _ _ _ Hd). cbn [mbind res_bind].
  pose proof (rewrite_agree _ _ _ _ _ _ _ Hd Hrow Hag) as Hw.
  set (t2 := rewrite_canonical_event hash_text o parsed t1) in *. clearbody t2.
  set (t3 := if bool_decide _ then t2 else _).
  assert (H3 : agree t3 t) by (unfold t3; by destruct (bool_decide _)). clearbody t3.
  eexists. split; [done|]. destruct (detect_codex_parent_session _ _ _) as [parent|] eqn:E; [|done].
  unfold set_parent_session. destruct (t_parent t3) as [p|] eqn:E3; [exact H3|].
  destruct H3 as (_ & _ & Hp). rewrite <-Hp, E3 in Hpar. by specialize (Hpar eq_refl).
Qed.

Lemma repair_rows_agree session now t rows ctx t1 : agree t1 t →
  (∀ o row, (o, row) ∈ rows → t_events t !! o = Some row) → all_derived session ctx t rows →
  (t_parent t = None →
     Forall (λ row, detect_codex_parent_session parse_uuid (er_payload row.2) session = None) rows) →
  ∃ st, try_fold (repair_row hash_text parse_uuid session now) rows (ctx, t1) = Ok st ∧ agree st.2 t.
Proof.
  revert ctx t1. induction rows as [|[o row] rows IH]; intros ctx t1 Hag Hrows Hd Hp; [by eexists|].
  destruct Hd as [Hrow Hd]. cbn [try_fold].
  destruct (repair_row_agree session now ctx t t1 o row) as (t2 & -> & H2); [done| |done| |].
  - apply Hrows. by left.
  - intros Hn. by apply Hp, Forall_cons in Hn as [Hn _].
  - cbn [mbind res_bind]. apply IH; [done| |done|].
    + intros o' row' Hin. apply Hrows. by right.
    + intros Hn. by apply Hp, Forall_cons in Hn as [_ Hn].
Qed.

Lemma repair_stored session now ctx t : stored session ctx t →
  ∃ t', repair_codex_session hash_text parse_uuid session now t = Ok t' ∧ agree t' t.
Proof.
  intros [Hd _ _ Hp]. unfold repair_codex_session. fold (row_list (t_events t)).
  destruct (repair_rows_agree session now t (row_list (t_events t)) (context_new session) t)
    as (st & -> & Hst); [done| |done|done|by eexists].
  intros o row. apply elem_of_row_list.
Qed.

(** Lines a pass inserts into empty tables leave what the rewriting needs. *)
Lemma stored_lines env o lines ctx t st :
  le_source env = Codex → le_subagent_tool_use_id env = None →
  Forall (λ l, codex_record_kind l.2 ≠ Some "inherited_history") lines →
  stored (le_session env) ctx t → below o (t_events t) → offsets_from o lines →
  insert_values hash_text json_text parse_uuid parse_rfc3339 env lines (Some ctx, t) = Ok st →
  ∃ ctx', st.1 = Some ctx' ∧ stored (le_session env) ctx' st.2.
Proof.
  intros Henv Hsub Hk. revert o ctx t. induction Hk as [|[o1 v] lines Hv Hk IH];
    intros o ctx t Hs Hb Hoff.
  - intros [= <-]. by eexists.
  - cbn in Hoff, Hv. destruct Hoff as [Ho Hoff]. unfold EventStore.insert_values. cbn [try_fold].
    intros (st1 & H1 & H2)%res_bind_Ok. unfold EventStore.insert_step in H1. cbn [fst snd] in H1.
    apply res_bind_Ok in H1 as ([[b octx] t1] & Hins & [= <-]). cbn [fst snd] in H2.
    assert (Hb1 : below o1 (t_events t)) by by eapply below_weaken.
    destruct (insert_value_row _ _ _ _ _ _ _ _ _ _ _ _ (below_fresh _ _ Hb1) Hins)
      as (parsed & row & _ & Hev & _ & _ & _ & Hc). cbn in Hc. subst octx.
    eapply (IH (o1 + 1)); [|  |exact Hoff|exact H2].
    + by eapply stored_line.
    + rewrite Hev. eapply below_insert; [exact Hb1|lia].
Qed.

Lemma stored_empty session t : t_events t = ∅ → t_blocks t = ∅ → stored session (context_new session) t.
Proof.
  intros He Hb. assert (Hl : row_list (t_events t) = []) by by rewrite He.
  split; rewrite ?Hl; [done|done| |done]. intros o i _. by rewrite Hb, lookup_empty.
Qed.
End repair.

(** ** Blocks read back *)

Lemma written_elem blocks b : NoDup (ord <$> blocks) → b ∈ blocks →
  written blocks (ord b) = Some (row_of_block b).
Proof.
  induction blocks as [|c blocks IH]; [by intros _ ?%elem_of_nil|].
  rewrite fmap_cons. intros [Hc Hnd]%NoDup_cons [->|Hb]%elem_of_cons; rewrite written_cons.
  - rewrite bool_decide_true by done. enough (written blocks (ord c) = None) as -> by done.
    clear -Hc. induction blocks as [|d blocks IH]; [done|].
    rewrite fmap_cons, not_elem_of_cons in Hc. destruct Hc as [Hd Hc].
    by rewrite written_cons, IH, bool_decide_false.
  - by rewrite IH.
Qed.

Lemma written_Some blocks i row : written blocks i = Some row → i ∈ ord <$> blocks.
Proof.
  induction blocks as [|b blocks IH]; [done|]. rewrite written_cons, fmap_cons, elem_of_cons.
  destruct (written blocks i); [by right; apply IH|]. cbn.
  destruct (bool_decide_reflect (ord b = i)); [by left|done].
Qed.

Lemma StronglySorted_seq (o : Z) k n : StronglySorted key2_le ((λ i, (o, Z.of_nat i)) <$> seq k n).
Proof.
  revert k. induction n as [|n IH]; intros k; [constructor|]. cbn. constructor; [apply IH|].
  apply Forall_fmap, Forall_forall. intros i Hi%elem_of_seq. unfold key2_le. cbn. lia.
Qed.

Lemma numbered_keys (o : Z) (blocks : list Block) : numbered blocks → Z.of_nat (length blocks) ≤ 2 ^ 31 →
  (λ b, (o, ord b)) <$> blocks = (λ i, (o, Z.of_nat i)) <$> seq 0 (length blocks).
Proof.
  intros Hn Hl. change (λ b, (o, ord b)) with ((λ i : Z, (o, i)) ∘ ord).
  rewrite list_fmap_compose, Hn, <-list_fmap_compose.
  apply list_fmap_ext. intros i x Hx. apply lookup_seq in Hx as [-> Hi]. cbn.
  by rewrite wrap32_id by lia.
Qed.

Lemma omap_fmap_total {A B C} (f : B → option C) (g : A → B) (h : A → C) (l : list A) :
  (∀ a, a ∈ l → f (g a) = Some (h a)) → omap f (g <$> l) = h <$> l.
Proof.
  induction l as [|a l IH]; intros H; [done|]. cbn. rewrite H by by left.
  rewrite IH by (intros b Hb; apply H; by right). done.
Qed.

(** The keys of an event's blocks, in order. *)
Lemma keys_at (o : Z) (m : gmap key2 BlockRow) (blocks : list Block) :
  numbered blocks → Z.of_nat (length blocks) ≤ 2 ^ 31 → (∀ i, m !! (o, i) = written blocks i) →
  sorted_keys (filter (λ k, k.1 = o) (dom m)) = (λ b, (o, ord b)) <$> blocks.
Proof.
  intros Hn Hl Hm. pose proof (numbered_NoDup _ Hn Hl) as Hnd.
  apply (StronglySorted_unique key2_le).
  - apply sorted_keys_Sorted.
  - rewrite numbered_keys by done. apply StronglySorted_seq.
  - apply NoDup_Permutation; [apply sorted_keys_NoDup| |].
    + change (λ b, (o, ord b)) with ((λ i : Z, (o, i)) ∘ ord).
  rewrite list_fmap_compose. apply NoDup_fmap_2; [by intros ?? [= ->]|done].
    + intros [o' i]. rewrite elem_of_sorted_keys, elem_of_filter, elem_of_dom, list_elem_of_fmap. cbn.
      split.
      * intros [-> [row Hrow]]. rewrite Hm in Hrow. apply written_Some in Hrow.
        apply list_elem_of_fmap in Hrow as (b & -> & Hb). by exists b.
      * intros (b & [= -> ->] & Hb). split; [done|]. rewrite Hm, written_elem by done. by eexists.
Qed.

Section load.
Context (hash_text : string → string) (rules : list CategoryRule).
Context (project : Value → option string → option OperationCategory →
                   Value * option string * option OperationCategory).

Lemma load_written (o : Z) (m : gmap key2 BlockRow) (blocks : list Block) :
  numbered blocks → Z.of_nat (length blocks) ≤ 2 ^ 31 → (∀ i, m !! (o, i) = written blocks i) →
  load_event_blocks rules project o m =
  (λ b, block_of_row rules project (ord b) (row_of_block b)) <$> blocks.
Proof.
  intros Hn Hl Hm. unfold load_event_blocks. rewrite (keys_at _ _ blocks) by done.
  apply omap_fmap_total. intros b Hb. cbn.
  by rewrite Hm, written_elem by (done || by apply numbered_NoDup).
Qed.

(** What reading back gives of a block: all but how the operation is
    classified, and the raw form of an unknown one. *)
Definition kept_fields (input : Block → option Value) (b : Block) :=
  (ord b, Events.kind b, Events.text b, tool_id b, tool_name b, tool_name_canonical b, input b,
   tool_output b, block_is_error b).

(** The input of a tool use is read through the projection of plans; every
    other is read as it was parsed. *)
Definition input_read (b : Block) : option Value :=
  match Events.kind b, tool_input b with
  | BToolUse, Some input =>
      let '(op, cat) := block_operation rules (row_of_block b) in Some (project input op cat).1.1
  | _, input => input
  end.

Lemma kind_parse_str k : block_kind_parse (block_kind_str k) = k.
Proof. by destruct k. Qed.

Lemma block_of_row_kept b :
  kept_fields tool_input (block_of_row rules project (ord b) (row_of_block b)) = kept_fields input_read b.
Proof.
  unfold block_of_row, kept_fields, input_read. destruct (block_operation rules (row_of_block b)) as [op cat].
  cbn [br_kind br_tool_input row_of_block]. rewrite kind_parse_str.
  destruct (Events.kind b), (tool_input b) as [input|]; try done.
  by destruct (project input op cat) as [[? ?] ?].
Qed.

Lemma blocks_read_back (o : Z) sp blocks t :
  numbered blocks → Z.of_nat (length blocks) ≤ 2 ^ 31 → (∀ i, t_blocks t !! (o, i) = None) →
  let stored := t_blocks (insert_blocks hash_text o sp blocks t) in
  (∀ b, b ∈ blocks → ∃ row, stored !! (o, ord b) = Some row ∧
     br_tool_input row = tool_input b ∧ br_raw row = Events.raw b) ∧
  kept_fields tool_input <$> load_event_blocks rules project o stored = kept_fields input_read <$> blocks.
Proof.
  intros Hn Hl Hf. assert (Hw : ∀ i, t_blocks (insert_blocks hash_text o sp blocks t) !! (o, i) = written blocks i).
  { intros i. rewrite lookup_insert_blocks, decide_True, Hf by done. by destruct (written blocks i). }
  split.
  - intros b Hb. exists (row_of_block b). split; [|done]. rewrite Hw. apply written_elem; [|done]. by apply numbered_NoDup.
  - rewrite (load_written o _ blocks Hn Hl Hw), <-list_fmap_compose. apply list_fmap_ext. intros i b _.
    apply block_of_row_kept.
Qed.
End load.

(** Lineage leaves the blocks or drops them all. *)
Lemma enrich_blocks e v session o ctx :
  ce_blocks (enrich_codex_lineage e v session o ctx) = [] ∨
  ce_blocks (enrich_codex_lineage e v session o ctx) = ce_blocks e.
Proof.
  unfold enrich_codex_lineage. destruct (match ctx with Some _ => _ | None => _ end); [by left|right].
  repeat (destruct (bool_decide (default "" (codex_record_kind v) = _)); [try done|]); try done.
  by repeat (destruct (_ && _) || destruct (bool_decide (default "" (ce_subtype e) = _))).
Qed.
