(* ===== verification/TranscriptGuarantees.v ===== *)
(** * Guarantees of reading transcripts

    Patches, blocks, pasted text and tool calls as they are parsed; rows as
    passes insert them and a repair rewrites them; activity as it is read. It
    begins with a small syntax tree standing for the JavaScript parser's, JSON
    text as one literal, and the records the witnesses use. *)

From S2P Require Import Prelude Text Json Events Usage ModelSwitch Ingester CodeMode Tools Canonical PatchText CanonicalInv ToolsTotal Lineage Metadata Activity EventStore LineageInv RepairInv.

(** ** Concrete records *)

(** ** A tree *)

Inductive DemoNode : Type :=
  | DemoTree (kind text : string) (children : list DemoNode) (fields : list (string * DemoNode)).

Fixpoint demo_size (n : DemoNode) : nat :=
  match n with
  | DemoTree _ _ children fields =>
      S ((fix sum l := match l with [] => O | c :: l => (demo_size c + sum l)%nat end) children
         + (fix sumf l := match l with [] => O | (_, c) :: l => (demo_size c + sumf l)%nat end) fields)%nat
  end.

Definition demo_fields (n : DemoNode) : list (string * DemoNode) :=
  match n with DemoTree _ _ _ fields => fields end.

(** A program that is one call [tools.name(argument)], as the grammar has it. *)
Definition demo_call (code name : string) (argument : DemoNode) : DemoNode :=
  DemoTree "program" code [DemoTree "call_expression" code []
    [("function", DemoTree "member_expression" ("tools." +:+ name) []
        [("object", DemoTree "identifier" "tools" [] []);
         ("property", DemoTree "property_identifier" name [] [])]);
     ("arguments", DemoTree "arguments" "" [argument] [])]] [].

(** [tools.exec_command("ls")], and that program in a call of [exec]. *)
Definition demo_literal : string := quote_char +:+ "ls" +:+ quote_char.
Definition demo_code : string := "tools.exec_command(" +:+ demo_literal +:+ ")".
Definition demo_program : DemoNode := demo_call demo_code "exec_command" (DemoTree "string" demo_literal [] []).
Definition nested_code : string := "tools.exec(" +:+ single_quote +:+ demo_code +:+ single_quote +:+ ")".
Definition nested_program : DemoNode :=
  demo_call nested_code "exec" (DemoTree "string" (single_quote +:+ demo_code +:+ single_quote) [] []).

(** Every source has a root with its text; these two have calls in it. *)
Definition demo_root (code : string) : DemoNode :=
  if bool_decide (code = demo_code) then demo_program
  else if bool_decide (code = nested_code) then nested_program
  else DemoTree "program" code [] [].

#[export] Instance demo_tree : TreeSitter := {|
  Node := DemoNode;
  node_kind n := match n with DemoTree k _ _ _ => k end;
  node_text n := match n with DemoTree _ t _ _ => Some t end;
  named_children n := match n with DemoTree _ _ c _ => c end;
  child_by_field_name n f := (List.find (λ kv, bool_decide (kv.1 = f)) (demo_fields n)) ≫= (λ kv, Some kv.2);
  parse_javascript code := Some (demo_root code);
  node_size := demo_size;
|}.

#[export] Instance demo_serde : SerdeText := {|
  from_str s := if bool_decide (s = demo_literal) then Some (Str "ls") else None;
  to_json _ := "{}";
|}.

Lemma demo_children_size (n c : DemoNode) : c ∈ named_children n → (demo_size c < demo_size n)%nat.
Proof.
  destruct n as [k t cs fs]. cbn [named_children demo_tree]. intros H. cbn [demo_size].
  apply Nat.lt_succ_r. etransitivity; [|apply Nat.le_add_r].
  induction cs as [|x cs IH]; [by apply elem_of_nil in H|].
  apply elem_of_cons in H as [->|H]; cbn; [lia|]. specialize (IH H). cbn in IH. lia.
Qed.

Lemma demo_field_size (n c : DemoNode) f : child_by_field_name n f = Some c → (demo_size c < demo_size n)%nat.
Proof.
  destruct n as [k t cs fs]. cbn [child_by_field_name demo_tree demo_fields]. intros H. cbn [demo_size].
  apply Nat.lt_succ_r. etransitivity; [|apply Nat.le_add_l].
  induction fs as [|[g x] fs IH]; [done|]. cbn in *. destruct (bool_decide (g = f)); cbn in H.
  - injection H as ->. lia.
  - specialize (IH H). lia.
Qed.

#[export] Instance demo_tree_laws : TreeSitterLaws demo_tree.
Proof. split; [exact demo_children_size|intros n f c; exact (demo_field_size n c f)]. Qed.

(** Every node under a root satisfies what all its nodes do. *)
Fixpoint demo_all (P : string → string → bool) (n : DemoNode) : bool :=
  match n with
  | DemoTree k t children fields =>
      P k t
      && (fix all l := match l with [] => true | c :: l => demo_all P c && all l end) children
      && (fix allf l := match l with [] => true | (_, c) :: l => demo_all P c && allf l end) fields
  end.

Lemma demo_all_under P root n : demo_all P root = true → Under root n → demo_all P n = true.
Proof.
  intros Hr Hu. induction Hu as [|n c Hu IH Hc|n f c Hu IH Hc]; [done| |].
  - clear Hu. destruct n as [k t cs fs]. cbn in Hc, IH. apply andb_true_iff in IH as [IH _].
    apply andb_true_iff in IH as [_ IH]. induction cs as [|x cs IHcs]; [by apply elem_of_nil in Hc|].
    apply andb_true_iff in IH as [Hx IH]. apply elem_of_cons in Hc as [->|Hc]; [exact Hx|]. by apply IHcs.
  - clear Hu. destruct n as [k t cs fs]. cbn in Hc, IH. apply andb_true_iff in IH as [_ IH].
    induction fs as [|[g x] fs IHfs]; [done|]. apply andb_true_iff in IH as [Hx IH]. cbn in Hc.
    destruct (bool_decide (g = f)); cbn in Hc; [by injection Hc as ->|]. by apply IHfs.
Qed.

Lemma demo_all_text P n t : demo_all P n = true → node_text n = Some t → P (node_kind n) t = true.
Proof. destruct n as [k t' cs fs]. cbn. intros H [= <-]. by apply andb_true_iff in H as [[H _]%andb_true_iff _]. Qed.

(** What holds of the nodes of the two programs and of a root alone. *)
Lemma demo_root_all (P : string → string → string → bool) code :
  demo_all (P demo_code) demo_program = true → demo_all (P nested_code) nested_program = true →
  P code "program" code = true → demo_all (P code) (demo_root code) = true.
Proof.
  intros H1 H2 H3. unfold demo_root. destruct (bool_decide_reflect (code = demo_code)) as [->|]; [done|].
  destruct (bool_decide_reflect (code = nested_code)) as [->|]; [done|]. cbn. by rewrite H3.
Qed.

Lemma demo_root_text (P : string → string → string → bool) code root n t :
  demo_all (P demo_code) demo_program = true → demo_all (P nested_code) nested_program = true →
  P code "program" code = true → parse_javascript code = Some root → Under root n → node_text n = Some t →
  P code (node_kind n) t = true.
Proof.
  intros H1 H2 H3 [= <-] Hu Ht. apply (demo_all_text (P code) n t); [|done].
  apply (demo_all_under _ (demo_root code)); [by apply demo_root_all|done].
Qed.

#[export] Instance demo_texts : NodeTexts demo_tree.
Proof.
  split. intros code root n t Hp Hu Ht. apply Nat.leb_le.
  apply (demo_root_text (λ code _ t, (String.length t <=? String.length code)%nat) code root n t);
    [by vm_compute..|apply Nat.leb_refl|done|done|done].
Qed.

#[export] Instance demo_serde_laws : SerdeTextLaws demo_serde.
Proof.
  split. intros s t. cbn. destruct (bool_decide_reflect (s = demo_literal)) as [->|]; [|done].
  intros [= <-]. apply Nat.ltb_lt. by vm_compute.
Qed.

Definition demo_not_lone (_ k t : string) : bool :=
  negb (bool_decide (k ∈ ["string"; "template_string"])) || negb (bool_decide (t ∈ [single_quote; backtick])).

Lemma demo_paired code : quotes_paired code.
Proof.
  intros root n t Hp Hu Ht.
  assert (H : demo_not_lone code (node_kind n) t = true) by by apply (demo_root_text demo_not_lone code root n t).
  apply orb_true_iff in H as [H|H]; apply negb_true_iff, bool_decide_eq_false in H; set_solver.
Qed.

(** ** Tables *)

Definition no_tables : SessionTables :=
  mkTables ∅ ∅ ∅ ∅ usage_empty None None (mkWorld ∅ [] ∅) (mkTerminals ∅ ∅).

Definition no_time (_ : string) : option Z := None.
Definition same_uuid (s : string) : option string := Some s.
Definition demo_json (_ : Value) : string := "{}".
Definition demo_hash (s : string) : string := s.
Definition no_plans (input : Value) (op : option string) (cat : option OperationCategory) :=
  (input, op, cat).

Definition demo_env (source : TranscriptSource) : LineEnv := mkLine "s" source 5 "switch" None None.

(** ** A Codex session *)

Definition codex_record (kind : string) (payload : list (string * Value)) : Value :=
  json_object [("type", Str kind); ("payload", json_object payload)].

Definition demo_meta : Value := codex_record "session_meta" [("id", Str "s"); ("forked_from_id", Str "p")].
Definition demo_turn : Value := codex_record "turn_context" [("turn_id", Str "t1")].
Definition demo_message : Value :=
  codex_record "response_item"
    [("type", Str "message"); ("role", Str "user");
     ("content", Array [json_object [("type", Str "input_text"); ("text", Str "hi")]])].

Definition demo_chunks : list (list (Z * Value)) := [[(0, demo_meta)]; [(10, demo_turn); (20, demo_message)]].

Lemma demo_transcript : codex_transcript "s" ((mjoin demo_chunks).*2).
Proof.
  assert (Hin : ∀ v, v ∈ (mjoin demo_chunks).*2 → v = demo_meta ∨ v = demo_turn ∨ v = demo_message).
  { intros v Hv. change (v ∈ [demo_meta; demo_turn; demo_message]) in Hv. set_solver. }
  split.
  - intros first [= <-]. by split.
  - intros first v [= <-] Hv [Hk _]. apply Hin in Hv as [->|[->| ->]]; [done|discriminate Hk..].
  - intros v Hv. apply Hin in Hv as [->|[->| ->]]; vm_compute; intros H.
    + set_solver.
    + by left.
    + set_solver.
Qed.

(** ** A Claude Code record *)

Definition demo_assistant : Value :=
  json_object
    [("type", Str "user");
     ("toolUseResult", json_object [("filePath", Str "a.txt")]);
     ("message", json_object
        [("content", Array
            [json_object [("type", Str "text"); ("text", Str "done")];
             json_object [("type", Str "tool_use"); ("id", Str "t1"); ("name", Str "Read");
                          ("input", json_object [("file_path", Str "a.txt")])];
             json_object [("type", Str "tool_result"); ("tool_use_id", Str "t1"); ("content", Str "x")]])])].

Definition demo_parsed : CanonicalEvent :=
  match parse_canonical_event "claude-code" demo_assistant "s" 7 None with
  | Ok e => e
  | Err _ => codex_event SpOther "" []
  end.

Lemma demo_parsed_ok : parse_canonical_event "claude-code" demo_assistant "s" 7 None = Ok demo_parsed.
Proof. vm_compute. reflexivity. Qed.

(** ** A PTY *)

Definition demo_compacted : list UsageEvent :=
  [mkUsageEvent 0 1 "user" None
     (json_object [("type", Str "user"); ("message", json_object [("content", Str "start")])]);
   mkUsageEvent 10 2 "system" None
     (json_object [("type", Str "system"); ("subtype", Str "turn_duration")]);
   mkUsageEvent 20 3 "user" None
     (json_object [("type", Str "user"); ("isCompactSummary", Bool true);
                   ("message", json_object [("content", Str "what happened")])])].

Definition demo_pty : PtySession := mkPtySession (Some "s") "live" "running".

(** The row a summary used to leave. *)
Definition demo_terminals : Terminals :=
  mkTerminals {["pty" := demo_pty]}
    {["pty" := mkActivity "working" (Some "what happened") None "ingester" "derived" 3]}.

Definition demo_history : History := λ _, (ClaudeCode, demo_compacted).
Definition demo_text (v : Value) : string := match v with Bool true => "true" | _ => "" end.

(** After one pass; a session described twice; an attachment with a message. *)
Definition demo_after : SessionTables :=
  match pass demo_hash demo_json same_uuid no_time (demo_env Codex) no_tables (mjoin demo_chunks) with
  | Ok t => t
  | Err _ => no_tables
  end.

Definition demo_forks : list (Z * Value) :=
  [(0, codex_record "session_meta" [("id", Str "s")]);
   (10, codex_record "session_meta" [("id", Str "s"); ("forked_from_id", Str "p")])].

Definition demo_sidechain (chunks : list (list (Z * Value))) : res (option bool) :=
  t ← try_fold (pass demo_hash demo_json same_uuid no_time (demo_env Codex)) chunks no_tables;
  Ok (er_is_sidechain <$> t_events t !! 20).

Definition demo_attachment : Value :=
  json_object
    [("type", Str "attachment"); ("message", json_object [("content", Str "message")]);
     ("rendered", Array [json_object [("content", Str "rendered")]])].

(** C33. A patch round trips: the text of a list of edits, each a header and
    the lines of its diff between the begin and end markers, is parsed to the
    same edits, in order, with their paths, operations, old paths and diffs -
    where the paths are trimmed, a diff has no line that begins as a header
    does and no newline at its end, every line is one as lines are read, and
    the header of a move has " to " for the first time between its paths. *)
Theorem apply_patch_roundtrip es : Forall valid_edit es →
  parse_apply_patch (render_patch es) = Object [("file_edits", Array (edit_value <$> es))].
Proof. intros Hes. unfold parse_apply_patch. by rewrite patch_edits_render. Qed.

Lemma apply_patch_roundtrip_witness :
  let es := [mkEdit "a.rs" "update" None ("@@" +:+ newline +:+ "-x" +:+ newline +:+ "+y");
             mkEdit "to.rs" "move" (Some "from.rs") ""; mkEdit "b.rs" "delete" None ""] in
  Forall valid_edit es ∧
  parse_apply_patch (render_patch es) = Object [("file_edits", Array (edit_value <$> es))].
Proof.
  intros es. assert (H : Forall valid_edit es); [|split; [exact H|apply (apply_patch_roundtrip es H)]].
  repeat constructor; try (vm_compute; reflexivity); try discriminate.
  intros a b E. pose proof (contains_between " to " a b) as Hc. rewrite <-E in Hc. discriminate Hc.
Defined.

(** C34. The blocks of a parsed record survive storage: written one by one
    under their positions and read back in position order, they are the same
    blocks in the same order, with their kinds, texts, tool ids, names,
    inputs, results and error flags - the input of a tool use as the
    projection of plans shows it, with the whole input and the raw form in the
    stored row. Of a Claude Code record, its first tool result has the
    structured result and the others have none. An attachment is taken to
    carry no message of its own: of one that does, the blocks are not all
    numbered apart. *)
Theorem parsed_blocks_read_back `{T : TreeSitter} `{J : SerdeText} hash_text rules project agent v session o ctx
    e sp t :
  parse_canonical_event agent v session o ctx = Ok e →
  (agent ≠ "codex" → get_str v "type" = Some "attachment" →
     get v "message" = None ∧ get v "content" = None) →
  Z.of_nat (length (ce_blocks e)) ≤ 2 ^ 31 → (∀ i, t_blocks t !! (o, i) = None) →
  let stored := t_blocks (insert_blocks hash_text o sp (ce_blocks e) t) in
  kept_fields tool_input <$> load_event_blocks rules project o stored =
    kept_fields (input_read rules project) <$> ce_blocks e ∧
  (∀ b, b ∈ ce_blocks e → ∃ row, stored !! (o, ord b) = Some row ∧
     br_tool_input row = tool_input b ∧ br_raw row = Events.raw b) ∧
  (agent ≠ "codex" → payload_first (claude_payload v) (outputs (ce_blocks e))).
Proof.
  unfold parse_canonical_event. intros (parsed & Hp & [= <-])%res_bind_Ok Hatt Hl Hf.
  destruct (bool_decide_reflect (agent = "codex")) as [->|Hne].
  - destruct (blocks_read_back hash_text rules project o sp
      (ce_blocks (enrich_codex_lineage parsed v session o ctx)) t) as [Hs Hr]; [|done..].
    destruct (enrich_blocks parsed v session o ctx) as [->| ->]; [done|by eapply codex_numbered].
  - destruct (claude_well_formed v parsed (Hatt Hne) Hp) as (Hn & Hpay & _).
    by destruct (blocks_read_back hash_text rules project o sp (ce_blocks parsed) t Hn Hl Hf) as [Hs Hr].
Qed.

Lemma parsed_blocks_read_back_witness :
  length (ce_blocks demo_parsed) = 3%nat ∧
  (let stored := t_blocks (insert_blocks demo_hash 7 SpUser (ce_blocks demo_parsed) no_tables) in
   kept_fields tool_input <$> load_event_blocks [] no_plans 7 stored =
     kept_fields (input_read [] no_plans) <$> ce_blocks demo_parsed ∧
   (∀ b, b ∈ ce_blocks demo_parsed → ∃ row, stored !! (7, ord b) = Some row ∧
      br_tool_input row = tool_input b ∧ br_raw row = Events.raw b) ∧
   ("claude-code" ≠ "codex" → payload_first (claude_payload demo_assistant) (outputs (ce_blocks demo_parsed)))).
Proof.
  split; [by vm_compute|].
  apply (parsed_blocks_read_back demo_hash [] no_plans "claude-code" demo_assistant "s" 7 None demo_parsed).
  - apply demo_parsed_ok.
  - intros _ H. vm_compute in H. discriminate H.
  - vm_compute. discriminate.
  - intros i. reflexivity.
Defined.

(** Pasted text is unwrapped by rules: outside fenced code a delimiter
    line goes together with the next line that closes it, and what is between
    stays, delimiters included; one that is never closed keeps everything
    after it. A text from which nothing goes is returned as it is, otherwise
    the lines left are joined and line breaks at the ends trimmed. *)
Lemma pasted_text_unwrapped text :
  ∃ out, Unwraps (outside None (split_inclusive text)) out ∧
    normalize_user_text text =
      if bool_decide (length out = length (split_inclusive text)) then text
      else trim_newlines (concat_text out).
Proof.
  destruct (Unwraps_total (outside None (split_inclusive text))) as [out Hout].
  exists out. split; [exact Hout|by apply normalize_unwraps].
Qed.

(** C36. Canonicalizing a tool use always ends in a result, a program in a
    program included: with the fuel the blocks are built with, and any more,
    it is the same pair of a name and an input, provided that in the programs
    that are parsed for it - the input of an [exec], and in turn those of the
    [exec] calls in it - no string is a lone quote. Calls and literals are
    read the same with any fuel above the size of the tree. *)
Theorem tool_use_canonicalized `{T : TreeSitter} `{J : SerdeText}
    (HT : TreeSitterLaws T) (HN : NodeTexts T) (HJ : SerdeTextLaws J) fuel name input :
  (∀ code, Reached (canonicalize_tool_name name) input code → quotes_paired code) →
  (input_fuel input ≤ fuel)%nat →
  (∃ r, canonicalize_tool_use (input_fuel input) name input = Ok r ∧
     canonicalize_tool_use fuel name input = Ok r) ∧
  (∀ code root n, parse_javascript code = Some root → (node_size root < n)%nat →
     collect_tool_calls n [] root = parse_tool_calls code) ∧
  (∀ node n, (node_size node < n)%nat → js_literal n node = js_literal (S (node_size node)) node).
Proof.
  intros Hq Hf. split; [by apply canonicalize_use_ok|]. split.
  - intros code root n Hp Hn. unfold parse_tool_calls. rewrite Hp. apply collect_fuel; lia.
  - intros node n Hn. apply js_literal_fuel; lia.
Qed.

(** A program in a program, with a parser that gives every source a root. *)
Lemma tool_use_canonicalized_witness :
  canonicalize_tool_use (input_fuel (Str nested_code)) "exec" (Str nested_code) =
    Ok ("exec", Object [("code", Str nested_code);
      ("operations", Array [Object [("input", Str "ls"); ("name", Str "exec_command");
                                    ("raw_name", Str "exec_command")]])]) ∧
  Reached "exec" (Str nested_code) demo_code ∧
  (∃ r, canonicalize_tool_use (input_fuel (Str nested_code)) "exec" (Str nested_code) = Ok r ∧
     canonicalize_tool_use 100 "exec" (Str nested_code) = Ok r).
Proof.
  split; [vm_compute; reflexivity|]. split.
  - eapply (Reached_call nested_code _ (mkCall "exec" (Str demo_code))); [vm_compute; reflexivity|by left|apply Reached_here].
  - apply (tool_use_canonicalized demo_tree_laws demo_texts demo_serde_laws 100 "exec" (Str nested_code)).
    + intros code _. apply demo_paired.
    + apply Nat.leb_le. vm_compute. reflexivity.
Defined.

(** Where passes end does not show: the lines of a Codex session
    inserted pass by pass, each pass loading the lineage context from the rows
    so far, leave exactly the tables (or the error) one pass leaves, provided
    the transcript starts with the session's own description, which later
    ones repeat. *)
Theorem passes_do_not_show `{T : TreeSitter} `{J : SerdeText} hash_text json_text parse_uuid
    parse_rfc3339 env chunks t :
  le_source env = Codex → t_events t = ∅ → offsets_from 0 (mjoin chunks) →
  codex_transcript (le_session env) (mjoin chunks).*2 →
  try_fold (pass hash_text json_text parse_uuid parse_rfc3339 env) chunks t =
  pass hash_text json_text parse_uuid parse_rfc3339 env t (mjoin chunks).
Proof.
  intros Henv He Hoff Htr.
  rewrite (passes_one _ _ _ _ env 0 chunks [] (context_new (le_session env)) t); try done.
  - unfold pass, pass_context. by rewrite Henv, He.
  - intros k Hk. by rewrite He, lookup_empty in Hk; destruct Hk.
Qed.

Lemma passes_do_not_show_witness :
  is_ok (pass demo_hash demo_json same_uuid no_time (demo_env Codex) no_tables (mjoin demo_chunks)) = true ∧
  try_fold (pass demo_hash demo_json same_uuid no_time (demo_env Codex)) demo_chunks no_tables =
  pass demo_hash demo_json same_uuid no_time (demo_env Codex) no_tables (mjoin demo_chunks).
Proof.
  split; [vm_compute; reflexivity|].
  apply (passes_do_not_show demo_hash demo_json same_uuid no_time (demo_env Codex) demo_chunks no_tables).
  - reflexivity.
  - reflexivity.
  - cbn. lia.
  - apply demo_transcript.
Defined.

(** Rewriting a Codex session repairs nothing that is in order: after
    its lines were inserted into empty tables, [repair_codex_session] succeeds
    and leaves the events, their blocks and the parent link exactly as they
    were. *)
Lemma repair_is_identity `{T : TreeSitter} `{J : SerdeText} hash_text json_text parse_uuid
    parse_rfc3339 env lines t t' now :
  le_source env = Codex → le_subagent_tool_use_id env = None →
  Forall (λ l, codex_record_kind l.2 ≠ Some "inherited_history") lines →
  t_events t = ∅ → t_blocks t = ∅ → offsets_from 0 lines →
  pass hash_text json_text parse_uuid parse_rfc3339 env t lines = Ok t' →
  ∃ t2, repair_codex_session hash_text parse_uuid (le_session env) now t' = Ok t2 ∧
    t_events t2 = t_events t' ∧ t_blocks t2 = t_blocks t' ∧ t_parent t2 = t_parent t'.
Proof.
  intros Henv Hsub Hk He Hb Hoff. unfold pass, pass_context. rewrite Henv, He.
  intros (st & Hst & [= <-])%res_bind_Ok.
  destruct (stored_lines hash_text json_text parse_uuid parse_rfc3339 env 0 lines
    (context_new (le_session env)) t st) as (ctx & _ & Hs); try done.
  - by apply stored_empty.
  - intros k Hk'. by rewrite He, lookup_empty in Hk'; destruct Hk'.
  - by eapply repair_stored.
Qed.

Lemma repair_is_identity_witness :
  size (t_blocks demo_after) = 1%nat ∧ t_parent demo_after = Some "p" ∧
  ∃ t2, repair_codex_session demo_hash same_uuid "s" 9 demo_after = Ok t2 ∧
    t_events t2 = t_events demo_after ∧ t_blocks t2 = t_blocks demo_after ∧
    t_parent t2 = t_parent demo_after.
Proof.
  split; [vm_compute; reflexivity|]. split; [vm_compute; reflexivity|].
  apply (repair_is_identity demo_hash demo_json same_uuid no_time (demo_env Codex) (mjoin demo_chunks) no_tables
    demo_after 9).
  - reflexivity.
  - reflexivity.
  - repeat constructor; vm_compute; discriminate.
  - reflexivity.
  - reflexivity.
  - cbn. lia.
  - vm_compute. reflexivity.
Defined.

(** A repaired report is what the transcript says: after a compaction
    summary was taken for a prompt, the repair leaves the PTY with the state,
    source, reason and confidence that following every record of the session
    from the start gives it (and its summary, which only a report trims and
    cuts). A PTY that changed session, a report made or a record appended
    since the repair read its rows wins: the repair then changes nothing. *)
Theorem repair_follows_transcript json_text (history : History) ts pty now c tr :
  candidate json_text history ts pty = Some c →
  activity_before_compaction (history (cand_session c)).2 (cand_through c) (cand_summary c) = Some tr →
  kinds_named (history (cand_session c)).2 →
  (∀ ts0 ps clock, ptys ts0 !! pty = Some ps → runs (cand_session c) ps = true →
     activity ts0 !! pty = None →
     ∃ r r',
       activity (project_all (cand_session c) ClaudeCode
         ((λ e, (payload e, clock e)) <$> (history (cand_session c)).2) ts0) !! pty = Some r ∧
       activity (repair_pty json_text (ts, history) (ts, history) pty now) !! pty = Some r' ∧
       act_state r' = act_state r ∧ act_source r' = act_source r ∧ act_reason r' = act_reason r ∧
       act_confidence r' = act_confidence r ∧ clean_optional (act_summary r') 240 = act_summary r) ∧
  (∀ after : Terminals * History,
     (∀ ps, ptys after.1 !! pty = Some ps → current_session_uuid ps ≠ Some (cand_session c)) ∨
     (∀ a, activity after.1 !! pty = Some a → act_updated_at a ≠ cand_updated_at c) ∨
     max_offset (after.2 (cand_session c)).2 ≠ Some (cand_through c) →
     repair_pty json_text (ts, history) after pty now = after.1).
Proof.
  intros Hc Hb Hk. split.
  - intros ts0 ps clock Hp Hr Ha.
    apply candidate_Some in Hc as Hcand. destruct Hcand as (_ & _ & _ & _ & _ & _ & _ & _ & Hm).
    pose proof (repaired_transition _ _ _ _ Hk Hm Hb) as Hlast.
    destruct (last_report ClaudeCode (history (cand_session c)).2 clock tr Hlast) as [at_ Hreport].
    eexists _, _. split; [|split; [by eapply repair_unchanged|]].
    + rewrite (project_all_standing _ _ _ _ _ ps), Ha by done. unfold standing. by rewrite Hreport.
    + done.
  - intros after Hch. by eapply repair_changed.
Qed.

Lemma repair_follows_transcript_witness :
  activity (repair_pty demo_text (demo_terminals, demo_history) (demo_terminals, demo_history) "pty" 9)
    !! "pty" = Some (mkActivity "awaiting_prompt" None None "ingester" "derived" 9) ∧
  ∃ r r',
    activity (project_all "s" ClaudeCode ((λ e, (payload e, 7)) <$> demo_compacted)
      (mkTerminals {["pty" := demo_pty]} ∅)) !! "pty" = Some r ∧
    activity (repair_pty demo_text (demo_terminals, demo_history) (demo_terminals, demo_history) "pty" 9)
      !! "pty" = Some r' ∧
    act_state r' = act_state r ∧ act_source r' = act_source r ∧ act_reason r' = act_reason r ∧
    act_confidence r' = act_confidence r ∧ clean_optional (act_summary r') 240 = act_summary r.
Proof.
  split; [vm_compute; reflexivity|].
  apply (repair_follows_transcript demo_text demo_history demo_terminals "pty" 9
    (mkCandidate "s" 3 "what happened" 20) (AwaitingPrompt, None, "derived")) with (ps := demo_pty).
  - vm_compute. reflexivity.
  - vm_compute. reflexivity.
  - repeat constructor; vm_compute; reflexivity.
  - reflexivity.
  - vm_compute. reflexivity.
  - reflexivity.
Defined.

(** ** Where the code does not do what it means to *)

(** A token that is a lone quote has no inside. *)
Lemma lone_quote_panics `{J : SerdeText} :
  panics (decode_string single_quote) ∧ panics (decode_template backtick).
Proof. split; vm_compute; by eexists. Qed.

(** A rule whose pattern begins with an underscore takes any first character. *)
Lemma underscore_rule_takes_any :
  rule_applies "flock" (mkRule "prefix" "_lock" "lock" "workflow" 20) = true ∧
  rule_applies "wget" (mkRule "prefix" "_get" "get" "research" 20) = true.
Proof. split; vm_compute; reflexivity. Qed.

(** A second description of the session that names another parent counts for
    the rest of its pass only. *)
Lemma second_description_depends_on_passes :
  demo_sidechain [demo_forks ++ [(20, demo_message)]] = Ok (Some true) ∧
  demo_sidechain [demo_forks; [(20, demo_message)]] = Ok (Some false).
Proof. split; vm_compute; reflexivity. Qed.

(** An attachment with a message of its own and rendered parts numbers both
    from zero, and the parts replace the message when they are stored. *)
Lemma rendered_replaces_message :
  match claude_parse demo_attachment with
  | Ok e => Events.text <$> ce_blocks e = [Some "message"; Some "rendered"] ∧
      Events.text <$> load_event_blocks [] no_plans 7
        (t_blocks (insert_blocks demo_hash 7 SpSystem (ce_blocks e) no_tables)) = [Some "rendered"]
  | Err _ => False
  end.
Proof. vm_compute. split; reflexivity. Qed.
