(* ===== verification/Submitted.v ===== *)
(** * Submitted prompts

    [submitted_prompts.rs] and the prompt route of [api/session_routes.rs]: a
    prompt is recorded, delivered to its terminal, and later matched with the
    turn of the timeline it became. *)

From S2P Require Import Prelude Text Store Activity.

(** ** The gate *)

Inductive PromptGate : Type := Starting | GateNeedsInput | GateBlocked.

#[export] Instance PromptGate_eq_dec : EqDecision PromptGate.
Proof. solve_decision. Defined.

Definition describe (g : PromptGate) : string :=
  match g with
  | Starting => "the agent has not reported a session for this launch yet; answer any startup prompt in the terminal"
  | GateNeedsInput => "the agent is waiting for input in the terminal"
  | GateBlocked => "the agent reports it is blocked"
  end.

Definition correlated_for_launch (current_session : option string)
    (correlated_at runtime_started_at : option Z) : bool :=
  if is_none current_session then false
  else
    match correlated_at, runtime_started_at with
    | Some correlated, Some started => started <=? correlated
    | Some _, None => true
    | None, _ => false
    end.

Definition harness_ready (current_session : option string)
    (correlated_at runtime_started_at : option Z) (activity_source : option string) : bool :=
  correlated_for_launch current_session correlated_at runtime_started_at
  || match activity_source with
     | Some source => bool_decide (source ∈ ["hook"; "agent"; "ingester"])
     | None => false
     end.

(** The launch of a terminal: [agent_runtime_started_at] and
    [current_session_correlated_at] of [pty_sessions]. *)
Record Launch : Type := mkLaunch {
  runtime_started_at : option Z;
  session_correlated_at : option Z;
}.

(** ** Tables *)

Record PromptRow : Type := mkPrompt {
  sp_pty : string;
  sp_agent : option string;
  sp_text : string;
  sp_forced : bool;
  submitted_at : Z;
  delivery_error : option string;
  matched_session : option string;
  matched_turn : option Z;
  matched_at : option Z;
  dismissed_at : option Z;
}.

#[export] Instance PromptRow_eq_dec : EqDecision PromptRow.
Proof. solve_decision. Defined.

(** The columns of [timeline_turns] matching reads. *)
Record PromptTurn : Type := mkTurn {
  user_prompt_text : option string;
  start_timestamp : Z;
}.

(** [submitted_prompts], the PTY of each row of [claude_sessions], the turns
    and the terminals. *)
Record PromptWorld : Type := mkPrompts {
  prompts : gmap string PromptRow;
  session_pty : gmap string (option string);
  turns : gmap (string * Z) PromptTurn;
  launches : gmap string Launch;
  terminals : Terminals;
}.

Definition set_prompts (p : gmap string PromptRow) (w : PromptWorld) : PromptWorld :=
  mkPrompts p (session_pty w) (turns w) (launches w) (terminals w).
Definition set_terminals (t : Terminals) (w : PromptWorld) : PromptWorld :=
  mkPrompts (prompts w) (session_pty w) (turns w) (launches w) t.

Definition prompt_gate (pty : string) (w : PromptWorld) : option PromptGate :=
  match ptys (terminals w) !! pty with
  | None => None
  | Some ps =>
      let launch := launches w !! pty in
      let row := activity (terminals w) !! pty in
      if bool_decide (agent_runtime_state ps = "running")
         && negb (harness_ready (current_session_uuid ps) (launch ≫= session_correlated_at)
                    (launch ≫= runtime_started_at) (act_source <$> row))
      then Some Starting
      else
        match act_state <$> row with
        | Some state =>
            if bool_decide (state = "needs_input") then Some GateNeedsInput
            else if bool_decide (state = "blocked") then Some GateBlocked
            else None
        | None => None
        end
  end.

(** ** Operations *)

Definition prompt_state (row : PromptRow) : string :=
  if is_some (dismissed_at row) then "dismissed"
  else if is_some (matched_at row) then "matched"
  else if is_some (delivery_error row) then "failed"
  else "unmatched".

Definition record (id pty : string) (agent : option string) (text : string) (forced : bool)
    (now : Z) (w : PromptWorld) : res PromptWorld :=
  if is_some (prompts w !! id) then bail "duplicate key value"
  else if is_none (ptys (terminals w) !! pty) then bail "violates foreign key constraint"
  else Ok (set_prompts (<[id := mkPrompt pty agent text forced now None None None None None]> (prompts w)) w).

Definition with_error (error : string) (r : PromptRow) : PromptRow :=
  mkPrompt (sp_pty r) (sp_agent r) (sp_text r) (sp_forced r) (submitted_at r) (Some error)
    (matched_session r) (matched_turn r) (matched_at r) (dismissed_at r).

Definition mark_delivery_error (id error : string) (w : PromptWorld) : PromptWorld :=
  set_prompts (alter (with_error error) id (prompts w)) w.

Definition with_dismissal (now : Z) (r : PromptRow) : PromptRow :=
  mkPrompt (sp_pty r) (sp_agent r) (sp_text r) (sp_forced r) (submitted_at r) (delivery_error r)
    (matched_session r) (matched_turn r) (matched_at r) (Some now).

Definition dismiss (pty id : string) (now : Z) (w : PromptWorld) : bool * PromptWorld :=
  match prompts w !! id with
  | Some r =>
      if bool_decide (sp_pty r = pty) && is_none (dismissed_at r)
      then (true, set_prompts (<[id := with_dismissal now r]> (prompts w)) w)
      else (false, w)
  | None => (false, w)
  end.

(** ** Matching *)

(** [DISTINCT ON (key) … ORDER BY key, rank]: of the rows with one key, the
    one with the least rank, the first in heap order among equals. *)
Definition distinct_on {A K} `{Countable K} (key : A → K) (rank : A → Z) (rows : list A) : gmap K A :=
  foldl (λ m a,
    match m !! key a with
    | Some b => if rank a <? rank b then <[key a := a]> m else m
    | None => <[key a := a]> m
    end) ∅ rows.

(** A row of the join of an open prompt with a turn. *)
Record Claim : Type := mkClaim {
  cl_id : string;
  cl_submitted_at : Z;
  cl_turn : string * Z;
  cl_start : Z;
}.

Section matching.
(** Which characters [[[:space:]]] takes, by the locale of the database. *)
Context (space : string → bool) `{HeapOrder Claim}.

(** [regexp_replace(text, '[[:space:]]+', ' ', 'g')] *)
Fixpoint collapse (in_space : bool) (cs : list string) : list string :=
  match cs with
  | [] => []
  | c :: cs =>
      if space c then (if in_space then [] else [" "]) ++ collapse true cs
      else c :: collapse false cs
  end.

(** [btrim] takes off the blanks at both ends. *)
Definition norm (text : string) : string :=
  trim_by (λ c, bool_decide (c = " ")) (concat_text (collapse false (chars text))).

Definition is_open (r : PromptRow) : bool := is_none (matched_at r) && is_none (dismissed_at r).

Definition claimed (turn : string * Z) (w : PromptWorld) : bool :=
  existsb (λ m, bool_decide (matched_session m = Some turn.1) && bool_decide (matched_turn m = Some turn.2))
    (map_to_list (prompts w)).*2.

(** The conditions of the join. *)
Definition qualifies (w : PromptWorld) (r : PromptRow) (turn : string * Z) (t : PromptTurn) : bool :=
  bool_decide (session_pty w !! turn.1 = Some (Some (sp_pty r)))
  && match user_prompt_text t with
     | Some text =>
         (submitted_at r - 10000000 <=? start_timestamp t) && bool_decide (norm text = norm (sp_text r))
     | None => false
     end
  && negb (claimed turn w).

Definition claims (w : PromptWorld) : list Claim :=
  '(id, r) ← map_to_list (prompts w);
  '(turn, t) ← map_to_list (turns w);
  if is_open r && qualifies w r turn t
  then [mkClaim id (submitted_at r) turn (start_timestamp t)] else [].

Definition per_prompt (w : PromptWorld) : gmap string Claim :=
  distinct_on cl_id cl_start (heap_order (claims w)).

Definition per_turn (w : PromptWorld) : gmap (string * Z) Claim :=
  distinct_on cl_turn cl_submitted_at (heap_order (map_to_list (per_prompt w)).*2).

Definition matched (turn : string * Z) (now : Z) (r : PromptRow) : PromptRow :=
  mkPrompt (sp_pty r) (sp_agent r) (sp_text r) (sp_forced r) (submitted_at r) (delivery_error r)
    (Some turn.1) (Some turn.2) (Some now) (dismissed_at r).

Definition won (w : PromptWorld) (id : string) : option (string * Z) :=
  cl_turn <$> List.find (λ c, bool_decide (cl_id c = id)) (map_to_list (per_turn w)).*2.

(** The rows matched and the rows after. *)
Definition reconcile (now : Z) (w : PromptWorld) : nat * PromptWorld :=
  (size (per_turn w),
   set_prompts (map_imap (λ id r, Some (match won w id with
                                        | Some turn => matched turn now r
                                        | None => r
                                        end)) (prompts w)) w).
End matching.

Definition RETENTION_DAYS : Z := 7.
Definition day : Z := 86400 * 1000000.

Definition expired (now : Z) (r : PromptRow) : bool :=
  let old (at_ : option Z) :=
    match at_ with Some t => t <? now - RETENTION_DAYS * day | None => false end in
  old (matched_at r) || old (dismissed_at r).

Definition prune (now : Z) (w : PromptWorld) : PromptWorld :=
  set_prompts (filter (λ kv, expired now kv.2 = false) (prompts w)) w.

(** ** Listing *)

Definition RECENT_LIMIT : nat := 50.

Definition later_first (a b : string * PromptRow) : Prop := submitted_at b.2 ≤ submitted_at a.2.
#[export] Instance later_first_dec a b : Decision (later_first a b).
Proof. unfold later_first. apply _. Defined.

Definition list_prompts `{HeapOrder (string * PromptRow)} (pty : string) (w : PromptWorld)
    : list (string * PromptRow) :=
  take RECENT_LIMIT
    (merge_sort later_first
       (heap_order (filter (λ kv, sp_pty kv.2 = pty) (map_to_list (prompts w))))).

(** ** Submitting *)

Fixpoint replace_crlf (s : string) : string :=
  match s with
  | String a (String b s' as rest) =>
      if bool_decide (a = "013"%char) && bool_decide (b = "010"%char)
      then String "010" (replace_crlf s')
      else String a (replace_crlf rest)
  | _ => s
  end.

Fixpoint replace_byte (old new : Ascii.ascii) (s : string) : string :=
  match s with
  | EmptyString => EmptyString
  | String a s => String (if bool_decide (a = old) then new else a) (replace_byte old new s)
  end.

Definition prompt_input_chunks (text : string) : list string :=
  let normalized :=
    replace_byte "010" "013"
      (trim_end_by (λ c, bool_decide (c = newline)) (replace_byte "013" "010" (replace_crlf text))) in
  [bytes [27%N] +:+ "[200~" +:+ normalized +:+ bytes [27%N] +:+ "[201~"; bytes [13%N]].

(** The node of a terminal, when there is one, and its answer to a chunk. *)
Record Node : Type := mkNode {
  session_node : string → res unit;
  request : string → string → res unit;
}.

(** The chunks in order, up to the first that fails; those handed over. *)
Fixpoint send_chunks (node : Node) (pty : string) (chunks : list string) (sent : list string)
    : list string * res unit :=
  match chunks with
  | [] => (sent, Ok tt)
  | chunk :: chunks =>
      match request node pty chunk with
      | Ok _ => send_chunks node pty chunks (sent ++ [chunk])
      | Err e => (sent ++ [chunk], Err e)
      end
  end.

Definition error_text (e : error) : string :=
  match e with Failed msg => msg | Panicked msg => msg end.

Definition deliver_prompt (node : Node) (pty text : string) : list string * res unit :=
  match session_node node pty with
  | Ok _ => send_chunks node pty (prompt_input_chunks text) []
  | Err e => ([], Err e)
  end.

(** The bytes handed to the node, the answer and the tables after.
    [agent] is the agent of the runtime, [id] the identifier the row gets. *)
Definition send_session_prompt (node : Node) (id pty : string) (agent : option string)
    (text : string) (force : bool) (now : Z) (w : PromptWorld) : list string * res unit * PromptWorld :=
  if is_empty (trim text) then ([], bail "prompt text must not be empty", w)
  else
    match ptys (terminals w) !! pty with
    | None => ([], bail "not found", w)
    | Some ps =>
        if negb (bool_decide (pty_state ps = "live")) then ([], bail "PTY session is not live", w)
        else if negb (bool_decide (agent_runtime_state ps = "running"))
        then ([], bail "agent is not running", w)
        else
          match (if force then None else prompt_gate pty w) with
          | Some gate => ([], bail ("prompt not sent: " +:+ describe gate), w)
          | None =>
              match record id pty agent text force now w with
              | Err e => ([], Err e, w)
              | Ok w =>
                  match deliver_prompt node pty text with
                  | (sent, Err e) => (sent, Err e, mark_delivery_error id (error_text e) w)
                  | (sent, Ok _) =>
                      match activity_set pty Working (Some text) None "user" "explicit" now (terminals w) with
                      | Ok (_, t) => (sent, Ok tt, set_terminals t w)
                      | Err e => (sent, Err e, w)
                      end
                  end
              end
          end
    end.
