(* ===== verification/SubmittedInv.v ===== *)
(** * Invariants of submitted prompts

    What a pass of matching chooses, the histories of prompts as a step
    relation, and what no step breaks. *)

From S2P Require Import Prelude Text Store Activity Submitted.

(** ** The choice of [DISTINCT ON] *)

Section distinct.
Context {A K : Type} `{Countable K} (key : A → K) (rank : A → Z).

Lemma distinct_on_snoc rows a :
  distinct_on key rank (rows ++ [a]) =
  match distinct_on key rank rows !! key a with
  | Some b => if rank a <? rank b then <[key a := a]> (distinct_on key rank rows) else distinct_on key rank rows
  | None => <[key a := a]> (distinct_on key rank rows)
  end.
Proof. unfold distinct_on. by rewrite foldl_app. Qed.

Lemma distinct_on_is_Some rows a : a ∈ rows → is_Some (distinct_on key rank rows !! key a).
Proof.
  induction rows as [|x rows IH] using rev_ind; [by intros ?%elem_of_nil|].
  rewrite distinct_on_snoc. intros [Ha|Ha%list_elem_of_singleton]%elem_of_app.
  - specialize (IH Ha) as [y Hy].
    destruct (distinct_on key rank rows !! key x); [destruct (rank x <? rank a0)|];
      rewrite ?lookup_insert; try case_decide; eauto.
  - subst x. destruct (distinct_on key rank rows !! key a) eqn:E; [destruct (rank a <? rank a0)|];
      rewrite ?E, ?lookup_insert_eq; eauto.
Qed.
Lemma distinct_on_Some rows k a : distinct_on key rank rows !! k = Some a →
  a ∈ rows ∧ key a = k ∧ ∀ b, b ∈ rows → key b = k → rank a ≤ rank b.
Proof.
  revert k a. induction rows as [|x rows IH] using rev_ind; intros k a; [done|].
  rewrite distinct_on_snoc. intros Hk.
  assert (Hold : distinct_on key rank rows !! k = Some a → (key x = k → rank a ≤ rank x) →
    a ∈ rows ++ [x] ∧ key a = k ∧ ∀ b, b ∈ rows ++ [x] → key b = k → rank a ≤ rank b).
  { intros (Hin & Hka & Hmin)%IH Hx. split; [set_solver|]. split; [done|].
    intros b [Hb|Hb%list_elem_of_singleton]%elem_of_app; [by apply Hmin|by subst b]. }
  destruct (distinct_on key rank rows !! key x) as [y|] eqn:Hy.
  - destruct (Z.ltb_spec (rank x) (rank y)) as [Hlt|Hge].
    + apply lookup_insert_Some in Hk as [[<- <-]|[Hne Hk]]; [|by apply Hold].
      split; [set_solver|]. split; [done|].
      intros b [Hb|Hb%list_elem_of_singleton]%elem_of_app Hkb; [|by subst b].
      apply IH in Hy as (_ & _ & Hmin). specialize (Hmin b Hb Hkb). lia.
    + apply Hold; [done|]. intros <-. rewrite Hy in Hk. by injection Hk as <-.
  - apply lookup_insert_Some in Hk as [[<- <-]|[Hne Hk]]; [|by apply Hold].
    split; [set_solver|]. split; [done|].
    intros b [Hb|Hb%list_elem_of_singleton]%elem_of_app Hkb; [|by subst b].
    destruct (distinct_on_is_Some rows b Hb) as [z Hz]. rewrite Hkb, Hy in Hz. done.
Qed.

End distinct.

(** ** What a pass matches *)

Section passes.
Context (space : string → bool) `{HeapOrder Claim}.

Lemma elem_of_claims w c : c ∈ claims space w ↔
  ∃ r t, prompts w !! cl_id c = Some r ∧ turns w !! cl_turn c = Some t ∧ is_open r = true ∧
    qualifies space w r (cl_turn c) t = true ∧ cl_submitted_at c = submitted_at r ∧
    cl_start c = start_timestamp t.
Proof.
  unfold claims. rewrite list_elem_of_bind. split.
  - intros ([id r] & Hc & Hr%elem_of_map_to_list). apply list_elem_of_bind in Hc.
    destruct Hc as ([turn t] & Hc & Ht%elem_of_map_to_list).
    destruct (is_open r && qualifies space w r turn t) eqn:E; [|by apply elem_of_nil in Hc].
    apply list_elem_of_singleton in Hc as ->. apply andb_true_iff in E as [Ho Hq].
    by exists r, t.
  - intros (r & t & Hr & Ht & Ho & Hq & Hs & Hst). exists (cl_id c, r).
    split; [|by apply elem_of_map_to_list]. apply list_elem_of_bind. exists (cl_turn c, t).
    split; [|by apply elem_of_map_to_list]. rewrite Ho, Hq. cbn. apply list_elem_of_singleton.
    destruct c; cbn in *. by subst.
Qed.

Lemma per_prompt_Some w id c : per_prompt space w !! id = Some c →
  c ∈ claims space w ∧ cl_id c = id ∧
  ∀ c', c' ∈ claims space w → cl_id c' = id → cl_start c ≤ cl_start c'.
Proof.
  unfold per_prompt. intros (Hin & Hid & Hmin)%distinct_on_Some.
  rewrite heap_perm in Hin. split; [done|]. split; [done|].
  intros c' Hc'. apply Hmin. by rewrite heap_perm.
Qed.

Lemma elem_of_chosen w c : c ∈ (map_to_list (per_prompt space w)).*2 ↔
  per_prompt space w !! cl_id c = Some c.
Proof.
  rewrite list_elem_of_fmap. split.
  - intros ([id c'] & -> & Hc%elem_of_map_to_list). cbn.
    by destruct (per_prompt_Some w id c' Hc) as (_ & -> & _).
  - intros Hc. exists (cl_id c, c). split; [done|by apply elem_of_map_to_list].
Qed.

Lemma per_turn_Some w turn c : per_turn space w !! turn = Some c →
  per_prompt space w !! cl_id c = Some c ∧ cl_turn c = turn ∧
  ∀ c', per_prompt space w !! cl_id c' = Some c' → cl_turn c' = turn →
    cl_submitted_at c ≤ cl_submitted_at c'.
Proof.
  unfold per_turn. intros (Hin & Ht & Hmin)%distinct_on_Some.
  rewrite heap_perm in Hin. apply elem_of_chosen in Hin. split; [done|]. split; [done|].
  intros c' Hc'. apply Hmin. rewrite heap_perm. by apply elem_of_chosen.
Qed.

Lemma won_Some w id turn : won space w id = Some turn ↔
  ∃ c, per_turn space w !! turn = Some c ∧ cl_id c = id.
Proof.
  unfold won. rewrite fmap_Some. split.
  - intros (c & Hc & ->). apply List.find_some in Hc as [Hin Hid%bool_decide_eq_true].
    apply list_elem_of_In, list_elem_of_fmap in Hin as ([t c'] & -> & Hc%elem_of_map_to_list).
    cbn in *. exists c'. split; [|done]. by destruct (per_turn_Some w t c' Hc) as (_ & -> & _).
  - intros (c & Hc & Hid).
    assert (Hin : c ∈ (map_to_list (per_turn space w)).*2).
    { apply list_elem_of_fmap. exists (turn, c). split; [done|by apply elem_of_map_to_list]. }
    destruct (List.find (λ c, bool_decide (cl_id c = id)) (map_to_list (per_turn space w)).*2)
      as [c'|] eqn:Hf.
    + exists c'. split; [done|]. apply List.find_some in Hf as [Hin' Hid'%bool_decide_eq_true].
      apply list_elem_of_In, list_elem_of_fmap in Hin' as ([t' c2] & -> & Hc'%elem_of_map_to_list).
      cbn in *. apply per_turn_Some in Hc as (Hc & <- & _), Hc' as (Hc' & <- & _).
      rewrite Hid in Hc. rewrite Hid', Hc in Hc'. by injection Hc' as ->.
    + eapply List.find_none in Hf; [|by apply list_elem_of_In, Hin].
      by rewrite bool_decide_eq_false in Hf.
Qed.

(** The winner of a turn is an open prompt that qualifies for it, has no
    earlier turn to take, and was submitted before all others that chose it. *)
Lemma won_choice w id turn : won space w id = Some turn →
  ∃ r t, prompts w !! id = Some r ∧ turns w !! turn = Some t ∧ is_open r = true ∧
    qualifies space w r turn t = true ∧
    (∀ turn' t', turns w !! turn' = Some t' → qualifies space w r turn' t' = true →
       start_timestamp t ≤ start_timestamp t').
Proof.
  intros (c & Hc & <-)%won_Some. apply per_turn_Some in Hc as (Hc & <- & _).
  apply per_prompt_Some in Hc as ((r & t & Hr & Ht & Ho & Hq & _ & Hst)%elem_of_claims & _ & Hmin).
  exists r, t. split_and!; try done. intros turn' t' Ht' Hq'. rewrite <-Hst.
  apply (Hmin (mkClaim (cl_id c) (submitted_at r) turn' (start_timestamp t'))); [|done].
  apply elem_of_claims. by exists r, t'.
Qed.

Lemma won_inj w i j turn : won space w i = Some turn → won space w j = Some turn → i = j.
Proof.
  intros (c & Hc & <-)%won_Some (c' & Hc' & <-)%won_Some. rewrite Hc in Hc'. by injection Hc' as ->.
Qed.

Lemma lookup_reconcile now w id : prompts (reconcile space now w).2 !! id =
  (λ r, match won space w id with Some turn => matched turn now r | None => r end) <$> prompts w !! id.
Proof. unfold reconcile. cbn. rewrite map_lookup_imap. by destruct (prompts w !! id). Qed.

(** A pass over something to match matches something. *)
Lemma some_won w : claims space w ≠ [] → ∃ id turn, won space w id = Some turn.
Proof.
  intros Hne. destruct (claims space w) as [|c l] eqn:E; [done|].
  assert (Hc : c ∈ heap_order (claims space w)) by (rewrite heap_perm, E; left).
  destruct (distinct_on_is_Some cl_id cl_start _ c Hc) as [c1 Hc1].
  change (per_prompt space w !! cl_id c = Some c1) in Hc1.
  assert (Hc1' : c1 ∈ heap_order (map_to_list (per_prompt space w)).*2).
  { rewrite heap_perm. apply elem_of_chosen. by destruct (per_prompt_Some w _ c1 Hc1) as (_ & -> & _). }
  destruct (distinct_on_is_Some cl_turn cl_submitted_at _ c1 Hc1') as [c2 Hc2].
  exists (cl_id c2), (cl_turn c1). apply won_Some. by exists c2.
Qed.
End passes.

(** ** Histories *)

Section histories.
Context (space : string → bool) `{HeapOrder Claim}.

(** A prompt is sent, dismissed, matched or pruned; what else happens to the
    transcripts, the timeline and the terminals is free, and takes the prompts
    of deleted terminals away. *)
Inductive prompt_step : PromptWorld → PromptWorld → Prop :=
  | step_send node id pty agent text force now w sent r w' :
      send_session_prompt node id pty agent text force now w = (sent, r, w') → prompt_step w w'
  | step_dismiss pty id now w : prompt_step w (dismiss pty id now w).2
  | step_reconcile now w : prompt_step w (reconcile space now w).2
  | step_prune now w : prompt_step w (prune now w)
  | step_world (kept : string → bool) w w' :
      prompts w' = filter (λ kv, kept (sp_pty kv.2) = true) (prompts w) → prompt_step w w'.

Definition claim_of (r : PromptRow) : option (option string * option Z) :=
  if is_some (matched_at r) then Some (matched_session r, matched_turn r) else None.

(** The three columns of a match are set together. *)
Definition claim_whole (r : PromptRow) : Prop :=
  match matched_at r, matched_session r, matched_turn r with
  | None, None, None | Some _, Some _, Some _ => True
  | _, _, _ => False
  end.

Record prompts_ok (w : PromptWorld) : Prop := {
  ok_whole id r : prompts w !! id = Some r → claim_whole r;
  ok_claims i j p q : prompts w !! i = Some p → prompts w !! j = Some q →
    is_some (matched_at p) = true → claim_of p = claim_of q → i = j;
}.

(** Rows that go, or change without touching their claims, break nothing. *)
Lemma prompts_ok_sub w w' :
  (∀ id r', prompts w' !! id = Some r' →
     claim_whole r' ∧ (is_some (matched_at r') = true → ∃ r, prompts w !! id = Some r ∧ claim_of r' = claim_of r)) →
  prompts_ok w → prompts_ok w'.
Proof.
  intros Hsub [Hw Hc]. split; [intros; by eapply Hsub|].
  intros i j p q Hi Hj Hm Hpq.
  destruct (Hsub i p Hi) as [_ (r & Hr & Hpr)]; [done|].
  assert (Hmq : is_some (matched_at q) = true).
  { unfold claim_of in Hpq. rewrite Hm in Hpq. by destruct (is_some (matched_at q)). }
  destruct (Hsub j q Hj) as [_ (r2 & Hr2 & Hqr)]; [done|].
  apply (Hc i j r r2 Hr Hr2); [|congruence].
  unfold claim_of in Hpr. rewrite Hm in Hpr. by destruct (is_some (matched_at r)).
Qed.

Definition same_claim (r r' : PromptRow) : Prop :=
  matched_at r' = matched_at r ∧ matched_session r' = matched_session r ∧ matched_turn r' = matched_turn r.

Lemma same_claim_whole r r' : same_claim r r' → claim_whole r → claim_whole r'.
Proof. unfold claim_whole. by intros (-> & -> & ->). Qed.
Lemma same_claim_of r r' : same_claim r r' → claim_of r' = claim_of r.
Proof. unfold claim_of. by intros (-> & -> & ->). Qed.

(** What every step but matching does to the rows. *)
Definition frame (w w' : PromptWorld) : Prop :=
  ∀ id r', prompts w' !! id = Some r' →
    (∃ r, prompts w !! id = Some r ∧ same_claim r r') ∨
    (prompts w !! id = None ∧ matched_at r' = None ∧ matched_session r' = None ∧ matched_turn r' = None).

Lemma frame_ok w w' : frame w w' → prompts_ok w → prompts_ok w'.
Proof.
  intros Hf Hok. eapply prompts_ok_sub; [|done]. intros id r' Hr'.
  destruct (Hf id r' Hr') as [(r & Hr & Hs)|(_ & Hm & Hs & Ht)].
  - split; [eapply same_claim_whole, ok_whole; done|]. exists r. split; [done|by apply same_claim_of].
  - unfold claim_whole. rewrite Hm, Hs, Ht. by split.
Qed.

Lemma same_claim_refl r : same_claim r r.
Proof. by repeat split. Qed.

Lemma alter_frame f id w : (∀ r, same_claim r (f r)) → frame w (set_prompts (alter f id (prompts w)) w).
Proof.
  intros Hf i r'. cbn. rewrite lookup_alter_Some. intros [(_ & r & Hr & ->)|(_ & Hr)]; left.
  - exists r. split; [done|apply Hf].
  - exists r'. split; [done|apply same_claim_refl].
Qed.

Lemma filter_frame w w' (P : string * PromptRow → Prop) `{∀ x, Decision (P x)} :
  prompts w' = filter P (prompts w) → frame w w'.
Proof.
  intros Hw id r'. rewrite Hw, map_lookup_filter_Some. intros [Hr _]. left. exists r'.
  split; [done|apply same_claim_refl].
Qed.

Lemma record_prompts id pty agent text force now w w1 :
  record id pty agent text force now w = Ok w1 → prompts w !! id = None ∧
  w1 = set_prompts (<[id := mkPrompt pty agent text force now None None None None None]> (prompts w)) w.
Proof.
  unfold record. destruct (prompts w !! id) eqn:E; [done|]. cbn.
  destruct (is_none _); [done|]. by intros [= <-].
Qed.

(** What sending leaves: nothing but, once recorded, the new row. *)
Lemma send_prompts node id pty agent text force now w sent r w' :
  send_session_prompt node id pty agent text force now w = (sent, r, w') →
  (sent = [] ∧ w' = w ∧ is_ok r = false) ∨
  (prompts w !! id = None ∧ ∃ err,
     prompts w' = <[id := mkPrompt pty agent text force now err None None None None]> (prompts w) ∧
     (err = None ↔ (deliver_prompt node pty text).2 = Ok tt) ∧ sent = (deliver_prompt node pty text).1).
Proof.
  unfold send_session_prompt. intros H1.
  destruct (is_empty _); [by injection H1 as <- <- <-; left|].
  destruct (ptys (terminals w) !! pty) as [ps|]; [|by injection H1 as <- <- <-; left].
  do 2 (destruct (negb _); [by injection H1 as <- <- <-; left|]).
  destruct (if force then None else prompt_gate pty w); [by injection H1 as <- <- <-; left|].
  destruct (record id pty agent text force now w) as [w1|] eqn:Hrec; [|by injection H1 as <- <- <-; left].
  apply record_prompts in Hrec as [Hn ->]. right. split; [done|].
  destruct (deliver_prompt node pty text) as [sent1 [[]|e]]; cbn.
  - exists None. destruct (activity_set _ _ _ _ _ _ _ _) as [[? ?]|]; by injection H1 as <- <- <-.
  - injection H1 as <- <- <-. exists (Some (error_text e)). split; [|by split].
    cbn. by rewrite alter_insert_eq.
Qed.

Lemma send_gate node id pty agent text force now w sent r w' row :
  send_session_prompt node id pty agent text force now w = (sent, r, w') →
  prompts w !! id = None → prompts w' = <[id := row]> (prompts w) → force = true ∨ prompt_gate pty w = None.
Proof.
  unfold send_session_prompt. intros H1 Hn Hp.
  assert (Hsame : w' ≠ w) by (intros ->; rewrite Hp, lookup_insert_eq in Hn; done).
  destruct (is_empty _); [by injection H1 as <- <- <-|].
  destruct (ptys (terminals w) !! pty) as [ps|]; [|by injection H1 as <- <- <-].
  do 2 (destruct (negb _); [by injection H1 as <- <- <-|]).
  destruct force; [by left|]. right.
  destruct (prompt_gate pty w); [by injection H1 as <- <- <-|done].
Qed.

Lemma send_chunks_prefix node pty chunks sent : (∃ k, (send_chunks node pty chunks sent).1 = sent ++ take k chunks).
Proof.
  revert sent. induction chunks as [|c chunks IH]; intros sent; cbn.
  - exists O. by rewrite app_nil_r.
  - destruct (request node pty c); [|by exists 1%nat].
    destruct (IH (sent ++ [c])) as [k ->]. exists (S k). cbn. by rewrite <-app_assoc.
Qed.

Lemma deliver_prefix node pty text : (deliver_prompt node pty text).1 `prefix_of` prompt_input_chunks text.
Proof.
  unfold deliver_prompt. destruct (session_node node pty); [|apply prefix_nil].
  destruct (send_chunks_prefix node pty (prompt_input_chunks text) []) as [k ->].
  exists (drop k (prompt_input_chunks text)). by rewrite app_nil_l, take_drop.
Qed.

Lemma send_frame node id pty agent text force now w sent r w' :
  send_session_prompt node id pty agent text force now w = (sent, r, w') → frame w w'.
Proof.
  intros [(_ & -> & _)|(Hn & err & Hp & _)]%send_prompts i r'.
  - intros Hr. left. exists r'. split; [done|apply same_claim_refl].
  - rewrite Hp. intros [[<- <-]|[_ Hr]]%lookup_insert_Some; [by right|].
    left. exists r'. split; [done|apply same_claim_refl].
Qed.

Lemma dismiss_frame pty id now w : frame w (dismiss pty id now w).2.
Proof.
  unfold dismiss. intros i r'. destruct (prompts w !! id) as [r|] eqn:Hr;
    [destruct (_ && _)|]; cbn; intros Hi; try (left; exists r'; split; [done|apply same_claim_refl]).
  apply lookup_insert_Some in Hi as [[<- <-]|[_ Hi]]; left; [by exists r|].
  exists r'. split; [done|apply same_claim_refl].
Qed.

(** Steps other than matching frame the claims. *)
Lemma step_cases w w' : prompt_step w w' → frame w w' ∨ ∃ now, w' = (reconcile space now w).2.
Proof.
  destruct 1; [left; by eapply send_frame|left; apply dismiss_frame|by right; eexists| |];
    left; by eapply filter_frame.
Qed.

Lemma claimed_spec turn w : claimed turn w = true ↔
  ∃ id m, prompts w !! id = Some m ∧ matched_session m = Some turn.1 ∧ matched_turn m = Some turn.2.
Proof.
  unfold claimed. rewrite existsb_exists. split.
  - intros (m & Hin & Hm). apply list_elem_of_In, list_elem_of_fmap in Hin as ([id m'] & -> & Hin%elem_of_map_to_list).
    apply andb_true_iff in Hm as [H1%bool_decide_eq_true H2%bool_decide_eq_true]. by exists id, m'.
  - intros (id & m & Hm & H1 & H2). exists m. rewrite H1, H2, !bool_decide_true by done. split; [|done].
    apply list_elem_of_In, list_elem_of_fmap. exists (id, m). split; [done|by apply elem_of_map_to_list].
Qed.

(** A claim made by a pass is on a turn that no row had, and no two are on one. *)
Lemma reconcile_ok now w : prompts_ok w → prompts_ok (reconcile space now w).2.
Proof.
  intros Hok. split.
  - intros id r'. rewrite lookup_reconcile, fmap_Some. intros (r & Hr & ->).
    destruct (won space w id); [done|by eapply ok_whole].
  - assert (Hnew : ∀ i j turn q, won space w i = Some turn → prompts w !! j = Some q →
      won space w j = None → is_some (matched_at q) = true →
      (matched_session q, matched_turn q) ≠ (Some turn.1, Some turn.2)).
    { intros i j turn q (r & t & _ & _ & _ & Hq & _)%won_choice Hj _ _ [= Hs Ht].
      unfold qualifies in Hq. apply andb_true_iff in Hq as [_ Hq%negb_true_iff].
      rewrite (proj2 (claimed_spec turn w)) in Hq; [done|by exists j, q]. }
    intros i j p' q'. rewrite !lookup_reconcile, !fmap_Some.
    intros (p & Hp & ->) (q & Hq & ->).
    destruct (won space w i) as [ti|] eqn:Hi, (won space w j) as [tj|] eqn:Hj; unfold claim_of; cbn.
    + intros _ [= H1 H2]. assert (ti = tj) as -> by (destruct ti, tj; cbn in *; congruence).
      by eapply won_inj.
    + intros _. destruct (is_some (matched_at q)) eqn:Hm; [|done]. intros [= H1 H2].
      exfalso. eapply (Hnew i j ti q); eauto. congruence.
    + intros Hm. rewrite Hm. intros [= H1 H2]. exfalso. eapply (Hnew j i tj p); eauto. congruence.
    + intros Hm Hc. eapply (ok_claims w Hok); eauto.
Qed.

Lemma step_ok w w' : prompt_step w w' → prompts_ok w → prompts_ok w'.
Proof. intros [Hf|[now ->]]%step_cases; [by apply frame_ok|apply reconcile_ok]. Qed.

Lemma reachable_ok w w' : rtc prompt_step w w' → prompts_ok w → prompts_ok w'.
Proof. induction 1; eauto using step_ok. Qed.

(** A match stands as long as its row. *)
Lemma step_keeps_claim w w' id r r' : prompt_step w w' → prompts w !! id = Some r →
  prompts w' !! id = Some r' → is_some (matched_at r) = true → same_claim r r'.
Proof.
  intros Hs Hr Hr' Hm. destruct (step_cases w w' Hs) as [Hf|[now ->]].
  - destruct (Hf id r' Hr') as [(r1 & Hr1 & Hsame)|(Hn & _)]; [|congruence].
    rewrite Hr in Hr1. by injection Hr1 as <-.
  - rewrite lookup_reconcile, Hr in Hr'. cbn in Hr'. injection Hr' as <-.
    destruct (won space w id) as [turn|] eqn:Hw; [|apply same_claim_refl].
    apply won_choice in Hw as (r1 & t & Hr1 & _ & Ho & _). rewrite Hr in Hr1. injection Hr1 as <-.
    unfold is_open in Ho. unfold is_some in Hm. by destruct (matched_at r).
Qed.

(** ** Passes settle *)

Definition open_prompts (w : PromptWorld) : nat :=
  size (filter (λ kv, is_open kv.2 = true) (prompts w)).

Definition passes (now : Z) (k : nat) (w : PromptWorld) : PromptWorld :=
  Nat.iter k (λ w, (reconcile space now w).2) w.

Lemma reconcile_open now w : claims space w ≠ [] → (open_prompts (reconcile space now w).2 < open_prompts w)%nat.
Proof.
  intros Hne. destruct (some_won space w Hne) as (id & turn & Hw). pose proof (won_choice space w id turn Hw) as (r & t & Hr & _ & Ho & _).
  assert (Hsub : ∀ i r', filter (λ kv, is_open kv.2 = true) (prompts (reconcile space now w).2) !! i = Some r' →
    won space w i = None ∧ prompts w !! i = Some r' ∧ is_open r' = true).
  { intros i r'. rewrite map_lookup_filter_Some, lookup_reconcile, fmap_Some.
    intros [(r1 & Hr1 & ->) Ho1]. cbn in Ho1. by destruct (won space w i). }
  unfold open_prompts. apply map_subset_size, map_subset_alt. split.
  - apply map_subseteq_spec. intros i r' (_ & Hi & Ho')%Hsub. by apply map_lookup_filter_Some.
  - exists id. split.
    + destruct (filter _ (prompts (reconcile space now w).2) !! id) as [r'|] eqn:E; [|done].
      apply Hsub in E as (Hn & _). congruence.
    + exists r. by apply map_lookup_filter_Some.
Qed.

Lemma claims_settled now w : claims space w = [] → (reconcile space now w).2 = w.
Proof.
  intros Hc. unfold reconcile. cbn. destruct w as [p s t l tm]. unfold set_prompts. cbn. f_equal.
  apply map_eq. intros i. rewrite map_lookup_imap. destruct (p !! i) as [r|]; [|done]. cbn.
  destruct (won space _ i) as [turn|] eqn:Hw; [|done].
  apply won_Some in Hw as (c & Hcc & _). apply per_turn_Some in Hcc as (Hcc & _).
  apply per_prompt_Some in Hcc as (Hin & _). rewrite Hc in Hin. by apply elem_of_nil in Hin.
Qed.

Lemma settled_passes now k w : claims space w = [] → passes now k w = w.
Proof.
  intros Hc. unfold passes. induction k as [|k IH]; [done|].
  rewrite Nat.iter_succ_r. by rewrite (claims_settled now w Hc).
Qed.

Lemma passes_settle now k w : (open_prompts w ≤ k)%nat → claims space (passes now k w) = [].
Proof.
  revert w. induction k as [|k IH]; intros w Hk.
  - destruct (claims space w) as [|c l] eqn:E; [done|].
    assert (Hne : claims space w ≠ []) by by rewrite E.
    pose proof (reconcile_open 0 w Hne). lia.
  - unfold passes. rewrite Nat.iter_succ_r.
    destruct (decide (claims space w = [])) as [Hc|Hc].
    + rewrite (claims_settled now w Hc). fold (passes now k w). by rewrite settled_passes.
    + apply IH. pose proof (reconcile_open now w Hc). lia.
Qed.

Lemma passes_add now a b w : passes now (a + b) w = passes now b (passes now a w).
Proof. unfold passes. rewrite (Nat.add_comm a b). apply Nat.iter_add. Qed.
End histories.
