(* ===== verification/Library.v ===== *)
(** * The library and the deferred prompts

    [library.rs] with the routes that write it ([api/library_routes.rs]), and
    [future_prompts.rs]: entries kept under a slug, and prompts kept for a
    session to be sent later. *)

From S2P Require Import Prelude Text Store.

Inductive LibraryKind : Type := References | Prompts.

#[export] Instance LibraryKind_eq_dec : EqDecision LibraryKind.
Proof. solve_decision. Defined.

Definition library_kind_parse (s : string) : option LibraryKind :=
  if bool_decide (s ∈ ["references"; "refs"]) then Some References
  else if bool_decide (s = "prompts") then Some Prompts
  else None.

Definition library_kind_str (k : LibraryKind) : string :=
  match k with References => "references" | Prompts => "prompts" end.

(** ** Slugs *)

Definition alphanumeric : list string :=
  chars "0123456789abcdefghijklmnopqrstuvwxyzABCDEFGHIJKLMNOPQRSTUVWXYZ".

Definition is_ascii_alphanumeric (c : string) : bool := bool_decide (c ∈ alphanumeric).

Definition is_dash (c : string) : bool := bool_decide (c = "-").

Definition slug_char (c : string) : bool :=
  is_ascii_alphanumeric c || bool_decide (c ∈ ["-"; "_"; "."]).

Definition push_slug (c : string) : list string :=
  if slug_char c then [c] else if is_whitespace c then ["-"] else [].

(** [out.contains("--")] *)
Fixpoint has_dashes (cs : list string) : bool :=
  match cs with
  | a :: ((b :: _) as rest) => is_dash a && is_dash b || has_dashes rest
  | _ => false
  end.

(** [out.replace("--", "-")] *)
Fixpoint replace_dashes (cs : list string) : list string :=
  match cs with
  | a :: ((b :: cs') as rest) =>
      if is_dash a && is_dash b then a :: replace_dashes cs' else a :: replace_dashes rest
  | _ => cs
  end.

(** The loop; every round makes the text shorter, so its length is enough. *)
Fixpoint squeeze (fuel : nat) (cs : list string) : list string :=
  match fuel with
  | O => cs
  | S fuel => if has_dashes cs then squeeze fuel (replace_dashes cs) else cs
  end.

Definition trim_dashes (cs : list string) : list string :=
  rev (drop_while is_dash (rev (drop_while is_dash cs))).

Definition sanitise_slug (raw : string) : option string :=
  let trimmed := trim raw in
  if is_empty trimmed then None
  else
    let out := mjoin (push_slug <$> chars trimmed) in
    let out := trim_dashes (squeeze (length out) out) in
    if bool_decide (out = []) || bool_decide (head out = Some ".") then None
    else Some (concat_text out).

(** ** Entries *)

Record LibraryEntry : Type := mkEntry {
  le_name : string;
  le_created_at : Z;
  le_updated_at : Z;
  le_body : string;
}.

#[export] Instance LibraryEntry_eq_dec : EqDecision LibraryEntry.
Proof. solve_decision. Defined.

(** [library_entries], by kind and slug. *)
Abbreviation Library := (gmap (string * string) LibraryEntry).

Definition candidate_slug (desired : string) (suffix : Z) : string :=
  desired +:+ "-" +:+ pretty suffix.

(** The loop of [next_available_slug]; [suffix] is an [i32]. *)
Fixpoint probe (fuel : nat) (t : Library) (kind desired candidate : string) (suffix : Z) : res string :=
  match fuel with
  | O => bail "out of fuel"
  | S fuel =>
      if is_some (t !! (kind, candidate))
      then probe fuel t kind desired (candidate_slug desired suffix) (wrap32 (suffix + 1))
      else Ok candidate
  end.

Definition next_available_slug (fuel : nat) (t : Library) (kind : LibraryKind) (desired : string) : res string :=
  probe fuel t (library_kind_str kind) desired desired 2.

Definition read (t : Library) (kind : LibraryKind) (slug : string) : option (string * LibraryEntry) :=
  slug ← sanitise_slug slug;
  entry ← t !! (library_kind_str kind, slug);
  Some (slug, entry).

Definition save (t : Library) (kind : LibraryKind) (slug name body : string) (now : Z)
    : res (string * LibraryEntry * Library) :=
  slug ← ok_or (sanitise_slug slug) "invalid slug";
  let key := (library_kind_str kind, slug) in
  let created := match t !! key with Some old => le_created_at old | None => now end in
  let entry := mkEntry (trim name) created now body in
  Ok (slug, entry, <[key := entry]> t).

Definition delete_entry (t : Library) (kind : LibraryKind) (slug : string) : bool * Library :=
  match sanitise_slug slug with
  | None => (false, t)
  | Some slug =>
      let key := (library_kind_str kind, slug) in
      (is_some (t !! key), delete key t)
  end.

(** [PUT /library/:kind]: the slug is derived from the name. *)
Definition put_library_root (fuel : nat) (t : Library) (kind : string) (name body : string) (now : Z)
    : res (string * LibraryEntry * Library) :=
  kind ← ok_or (library_kind_parse kind) ("unknown library kind: " +:+ kind);
  desired ← ok_or (sanitise_slug name) "name must derive a valid slug";
  slug ← next_available_slug fuel t kind desired;
  save t kind slug name body now.

(** [PUT /library/:kind/:slug] *)
Definition put_library_entry (t : Library) (kind slug name body : string) (now : Z)
    : res (string * LibraryEntry * Library) :=
  kind ← ok_or (library_kind_parse kind) ("unknown library kind: " +:+ kind);
  save t kind slug name body now.

(** ** Deferred prompts *)

Inductive FuturePromptState : Type := Pending | Sent.

#[export] Instance FuturePromptState_eq_dec : EqDecision FuturePromptState.
Proof. solve_decision. Defined.

Definition future_state_parse (raw : string) : option FuturePromptState :=
  if bool_decide (raw = "pending") then Some Pending
  else if bool_decide (raw = "sent") then Some Sent
  else None.

Definition future_state_str (s : FuturePromptState) : string :=
  match s with Pending => "pending" | Sent => "sent" end.

Record FutureRow : Type := mkFuture {
  fp_state : string;
  fp_created_at : Z;
  fp_updated_at : Z;
  fp_text : string;
}.

#[export] Instance FutureRow_eq_dec : EqDecision FutureRow.
Proof. solve_decision. Defined.

(** [future_prompts], by session and identifier. *)
Abbreviation FuturePrompts := (gmap (string * string) FutureRow).

Definition sanitise_id (raw : string) : option string :=
  let trimmed := trim raw in
  if is_empty trimmed then None
  else
    let out := filter (λ c, (is_ascii_alphanumeric c || bool_decide (c ∈ ["-"; "_"])) = true) (chars trimmed) in
    if bool_decide (out = []) || bool_decide (head out = Some ".") then None
    else Some (concat_text out).

Definition entry_state (r : FutureRow) : FuturePromptState := default Pending (future_state_parse (fp_state r)).

Definition state_rank (s : FuturePromptState) : Z := match s with Pending => 0 | Sent => 1 end.

(** The order of [list]: an RFC 3339 text sorts as the time it shows. *)
Definition before_entry (a b : string * FutureRow) : Prop :=
  let ra := state_rank (entry_state a.2) in
  let rb := state_rank (entry_state b.2) in
  let ta := if ra =? 0 then fp_created_at a.2 else - fp_updated_at a.2 in
  let tb := if rb =? 0 then fp_created_at b.2 else - fp_updated_at b.2 in
  ra < rb ∨ (ra = rb ∧ (ta < tb ∨ (ta = tb ∧ String.le a.1 b.1))).

#[export] Instance before_entry_dec a b : Decision (before_entry a b).
Proof. unfold before_entry. apply _. Defined.

Definition session_rows (t : FuturePrompts) (session : string) : list (string * FutureRow) :=
  omap (λ kv, if bool_decide (kv.1.1 = session) then Some (kv.1.2, kv.2) else None) (map_to_list t).

Definition list_future `{HeapOrder (string * FutureRow)} (t : FuturePrompts) (session : string)
    : list (string * FutureRow) :=
  merge_sort before_entry (heap_order (session_rows t session)).

Definition count_pending (t : FuturePrompts) (session : string) : nat :=
  length (filter (λ kv, fp_state kv.2 = "pending") (session_rows t session)).

Definition create_future (t : FuturePrompts) (session id text : string) (now : Z)
    : res (FutureRow * FuturePrompts) :=
  let text := trim text in
  if is_empty text then bail "text must not be empty"
  else if is_some (t !! (session, id)) then bail "duplicate key value"
  else let row := mkFuture "pending" now now text in Ok (row, <[(session, id) := row]> t).

Definition update_future (t : FuturePrompts) (session id : string) (text : option string)
    (state : option FuturePromptState) (now : Z) : res (option FutureRow * FuturePrompts) :=
  match sanitise_id id with
  | None => Ok (None, t)
  | Some id =>
      if match text with Some text => is_empty (trim text) | None => false end
      then bail "text must not be empty"
      else
        match t !! (session, id) with
        | None => Ok (None, t)
        | Some old =>
            let row := mkFuture (default (fp_state old) (future_state_str <$> state)) (fp_created_at old) now
                         (default (fp_text old) (trim <$> text)) in
            Ok (Some row, <[(session, id) := row]> t)
        end
  end.

Definition delete_future (t : FuturePrompts) (session id : string) : bool * FuturePrompts :=
  match sanitise_id id with
  | None => (false, t)
  | Some id => (is_some (t !! (session, id)), delete (session, id) t)
  end.
