(* ===== verification/LibraryInv.v ===== *)
(** * Slugs and entries

    What [sanitise_slug] returns it keeps, the search for a free slug ends at
    one, and deferred prompts are listed in order. *)

From S2P Require Import Prelude Text Store Library.

(** ** Characters of slugs *)

#[local] Instance single_dec c : Decision (single c).
Proof. unfold single. apply _. Defined.

Lemma alphanumeric_spec c : is_ascii_alphanumeric c = true →
  single c ∧ is_whitespace c = false ∧ c ≠ "-" ∧ c ≠ ".".
Proof.
  unfold is_ascii_alphanumeric. rewrite bool_decide_eq_true. revert c.
  intros c. apply (all_chars (λ c, single c ∧ is_whitespace c = false ∧ c ≠ "-" ∧ c ≠ ".")).
  vm_compute. reflexivity.
Qed.

Lemma slug_char_spec c : slug_char c = true → single c ∧ is_whitespace c = false.
Proof.
  unfold slug_char. intros [H|H%bool_decide_eq_true]%orb_true_iff.
  - by apply alphanumeric_spec in H as (? & ? & _).
  - revert H. apply (all_chars (λ c, single c ∧ is_whitespace c = false)). vm_compute. reflexivity.
Qed.

(** ** Normal slugs *)

(** Characters of slugs, no two dashes together, a dash at neither end and no
    dot in front. *)
Definition normal (cs : list string) : Prop :=
  Forall (λ c, slug_char c = true) cs ∧ has_dashes cs = false ∧
  head cs ≠ Some "-" ∧ last cs ≠ Some "-" ∧ cs ≠ [] ∧ head cs ≠ Some ".".

Lemma has_dashes_cons a cs : has_dashes (a :: cs) = false ↔
  has_dashes cs = false ∧ (a = "-" → head cs ≠ Some "-").
Proof.
  destruct cs as [|b cs]; [by split; [intros _; split; [|intros _]|]|].
  change (has_dashes (a :: b :: cs)) with (is_dash a && is_dash b || has_dashes (b :: cs)).
  rewrite orb_false_iff. unfold is_dash. cbn [head].
  do 2 case_bool_decide; cbn; intuition congruence.
Qed.

Lemma has_dashes_app l1 l2 : has_dashes (l1 ++ l2) = false ↔
  has_dashes l1 = false ∧ has_dashes l2 = false ∧ (last l1 = Some "-" → head l2 ≠ Some "-").
Proof.
  induction l1 as [|a l1 IH]; [cbn; naive_solver|].
  rewrite <-app_comm_cons, !has_dashes_cons, IH. destruct l1 as [|b l1]; [cbn; naive_solver|].
  rewrite last_cons_cons. cbn. naive_solver.
Qed.

Lemma has_dashes_rev l : has_dashes (rev l) = has_dashes l.
Proof.
  enough (∀ l, has_dashes l = false → has_dashes (rev l) = false) as Hr.
  { destruct (has_dashes l) eqn:E; [|by apply Hr].
    destruct (has_dashes (rev l)) eqn:E2; [done|]. apply Hr in E2. by rewrite rev_involutive, E in E2. }
  clear l. induction l as [|a l IH]; [done|]. intros [Hl Ha]%has_dashes_cons. cbn [rev].
  apply has_dashes_app. split_and!; [by apply IH|done|]. destruct l as [|b l]; [done|]. cbn [rev head].
  rewrite last_snoc. intros [= ->] [= ->]. by apply Ha.
Qed.

Lemma drop_while_suffix {A} (f : A → bool) l : ∃ p, l = p ++ drop_while f l.
Proof.
  induction l as [|a l [p Hp]]; [by exists []|]. cbn. destruct (f a); [|by exists []].
  exists (a :: p). cbn. by rewrite <-Hp.
Qed.

Lemma head_rev {A} (l : list A) : head (rev l) = last l.
Proof. rewrite rev_alt. apply head_reverse. Qed.
Lemma last_rev {A} (l : list A) : last (rev l) = head l.
Proof. rewrite rev_alt. apply last_reverse. Qed.

Lemma trim_dashes_spec cs : has_dashes cs = false → Forall (λ c, slug_char c = true) cs →
  let out := trim_dashes cs in
  Forall (λ c, slug_char c = true) out ∧ has_dashes out = false ∧ head out ≠ Some "-" ∧ last out ≠ Some "-".
Proof.
  intros Hd Hc. unfold trim_dashes.
  destruct (drop_while_suffix is_dash cs) as [p Hp].
  set (m := drop_while is_dash cs) in *.
  destruct (drop_while_suffix is_dash (rev m)) as [q Hq].
  set (k := drop_while is_dash (rev m)) in *.
  assert (Hm : m = rev k ++ rev q) by (rewrite <-rev_app_distr, <-Hq; by rewrite rev_involutive).
  rewrite Hp in Hd, Hc. apply has_dashes_app in Hd as (_ & Hd & _). apply Forall_app in Hc as [_ Hc].
  rewrite Hm in Hd, Hc. apply has_dashes_app in Hd as (Hd & _ & _). apply Forall_app in Hc as [Hc _].
  split_and!; [done|done| |].
  - intros Hh. assert (Hhm : head m = Some "-") by (rewrite Hm; by destruct (rev k)).
    by apply drop_while_head in Hhm.
  - rewrite last_rev. intros Hh. by apply drop_while_head in Hh.
Qed.

Lemma trim_dashes_id cs : head cs ≠ Some "-" → last cs ≠ Some "-" → trim_dashes cs = cs.
Proof.
  intros Hh Hl. unfold trim_dashes.
  rewrite (drop_while_id is_dash cs), (drop_while_id is_dash (rev cs)); [apply rev_involutive| |].
  - intros a Ha. unfold is_dash. apply bool_decide_eq_false. intros ->.
    by rewrite head_rev in Ha.
  - intros a Ha. unfold is_dash. apply bool_decide_eq_false. by intros ->.
Qed.

(** ** The loop over dashes *)

Lemma replace_length_has cs : has_dashes cs = true →
  (length (replace_dashes cs) < length cs)%nat.
Proof.
  enough (∀ n cs, (length cs ≤ n)%nat →
    (length (replace_dashes cs) ≤ length cs)%nat ∧
    (has_dashes cs = true → (length (replace_dashes cs) < length cs)%nat)) as Hn.
  { by eapply Hn. }
  clear cs. induction n as [|n IH]; intros cs Hl; [by destruct cs; cbn in *; [split|lia]|].
  destruct cs as [|a [|b cs]]; [by split..|].
  change (replace_dashes (a :: b :: cs)) with
    (if is_dash a && is_dash b then a :: replace_dashes cs else a :: replace_dashes (b :: cs)).
  change (has_dashes (a :: b :: cs)) with (is_dash a && is_dash b || has_dashes (b :: cs)).
  destruct (is_dash a && is_dash b); cbn [orb length] in *.
  - destruct (IH cs) as [H _]; [lia|]. split; [|intros _]; cbn [length]; lia.
  - destruct (IH (b :: cs)) as [H1 H2]; [cbn; lia|]. cbn [length] in *. split; [lia|]. intros H. specialize (H2 H). lia.
Qed.

Lemma replace_dashes_chars (P : string → Prop) cs : Forall P cs → Forall P (replace_dashes cs).
Proof.
  enough (∀ n cs, (length cs ≤ n)%nat → Forall P cs → Forall P (replace_dashes cs)) as Hn by by eapply Hn.
  clear cs. induction n as [|n IH]; intros cs Hl HP; [by destruct cs; [|cbn in Hl; lia]|].
  destruct cs as [|a [|b cs]]; [done..|].
  change (replace_dashes (a :: b :: cs)) with
    (if is_dash a && is_dash b then a :: replace_dashes cs else a :: replace_dashes (b :: cs)).
  apply Forall_cons in HP as [Ha HP]. cbn [length] in Hl.
  destruct (is_dash a && is_dash b); constructor; try done; apply IH; cbn; try lia; [|done].
  by apply Forall_cons in HP as [_ HP].
Qed.

(** The loop ends, with no two dashes together. *)
Lemma squeeze_spec fuel cs : (length cs ≤ fuel)%nat → Forall (λ c, slug_char c = true) cs →
  has_dashes (squeeze fuel cs) = false ∧ Forall (λ c, slug_char c = true) (squeeze fuel cs).
Proof.
  revert cs. induction fuel as [|fuel IH]; intros cs Hl Hc; [by destruct cs; [|cbn in Hl; lia]|].
  cbn [squeeze]. destruct (has_dashes cs) eqn:E; [|by split].
  apply IH; [pose proof (replace_length_has cs E); lia|by apply replace_dashes_chars].
Qed.

Lemma squeeze_id fuel cs : has_dashes cs = false → squeeze fuel cs = cs.
Proof. intros H. destruct fuel; [done|]. cbn. by rewrite H. Qed.

(** ** Sanitising *)

Lemma push_slug_chars c : Forall (λ c, slug_char c = true) (push_slug c).
Proof.
  unfold push_slug. destruct (slug_char c) eqn:E; [by repeat constructor|].
  destruct (is_whitespace c); repeat constructor.
Qed.

Lemma sanitise_normal raw s : sanitise_slug raw = Some s → ∃ cs, s = concat_text cs ∧ normal cs.
Proof.
  unfold sanitise_slug. destruct (is_empty _); [done|].
  set (out := mjoin (push_slug <$> chars (trim raw))).
  assert (Hout : Forall (λ c, slug_char c = true) out).
  { apply Forall_join, Forall_fmap, Forall_true. intros c. apply push_slug_chars. }
  destruct (squeeze_spec (length out) out) as [Hd Hc]; [done..|].
  destruct (trim_dashes_spec _ Hd Hc) as (H1 & H2 & H3 & H4).
  destruct (bool_decide_reflect (trim_dashes (squeeze (length out) out) = [])); [done|].
  destruct (bool_decide_reflect (head (trim_dashes (squeeze (length out) out)) = Some ".")); [done|].
  cbn. intros [= <-]. by eexists.
Qed.

Lemma normal_trim cs : Forall (λ c, slug_char c = true) cs → trim (concat_text cs) = concat_text cs.
Proof. intros Hc. apply trim_concat. eapply Forall_impl; [done|]. by intros c [? ?]%slug_char_spec. Qed.

Lemma concat_single_empty cs : Forall single cs → concat_text cs = "" → cs = [].
Proof. by intros [|c cs' (a & -> & _)%single_inv _]. Qed.

Lemma normal_sanitise cs : normal cs → sanitise_slug (concat_text cs) = Some (concat_text cs).
Proof.
  intros (Hc & Hd & Hh & Hl & Hne & Hdot).
  assert (Hs : Forall single cs) by (eapply Forall_impl; [done|]; by intros c [? _]%slug_char_spec).
  unfold sanitise_slug. rewrite normal_trim by done.
  unfold is_empty. rewrite bool_decide_false by (by intros ?%concat_single_empty).
  rewrite (chars_concat cs Hs).
  assert (Hp : mjoin (push_slug <$> cs) = cs).
  { clear -Hc. induction Hc as [|c cs Hc _ IH]; [done|].
    change (push_slug c ++ mjoin (push_slug <$> cs) = c :: cs). rewrite IH. unfold push_slug. by rewrite Hc. }
  rewrite Hp, squeeze_id, trim_dashes_id by done.
  by rewrite !bool_decide_false.
Qed.

Lemma sanitise_idemp raw s : sanitise_slug raw = Some s → sanitise_slug s = Some s.
Proof. intros (cs & -> & Hn)%sanitise_normal. by apply normal_sanitise. Qed.

(** ** Numbered candidates *)

Lemma pretty_N_go_chars x s cs : s = concat_text cs → Forall (λ c, is_ascii_alphanumeric c = true) cs →
  ∃ cs', pretty_N_go x s = concat_text cs' ∧ Forall (λ c, is_ascii_alphanumeric c = true) cs' ∧
    (cs ≠ [] ∨ (0 < x)%N → cs' ≠ []).
Proof.
  revert s cs. induction (N.lt_wf_0 x) as [x _ IH]. intros s cs -> Hcs.
  destruct (decide (0 < x)%N) as [Hx|Hx].
  - rewrite pretty_N_go_step by done.
    assert (Hd : is_ascii_alphanumeric (String (pretty_N_char (x `mod` 10)) "") = true).
    { apply bool_decide_eq_true. unfold pretty_N_char.
      repeat case_match; apply (bool_decide_unpack _); vm_compute; exact I. }
    destruct (IH (x / 10)%N (N.div_lt x 10 Hx eq_refl)
      (String (pretty_N_char (x `mod` 10)) (concat_text cs))
      (String (pretty_N_char (x `mod` 10)) "" :: cs)) as (cs' & Heq & Hc' & Hne); [done|by constructor|].
    exists cs'. split; [exact Heq|]. split; [done|]. intros _. apply Hne. by left.
  - assert (x = 0%N) as -> by lia. rewrite pretty_N_go_0. exists cs. split; [done|]. split; [done|]. intros [|]; [done|lia].
Qed.

Lemma pretty_chars z : 0 < z → ∃ cs, pretty z = concat_text cs ∧
  Forall (λ c, is_ascii_alphanumeric c = true) cs ∧ cs ≠ [].
Proof.
  intros Hz. destruct z as [|p|p]; [lia| |lia].
  change (pretty (Z.pos p)) with (pretty (N.pos p)).
  destruct (pretty_N_go_chars (N.pos p) "" [] eq_refl) as (cs & Heq & Hc & Hne); [constructor|].
  exists cs. split; [|split; [done|apply Hne; right; lia]].
  unfold pretty, pretty_N. by case_decide.
Qed.

Lemma candidate_normal cs z : normal cs → 0 < z →
  ∃ cs', candidate_slug (concat_text cs) z = concat_text cs' ∧ normal cs'.
Proof.
  intros (Hc & Hd & Hh & Hl & Hne & Hdot) Hz.
  destruct (pretty_chars z Hz) as (ds & Heq & Hds & Hdne).
  exists (cs ++ "-" :: ds). split; [unfold candidate_slug; rewrite Heq, concat_text_app; done|].
  assert (Hdig : ∀ d, d ∈ ds → slug_char d = true ∧ d ≠ "-").
  { intros d Hin. rewrite Forall_forall in Hds. specialize (Hds d Hin).
    split; [unfold slug_char; by rewrite Hds|]. by apply alphanumeric_spec in Hds as (_ & _ & ? & _). }
  assert (Hdd : has_dashes ds = false).
  { clear -Hdig. induction ds as [|d ds IH]; [done|]. apply has_dashes_cons. split.
    - apply IH. intros e He. apply Hdig. by right.
    - intros ->. destruct (Hdig "-"); [by left|done]. }
  destruct cs as [|c cs]; [done|]. unfold normal. split_and!; try done.
  - apply Forall_app. split; [done|]. constructor; [done|]. apply Forall_forall. intros d Hin. by apply Hdig.
  - apply has_dashes_app. split; [done|]. split; [|intros ?; done].
    apply has_dashes_cons. split; [done|]. intros _ Hhd. destruct ds as [|d ds]; [done|].
    injection Hhd as ->. destruct (Hdig "-"); [by left|done].
  - rewrite last_app_cons. destruct ds as [|d ds] using rev_ind; [done|].
    rewrite app_comm_cons, last_snoc. intros [= ->]. destruct (Hdig "-"); [set_solver|done].
Qed.

(** The candidates in the order they are tried. *)
Definition nth_candidate (desired : string) (k : nat) : string :=
  match k with O => desired | S k => candidate_slug desired (Z.of_nat k + 2) end.

Lemma append_inj (a b c : string) : a +:+ b = a +:+ c → b = c.
Proof. induction a as [|x a IH]; [done|]. rewrite !append_cons. intros [= H]. by apply IH. Qed.

Lemma append_longer (a b : string) : b ≠ "" → a ≠ a +:+ b.
Proof. intros Hb. induction a as [|x a IH]; [done|]. rewrite append_cons. by intros [= H]. Qed.

Lemma nth_candidate_inj desired i j : nth_candidate desired i = nth_candidate desired j → i = j.
Proof.
  destruct i as [|i], j as [|j]; cbn; unfold candidate_slug; [done| | |].
  - intros H. exfalso. by eapply append_longer, H.
  - intros H. exfalso. by eapply append_longer, eq_sym, H.
  - intros H%append_inj. injection H as H. change (pretty (Z.of_nat i + 2) = pretty (Z.of_nat j + 2)) in H.
    apply (inj pretty) in H. lia.
Qed.

Lemma probe_spec t kind desired fuel k : Z.of_nat (k + fuel) < 2 ^ 31 - 3 →
  (∃ j, (k ≤ j < k + fuel)%nat ∧ t !! (kind, nth_candidate desired j) = None) →
  ∃ j, probe fuel t kind desired (nth_candidate desired k) (Z.of_nat k + 2) = Ok (nth_candidate desired j) ∧
    t !! (kind, nth_candidate desired j) = None.
Proof.
  revert k. induction fuel as [|fuel IH]; intros k Hk (j & Hj & Hfree); [lia|]. cbn [probe].
  destruct (t !! (kind, nth_candidate desired k)) eqn:E; cbn; [|by exists k].
  rewrite wrap32_id by lia. replace (Z.of_nat k + 2 + 1) with (Z.of_nat (S k) + 2) by lia.
  change (candidate_slug desired (Z.of_nat k + 2)) with (nth_candidate desired (S k)).
  apply IH; [lia|]. exists j. split; [|done].
  assert (j ≠ k) by (intros ->; congruence). lia.
Qed.

(** More candidates than entries: one is free. *)
Lemma some_free (t : Library) kind desired n : (size t < n)%nat →
  ∃ j, (j < n)%nat ∧ t !! (kind, nth_candidate desired j) = None.
Proof.
  intros Hn. destruct (decide (Exists (λ j, t !! (kind, nth_candidate desired j) = None) (seq 0 n))) as [He|He].
  - apply Exists_exists in He as (j & Hj%elem_of_seq & Hf). exists j. split; [lia|done].
  - apply not_Exists_Forall in He; [|apply _].
    set (keys := (λ j, (kind, nth_candidate desired j)) <$> seq 0 n).
    assert (Hnd : NoDup keys).
    { apply NoDup_fmap_2; [|apply NoDup_seq]. intros i j [= H]. by apply nth_candidate_inj in H. }
    assert (Hsub : list_to_set (C := gset _) keys ⊆ dom t).
    { intros x. rewrite elem_of_list_to_set. intros (j & -> & Hj)%list_elem_of_fmap.
      rewrite Forall_forall in He. specialize (He j Hj). apply elem_of_dom, not_eq_None_Some, He. }
    apply subseteq_size in Hsub. rewrite size_list_to_set, size_dom in Hsub by done.
    unfold keys in Hsub. rewrite length_fmap, length_seq in Hsub. lia.
Qed.

Lemma candidate_sanitised desired raw k : sanitise_slug raw = Some desired →
  sanitise_slug (nth_candidate desired k) = Some (nth_candidate desired k).
Proof.
  intros Hs. destruct k as [|k]; [by eapply sanitise_idemp|].
  apply sanitise_normal in Hs as (cs & -> & Hn). cbn.
  destruct (candidate_normal cs (Z.of_nat k + 2) Hn) as (cs' & -> & Hn'); [lia|]. by apply normal_sanitise.
Qed.

(** Enough fuel finds a free slug that sanitising keeps. *)
Lemma next_available_spec fuel t kind raw desired : sanitise_slug raw = Some desired →
  (size t < fuel)%nat → Z.of_nat fuel < 2 ^ 31 - 3 →
  ∃ slug, next_available_slug fuel t kind desired = Ok slug ∧ sanitise_slug slug = Some slug ∧
    t !! (library_kind_str kind, slug) = None.
Proof.
  intros Hs Ht Hf. unfold next_available_slug.
  destruct (some_free t (library_kind_str kind) desired fuel Ht) as (j & Hj & Hfree).
  destruct (probe_spec t (library_kind_str kind) desired fuel 0) as (j' & Hj' & Hfree'); [lia|exists j; split; [lia|done]|].
  eexists. split; [exact Hj'|]. split; [by eapply candidate_sanitised|done].
Qed.

(** A name that gives a slug is always kept: the entry gets a free slug, no
    other entry changes, and it is read and deleted under that slug. *)
Lemma entry_kept fuel t kind k name body now desired :
  library_kind_parse kind = Some k → sanitise_slug name = Some desired →
  (size t < fuel)%nat → Z.of_nat fuel < 2 ^ 31 - 3 →
  ∃ slug entry, put_library_root fuel t kind name body now =
      Ok (slug, entry, <[(library_kind_str k, slug) := entry]> t) ∧
    t !! (library_kind_str k, slug) = None ∧ le_name entry = trim name ∧ le_body entry = body ∧
    read (<[(library_kind_str k, slug) := entry]> t) k slug = Some (slug, entry) ∧
    delete_entry (<[(library_kind_str k, slug) := entry]> t) k slug = (true, t).
Proof.
  intros Hk Hs Ht Hf. destruct (next_available_spec fuel t k name desired Hs Ht Hf) as (slug & Hn & Hss & Hfree).
  exists slug, (mkEntry (trim name) now now body). unfold put_library_root, save, read, delete_entry.
  rewrite Hk, Hs. cbn. rewrite Hn. cbn. rewrite Hss. cbn. rewrite Hfree, lookup_insert_eq. cbn.
  rewrite delete_insert_id by done. split_and!; done.
Qed.

(** ** The order of deferred prompts *)

#[export] Instance before_entry_total : Total before_entry.
Proof.
  intros [i p] [j q]. unfold before_entry; cbn.
  destruct (Z.lt_total (state_rank (entry_state p)) (state_rank (entry_state q))) as [H|[H|H]]; [by do 2 left| |by right; left].
  rewrite H. set (b := state_rank (entry_state q) =? 0).
  destruct (Z.lt_total (if b then fp_created_at p else - fp_updated_at p)
    (if b then fp_created_at q else - fp_updated_at q)) as [H'|[H'|H']].
  - left. right. split; [done|by left].
  - destruct (total String.le i j); [left|right]; right; split; try done; right; by split.
  - right. right. split; [done|by left].
Qed.

#[export] Instance before_entry_trans : Transitive before_entry.
Proof.
  intros [i p] [j q] [k r]. unfold before_entry; cbn.
  destruct (state_rank (entry_state p) =? 0) eqn:Ep, (state_rank (entry_state q) =? 0) eqn:Eq,
    (state_rank (entry_state r) =? 0) eqn:Er; intros H1 H2;
    rewrite ?Z.eqb_eq, ?Z.eqb_neq in *; destruct H1 as [|[? [|[? Hij]]]], H2 as [|[? [|[? Hjk]]]];
    try (left; lia); try (right; split; [lia|left; lia]); try lia;
    right; (split; [lia|]); right; (split; [lia|]); by etrans.
Qed.

(** The list is the session's prompts, in order: those to be sent first, the
    oldest first, then those sent, the latest first. *)
Lemma list_future_ordered `{HeapOrder (string * FutureRow)} t session :
  list_future t session ≡ₚ session_rows t session ∧ StronglySorted before_entry (list_future t session).
Proof.
  unfold list_future. split; [by rewrite merge_sort_Permutation, heap_perm|].
  apply StronglySorted_merge_sort; apply _.
Qed.
