(* ===== verification/PromptGuarantees.v ===== *)
(** * Guarantees of prompts and the library

    Prompts on record before they are sent, matched with turns once, and
    entries of the library kept under slugs of their own. *)

From S2P Require Import Prelude Text Store Activity Submitted SubmittedInv Library LibraryInv.

(** ** Concrete terminals *)

#[local] Instance in_order A : HeapOrder A := {| heap_order l := l; heap_perm l := reflexivity l |}.

Definition blank (c : string) : bool := bool_decide (c ∈ [" "; newline]).

Definition demo_terminal : Terminals :=
  mkTerminals {["pty" := mkPtySession (Some "s") "live" "running"]} ∅.

Definition demo_prompts : PromptWorld :=
  mkPrompts ∅ {["s" := Some "pty"]}
    {[("s", 1) := mkTurn (Some "go  on") 1000000; ("s", 2) := mkTurn (Some "go on") 9000000]}
    {["pty" := mkLaunch (Some 0) (Some 0)]} demo_terminal.

Definition answers : Node := mkNode (λ _, Ok tt) (λ _ _, Ok tt).
Definition refuses : Node := mkNode (λ _, Ok tt) (λ _ _, bail "node gone").

Definition demo_send (node : Node) (id : string) (now : Z) (w : PromptWorld) : PromptWorld :=
  (send_session_prompt node id "pty" None "go on" false now w).2.

(** Two identical prompts. *)
Definition demo_two : PromptWorld := demo_send answers "b" 500000 (demo_send answers "a" 0 demo_prompts).

Definition demo_matches (w : PromptWorld) : list (string * option Z) :=
  (λ kv, (kv.1, matched_turn kv.2)) <$> map_to_list (prompts w).

Definition demo_library : Library :=
  {[("prompts", "Hello-World") := mkEntry "Hello World" 1 1 "first"]}.

Lemma triple_eta {A B C} (p : A * B * C) : p = (p.1.1, p.1.2, p.2).
Proof. by destruct p as [[]]. Qed.

(** C11. A turn is the answer to one prompt: in every history of prompts sent,
    failed, dismissed, matched and pruned, with transcripts and terminals
    changing freely, no two stored prompts are matched with one turn, and a
    match stands as long as its row. *)
Theorem turn_claimed_once space `{HeapOrder Claim} w w' :
  prompts w = ∅ → rtc (prompt_step space) w w' →
  (∀ i j p q, prompts w' !! i = Some p → prompts w' !! j = Some q →
     is_some (matched_at p) = true → is_some (matched_at q) = true →
     matched_session p = matched_session q → matched_turn p = matched_turn q → i = j) ∧
  (∀ w'' id r r', prompt_step space w' w'' → prompts w' !! id = Some r → prompts w'' !! id = Some r' →
     is_some (matched_at r) = true →
     matched_session r' = matched_session r ∧ matched_turn r' = matched_turn r).
Proof.
  intros He Hs. assert (Hok : prompts_ok w').
  { eapply reachable_ok; [done|]. split; intros *; by rewrite He, lookup_empty. }
  split.
  - intros i j p q Hp Hq Hm Hm' H1 H2. eapply (ok_claims w' Hok); try done.
    unfold claim_of. by rewrite Hm, Hm', H1, H2.
  - intros w'' id r r' Hstep Hr Hr' Hm.
    by destruct (step_keeps_claim space w' w'' id r r' Hstep Hr Hr' Hm) as (_ & ? & ?).
Qed.

Lemma turn_claimed_once_witness :
  demo_matches (passes blank 10 2 demo_two) = [("a", Some 1); ("b", Some 2)] ∧
  ∀ i j p q, prompts (passes blank 10 2 demo_two) !! i = Some p → prompts (passes blank 10 2 demo_two) !! j = Some q →
     is_some (matched_at p) = true → is_some (matched_at q) = true →
     matched_session p = matched_session q → matched_turn p = matched_turn q → i = j.
Proof.
  split; [vm_compute; reflexivity|].
  apply (turn_claimed_once blank demo_prompts (passes blank 10 2 demo_two)); [reflexivity|].
  eapply rtc_l; [eapply (step_send blank answers "a" "pty" None "go on" false 0); apply triple_eta|].
  eapply rtc_l; [eapply (step_send blank answers "b" "pty" None "go on" false 500000); apply triple_eta|].
  eapply rtc_l; [apply (step_reconcile blank 10)|].
  eapply rtc_l; [apply (step_reconcile blank 10)|]. apply rtc_refl.
Defined.

(** Matching settles: with the timeline at rest, after as many passes as
    there are open prompts no open prompt has a turn left to take, and further
    passes change nothing. In each pass a prompt is given the earliest turn
    that is its own: of a transcript of its terminal, with its text up to
    white space, no more than ten seconds older than it and not taken. *)
Theorem matching_settles space `{HeapOrder Claim} now w :
  (∀ k, (open_prompts w ≤ k)%nat →
     claims space (passes space now k w) = [] ∧
     passes space now k w = passes space now (open_prompts w) w) ∧
  (∀ id turn, won space w id = Some turn →
     ∃ r t, prompts w !! id = Some r ∧ turns w !! turn = Some t ∧ is_open r = true ∧
       prompts (reconcile space now w).2 !! id = Some (matched turn now r) ∧
       session_pty w !! turn.1 = Some (Some (sp_pty r)) ∧
       norm space <$> user_prompt_text t = Some (norm space (sp_text r)) ∧
       submitted_at r - 10000000 ≤ start_timestamp t ∧
       claimed turn w = false ∧
       (∀ turn' t', turns w !! turn' = Some t' → qualifies space w r turn' t' = true →
          start_timestamp t ≤ start_timestamp t')).
Proof.
  split.
  - intros k Hk. split; [by apply passes_settle|].
    replace k with (open_prompts w + (k - open_prompts w))%nat by lia. rewrite passes_add.
    by apply settled_passes, passes_settle.
  - intros id turn Hw. destruct (won_choice space w id turn Hw) as (r & t & Hr & Ht & Ho & Hq & Hmin).
    exists r, t. unfold qualifies in Hq.
    apply andb_true_iff in Hq as [Hq Hc%negb_true_iff].
    apply andb_true_iff in Hq as [Hs%bool_decide_eq_true Hq].
    destruct (user_prompt_text t) as [text|]; [|done].
    apply andb_true_iff in Hq as [Hsub%Z.leb_le Hnorm%bool_decide_eq_true].
    split_and!; try done; try (cbn; by rewrite Hnorm).
    by rewrite lookup_reconcile, Hr, Hw.
Qed.

(** C17. A prompt is on record before a byte of it reaches the terminal: when
    sending hands anything to the node, or succeeds, the prompt's row is there,
    with the error when delivery failed and without when not; and unless it is
    forced, the terminal's gate was open. Otherwise nothing happened. *)
Theorem prompt_on_record node id pty agent text force now w sent r w' :
  send_session_prompt node id pty agent text force now w = (sent, r, w') →
  (sent = [] ∧ is_ok r = false ∧ w' = w) ∨
  (prompts w !! id = None ∧ (force = true ∨ prompt_gate pty w = None) ∧
   ∃ err, prompts w' = <[id := mkPrompt pty agent text force now err None None None None]> (prompts w) ∧
     (err = None ↔ (deliver_prompt node pty text).2 = Ok tt) ∧
     sent = (deliver_prompt node pty text).1 ∧ sent `prefix_of` prompt_input_chunks text).
Proof.
  intros Hsend. destruct (send_prompts _ _ _ _ _ _ _ _ _ _ _ Hsend) as [(-> & -> & Hr)|(Hn & err & Hp & He & Hs)].
  - by left.
  - right. split; [done|]. split; [by eapply send_gate|]. exists err. split_and!; try done.
    rewrite Hs. apply deliver_prefix.
Qed.

Lemma prompt_on_record_witness :
  let '(sent, r, w') := send_session_prompt refuses "a" "pty" None "go on" false 0 demo_prompts in
  r = bail "node gone" ∧
  ((sent = [] ∧ is_ok r = false ∧ w' = demo_prompts) ∨
   (prompts demo_prompts !! "a" = None ∧ (false = true ∨ prompt_gate "pty" demo_prompts = None) ∧
    ∃ err, prompts w' = <["a" := mkPrompt "pty" None "go on" false 0 err None None None None]> (prompts demo_prompts) ∧
      (err = None ↔ (deliver_prompt refuses "pty" "go on").2 = Ok tt) ∧
      sent = (deliver_prompt refuses "pty" "go on").1 ∧ sent `prefix_of` prompt_input_chunks "go on")).
Proof.
  destruct (send_session_prompt refuses "a" "pty" None "go on" false 0 demo_prompts) as [[sent r] w'] eqn:E.
  split; [vm_compute in E; injection E as <- <- <-; reflexivity|].
  apply (prompt_on_record refuses "a" "pty" None "go on" false 0 demo_prompts sent r w'). exact E.
Defined.

(** A library entry is never lost to another: saved under a name that
    gives a slug, it gets a slug no entry has, whatever number of entries the
    name already has, changes no other entry, and is read and deleted under
    the slug it got; the search ends within one more try than entries. *)
Theorem library_entry_kept fuel t kind k name body now desired :
  library_kind_parse kind = Some k → sanitise_slug name = Some desired →
  (size t < fuel)%nat → Z.of_nat fuel < 2 ^ 31 - 3 →
  ∃ slug entry, put_library_root fuel t kind name body now =
      Ok (slug, entry, <[(library_kind_str k, slug) := entry]> t) ∧
    t !! (library_kind_str k, slug) = None ∧ le_name entry = trim name ∧ le_body entry = body ∧
    read (<[(library_kind_str k, slug) := entry]> t) k slug = Some (slug, entry) ∧
    delete_entry (<[(library_kind_str k, slug) := entry]> t) k slug = (true, t).
Proof. apply entry_kept. Qed.

Lemma library_entry_kept_witness :
  sanitise_slug "  Hello /  World " = Some "Hello-World" ∧
  ∃ slug entry, put_library_root 2 demo_library "prompts" "  Hello /  World " "second" 5 =
      Ok (slug, entry, <[("prompts", slug) := entry]> demo_library) ∧
    demo_library !! ("prompts", slug) = None ∧ le_name entry = trim "  Hello /  World " ∧ le_body entry = "second" ∧
    read (<[("prompts", slug) := entry]> demo_library) Prompts slug = Some (slug, entry) ∧
    delete_entry (<[("prompts", slug) := entry]> demo_library) Prompts slug = (true, demo_library).
Proof.
  split; [vm_compute; reflexivity|].
  apply (library_entry_kept 2 demo_library "prompts" Prompts "  Hello /  World " "second" 5 "Hello-World").
  - vm_compute. reflexivity.
  - vm_compute. reflexivity.
  - apply Nat.ltb_lt. vm_compute. reflexivity.
  - vm_compute. reflexivity.
Defined.

(** ** Where the code does not do what it means to *)

(** Of two identical prompts one was swallowed and stays unmatched; a week
    later the other's row is pruned, and its turn is taken for the lost one. *)
Lemma pruned_turn_claimed_again :
  let one_turn := mkPrompts (prompts demo_two) (session_pty demo_two)
    {[("s", 1) := mkTurn (Some "go on") 1000000]} (launches demo_two) (terminals demo_two) in
  let settled := passes blank 10 2 one_turn in
  demo_matches settled = [("a", Some 1); ("b", None)] ∧
  demo_matches (passes blank 20 1 (prune (8 * day) settled)) = [("b", Some 1)].
Proof. split; vm_compute; reflexivity. Qed.

(** A prompt whose delivery failed takes the turn of the one sent in its place. *)
Lemma failed_prompt_claims_retry :
  let retried := demo_send answers "b" 500000 (demo_send refuses "a" 0 demo_prompts) in
  let one_turn := mkPrompts (prompts retried) (session_pty retried)
    {[("s", 1) := mkTurn (Some "go on") 1000000]} (launches retried) (terminals retried) in
  demo_matches (passes blank 10 2 one_turn) = [("a", Some 1); ("b", None)].
Proof. vm_compute. reflexivity. Qed.
