(* ===== verification/PlanCli.v ===== *)
(** * The command line of plans, activity, names and the archive

    [plan_cli.rs], [plan_cli/guidance.rs] and [plan_cli/archive.rs]: how the
    arguments of a command become a request ([ControlRequest], [correlate.rs]),
    and the texts printed of guidance. *)

From S2P Require Import Prelude Text Json Activity Plans.

(** ** Requests *)

Record RestoreScope : Type := mkScope {
  rs_session_uuid : option Uuid;
  rs_month : option string;
  rs_repo : option string;
  rs_all : bool;
  rs_purge_after : bool;
}.

Definition scope_is_empty (s : RestoreScope) : bool :=
  is_none (rs_session_uuid s) && is_none (rs_month s) && is_none (rs_repo s) && negb (rs_all s).

Inductive ControlRequest : Type :=
  | PlanStart (title summary : string) (guidance : PlanGuidance) (phases : list NewPhase) (all_pending : bool)
  | PlanBranch (plan_id : option Uuid) (input : BranchPlanInput)
  | PlanTree (plan_id : option Uuid)
  | PlanCurrent
  | PlanList (include_closed : bool)
  | PlanShow (plan_id : option Uuid)
  | PlanUpdate (plan_id : option Uuid) (input : UpdatePlanInput)
  | PlanAddPhase (plan_id : option Uuid) (phase : NewPhase)
  | PlanUpdatePhase (plan_id : option Uuid) (phase_reference : string) (input : UpdatePhaseInput)
  | PlanAttach (plan_id : Uuid)
  | PlanDetach (plan_id : option Uuid)
  | PlanHistory (plan_id : option Uuid)
  | ActivitySet (state : ActivityState) (summary reason : option string)
  | ActivityClear
  | ActivityGet
  | SessionNameSet (name : option string)
  | SessionNameGet
  | ArchiveRun (dry_run : bool)
  | ArchiveRestore (scope : RestoreScope)
  | ArchiveStatus
  | ArchiveList (limit : option Z)
  | ArchiveVerify (deep : bool).

(** ** Arguments

    The functions take the arguments they use out of a vector and leave the
    rest. *)

Definition Parser (A : Type) : Type := list string → res (A * list string).

#[export] Instance parser_ret : MRet Parser := λ A a args, Ok (a, args).
#[export] Instance parser_bind : MBind Parser := λ A B f m args,
  match m args with Ok (a, args) => f a args | Err e => Err e end.

Definition lift {A} (r : res A) : Parser A := λ args, a ← r; Ok (a, args).
Definition fail {A} (msg : string) : Parser A := lift (bail msg).

(** [args.iter().position(|arg| arg == name)], and the arguments around it. *)
Fixpoint split_at_arg (p : string → bool) (args : list string) : option (list string * string * list string) :=
  match args with
  | [] => None
  | a :: args =>
      if p a then Some ([], a, args)
      else '(before, x, after) ← split_at_arg p args; Some (a :: before, x, after)
  end.

Definition take_flag (name : string) : Parser bool := λ args,
  match split_at_arg (λ a, bool_decide (a = name)) args with
  | Some (before, _, after) => Ok (true, before ++ after)
  | None => Ok (false, args)
  end.

Definition take_option (name : string) : Parser (option string) := λ args,
  match split_at_arg (λ a, bool_decide (a = name)) args with
  | None => Ok (None, args)
  | Some (before, _, []) => bail (name +:+ " requires a value")
  | Some (before, _, value :: after) =>
      if starts_with "--" value then bail (name +:+ " requires a value")
      else Ok (Some value, before ++ after)
  end.

Definition take_positional : Parser (option string) := λ args,
  match split_at_arg (λ a, negb (starts_with "-" a)) args with
  | Some (before, x, after) => Ok (Some x, before ++ after)
  | None => Ok (None, args)
  end.

Definition reject_unknown_options : Parser unit := λ args,
  match args with
  | [] => Ok (tt, [])
  | value :: _ => bail ("unexpected argument: " +:+ value)
  end.

(** The loop that takes an option as often as it is there; it takes two
    arguments a round, so [fuel] of their number is enough. *)
Fixpoint take_all_fuel (fuel : nat) (name : string) : Parser (list string) :=
  match fuel with
  | O => mret []
  | S fuel =>
      o ← take_option name;
      match o with
      | Some raw => rest ← take_all_fuel fuel name; mret (raw :: rest)
      | None => mret []
      end
  end.
Definition take_all (name : string) : Parser (list string) := λ args,
  take_all_fuel (length args) name args.

Definition required (o : option string) (msg : string) : Parser string := lift (ok_or o msg).

(** [title_option.or_else(|| take_positional(args))] *)
Definition or_positional (o : option string) : Parser (option string) :=
  match o with Some _ => mret o | None => take_positional end.

(** ** Guidance *)

Definition parse_items (option_name clear : string) : Parser (option (list string)) :=
  clearing ← take_flag clear;
  items ← take_all option_name;
  if clearing && negb (bool_decide (items = []))
  then fail (option_name +:+ " cannot be combined with " +:+ clear)
  else mret (if clearing || negb (bool_decide (items = [])) then Some items else None).

Definition parse_boundary (item : string) : res PlanBoundary :=
  match split_once "|" item with
  | None => bail "--boundary requires source|text (requirement, correction, or proposal)"
  | Some (source, text) =>
      let source := trim source in
      if bool_decide (source = "requirement") then Ok (mkBoundary UserRequirement text)
      else if bool_decide (source = "correction") then Ok (mkBoundary UserCorrection text)
      else if bool_decide (source = "proposal") then Ok (mkBoundary AgentProposal text)
      else bail "boundary source must be requirement, correction, or proposal"
  end.

Definition parse_boundaries : Parser (option (list PlanBoundary)) :=
  items ← parse_items "--boundary" "--clear-boundaries";
  match items with
  | None => mret None
  | Some items => bs ← lift (try_map parse_boundary items); mret (Some bs)
  end.

Definition parse_new : Parser PlanGuidance :=
  outcome ← take_option "--outcome";
  principles ← parse_items "--principle" "--clear-principles";
  assumptions ← parse_items "--assumption" "--clear-assumptions";
  boundaries ← parse_boundaries;
  mret (mkGuidance (default "" outcome) (default [] principles) (default [] assumptions) (default [] boundaries)).

(** ** Plans *)

(** [--phase "Title|Description|size"] *)
Definition parse_phase (raw : string) : NewPhase :=
  let '(title, description, size) :=
    match split_once "|" raw with
    | None => (trim raw, "", None)
    | Some (title, rest) =>
        match split_once "|" rest with
        | None => (trim title, trim rest, None)
        | Some (description, size) => (trim title, trim description, Some (trim size))
        end
    end in
  mkNewPhase title description None
    (match size with Some s => if is_empty s then None else Some s | None => None end).

Section commands.
Context (parse_uuid : string → option Uuid).

Definition parse_uuid_as (value label : string) : res Uuid :=
  ok_or (parse_uuid value) (label +:+ " must be a UUID").

Definition take_uuid_option (name : string) : Parser (option Uuid) :=
  o ← take_option name;
  match o with
  | Some value => id ← lift (parse_uuid_as value name); mret (Some id)
  | None => mret None
  end.

Definition optional_plan_id : Parser (option Uuid) :=
  id ← take_uuid_option "--plan";
  match id with
  | Some id => mret (Some id)
  | None =>
      o ← take_positional;
      match o with
      | Some value => id ← lift (parse_uuid_as value "plan id"); mret (Some id)
      | None => mret None
      end
  end.

Definition finish {A} (a : A) : Parser A := _ ← reject_unknown_options; mret a.

Definition parse_start : Parser ControlRequest :=
  title_option ← take_option "--title";
  summary ← take_option "--summary";
  guidance ← parse_new;
  all_pending ← take_flag "--all-pending";
  phases ← take_all "--phase";
  o ← or_positional title_option;
  title ← required o "plan title is required";
  finish (PlanStart title (default "" summary) guidance (parse_phase <$> phases) all_pending).

Definition closing_status (completed : bool) : string := if completed then "completed" else "canceled".

Definition parse_return : Parser ControlRequest :=
  plan_id ← take_uuid_option "--plan";
  canceled ← take_flag "--canceled";
  completed ← take_flag "--completed";
  if completed && canceled then fail "return takes at most one of --completed or --canceled"
  else
    note ← take_option "--note";
    skip_remaining ← take_flag "--skip-remaining";
    finish (PlanUpdate plan_id
      (mkUpdate None None None None None None (Some (closing_status (negb canceled))) note skip_remaining true)).

Definition parse_branch : Parser ControlRequest :=
  plan_id ← take_uuid_option "--plan";
  title_option ← take_option "--title";
  summary ← take_option "--summary";
  guidance ← parse_new;
  note ← take_option "--note";
  all_pending ← take_flag "--all-pending";
  phases ← take_all "--phase";
  refs ← take_all "--from";
  o ← or_positional title_option;
  title ← required o "branch title is required";
  finish (PlanBranch plan_id
    (mkBranchInput title (default "" summary) guidance (parse_phase <$> phases) all_pending refs note)).

Definition parse_phase_add : Parser ControlRequest :=
  title_option ← take_option "--title";
  description ← take_option "--description";
  status ← take_option "--status";
  size ← take_option "--size";
  plan_id ← take_uuid_option "--plan";
  o ← or_positional title_option;
  title ← required o "phase title is required";
  finish (PlanAddPhase plan_id (mkNewPhase title (default "" description) status size)).

Definition parse_position (o : option string) : res (option Z) :=
  match o with
  | Some value => z ← ok_or (parse_i32 value) "position must be an integer"; Ok (Some z)
  | None => Ok None
  end.

Definition parse_phase_set : Parser ControlRequest :=
  status_option ← take_option "--status";
  plan_id ← take_uuid_option "--plan";
  status_note ← take_option "--note";
  title ← take_option "--title";
  description ← take_option "--description";
  size ← take_option "--size";
  raw ← take_option "--position";
  position ← lift (parse_position raw);
  o ← take_positional;
  phase_reference ← required o "phase id or position is required";
  status ← or_positional status_option;
  finish (PlanUpdatePhase plan_id phase_reference
    (mkUpdatePhase title description status status_note position size)).

Definition parse_phase_request : Parser ControlRequest :=
  o ← take_positional;
  command ← required o "phase command is required";
  if bool_decide (command = "add") then parse_phase_add
  else if bool_decide (command ∈ ["set"; "update"]) then parse_phase_set
  else fail ("unknown phase command: " +:+ command).

Definition parse_close : Parser ControlRequest :=
  plan_id ← take_uuid_option "--plan";
  completed ← take_flag "--completed";
  canceled ← take_flag "--canceled";
  if bool_decide (completed = canceled)
  then fail "close requires exactly one of --completed or --canceled"
  else
    note ← take_option "--note";
    skip_remaining ← take_flag "--skip-remaining";
    finish (PlanUpdate plan_id
      (mkUpdate None None None None None None (Some (closing_status completed)) note skip_remaining false)).

Definition parse_update : Parser ControlRequest :=
  plan_id ← take_uuid_option "--plan";
  title ← take_option "--title";
  summary ← take_option "--summary";
  note ← take_option "--note";
  outcome ← take_option "--outcome";
  principles ← parse_items "--principle" "--clear-principles";
  assumptions ← parse_items "--assumption" "--clear-assumptions";
  boundaries ← parse_boundaries;
  finish (PlanUpdate plan_id
    (mkUpdate title summary outcome principles assumptions boundaries None note false false)).

Definition parse_status : Parser ControlRequest :=
  plan_id ← take_uuid_option "--plan";
  note ← take_option "--note";
  o ← take_positional;
  status ← required o "plan status is required";
  finish (PlanUpdate plan_id
    (mkUpdate None None None None None None (Some status) note false false)).

(** [take_flag(args, "--all") || take_flag(args, "--include-closed")] *)
Definition parse_list : Parser ControlRequest :=
  all ← take_flag "--all";
  include_closed ← (if all : bool then mret true else take_flag "--include-closed");
  finish (PlanList include_closed).

Definition parse_attach : Parser ControlRequest :=
  o ← take_positional;
  raw ← required o "plan id is required";
  _ ← reject_unknown_options;
  id ← lift (parse_uuid_as raw "plan id");
  mret (PlanAttach id).

Definition parse_on_plan (request : option Uuid → ControlRequest) : Parser ControlRequest :=
  plan_id ← optional_plan_id;
  finish (request plan_id).

Definition parse_plan_request (command : string) : Parser ControlRequest :=
  if bool_decide (command = "start") then parse_start
  else if bool_decide (command = "branch") then parse_branch
  else if bool_decide (command = "return") then parse_return
  else if bool_decide (command = "tree") then parse_on_plan PlanTree
  else if bool_decide (command = "current") then finish PlanCurrent
  else if bool_decide (command = "list") then parse_list
  else if bool_decide (command = "show") then parse_on_plan PlanShow
  else if bool_decide (command = "status") then parse_status
  else if bool_decide (command = "close") then parse_close
  else if bool_decide (command = "update") then parse_update
  else if bool_decide (command ∈ ["phase"; "step"]) then parse_phase_request
  else if bool_decide (command = "attach") then parse_attach
  else if bool_decide (command = "detach") then parse_on_plan PlanDetach
  else if bool_decide (command = "history") then parse_on_plan PlanHistory
  else fail ("unknown plan command: " +:+ command).

(** ** Activity and names *)

Definition parse_activity_request (command : string) : Parser ControlRequest :=
  request ←
    (if bool_decide (command = "working") then
       o ← take_option "--summary"; summary ← or_positional o;
       mret (ActivitySet Working summary None)
     else if bool_decide (command ∈ ["waiting"; "needs-input"]) then
       summary ← take_option "--summary"; o ← take_option "--reason"; reason ← or_positional o;
       mret (ActivitySet NeedsInput summary reason)
     else if bool_decide (command = "blocked") then
       summary ← take_option "--summary"; o ← take_option "--reason"; reason ← or_positional o;
       mret (ActivitySet Blocked summary reason)
     else if bool_decide (command ∈ ["awaiting"; "awaiting-prompt"]) then
       o ← take_option "--summary"; summary ← or_positional o;
       mret (ActivitySet AwaitingPrompt summary None)
     else if bool_decide (command = "clear") then mret ActivityClear
     else if bool_decide (command ∈ ["status"; "show"]) then mret ActivityGet
     else fail ("unknown activity command: " +:+ command));
  finish request.

Definition parse_name_request (args : list string) : res ControlRequest :=
  match args with
  | [] => panic "index out of bounds"
  | first :: rest =>
      if bool_decide (first = "show") then r ← finish SessionNameGet rest; Ok r.1
      else if bool_decide (first = "clear") then r ← finish (SessionNameSet None) rest; Ok r.1
      else Ok (SessionNameSet (Some (join " " args)))
  end.

(** ** The archive *)

Fixpoint all_digits (s : string) : bool :=
  match s with EmptyString => true | String c s => is_some (digit_value c) && all_digits s end.

Definition valid_month (month : string) : bool :=
  (Z.of_nat (String.length month) =? 7)
  && starts_with "-" (drop_bytes 4 month)
  && all_digits (take_bytes 4 month) && all_digits (drop_bytes 5 month).

(** [str::parse::<i64>] *)
Definition parse_i64 (s : string) : option Z :=
  let '(sign, digits) := match s with
    | String c rest =>
        if Ascii.eqb c (Ascii.ascii_of_nat 43) then (1, rest)
        else if Ascii.eqb c (Ascii.ascii_of_nat 45) then (-1, rest) else (1, s)
    | EmptyString => (1, s) end in
  if is_empty digits then None
  else n ← parse_digits digits 0; if in_i64b (sign * n) then Some (sign * n) else None.

Definition parse_restore_scope : Parser RestoreScope :=
  raw ← take_option "--session";
  session_uuid ← lift (match raw with
    | Some raw => id ← ok_or (parse_uuid raw) "--session must be an agent session uuid"; Ok (Some id)
    | None => Ok None end);
  month ← take_option "--month";
  if match month with Some month => negb (valid_month month) | None => false end
  then fail "--month must be YYYY-MM"
  else
    repo ← take_option "--repo";
    all ← take_flag "--all";
    purge_after ← take_flag "--purge-after";
    _ ← reject_unknown_options;
    let scope := mkScope session_uuid month repo all purge_after in
    if scope_is_empty scope then fail "restore needs --session, --month, --repo, or --all" else mret scope.

Definition parse_archive_request (command : string) : Parser ControlRequest :=
  if bool_decide (command = "run") then
    dry_run ← take_flag "--dry-run"; finish (ArchiveRun dry_run)
  else if bool_decide (command = "restore") then
    scope ← parse_restore_scope; mret (ArchiveRestore scope)
  else if bool_decide (command = "status") then finish ArchiveStatus
  else if bool_decide (command = "verify") then
    deep ← take_flag "--deep"; finish (ArchiveVerify deep)
  else if bool_decide (command = "list") then
    raw ← take_option "--limit";
    limit ← lift (match raw with
      | Some raw => z ← ok_or (parse_i64 raw) "--limit must be a number"; Ok (Some z)
      | None => Ok None end);
    finish (ArchiveList limit)
  else fail ("unknown archive command: " +:+ command).

(** ** A whole command line *)

Inductive Invocation : Type :=
  | Usage (code : Z)
  | UsageFailure (message : string)
  | Request (request : ControlRequest) (json : bool).

Definition run_with (parse : string → Parser ControlRequest) (args : list string) : Invocation :=
  match take_flag "--json" args with
  | Err _ => Usage 64
  | Ok (json, args) =>
      match args with
      | [] => Usage 64
      | command :: args =>
          if bool_decide (command ∈ ["help"; "-h"; "--help"]) then Usage 0
          else
            match parse command args with
            | Ok (request, _) => Request request json
            | Err (Failed msg) | Err (Panicked msg) => UsageFailure msg
            end
      end
  end.

Definition run_plan : list string → Invocation := run_with parse_plan_request.
Definition run_activity : list string → Invocation := run_with parse_activity_request.
Definition run_archive : list string → Invocation := run_with parse_archive_request.
Definition run_name : list string → Invocation :=
  run_with (λ command args, r ← parse_name_request (command :: args); Ok (r, [])).
End commands.

(** The plan whose guidance is printed with the answer. *)
Definition context_request (request : ControlRequest) : ControlRequest :=
  PlanShow
    match request with
    | PlanAttach plan_id => Some plan_id
    | PlanBranch plan_id _ | PlanTree plan_id | PlanShow plan_id | PlanUpdate plan_id _
    | PlanAddPhase plan_id _ | PlanUpdatePhase plan_id _ _ | PlanDetach plan_id
    | PlanHistory plan_id => plan_id
    | _ => None
    end.
