(* ===== verification/CliSpec.v ===== *)
(** * What a command line spells

    Arguments as a list of options with values, flags and words; how the
    parsers of [PlanCli] read them whatever their order; and the grammar of
    the plan commands. *)

From S2P Require Import Prelude Text Json Plans Activity PlanCli.

(** ** Items *)

Inductive Item : Type :=
  | Opt (name value : string)
  | Flag (name : string)
  | Pos (value : string).

Definition flat (i : Item) : list string :=
  match i with Opt n v => [n; v] | Flag n => [n] | Pos v => [v] end.
Definition flatten (items : list Item) : list string := mjoin (flat <$> items).

(** Names begin with two dashes, values do not, words with none. *)
Definition item_ok (i : Item) : Prop :=
  match i with
  | Opt n v => starts_with "--" n = true ∧ starts_with "--" v = false
  | Flag n => starts_with "--" n = true
  | Pos v => starts_with "-" v = false
  end.

Definition value_of (name : string) (i : Item) : option string :=
  match i with Opt n v => if bool_decide (n = name) then Some v else None | _ => None end.
Definition flag_of (name : string) (i : Item) : option unit :=
  match i with Flag n => if bool_decide (n = name) then Some tt else None | _ => None end.
Definition word_of (i : Item) : option string :=
  match i with Pos v => Some v | _ => None end.

(** The values of an option, in order; how often a flag is there; the words. *)
Definition options (name : string) (items : list Item) : list string := omap (value_of name) items.
Definition flags (name : string) (items : list Item) : list unit := omap (flag_of name) items.
Definition positionals (items : list Item) : list string := omap word_of items.

(** Tables of the options and flags a command line has. *)
Definition Table (A : Type) : Type := list (string * list A).

Fixpoint entry {A} (t : Table A) (name : string) : list A :=
  match t with
  | [] => []
  | (n, vs) :: t => if String.eqb n name then vs else entry t name
  end.

Fixpoint change {A} (f : list A → list A) (t : Table A) (name : string) : Table A :=
  match t with
  | [] => []
  | (n, vs) :: t => if String.eqb n name then (n, f vs) :: t else (n, vs) :: change f t name
  end.

Lemma entry_change {A} (f : list A → list A) t name m : f [] = [] →
  entry (change f t name) m = if bool_decide (m = name) then f (entry t m) else entry t m.
Proof.
  intros Hf. induction t as [|[n vs] t IH]; cbn; [by case_bool_decide|].
  destruct (String.eqb_spec n name) as [->|Hn]; cbn.
  - destruct (String.eqb_spec name m) as [->|Hm]; [by rewrite bool_decide_true|].
    by rewrite bool_decide_false by congruence.
  - rewrite IH. destruct (String.eqb_spec n m) as [->|]; [by rewrite bool_decide_false|done].
Qed.

(** A command line with these options, flags and words, in any order. *)
Record shows (items : list Item) (O : Table string) (F : Table unit) (P : list string) : Prop := {
  shows_ok : Forall item_ok items;
  shows_options n : options n items = entry O n;
  shows_flags n : flags n items = entry F n;
  shows_words : positionals items = P;
}.

(** ** Taking items *)

Lemma starts_dash s : starts_with "--" s = true → starts_with "-" s = true.
Proof.
  rewrite !starts_with_spec. intros [r ->]. exists ("-" +:+ r). by rewrite !append_cons, !append_nil_l.
Qed.

Lemma split_at_app p l1 l2 : Forall (λ a, p a = false) l1 →
  split_at_arg p (l1 ++ l2) = '(before, x, after) ← split_at_arg p l2; Some (l1 ++ before, x, after).
Proof.
  induction 1 as [|a l1 Ha _ IH]; cbn.
  - by destruct (split_at_arg p l2) as [[[]]|].
  - rewrite Ha, IH. by destruct (split_at_arg p l2) as [[[]]|].
Qed.

Lemma flatten_app l1 l2 : flatten (l1 ++ l2) = flatten l1 ++ flatten l2.
Proof. unfold flatten. by rewrite fmap_app, join_app. Qed.
Lemma flatten_cons i l : flatten (i :: l) = flat i ++ flatten l.
Proof. done. Qed.

Lemma not_named name s : starts_with "--" name = true → starts_with "--" s = false →
  bool_decide (s = name) = false.
Proof. intros Hn Hs. apply bool_decide_eq_false. intros ->. congruence. Qed.

(** Arguments without an option or flag of a name do not hold the name. *)
Lemma flatten_without name items : starts_with "--" name = true → Forall item_ok items →
  options name items = [] → flags name items = [] →
  Forall (λ a, bool_decide (a = name) = false) (flatten items).
Proof.
  intros Hn. induction 1 as [|i items Hi _ IH]; intros Ho Hf; [constructor|].
  rewrite flatten_cons. cbn in Ho, Hf.
  destruct i as [n v|n|v]; cbn in Ho, Hf, Hi |- *; try case_bool_decide; try done.
  - destruct Hi. repeat constructor; [by apply bool_decide_eq_false|by apply not_named|by apply IH].
  - repeat constructor; [by apply bool_decide_eq_false|by apply IH].
  - repeat constructor; [|by apply IH]. apply not_named; [done|].
    destruct (starts_with "--" v) eqn:E; [|done]. by apply starts_dash in E; congruence.
Qed.

(** The first item that gives a value, and those around it. *)
Lemma omap_split {A B} (f : A → option B) l b bs : omap f l = b :: bs →
  ∃ l1 a l2, l = l1 ++ a :: l2 ∧ f a = Some b ∧ omap f l1 = [] ∧ omap f l2 = bs.
Proof.
  induction l as [|a l IH]; [done|]. cbn. destruct (f a) eqn:E.
  - intros [= -> <-]. by exists [], a, l.
  - intros (l1 & a' & l2 & -> & ? & ? & ?)%IH. exists (a :: l1), a', l2. cbn. by rewrite E.
Qed.

Lemma value_of_Some n i v : value_of n i = Some v → i = Opt n v.
Proof. destruct i; cbn; try done. by case_bool_decide; intros [= ->]; subst. Qed.
Lemma flag_of_Some n i u : flag_of n i = Some u → i = Flag n.
Proof. destruct i; cbn; try done. by case_bool_decide; intros [= <-]; subst. Qed.

(** Items without one of them. *)
Lemma options_drop m l1 i l2 : options m (l1 ++ i :: l2) =
  options m l1 ++ option_list (value_of m i) ++ options m l2.
Proof. unfold options. rewrite omap_app. cbn. by destruct (value_of m i). Qed.
Lemma flags_drop m l1 i l2 : flags m (l1 ++ i :: l2) =
  flags m l1 ++ option_list (flag_of m i) ++ flags m l2.
Proof. unfold flags. rewrite omap_app. cbn. by destruct (flag_of m i). Qed.
Lemma words_drop l1 i l2 : positionals (l1 ++ i :: l2) =
  positionals l1 ++ option_list (word_of i) ++ positionals l2.
Proof. unfold positionals. rewrite omap_app. cbn. by destruct (word_of i). Qed.

(** ** Reading

    [reads p O F P a O' F' P']: on every command line with these options,
    flags and words, [p] returns [a] and leaves such another. *)

Definition reads {A} (p : Parser A) O F P (a : A) O' F' P' : Prop :=
  ∀ items, shows items O F P → ∃ items', p (flatten items) = Ok (a, flatten items') ∧ shows items' O' F' P'.

Definition all_taken {A} (t : Table A) : bool := forallb (λ kv, bool_decide (length kv.2 = 0%nat)) t.

Lemma all_taken_entry {A} (t : Table A) n : all_taken t = true → entry t n = [].
Proof.
  unfold all_taken. induction t as [|[m vs] t IH]; [done|]. cbn.
  intros [Hv%bool_decide_eq_true Ht]%andb_true_iff. destruct (String.eqb m n); [by apply nil_length_inv|by apply IH].
Qed.

Lemma reads_bind {A B} (p : Parser A) (f : A → Parser B) O F P a O1 F1 P1 b O2 F2 P2 :
  reads p O F P a O1 F1 P1 → reads (f a) O1 F1 P1 b O2 F2 P2 → reads (p ≫= f) O F P b O2 F2 P2.
Proof.
  intros Hp Hf items (items1 & Hr & Hs)%Hp. destruct (Hf items1 Hs) as (items2 & Hr2 & Hs2).
  exists items2. split; [|done]. unfold mbind, parser_bind. by rewrite Hr.
Qed.

Lemma reads_ret {A} (a : A) O F P : reads (mret a) O F P a O F P.
Proof. intros items Hs. by exists items. Qed.

Lemma reads_lift {A} (r : res A) a O F P : r = Ok a → reads (lift r) O F P a O F P.
Proof. intros -> items Hs. by exists items. Qed.

Lemma reads_required o s msg O F P : o = Some s → reads (required o msg) O F P s O F P.
Proof. intros ->. by apply reads_lift. Qed.

Lemma split_at_none p l : Forall (λ a, p a = false) l → split_at_arg p l = None.
Proof. intros Hl. rewrite <-(app_nil_r l), split_at_app by done. done. Qed.

Lemma reads_option n O F P : starts_with "--" n = true → entry F n = [] →
  reads (take_option n) O F P (head (entry O n)) (change tail O n) F P.
Proof.
  intros Hn HF items [Hok HO HFl HP]. unfold take_option.
  assert (Hfl : flags n items = []) by by rewrite HFl.
  destruct (entry O n) as [|v vs] eqn:E; cbn [head].
  - exists items. rewrite split_at_none; [|apply flatten_without; [done|done|by rewrite HO|done]].
    split; [done|]. split; try done. intros m. rewrite entry_change, HO by done.
    case_bool_decide; [subst; by rewrite E|done].
  - rewrite <-HO in E. apply omap_split in E as (l1 & i & l2 & -> & ->%value_of_Some & Ho1 & Ho2).
    rewrite flags_drop in Hfl. apply app_nil in Hfl as [Hf1 _].
    apply Forall_app in Hok as [Hok1 [Hi Hok2]%Forall_cons]. destruct Hi as [_ Hv].
    exists (l1 ++ l2). rewrite flatten_app, flatten_cons. cbn [flat].
    rewrite split_at_app by by apply flatten_without. cbn. rewrite bool_decide_true by done. cbn.
    rewrite app_nil_r, Hv, flatten_app. split; [done|]. split.
    + by apply Forall_app.
    + intros m. rewrite entry_change, <-HO, options_drop by done. unfold options. rewrite omap_app. cbn.
      rewrite (bool_decide_ext (n = m) (m = n)) by done.
      destruct (bool_decide_reflect (m = n)) as [->|]; cbn; [|done].
      unfold options in Ho1. by rewrite Ho1.
    + intros m. rewrite <-HFl, flags_drop. unfold flags. by rewrite omap_app.
    + rewrite <-HP, words_drop. unfold positionals. by rewrite omap_app.
Qed.

Lemma reads_flag n O F P : starts_with "--" n = true → entry O n = [] →
  reads (take_flag n) O F P (negb (bool_decide (length (entry F n) = 0%nat))) O (change tail F n) P.
Proof.
  intros Hn HE items [Hok HO HFl HP]. unfold take_flag.
  assert (Hop : options n items = []) by by rewrite HO.
  destruct (entry F n) as [|v vs] eqn:E; cbn [length].
  - exists items. rewrite split_at_none; [|apply flatten_without; [done|done|done|by rewrite HFl]].
    split; [done|]. split; try done. intros m. rewrite entry_change, HFl by done.
    case_bool_decide; [subst; by rewrite E|done].
  - rewrite <-HFl in E. apply omap_split in E as (l1 & i & l2 & -> & ->%flag_of_Some & Hf1 & Hf2).
    rewrite options_drop in Hop. apply app_nil in Hop as [Ho1 _].
    apply Forall_app in Hok as [Hok1 [_ Hok2]%Forall_cons].
    exists (l1 ++ l2). rewrite flatten_app, flatten_cons. cbn [flat].
    rewrite split_at_app by by apply flatten_without. cbn. rewrite bool_decide_true by done. cbn.
    rewrite app_nil_r, flatten_app. split; [done|]. split.
    + by apply Forall_app.
    + intros m. rewrite <-HO, options_drop. unfold options. by rewrite omap_app.
    + intros m. rewrite entry_change, <-HFl, flags_drop by done. unfold flags. rewrite omap_app. cbn.
      rewrite (bool_decide_ext (n = m) (m = n)) by done.
      destruct (bool_decide_reflect (m = n)) as [->|]; cbn; [|done].
      unfold flags in Hf1. by rewrite Hf1.
    + rewrite <-HP, words_drop. unfold positionals. by rewrite omap_app.
Qed.

(** Once the options are taken, what does not begin with a dash is a word. *)
Lemma flatten_wordless items : Forall item_ok items → (∀ n, options n items = []) → positionals items = [] →
  Forall (λ a, negb (starts_with "-" a) = false) (flatten items).
Proof.
  induction 1 as [|i items Hi _ IH]; intros Ho Hp; [constructor|]. rewrite flatten_cons.
  destruct i as [n v|n|v]; cbn in Hi, Hp |- *; [|constructor|done].
  - specialize (Ho n). cbn in Ho. by rewrite bool_decide_true in Ho.
  - by rewrite (starts_dash n).
  - apply IH; [|done]. intros m. apply (Ho m).
Qed.

Lemma reads_word O F P : all_taken O = true →
  reads take_positional O F P (head P) O F (tail P).
Proof.
  intros Ht items [Hok HO HFl HP]. unfold take_positional.
  assert (Hop : ∀ n, options n items = []) by (intros n; rewrite HO; by apply all_taken_entry).
  destruct P as [|v vs]; cbn [head tail].
  - exists items. rewrite split_at_none by by apply flatten_wordless. by split.
  - apply omap_split in HP as (l1 & i & l2 & -> & Hi & Hp1 & Hp2).
    destruct i as [| |v']; try done. injection Hi as ->.
    apply Forall_app in Hok as [Hok1 [Hv Hok2]%Forall_cons]. cbn in Hv.
    exists (l1 ++ l2). rewrite flatten_app, flatten_cons. cbn [flat].
    rewrite split_at_app.
    2: { apply flatten_wordless; [done| |done]. intros n. specialize (Hop n).
         rewrite options_drop in Hop. by apply app_nil in Hop as [? _]. }
    cbn. rewrite Hv. cbn. rewrite app_nil_r, flatten_app. split; [done|]. split.
    + by apply Forall_app.
    + intros m. rewrite <-HO, options_drop. unfold options. by rewrite omap_app.
    + intros m. rewrite <-HFl, flags_drop. unfold flags. by rewrite omap_app.
    + unfold positionals in *. by rewrite omap_app, Hp1.
Qed.

Lemma shows_nothing items O F : shows items O F [] → all_taken O = true → all_taken F = true → items = [].
Proof.
  intros [Hok HO HFl HP] Ht Hf. destruct items as [|[n v|n|v] items]; [done| | |done].
  - specialize (HO n). cbn in HO. rewrite bool_decide_true, all_taken_entry in HO by done. done.
  - specialize (HFl n). cbn in HFl. rewrite bool_decide_true, all_taken_entry in HFl by done. done.
Qed.

Lemma reads_finish {A} (a : A) O F : all_taken O = true → all_taken F = true →
  reads (finish a) O F [] a O F [].
Proof.
  intros HO HF items Hs. pose proof (shows_nothing items O F Hs HO HF) as ->. by exists [].
Qed.

Lemma reads_ext {A} (p : Parser A) O F P a O' F' P' O2 :
  (∀ n, entry O' n = entry O2 n) → reads p O F P a O' F' P' → reads p O F P a O2 F' P'.
Proof.
  intros He Hp items (items' & Hr & [Hok HO HF HP])%Hp. exists items'. split; [done|].
  split; try done. intros n. by rewrite HO.
Qed.

Lemma reads_all_fuel n fuel O F P : starts_with "--" n = true → entry F n = [] →
  (length (entry O n) ≤ fuel)%nat →
  reads (take_all_fuel fuel n) O F P (entry O n) (change (λ _, []) O n) F P.
Proof.
  intros Hn HF. revert O. induction fuel as [|fuel IH]; intros O Hl; cbn [take_all_fuel].
  - apply Nat.le_0_r, nil_length_inv in Hl as E. rewrite E.
    eapply reads_ext; [|apply reads_ret]. intros m. rewrite entry_change by done.
    case_bool_decide; [by subst|done].
  - eapply reads_bind; [by apply reads_option|].
    destruct (entry O n) as [|v vs] eqn:E; cbn [head].
    + eapply reads_ext; [|apply reads_ret]. intros m. rewrite !entry_change by done.
      case_bool_decide; [subst; by rewrite E|done].
    + assert (E' : entry (change tail O n) n = vs) by (rewrite entry_change, E by done; by rewrite bool_decide_true).
      eapply reads_bind; [apply IH; rewrite E'; cbn in Hl; lia|]. rewrite E'.
      eapply reads_ext; [|apply reads_ret]. intros m. rewrite !entry_change by done. by case_bool_decide.
Qed.

Lemma reads_all n O F P : starts_with "--" n = true → entry F n = [] →
  reads (take_all n) O F P (entry O n) (change (λ _, []) O n) F P.
Proof.
  intros Hn HF items Hs. eapply reads_all_fuel; try done.
  destruct Hs as [_ HO _ _]. rewrite <-HO. clear. unfold options.
  induction items as [|i items IH]; [done|]. rewrite flatten_cons, length_app. cbn.
  destruct i as [m v|m|v]; cbn; [case_bool_decide| |]; cbn; lia.
Qed.

(** The parsers that take everything. *)
Definition reads_end {A} (p : Parser A) O F P (a : A) : Prop :=
  ∀ items, shows items O F P → p (flatten items) = Ok (a, []).

Lemma end_bind {A B} (p : Parser A) (f : A → Parser B) O F P a O1 F1 P1 b :
  reads p O F P a O1 F1 P1 → reads_end (f a) O1 F1 P1 b → reads_end (p ≫= f) O F P b.
Proof.
  intros Hp Hf items (items1 & Hr & Hs)%Hp. unfold mbind, parser_bind. rewrite Hr. by apply Hf.
Qed.

Lemma end_finish {A} (a : A) O F : all_taken O = true → all_taken F = true → reads_end (finish a) O F [] a.
Proof. intros HO HF items Hs. pose proof (shows_nothing items O F Hs HO HF) as ->. done. Qed.

(** ** Spellings of values *)

Definition flagged (b : bool) : list unit := if b then [tt] else [].

Lemma reads_flagged n O F P b : starts_with "--" n = true → entry O n = [] → entry F n = flagged b →
  reads (take_flag n) O F P b O (change tail F n) P.
Proof.
  intros Hn HO HF. pose proof (reads_flag n O F P Hn HO) as H. rewrite HF in H. by destruct b.
Qed.

Lemma reads_optional n O F P o : starts_with "--" n = true → entry F n = [] → entry O n = option_list o →
  reads (take_option n) O F P o (change tail O n) F P.
Proof. intros Hn HF HO. pose proof (reads_option n O F P Hn HF) as H. rewrite HO in H. by destruct o. Qed.

(** A list is left out, given one value at a time, or cleared. *)
Inductive spells_items : option (list string) → list string → bool → Prop :=
  | items_omitted : spells_items None [] false
  | items_given v vs : spells_items (Some (v :: vs)) (v :: vs) false
  | items_cleared : spells_items (Some []) [] true.

Lemma reads_items n clear O F P o vs b : starts_with "--" n = true → starts_with "--" clear = true →
  entry O n = vs → spells_items o vs b → entry F n = [] → entry O clear = [] → entry F clear = flagged b →
  entry (change tail F clear) n = [] →
  reads (parse_items n clear) O F P o (change (λ _, []) O n) (change tail F clear) P.
Proof.
  intros Hn Hc HO Hs HFn HOc HF HF'. unfold parse_items.
  eapply reads_bind; [by eapply reads_flagged|]. eapply reads_bind; [by eapply reads_all|].
  rewrite HO. destruct Hs; cbn; apply reads_ret.
Qed.

(** Boundaries are given as [source|text]. *)
Inductive spells_boundaries : option (list PlanBoundary) → list string → bool → Prop :=
  | boundaries_spelled o vs b bs : spells_items o vs b →
      match o with None => bs = None | Some l => ∃ l', try_map parse_boundary l = Ok l' ∧ bs = Some l' end →
      spells_boundaries bs vs b.

Lemma reads_boundaries O F P bs vs b : entry O "--boundary" = vs → spells_boundaries bs vs b →
  entry F "--boundary" = [] → entry O "--clear-boundaries" = [] →
  entry F "--clear-boundaries" = flagged b → entry (change tail F "--clear-boundaries") "--boundary" = [] →
  reads parse_boundaries O F P bs (change (λ _, []) O "--boundary") (change tail F "--clear-boundaries") P.
Proof.
  intros HO Hb. revert HO. destruct Hb as [o vs b bs Hs Hb]. intros HO HFn HOc HF HF'. unfold parse_boundaries.
  eapply reads_bind; [by eapply reads_items; [done|done|exact HO|exact Hs|..]|]. destruct o as [l|].
  - destruct Hb as (l' & Hl & ->). eapply reads_bind; [by eapply reads_lift|]. apply reads_ret.
  - subst. apply reads_ret.
Qed.

(** A value is given by its option or as the next word. *)
Inductive spells_word : option string → list string → list string → list string → Prop :=
  | word_named v P : spells_word (Some v) [v] P P
  | word_placed v P : spells_word (Some v) [] (v :: P) P
  | word_omitted : spells_word None [] [] [].

Lemma reads_or_positional o named P P' O F : spells_word o named P P' → all_taken O = true →
  reads (or_positional (head named)) O F P o O F P'.
Proof. intros Hw HO. destruct Hw; cbn; [apply reads_ret|by apply reads_word..]. Qed.

Section uuids.
Context (parse_uuid : string → option Uuid).

Inductive spells_uuid : option Uuid → option string → Prop :=
  | uuid_omitted : spells_uuid None None
  | uuid_given raw id : parse_uuid raw = Some id → spells_uuid (Some id) (Some raw).

Lemma reads_uuid n O F P id o : starts_with "--" n = true → entry F n = [] →
  entry O n = option_list o → spells_uuid id o →
  reads (take_uuid_option parse_uuid n) O F P id (change tail O n) F P.
Proof.
  intros Hn HF HO Hs. unfold take_uuid_option. eapply reads_bind; [by eapply reads_optional|].
  destruct Hs as [|raw id Hid]; [apply reads_ret|].
  eapply reads_bind; [apply reads_lift; unfold parse_uuid_as; by rewrite Hid|]. apply reads_ret.
Qed.

(** ** The grammar of the plan commands *)

Inductive spells_guidance : PlanGuidance → Table string → Table unit → Prop :=
  | guidance_spelled outcome ps pv pb qs qv qb bs bv bb :
      spells_items ps pv pb → spells_items qs qv qb → spells_boundaries bs bv bb →
      spells_guidance (mkGuidance (default "" outcome) (default [] ps) (default [] qs) (default [] bs))
        [("--outcome", option_list outcome); ("--principle", pv); ("--assumption", qv); ("--boundary", bv)]
        [("--clear-principles", flagged pb); ("--clear-assumptions", flagged qb); ("--clear-boundaries", flagged bb)].

(** [spells request command words O F P]: the request is written as the
    command, its words, and options, flags and further words in any order. *)
Inductive spells : ControlRequest → string → list string → Table string → Table unit → list string → Prop :=
  | spells_start title named P summary guidance GO GF raws all_pending :
      spells_word (Some title) named P [] → spells_guidance guidance GO GF →
      spells (PlanStart title (default "" summary) guidance (parse_phase <$> raws) all_pending) "start" []
        (("--title", named) :: ("--summary", option_list summary) :: ("--phase", raws) :: GO)
        (("--all-pending", flagged all_pending) :: GF) P
  | spells_branch id plan title named P summary guidance GO GF raws refs note all_pending :
      spells_uuid id plan → spells_word (Some title) named P [] → spells_guidance guidance GO GF →
      spells (PlanBranch id
          (mkBranchInput title (default "" summary) guidance (parse_phase <$> raws) all_pending refs note))
        "branch" []
        (("--plan", option_list plan) :: ("--title", named) :: ("--summary", option_list summary)
         :: ("--phase", raws) :: ("--from", refs) :: ("--note", option_list note) :: GO)
        (("--all-pending", flagged all_pending) :: GF) P
  | spells_return id plan note skip canceled completed :
      spells_uuid id plan → canceled && completed = false →
      spells (PlanUpdate id
          (mkUpdate None None None None None None (Some (closing_status (negb canceled))) note skip true))
        "return" []
        [("--plan", option_list plan); ("--note", option_list note)]
        [("--canceled", flagged canceled); ("--completed", flagged completed); ("--skip-remaining", flagged skip)] []
  | spells_close id plan note skip completed :
      spells_uuid id plan →
      spells (PlanUpdate id
          (mkUpdate None None None None None None (Some (closing_status completed)) note skip false))
        "close" []
        [("--plan", option_list plan); ("--note", option_list note)]
        [("--canceled", flagged (negb completed)); ("--completed", flagged completed);
         ("--skip-remaining", flagged skip)] []
  | spells_status id plan note status :
      spells_uuid id plan →
      spells (PlanUpdate id (mkUpdate None None None None None None (Some status) note false false)) "status" []
        [("--plan", option_list plan); ("--note", option_list note)] [] [status]
  | spells_update id plan title summary note outcome ps pv pb qs qv qb bs bv bb :
      spells_uuid id plan → spells_items ps pv pb → spells_items qs qv qb → spells_boundaries bs bv bb →
      spells (PlanUpdate id (mkUpdate title summary outcome ps qs bs None note false false)) "update" []
        [("--plan", option_list plan); ("--title", option_list title); ("--summary", option_list summary);
         ("--note", option_list note); ("--outcome", option_list outcome);
         ("--principle", pv); ("--assumption", qv); ("--boundary", bv)]
        [("--clear-principles", flagged pb); ("--clear-assumptions", flagged qb);
         ("--clear-boundaries", flagged bb)] []
  | spells_phase_add command title named P description status size id plan :
      command ∈ ["phase"; "step"] → spells_word (Some title) named P [] → spells_uuid id plan →
      spells (PlanAddPhase id (mkNewPhase title (default "" description) status size)) command ["add"]
        [("--title", named); ("--description", option_list description); ("--status", option_list status);
         ("--size", option_list size); ("--plan", option_list plan)] [] P
  | spells_phase_set command word id plan reference title description status named P note raw position size :
      command ∈ ["phase"; "step"] → word ∈ ["set"; "update"] →
      spells_uuid id plan → spells_word status named P [] → parse_position raw = Ok position →
      spells (PlanUpdatePhase id reference (mkUpdatePhase title description status note position size))
        command [word]
        [("--status", named); ("--plan", option_list plan); ("--note", option_list note);
         ("--title", option_list title); ("--description", option_list description);
         ("--size", option_list size); ("--position", option_list raw)] [] (reference :: P)
  | spells_attach raw id : parse_uuid raw = Some id → spells (PlanAttach id) "attach" [] [] [] [raw]
  | spells_on_plan request command id raw named P :
      (request, command) ∈ [(PlanTree, "tree"); (PlanShow, "show"); (PlanDetach, "detach"); (PlanHistory, "history")] →
      spells_uuid id raw → spells_word raw named P [] →
      spells (request id) command [] [("--plan", named)] [] P
  | spells_current : spells PlanCurrent "current" [] [] [] []
  | spells_list all include_closed : all && include_closed = false →
      spells (PlanList (all || include_closed)) "list" [] []
        [("--all", flagged all); ("--include-closed", flagged include_closed)] [].

(** ** Command lines are read as they are spelled *)

Lemma tail_option {A} (o : option A) : tail (option_list o) = [].
Proof. by destruct o. Qed.
Lemma tail_flagged b : tail (flagged b) = [].
Proof. by destruct b. Qed.

Lemma word_tail o named P P' : spells_word o named P P' → tail named = [].
Proof. by destruct 1. Qed.

#[local] Ltac lookups := cbn; reflexivity.

#[local] Ltac take_one :=
  first
    [ by eapply reads_optional; lookups
    | by eapply reads_flagged; lookups
    | eapply reads_uuid; [lookups|lookups|lookups|eassumption]
    | eapply reads_items; [lookups|lookups|lookups|eassumption|lookups..]
    | eapply reads_boundaries; [lookups|eassumption|lookups..]
    | by eapply reads_all; lookups
    | eapply (reads_option "--title"); lookups
    | eapply (reads_option "--status"); lookups
    | eapply reads_required; reflexivity
    | eapply reads_lift; eassumption ].

#[local] Ltac tidy :=
  cbn [entry change String.eqb Ascii.eqb Bool.eqb tail head fst snd];
  rewrite ?tail_option, ?tail_flagged;
  repeat match goal with H : spells_word _ ?n _ _ |- context [tail ?n] => rewrite (word_tail _ _ _ _ H) end.
#[local] Ltac next := eapply end_bind; [take_one|]; tidy.
#[local] Ltac step := eapply reads_bind; [take_one|]; tidy.
#[local] Ltac ends := apply end_finish; reflexivity.

(** A title, status or name given by its option or as a word. *)
#[local] Ltac next_word := eapply end_bind; [eapply reads_or_positional; [eassumption|reflexivity]|]; tidy.

Lemma read_start title named P summary guidance GO GF raws all_pending :
  spells_word (Some title) named P [] → spells_guidance guidance GO GF →
  reads_end parse_start
    (("--title", named) :: ("--summary", option_list summary) :: ("--phase", raws) :: GO)
    (("--all-pending", flagged all_pending) :: GF) P
    (PlanStart title (default "" summary) guidance (parse_phase <$> raws) all_pending).
Proof.
  intros Hw [outcome ps pv pb qs qv qb bs bv bb Hps Hqs Hbs]. unfold parse_start.
  do 2 next. eapply end_bind; [unfold parse_new; do 4 step; apply reads_ret|]. do 2 next.
  next_word. next. ends.
Qed.

Lemma read_branch id plan title named P summary guidance GO GF raws refs note all_pending :
  spells_uuid id plan → spells_word (Some title) named P [] → spells_guidance guidance GO GF →
  reads_end (parse_branch parse_uuid)
    (("--plan", option_list plan) :: ("--title", named) :: ("--summary", option_list summary)
     :: ("--phase", raws) :: ("--from", refs) :: ("--note", option_list note) :: GO)
    (("--all-pending", flagged all_pending) :: GF) P
    (PlanBranch id (mkBranchInput title (default "" summary) guidance (parse_phase <$> raws) all_pending refs note)).
Proof.
  intros Hid Hw [outcome ps pv pb qs qv qb bs bv bb Hps Hqs Hbs]. unfold parse_branch.
  do 3 next. eapply end_bind; [unfold parse_new; do 4 step; apply reads_ret|]. do 4 next.
  next_word. next. ends.
Qed.

Lemma read_return id plan note skip canceled completed :
  spells_uuid id plan → canceled && completed = false →
  reads_end (parse_return parse_uuid) [("--plan", option_list plan); ("--note", option_list note)]
    [("--canceled", flagged canceled); ("--completed", flagged completed); ("--skip-remaining", flagged skip)] []
    (PlanUpdate id (mkUpdate None None None None None None (Some (closing_status (negb canceled))) note skip true)).
Proof.
  intros Hid Hc. unfold parse_return. do 3 next. rewrite andb_comm, Hc. do 2 next. ends.
Qed.

Lemma read_close id plan note skip completed :
  spells_uuid id plan →
  reads_end (parse_close parse_uuid) [("--plan", option_list plan); ("--note", option_list note)]
    [("--canceled", flagged (negb completed)); ("--completed", flagged completed); ("--skip-remaining", flagged skip)] []
    (PlanUpdate id (mkUpdate None None None None None None (Some (closing_status completed)) note skip false)).
Proof.
  intros Hid. unfold parse_close. do 3 next. rewrite bool_decide_false by by destruct completed.
  do 2 next. ends.
Qed.

Lemma read_status id plan note status :
  spells_uuid id plan →
  reads_end (parse_status parse_uuid) [("--plan", option_list plan); ("--note", option_list note)] [] [status]
    (PlanUpdate id (mkUpdate None None None None None None (Some status) note false false)).
Proof.
  intros Hid. unfold parse_status. do 2 next. eapply end_bind; [by apply reads_word|]; tidy. next. ends.
Qed.

Lemma read_update id plan title summary note outcome ps pv pb qs qv qb bs bv bb :
  spells_uuid id plan → spells_items ps pv pb → spells_items qs qv qb → spells_boundaries bs bv bb →
  reads_end (parse_update parse_uuid)
    [("--plan", option_list plan); ("--title", option_list title); ("--summary", option_list summary);
     ("--note", option_list note); ("--outcome", option_list outcome);
     ("--principle", pv); ("--assumption", qv); ("--boundary", bv)]
    [("--clear-principles", flagged pb); ("--clear-assumptions", flagged qb); ("--clear-boundaries", flagged bb)] []
    (PlanUpdate id (mkUpdate title summary outcome ps qs bs None note false false)).
Proof. intros Hid Hps Hqs Hbs. unfold parse_update. do 8 next. ends. Qed.

Lemma read_phase_add title named P description status size id plan :
  spells_word (Some title) named P [] → spells_uuid id plan →
  reads_end (parse_phase_add parse_uuid)
    [("--title", named); ("--description", option_list description); ("--status", option_list status);
     ("--size", option_list size); ("--plan", option_list plan)] [] P
    (PlanAddPhase id (mkNewPhase title (default "" description) status size)).
Proof. intros Hw Hid. unfold parse_phase_add. do 5 next. next_word. next. ends. Qed.

Lemma read_phase_set id plan reference title description status named P note raw position size :
  spells_uuid id plan → spells_word status named P [] → parse_position raw = Ok position →
  reads_end (parse_phase_set parse_uuid)
    [("--status", named); ("--plan", option_list plan); ("--note", option_list note);
     ("--title", option_list title); ("--description", option_list description);
     ("--size", option_list size); ("--position", option_list raw)] [] (reference :: P)
    (PlanUpdatePhase id reference (mkUpdatePhase title description status note position size)).
Proof.
  intros Hid Hw Hp. unfold parse_phase_set. do 8 next. eapply end_bind; [by apply reads_word|]; tidy. next.
  next_word. ends.
Qed.

Lemma read_attach raw id : parse_uuid raw = Some id →
  reads_end (parse_attach parse_uuid) [] [] [raw] (PlanAttach id).
Proof.
  intros Hid. unfold parse_attach. eapply end_bind; [by apply reads_word|]; tidy. next.
  intros items Hs. pose proof (shows_nothing items [] [] Hs eq_refl eq_refl) as ->. cbn.
  unfold parse_uuid_as. by rewrite Hid.
Qed.

Lemma read_on_plan request id raw named P :
  spells_uuid id raw → spells_word raw named P [] →
  reads_end (parse_on_plan parse_uuid request) [("--plan", named)] [] P (request id).
Proof.
  intros Hid Hw. unfold parse_on_plan, optional_plan_id.
  inversion Hw as [v|v|]; subst; inversion Hid as [|? ? Hv]; subst.
  - eapply end_bind.
    + eapply reads_bind; [eapply (reads_uuid _ _ _ _ _ (Some v)); [done..|by constructor]|]. tidy. apply reads_ret.
    + ends.
  - eapply end_bind.
    + eapply reads_bind; [eapply (reads_uuid _ _ _ _ None None); [done..|constructor]|]. tidy.
      eapply reads_bind; [by apply reads_word|]. tidy.
      eapply reads_bind; [apply reads_lift; unfold parse_uuid_as; by rewrite Hv|]. apply reads_ret.
    + ends.
  - eapply end_bind.
    + eapply reads_bind; [eapply (reads_uuid _ _ _ _ None None); [done..|constructor]|]. tidy.
      eapply reads_bind; [by apply reads_word|]. tidy. apply reads_ret.
    + ends.
Qed.

Lemma read_list all include_closed : all && include_closed = false →
  reads_end parse_list [] [("--all", flagged all); ("--include-closed", flagged include_closed)] []
    (PlanList (all || include_closed)).
Proof.
  intros Ha. unfold parse_list. next. destruct all; cbn [orb]; cbn in Ha; subst.
  - eapply end_bind; [apply reads_ret|]. ends.
  - next. ends.
Qed.

Lemma phase_command word items : word ∈ ["add"; "set"; "update"] →
  parse_phase_request parse_uuid (word :: items) =
  (if bool_decide (word = "add") then parse_phase_add parse_uuid else parse_phase_set parse_uuid) items.
Proof.
  rewrite !elem_of_cons. intros [->|[->|[->|H]]]; [reflexivity..|]. by apply elem_of_nil in H.
Qed.

Lemma phase_or_step command : command ∈ ["phase"; "step"] →
  parse_plan_request parse_uuid command = parse_phase_request parse_uuid.
Proof. rewrite !elem_of_cons. intros [->|[->|H]]; [reflexivity..|]. by apply elem_of_nil in H. Qed.

#[local] Ltac apply_to p := match goal with |- reads_end _ ?O ?F ?P ?r => change (reads_end p O F P r) end.

(** Every way of writing a request is read as the request. *)
Lemma spelled_read r command words O F P : spells r command words O F P →
  ∀ items, shows items O F P → parse_plan_request parse_uuid command (words ++ flatten items) = Ok (r, []).
Proof.
  intros Hs. change (reads_end (λ args, parse_plan_request parse_uuid command (words ++ args)) O F P r).
  destruct Hs; cbn [app].
  - apply_to parse_start; by eapply read_start.
  - apply_to (parse_branch parse_uuid); by eapply read_branch.
  - apply_to (parse_return parse_uuid); by eapply read_return.
  - apply_to (parse_close parse_uuid); by eapply read_close.
  - apply_to (parse_status parse_uuid); by eapply read_status.
  - apply_to (parse_update parse_uuid); by eapply read_update.
  - intros items Hi. rewrite phase_or_step by done. cbn [app]. rewrite phase_command by set_solver. by eapply read_phase_add.
  - intros items Hi. rewrite phase_or_step by done. cbn [app]. rewrite phase_command by set_solver.
    rewrite bool_decide_false by set_solver. by eapply read_phase_set.
  - apply_to (parse_attach parse_uuid); by eapply read_attach.
  - rewrite !elem_of_cons, elem_of_nil in *. destruct_or!; simplify_eq.
    + apply_to (parse_on_plan parse_uuid PlanTree); by eapply read_on_plan.
    + apply_to (parse_on_plan parse_uuid PlanShow); by eapply read_on_plan.
    + apply_to (parse_on_plan parse_uuid PlanDetach); by eapply read_on_plan.
    + apply_to (parse_on_plan parse_uuid PlanHistory); by eapply read_on_plan.
  - apply_to (finish PlanCurrent); by apply end_finish.
  - apply_to parse_list; by eapply read_list.
Qed.

(** What no command line of the grammar holds before its options. *)
Lemma spells_plain r command words O F P : spells r command words O F P →
  Forall (λ a, bool_decide (a = "--json") = false) (command :: words) ∧
  bool_decide (command ∈ ["help"; "-h"; "--help"]) = false ∧ entry O "--json" = [].
Proof.
  assert (Hphase : ∀ c, c ∈ ["phase"; "step"] →
    bool_decide (c = "--json") = false ∧ bool_decide (c ∈ ["help"; "-h"; "--help"]) = false).
  { intros c. rewrite !elem_of_cons. intros [->|[->|H]]; [by split..|]. by apply elem_of_nil in H. }
  assert (Hword : ∀ c, c ∈ ["set"; "update"] → bool_decide (c = "--json") = false).
  { intros c. rewrite !elem_of_cons. intros [->|[->|H]]; [done..|]. by apply elem_of_nil in H. }
  destruct 1 as [? ? ? ? ? ? ? ? ? ? Hg|? ? ? ? ? ? ? ? ? ? ? ? ? ? ? Hg| | | | |? ? ? ? ? ? ? ? ? Hc|
    ? ? ? ? ? ? ? ? ? ? ? ? ? ? Hc Hw| |? ? ? ? ? ? Hc| |];
    try destruct Hg; try destruct (Hphase _ Hc) as [Hc1 Hc2]; try by (split_and!; repeat constructor).
  - split_and!; repeat constructor; auto.
  - rewrite !elem_of_cons, elem_of_nil in Hc.
    destruct_or!; simplify_eq; split_and!; repeat constructor.
Qed.

(** With [--json] anywhere among them. *)
Lemma run_plan_read r command words O F P json items :
  spells r command words O F P → shows items O (("--json", flagged json) :: F) P →
  run_plan parse_uuid (command :: words ++ flatten items) = Request r json.
Proof.
  intros Hs Hi. destruct (spells_plain _ _ _ _ _ _ Hs) as (Hp & Hh & Hj).
  destruct (reads_flagged "--json" O (("--json", flagged json) :: F) P json eq_refl Hj eq_refl items Hi)
    as (items' & Hr & Hi').
  assert (Hi2 : shows items' O F P).
  { destruct Hi' as [Hok HO HF HP]. split; try done. intros n. rewrite HF.
    change (entry (change tail (("--json", flagged json) :: F) "--json") n)
      with (if String.eqb "--json" n then tail (flagged json) else entry F n).
    destruct (String.eqb_spec "--json" n) as [<-|]; [|done]. rewrite tail_flagged.
    by destruct Hs as [? ? ? ? ? ? ? ? ? ? Hg|? ? ? ? ? ? ? ? ? ? ? ? ? ? ? Hg| | | | | | | | | |]; try destruct Hg. }
  unfold run_plan, run_with, take_flag in *.
  rewrite app_comm_cons, split_at_app by done.
  destruct (split_at_arg _ (flatten items)) as [[[before x] after]|] eqn:E; cbn [mbind option_bind].
  - injection Hr as <- Hr. cbn [app]. rewrite Hh, <-app_assoc, Hr. by erewrite spelled_read.
  - injection Hr as <- Hr. cbn [app]. rewrite Hh, Hr. by erewrite spelled_read.
Qed.
End uuids.

(** ** Phases as text *)

Definition render_phase (p : NewPhase) : string :=
  new_title p +:+ "|" +:+ new_description p +:+
  match new_size p with Some size => "|" +:+ size | None => "" end.

Lemma split_once_none_cons c s : split_once "|" (String c s) = None → c ≠ "|"%char ∧ split_once "|" s = None.
Proof.
  cbn [split_once strip_prefix]. destruct (Ascii.eqb_spec "|" c) as [<-|Hc]; [done|].
  destruct (split_once "|" s) as [[]|]; [done|]. by split; [congruence|].
Qed.

Lemma split_once_bar a b : split_once "|" a = None → split_once "|" (a +:+ "|" +:+ b) = Some (a, b).
Proof.
  induction a as [|c a IH]; intros Ha; [by destruct b|].
  apply split_once_none_cons in Ha as [Hc Ha]. rewrite append_cons. cbn [split_once strip_prefix].
  destruct (Ascii.eqb_spec "|" c) as [<-|_]; [done|]. by rewrite (IH Ha).
Qed.

(** A phase whose texts are trimmed, and its title and description without a
    bar, is written and read back. *)
Lemma parse_render_phase p : new_status p = None →
  split_once "|" (new_title p) = None → split_once "|" (new_description p) = None →
  trim (new_title p) = new_title p → trim (new_description p) = new_description p →
  match new_size p with Some s => s ≠ "" ∧ trim s = s | None => True end →
  parse_phase (render_phase p) = p.
Proof.
  destruct p as [title description status size]. cbn [new_title new_description new_status new_size].
  intros -> Ht Hd Ht' Hd' Hs. unfold parse_phase, render_phase. cbn [new_title new_description new_status new_size].
  rewrite (split_once_bar title _ Ht). destruct size as [s|].
  - destruct Hs as [Hne Hs]. rewrite (split_once_bar description _ Hd), Ht', Hd', Hs.
    unfold is_empty. by rewrite bool_decide_false.
  - by rewrite append_nil_r, Hd, Ht', Hd'.
Qed.

(** ** A command line for every spelling *)

Definition canonical (O : Table string) (F : Table unit) (P : list string) : list Item :=
  (('(n, vs) ← O; Opt n <$> vs) ++ ('(n, us) ← F; (λ _, Flag n) <$> us)) ++ (Pos <$> P).

Definition table_ok {A} (t : Table A) : Prop :=
  NoDup t.*1 ∧ Forall (λ kv, starts_with "--" kv.1 = true) t.

Lemma omap_none {A B} (f : A → option B) l : (∀ a, a ∈ l → f a = None) → omap f l = [].
Proof.
  induction l as [|a l IH]; intros H; [done|]. cbn. rewrite H by left. apply IH. intros b Hb. apply H. by right.
Qed.

Lemma entry_absent {A} (t : Table A) n : n ∉ t.*1 → entry t n = [].
Proof.
  induction t as [|[m vs] t IH]; [done|]. cbn. intros [Hm Ht]%not_elem_of_cons.
  destruct (String.eqb_spec m n); [congruence|by apply IH].
Qed.

Lemma omap_pairs {A} (f : string → Item → option A) (g : string → A → Item) t n :
  (∀ m v, f n (g m v) = if bool_decide (m = n) then Some v else None) → NoDup t.*1 →
  omap (f n) ('(m, vs) ← t; g m <$> vs) = entry t n.
Proof.
  intros Hf. induction t as [|[m vs] t IH]; [done|]. cbn. intros [Hm Ht]%NoDup_cons.
  change (omap (f n) ((g m <$> vs) ++ ('(m, vs) ← t; g m <$> vs)) = if String.eqb m n then vs else entry t n).
  rewrite omap_app, (IH Ht). destruct (String.eqb_spec m n) as [->|Hn].
  - rewrite (entry_absent t n Hm), app_nil_r. clear -Hf. induction vs as [|v vs IH]; [done|]. cbn.
    rewrite Hf, bool_decide_true by done. by rewrite IH.
  - rewrite omap_none; [done|]. intros i (v & -> & _)%list_elem_of_fmap. by rewrite Hf, bool_decide_false.
Qed.

Lemma canonical_shows O F P : table_ok O → table_ok F →
  Forall (λ kv, Forall (λ v, starts_with "--" v = false) kv.2) O →
  Forall (λ v, starts_with "-" v = false) P → shows (canonical O F P) O F P.
Proof.
  intros [HO HO'] [HF HF'] HOv HP. unfold canonical. split.
  - rewrite !Forall_app. rewrite Forall_forall in HO'. rewrite Forall_forall in HF'. rewrite Forall_forall in HOv.
    rewrite Forall_forall in HP. split_and!; apply Forall_forall; intros i.
    + intros ([n vs] & (v & -> & Hv)%list_elem_of_fmap & Hin)%list_elem_of_bind.
      split; [by apply (HO' _ Hin)|]. specialize (HOv _ Hin). rewrite Forall_forall in HOv. by apply HOv.
    + intros ([n vs] & (v & -> & Hv)%list_elem_of_fmap & Hin)%list_elem_of_bind. by apply (HF' _ Hin).
    + intros (v & -> & Hv)%list_elem_of_fmap. by apply HP.
  - intros n. unfold options. rewrite !omap_app.
    rewrite (omap_pairs value_of Opt O n) by done.
    rewrite (omap_none _ (_ ← _; _)), (omap_none _ (Pos <$> P)); [by rewrite !app_nil_r|..].
    + by intros i (v & -> & _)%list_elem_of_fmap.
    + by intros i ([m vs] & (v & -> & _)%list_elem_of_fmap & _)%list_elem_of_bind.
  - intros n. unfold flags. rewrite !omap_app.
    rewrite (omap_pairs flag_of (λ m _, Flag m) F n); [|by intros m []|done].
    rewrite (omap_none _ (_ ← _; _)), (omap_none _ (Pos <$> P)); [by rewrite !app_nil_r|..].
    + by intros i (v & -> & _)%list_elem_of_fmap.
    + by intros i ([m vs] & (v & -> & _)%list_elem_of_fmap & _)%list_elem_of_bind.
  - unfold positionals. rewrite !omap_app.
    rewrite (omap_none _ ('(n, vs) ← O; _)), (omap_none _ ('(n, us) ← F; _)).
    + clear. induction P as [|v P IH]; [done|]. cbn in *. by rewrite IH.
    + by intros i ([m vs] & (v & -> & _)%list_elem_of_fmap & _)%list_elem_of_bind.
    + by intros i ([m vs] & (v & -> & _)%list_elem_of_fmap & _)%list_elem_of_bind.
Qed.

(** To see that items show tables it is enough to look at the names there are. *)
Definition name_of (i : Item) : option string :=
  match i with Opt n _ | Flag n => Some n | Pos _ => None end.
Definition names (items : list Item) (O : Table string) (F : Table unit) : list string :=
  omap name_of items ++ O.*1 ++ F.*1.

Lemma unnamed n items : n ∉ omap name_of items → options n items = [] ∧ flags n items = [].
Proof.
  intros Hn. assert (Hi : ∀ i, i ∈ items → name_of i ≠ Some n).
  { intros i Hi Hs. apply Hn, list_elem_of_omap. by exists i. }
  split; apply omap_none; intros i Hin; specialize (Hi i Hin); destruct i; cbn in *; try done;
    rewrite bool_decide_false; congruence.
Qed.

Lemma shows_by_names items O F P : Forall item_ok items →
  Forall (λ n, options n items = entry O n ∧ flags n items = entry F n) (names items O F) →
  positionals items = P → shows items O F P.
Proof.
  intros Hok Hn HP. rewrite Forall_forall in Hn.
  assert (H : ∀ n, options n items = entry O n ∧ flags n items = entry F n).
  { intros n. destruct (decide (n ∈ names items O F)) as [Hin|Hout]; [by apply Hn|].
    unfold names in Hout. rewrite !not_elem_of_app in Hout. destruct Hout as (Hi & HO & HF).
    destruct (unnamed n items Hi) as [-> ->]. by rewrite !entry_absent. }
  split; [done|apply H|apply H|done].
Qed.

(** ** What the command line guarantees *)

(** C23. A plan command is read as it is spelled: whatever the order of its
    options, flags and words, and wherever [--json] stands among them, the
    request read is the one the grammar gives, and nothing of the line is
    left over or refused. *)
Theorem command_line_read parse_uuid r command words O F P json items :
  spells parse_uuid r command words O F P →
  shows items O (("--json", flagged json) :: F) P →
  run_plan parse_uuid (command :: words ++ flatten items) = Request r json.
Proof. apply run_plan_read. Qed.

(** A branch with every kind of item, out of order. *)
Definition demo_items : list Item :=
  [Opt "--phase" "Dig|down to the rock|l"; Flag "--json"; Opt "--boundary" "correction|keep off the road";
   Opt "--from" "2"; Pos "Foundations"; Opt "--plan" "seven"; Opt "--phase" "Pour"; Flag "--clear-principles";
   Opt "--from" "3"].

Definition demo_uuid (s : string) : option Uuid := if bool_decide (s = "seven") then Some 7%N else None.

Definition demo_branch : ControlRequest :=
  PlanBranch (Some 7%N)
    (mkBranchInput "Foundations" ""
       (mkGuidance "" [] [] [mkBoundary UserCorrection "keep off the road"])
       [mkNewPhase "Dig" "down to the rock" None (Some "l"); mkNewPhase "Pour" "" None None]
       false ["2"; "3"] None).

Lemma demo_branch_spelled : spells demo_uuid demo_branch "branch" []
  [("--plan", ["seven"]); ("--title", []); ("--summary", []);
   ("--phase", ["Dig|down to the rock|l"; "Pour"]); ("--from", ["2"; "3"]); ("--note", []);
   ("--outcome", []); ("--principle", []); ("--assumption", []);
   ("--boundary", ["correction|keep off the road"])]
  [("--all-pending", []); ("--clear-principles", [tt]); ("--clear-assumptions", []); ("--clear-boundaries", [])]
  ["Foundations"].
Proof.
  refine (spells_branch demo_uuid (Some 7%N) (Some "seven") "Foundations" [] ["Foundations"] None
    (mkGuidance "" [] [] [mkBoundary UserCorrection "keep off the road"]) _ _
    ["Dig|down to the rock|l"; "Pour"] ["2"; "3"] None false _ _ _).
  - by constructor.
  - constructor.
  - refine (guidance_spelled None (Some []) [] true None [] false
      (Some [mkBoundary UserCorrection "keep off the road"]) ["correction|keep off the road"] false _ _ _);
      [constructor..|].
    eapply boundaries_spelled; [apply items_given|]. eexists. split; reflexivity.
Qed.

Lemma demo_shown : shows demo_items
  [("--plan", ["seven"]); ("--title", []); ("--summary", []);
   ("--phase", ["Dig|down to the rock|l"; "Pour"]); ("--from", ["2"; "3"]); ("--note", []);
   ("--outcome", []); ("--principle", []); ("--assumption", []);
   ("--boundary", ["correction|keep off the road"])]
  (("--json", flagged true)
   :: [("--all-pending", []); ("--clear-principles", [tt]); ("--clear-assumptions", []); ("--clear-boundaries", [])])
  ["Foundations"].
Proof.
  apply shows_by_names; [|by repeat constructor|reflexivity].
  repeat (apply Forall_cons_2; [repeat split|]). apply Forall_nil_2.
Qed.

Lemma command_line_read_witness :
  run_plan demo_uuid ("branch" :: flatten demo_items) = Request demo_branch true.
Proof.
  exact (command_line_read demo_uuid demo_branch "branch" [] _ _ _ true demo_items demo_branch_spelled demo_shown).
Defined.

(** The two names of one flag of [list] are each read, but not both: the
    second stays behind and is refused as an unexpected argument. *)
Lemma both_list_flags_refused parse_uuid :
  run_plan parse_uuid ["list"; "--all"] = Request (PlanList true) false ∧
  run_plan parse_uuid ["list"; "--include-closed"] = Request (PlanList true) false ∧
  run_plan parse_uuid ["list"; "--all"; "--include-closed"]
  = UsageFailure "unexpected argument: --include-closed".
Proof. by repeat split. Qed.
