(* ===== verification/NodeWire.v ===== *)
(** * The wire of the node protocol

    [node_protocol/model.rs]: the texts the handshake signs, the envelopes of
    the connection between a development node and the control plane, and the
    fragments a large envelope is sent in; and what an assembler holds,
    whatever it is sent. *)

From S2P Require Import Prelude Text Json.

Definition NODE_PROTOCOL_VERSION : Z := 1.
Definition MAX_NODE_FRAME_BYTES : Z := 256 * 1024.
Definition MAX_REASSEMBLED_MESSAGE_BYTES : Z := 96 * 1024 * 1024.
Definition FRAGMENT_DATA_BYTES : Z := 180 * 1024.
Definition MAX_FRAGMENT_GROUPS : Z := 16.
Definition MAX_FRAGMENTS_PER_MESSAGE : Z := 1024.

(** ** What the handshake signs *)

Record ControlChallenge : Type := mkChallenge {
  challenge_id : Uuid;
  nonce : string;
  ch_protocol_version : Z;
}.

Record NodeHello : Type := mkHello {
  h_node_id : Uuid;
  h_boot_id : Uuid;
  h_protocol_version : Z;
  h_public_key : option string;
  node_nonce : string;
  h_signature : string;
}.

Record ControlHelloProof : Type := mkProof {
  p_public_key : string;
  tls_cert_digest : option string;
  p_signature : string;
}.

(** The text [Uuid] shows. *)
Class UuidText : Type := { uuid_text : Uuid → string }.

Definition hello_fields `{UuidText} (hello : NodeHello) (challenge : ControlChallenge) : list string :=
  ["sulion-node-handshake-v1"; uuid_text (challenge_id challenge); nonce challenge;
   pretty (ch_protocol_version challenge); uuid_text (h_node_id hello); uuid_text (h_boot_id hello);
   pretty (h_protocol_version hello)]
  ++ option_list (h_public_key hello)
  ++ (if is_empty (node_nonce hello) then [] else [node_nonce hello]).

Definition hello_signing_payload `{UuidText} (hello : NodeHello) (challenge : ControlChallenge) : string :=
  join newline (hello_fields hello challenge).

Definition proof_fields `{UuidText} (proof : ControlHelloProof) (challenge : ControlChallenge) (hello : NodeHello)
    : list string :=
  ["sulion-control-handshake-v1"; uuid_text (challenge_id challenge); nonce challenge; node_nonce hello;
   uuid_text (h_node_id hello); uuid_text (h_boot_id hello); pretty (h_protocol_version hello); p_public_key proof]
  ++ option_list (tls_cert_digest proof).

Definition proof_signing_payload `{UuidText} (proof : ControlHelloProof) (challenge : ControlChallenge)
    (hello : NodeHello) : string :=
  join newline (proof_fields proof challenge hello).

Definition config_signing_payload (digest node_nonce : string) : string :=
  join newline ["sulion-node-config-v1"; digest; node_nonce].

(** ** Requests *)

Inductive NodeRequestKind : Type :=
  | UploadImport
  | ProbeEcho
  | SessionCreate
  | SessionDelete
  | SessionUpgrade
  | SessionAgentStart
  | SessionAgentInterrupt
  | SessionInput
  | SessionResize
  | RepoCreate
  | RepoRename
  | RepoDelete
  | RepoRefresh
  | RepoStage
  | RepoUpload
  | RepoFiles
  | RepoFilePreview
  | RepoFileRaw
  | RepoDiff
  | RepoDirtyPaths
  | WorkspaceDelete
  | WorkspaceRefresh
  | WorkspaceStage
  | WorkspaceUpload
  | WorkspaceFiles
  | WorkspaceFilePreview
  | WorkspaceFileRaw
  | WorkspaceDiff
  | WorkspaceDirtyPaths.

#[export] Instance NodeRequestKind_eq_dec : EqDecision NodeRequestKind.
Proof. solve_decision. Defined.

(** In seconds. *)
Definition request_timeout (k : NodeRequestKind) : Z :=
  if bool_decide (k = UploadImport) then 240 else 60.

Definition request_kind_str (k : NodeRequestKind) : string :=
  match k with
  | UploadImport => "upload_import"
  | ProbeEcho => "probe_echo"
  | SessionCreate => "session_create"
  | SessionDelete => "session_delete"
  | SessionUpgrade => "session_upgrade"
  | SessionAgentStart => "session_agent_start"
  | SessionAgentInterrupt => "session_agent_interrupt"
  | SessionInput => "session_input"
  | SessionResize => "session_resize"
  | RepoCreate => "repo_create"
  | RepoRename => "repo_rename"
  | RepoDelete => "repo_delete"
  | RepoRefresh => "repo_refresh"
  | RepoStage => "repo_stage"
  | RepoUpload => "repo_upload"
  | RepoFiles => "repo_files"
  | RepoFilePreview => "repo_file_preview"
  | RepoFileRaw => "repo_file_raw"
  | RepoDiff => "repo_diff"
  | RepoDirtyPaths => "repo_dirty_paths"
  | WorkspaceDelete => "workspace_delete"
  | WorkspaceRefresh => "workspace_refresh"
  | WorkspaceStage => "workspace_stage"
  | WorkspaceUpload => "workspace_upload"
  | WorkspaceFiles => "workspace_files"
  | WorkspaceFilePreview => "workspace_file_preview"
  | WorkspaceFileRaw => "workspace_file_raw"
  | WorkspaceDiff => "workspace_diff"
  | WorkspaceDirtyPaths => "workspace_dirty_paths"
  end.

Definition request_kind_parse (value : string) : option NodeRequestKind :=
  if bool_decide (value = "upload_import") then Some UploadImport
  else if bool_decide (value = "probe_echo") then Some ProbeEcho
  else if bool_decide (value = "session_create") then Some SessionCreate
  else if bool_decide (value = "session_delete") then Some SessionDelete
  else if bool_decide (value = "session_upgrade") then Some SessionUpgrade
  else if bool_decide (value = "session_agent_start") then Some SessionAgentStart
  else if bool_decide (value = "session_agent_interrupt") then Some SessionAgentInterrupt
  else if bool_decide (value = "session_input") then Some SessionInput
  else if bool_decide (value = "session_resize") then Some SessionResize
  else if bool_decide (value = "repo_create") then Some RepoCreate
  else if bool_decide (value = "repo_rename") then Some RepoRename
  else if bool_decide (value = "repo_delete") then Some RepoDelete
  else if bool_decide (value = "repo_refresh") then Some RepoRefresh
  else if bool_decide (value = "repo_stage") then Some RepoStage
  else if bool_decide (value = "repo_upload") then Some RepoUpload
  else if bool_decide (value = "repo_files") then Some RepoFiles
  else if bool_decide (value = "repo_file_preview") then Some RepoFilePreview
  else if bool_decide (value = "repo_file_raw") then Some RepoFileRaw
  else if bool_decide (value = "repo_diff") then Some RepoDiff
  else if bool_decide (value = "repo_dirty_paths") then Some RepoDirtyPaths
  else if bool_decide (value = "workspace_delete") then Some WorkspaceDelete
  else if bool_decide (value = "workspace_refresh") then Some WorkspaceRefresh
  else if bool_decide (value = "workspace_stage") then Some WorkspaceStage
  else if bool_decide (value = "workspace_upload") then Some WorkspaceUpload
  else if bool_decide (value = "workspace_files") then Some WorkspaceFiles
  else if bool_decide (value = "workspace_file_preview") then Some WorkspaceFilePreview
  else if bool_decide (value = "workspace_file_raw") then Some WorkspaceFileRaw
  else if bool_decide (value = "workspace_diff") then Some WorkspaceDiff
  else if bool_decide (value = "workspace_dirty_paths") then Some WorkspaceDirtyPaths
  else None.

Lemma request_kind_parse_str k : request_kind_parse (request_kind_str k) = Some k.
Proof. by destruct k. Qed.

(** ** Envelopes and fragments *)

Record WireEnvelope : Type := mkEnvelope {
  protocol_version : Z;
  node_id : Uuid;
  boot_id : Uuid;
  message_id : Uuid;
  message_kind : string;
  request_id : option Uuid;
  session_id : option Uuid;
  stream_id : option Uuid;
  sequence : option Z;
  payload : Value;
}.

Record FragmentPayload : Type := mkFragment {
  fr_index : Z;
  fr_total : Z;
  fr_data : string;
}.

Record FragmentGroup : Type := mkGroup {
  g_node_id : Uuid;
  g_boot_id : Uuid;
  g_total : Z;
  g_parts : list (option string);
  g_bytes : Z;
}.

(** The incomplete messages by identifier, and the bytes they hold. *)
Record FragmentAssembler : Type := mkAssembler {
  groups : gmap Uuid FragmentGroup;
  held_bytes : Z;
}.

Definition empty_assembler : FragmentAssembler := mkAssembler ∅ 0.

(** The payload as serde writes it. *)
Definition fragment_value (f : FragmentPayload) : Value :=
  json_object [("index", Number (PosInt (fr_index f))); ("total", Number (PosInt (fr_total f)));
               ("data", Str (fr_data f))].

(** A [usize] field. *)
Definition as_usize (v : Value) : option Z :=
  match v with Number (PosInt n) => if 0 <=? n then Some n else None | _ => None end.

(** Deriving reads a struct from an object, or from a sequence of its fields. *)
Definition fragment_of_value (v : Value) : res FragmentPayload :=
  let read index total data :=
    index ← ok_or (index ≫= as_usize) "invalid fragment";
    total ← ok_or (total ≫= as_usize) "invalid fragment";
    data ← ok_or (data ≫= as_str) "invalid fragment";
    Ok (mkFragment index total data) in
  match v with
  | Object m => read (obj_get "index" m) (obj_get "total" m) (obj_get "data" m)
  | Array [index; total; data] => read (Some index) (Some total) (Some data)
  | _ => bail "invalid fragment"
  end.

(** base64 and the JSON text of an envelope. *)
Class Wire : Type := {
  encode : string → string;
  decode : string → option string;
  to_vec : WireEnvelope → string;
  from_slice : string → option WireEnvelope;
}.

Class WireLaws (W : Wire) : Prop := {
  decode_encode bytes : decode (encode bytes) = Some bytes;
}.

Section wire.
Context `{W : Wire}.

Definition new_group (e : WireEnvelope) (total : Z) : FragmentGroup :=
  mkGroup (node_id e) (boot_id e) total (replicate (Z.to_nat total) None) 0.

Definition same_identity (g : FragmentGroup) (e : WireEnvelope) (total : Z) : bool :=
  bool_decide (g_node_id g = node_id e) && bool_decide (g_boot_id g = boot_id e)
  && (g_total g =? total).

(** The part at an index; indexing a [Vec] out of bounds panics. *)
Definition part_at (g : FragmentGroup) (index : Z) : res (option string) :=
  match g_parts g !! Z.to_nat index with
  | Some part => Ok part
  | None => panic "index out of bounds"
  end.

Definition with_part (index : Z) (data : string) (g : FragmentGroup) : FragmentGroup :=
  mkGroup (g_node_id g) (g_boot_id g) (g_total g) (<[Z.to_nat index := Some data]> (g_parts g))
    (g_bytes g + byte_len data).

Definition saturating_sub_usize (a b : Z) : Z := Z.max 0 (a - b).

Definition drop_group (id : Uuid) (g : FragmentGroup) (a : FragmentAssembler) : FragmentAssembler :=
  mkAssembler (delete id (groups a)) (saturating_sub_usize (held_bytes a) (g_bytes g)).

(** The message of a group whose parts are all there. *)
Definition reassemble (g : FragmentGroup) : res WireEnvelope :=
  parts ← try_map (λ p, match p with
                         | Some p => Ok p
                         | None => panic "complete fragment group has every part"
                         end) (g_parts g);
  ok_or (from_slice (concat_text parts)) "invalid envelope".

(** What follows once the group of the fragment is found: the part is kept
    unless it is there already, and the message is taken out when complete. *)
Definition accept (e : WireEnvelope) (f : FragmentPayload) (data : string) (g : FragmentGroup)
    (a : FragmentAssembler) : res (option WireEnvelope) * FragmentAssembler :=
  let id := message_id e in
  match part_at g (fr_index f) with
  | Err err => (Err err, a)
  | Ok part =>
      if is_none part && (MAX_REASSEMBLED_MESSAGE_BYTES <? held_bytes a + byte_len data)
      then (bail "incomplete node protocol messages exceed aggregate limit", drop_group id g a)
      else
        let '(g, a) :=
          if is_none part
          then let g := with_part (fr_index f) data g in
               (g, mkAssembler (<[id := g]> (groups a)) (held_bytes a + byte_len data))
          else (g, a) in
        if existsb is_none (g_parts g) then (Ok None, a)
        else
          let a := drop_group id g a in
          match reassemble g with
          | Ok message => (Ok (Some message), a)
          | Err err => (Err err, a)
          end
  end.

Definition push (a : FragmentAssembler) (e : WireEnvelope)
    : res (option WireEnvelope) * FragmentAssembler :=
  if negb (bool_decide (message_kind e = "protocol.fragment")) then (Ok (Some e), a)
  else
    match fragment_of_value (payload e) with
    | Err err => (Err err, a)
    | Ok f =>
        if (fr_total f =? 0) || (MAX_FRAGMENTS_PER_MESSAGE <? fr_total f) || (fr_total f <=? fr_index f)
        then (bail "invalid node protocol fragment index", a)
        else
          match decode (fr_data f) with
          | None => (bail "invalid node protocol fragment", a)
          | Some data =>
              if FRAGMENT_DATA_BYTES <? byte_len data
              then (bail "node protocol fragment exceeds chunk limit", a)
              else if is_none (groups a !! message_id e)
                      && (MAX_FRAGMENT_GROUPS <=? Z.of_nat (size (groups a)))
              then (bail "too many incomplete node protocol messages", a)
              else
                let g := default (new_group e (fr_total f)) (groups a !! message_id e) in
                let a := mkAssembler (<[message_id e := g]> (groups a)) (held_bytes a) in
                if negb (same_identity g e (fr_total f))
                then (bail "node protocol fragment group changed identity", a)
                else accept e f data g a
          end
    end.

(** A connection pushes what it receives, and ends with the first error. *)
Fixpoint push_all (a : FragmentAssembler) (es : list WireEnvelope)
    : list (res (option WireEnvelope)) * FragmentAssembler :=
  match es with
  | [] => ([], a)
  | e :: es =>
      let '(r, a) := push a e in
      if is_ok r then let '(rs, a) := push_all a es in (r :: rs, a) else ([r], a)
  end.

(** ** Cutting an envelope *)

(** [slice::chunks]; a round takes at least a byte, so as many rounds as
    bytes are enough. *)
Fixpoint chunks_fuel (fuel n : nat) (s : string) : list string :=
  match fuel with
  | O => []
  | S fuel => if is_empty s then [] else take_bytes n s :: chunks_fuel fuel n (drop_bytes n s)
  end.

Definition chunks (n : nat) (s : string) : list string := chunks_fuel (String.length s) n s.

Definition div_ceil (a b : Z) : Z := (a + b - 1) / b.

Definition fragment (e : WireEnvelope) (total : Z) (index : nat) (bytes : string) : WireEnvelope :=
  mkEnvelope NODE_PROTOCOL_VERSION (node_id e) (boot_id e) (message_id e) "protocol.fragment"
    None None None (Some (Z.of_nat index))
    (fragment_value (mkFragment (Z.of_nat index) total (encode bytes))).

Definition fragment_envelope (e : WireEnvelope) : res (list WireEnvelope) :=
  let serialized := to_vec e in
  if byte_len serialized <=? FRAGMENT_DATA_BYTES then Ok [e]
  else if MAX_REASSEMBLED_MESSAGE_BYTES <? byte_len serialized
  then bail "node protocol message exceeds reassembly limit"
  else
    let total := div_ceil (byte_len serialized) FRAGMENT_DATA_BYTES in
    if MAX_FRAGMENTS_PER_MESSAGE <? total
    then bail "node protocol message requires too many fragments"
    else Ok (imap (fragment e total) (chunks (Z.to_nat FRAGMENT_DATA_BYTES) serialized)).
End wire.

(** ** The assembler *)

(** ** Sums *)

Fixpoint total {A} (f : A → Z) (l : list A) : Z :=
  match l with [] => 0 | a :: l => f a + total f l end.

Lemma total_app {A} (f : A → Z) l1 l2 : total f (l1 ++ l2) = total f l1 + total f l2.
Proof. induction l1 as [|a l1 IH]; cbn; [done|]. rewrite IH. lia. Qed.

Lemma total_ext {A} (f g : A → Z) l : (∀ a, a ∈ l → f a = g a) → total f l = total g l.
Proof.
  induction l as [|a l IH]; intros H; [done|]. cbn. rewrite H, IH; [done| |by left].
  intros b Hb. apply H. by right.
Qed.

Lemma total_zero {A} (l : list A) : total (λ _, 0) l = 0.
Proof. by induction l. Qed.

Lemma total_le {A} (f g : A → Z) l : (∀ a, a ∈ l → f a ≤ g a) → total f l ≤ total g l.
Proof.
  induction l as [|a l IH]; intros H; [done|]. cbn.
  pose proof (H a (list_elem_of_here _ _)). pose proof (IH (λ b Hb, H b (list_elem_of_further _ _ _ Hb))). lia.
Qed.

Lemma total_nonneg {A} (f : A → Z) l : (∀ a, 0 ≤ f a) → 0 ≤ total f l.
Proof. intros H. induction l as [|a l IH]; cbn; [done|]. specialize (H a). lia. Qed.

Lemma total_perm {A} (f : A → Z) l1 l2 : l1 ≡ₚ l2 → total f l1 = total f l2.
Proof. induction 1; cbn; lia. Qed.

(** Changing one summand. *)
Lemma total_change {A} (f g : A → Z) l1 a l2 : (∀ b, b ∈ l1 ++ l2 → f b = g b) →
  total f (l1 ++ a :: l2) = total g (l1 ++ a :: l2) - g a + f a.
Proof.
  intros H. rewrite !total_app. cbn.
  rewrite (total_ext f g l1), (total_ext f g l2); [lia|..]; intros b Hb; apply H; rewrite elem_of_app; auto.
Qed.

(** ** Bytes *)

Lemma byte_len_nonneg s : 0 ≤ byte_len s.
Proof. unfold byte_len. lia. Qed.

Lemma byte_len_app a b : byte_len (a +:+ b) = byte_len a + byte_len b.
Proof. unfold byte_len. induction a as [|c a IH]; [done|]. rewrite append_cons. cbn [String.length]. lia. Qed.

Lemma take_drop_bytes n s : take_bytes n s +:+ drop_bytes n s = s.
Proof. revert s. induction n as [|n IH]; intros [|c s]; try done. cbn. by rewrite append_cons, IH. Qed.

Lemma byte_len_take n s : byte_len (take_bytes n s) = Z.min (Z.of_nat n) (byte_len s).
Proof.
  unfold byte_len. revert s. induction n as [|n IH]; intros [|c s]; cbn [take_bytes String.length]; try lia.
  rewrite Nat2Z.inj_succ, IH. lia.
Qed.

Lemma byte_len_drop n s : byte_len (drop_bytes n s) = Z.max 0 (byte_len s - Z.of_nat n).
Proof.
  pose proof (take_drop_bytes n s) as H. apply (f_equal byte_len) in H.
  rewrite byte_len_app, byte_len_take in H. pose proof (byte_len_nonneg s). lia.
Qed.

Lemma empty_byte_len s : is_empty s = true ↔ byte_len s = 0.
Proof.
  unfold is_empty, byte_len. rewrite bool_decide_eq_true. destruct s; cbn [String.length]; [done|].
  split; [done|lia].
Qed.

(** ** Chunks *)

Lemma chunks_spec fuel n s : (0 < n)%nat → (String.length s ≤ fuel)%nat →
  concat_text (chunks_fuel fuel n s) = s ∧
  Forall (λ c, byte_len c ≤ Z.of_nat n) (chunks_fuel fuel n s) ∧
  Z.of_nat (length (chunks_fuel fuel n s)) = div_ceil (byte_len s) (Z.of_nat n).
Proof.
  intros Hn. revert s. induction fuel as [|fuel IH]; intros s Hs.
  - destruct s; [|cbn in Hs; lia]. unfold div_ceil, byte_len. cbn.
    split_and!; [done|done|]. symmetry. apply Z.div_small. lia.
  - cbn [chunks_fuel]. destruct (is_empty s) eqn:E.
    + apply empty_byte_len in E. unfold div_ceil. rewrite E. split_and!; [|done|symmetry; apply Z.div_small; lia].
      destruct s; [done|unfold byte_len in E; cbn in E; lia].
    + assert (Hpos : 0 < byte_len s).
      { pose proof (byte_len_nonneg s). destruct (decide (byte_len s = 0)) as [H0|]; [|lia].
        apply empty_byte_len in H0. congruence. }
      destruct (IH (drop_bytes n s)) as (H1 & H2 & H3).
      { pose proof (byte_len_drop n s) as Hd. unfold byte_len in Hd, Hpos. lia. }
      split_and!.
      * cbn [concat_text foldr]. unfold concat_text in H1. rewrite H1. apply take_drop_bytes.
      * constructor; [|done]. rewrite byte_len_take. lia.
      * cbn [length]. rewrite Nat2Z.inj_succ, H3, byte_len_drop. unfold div_ceil.
        destruct (Z.le_gt_cases (byte_len s) (Z.of_nat n)) as [Hle|Hgt].
        -- rewrite Z.max_l by lia. rewrite (Z.div_small (0 + _ - 1)) by lia.
           apply Z.div_unique with (byte_len s - 1); lia.
        -- rewrite Z.max_r by lia.
           replace (byte_len s + Z.of_nat n - 1) with (byte_len s - Z.of_nat n + Z.of_nat n - 1 + 1 * Z.of_nat n) by lia.
           rewrite Z.div_add by lia. lia.
Qed.

Lemma total_chunks l : total byte_len l = byte_len (concat_text l).
Proof. induction l as [|c l IH]; [done|]. cbn. rewrite IH. change (foldr String.append "" l) with (concat_text l). by rewrite byte_len_app. Qed.

(** ** What an assembler holds *)

Definition part_bytes (p : option string) : Z := match p with Some s => byte_len s | None => 0 end.

Lemma part_bytes_nonneg p : 0 ≤ part_bytes p.
Proof. destruct p; [apply byte_len_nonneg|done]. Qed.

(** The bytes of all groups. *)
Definition held (m : gmap Uuid FragmentGroup) : Z := total g_bytes (map_to_list m).*2.

(** A group has a place for every part of its message, and a part missing. *)
Record group_ok (g : FragmentGroup) : Prop := {
  gr_total : 1 ≤ g_total g ≤ MAX_FRAGMENTS_PER_MESSAGE;
  gr_parts : length (g_parts g) = Z.to_nat (g_total g);
  gr_bytes : g_bytes g = total part_bytes (g_parts g);
  gr_incomplete : existsb is_none (g_parts g) = true;
}.

Record assembler_ok (a : FragmentAssembler) : Prop := {
  as_groups : map_Forall (λ _, group_ok) (groups a);
  as_size : Z.of_nat (size (groups a)) ≤ MAX_FRAGMENT_GROUPS;
  as_held : held_bytes a = held (groups a);
  as_bytes : held_bytes a ≤ MAX_REASSEMBLED_MESSAGE_BYTES;
}.

Lemma group_bytes_nonneg g : group_ok g → 0 ≤ g_bytes g.
Proof. intros [_ _ -> _]. apply total_nonneg, part_bytes_nonneg. Qed.

Lemma held_insert id g m : m !! id = None → held (<[id := g]> m) = held m + g_bytes g.
Proof.
  intros H. unfold held.
  assert (E : (map_to_list (<[id := g]> m)).*2 ≡ₚ g :: (map_to_list m).*2)
    by (by rewrite map_to_list_insert).
  rewrite (total_perm _ _ _ E). cbn. lia.
Qed.

Lemma held_delete id g m : m !! id = Some g → held (delete id m) = held m - g_bytes g.
Proof.
  intros H. pose proof (held_insert id g (delete id m) (lookup_delete_eq m id)) as E.
  rewrite insert_delete_id in E by done. lia.
Qed.

Lemma held_update id g g' m : m !! id = Some g → held (<[id := g']> m) = held m - g_bytes g + g_bytes g'.
Proof.
  intros H. rewrite <-insert_delete_eq, held_insert by apply lookup_delete_eq. by rewrite (held_delete id g).
Qed.

Lemma held_nonneg m : map_Forall (λ _, group_ok) m → 0 ≤ held m.
Proof.
  intros H. unfold held. assert (Hl : Forall (λ kv, group_ok kv.2) (map_to_list m)).
  { apply Forall_forall. intros [k g] Hk%elem_of_map_to_list. by eapply H. }
  induction (map_to_list m) as [|[k g] l IH]; [done|]. apply Forall_cons in Hl as [Hg Hl].
  cbn in *. apply group_bytes_nonneg in Hg. specialize (IH Hl). lia.
Qed.

Lemma held_bytes_of id g m : map_Forall (λ _, group_ok) m → m !! id = Some g → g_bytes g ≤ held m.
Proof.
  intros H Hg. pose proof (held_delete id g m Hg). pose proof (held_nonneg (delete id m)) as Hn.
  enough (0 ≤ held (delete id m)) by lia. apply Hn. by apply map_Forall_delete.
Qed.

(** Filling a free place. *)
Lemma total_insert_part i s (parts : list (option string)) : parts !! i = Some None →
  total part_bytes (<[i := Some s]> parts) = total part_bytes parts + byte_len s.
Proof.
  revert i. induction parts as [|p parts IH]; intros [|i] H; [done..| |].
  - cbn in H. injection H as ->. cbn. lia.
  - change (<[S i := Some s]> (p :: parts)) with (p :: <[i := Some s]> parts). cbn [total].
    rewrite (IH i H). lia.
Qed.

Lemma with_part_ok index data g : group_ok g → g_parts g !! Z.to_nat index = Some None →
  existsb is_none (g_parts (with_part index data g)) = true → group_ok (with_part index data g).
Proof.
  intros [Ht Hp Hb Hi] Hn He. split; cbn; try done.
  - by rewrite length_insert.
  - by rewrite Hb, (total_insert_part _ data).
Qed.

Lemma complete_parts (parts : list (option string)) : existsb is_none parts = false → ∃ ps, parts = Some <$> ps.
Proof.
  induction parts as [|[p|] parts IH]; cbn; intros H; [by exists []| |done].
  destruct (IH H) as (ps & ->). by exists (p :: ps).
Qed.

Section wire.
Context `{W : Wire}.

Lemma new_group_ok e total : 1 ≤ total ≤ MAX_FRAGMENTS_PER_MESSAGE → group_ok (new_group e total).
Proof.
  intros H. split; cbn; [done|by rewrite length_replicate| |].
  - induction (Z.to_nat total) as [|n IH]; [done|]. cbn. by rewrite <-IH.
  - destruct (Z.to_nat total) eqn:E; [lia|done].
Qed.

Lemma drop_group_ok id g a : assembler_ok a → groups a !! id = Some g → assembler_ok (drop_group id g a).
Proof.
  intros [Hg Hs Hh Hb] Hid. pose proof (held_delete id g _ Hid) as Hd.
  pose proof (held_nonneg (delete id (groups a)) (map_Forall_delete _ _ _ Hg)) as Hn.
  pose proof (group_bytes_nonneg g (Hg _ _ Hid)).
  unfold drop_group, saturating_sub_usize. split; cbn.
  - by apply map_Forall_delete.
  - rewrite map_size_delete, Hid. cbn. lia.
  - lia.
  - lia.
Qed.

(** Taking a message out of a group it completes, which is in the way the
    code updates the group first: the group replaced is dropped. *)
Lemma drop_updated_ok id g g' a b : assembler_ok a → groups a !! id = Some g → g_bytes g' = g_bytes g + b → 0 ≤ b →
  assembler_ok (drop_group id g' (mkAssembler (<[id := g']> (groups a)) (held_bytes a + b))).
Proof.
  intros Ha Hid Hb Hb0. pose proof (drop_group_ok id g a Ha Hid) as Hok.
  replace (drop_group id g' _) with (drop_group id g a); [done|].
  unfold drop_group, saturating_sub_usize. cbn. rewrite delete_insert_eq. f_equal. lia.
Qed.

Lemma reassemble_complete g ps : g_parts g = Some <$> ps →
  reassemble g = ok_or (from_slice (concat_text ps)) "invalid envelope".
Proof.
  unfold reassemble. intros ->. enough (E : try_map (λ p, match p with Some p => Ok p
    | None => panic "complete fragment group has every part" end) (Some <$> ps) = Ok ps) by by rewrite E.
  induction ps as [|p ps IH]; [done|]. cbn in *. by rewrite IH.
Qed.

Lemma reassemble_no_panic g : existsb is_none (g_parts g) = false → ¬ panics (reassemble g).
Proof.
  intros (ps & Hps)%complete_parts. rewrite (reassemble_complete g ps Hps).
  intros [msg H]. by destruct (from_slice _).
Qed.

Lemma accept_ok e f data g a : assembler_ok a → groups a !! message_id e = Some g →
  0 ≤ fr_index f < g_total g →
  assembler_ok (accept e f data g a).2 ∧ ¬ panics (accept e f data g a).1.
Proof.
  intros Ha Hid Hi. destruct (as_groups a Ha _ _ Hid) as [Ht Hp Hb Hn]. unfold accept, part_at.
  destruct (lookup_lt_is_Some_2 (g_parts g) (Z.to_nat (fr_index f))) as [part Hpart]; [lia|].
  rewrite Hpart. destruct part as [part|]; cbn [is_none andb].
  - rewrite Hn. split; [done|]. by intros [].
  - destruct (MAX_REASSEMBLED_MESSAGE_BYTES <? held_bytes a + byte_len data) eqn:E; cbn [fst snd].
    + split; [by apply drop_group_ok|]. by intros [].
    + apply Z.ltb_ge in E. destruct (existsb is_none (g_parts (with_part (fr_index f) data g))) eqn:Hc.
      * split; [|by intros []]. cbn. destruct Ha as [Hg Hs Hh Hbb]. split; cbn; [|..|done].
        -- apply map_Forall_insert_2; [|done]. apply with_part_ok; [by split|done|done].
        -- rewrite map_size_insert_Some by done. done.
        -- rewrite (held_update _ g) by done. cbn. lia.
      * pose proof (reassemble_no_panic _ Hc) as Hr.
        assert (Hok : assembler_ok (drop_group (message_id e) (with_part (fr_index f) data g)
          (mkAssembler (<[message_id e := with_part (fr_index f) data g]> (groups a)) (held_bytes a + byte_len data)))).
        { eapply drop_updated_ok; [done|done|done|apply byte_len_nonneg]. }
        revert Hr. destruct (reassemble _) as [m|err]; cbn; intros Hr; (split; [done|]); [by intros []|].
        intros [m Hm]. apply Hr. exists m. by injection Hm as ->.
Qed.

Lemma fragment_of_value_nonneg v f : fragment_of_value v = Ok f → 0 ≤ fr_index f ∧ 0 ≤ fr_total f.
Proof.
  assert (Hu : ∀ o msg z, ok_or (o ≫= as_usize) msg = Ok z → 0 ≤ z).
  { intros o msg z H. apply ok_or_Ok in H. apply bind_Some in H as (w & _ & H).
    destruct w as [| |[n| |]| | |]; try done. cbn in H. destruct (0 <=? n) eqn:E; [|done].
    injection H as <-. by apply Z.leb_le. }
  unfold fragment_of_value. intros H. destruct v as [| | | |l|m]; try done.
  - destruct l as [|i [|t [|d [|]]]]; try done. res_inv H. intros <-. split; by eapply Hu.
  - res_inv H. intros <-. split; by eapply Hu.
Qed.

(** The state stays and the answer is no panic. *)
Ltac harmless := cbn [fst snd]; split; [assumption|intros [? ?]; discriminate].

(** Whatever it is sent, an assembler stays within its bounds and does not panic. *)
Lemma push_ok a e : assembler_ok a → assembler_ok (push a e).2 ∧ ¬ panics (push a e).1.
Proof.
  intros Ha. unfold push. case_bool_decide; cbn [negb]; [|harmless].
  destruct (fragment_of_value (payload e)) as [f|err] eqn:Ef.
  2: { split; [done|]. intros [msg E]. cbn in E. injection E as ->. revert Ef. unfold fragment_of_value.
    assert (Hok : ∀ {A} (o : option A), ¬ panics (ok_or o "invalid fragment")).
    { intros A [x|] [m Hm]; discriminate. }
    assert (Hread : ∀ i t d, ¬ panics (
      index ← ok_or (i ≫= as_usize) "invalid fragment";
      total ← ok_or (t ≫= as_usize) "invalid fragment";
      data ← ok_or (d ≫= as_str) "invalid fragment";
      Ok (mkFragment index total data))).
    { intros i t d [m Hm]. destruct (i ≫= as_usize), (t ≫= as_usize), (d ≫= as_str); discriminate. }
    intros Hf. destruct (payload e) as [| | | |l|m]; try discriminate.
    - destruct l as [|i [|t [|d [|]]]]; try discriminate. eapply Hread. by exists msg.
    - eapply Hread. by exists msg. }
  apply fragment_of_value_nonneg in Ef as [Hi0 Ht0].
  destruct (_ || _ || _) eqn:Ec; [harmless|].
  apply orb_false_iff in Ec as [[Ht1%Z.eqb_neq Ht2%Z.ltb_ge]%orb_false_iff Hi1%Z.leb_gt].
  destruct (decode (fr_data f)) as [data|]; [|harmless].
  destruct (FRAGMENT_DATA_BYTES <? byte_len data); [harmless|].
  destruct (is_none (groups a !! message_id e) && _) eqn:Es; [harmless|].
  destruct (groups a !! message_id e) as [g|] eqn:Eg; cbn [default].
  - rewrite insert_id by done. destruct a as [ga ha]. cbn in *.
    destruct (negb (same_identity g e (fr_total f))) eqn:Eid; [harmless|].
    apply accept_ok; [done|done|]. apply negb_false_iff in Eid. unfold same_identity in Eid.
    apply andb_true_iff in Eid as [_ Eid%Z.eqb_eq]. lia.
  - unfold same_identity. cbn [g_node_id g_boot_id g_total new_group].
    rewrite !bool_decide_true, Z.eqb_refl by done. cbn [andb negb].
    cbn [is_none andb] in Es. apply Z.leb_gt in Es.
    apply accept_ok; [|cbn; by rewrite lookup_insert_eq|done].
    destruct Ha as [Hg Hs Hh Hb]. split; cbn; [| | |done].
    + apply map_Forall_insert_2; [apply new_group_ok; lia|done].
    + rewrite map_size_insert_None by done. lia.
    + rewrite held_insert by done. cbn. lia.
Qed.
End wire.
