(* ===== verification/Reassembly.v ===== *)
(** * Reassembling interleaved messages

    The fragments of several messages, in any order, give back the messages:
    what an assembler holds is a function of the fragments still to come. *)

From S2P Require Import Prelude Text Json NodeWire.

(** [a ∈ l] for the first of the pieces of [l]. *)
Lemma omap_id_cons {A} (o : option A) l : omap id (o :: l) = option_list o ++ omap id l.
Proof. by destruct o. Qed.

(** A filter that lets one more element through. *)
Lemma filter_one_more {A} (P Q : A → Prop) `{∀ a, Decision (P a)} `{∀ a, Decision (Q a)} l1 a l2 :
  P a → ¬ Q a → (∀ b, b ∈ l1 ++ l2 → P b ↔ Q b) →
  filter P (l1 ++ a :: l2) ≡ₚ a :: filter Q (l1 ++ a :: l2).
Proof.
  intros Ha Hq Hb. rewrite !filter_app, !filter_cons, decide_True, decide_False by done.
  assert (E : ∀ l : list A, (∀ b, b ∈ l → P b ↔ Q b) → filter P l = filter Q l).
  { intros l Hl. by apply filter_ext_in. }
  rewrite (E l1), (E l2); [|intros b Hin; apply Hb; rewrite elem_of_app; auto..].
  by rewrite Permutation_middle.
Qed.

Section wire.
Context `{W : Wire}.

Definition chunk_bytes : nat := Z.to_nat FRAGMENT_DATA_BYTES.

(** The bytes of a message in pieces, and the envelopes that carry them. *)
Definition cuts (m : WireEnvelope) : list string := chunks chunk_bytes (to_vec m).
Definition cut (m : WireEnvelope) : bool := FRAGMENT_DATA_BYTES <? byte_len (to_vec m).

Definition pieces (m : WireEnvelope) : list WireEnvelope :=
  if cut m then imap (fragment m (Z.of_nat (length (cuts m)))) (cuts m) else [m].

Definition piece_at (p : WireEnvelope * nat) : WireEnvelope := default p.1 (pieces p.1 !! p.2).

Lemma chunk_bytes_pos : (0 < chunk_bytes)%nat.
Proof. unfold chunk_bytes, FRAGMENT_DATA_BYTES. lia. Qed.

Lemma cuts_spec m : concat_text (cuts m) = to_vec m ∧
  Forall (λ c, byte_len c ≤ FRAGMENT_DATA_BYTES) (cuts m) ∧
  Z.of_nat (length (cuts m)) = div_ceil (byte_len (to_vec m)) FRAGMENT_DATA_BYTES.
Proof.
  destruct (chunks_spec (String.length (to_vec m)) chunk_bytes (to_vec m) chunk_bytes_pos (le_n _))
    as (H1 & H2 & H3).
  replace (Z.of_nat chunk_bytes) with FRAGMENT_DATA_BYTES in * by (unfold chunk_bytes; rewrite Z2Nat.id; done).
  done.
Qed.

Lemma cuts_bounds m : cut m = true → byte_len (to_vec m) ≤ MAX_REASSEMBLED_MESSAGE_BYTES →
  2 ≤ Z.of_nat (length (cuts m)) ≤ MAX_FRAGMENTS_PER_MESSAGE.
Proof.
  unfold cut. intros Hc%Z.ltb_lt Hm. destruct (cuts_spec m) as (_ & _ & ->).
  unfold div_ceil, MAX_FRAGMENTS_PER_MESSAGE, MAX_REASSEMBLED_MESSAGE_BYTES, FRAGMENT_DATA_BYTES in *. split.
  - apply Z.div_le_lower_bound; lia.
  - apply Z.div_le_upper_bound; lia.
Qed.

(** A message within the limit of reassembly is never refused. *)
Lemma fragment_pieces m : byte_len (to_vec m) ≤ MAX_REASSEMBLED_MESSAGE_BYTES →
  fragment_envelope m = Ok (pieces m).
Proof.
  intros Hm. unfold fragment_envelope, pieces. pose proof (cuts_bounds m) as Hb. unfold cut in *.
  destruct (byte_len (to_vec m) <=? FRAGMENT_DATA_BYTES) eqn:E.
  - apply Z.leb_le in E. destruct (FRAGMENT_DATA_BYTES <? _) eqn:E2; [apply Z.ltb_lt in E2; lia|done].
  - apply Z.leb_gt in E. destruct (FRAGMENT_DATA_BYTES <? _) eqn:E2; [|apply Z.ltb_ge in E2; lia].
    destruct (MAX_REASSEMBLED_MESSAGE_BYTES <? _) eqn:E3; [apply Z.ltb_lt in E3; lia|].
    destruct (cuts_spec m) as (_ & _ & Hl). specialize (Hb eq_refl Hm).
    destruct (MAX_FRAGMENTS_PER_MESSAGE <? _) eqn:E4; [apply Z.ltb_lt in E4; lia|].
    by rewrite <-Hl.
Qed.

(** ** The state as a function of what is to come *)

(** The key of a piece. *)
Definition key (p : WireEnvelope * nat) : Uuid * nat := (message_id p.1, p.2).

Definition parts_of (m : WireEnvelope) (todo : list (Uuid * nat)) : list (option string) :=
  imap (λ i c, if decide ((message_id m, i) ∈ todo) then None else Some c) (cuts m).

Definition group_of (m : WireEnvelope) (todo : list (Uuid * nat)) : FragmentGroup :=
  mkGroup (node_id m) (boot_id m) (Z.of_nat (length (cuts m))) (parts_of m todo)
    (total part_bytes (parts_of m todo)).

(** A message begun and not complete has a group. *)
Definition view (todo : list (Uuid * nat)) (m : WireEnvelope) : option FragmentGroup :=
  if cut m && existsb is_none (parts_of m todo) && existsb is_some (parts_of m todo)
  then Some (group_of m todo) else None.

Definition view_bytes (todo : list (Uuid * nat)) (m : WireEnvelope) : Z :=
  match view todo m with Some g => g_bytes g | None => 0 end.

Lemma length_parts_of m todo : length (parts_of m todo) = length (cuts m).
Proof. apply length_imap. Qed.

Lemma lookup_parts_of m todo i : parts_of m todo !! i =
  (λ c, if decide ((message_id m, i) ∈ todo) then None else Some c) <$> (cuts m !! i).
Proof. apply list_lookup_imap. Qed.

Lemma parts_other m p todo : message_id m ≠ p.1 → parts_of m (p :: todo) = parts_of m todo.
Proof.
  intros Hm. unfold parts_of. apply imap_ext. intros i c _.
  destruct (decide ((message_id m, i) ∈ p :: todo)) as [[E|H]%elem_of_cons|H]; [|by rewrite decide_True|].
  - subst p. done.
  - rewrite decide_False; [done|]. intros H2. apply H. by right.
Qed.

Lemma view_other m p todo : message_id m ≠ p.1 → view (p :: todo) m = view todo m.
Proof. intros Hm. unfold view, group_of. by rewrite !parts_other. Qed.

Lemma parts_next m i c todo : cuts m !! i = Some c → (message_id m, i) ∉ todo →
  parts_of m ((message_id m, i) :: todo) !! i = Some None ∧
  parts_of m todo = <[i := Some c]> (parts_of m ((message_id m, i) :: todo)).
Proof.
  intros Hc Hn. split.
  - rewrite lookup_parts_of, Hc. cbn. by rewrite decide_True by left.
  - apply list_eq. intros j. destruct (decide (j = i)) as [->|Hj].
    + rewrite list_lookup_insert_eq by (rewrite length_parts_of; by eapply lookup_lt_Some).
      rewrite lookup_parts_of, Hc. cbn. by rewrite decide_False.
    + rewrite list_lookup_insert_ne by done. rewrite !lookup_parts_of.
      destruct (cuts m !! j); cbn; [|done]. do 2 f_equal. apply decide_ext.
      rewrite elem_of_cons. split; [by right|]. intros [E|E]; [|done]. congruence.
Qed.

Lemma parts_complete m todo : (∀ i, (message_id m, i) ∉ todo) → parts_of m todo = Some <$> cuts m.
Proof.
  intros H. apply list_eq. intros i. rewrite lookup_parts_of, list_lookup_fmap.
  destruct (cuts m !! i); cbn; [|done]. by rewrite decide_False.
Qed.

Lemma existsb_none_parts m todo : existsb is_none (parts_of m todo) = true ↔
  ∃ i, (i < length (cuts m))%nat ∧ (message_id m, i) ∈ todo.
Proof.
  rewrite existsb_exists. split.
  - intros (p & Hp%list_elem_of_In & Hn). apply list_elem_of_lookup in Hp as (i & Hi).
    rewrite lookup_parts_of in Hi. destruct (cuts m !! i) eqn:Hc; [|done]. cbn in Hi. exists i.
    split; [by eapply lookup_lt_Some|]. destruct (decide _); [done|]. injection Hi as <-. done.
  - intros (i & Hi & Hin). exists None. split; [|done]. apply list_elem_of_In, list_elem_of_lookup.
    exists i. rewrite lookup_parts_of. destruct (lookup_lt_is_Some_2 _ _ Hi) as [c ->]. cbn. by rewrite decide_True.
Qed.

Lemma parts_done m todo : existsb is_none (parts_of m todo) = false → parts_of m todo = Some <$> cuts m.
Proof.
  intros H. apply list_eq. intros i. rewrite lookup_parts_of, list_lookup_fmap.
  destruct (cuts m !! i) eqn:Hc; cbn; [|done]. rewrite decide_False; [done|]. intros Hin.
  enough (existsb is_none (parts_of m todo) = true) by congruence.
  apply existsb_none_parts. exists i. split; [by eapply lookup_lt_Some|done].
Qed.

Lemma parts_bytes_le m todo : total part_bytes (parts_of m todo) ≤ byte_len (to_vec m).
Proof.
  destruct (cuts_spec m) as (<- & _ & _). rewrite <-total_chunks. unfold parts_of.
  set (f := λ i : nat, (message_id m, i)).
  change (total part_bytes (imap (λ i c, if decide (f i ∈ todo) then None else Some c) (cuts m))
    ≤ total byte_len (cuts m)).
  clearbody f. revert f. induction (cuts m) as [|c l IH]; intros f; [done|].
  cbn [imap total]. specialize (IH (λ i, f (S i))). pose proof (byte_len_nonneg c).
  change (imap ((λ i c0, if decide (f i ∈ todo) then None else Some c0) ∘ S) l)
    with (imap (λ i c0, if decide (f (S i) ∈ todo) then None else Some c0) l).
  cbv beta in IH. destruct (decide _); cbn [part_bytes]; lia.
Qed.

Lemma view_bytes_le todo m : view_bytes todo m ≤ total part_bytes (parts_of m todo).
Proof.
  unfold view_bytes, view. destruct (_ && _ && _); [done|]. apply total_nonneg, part_bytes_nonneg.
Qed.

Lemma all_none_bytes (parts : list (option string)) : existsb is_some parts = false →
  parts = replicate (length parts) None ∧ total part_bytes parts = 0.
Proof.
  induction parts as [|[p|] parts IH]; cbn; intros H; [done..|]. destruct (IH H) as [E ->].
  split; [by rewrite <-E|done].
Qed.

(** ** One piece after the other *)

Section messages.
Context `{!WireLaws W} (msgs : list WireEnvelope).
Context (Hids : NoDup (message_id <$> msgs)) (Hcount : Z.of_nat (length msgs) ≤ MAX_FRAGMENT_GROUPS)
  (Hbytes : total (λ m, byte_len (to_vec m)) msgs ≤ MAX_REASSEMBLED_MESSAGE_BYTES)
  (Hread : ∀ m, m ∈ msgs → from_slice (to_vec m) = Some m)
  (Hplain : ∀ m, m ∈ msgs → message_kind m ≠ "protocol.fragment").

Record follows (a : FragmentAssembler) (todo : list (Uuid * nat)) : Prop := {
  fo_groups m : m ∈ msgs → groups a !! message_id m = view todo m;
  fo_others id : id ∉ message_id <$> msgs → groups a !! id = None;
  fo_held : held_bytes a = total (view_bytes todo) msgs;
}.

(** Pieces to come are pieces of the messages. *)
Definition valid (todo : list (Uuid * nat)) : Prop :=
  Forall (λ k, ∃ m, m ∈ msgs ∧ k.1 = message_id m ∧ (k.2 < length (pieces m))%nat) todo.

Definition pending (todo : list (Uuid * nat)) (m : WireEnvelope) : Prop :=
  Exists (λ k, k.1 = message_id m) todo.
#[local] Instance pending_dec todo m : Decision (pending todo m) := ltac:(unfold pending; apply _).

Lemma ids_inj m m' : m ∈ msgs → m' ∈ msgs → message_id m = message_id m' → m = m'.
Proof.
  intros [i Hi]%list_elem_of_lookup [j Hj]%list_elem_of_lookup E.
  assert (i = j) as ->.
  { eapply NoDup_lookup; [exact Hids|by rewrite list_lookup_fmap, Hi|by rewrite list_lookup_fmap, Hj, E]. }
  congruence.
Qed.

Lemma pending_piece todo m : valid todo → m ∈ msgs → pending todo m →
  ∃ i, (i < length (pieces m))%nat ∧ (message_id m, i) ∈ todo.
Proof.
  intros Hv Hm ([id i] & Hin & Hk)%Exists_exists. cbn in Hk. subst id.
  unfold valid in Hv. rewrite Forall_forall in Hv. destruct (Hv _ Hin) as (m' & Hm' & Hid & Hi). cbn in Hid, Hi.
  rewrite (ids_inj m m' Hm Hm' Hid) in *. by exists i.
Qed.

Lemma message_bytes m : m ∈ msgs → byte_len (to_vec m) ≤ MAX_REASSEMBLED_MESSAGE_BYTES.
Proof.
  intros (l1 & l2 & E)%list_elem_of_split. revert Hbytes. rewrite E, total_app. cbn [total].
  pose proof (total_nonneg (λ m, byte_len (to_vec m)) l1 (λ m, byte_len_nonneg _)).
  pose proof (total_nonneg (λ m, byte_len (to_vec m)) l2 (λ m, byte_len_nonneg _)). lia.
Qed.

(** The messages around one of them. *)
Lemma split_at m : m ∈ msgs → ∃ l1 l2, msgs = l1 ++ m :: l2 ∧
  (∀ b, b ∈ l1 ++ l2 → b ∈ msgs ∧ message_id b ≠ message_id m).
Proof.
  intros (l1 & l2 & E)%list_elem_of_split. exists l1, l2. split; [done|]. intros b Hb. split.
  - rewrite E, elem_of_app, elem_of_cons. apply elem_of_app in Hb. tauto.
  - intros Heq. pose proof Hids as H. rewrite E, fmap_app, fmap_cons in H.
    rewrite <-Permutation_middle, NoDup_cons, <-fmap_app in H. destruct H as [H _]. apply H.
    rewrite <-Heq. by apply list_elem_of_fmap_2.
Qed.

(** What is held and the next piece stay within the limit. *)
Lemma room m i c a todo : m ∈ msgs → cuts m !! i = Some c → (message_id m, i) ∉ todo →
  follows a ((message_id m, i) :: todo) → held_bytes a + byte_len c ≤ MAX_REASSEMBLED_MESSAGE_BYTES.
Proof.
  intros Hm Hc Hn Hf. rewrite (fo_held _ _ Hf). etrans; [|exact Hbytes].
  destruct (split_at m Hm) as (l1 & l2 & E & Hne). rewrite E, !total_app. cbn [total].
  destruct (parts_next m i c todo Hc Hn) as [Hp1 Hp2].
  pose proof (total_insert_part i c _ Hp1) as Hins. rewrite <-Hp2 in Hins.
  pose proof (view_bytes_le ((message_id m, i) :: todo) m) as Hv.
  pose proof (parts_bytes_le m todo) as Hle.
  assert (Ho : ∀ l, (∀ b, b ∈ l → b ∈ l1 ++ l2) →
    total (view_bytes ((message_id m, i) :: todo)) l ≤ total (λ m, byte_len (to_vec m)) l).
  { intros l Hl. apply total_le. intros b Hb.
    pose proof (view_bytes_le ((message_id m, i) :: todo) b). pose proof (parts_bytes_le b ((message_id m, i) :: todo)). lia. }
  pose proof (Ho l1 (λ b Hb, proj2 (elem_of_app _ _ _) (or_introl Hb))).
  pose proof (Ho l2 (λ b Hb, proj2 (elem_of_app _ _ _) (or_intror Hb))). lia.
Qed.

(** A message not begun leaves a group free. *)
Lemma free_group m a todo : m ∈ msgs → follows a todo → view todo m = None →
  Z.of_nat (size (groups a)) < MAX_FRAGMENT_GROUPS.
Proof.
  intros Hm Hf Hv. destruct (split_at m Hm) as (l1 & l2 & E & Hne).
  assert (Hsub : dom (groups a) ⊆ list_to_set (message_id <$> (l1 ++ l2))).
  { intros id Hid%elem_of_dom. apply elem_of_list_to_set.
    destruct (decide (id ∈ message_id <$> msgs)) as [Hin|Hout].
    - apply list_elem_of_fmap in Hin as (b & -> & Hb). destruct (decide (message_id b = message_id m)) as [Heq|Hneq].
      + rewrite (ids_inj b m Hb Hm Heq), (fo_groups _ _ Hf m Hm), Hv in Hid. by destruct Hid.
      + apply list_elem_of_fmap_2. rewrite E in Hb. rewrite elem_of_app, elem_of_cons in Hb. rewrite elem_of_app.
        destruct Hb as [?|[->|?]]; [by left|done|by right].
    - rewrite (fo_others _ _ Hf id Hout) in Hid. by destruct Hid. }
  apply subseteq_size in Hsub. rewrite size_dom in Hsub.
  rewrite size_list_to_set, length_fmap in Hsub.
  - rewrite E in Hcount. rewrite length_app in Hcount, Hsub. cbn in Hcount. lia.
  - pose proof Hids as H. rewrite E, fmap_app, fmap_cons in H.
    rewrite <-Permutation_middle, NoDup_cons, <-fmap_app in H. by destruct H.
Qed.

Lemma view_bytes_nonneg todo m : 0 ≤ view_bytes todo m.
Proof.
  unfold view_bytes, view. destruct (_ && _ && _); [apply total_nonneg, part_bytes_nonneg|done].
Qed.

Lemma view_bytes_held todo m : m ∈ msgs → 0 ≤ total (view_bytes todo) msgs - view_bytes todo m.
Proof.
  intros (l1 & l2 & E)%list_elem_of_split. rewrite E, total_app. cbn [total].
  pose proof (total_nonneg (view_bytes todo) l1 (view_bytes_nonneg todo)).
  pose proof (total_nonneg (view_bytes todo) l2 (view_bytes_nonneg todo)). lia.
Qed.

Lemma push_whole m a todo : m ∈ msgs → cut m = false → follows a ((message_id m, 0%nat) :: todo) →
  push a m = (Ok (Some m), a) ∧ follows a todo.
Proof.
  intros Hm Hc Hf. unfold push. rewrite bool_decide_false by by apply Hplain. split; [done|].
  assert (Hv : ∀ b, b ∈ msgs → view todo b = view ((message_id m, 0%nat) :: todo) b).
  { intros b Hb. destruct (decide (message_id b = message_id m)) as [Heq|Hne].
    - rewrite (ids_inj b m Hb Hm Heq). unfold view. by rewrite Hc.
    - by rewrite view_other. }
  destruct Hf as [H1 H2 H3]. split; [|done|].
  - intros b Hb. rewrite Hv by done. by apply H1.
  - rewrite H3. apply total_ext. intros b Hb. unfold view_bytes. by rewrite Hv.
Qed.

(** What an unfinished message counts before its next piece. *)
Lemma view_unfinished m i c todo : cut m = true → cuts m !! i = Some c → (message_id m, i) ∉ todo →
  default (new_group m (Z.of_nat (length (cuts m)))) (view ((message_id m, i) :: todo) m)
    = group_of m ((message_id m, i) :: todo) ∧
  view_bytes ((message_id m, i) :: todo) m = total part_bytes (parts_of m ((message_id m, i) :: todo)).
Proof.
  intros Hc Hi Hn. destruct (parts_next m i c todo Hi Hn) as [Hp _].
  assert (Hnone : existsb is_none (parts_of m ((message_id m, i) :: todo)) = true).
  { apply existsb_none_parts. exists i. split; [by eapply lookup_lt_Some|by left]. }
  unfold view_bytes, view. rewrite Hc, Hnone. cbn [andb].
  destruct (existsb is_some _) eqn:Hs; cbn; [done|].
  destruct (all_none_bytes _ Hs) as [E ->]. split; [|done].
  unfold group_of, new_group. rewrite E at 1 2. rewrite length_parts_of, Nat2Z.id.
  f_equal. clear. induction (length (cuts m)); [done|]. cbn. by rewrite <-IHn.
Qed.

Lemma with_part_next m i c todo : cuts m !! i = Some c → (message_id m, i) ∉ todo →
  with_part (Z.of_nat i) c (group_of m ((message_id m, i) :: todo)) = group_of m todo.
Proof.
  intros Hi Hn. destruct (parts_next m i c todo Hi Hn) as [Hp Hp2].
  unfold with_part, group_of. cbn. rewrite Nat2Z.id, <-Hp2. f_equal.
  rewrite Hp2, (total_insert_part i c) by done. done.
Qed.

(** The assembler after a piece of [m], by what it says of [m]. *)
Lemma follows_next m k a todo gs h : m ∈ msgs → k.1 = message_id m → follows a (k :: todo) →
  gs !! message_id m = view todo m →
  (∀ id, id ≠ message_id m → gs !! id = groups a !! id) →
  h = held_bytes a - view_bytes (k :: todo) m + view_bytes todo m →
  follows (mkAssembler gs h) todo.
Proof.
  intros Hm Hk Hf Hgm Hgo Hh. split; cbn.
  - intros b Hb. destruct (decide (message_id b = message_id m)) as [Heq|Hne].
    + by rewrite (ids_inj b m Hb Hm Heq).
    + rewrite Hgo by done. rewrite (fo_groups _ _ Hf b Hb). apply view_other. by rewrite Hk.
  - intros id Hid. rewrite Hgo; [by apply (fo_others _ _ Hf)|]. intros ->. apply Hid. by apply list_elem_of_fmap_2.
  - rewrite Hh, (fo_held _ _ Hf). destruct (split_at m Hm) as (l1 & l2 & E & Hne). rewrite E.
    rewrite (total_change (view_bytes todo) (view_bytes (k :: todo))); [lia|].
    intros b Hb. destruct (Hne b Hb) as [_ Hid]. unfold view_bytes. by rewrite view_other by by rewrite Hk.
Qed.

Lemma fragment_value_read index total data : 0 ≤ index → 0 ≤ total →
  fragment_of_value (fragment_value (mkFragment index total data)) = Ok (mkFragment index total data).
Proof.
  intros Hi%Z.leb_le Ht%Z.leb_le.
  change (fragment_value (mkFragment index total data))
    with (Object [("data", Str data); ("index", Number (PosInt index)); ("total", Number (PosInt total))]).
  cbv -[Z.leb]. by rewrite Hi, Ht.
Qed.

(** A piece of a message that is cut is kept, or completes it. *)
Lemma push_piece_of m i c a todo : m ∈ msgs → cut m = true → cuts m !! i = Some c →
  (message_id m, i) ∉ todo → follows a ((message_id m, i) :: todo) →
  ∃ a', push a (fragment m (Z.of_nat (length (cuts m))) i c)
    = (Ok (if existsb is_none (parts_of m todo) then None else Some m), a') ∧ follows a' todo.
Proof.
  intros Hm Hc Hi Hn Hf. pose proof (lookup_lt_Some _ _ _ Hi) as Hlt.
  destruct (cuts_bounds m Hc (message_bytes m Hm)) as [_ Hmax].
  destruct (cuts_spec m) as (Hcat & Hlen & _). rewrite Forall_lookup in Hlen. specialize (Hlen _ _ Hi).
  destruct (view_unfinished m i c todo Hc Hi Hn) as [Hg Hvb].
  pose proof (room m i c a todo Hm Hi Hn Hf) as Hroom.
  destruct (parts_next m i c todo Hi Hn) as [Hp1 Hp2].
  unfold push. rewrite bool_decide_true by done. cbn [negb payload fragment].
  rewrite fragment_value_read by lia. cbn [fr_total fr_index fr_data message_id fragment].
  replace (_ || _ || _) with false; [|symmetry; rewrite !orb_false_iff; split_and!;
    [apply Z.eqb_neq; lia|apply Z.ltb_ge; lia|apply Z.leb_gt; lia]].
  rewrite decode_encode. replace (FRAGMENT_DATA_BYTES <? byte_len c) with false by (symmetry; by apply Z.ltb_ge).
  rewrite (fo_groups _ _ Hf m Hm).
  replace (is_none (view _ m) && _) with false; last first.
  { destruct (view ((message_id m, i) :: todo) m) eqn:Ev; [done|]. cbn. symmetry. apply Z.leb_gt. by eapply free_group. }
  change (new_group (fragment m _ i c) ?t) with (new_group m t). rewrite Hg.
  unfold same_identity. cbn [g_node_id g_boot_id g_total group_of node_id boot_id fragment].
  rewrite !bool_decide_true, Z.eqb_refl by done. cbn [andb negb].
  unfold accept, part_at. cbn [fr_index g_parts group_of message_id fragment held_bytes groups].
  rewrite Nat2Z.id, Hp1. cbn [is_none andb].
  replace (MAX_REASSEMBLED_MESSAGE_BYTES <? _) with false by (symmetry; apply Z.ltb_ge; lia).
  rewrite (with_part_next m i c todo Hi Hn). cbn [g_parts group_of].
  assert (Hsome : existsb is_some (parts_of m todo) = true).
  { apply existsb_exists. exists (Some c). split; [|done]. apply list_elem_of_In, list_elem_of_lookup. exists i.
    rewrite Hp2. apply list_lookup_insert_eq. rewrite length_parts_of. done. }
  pose proof (total_insert_part i c _ Hp1) as Hins. rewrite <-Hp2 in Hins.
  destruct (existsb is_none (parts_of m todo)) eqn:He.
  - eexists. split; [reflexivity|]. apply (follows_next m (message_id m, i) a); try done; cbn.
    + rewrite lookup_insert_eq. unfold view. by rewrite Hc, He, Hsome.
    + intros id Hid. by rewrite !lookup_insert_ne by congruence.
    + rewrite Hvb. unfold view_bytes at 1, view. rewrite Hc, He, Hsome. cbn. lia.
  - rewrite (reassemble_complete (group_of m todo) (cuts m)) by by apply parts_done.
    rewrite Hcat, (Hread m Hm). cbn.
    eexists. split; [reflexivity|].
    apply (follows_next m (message_id m, i) a); try done; cbn.
    + rewrite delete_insert_eq, lookup_delete_eq. unfold view. by rewrite Hc, He.
    + intros id Hid. by rewrite lookup_delete_ne, !lookup_insert_ne by congruence.
    + assert (Hv : view todo m = None) by (unfold view; by rewrite Hc, He).
      unfold view_bytes at 2. rewrite Hv, Hvb. unfold saturating_sub_usize.
      enough (0 ≤ held_bytes a - total part_bytes (parts_of m ((message_id m, i) :: todo))) by lia.
      rewrite <-Hvb, (fo_held _ _ Hf). by apply view_bytes_held.
Qed.

(** ** All pieces, in any order *)

Definition is_piece (p : WireEnvelope * nat) : Prop := p.1 ∈ msgs ∧ (p.2 < length (pieces p.1))%nat.

Lemma length_pieces m : length (pieces m) = if cut m then length (cuts m) else 1%nat.
Proof. unfold pieces. destruct (cut m); [apply length_imap|done]. Qed.

Lemma piece_keys_valid ps : Forall is_piece ps → valid (key <$> ps).
Proof.
  intros H. unfold valid. apply Forall_fmap. eapply Forall_impl; [exact H|]. intros [m i] [Hm Hi].
  exists m. done.
Qed.

(** Pushing a piece delivers its message when no other is to come. *)
Lemma push_piece p a todo : is_piece p → key p ∉ todo → valid todo → follows a (key p :: todo) →
  ∃ a', push a (piece_at p) = (Ok (if decide (pending todo p.1) then None else Some p.1), a') ∧
    follows a' todo.
Proof.
  destruct p as [m i]. intros [Hm Hi] Hn Hv Hf. cbn in Hm, Hi. unfold key in *. cbn [fst snd] in *.
  unfold piece_at. cbn [fst snd]. rewrite length_pieces in Hi. destruct (cut m) eqn:Hc.
  - destruct (lookup_lt_is_Some_2 _ _ Hi) as [c Hci].
    destruct (push_piece_of m i c a todo Hm Hc Hci Hn Hf) as (a' & Hp & Hf'). exists a'. split; [|done].
    unfold pieces. rewrite Hc, list_lookup_imap, Hci. cbn. rewrite Hp. do 2 f_equal.
    destruct (decide (pending todo m)) as [Hpend|Hpend].
    + destruct (pending_piece todo m Hv Hm Hpend) as (j & Hj & Hin). rewrite length_pieces, Hc in Hj.
      replace (existsb is_none (parts_of m todo)) with true; [done|]. symmetry. apply existsb_none_parts. by exists j.
    + destruct (existsb is_none (parts_of m todo)) eqn:He; [|done]. exfalso. apply Hpend.
      apply existsb_none_parts in He as (j & _ & Hin). apply Exists_exists. by exists (message_id m, j).
  - assert (i = 0%nat) as -> by lia. destruct (push_whole m a todo Hm Hc Hf) as [Hp Hf']. exists a. split; [|done].
    unfold pieces. rewrite Hc. cbn. rewrite Hp, decide_False; [done|].
    intros Hpend. destruct (pending_piece todo m Hv Hm Hpend) as (j & Hj & Hin).
    rewrite length_pieces, Hc in Hj. assert (j = 0%nat) as -> by lia. done.
Qed.

Lemma push_pieces ps a : NoDup (key <$> ps) → Forall is_piece ps → follows a (key <$> ps) →
  ∃ outs a', push_all a (piece_at <$> ps) = (Ok <$> outs, a') ∧ follows a' [] ∧
    omap id outs ≡ₚ filter (pending (key <$> ps)) msgs.
Proof.
  revert a. induction ps as [|p ps IH]; intros a Hnd Hps Hf.
  - exists [], a. split_and!; [done|done|]. clear. induction msgs as [|m l IH]; [done|].
    rewrite filter_cons, decide_False; [done|]. by intros H%Exists_nil.
  - rewrite fmap_cons in *. apply NoDup_cons in Hnd as [Hn Hnd]. apply Forall_cons in Hps as [Hp Hps].
    pose proof (piece_keys_valid ps Hps) as Hv.
    destruct (push_piece p a _ Hp Hn Hv Hf) as (a1 & Hpush & Hf1).
    destruct (IH a1 Hnd Hps Hf1) as (outs & a' & Hall & Hf' & Hperm).
    exists ((if decide (pending (key <$> ps) p.1) then None else Some p.1) :: outs), a'. split_and!; [|done|].
    + cbn [push_all]. rewrite Hpush. cbn [is_ok]. by rewrite Hall.
    + rewrite omap_id_cons, Hperm. destruct Hp as [Hm _]. destruct (split_at p.1 Hm) as (l1 & l2 & E & Hne).
      assert (Hother : ∀ b, b ∈ l1 ++ l2 → pending (key p :: (key <$> ps)) b ↔ pending (key <$> ps) b).
      { intros b Hb. destruct (Hne b Hb) as [_ Hid]. unfold pending. rewrite Exists_cons. split; [|by right].
        intros [H|H]; [|done]. exfalso. apply Hid. by rewrite <-H. }
      assert (Hnow : pending (key p :: (key <$> ps)) p.1) by (apply Exists_cons; by left).
      destruct (decide (pending (key <$> ps) p.1)) as [Hpend|Hpend]; cbn.
      * rewrite (filter_ext_in (pending (key p :: (key <$> ps))) (pending (key <$> ps))); [done|].
        intros b Hb. rewrite E, elem_of_app, elem_of_cons in Hb.
        destruct Hb as [Hb|[->|Hb]]; [|done|]; apply Hother; rewrite elem_of_app; auto.
      * rewrite E. symmetry. by apply filter_one_more.
Qed.

(** The pieces of every message. *)
Definition all_pieces : list (WireEnvelope * nat) := m ← msgs; (λ i, (m, i)) <$> seq 0 (length (pieces m)).

Lemma all_pieces_are : Forall is_piece all_pieces.
Proof.
  apply Forall_forall. intros [m i] (m' & Hin & Hm)%list_elem_of_bind.
  apply list_elem_of_fmap in Hin as (j & E & Hj%elem_of_seq). injection E as -> ->. split; [done|cbn; lia].
Qed.

Lemma piece_in_all m i : m ∈ msgs → (i < length (pieces m))%nat → (m, i) ∈ all_pieces.
Proof.
  intros Hm Hi. apply list_elem_of_bind. exists m. split; [|done]. apply list_elem_of_fmap. exists i.
  split; [done|]. apply elem_of_seq. lia.
Qed.

Lemma keys_NoDup : NoDup (key <$> all_pieces).
Proof.
  unfold all_pieces. clear Hcount Hbytes Hread Hplain. revert Hids. induction msgs as [|m l IH]; [constructor|].
  rewrite fmap_cons, NoDup_cons. intros [Hm Hl]. cbn. rewrite fmap_app. apply NoDup_app. split_and!; [| |by apply IH].
  - rewrite <-list_fmap_compose. apply NoDup_fmap_2; [|apply NoDup_seq]. intros i j E. cbn in E. by injection E.
  - intros [id i] H1 H2. apply list_elem_of_fmap in H1 as ([m1 i1] & E1 & H1).
    apply list_elem_of_fmap in H1 as (j1 & E & _). injection E as -> ->. injection E1 as -> ->.
    apply list_elem_of_fmap in H2 as ([m2 i2] & E2 & H2). apply list_elem_of_bind in H2 as (m3 & H2 & H3).
    apply list_elem_of_fmap in H2 as (j2 & E & _). injection E as -> ->. injection E2 as Hid _.
    apply Hm. rewrite Hid. by apply list_elem_of_fmap_2.
Qed.

Lemma pieces_at : mjoin (pieces <$> msgs) = piece_at <$> all_pieces.
Proof.
  unfold all_pieces. clear. induction msgs as [|m l IH]; [done|].
  change (mjoin (pieces <$> m :: l)) with (pieces m ++ mjoin (pieces <$> l)). rewrite IH, bind_cons, fmap_app.
  f_equal. rewrite <-list_fmap_compose. apply list_eq. intros i. rewrite list_lookup_fmap.
  destruct (decide (i < length (pieces m))%nat) as [Hi|Hi].
  - rewrite lookup_seq_lt by done. cbn. unfold piece_at. cbn.
    destruct (lookup_lt_is_Some_2 _ _ Hi) as [x ->]. done.
  - rewrite lookup_seq_ge by lia. cbn. by apply lookup_ge_None_2; lia.
Qed.

Lemma follows_start : follows empty_assembler (key <$> all_pieces).
Proof.
  assert (Hv : ∀ m, m ∈ msgs → view (key <$> all_pieces) m = None).
  { intros m Hm. unfold view. destruct (cut m) eqn:Hc; [|done].
    assert (Hs : existsb is_some (parts_of m (key <$> all_pieces)) = false).
    { apply not_true_is_false. intros (p & Hp%list_elem_of_In & Hs)%existsb_exists.
      apply list_elem_of_lookup in Hp as [i Hi]. rewrite lookup_parts_of in Hi.
      destruct (cuts m !! i) eqn:Hci; [|done]. cbn in Hi. rewrite decide_True in Hi; [by injection Hi as <-|].
      apply list_elem_of_fmap. exists (m, i). split; [done|]. apply piece_in_all; [done|].
      rewrite length_pieces, Hc. by eapply lookup_lt_Some. }
    rewrite Hs. by rewrite andb_false_r. }
  split; [|done|].
  - intros m Hm. by rewrite Hv.
  - cbn. rewrite (total_ext _ (λ _, 0)); [by rewrite total_zero|].
    intros m Hm. unfold view_bytes. by rewrite Hv.
Qed.

Lemma follows_end a : follows a [] → a = empty_assembler.
Proof.
  assert (Hv : ∀ m, view [] m = None).
  { intros m. unfold view. rewrite parts_complete by by intros i ?%elem_of_nil.
    assert (E : existsb is_none (Some <$> cuts m) = false) by (induction (cuts m); done).
    by rewrite E, andb_false_r. }
  intros [H1 H2 H3]. destruct a as [gs h]. cbn in *. unfold empty_assembler. f_equal.
  - apply map_eq. intros id. rewrite lookup_empty.
    destruct (decide (id ∈ message_id <$> msgs)) as [Hin|Hout]; [|by apply H2].
    apply list_elem_of_fmap in Hin as (m & -> & Hm). by rewrite H1, Hv.
  - rewrite H3, (total_ext _ (λ _, 0)); [by rewrite total_zero|]. intros m _. unfold view_bytes. by rewrite Hv.
Qed.

(** What is to come matters as a set. *)
Lemma follows_perm a t t' : t ≡ₚ t' → follows a t → follows a t'.
Proof.
  intros Ht. assert (Hp : ∀ m, parts_of m t' = parts_of m t).
  { intros m. apply imap_ext. intros i c _. apply decide_ext. by rewrite Ht. }
  assert (Hv : ∀ m, view t' m = view t m) by (intros m; unfold view, group_of; by rewrite Hp).
  intros [H1 H2 H3]. split; [|done|].
  - intros m Hm. by rewrite Hv, H1.
  - rewrite H3. apply total_ext. intros m _. unfold view_bytes. by rewrite Hv.
Qed.

Lemma all_pending m ps : ps ≡ₚ all_pieces → m ∈ msgs → pending (key <$> ps) m.
Proof.
  intros Hp Hm. apply Exists_exists. exists (message_id m, 0%nat). split; [|done].
  apply list_elem_of_fmap. exists (m, 0%nat). split; [done|]. rewrite Hp. apply piece_in_all; [done|].
  rewrite length_pieces. destruct (cut m) eqn:Hc; [|lia].
  pose proof (cuts_bounds m Hc (message_bytes m Hm)). lia.
Qed.

(** Every message arrives once, and nothing is held in the end. *)
Lemma all_delivered stream : mjoin (pieces <$> msgs) ≡ₚ stream →
  ∃ outs, push_all empty_assembler stream = (Ok <$> outs, empty_assembler) ∧ omap id outs ≡ₚ msgs.
Proof.
  rewrite pieces_at. intros Hp. symmetry in Hp. apply Permutation_map_inv in Hp as (ps & -> & Hp).
  assert (Hkp : key <$> ps ≡ₚ key <$> all_pieces) by by rewrite Hp.
  destruct (push_pieces ps empty_assembler) as (outs & a' & Hall & Hf & Hout).
  - rewrite Hkp. apply keys_NoDup.
  - rewrite <-Hp. apply all_pieces_are.
  - eapply follows_perm; [symmetry; exact Hkp|apply follows_start].
  - exists outs. rewrite (follows_end a' Hf) in Hall. split; [done|]. rewrite Hout.
    rewrite filter_everything; [done|]. intros m Hm. by apply all_pending.
Qed.
End messages.
End wire.
