(* ===== verification/NodeLan.v ===== *)
(** * Where a node may connect from

    [node_protocol/lan.rs]: the networks of the node LAN, the proxies that may
    speak for another address, and the admission of a socket. Addresses are
    read as [std::net] reads them. Masks compare leading bits, and a list of
    networks in CIDR notation is read as it is written. *)

From S2P Require Import Prelude Text.

(** ** Addresses *)

(** An address by its 32 or 128 bits. *)
Inductive IpAddr : Type := V4 (bits : Z) | V6 (bits : Z).

#[export] Instance IpAddr_eq_dec : EqDecision IpAddr.
Proof. solve_decision. Defined.

Definition to_digit (radix : Z) (c : Ascii.ascii) : option Z :=
  let n := Z.of_N (Ascii.N_of_ascii c) in
  let d := if (48 <=? n) && (n <=? 57) then Some (n - 48)
           else if (97 <=? n) && (n <=? 122) then Some (n - 87)
           else if (65 <=? n) && (n <=? 90) then Some (n - 55)
           else None in
  d ← d; if d <? radix then Some d else None.

(** The digits at the front, with their number and what follows. *)
Fixpoint read_digits (radix : Z) (s : string) (result count : Z) : Z * Z * string :=
  match s with
  | String c s' =>
      match to_digit radix c with
      | Some d => read_digits radix s' (result * radix + d) (count + 1)
      | None => (result, count, s)
      end
  | EmptyString => (result, count, s)
  end.

Definition read_number (radix max_digits limit : Z) (allow_zero_prefix : bool) (s : string)
    : option (Z * string) :=
  let '(result, count, rest) := read_digits radix s 0 0 in
  if (count =? 0) || (max_digits <? count) then None
  else if negb allow_zero_prefix && starts_with "0" s && (1 <? count) then None
  else if limit <? result then None
  else Some (result, rest).

(** The separator is read before every item but the first. *)
Definition read_separator {A} (sep : string) (index : nat) (inner : string → option (A * string))
    (s : string) : option (A * string) :=
  if bool_decide (index = 0%nat) then inner s else s ← strip_prefix sep s; inner s.

Definition read_octet (index : nat) : string → option (Z * string) :=
  read_separator "." index (read_number 10 3 255 false).

Definition read_ipv4_addr (s : string) : option (Z * string) :=
  '(a, s) ← read_octet 0 s;
  '(b, s) ← read_octet 1 s;
  '(c, s) ← read_octet 2 s;
  '(d, s) ← read_octet 3 s;
  Some (a * 2 ^ 24 + b * 2 ^ 16 + c * 2 ^ 8 + d, s).

(** Up to [limit] groups of 16 bits from [index] on; an address of four octets
    may stand for the last two. The groups, whether they end so, the rest. *)
Fixpoint read_groups (limit index : nat) (s : string) : list Z * bool * string :=
  match limit with
  | O => ([], false, s)
  | S remaining =>
      match (if bool_decide (remaining = 0%nat) then None else read_separator ":" index read_ipv4_addr s) with
      | Some (v4, s) => ([v4 / 2 ^ 16; v4 mod 2 ^ 16], true, s)
      | None =>
          match read_separator ":" index (read_number 16 4 65535 true) s with
          | Some (g, s) =>
              let '(gs, ipv4, s) := read_groups remaining (S index) s in (g :: gs, ipv4, s)
          | None => ([], false, s)
          end
      end
  end.

Definition groups_bits (gs : list Z) : Z := foldl (λ bits g, bits * 2 ^ 16 + g) 0 gs.

Definition read_ipv6_addr (s : string) : option (Z * string) :=
  let '(head, head_ipv4, s) := read_groups 8 0 s in
  if bool_decide (length head = 8%nat) then Some (groups_bits head, s)
  else if head_ipv4 then None
  else
    s ← strip_prefix "::" s;
    let '(tail, _, s) := read_groups (8 - (length head + 1)) 0 s in
    Some (groups_bits (head ++ replicate (8 - length head - length tail) 0 ++ tail), s).

Definition parse_ip (s : string) : option IpAddr :=
  let whole {A} (o : option (A * string)) : option A :=
    '(a, rest) ← o; if is_empty rest then Some a else None in
  whole (or_else ('(v4, s) ← read_ipv4_addr s; Some (V4 v4, s)) ('(v6, s) ← read_ipv6_addr s; Some (V6 v6, s))).

(** [str::parse::<u8>] *)
Definition parse_u8 (s : string) : option Z :=
  let s := default s (strip_prefix "+" s) in
  let '(result, count, rest) := read_digits 10 s 0 0 in
  if (count =? 0) || negb (is_empty rest) || (255 <? result) then None else Some result.

(** ** Networks *)

Record Network : Type := mkNetwork {
  address : IpAddr;
  prefix : Z;
}.

#[export] Instance Network_eq_dec : EqDecision Network.
Proof. solve_decision. Defined.

(** [networks]; empty admits every source. *)
Record NodeLanGuard : Type := mkGuard { networks : list Network }.

Definition unrestricted : NodeLanGuard := mkGuard [].

Inductive SourceRefusal : Type := PeerUnknown | ForwardedAddressMissing | OutsideLan.

Definition refusal_text (r : SourceRefusal) : string :=
  match r with
  | PeerUnknown => "peer address unavailable"
  | ForwardedAddressMissing => "trusted proxy forwarded no client address"
  | OutsideLan => "source outside the node LAN"
  end.

(** [Ipv6Addr::to_ipv4_mapped]: [::ffff:a.b.c.d]. *)
Definition unmap (a : IpAddr) : IpAddr :=
  match a with
  | V6 bits => if bits / 2 ^ 32 =? 65535 then V4 (bits mod 2 ^ 32) else a
  | V4 _ => a
  end.

Definition width (a : IpAddr) : Z := match a with V4 _ => 32 | V6 _ => 128 end.

(** Shifting the mask left drops the bits over the width. *)
Definition masked (w bits prefix : Z) : Z :=
  if prefix =? 0 then 0
  else Z.land bits (Z.shiftl (Z.ones w) (w - prefix) mod 2 ^ w).

Definition masked_v4 : Z → Z → Z := masked 32.
Definition masked_v6 : Z → Z → Z := masked 128.

Definition contains_address (n : Network) (a : IpAddr) : bool :=
  match address n, a with
  | V4 network_address, V4 a => masked_v4 network_address (prefix n) =? masked_v4 a (prefix n)
  | V6 network_address, V6 a => masked_v6 network_address (prefix n) =? masked_v6 a (prefix n)
  | _, _ => false
  end.

Definition parse_network (entry : string) : res Network :=
  '(address, prefix) ← ok_or (split_once "/" entry) ("node LAN entry " +:+ entry +:+ " must be CIDR notation");
  address ← ok_or (parse_ip address) ("node LAN entry " +:+ entry +:+ " has an invalid address");
  let address := unmap address in
  prefix ← ok_or (parse_u8 prefix) ("node LAN entry " +:+ entry +:+ " has an invalid prefix");
  if width address <? prefix
  then bail ("node LAN entry " +:+ entry +:+ " prefix exceeds the address width")
  else Ok (mkNetwork address prefix).

Definition parse_guard (value : string) : res NodeLanGuard :=
  networks ← try_map parse_network
    (filter (λ e, is_empty e = false) (trim <$> split_char "," value));
  Ok (mkGuard networks).

Definition is_unrestricted (g : NodeLanGuard) : bool := bool_decide (networks g = []).

Definition admits (g : NodeLanGuard) (a : IpAddr) : bool :=
  if is_unrestricted g then true
  else let a := unmap a in existsb (λ n, contains_address n a) (networks g).

(** ** Admission *)

Record NodeSourcePolicy : Type := mkPolicy {
  lan : NodeLanGuard;
  trusted_proxies : NodeLanGuard;
}.

Definition UNRESTRICTED_POLICY : NodeSourcePolicy := mkPolicy unrestricted unrestricted.

Definition DEFAULT_NODE_LAN_CIDR : string := "192.168.66.0/24".

(** The two variables of the environment, when they are set. *)
Definition policy_from_env (lan_cidr proxy_cidr : option string) : res NodeSourcePolicy :=
  lan ← parse_guard (default DEFAULT_NODE_LAN_CIDR lan_cidr);
  trusted ← parse_guard (default "" proxy_cidr);
  Ok (mkPolicy lan trusted).

Definition trusts_proxy (p : NodeSourcePolicy) (peer : IpAddr) : bool :=
  negb (is_unrestricted (trusted_proxies p)) && admits (trusted_proxies p) peer.

(** The first address of the header. *)
Definition forwarded_address (forwarded : option string) : option IpAddr :=
  value ← forwarded;
  first ← head (split_char "," value);
  parse_ip (trim first).

Definition admit_source (p : NodeSourcePolicy) (peer : option IpAddr) (forwarded : option string)
    : IpAddr + SourceRefusal :=
  if is_unrestricted (lan p) then inl (default (V4 0) peer)
  else
    match peer with
    | None => inr PeerUnknown
    | Some peer =>
        match (if trusts_proxy p peer then forwarded_address forwarded else Some peer) with
        | None => inr ForwardedAddressMissing
        | Some client => if admits (lan p) client then inl client else inr OutsideLan
        end
    end.

Example parse_v6 : parse_ip "2001:db8::192.168.0.1" = Some (V6 (0x20010db8000000000000000000000000 + 0xC0A80001)).
Proof. vm_compute. reflexivity. Qed.
Example parse_mapped : unmap <$> parse_ip "::ffff:10.0.0.1" = Some (V4 0x0A000001).
Proof. vm_compute. reflexivity. Qed.
Example parse_bad : (parse_ip "1.2.3", parse_ip "01.2.3.4", parse_ip "1.2.3.256", parse_ip ":::1", parse_ip "1::2::3",
  parse_ip "::", parse_ip "1:2:3:4:5:6:7::", parse_ip "1:2:3:4:5:6:7:8") =
  (None, None, None, None, None, Some (V6 0), Some (V6 0x00010002000300040005000600070000), Some (V6 0x00010002000300040005000600070008)).
Proof. vm_compute. reflexivity. Qed.

(** ** What the guards admit *)

(** ** Masks *)

Lemma ones_shifted_bits w k i : 0 ≤ k ≤ w → 0 ≤ i < w →
  Z.testbit (Z.shiftl (Z.ones w) k mod 2 ^ w) i = (k <=? i).
Proof.
  intros Hk Hi. rewrite Z.mod_pow2_bits_low by lia. rewrite Z.shiftl_spec by lia.
  destruct (Z.leb_spec k i) as [H|H].
  - rewrite Z.ones_spec_low; [done|lia].
  - apply Z.testbit_neg_r. lia.
Qed.

(** Addresses have the same mask when their leading bits are the same. *)
Lemma masked_eq w a b p : 0 ≤ p ≤ w →
  masked w a p = masked w b p ↔ ∀ i, w - p ≤ i < w → Z.testbit a i = Z.testbit b i.
Proof.
  intros Hp. unfold masked. destruct (Z.eqb_spec p 0) as [->|Hp0]; [split; [intros _ i Hi; lia|done]|].
  assert (Hbit : ∀ c i, 0 ≤ i → Z.testbit (Z.land c (Z.shiftl (Z.ones w) (w - p) mod 2 ^ w)) i =
    Z.testbit c i && (w - p <=? i) && (i <? w)).
  { intros c i Hi. rewrite Z.land_spec. destruct (Z.ltb_spec i w) as [Hw|Hw].
    - by rewrite ones_shifted_bits, andb_true_r by lia.
    - rewrite Z.mod_pow2_bits_high by lia. by rewrite !andb_false_r. }
  split.
  - intros H i Hi. apply (f_equal (λ z, Z.testbit z i)) in H. rewrite !Hbit in H by lia.
    rewrite (proj2 (Z.leb_le _ _)), (proj2 (Z.ltb_lt _ _)), !andb_true_r in H by lia. done.
  - intros H. apply Z.bits_inj'. intros i Hi. rewrite !Hbit by done.
    destruct (Z.leb_spec (w - p) i), (Z.ltb_spec i w); rewrite ?andb_false_r; try done.
    by rewrite H by lia.
Qed.

(** ** Numbers and addresses as text *)

Definition digit_char (c : Ascii.ascii) : bool := is_some (to_digit 10 c).

Definition no_digit_first (s : string) : bool :=
  match s with EmptyString => true | String c _ => negb (digit_char c) end.

Lemma read_digits_app s rest r c r' c' : read_digits 10 s r c = (r', c', "") → no_digit_first rest = true →
  read_digits 10 (s +:+ rest) r c = (r', c', rest).
Proof.
  intros H Hrest. revert r c H. induction s as [|d s IH]; intros r c H.
  - cbn in H. injection H as -> ->. rewrite append_nil_l. destruct rest as [|d rest]; [done|].
    cbn [read_digits]. unfold no_digit_first, digit_char in Hrest. by destruct (to_digit 10 d).
  - rewrite append_cons. cbn [read_digits] in *. destruct (to_digit 10 d); [by apply IH|done].
Qed.

(** An octet is written with one to three digits and no leading zero. *)
Definition octet_ok (n : Z) : bool :=
  match read_digits 10 (pretty n) 0 0 with
  | (r, count, rest) => (r =? n) && (1 <=? count) && (count <=? 3) && is_empty rest
      && (negb (starts_with "0" (pretty n)) || (count =? 1))
  end.

Lemma octets_ok : forallb octet_ok (seqZ 0 256) = true.
Proof. vm_compute. reflexivity. Qed.

Lemma octet_read n rest : 0 ≤ n ≤ 255 → no_digit_first rest = true →
  read_number 10 3 255 false (pretty n +:+ rest) = Some (n, rest) ∧
  starts_with "0" (pretty n +:+ rest) = starts_with "0" (pretty n).
Proof.
  intros Hn Hrest. pose proof octets_ok as H. rewrite forallb_forall in H.
  assert (Hin : n ∈ seqZ 0 256) by (apply elem_of_seqZ; lia).
  apply list_elem_of_In in Hin. specialize (H n Hin). clear Hin. unfold octet_ok in H.
  destruct (read_digits 10 (pretty n) 0 0) as [[r count] left] eqn:E.
  rewrite !andb_true_iff in H. destruct H as [[[[Hr%Z.eqb_eq Hc1%Z.leb_le] Hc2%Z.leb_le] He] Hz].
  apply bool_decide_eq_true in He. subst r left.
  assert (Hs : starts_with "0" (pretty n +:+ rest) = starts_with "0" (pretty n)).
  { destruct (pretty n) as [|c s] eqn:Ep; [cbn in E; assert (count = 0) by congruence; lia|].
    rewrite append_cons. unfold starts_with. cbn -[Ascii.eqb]. by destruct (Ascii.eqb "0" c). }
  split; [|done]. unfold read_number. rewrite (read_digits_app _ rest _ _ _ _ E Hrest).
  replace (count =? 0) with false by (symmetry; apply Z.eqb_neq; lia).
  replace (3 <? count) with false by (symmetry; apply Z.ltb_ge; lia). cbn [orb negb andb].
  rewrite Hs. replace (255 <? n) with false by (symmetry; apply Z.ltb_ge; lia).
  destruct (starts_with "0" (pretty n)); [|done].
  cbn in Hz. apply Z.eqb_eq in Hz as ->. done.
Qed.

Definition octets (a : Z) : list Z := [a / 2 ^ 24; a / 2 ^ 16 mod 2 ^ 8; a / 2 ^ 8 mod 2 ^ 8; a mod 2 ^ 8].

Definition show_v4 (a : Z) : string := join "." (pretty <$> octets a).

Lemma octets_bits a : 0 ≤ a →
  (a / 2 ^ 24) * 2 ^ 24 + (a / 2 ^ 16 mod 2 ^ 8) * 2 ^ 16 + (a / 2 ^ 8 mod 2 ^ 8) * 2 ^ 8 + a mod 2 ^ 8 = a.
Proof.
  intros Ha. pose proof (Z.div_mod a (2 ^ 8)). pose proof (Z.div_mod (a / 2 ^ 8) (2 ^ 8)).
  pose proof (Z.div_mod (a / 2 ^ 16) (2 ^ 8)).
  replace (a / 2 ^ 24) with (a / 2 ^ 16 / 2 ^ 8) by (rewrite Z.div_div by lia; reflexivity).
  replace (a / 2 ^ 16) with (a / 2 ^ 8 / 2 ^ 8) in * by (rewrite Z.div_div by lia; reflexivity). lia.
Qed.

Lemma first_octet n rest : 0 ≤ n ≤ 255 → no_digit_first rest = true →
  read_octet 0 (pretty n +:+ rest) = Some (n, rest).
Proof. intros Hn Hr. exact (proj1 (octet_read n rest Hn Hr)). Qed.

Lemma next_octet index n rest : 0 ≤ n ≤ 255 → no_digit_first rest = true →
  read_octet (S index) ("." +:+ pretty n +:+ rest) = Some (n, rest).
Proof. intros Hn Hr. exact (proj1 (octet_read n rest Hn Hr)). Qed.

Lemma parse_show_v4 a : 0 ≤ a < 2 ^ 32 → parse_ip (show_v4 a) = Some (V4 a).
Proof.
  intros Ha. assert (H1 : 0 ≤ a / 2 ^ 24 ≤ 255).
  { split; [apply Z.div_pos; lia|]. assert (a / 2 ^ 24 < 256) by (apply Z.div_lt_upper_bound; lia). lia. }
  assert (Hm : ∀ z, 0 ≤ z mod 2 ^ 8 ≤ 255) by (intros z; pose proof (Z.mod_pos_bound z (2 ^ 8)); lia).
  unfold parse_ip. assert (E : read_ipv4_addr (show_v4 a) = Some (a, "")); [|by rewrite E].
  unfold read_ipv4_addr, show_v4, octets. cbn [fmap list_fmap join].
  rewrite first_octet by done. cbn [mbind option_bind].
  rewrite next_octet by done. cbn [mbind option_bind].
  rewrite next_octet by done. cbn [mbind option_bind].
  rewrite <-(append_nil_r (pretty (a mod 2 ^ 8))) at 1.
  rewrite next_octet by done. cbn [mbind option_bind].
  by rewrite octets_bits by lia.
Qed.

(** ** Networks in CIDR notation *)

Definition cidr (n : Z * Z) : string := show_v4 n.1 +:+ "/" +:+ pretty n.2.

Definition valid_net (n : Z * Z) : Prop := 0 ≤ n.1 < 2 ^ 32 ∧ 0 ≤ n.2 ≤ 32.

Definition guard_of (nets : list (Z * Z)) : NodeLanGuard :=
  mkGuard ((λ n, mkNetwork (V4 n.1) n.2) <$> nets).

(** An octet is visible and holds neither separator. *)
Definition octet_text (n : Z) : bool :=
  visible (pretty n) && no_byte "," (pretty n) && no_byte "/" (pretty n)
  && (if n <=? 32 then bool_decide (parse_u8 (pretty n) = Some n) else true).

Lemma octets_text : forallb octet_text (seqZ 0 256) = true.
Proof. vm_compute. reflexivity. Qed.

Lemma octet_text_spec n : 0 ≤ n ≤ 255 →
  visible (pretty n) = true ∧ no_byte "," (pretty n) = true ∧ no_byte "/" (pretty n) = true ∧
  (n ≤ 32 → parse_u8 (pretty n) = Some n).
Proof.
  intros Hn. pose proof octets_text as H. rewrite forallb_forall in H.
  assert (Hin : n ∈ seqZ 0 256) by (apply elem_of_seqZ; lia).
  apply list_elem_of_In in Hin. specialize (H n Hin). clear Hin. unfold octet_text in H.
  rewrite !andb_true_iff in H. destruct H as [[[? ?] ?] H]. split_and!; [done..|].
  intros Hle. rewrite (proj2 (Z.leb_le _ _) Hle) in H. by apply bool_decide_eq_true in H.
Qed.

Lemma octets_range a : 0 ≤ a < 2 ^ 32 → Forall (λ n, 0 ≤ n ≤ 255) (octets a).
Proof.
  intros Ha. assert (Hm : ∀ z, 0 ≤ z mod 2 ^ 8 ≤ 255) by (intros z; pose proof (Z.mod_pos_bound z (2 ^ 8)); lia).
  repeat constructor; try apply Hm.
  - apply Z.div_pos; lia.
  - assert (a / 2 ^ 24 < 256) by (apply Z.div_lt_upper_bound; lia). lia.
Qed.

Lemma show_v4_text a : 0 ≤ a < 2 ^ 32 →
  visible (show_v4 a) = true ∧ no_byte "," (show_v4 a) = true ∧ no_byte "/" (show_v4 a) = true.
Proof.
  intros Ha. pose proof (octets_range a Ha) as H. unfold show_v4, octets in *.
  repeat match goal with H : Forall _ (_ :: _) |- _ => apply Forall_cons in H as [?%octet_text_spec ?] end.
  destruct_and!. cbn [fmap list_fmap join]. rewrite !visible_app, !no_byte_app.
  by repeat match goal with H : _ = true |- _ => rewrite H; clear H end.
Qed.

Lemma cidr_text n : valid_net n → visible (cidr n) = true ∧ no_byte "," (cidr n) = true.
Proof.
  intros [Ha Hp]. destruct (show_v4_text _ Ha) as (Hv & Hc & _).
  destruct (octet_text_spec n.2) as (Hv' & Hc' & _); [lia|].
  unfold cidr. by rewrite !visible_app, !no_byte_app, Hv, Hc, Hv', Hc'.
Qed.

Lemma parse_cidr n : valid_net n → parse_network (cidr n) = Ok (mkNetwork (V4 n.1) n.2).
Proof.
  intros [Ha Hp]. destruct (show_v4_text _ Ha) as (_ & _ & Hs). unfold parse_network, cidr.
  change ("/" +:+ pretty n.2) with (String "/" (pretty n.2)). rewrite (split_once_byte _ _ _ Hs).
  cbn [ok_or mbind res_bind]. rewrite (parse_show_v4 _ Ha). cbn [ok_or mbind res_bind].
  destruct (octet_text_spec n.2) as (_ & _ & _ & Hu); [lia|]. rewrite Hu by lia.
  cbn [ok_or mbind res_bind unmap width]. by rewrite (proj2 (Z.ltb_ge _ _)) by lia.
Qed.

Lemma parse_guard_cidrs nets : Forall valid_net nets →
  parse_guard (join "," (cidr <$> nets)) = Ok (guard_of nets).
Proof.
  intros Hn. unfold parse_guard, guard_of. destruct nets as [|n nets]; [done|].
  rewrite split_char_joined; [|done|apply Forall_fmap; eapply Forall_impl; [done|]; by intros m [_ ?]%cidr_text].
  set (l := n :: nets) in *. clearbody l. clear n nets.
  assert (Hf : filter (λ e, is_empty e = false) (trim <$> (cidr <$> l)) = cidr <$> l).
  { induction Hn as [|m l Hm Hn IH]; [done|]. destruct (cidr_text m Hm) as [Hv _].
    cbn [fmap list_fmap]. rewrite (trim_visible _ Hv), filter_cons_True; [by f_equal|].
    apply bool_decide_eq_false. unfold cidr. by destruct (show_v4 m.1). }
  rewrite Hf. assert (Hp : try_map parse_network (cidr <$> l) = Ok ((λ n, mkNetwork (V4 n.1) n.2) <$> l)).
  { apply try_map_Forall2, Forall2_fmap, Forall_Forall2_diag. eapply Forall_impl; [done|]. apply parse_cidr. }
  by rewrite Hp.
Qed.

(** ** Membership *)

(** The address of [n] and the address have the same leading bits. *)
Definition agree (n : Z * Z) (a : IpAddr) : Prop :=
  ∃ x, unmap a = V4 x ∧ ∀ i, 32 - n.2 ≤ i < 32 → Z.testbit x i = Z.testbit n.1 i.

Definition in_nets (nets : list (Z * Z)) (a : IpAddr) : Prop := ∃ n, n ∈ nets ∧ agree n a.

Lemma contains_agree n a : valid_net n →
  contains_address (mkNetwork (V4 n.1) n.2) (unmap a) = true ↔ agree n a.
Proof.
  intros [_ Hp]. unfold contains_address, agree. cbn [address prefix]. destruct (unmap a) as [x|x] eqn:E.
  - rewrite Z.eqb_eq. unfold masked_v4. rewrite masked_eq by done. split.
    + intros H. exists x. split; [done|]. intros i Hi. by rewrite H.
    + intros (y & [= <-] & H) i Hi. by rewrite H.
  - split; [done|]. by intros (y & ? & _).
Qed.

Lemma admits_nets nets a : Forall valid_net nets → nets ≠ [] →
  admits (guard_of nets) a = true ↔ in_nets nets a.
Proof.
  intros Hn Hne. unfold admits, is_unrestricted, guard_of, in_nets. cbn [networks].
  rewrite bool_decide_false by by destruct nets. rewrite existsb_exists. split.
  - intros (m & (n & -> & Hin)%list_elem_of_In%list_elem_of_fmap & Hc). exists n. split; [done|].
    rewrite Forall_forall in Hn. by apply contains_agree; [apply Hn|].
  - intros (n & Hin & Ha). exists (mkNetwork (V4 n.1) n.2). split.
    + apply list_elem_of_In, list_elem_of_fmap. by exists n.
    + rewrite Forall_forall in Hn. by apply contains_agree; [apply Hn|].
Qed.

Lemma trusts_nets l nets a : Forall valid_net nets →
  trusts_proxy (mkPolicy l (guard_of nets)) a = true ↔ in_nets nets a.
Proof.
  intros Hn. unfold trusts_proxy. cbn [trusted_proxies]. destruct nets as [|n nets].
  - cbn. split; [done|]. intros (n & H & _). by apply elem_of_nil in H.
  - rewrite andb_true_iff, admits_nets by done. by unfold is_unrestricted; cbn; split; [intros [_ ?]|].
Qed.
