(* ===== verification/NodeTrust.v ===== *)
(** * What a node trusts

    [node_protocol/identity.rs], [node_protocol/pin.rs], [node_protocol/tls.rs],
    [node_protocol/config.rs] and [node_protocol/client.rs]: the identity the
    control plane signs with, the pins of a node, the configuration it is
    delivered, and the two handshakes of the node - the enrollment that writes
    pins and the connection that only compares.

    A file is its text, [None] when it cannot be read; writes succeed. *)

From S2P Require Import Prelude Text Json NodeWire.

(** ** Cryptography *)

(** ed25519 and SHA-256 as [ring] has them, base64, and PEM as
    [rustls_pemfile] reads it. A key is its 32 bytes. *)
Class Crypto : Type := {
  KeyPair : Type;
  key_public : KeyPair → string;
  key_sign : KeyPair → string → string;
  from_pkcs8 : string → option KeyPair;
  ed25519_verify : string → string → string → bool;
  sha256 : string → string;
  b64url_encode : string → string;
  b64url_decode : string → option string;
  b64_encode : string → string;
  pem_cert : string → option string;
}.

(** [slice::chunks], each with its newline. *)
Definition pem_encode `{Crypto} (der : string) : string :=
  "-----BEGIN CERTIFICATE-----" +:+ newline
  +:+ concat_text ((λ c, c +:+ newline) <$> chunks 64 (b64_encode der))
  +:+ "-----END CERTIFICATE-----" +:+ newline.

Class CryptoLaws (C : Crypto) : Prop := {
  verify_sign k m : ed25519_verify (key_public k) m (key_sign k m) = true;
  verify_key_length k m s : ed25519_verify k m s = true → byte_len k = 32;
  b64url_decode_encode s : b64url_decode (b64url_encode s) = Some s;
  b64url_alphabet s b : b64url_decode s = Some b → visible s = true;
  b64url_empty : b64url_decode "" = Some "";
  pem_cert_encode der : pem_cert (pem_encode der) = Some der;
}.

(** ** Messages *)

(** The fields of a struct: an object, or a sequence of them in order. *)
Definition struct_fields (names : list string) (v : Value) : option object :=
  match v with
  | Object m => Some m
  | Array vs => if bool_decide (length vs ≤ length names)%nat then Some (zip names vs) else None
  | _ => None
  end.

Definition unsigned (bits : Z) (v : Value) : option Z :=
  match v with Number (PosInt n) => if (0 <=? n) && (n <? 2 ^ bits) then Some n else None | _ => None end.

(** An [Option] field with a default. *)
Definition optional {A} (read : Value → option A) (v : option Value) : option (option A) :=
  match v with
  | None | Some Null => Some None
  | Some v => a ← read v; Some (Some a)
  end.

Record HelloAck : Type := mkAck {
  ack_protocol_version : Z;
  heartbeat_interval_secs : Z;
  control_proof : option ControlHelloProof;
}.

Definition proof_of_value (v : Value) : option ControlHelloProof :=
  m ← struct_fields ["public_key"; "tls_cert_digest"; "signature"] v;
  public_key ← obj_get "public_key" m ≫= as_str;
  tls_cert_digest ← optional as_str (obj_get "tls_cert_digest" m);
  signature ← obj_get "signature" m ≫= as_str;
  Some (mkProof public_key tls_cert_digest signature).

Definition proof_value (p : ControlHelloProof) : Value :=
  json_object [("public_key", Str (p_public_key p)); ("tls_cert_digest", json_opt_str (tls_cert_digest p));
               ("signature", Str (p_signature p))].

Definition ack_of_value (v : Value) : option HelloAck :=
  m ← struct_fields ["protocol_version"; "heartbeat_interval_secs"; "control_proof"] v;
  version ← obj_get "protocol_version" m ≫= unsigned 32;
  interval ← obj_get "heartbeat_interval_secs" m ≫= unsigned 64;
  proof ← optional proof_of_value (obj_get "control_proof" m);
  Some (mkAck version interval proof).

Definition ack_value (a : HelloAck) : Value :=
  json_object [("protocol_version", Number (PosInt (ack_protocol_version a)));
               ("heartbeat_interval_secs", Number (PosInt (heartbeat_interval_secs a)));
               ("control_proof", match control_proof a with Some p => proof_value p | None => Null end)].

(** The values in the order of their keys. *)
Record NodeConfigPayload : Type := mkConfigPayload {
  cp_digest : string;
  cp_values : list (string * string);
  cp_signature : option string;
}.

Definition empty_payload : NodeConfigPayload := mkConfigPayload "" [] None.
Definition payload_is_empty (p : NodeConfigPayload) : bool := bool_decide (cp_values p = []).

Definition string_values (v : Value) : option (list (string * string)) :=
  m ← as_object v; mapM (λ kv, s ← as_str kv.2; Some (kv.1, s)) m.

Definition config_of_value (v : Value) : option NodeConfigPayload :=
  m ← struct_fields ["digest"; "values"; "signature"] v;
  digest ← obj_get "digest" m ≫= as_str;
  values ← obj_get "values" m ≫= string_values;
  signature ← optional as_str (obj_get "signature" m);
  Some (mkConfigPayload digest values signature).

Definition config_value (p : NodeConfigPayload) : Value :=
  json_object [("digest", Str (cp_digest p)); ("values", Object (prod_map id Str <$> cp_values p));
               ("signature", json_opt_str (cp_signature p))].

Inductive ControlWireMessage : Type :=
  | Challenge (challenge : ControlChallenge)
  | Envelope (envelope : WireEnvelope).

Inductive PinOutcome : Type :=
  | Matched
  | FirstPairing (public_key : string)
  | Unauthenticated.

Section trust.
Context `{UuidText, Crypto}.

(** ** The identity of the control plane *)

Record ControlIdentity : Type := mkIdentity { id_key : KeyPair; id_public : string }.

Definition identity_of (document : string) : res ControlIdentity :=
  key ← ok_or (from_pkcs8 document) "stored control key is invalid";
  Ok (mkIdentity key (b64url_encode (key_public key))).

(** The private key of the row [control_identity], if there is one. *)
Definition identity_stored (row : option string) : res (option ControlIdentity) :=
  match row with
  | None => Ok None
  | Some document => i ← identity_of document; Ok (Some i)
  end.

(** [INSERT ... ON CONFLICT DO NOTHING] *)
Definition identity_insert (document : string) (row : option string) : option string := or_else row (Some document).

Definition prove_handshake (i : ControlIdentity) (challenge : ControlChallenge) (hello : NodeHello)
    (cert_digest : option string) : ControlHelloProof :=
  let proof := mkProof (id_public i) cert_digest "" in
  mkProof (id_public i) cert_digest
    (b64url_encode (key_sign (id_key i) (proof_signing_payload proof challenge hello))).

Definition sign_config (i : ControlIdentity) (digest node_nonce : string) : string :=
  b64url_encode (key_sign (id_key i) (config_signing_payload digest node_nonce)).

(** ** The pin of the control plane *)

(** The text of the pin file. *)
Definition pinned (file : option string) : option string :=
  text ← file;
  let text := trim text in
  if is_empty text then None else Some text.

Definition decode_identity (value : string) : res string :=
  ok_or (b64url_decode value) "invalid base64 in control identity".

Definition verify_proof (proof : ControlHelloProof) (challenge : ControlChallenge) (hello : NodeHello) : res unit :=
  public_key ← decode_identity (p_public_key proof);
  signature ← ok_or (b64url_decode (p_signature proof)) "invalid control proof encoding";
  if ed25519_verify public_key (proof_signing_payload proof challenge hello) signature then Ok tt
  else bail "control plane proof does not verify".

Definition pin_verify (file : option string) (proof : option ControlHelloProof)
    (challenge : ControlChallenge) (hello : NodeHello) : res PinOutcome :=
  let pin := pinned file in
  match proof with
  | None =>
      if is_some pin then bail "control plane offered no identity but this node is paired to one"
      else Ok Unauthenticated
  | Some proof =>
      _ ← verify_proof proof challenge hello;
      match pin with
      | Some pin =>
          if bool_decide (pin = p_public_key proof) then Ok Matched
          else bail "control plane identity changed"
      | None => Ok (FirstPairing (p_public_key proof))
      end
  end.

Definition pin_record (public_key : string) : option string := Some (public_key +:+ newline).

Definition verify_config (file : option string) (digest node_nonce : string) (signature : option string) : res unit :=
  match pinned file with
  | None => Ok tt
  | Some pin =>
      signature ← ok_or signature "delivered configuration is unsigned but this node is paired";
      public_key ← decode_identity pin;
      signature ← decode_identity signature;
      if ed25519_verify public_key (config_signing_payload digest node_nonce) signature then Ok tt
      else bail "delivered configuration signature does not verify"
  end.

(** ** The configuration *)

Record NodeRuntimeConfig : Type := mkConfig {
  rc_digest : string;
  rc_values : list (string * string);
}.

Definition FORWARDED_KEYS : list string :=
  ["SULION_DB_URL"; "SULION_RETRIEVAL_TOKEN"; "SULION_SECRET_BROKER_REGISTRATION_TOKEN"].

Definition CONFIG_DIGEST_ENV : string := "SULION_NODE_CONFIG_DIGEST".

Definition single_quote : string := bytes [39%N].
Definition carriage_return : string := bytes [13%N].

Definition is_env_file_safe (value : string) : bool :=
  negb (contains single_quote value) && negb (contains newline value) && negb (contains carriage_return value).

Definition digest_of (values : list (string * string)) : string :=
  b64url_encode (sha256 (concat_text ((λ kv, kv.1 +:+ "=" +:+ kv.2 +:+ newline) <$> values))).

Definition new_config (values : list (string * string)) : NodeRuntimeConfig :=
  mkConfig (digest_of values) values.

(** [BTreeMap::insert] *)
Fixpoint tree_insert (k v : string) (m : list (string * string)) : list (string * string) :=
  match m with
  | [] => [(k, v)]
  | (k', v') :: m' =>
      if bool_decide (k = k') then (k, v) :: m'
      else if string_ltb k k' then (k, v) :: m
      else (k', v') :: tree_insert k v m'
  end.

Definition forward_key (env : string → option string) (values : list (string * string)) (key : string)
    : res (list (string * string)) :=
  match env key with
  | None => Ok values
  | Some value =>
      if is_empty value then Ok values
      else if negb (is_env_file_safe value)
      then bail (key +:+ " cannot be delivered to a node: values must not contain newlines or single quotes")
      else Ok (tree_insert key value values)
  end.

Definition config_from_env (env : string → option string) : res (option NodeRuntimeConfig) :=
  values ← try_fold (forward_key env) FORWARDED_KEYS [];
  Ok (if bool_decide (values = []) then None else Some (new_config values)).

Definition config_payload (c : NodeRuntimeConfig) : NodeConfigPayload :=
  mkConfigPayload (rc_digest c) (rc_values c) None.

Definition matches_current_env (env : string → option string) (c : NodeRuntimeConfig) : bool :=
  bool_decide (env CONFIG_DIGEST_ENV = Some (rc_digest c)).

Definition env_line (key value : string) : string :=
  key +:+ "=" +:+ single_quote +:+ value +:+ single_quote +:+ newline.

Definition render_env_file (c : NodeRuntimeConfig) : string :=
  "# Generated by sulion-node from the control plane. Do not edit." +:+ newline
  +:+ "# Delivered over the authenticated node channel after approval." +:+ newline
  +:+ concat_text ((λ kv, env_line kv.1 kv.2) <$> rc_values c)
  +:+ env_line CONFIG_DIGEST_ENV (rc_digest c).

(** Whether the file changed, and the file. *)
Definition write_delivered (c : NodeRuntimeConfig) (file : option string) : bool * option string :=
  let rendered := render_env_file c in
  if bool_decide (file = Some rendered) then (false, file) else (true, Some rendered).

Definition accept_config (p : NodeConfigPayload) : res NodeRuntimeConfig :=
  match find (λ kv, negb (bool_decide (kv.1 ∈ FORWARDED_KEYS))) (cp_values p) with
  | Some kv => bail ("refusing node configuration containing unexpected key " +:+ kv.1)
  | None =>
      match find (λ kv, negb (is_env_file_safe kv.2)) (cp_values p) with
      | Some kv => bail ("refusing node configuration: " +:+ kv.1 +:+ " is not env-file safe")
      | None =>
          let accepted := new_config (cp_values p) in
          if negb (bool_decide (rc_digest accepted = cp_digest p))
          then bail "delivered node configuration digest does not match its values"
          else Ok accepted
      end
  end.

(** ** The host of a node *)

(** [tls_runtime] is the copy unprivileged processes read. *)
Record Host : Type := mkHost {
  control_pin : option string;
  tls_pin : option string;
  tls_runtime : option string;
  delivered : option string;
}.

Definition with_control_pin (f : option string) (h : Host) : Host :=
  mkHost f (tls_pin h) (tls_runtime h) (delivered h).
Definition with_delivered (f : option string) (h : Host) : Host :=
  mkHost (control_pin h) (tls_pin h) (tls_runtime h) f.

(** What is left of the host's files for a process that is not root: reading
    the others fails, and a file that cannot be read is taken for missing. *)
Definition unprivileged (h : Host) : Host := mkHost None None (tls_runtime h) None.

(** The first of the two files that holds a certificate. *)
Definition tls_pinned (h : Host) : option string :=
  or_else (tls_pin h ≫= pem_cert) (tls_runtime h ≫= pem_cert).

Definition tls_record (der : string) (h : Host) : Host :=
  mkHost (control_pin h) (Some (pem_encode der)) (Some (pem_encode der)) (delivered h).

Definition cert_digest (der : string) : string := b64url_encode (sha256 der).

Definition verify_server_cert (pin : option string) (cert : string) : bool :=
  match pin with Some pin => bool_decide (pin = cert) | None => true end.

(** The certificate the connection presented, unless it is a plain one. *)
Definition connect_control (url : string) (h : Host) (cert : string) : res (option string) :=
  if starts_with "wss://" url then
    if verify_server_cert (tls_pinned h) cert then Ok (Some cert) else bail "invalid peer certificate"
  else Ok None.

Definition verify_tls_binding (seen : option string) (proof : option ControlHelloProof) (can_persist : bool)
    (h : Host) : res Host :=
  match seen with
  | None => Ok h
  | Some seen =>
      _ ← match proof ≫= tls_cert_digest with
          | Some signed =>
              if bool_decide (signed = cert_digest seen) then Ok tt
              else bail "the TLS certificate presented does not match the digest the control identity signed"
          | None =>
              if is_some proof then bail "control proved its identity but did not bind the TLS certificate"
              else Ok tt
          end;
      Ok (if is_none (tls_pinned h) && can_persist then tls_record seen h else h)
  end.

Definition signed_hello (node_id boot_id : Uuid) (key : KeyPair) (challenge : ControlChallenge) (node_nonce : string)
    : NodeHello :=
  let hello signature :=
    mkHello node_id boot_id NODE_PROTOCOL_VERSION (Some (b64url_encode (key_public key))) node_nonce signature in
  hello (b64url_encode (key_sign key (hello_signing_payload (hello "") challenge))).

(** ** What the socket yields *)

(** A text that is no message is [Garbled]; [Other] is a frame of another kind. *)
Inductive Frame : Type :=
  | Text (message : ControlWireMessage)
  | Garbled
  | CloseFrame (reason : option string)
  | Other.

(** How the frames end: by the node's deadline, by the peer, by an error. *)
Inductive StreamEnd : Type := TimedOut | Ended | Broken.

Definition receive_challenge (frames : list Frame) : res (ControlChallenge * list Frame) :=
  match frames with
  | [] => bail "control closed before challenge"
  | Text (Challenge c) :: rest => Ok (c, rest)
  | Text _ :: _ => bail "expected control challenge"
  | Garbled :: _ => bail "invalid control message"
  | _ => bail "control challenge must be text"
  end.

(** [Err] of the first component is an error; [inr] the reason of a refusal. *)
Definition receive_ack (frames : list Frame) (e : StreamEnd) : res ((HelloAck + string) * list Frame) :=
  match frames with
  | [] => match e with
          | TimedOut => bail "control acknowledgment timed out"
          | Ended => Ok (inr "connection closed", [])
          | Broken => bail "websocket error"
          end
  | Text (Envelope envelope) :: rest =>
      if negb (bool_decide (message_kind envelope = "control.hello_ack"))
      then bail "unexpected control message before acknowledgment"
      else ack ← ok_or (ack_of_value (payload envelope)) "invalid acknowledgment"; Ok (inl ack, rest)
  | Text (Challenge _) :: _ => bail "expected control acknowledgment"
  | Garbled :: _ => bail "invalid control message"
  | CloseFrame reason :: rest => Ok (inr (default "no reason given" reason), rest)
  | Other :: _ => bail "control acknowledgment must be text"
  end.
End trust.
