(* ===== verification/NodeClient.v ===== *)
(** * The client of a node

    [node_protocol/client.rs] and the start of [bin/sulion_node.rs]: the
    enrollment that pins the control plane and fetches the configuration, the
    loop that repeats it, and the handshake of the connection that follows. *)

From S2P Require Import Prelude Text Json NodeWire NodeTrust.

(** What a node dials with. *)
Record NodeClientConfig : Type := mkClientConfig {
  control_url : string;
  client_node_id : Uuid;
}.

(** [from_env] for the variables read; [insecure] for a debug build. *)
Definition client_url_allowed (debug : bool) (control_url : string) (allow_insecure : option string) : bool :=
  let insecure_ws_allowed := bool_decide (allow_insecure = Some "1") || bool_decide (allow_insecure = Some "true") in
  starts_with "wss://" control_url
  || (starts_with "ws://" control_url && (debug || insecure_ws_allowed)).

(** What one connection meets: the certificate the server presents, the nonce
    the node draws, and the frames it receives. *)
Record Attempt : Type := mkAttempt {
  at_cert : string;
  at_nonce : string;
  at_frames : list Frame;
  at_end : StreamEnd;
}.

Inductive EnrollOutcome : Type :=
  | Delivered (payload : NodeConfigPayload)
  | NoConfiguration
  | Rejected (reason : string).

Section client.
Context `{UuidText, C : Crypto, Wire}.
Variable config : NodeClientConfig.
Variable key : KeyPair.
Variable boot_id : Uuid.

(** The handshake both connections begin with, up to the acknowledgment. *)
Definition exchange (h : Host) (a : Attempt)
    : res (option string * ControlChallenge * NodeHello * (HelloAck + string) * list Frame) :=
  seen ← connect_control (control_url config) h (at_cert a);
  '(challenge, frames) ← receive_challenge (at_frames a);
  if negb (ch_protocol_version challenge =? NODE_PROTOCOL_VERSION)
  then bail "control and node protocol versions differ"
  else
    let hello := signed_hello (client_node_id config) boot_id key challenge (at_nonce a) in
    '(ack, frames) ← receive_ack frames (at_end a);
    match ack with
    | inl ack =>
        if negb (ack_protocol_version ack =? NODE_PROTOCOL_VERSION)
        then bail "control acknowledged an unexpected protocol version"
        else Ok (seen, challenge, hello, inl ack, frames)
    | inr reason => Ok (seen, challenge, hello, inr reason, frames)
    end.

(** The frames up to the configuration. *)
Fixpoint await_config (pin : option string) (nonce : string) (fragments : FragmentAssembler)
    (frames : list Frame) (e : StreamEnd) : res EnrollOutcome :=
  match frames with
  | [] => match e with
          | TimedOut => Ok NoConfiguration
          | Ended => Ok (Rejected "connection closed")
          | Broken => bail "websocket error"
          end
  | Text (Envelope envelope) :: frames =>
      let '(pushed, fragments) := push fragments envelope in
      envelope ← pushed;
      match envelope with
      | None => await_config pin nonce fragments frames e
      | Some envelope =>
          if bool_decide (message_kind envelope = "control.node_config") then
            payload ← ok_or (config_of_value (payload envelope)) "invalid node configuration";
            if payload_is_empty payload then Ok NoConfiguration
            else
              _ ← verify_config pin (cp_digest payload) nonce (cp_signature payload);
              Ok (Delivered payload)
          else await_config pin nonce fragments frames e
      end
  | Text (Challenge _) :: _ => bail "unexpected control challenge after authentication"
  | Garbled :: _ => bail "invalid control message"
  | _ :: frames => await_config pin nonce fragments frames e
  end.

(** The pin is written before the transport is checked. *)
Definition enroll_once (h : Host) (a : Attempt) : res EnrollOutcome * Host :=
  match exchange h a with
  | Err e => (Err e, h)
  | Ok (seen, challenge, hello, ack, frames) =>
      match ack with
      | inr reason => (Ok (Rejected reason), h)
      | inl ack =>
          match pin_verify (control_pin h) (control_proof ack) challenge hello with
          | Err e => (Err e, h)
          | Ok outcome =>
              let h := match outcome with
                       | FirstPairing public_key => with_control_pin (pin_record public_key) h
                       | _ => h
                       end in
              match verify_tls_binding seen (control_proof ack) true h with
              | Err e => (Err e, h)
              | Ok h => (await_config (control_pin h) (at_nonce a) empty_assembler frames (at_end a), h)
              end
          end
      end
  end.

(** [connect_once] up to "development node connected", in a process that
    reads root's files or does not: [main] drops its privileges before it
    connects. A refusal is an error here, and nothing is written. *)
Definition connect_handshake (reads : bool) (h : Host) (a : Attempt) : res HelloAck :=
  let h := if reads then h else unprivileged h in
  '(seen, challenge, hello, ack, _) ← exchange h a;
  match ack with
  | inr reason => bail ("control closed the node connection: " +:+ reason)
  | inl ack =>
      _ ← pin_verify (control_pin h) (control_proof ack) challenge hello;
      _ ← verify_tls_binding seen (control_proof ack) false h;
      Ok ack
  end.

(** The attempts still to come stand for time; with none left the node still
    waits. [Some None] is a deployment that delivers nothing. *)
Fixpoint await_runtime_config (h : Host) (attempts : list Attempt)
    : option (option NodeRuntimeConfig) * Host * list Attempt :=
  match attempts with
  | [] => (None, h, [])
  | a :: attempts =>
      let '(outcome, h) := enroll_once h a in
      match outcome with
      | Ok (Delivered payload) =>
          match accept_config payload with
          | Ok delivered => (Some (Some delivered), h, attempts)
          | Err _ => await_runtime_config h attempts
          end
      | Ok NoConfiguration => (Some None, h, attempts)
      | Ok (Rejected _) | Err _ => await_runtime_config h attempts
      end
  end.

(** [bin/sulion_node.rs]: whether the start went on. A round takes an attempt,
    so a fuel of one more than the attempts is enough. *)
Fixpoint bootstrap_fuel (fuel : nat) (env : string → option string) (h : Host) (attempts : list Attempt)
    : bool * Host :=
  match fuel with
  | O => (false, h)
  | S fuel =>
      match await_runtime_config h attempts with
      | (None, h, _) => (false, h)
      | (Some None, h, _) => (true, h)
      | (Some (Some delivered), h, attempts) =>
          let h := with_delivered (write_delivered delivered (NodeTrust.delivered h)).2 h in
          if matches_current_env env delivered then (true, h)
          else bootstrap_fuel fuel env h attempts
      end
  end.

Definition bootstrap_runtime_config (env : string → option string) (h : Host) (attempts : list Attempt) : bool * Host :=
  bootstrap_fuel (S (length attempts)) env h attempts.
End client.
