(* ===== verification/PtySessions.v ===== *)
(** * Terminal sessions

    The rows of [pty_sessions] and what writes them: [pty/spawn.rs], the
    record-keeping of [pty/mod.rs], and the correlation and runtime reports of
    [correlate.rs]. The columns of a row are grouped by what they describe. *)

From S2P Require Import Prelude Text Activity.

Inductive PtyState : Type := Live | Dead | Deleted | Orphaned.

#[export] Instance PtyState_eq_dec : EqDecision PtyState.
Proof. solve_decision. Defined.

Definition pty_state_str (s : PtyState) : string :=
  match s with Live => "live" | Dead => "dead" | Deleted => "deleted" | Orphaned => "orphaned" end.

Definition pty_state_parse (s : string) : option PtyState :=
  if bool_decide (s = "live") then Some Live
  else if bool_decide (s = "dead") then Some Dead
  else if bool_decide (s = "deleted") then Some Deleted
  else if bool_decide (s = "orphaned") then Some Orphaned
  else None.

(** ** Rows *)

(** [state], [ended_at], [exit_code], [runtime_end_reason]. *)
Record Life : Type := mkLife {
  lf_state : PtyState;
  lf_ended_at : option Z;
  lf_exit_code : option Z;
  lf_end_reason : option string;
}.

Inductive RuntimeState : Type := NoAgent | StartingAgent | RunningAgent | ExitedAgent.

#[export] Instance RuntimeState_eq_dec : EqDecision RuntimeState.
Proof. solve_decision. Defined.

Definition runtime_state_str (s : RuntimeState) : string :=
  match s with NoAgent => "none" | StartingAgent => "starting" | RunningAgent => "running" | ExitedAgent => "exited" end.

(** [agent_runtime_*] *)
Record AgentRuntime : Type := mkRuntime {
  ar_agent : option string;
  ar_state : RuntimeState;
  ar_started_at : option Z;
  ar_ended_at : option Z;
  ar_exit_code : option Z;
}.

Definition no_runtime : AgentRuntime := mkRuntime None NoAgent None None None.

(** [current_session_uuid], [_agent] and [_correlated_at]. *)
Record Current : Type := mkCurrent {
  cu_session : option string;
  cu_agent : option string;
  cu_correlated_at : option Z;
}.

(** [node_id], [node_boot_id], [node_disconnected_at], [devenv_ident]. *)
Record Binding : Type := mkBinding {
  nb_node : option Uuid;
  nb_boot : option Uuid;
  nb_disconnected_at : option Z;
  nb_devenv : option string;
}.

(** [label], [pinned], [color], [agent_label]. *)
Record UserMeta : Type := mkUserMeta {
  um_label : option string;
  um_pinned : bool;
  um_color : option string;
  um_agent_label : option string;
}.

Record PtyRow : Type := mkPty {
  pr_repo : string;
  pr_working_dir : string;
  pr_created_at : Z;
  pr_life : Life;
  pr_runtime : AgentRuntime;
  pr_current : Current;
  pr_binding : Binding;
  pr_user : UserMeta;
  pr_workspace : option Uuid;
  pr_meta_repo : option Uuid;
}.

Definition with_life (l : Life) (r : PtyRow) : PtyRow :=
  mkPty (pr_repo r) (pr_working_dir r) (pr_created_at r) l (pr_runtime r) (pr_current r) (pr_binding r)
    (pr_user r) (pr_workspace r) (pr_meta_repo r).
Definition with_runtime (a : AgentRuntime) (r : PtyRow) : PtyRow :=
  mkPty (pr_repo r) (pr_working_dir r) (pr_created_at r) (pr_life r) a (pr_current r) (pr_binding r)
    (pr_user r) (pr_workspace r) (pr_meta_repo r).
Definition with_current (c : Current) (r : PtyRow) : PtyRow :=
  mkPty (pr_repo r) (pr_working_dir r) (pr_created_at r) (pr_life r) (pr_runtime r) c (pr_binding r)
    (pr_user r) (pr_workspace r) (pr_meta_repo r).
Definition with_binding (b : Binding) (r : PtyRow) : PtyRow :=
  mkPty (pr_repo r) (pr_working_dir r) (pr_created_at r) (pr_life r) (pr_runtime r) (pr_current r) b
    (pr_user r) (pr_workspace r) (pr_meta_repo r).
Definition with_user (u : UserMeta) (r : PtyRow) : PtyRow :=
  mkPty (pr_repo r) (pr_working_dir r) (pr_created_at r) (pr_life r) (pr_runtime r) (pr_current r) (pr_binding r)
    u (pr_workspace r) (pr_meta_repo r).

Definition is_live (r : PtyRow) : bool := bool_decide (lf_state (pr_life r) = Live).

(** [agent_runtime_state IN ('starting', 'running')] *)
Definition agent_alive (a : AgentRuntime) : bool :=
  bool_decide (ar_state a = StartingAgent) || bool_decide (ar_state a = RunningAgent).

(** A row of [claude_sessions]. *)
Record SessionRow : Type := mkSession { se_agent : string; se_pty : option string }.

(** The tables, by the text of the identifiers. *)
Record Sessions : Type := mkSessions {
  pty_sessions : gmap string PtyRow;
  claude_sessions : gmap string SessionRow;
  activity_state : gmap string ActivityRecord;
}.

Definition set_ptys (p : gmap string PtyRow) (w : Sessions) : Sessions :=
  mkSessions p (claude_sessions w) (activity_state w).
Definition set_claude (c : gmap string SessionRow) (w : Sessions) : Sessions :=
  mkSessions (pty_sessions w) c (activity_state w).
Definition set_activity_state (a : gmap string ActivityRecord) (w : Sessions) : Sessions :=
  mkSessions (pty_sessions w) (claude_sessions w) a.

(** What the activity reports read of the rows. *)
Definition terminal_of (r : PtyRow) : PtySession :=
  mkPtySession (cu_session (pr_current r)) (pty_state_str (lf_state (pr_life r)))
    (runtime_state_str (ar_state (pr_runtime r))).

Definition terminals (w : Sessions) : Terminals := mkTerminals (terminal_of <$> pty_sessions w) (activity_state w).

(** [UPDATE pty_sessions SET ... WHERE id = ...], and the rows affected. *)
Definition update_row (id : string) (guard : PtyRow → bool) (f : PtyRow → PtyRow) (w : Sessions) : bool * Sessions :=
  match pty_sessions w !! id with
  | Some r => if guard r then (true, set_ptys (<[id := f r]> (pty_sessions w)) w) else (false, w)
  | None => (false, w)
  end.

Definition update_rows (guard : string → PtyRow → bool) (f : PtyRow → PtyRow) (w : Sessions) : Sessions :=
  set_ptys (map_imap (λ id r, Some (if guard id r then f r else r)) (pty_sessions w)) w.

(** ** Spawning *)

Record SpawnParams : Type := mkSpawn {
  sp_node : option Uuid;
  sp_boot : option Uuid;
  sp_repo : string;
  sp_working_dir : string;
  sp_workspace : option Uuid;
  sp_meta_repo : option Uuid;
  sp_agent : option string;
}.

Definition initial_agent_runtime (agent : option string) (now : Z) : AgentRuntime :=
  match agent with
  | Some agent => mkRuntime (Some agent) StartingAgent (Some now) None None
  | None => no_runtime
  end.

(** The inserted row, and the row a conflict leaves: what the statement does
    not set stays. *)
Definition spawned_row (p : SpawnParams) (now : Z) (old : option PtyRow) : PtyRow :=
  mkPty (sp_repo p) (sp_working_dir p) now (mkLife Live None None None)
    (initial_agent_runtime (sp_agent p) now)
    (default (mkCurrent None None None) (pr_current <$> old))
    (mkBinding (sp_node p) (sp_boot p) None (old ≫= λ r, nb_devenv (pr_binding r)))
    (default (mkUserMeta None false None None) (pr_user <$> old))
    (sp_workspace p) (sp_meta_repo p).

Definition persist_spawn (id : string) (p : SpawnParams) (now : Z) (w : Sessions) : res Sessions :=
  match pty_sessions w !! id with
  | Some r =>
      if is_live r then bail ("PTY session " +:+ id +:+ " already has a live database record")
      else Ok (set_ptys (<[id := spawned_row p now (Some r)]> (pty_sessions w)) w)
  | None => Ok (set_ptys (<[id := spawned_row p now None]> (pty_sessions w)) w)
  end.

(** [UPDATE pty_sessions SET devenv_ident] *)
Definition record_devenv (id ident : string) (w : Sessions) : Sessions :=
  (update_row id (λ _, true) (λ r,
     let b := pr_binding r in with_binding (mkBinding (nb_node b) (nb_boot b) (nb_disconnected_at b) (Some ident)) r) w).2.

Definition abandon_unspawned_row (id : string) (now : Z) (w : Sessions) : Sessions :=
  (update_row id is_live (λ r,
     with_life (mkLife Deleted (Some now) (lf_exit_code (pr_life r)) (lf_end_reason (pr_life r))) r) w).2.

(** ** Endings *)

(** The agent ends with its terminal. *)
Definition runtime_exited (now : Z) (a : AgentRuntime) : AgentRuntime :=
  if agent_alive a then mkRuntime (ar_agent a) ExitedAgent (ar_started_at a) (Some now) (ar_exit_code a) else a.

Definition runtime_exited_with (now : Z) (code : option Z) (a : AgentRuntime) : AgentRuntime :=
  if agent_alive a then mkRuntime (ar_agent a) ExitedAgent (ar_started_at a) (Some now) code else a.

(** With [COALESCE(agent_runtime_ended_at, NOW())]. *)
Definition runtime_exited_kept (now : Z) (a : AgentRuntime) : AgentRuntime :=
  if agent_alive a
  then mkRuntime (ar_agent a) ExitedAgent (ar_started_at a) (or_else (ar_ended_at a) (Some now)) (ar_exit_code a)
  else a.

Definition mark_dead (id : string) (exit_code : option Z) (now : Z) (w : Sessions) : Sessions :=
  (update_row id is_live (λ r,
     with_runtime (runtime_exited_with now exit_code (pr_runtime r))
       (with_life (mkLife Dead (Some now) exit_code (lf_end_reason (pr_life r))) r)) w).2.

Definition mark_orphaned (id : string) (now : Z) (w : Sessions) : Sessions :=
  (update_row id is_live (λ r,
     with_runtime (runtime_exited now (pr_runtime r))
       (with_life (mkLife Orphaned (Some now) (lf_exit_code (pr_life r)) (Some "devenv_inventory_missing")) r)) w).2.

(** The row of [delete]; a row that ended keeps its time. *)
Definition delete_row (id : string) (now : Z) (w : Sessions) : Sessions :=
  (update_row id (λ _, true) (λ r,
     let l := pr_life r in
     with_life (mkLife Deleted (or_else (lf_ended_at l) (Some now)) (lf_exit_code l) (lf_end_reason l)) r) w).2.

(** ** The agent *)

Definition mark_agent_starting (id agent : string) (now : Z) (w : Sessions) : res Sessions :=
  let '(found, w) := update_row id is_live (with_runtime (mkRuntime (Some agent) StartingAgent (Some now) None None)) w in
  if found then Ok w else bail ("no live PTY session " +:+ id).

Inductive RuntimeEvent : Type := Running | Exited.

Record RuntimeMsg : Type := mkRuntimeMsg {
  rm_pty : string;
  rm_agent : string;
  rm_event : RuntimeEvent;
  rm_exit_code : option Z;
}.

Definition runtime_running (agent : string) (now : Z) (a : AgentRuntime) : AgentRuntime :=
  mkRuntime (Some agent) RunningAgent (or_else (ar_started_at a) (Some now)) None None.

(** Only the agent that was started ends. *)
Definition runtime_ends (agent : string) (r : PtyRow) : bool :=
  let a := pr_runtime r in
  agent_alive a && match ar_agent a with None => true | Some started => bool_decide (started = agent) end.

(** The database as each attempt finds it, while the row is not live yet; the
    last of them is the one the rest of the handler works on. *)
Fixpoint running_attempts (msg : RuntimeMsg) (now : Z) (attempts : list Sessions) (w : Sessions) : bool * Sessions :=
  match update_row (rm_pty msg) is_live (λ r, with_runtime (runtime_running (rm_agent msg) now (pr_runtime r)) r) w with
  | (true, w) => (true, w)
  | (false, w) => match attempts with
                  | [] => (false, w)
                  | w :: attempts => running_attempts msg now attempts w
                  end
  end.

Definition RUNTIME_UPDATE_MAX_ATTEMPTS : nat := 20.

(** [later] are the databases of the attempts that follow. *)
Definition apply_runtime (msg : RuntimeMsg) (now : Z) (later : list Sessions) (w : Sessions) : res unit * Sessions :=
  match rm_event msg with
  | Running =>
      let '(found, w) := running_attempts msg now (take (RUNTIME_UPDATE_MAX_ATTEMPTS - 1) later) w in
      if found then
        match activity_set (rm_pty msg) Unknown None None "launcher" "unknown" now (terminals w) with
        | Ok (_, t) => (Ok tt, set_activity_state (activity t) w)
        | Err e => (Err e, w)
        end
      else (Ok tt, w)
  | Exited =>
      let w := (update_row (rm_pty msg) (runtime_ends (rm_agent msg)) (λ r,
        let a := pr_runtime r in
        with_runtime (mkRuntime (or_else (ar_agent a) (Some (rm_agent msg))) ExitedAgent (ar_started_at a)
                        (Some now) (rm_exit_code msg)) r) w).2 in
      (Ok tt, set_activity_state (activity (activity_clear (rm_pty msg) (terminals w))) w)
  end.

(** ** Correlation *)

Record CorrelateMsg : Type := mkCorrelate {
  co_pty : string;
  co_session : string;
  co_agent : string;
}.

Definition transcript_agent (display_agent : string) : string :=
  if bool_decide (display_agent = "fugu") then "codex" else display_agent.

Definition released (c : Current) : Current := mkCurrent None None (cu_correlated_at c).

Definition upsert_session (msg : CorrelateMsg) (w : Sessions) : Sessions :=
  set_claude (<[co_session msg := mkSession (transcript_agent (co_agent msg)) (Some (co_pty msg))]> (claude_sessions w)) w.

Definition release_others (msg : CorrelateMsg) (w : Sessions) : Sessions :=
  update_rows (λ id r, bool_decide (cu_session (pr_current r) = Some (co_session msg))
                       && negb (bool_decide (id = co_pty msg)))
    (λ r, with_current (released (pr_current r)) r) w.

Definition point_at (msg : CorrelateMsg) (now : Z) (w : Sessions) : Sessions :=
  (update_row (co_pty msg) (λ _, true)
     (with_current (mkCurrent (Some (co_session msg)) (Some (co_agent msg)) (Some now))) w).2.

(** Three statements, each its own transaction; this is a correlation during
    which nothing else is written. Other writes may fall between them: see
    [correlation] in [PtySessionsInv.v]. *)
Definition correlate (msg : CorrelateMsg) (now : Z) (w : Sessions) : Sessions :=
  point_at msg now (release_others msg (upsert_session msg w)).

(** ** Labels *)

(** An empty text clears. *)
Definition update_metadata (id : string) (label : option (option string)) (pinned : option bool)
    (color : option (option string)) (w : Sessions) : Sessions :=
  let cleared v := s ← v; if is_empty s then None else Some s in
  if is_none label && is_none pinned && is_none color then w
  else
    (update_row id (λ _, true) (λ r,
       let u := pr_user r in
       with_user (mkUserMeta (match label with Some l => cleared l | None => um_label u end)
                    (default (um_pinned u) pinned)
                    (match color with Some c => cleared c | None => um_color u end)
                    (um_agent_label u)) r) w).2.

(** [SessionNameSet] and [SessionNameGet] of the control socket. *)
Definition clean_name (name : option string) : res (option string) :=
  match trim <$> name with
  | None => Ok None
  | Some value =>
      if is_empty value then Ok None
      else if 100 <? chars_count value then bail "agent name must be 100 characters or fewer"
      else Ok (Some value)
  end.

Definition session_name_set (id : string) (name : option string) (w : Sessions) : res (option string * Sessions) :=
  cleaned ← clean_name name;
  Ok (cleaned,
      (update_row id (λ _, true) (λ r,
         let u := pr_user r in with_user (mkUserMeta (um_label u) (um_pinned u) (um_color u) cleaned) r) w).2).

Definition session_name_get (id : string) (w : Sessions) : option string :=
  r ← pty_sessions w !! id; um_agent_label (pr_user r).

(** ** Listing *)

(** [list]: rows that are not deleted, pinned ones first, then the latest. *)
Definition listed_before (a b : string * PtyRow) : Prop :=
  um_pinned (pr_user b.2) = true ∧ um_pinned (pr_user a.2) = true ∧ pr_created_at b.2 ≤ pr_created_at a.2 ∨
  um_pinned (pr_user b.2) = false ∧ um_pinned (pr_user a.2) = true ∨
  um_pinned (pr_user b.2) = false ∧ um_pinned (pr_user a.2) = false ∧ pr_created_at b.2 ≤ pr_created_at a.2.

#[export] Instance listed_before_dec : RelDecision listed_before.
Proof. intros a b. unfold listed_before. apply _. Defined.

Definition list_sessions (w : Sessions) : list (string * PtyRow) :=
  merge_sort listed_before
    (filter (λ p, lf_state (pr_life p.2) ≠ Deleted) (map_to_list (pty_sessions w))).
