(* ===== verification/NodeStore.v ===== *)
(** * The store of development nodes

    [node_protocol/store.rs]: the rows of [dev_nodes] - pairing, connections,
    heartbeats - and what they do to the sessions a node hosts. *)

From S2P Require Import Prelude Text Activity PtySessions NodeWire NodeTrust.

(** The kinds of [NodeProtocolError]. *)
Inductive NodeError : Type :=
  | NotFound | UnknownNode | PairingRequired | InvalidRequest (message : string) | AuthenticationFailed
  | Unavailable | Remote (code message : string).

Inductive CredentialKind : Type := Ed25519 | Internal.
Inductive ConnectionState : Type := PendingNode | EnrolledNode | ConnectedNode | DisconnectedNode.

#[export] Instance CredentialKind_eq_dec : EqDecision CredentialKind.
Proof. solve_decision. Defined.
#[export] Instance ConnectionState_eq_dec : EqDecision ConnectionState.
Proof. solve_decision. Defined.

Definition connection_state_str (s : ConnectionState) : string :=
  match s with
  | PendingNode => "pending" | EnrolledNode => "enrolled" | ConnectedNode => "connected"
  | DisconnectedNode => "disconnected"
  end.

(** A row of [dev_nodes]. *)
Record NodeRow : Type := mkNodeRow {
  display_name : string;
  credential_kind : CredentialKind;
  public_key : option string;
  pending_public_key : option string;
  protocol : option Z;
  node_boot : option Uuid;
  connection_id : option Uuid;
  connection_state : ConnectionState;
  enrolled_at : option Z;
  connected_at : option Z;
  last_heartbeat_at : option Z;
  disconnected_at : option Z;
  updated_at : Z;
}.

Record Db : Type := mkDb {
  dev_nodes : gmap Uuid NodeRow;
  sessions : Sessions;
}.

Definition set_nodes (n : gmap Uuid NodeRow) (d : Db) : Db := mkDb n (sessions d).
Definition set_sessions (s : Sessions) (d : Db) : Db := mkDb (dev_nodes d) s.

(** [019d4f28-88ac-7a80-932c-b0f53a0708f4] *)
Definition DEDICATED_NODE_ID : Uuid := 0x019d4f2888ac7a80932cb0f53a0708f4%N.

(** ** Pairing *)

Definition pending_row (key : string) (now : Z) : NodeRow :=
  mkNodeRow "sulion-enclave" Ed25519 None (Some key) None None None PendingNode None None None None now.

Definition with_pending (key : string) (now : Z) (r : NodeRow) : NodeRow :=
  mkNodeRow (display_name r) (credential_kind r) (public_key r) (Some key) (protocol r) (node_boot r)
    (connection_id r) (if is_none (public_key r) then PendingNode else connection_state r)
    (enrolled_at r) (connected_at r) (last_heartbeat_at r) (disconnected_at r) now.

Definition request_pairing (node_id : Uuid) (key : string) (now : Z) (d : Db) : (unit + NodeError) * Db :=
  if negb (bool_decide (node_id = DEDICATED_NODE_ID)) || negb (byte_len key =? 32)
  then (inr AuthenticationFailed, d)
  else
    match dev_nodes d !! node_id with
    | None => (inl tt, set_nodes (<[node_id := pending_row key now]> (dev_nodes d)) d)
    | Some r =>
        if bool_decide (credential_kind r = Ed25519) && negb (bool_decide (pending_public_key r = Some key))
        then (inl tt, set_nodes (<[node_id := with_pending key now r]> (dev_nodes d)) d)
        else (inl tt, d)
    end.

(** What a session notes of a node that is gone, unless it noted it before. *)
Definition disconnect_binding (now : Z) (r : PtyRow) : PtyRow :=
  let b := pr_binding r in
  with_binding (mkBinding (nb_node b) (nb_boot b) (or_else (nb_disconnected_at b) (Some now)) (nb_devenv b)) r.

Definition on_node (node_id : Uuid) (r : PtyRow) : bool := bool_decide (nb_node (pr_binding r) = Some node_id).
Definition on_boot (boot_id : Uuid) (r : PtyRow) : bool := bool_decide (nb_boot (pr_binding r) = Some boot_id).

Definition mark_sessions_disconnected (node_id : Uuid) (now : Z) (w : Sessions) : Sessions :=
  update_rows (λ _ r, on_node node_id r && is_live r) (disconnect_binding now) w.

Definition approved_row (now : Z) (r : NodeRow) : NodeRow :=
  mkNodeRow (display_name r) (credential_kind r) (pending_public_key r) None (protocol r) (node_boot r)
    None EnrolledNode (Some now) (connected_at r) (last_heartbeat_at r) (Some now) now.

Definition store_approve_pairing (node_id : Uuid) (now : Z) (d : Db) : (unit + NodeError) * Db :=
  match dev_nodes d !! node_id with
  | Some r =>
      if bool_decide (credential_kind r = Ed25519) && is_some (pending_public_key r)
      then (inl tt, mkDb (<[node_id := approved_row now r]> (dev_nodes d))
                      (mark_sessions_disconnected node_id now (sessions d)))
      else (inr NotFound, d)
  | None => (inr NotFound, d)
  end.

Definition credential (node_id : Uuid) (d : Db) : option (option string * CredentialKind) :=
  r ← dev_nodes d !! node_id; Some (public_key r, credential_kind r).

(** ** Connections *)

(** The version is stored as an [i32]. *)
Definition connected_row (hello : NodeHello) (connection : Uuid) (now : Z) (r : NodeRow) : NodeRow :=
  mkNodeRow (display_name r) (credential_kind r) (public_key r) (pending_public_key r)
    (Some (wrap32 (h_protocol_version hello))) (Some (h_boot_id hello)) (Some connection) ConnectedNode
    (enrolled_at r) (Some now) (Some now) None now.

Definition record_connection (hello : NodeHello) (connection : Uuid) (now : Z) (d : Db) : (unit + NodeError) * Db :=
  match dev_nodes d !! h_node_id hello with
  | None => (inr UnknownNode, d)
  | Some r => (inl tt, set_nodes (<[h_node_id hello := connected_row hello connection now r]> (dev_nodes d)) d)
  end.

(** [WHERE id = $1 AND boot_id = $2 AND connection_id = $3] *)
Definition current_connection (boot connection : Uuid) (r : NodeRow) : bool :=
  bool_decide (node_boot r = Some boot) && bool_decide (connection_id r = Some connection).

Definition heartbeat_row (now : Z) (r : NodeRow) : NodeRow :=
  mkNodeRow (display_name r) (credential_kind r) (public_key r) (pending_public_key r) (protocol r) (node_boot r)
    (connection_id r) ConnectedNode (enrolled_at r) (connected_at r) (Some now) None now.

(** The two statements that adopt what the node reports live. *)
Definition adopt_sessions (node_id boot : Uuid) (live : list string) (w : Sessions) : Sessions :=
  let w := update_rows (λ id r, on_node node_id r && is_live r && bool_decide (id ∈ live) && negb (on_boot boot r))
             (λ r, let b := pr_binding r in with_binding (mkBinding (nb_node b) (Some boot) None (nb_devenv b)) r) w in
  update_rows (λ id r, on_node node_id r && on_boot boot r && is_live r && bool_decide (id ∈ live)
                       && is_some (nb_disconnected_at (pr_binding r)))
    (λ r, let b := pr_binding r in with_binding (mkBinding (nb_node b) (nb_boot b) None (nb_devenv b)) r) w.

Definition orphaned_row (now : Z) (r : PtyRow) : PtyRow :=
  let l := pr_life r in
  let b := pr_binding r in
  with_binding (mkBinding (nb_node b) (nb_boot b) None (nb_devenv b))
    (with_runtime (runtime_exited_kept now (pr_runtime r))
      (with_life (mkLife Orphaned (or_else (lf_ended_at l) (Some now)) (lf_exit_code l)
                    (Some "node_inventory_missing")) r)).

Definition reconcile_missing_sessions (node_id : Uuid) (live : list string) (now : Z) (w : Sessions) : Sessions :=
  update_rows (λ id r, on_node node_id r && is_live r && negb (bool_decide (id ∈ live))) (orphaned_row now) w.

Definition heartbeat (node_id boot connection : Uuid) (live : list string) (inventory_complete : bool) (now : Z)
    (d : Db) : bool * Db :=
  match dev_nodes d !! node_id with
  | Some r =>
      if current_connection boot connection r then
        let w := sessions d in
        let w := if bool_decide (live = []) then w else adopt_sessions node_id boot live w in
        let w := if inventory_complete then reconcile_missing_sessions node_id live now w else w in
        (true, mkDb (<[node_id := heartbeat_row now r]> (dev_nodes d)) w)
      else (false, d)
  | None => (false, d)
  end.

Definition disconnected_row (now : Z) (r : NodeRow) : NodeRow :=
  mkNodeRow (display_name r) (credential_kind r) (public_key r) (pending_public_key r) (protocol r) (node_boot r)
    None DisconnectedNode (enrolled_at r) (connected_at r) (last_heartbeat_at r) (Some now) now.

(** The sessions of a boot that lost its connection. *)
Definition disconnect_sessions (node_id boot : Uuid) (now : Z) (w : Sessions) : Sessions :=
  update_rows (λ _ r, on_node node_id r && on_boot boot r && is_live r) (disconnect_binding now) w.

Definition store_disconnect (node_id boot connection : Uuid) (now : Z) (d : Db) : bool * Db :=
  match dev_nodes d !! node_id with
  | Some r =>
      if current_connection boot connection r
      then (true, mkDb (<[node_id := disconnected_row now r]> (dev_nodes d))
                    (disconnect_sessions node_id boot now (sessions d)))
      else (false, d)
  | None => (false, d)
  end.

(** A connection whose node is silent since before the cutoff. *)
Definition expired (cutoff : Z) (r : NodeRow) : option (Uuid * Uuid) :=
  match node_boot r, connection_id r, last_heartbeat_at r with
  | Some boot, Some connection, Some at_ =>
      if bool_decide (connection_state r = ConnectedNode) && (at_ <? cutoff) then Some (boot, connection) else None
  | _, _, _ => None
  end.

Definition expire_one (now : Z) (d : Db) (item : Uuid * (Uuid * Uuid)) : Db :=
  let '(id, (boot, connection)) := item in
  let nodes := match dev_nodes d !! id with
               | Some r => if current_connection boot connection r
                           then <[id := disconnected_row now r]> (dev_nodes d) else dev_nodes d
               | None => dev_nodes d
               end in
  mkDb nodes (disconnect_sessions id boot now (sessions d)).

Definition expired_connections (cutoff : Z) (d : Db) : list (Uuid * (Uuid * Uuid)) :=
  map_to_list (omap (expired cutoff) (dev_nodes d)).

(** Times are microseconds. *)
Definition expire_heartbeats (timeout_seconds now : Z) (d : Db) : list (Uuid * (Uuid * Uuid)) * Db :=
  let items := expired_connections (now - timeout_seconds * 1000000) d in
  (items, foldl (expire_one now) d items).

(** ** Standalone *)

Definition validate_display_name (value : string) : string + NodeError :=
  let value := trim value in
  if is_empty value || (80 <? byte_len value) || existsb is_control (chars value)
  then inr (InvalidRequest "display_name must be 1-80 printable characters")
  else inl value.

Definition internal_row (name : string) (now : Z) : NodeRow :=
  mkNodeRow name Internal None None None None None EnrolledNode (Some now) None None None now.

Definition ensure_internal_node (node_id : Uuid) (name : string) (now : Z) (d : Db)
    : (unit + NodeError) * Db :=
  match validate_display_name name with
  | inr e => (inr e, d)
  | inl name =>
      match dev_nodes d !! node_id with
      | None => (inl tt, set_nodes (<[node_id := internal_row name now]> (dev_nodes d)) d)
      | Some r =>
          if bool_decide (credential_kind r = Internal)
          then (inl tt, set_nodes (<[node_id :=
                  mkNodeRow name (credential_kind r) (public_key r) (pending_public_key r) (protocol r)
                    (node_boot r) (connection_id r) (connection_state r) (enrolled_at r) (connected_at r)
                    (last_heartbeat_at r) (disconnected_at r) now]> (dev_nodes d)) d)
          else (inr (InvalidRequest "standalone node ID belongs to the remote development node"), d)
      end
  end.

(** [public_key_fingerprint], with the digest and the encoding left to [ring]
    and [base64]. *)
Definition fingerprint (sha256_base64 : string → string) (key : string) : string := "SHA256:" +:+ sha256_base64 key.
