(* ===== verification/NodeControl.v ===== *)
(** * The control plane of the nodes

    [node_protocol/mod.rs] and the connection handler of
    [node_protocol/transport.rs]: how a node is admitted, what its envelopes
    do, and when its connection ends. A handler that writes the database and
    then what the process holds takes two steps, between which others may
    run; every other handler is one. *)

From S2P Require Import Prelude Text Json Activity PtySessions NodeWire NodeLan NodeTrust NodeStore.

Definition DEFAULT_HEARTBEAT_INTERVAL_SECS : Z := 5.
Definition DEFAULT_HEARTBEAT_TIMEOUT_SECS : Z := 20.

(** [cpu_percent] by its bits. *)
Record NodeHostStats : Type := mkHostStats {
  memory_used_bytes : Z;
  memory_total_bytes : Z;
  cpu_percent : Z;
}.

Record NodeDevenvStatus : Type := mkDevenvStatus {
  current_ident : string;
  current_connected : bool;
  connected_idents : list string;
}.

Record HeartbeatPayload : Type := mkHeartbeat {
  live_session_ids : list string;
  inventory_complete : bool;
  hb_host : option NodeHostStats;
  hb_devenv : option NodeDevenvStatus;
}.

(** [succeeded] is the status. *)
Record RequestResultPayload : Type := mkResult {
  succeeded : bool;
  rr_result : option Value;
  rr_error_code : option string;
  rr_error_message : option string;
}.

Inductive TerminalEvent : Type :=
  | TSnapshot (data : string) | TOutput (data : string) | TReady | TDead (code : option Z) | TDisconnected.

(** The payloads of the kinds a node sends, as serde reads them. *)
Class Payloads : Type := {
  heartbeat_of : Value → option HeartbeatPayload;
  result_of : Value → option RequestResultPayload;
  bytes_of : Value → option string;
  dead_of : Value → option (option Z);
}.

Record ActiveConnection : Type := mkActive { ac_connection : Uuid; ac_boot : Uuid }.

(** What a handler that has written the database has still to do to the
    connections held: nothing is locked across the two. *)
Inductive Later : Type :=
  | Hold (node : Uuid) (a : ActiveConnection)
  | CancelActive (node : Uuid)
  | DropExpired (items : list (Uuid * (Uuid * Uuid))).

(** What the process holds: the connections by node, those told to end, what
    was queued for each, the requests waited for and the answers handed to
    them, the events queued for each open terminal, the latest samples, and
    what the handlers under way have still to do. *)
Record Control : Type := mkControl {
  ct_db : Db;
  ct_active : gmap Uuid ActiveConnection;
  ct_canceled : gset Uuid;
  ct_outbound : list (Uuid * WireEnvelope);
  ct_waiters : gset Uuid;
  ct_answers : gmap Uuid RequestResultPayload;
  ct_streams : gmap Uuid (list TerminalEvent);
  ct_host_stats : gmap Uuid NodeHostStats;
  ct_devenv_status : gmap Uuid NodeDevenvStatus;
  ct_later : list Later;
}.

Definition with_db (d : Db) (c : Control) : Control :=
  mkControl d (ct_active c) (ct_canceled c) (ct_outbound c) (ct_waiters c) (ct_answers c) (ct_streams c)
    (ct_host_stats c) (ct_devenv_status c) (ct_later c).
Definition with_active (a : gmap Uuid ActiveConnection) (canceled : gset Uuid) (c : Control) : Control :=
  mkControl (ct_db c) a canceled (ct_outbound c) (ct_waiters c) (ct_answers c) (ct_streams c)
    (ct_host_stats c) (ct_devenv_status c) (ct_later c).
Definition with_outbound (o : list (Uuid * WireEnvelope)) (c : Control) : Control :=
  mkControl (ct_db c) (ct_active c) (ct_canceled c) o (ct_waiters c) (ct_answers c) (ct_streams c)
    (ct_host_stats c) (ct_devenv_status c) (ct_later c).
Definition with_requests (w : gset Uuid) (a : gmap Uuid RequestResultPayload) (c : Control) : Control :=
  mkControl (ct_db c) (ct_active c) (ct_canceled c) (ct_outbound c) w a (ct_streams c)
    (ct_host_stats c) (ct_devenv_status c) (ct_later c).
Definition with_streams (s : gmap Uuid (list TerminalEvent)) (c : Control) : Control :=
  mkControl (ct_db c) (ct_active c) (ct_canceled c) (ct_outbound c) (ct_waiters c) (ct_answers c) s
    (ct_host_stats c) (ct_devenv_status c) (ct_later c).
Definition with_samples (h : gmap Uuid NodeHostStats) (s : gmap Uuid NodeDevenvStatus) (c : Control) : Control :=
  mkControl (ct_db c) (ct_active c) (ct_canceled c) (ct_outbound c) (ct_waiters c) (ct_answers c) (ct_streams c) h s
    (ct_later c).
Definition with_later (l : list Later) (c : Control) : Control :=
  mkControl (ct_db c) (ct_active c) (ct_canceled c) (ct_outbound c) (ct_waiters c) (ct_answers c) (ct_streams c)
    (ct_host_stats c) (ct_devenv_status c) l.
Definition later (l : Later) (c : Control) : Control := with_later (ct_later c ++ [l]) c.

(** Nothing is held when the process starts. *)
Definition started (d : Db) : Control := mkControl d ∅ ∅ [] ∅ ∅ ∅ ∅ ∅ [].

Record RegisteredConnection : Type := mkRegistered {
  rc_connection : Uuid;
  rc_node : Uuid;
  rc_boot : Uuid;
  rc_nonce : string;
  rc_ack : HelloAck;
}.

Section control.
Context `{UuidText, Crypto, Payloads}.

(** What [apply_policy] set at the start. *)
Record Policy : Type := mkControlPolicy {
  po_identity : option ControlIdentity;
  po_tls_digest : option string;
  po_config : option NodeRuntimeConfig;
  po_source : NodeSourcePolicy;
  po_interval : Z;
  po_timeout : Z;
}.

Variable policy : Policy.

(** ** Admission *)

Definition validate_hello (hello : NodeHello) : bool := h_protocol_version hello =? NODE_PROTOCOL_VERSION.

(** The 32 bytes of a key. *)
Definition decode_node_public_key (value : string) : option string :=
  decoded ← b64url_decode value;
  if byte_len decoded =? 32 then Some decoded else None.

(** The key the signature must be by, and the key the hello offers. *)
Definition handshake_keys (hello : NodeHello) (credential : option (option string * CredentialKind))
    : (string * option string) + NodeError :=
  match h_public_key hello with
  | Some text =>
      match decode_node_public_key text with
      | Some offered => inl (offered, Some offered)
      | None => inr AuthenticationFailed
      end
  | None =>
      match credential ≫= fst with
      | Some key => inl (key, None)
      | None => inr AuthenticationFailed
      end
  end.

Definition hello_signed (key : string) (hello : NodeHello) (challenge : ControlChallenge) : bool :=
  match b64url_decode (h_signature hello) with
  | Some s => ed25519_verify key (hello_signing_payload hello challenge) s
  | None => false
  end.

Definition hello_ack (proof : option ControlHelloProof) : HelloAck :=
  mkAck NODE_PROTOCOL_VERSION (po_interval policy) proof.

(** Up to the commit of the row: the connection is held later. *)
Definition register (hello : NodeHello) (proof : option ControlHelloProof) (connection : Uuid) (now : Z)
    (c : Control) : (RegisteredConnection + NodeError) * Control :=
  if negb (validate_hello hello) then (inr AuthenticationFailed, c)
  else
    match record_connection hello connection now (ct_db c) with
    | (inr e, d) => (inr e, with_db d c)
    | (inl _, d) =>
        let node := h_node_id hello in
        (inl (mkRegistered connection node (h_boot_id hello) (NodeWire.node_nonce hello) (hello_ack proof)),
         later (Hold node (mkActive connection (h_boot_id hello))) (with_db d c))
    end.

(** The connection this one replaces is told to end. *)
Definition hold (node : Uuid) (a : ActiveConnection) (c : Control) : Control :=
  let canceled := match ct_active c !! node with
                  | Some previous => {[ac_connection previous]} ∪ ct_canceled c
                  | None => ct_canceled c
                  end in
  with_active (<[node := a]> (ct_active c)) canceled c.

Definition authenticate_and_register (hello : NodeHello) (challenge : ControlChallenge) (connection : Uuid) (now : Z)
    (c : Control) : (RegisteredConnection + NodeError) * Control :=
  if negb (validate_hello hello) then (inr AuthenticationFailed, c)
  else
    let cred := credential (h_node_id hello) (ct_db c) in
    if match cred with Some (_, kind) => negb (bool_decide (kind = Ed25519)) | None => false end
       || negb (h_protocol_version hello =? ch_protocol_version challenge)
    then (inr AuthenticationFailed, c)
    else
      match handshake_keys hello cred with
      | inr e => (inr e, c)
      | inl (key, offered) =>
          if negb (hello_signed key hello challenge) then (inr AuthenticationFailed, c)
          else
            let proof := (λ i, prove_handshake i challenge hello (po_tls_digest policy)) <$> po_identity policy in
            match offered with
            | Some offered =>
                if bool_decide (cred ≫= fst = Some offered) then register hello proof connection now c
                else
                  match request_pairing (h_node_id hello) offered now (ct_db c) with
                  | (inr e, d) => (inr e, with_db d c)
                  | (inl _, d) => (inr PairingRequired, with_db d c)
                  end
            | None => register hello proof connection now c
            end
      end.

Definition register_internal (hello : NodeHello) (connection : Uuid) (now : Z) (c : Control)
    : (RegisteredConnection + NodeError) * Control :=
  if negb (validate_hello hello) then (inr AuthenticationFailed, c)
  else register hello None connection now c.

(** [loopback.rs]: the node of the process itself. *)
Definition start_loopback (node : Uuid) (name : string) (boot connection : Uuid) (now : Z) (c : Control)
    : (RegisteredConnection + NodeError) * Control :=
  match ensure_internal_node node name now (ct_db c) with
  | (inr e, d) => (inr e, with_db d c)
  | (inl _, d) =>
      register_internal (mkHello node boot NODE_PROTOCOL_VERSION None "" "") connection now (with_db d c)
  end.

(** [deliver_node_config] of [transport.rs]. *)
Definition delivered_payload (r : RegisteredConnection) : NodeConfigPayload :=
  match po_config policy with
  | Some config =>
      let p := config_payload config in
      mkConfigPayload (cp_digest p) (cp_values p)
        ((λ i, sign_config i (cp_digest p) (rc_nonce r)) <$> po_identity policy)
  | None => empty_payload
  end.

(** ** Ends *)

Definition forget_samples (node : Uuid) (c : Control) : Control :=
  with_samples (delete node (ct_host_stats c)) (delete node (ct_devenv_status c)) c.

Definition cancel_active (node : Uuid) (c : Control) : Control :=
  match ct_active c !! node with
  | Some a =>
      forget_samples node (with_active (delete node (ct_active c)) ({[ac_connection a]} ∪ ct_canceled c) c)
  | None => c
  end.

(** Up to the commit of the approval. *)
Definition approve_pairing (node : Uuid) (now : Z) (c : Control) : (unit + NodeError) * Control :=
  match store_approve_pairing node now (ct_db c) with
  | (inl _, d) => (inl tt, later (CancelActive node) (with_db d c))
  | (inr e, d) => (inr e, with_db d c)
  end.

(** [mpsc::channel(256)]: a full queue refuses the event. *)
Definition STREAM_CAPACITY : nat := 256.

Definition try_send (stream : Uuid) (e : TerminalEvent) (c : Control) : bool * Control :=
  match ct_streams c !! stream with
  | Some queue =>
      if (length queue <? STREAM_CAPACITY)%nat
      then (true, with_streams (<[stream := queue ++ [e]]> (ct_streams c)) c)
      else (false, with_streams (delete stream (ct_streams c)) c)
  | None => (true, c)
  end.

(** Every open terminal is told, whichever node it belongs to. *)
Definition disconnected (node boot connection : Uuid) (now : Z) (c : Control) : Control :=
  let c := match ct_active c !! node with
           | Some a =>
               if bool_decide (ac_connection a = connection)
               then forget_samples node (with_active (delete node (ct_active c)) (ct_canceled c) c)
               else c
           | None => c
           end in
  let c := foldl (λ c stream, (try_send stream TDisconnected c).2) c (map_to_list (ct_streams c)).*1 in
  with_db (store_disconnect node boot connection now (ct_db c)).2 c.

Definition expire_active (c : Control) (item : Uuid * (Uuid * Uuid)) : Control :=
  let '(node, (_, connection)) := item in
  match ct_active c !! node with
  | Some a =>
      if bool_decide (ac_connection a = connection)
      then with_active (delete node (ct_active c)) ({[connection]} ∪ ct_canceled c) c
      else c
  | None => c
  end.

(** Up to the commit of the expiry. *)
Definition expire_heartbeats_at (now : Z) (c : Control) : nat * Control :=
  let '(items, d) := expire_heartbeats (po_timeout policy) now (ct_db c) in
  let c := with_db d c in
  (length items, if bool_decide (items = []) then c else later (DropExpired items) c).

(** What a handler under way does next. *)
Definition settle (l : Later) (c : Control) : Control :=
  match l with
  | Hold node a => hold node a c
  | CancelActive node => cancel_active node c
  | DropExpired items => foldl expire_active c items
  end.

(** ** Envelopes *)

Definition active_boot (node : Uuid) (c : Control) : option Uuid := ac_boot <$> ct_active c !! node.

(** The queue of a connection outlives neither its socket nor this process. *)
Definition send_envelope (node : Uuid) (e : WireEnvelope) (c : Control) : (unit + NodeError) * Control :=
  match ct_active c !! node with
  | Some a => (inl tt, with_outbound (ct_outbound c ++ [(ac_connection a, e)]) c)
  | None => (inr Unavailable, c)
  end.

Definition validate_active (connection : Uuid) (e : WireEnvelope) (c : Control) : unit + NodeError :=
  if negb (protocol_version e =? NODE_PROTOCOL_VERSION) then inr AuthenticationFailed
  else
    match ct_active c !! node_id e with
    | None => inr Unavailable
    | Some a =>
        if negb (bool_decide (ac_connection a = connection)) || negb (bool_decide (ac_boot a = boot_id e))
        then inr AuthenticationFailed
        else inl tt
    end.

Definition detach_envelope (node boot stream message : Uuid) : WireEnvelope :=
  mkEnvelope NODE_PROTOCOL_VERSION node boot message "terminal.detach" None None (Some stream) None (Object []).

Definition terminal_event (e : WireEnvelope) : option TerminalEvent + NodeError :=
  let kind := message_kind e in
  if bool_decide (kind = "terminal.snapshot") then
    match bytes_of (payload e) with Some b => inl (Some (TSnapshot b)) | None => inr (InvalidRequest "bytes") end
  else if bool_decide (kind = "terminal.output") then
    match bytes_of (payload e) with Some b => inl (Some (TOutput b)) | None => inr (InvalidRequest "bytes") end
  else if bool_decide (kind = "terminal.ready") then inl (Some TReady)
  else if bool_decide (kind = "terminal.dead") then inl (Some (TDead (default None (dead_of (payload e)))))
  else inl None.

(** A terminal that does not keep up is let go, and the node told. *)
Definition receive_terminal_event (e : WireEnvelope) (message : Uuid) (c : Control) : (unit + NodeError) * Control :=
  match stream_id e with
  | None => (inr (InvalidRequest "terminal event requires stream_id"), c)
  | Some stream =>
      match terminal_event e with
      | inr err => (inr err, c)
      | inl None => (inl tt, c)
      | inl (Some event) =>
          let '(sent, c) := try_send stream event c in
          if sent then (inl tt, c)
          else
            match active_boot (node_id e) c with
            | None => (inl tt, c)
            | Some boot => (inl tt, (send_envelope (node_id e) (detach_envelope (node_id e) boot stream message) c).2)
            end
      end
  end.

Definition receive_envelope (connection : Uuid) (e : WireEnvelope) (message : Uuid) (now : Z) (c : Control)
    : (unit + NodeError) * Control :=
  match validate_active connection e c with
  | inr err => (inr err, c)
  | inl _ =>
      let kind := message_kind e in
      if bool_decide (kind = "node.heartbeat") then
        match heartbeat_of (payload e) with
        | None => (inr (InvalidRequest "heartbeat"), c)
        | Some p =>
            let '(current, d) := heartbeat (node_id e) (boot_id e) connection (live_session_ids p)
                                   (inventory_complete p) now (ct_db c) in
            let c := with_db d c in
            if negb current then (inr Unavailable, c)
            else
              let h := match hb_host p with Some s => <[node_id e := s]> (ct_host_stats c) | None => ct_host_stats c end in
              let s := match hb_devenv p with Some s => <[node_id e := s]> (ct_devenv_status c)
                       | None => ct_devenv_status c end in
              (inl tt, with_samples h s c)
        end
      else if bool_decide (kind = "request.result") then
        match request_id e with
        | None => (inr (InvalidRequest "request.result requires request_id"), c)
        | Some id =>
            match result_of (payload e) with
            | None => (inr (InvalidRequest "result"), c)
            | Some p =>
                if bool_decide (id ∈ ct_waiters c)
                then (inl tt, with_requests (ct_waiters c ∖ {[id]}) (<[id := p]> (ct_answers c)) c)
                else (inl tt, c)
            end
        end
      else if bool_decide (kind ∈ ["terminal.snapshot"; "terminal.output"; "terminal.ready"; "terminal.dead"])
      then receive_terminal_event e message c
      else (inl tt, c)
  end.

(** ** Requests *)

Definition request_envelope (node boot request message : Uuid) (kind : NodeRequestKind) (p : Value) : WireEnvelope :=
  mkEnvelope NODE_PROTOCOL_VERSION node boot message "request" (Some request) None None None
    (json_object [("kind", Str (request_kind_str kind)); ("request", p)]).

(** The wait is registered before the envelope is sent. *)
Definition request_begin (node request message : Uuid) (kind : NodeRequestKind) (p : Value) (c : Control)
    : (unit + NodeError) * Control :=
  match active_boot node c with
  | None => (inr Unavailable, c)
  | Some boot =>
      let c := with_requests ({[request]} ∪ ct_waiters c) (ct_answers c) c in
      match send_envelope node (request_envelope node boot request message kind p) c with
      | (inl _, c) => (inl tt, c)
      | (inr e, c) => (inr e, with_requests (ct_waiters c ∖ {[request]}) (ct_answers c) c)
      end
  end.

(** At the timeout, or when the answer came. *)
Definition request_end (request : Uuid) (c : Control) : (Value + NodeError) * Control :=
  match ct_answers c !! request with
  | None => (inr Unavailable, c)
  | Some p =>
      let c := with_requests (ct_waiters c) (delete request (ct_answers c)) c in
      if succeeded p then (inl (default Null (rr_result p)), c)
      else (inr (Remote (default "request_failed" (rr_error_code p))
                   (default "node request failed" (rr_error_message p))), c)
  end.

(** ** Terminals and samples *)

Definition open_terminal (node stream message : Uuid) (session : Uuid) (c : Control) : (unit + NodeError) * Control :=
  match active_boot node c with
  | None => (inr Unavailable, c)
  | Some boot =>
      let c := with_streams (<[stream := []]> (ct_streams c)) c in
      let e := mkEnvelope NODE_PROTOCOL_VERSION node boot message "terminal.attach" None (Some session) (Some stream)
                 None (Object []) in
      match send_envelope node e c with
      | (inl _, c) => (inl tt, c)
      | (inr err, c) => (inr err, with_streams (delete stream (ct_streams c)) c)
      end
  end.

Definition close_terminal (node stream message : Uuid) (c : Control) : Control :=
  let c := with_streams (delete stream (ct_streams c)) c in
  match active_boot node c with
  | None => c
  | Some boot => (send_envelope node (detach_envelope node boot stream message) c).2
  end.

(** The receiver of an attachment takes the next event. *)
Definition take_event (stream : Uuid) (c : Control) : option TerminalEvent * Control :=
  match ct_streams c !! stream with
  | Some (e :: queue) => (Some e, with_streams (<[stream := queue]> (ct_streams c)) c)
  | _ => (None, c)
  end.

(** The sample of an active connection. *)
Definition host_stats (c : Control) : option NodeHostStats :=
  head (omap (λ n, ct_host_stats c !! n) (map_to_list (ct_active c)).*1).

Definition devenv_status (c : Control) : option NodeDevenvStatus :=
  head (omap (λ n, ct_devenv_status c !! n) (map_to_list (ct_active c)).*1).

Definition first_available_node (c : Control) : option Uuid :=
  foldl (λ least n, Some (match least with Some l => N.min l n | None => n end)) None (map_to_list (ct_active c)).*1.

(** ** The process *)

Inductive Event : Type :=
  | EvHello (hello : NodeHello) (challenge : ControlChallenge) (connection : Uuid)
  | EvLoopback (node : Uuid) (name : string) (boot connection : Uuid)
  | EvApprove (node : Uuid)
  | EvEnvelope (connection : Uuid) (e : WireEnvelope) (message : Uuid)
  | EvDisconnected (node boot connection : Uuid)
  | EvExpire
  | EvRequest (node request message : Uuid) (kind : NodeRequestKind) (p : Value)
  | EvAnswer (request : Uuid)
  | EvOpen (node stream message session : Uuid)
  | EvClose (node stream message : Uuid)
  | EvTake (stream : Uuid)
  | EvSettle (k : nat).

Inductive Result : Type :=
  | Registered (r : RegisteredConnection)
  | Done
  | Refused (e : NodeError).

Definition result_of_unit (r : unit + NodeError) : Result := match r with inl _ => Done | inr e => Refused e end.
Definition result_of_hello (r : RegisteredConnection + NodeError) : Result :=
  match r with inl r => Registered r | inr e => Refused e end.

Definition handle (ev : Event) (now : Z) (c : Control) : Result * Control :=
  match ev with
  | EvHello hello challenge connection =>
      let '(r, c) := authenticate_and_register hello challenge connection now c in (result_of_hello r, c)
  | EvLoopback node name boot connection =>
      let '(r, c) := start_loopback node name boot connection now c in (result_of_hello r, c)
  | EvApprove node => let '(r, c) := approve_pairing node now c in (result_of_unit r, c)
  | EvEnvelope connection e message =>
      let '(r, c) := receive_envelope connection e message now c in (result_of_unit r, c)
  | EvDisconnected node boot connection => (Done, disconnected node boot connection now c)
  | EvExpire => (Done, (expire_heartbeats_at now c).2)
  | EvRequest node request message kind p =>
      let '(r, c) := request_begin node request message kind p c in (result_of_unit r, c)
  | EvAnswer request =>
      let '(r, c) := request_end request c in (match r with inl _ => Done | inr e => Refused e end, c)
  | EvOpen node stream message session =>
      let '(r, c) := open_terminal node stream message session c in (result_of_unit r, c)
  | EvClose node stream message => (Done, close_terminal node stream message c)
  | EvTake stream => (Done, (take_event stream c).2)
  | EvSettle k =>
      match ct_later c !! k with
      | Some l => (Done, settle l (with_later (delete k (ct_later c)) c))
      | None => (Done, c)
      end
  end.

(** What happened, the latest last. [EvSettle] is the second step of the
    handler that is [k]th among those under way. *)
Fixpoint run (evs : list (Event * Z)) (c : Control) : list (Event * Result) * Control :=
  match evs with
  | [] => ([], c)
  | (ev, now) :: evs =>
      let '(r, c) := handle ev now c in
      let '(rs, c) := run evs c in ((ev, r) :: rs, c)
  end.
End control.
