(* ===== verification/NodeGuarantees.v ===== *)
(** * What the node connection guarantees

    Messages cut into fragments arrive whole in any order, what a connection
    sends cannot make the other side hold more than its limits, and a socket
    is admitted for the address it really comes from. *)

From S2P Require Import Prelude Text Json NodeWire Reassembly NodeLan.

Lemma push_all_ok `{W : Wire} es a : assembler_ok a →
  assembler_ok (push_all a es).2 ∧ Forall (λ r, ¬ panics r) (push_all a es).1.
Proof.
  revert a. induction es as [|e es IH]; intros a Ha; [by split; [|constructor]|].
  cbn [push_all]. destruct (push_ok a e Ha) as [Ha' Hr]. destruct (push a e) as [r a']. cbn in Ha', Hr.
  destruct (is_ok r).
  - destruct (IH a' Ha') as [Hi Hp]. destruct (push_all a' es) as [rs a'']. by split; [|constructor].
  - by split; [|constructor].
Qed.

(** C40. Messages are fragmented and reassembled: up to sixteen messages that
    fit the limit of reassembly together are all cut without refusal, and
    when their frames arrive - whatever the interleaving and the order -
    every message comes out once, as it was sent, no frame is refused, and
    the assembler holds nothing in the end. *)
Theorem messages_reassembled `{W : Wire} `{!WireLaws W} msgs :
  NoDup (message_id <$> msgs) → Z.of_nat (length msgs) ≤ MAX_FRAGMENT_GROUPS →
  total (λ m, byte_len (to_vec m)) msgs ≤ MAX_REASSEMBLED_MESSAGE_BYTES →
  (∀ m, m ∈ msgs → from_slice (to_vec m) = Some m ∧ message_kind m ≠ "protocol.fragment") →
  ∃ frames, try_map fragment_envelope msgs = Ok frames ∧
    ∀ stream, mjoin frames ≡ₚ stream →
      ∃ outs, push_all empty_assembler stream = (Ok <$> outs, empty_assembler) ∧ omap id outs ≡ₚ msgs.
Proof.
  intros Hids Hcount Hbytes Hm. exists (pieces <$> msgs). split.
  - apply try_map_Forall2, Forall2_fmap_r, Forall_Forall2_diag, Forall_forall. intros m Hin.
    apply fragment_pieces. by eapply message_bytes.
  - intros stream Hs. eapply all_delivered; try done; intros m Hin; by destruct (Hm m Hin).
Qed.

(** C32. Whatever envelopes a connection sends, the assembler never panics and
    never holds more than sixteen incomplete messages of at most 1024 parts,
    nor more bytes than the limit of reassembly; the bytes it accounts for
    are the bytes of the parts it holds, and no message it holds is
    complete. *)
Theorem assembler_bounded `{W : Wire} es :
  let '(outcomes, a) := push_all empty_assembler es in
  Forall (λ r, ¬ panics r) outcomes ∧
  Z.of_nat (size (groups a)) ≤ MAX_FRAGMENT_GROUPS ∧
  held_bytes a ≤ MAX_REASSEMBLED_MESSAGE_BYTES ∧
  held_bytes a = total (λ g, total part_bytes (g_parts g)) (map_to_list (groups a)).*2 ∧
  ∀ id g, groups a !! id = Some g →
    1 ≤ g_total g ≤ MAX_FRAGMENTS_PER_MESSAGE ∧ length (g_parts g) = Z.to_nat (g_total g) ∧
    None ∈ g_parts g.
Proof.
  assert (H0 : assembler_ok empty_assembler).
  { split; [apply map_Forall_empty|done..]. }
  destruct (push_all_ok es _ H0) as [[Hg Hs Hh Hb] Hp].
  destruct (push_all empty_assembler es) as [outcomes a]. cbn in *. split_and!; [done..| |].
  - rewrite Hh. unfold held. apply total_ext. intros g ((id & g') & -> & Hin)%list_elem_of_fmap.
    apply elem_of_map_to_list in Hin. by apply Hg in Hin as [_ _ ? _].
  - intros id g Hin. apply Hg in Hin as [Ht Hl _ Hi]. split_and!; [lia..|done|].
    apply existsb_exists in Hi as (p & Hp' & Hn). destruct p; [done|]. by apply list_elem_of_In.
Qed.

(** Where a node may connect from: with the LAN and the proxies written
    as networks in CIDR notation, a socket is admitted as [client] exactly when
    [client] is inside the LAN - its leading bits are those of one of the
    networks - and is either the peer itself, when the peer is no configured
    proxy, or the first address the header forwards, when it is one. Without
    configured proxies no header counts. *)
Theorem lan_boundary lan_nets proxy_nets :
  lan_nets ≠ [] → Forall valid_net lan_nets → Forall valid_net proxy_nets →
  ∃ policy,
    policy_from_env (Some (join "," (cidr <$> lan_nets))) (Some (join "," (cidr <$> proxy_nets))) = Ok policy ∧
    ∀ peer forwarded client,
      admit_source policy peer forwarded = inl client ↔
      ∃ p, peer = Some p ∧ in_nets lan_nets client ∧
        (in_nets proxy_nets p ∧ forwarded_address forwarded = Some client ∨
         ¬ in_nets proxy_nets p ∧ client = p).
Proof.
  intros Hne Hl Hp. exists (mkPolicy (guard_of lan_nets) (guard_of proxy_nets)). split.
  { unfold policy_from_env. cbn [from_option]. unfold id. by rewrite (parse_guard_cidrs _ Hl), (parse_guard_cidrs _ Hp). }
  intros peer forwarded client. unfold admit_source. cbn [lan].
  replace (is_unrestricted (guard_of lan_nets)) with false by (symmetry; apply bool_decide_eq_false; by destruct lan_nets).
  destruct peer as [p|]; [|split; [done|by intros (? & ? & _)]].
  pose proof (trusts_nets (guard_of lan_nets) proxy_nets p Hp) as Ht.
  destruct (trusts_proxy _ p); [apply proj1 in Ht; specialize (Ht eq_refl)|
    assert (Hn : ¬ in_nets proxy_nets p) by (intros ?; by apply Ht in H)]; clear Hp.
  - destruct (forwarded_address forwarded) as [c|]; [|split; [done|]; naive_solver].
    pose proof (admits_nets lan_nets c Hl Hne) as Ha. destruct (admits _ c) eqn:E; split.
    + intros [= <-]. exists p. naive_solver.
    + intros (? & [= <-] & _ & [[_ [= <-]]|[? _]]); done.
    + done.
    + intros (? & [= <-] & Hc & [[_ [= <-]]|[? _]]); [|done]. by apply Ha in Hc.
  - pose proof (admits_nets lan_nets p Hl Hne) as Ha. destruct (admits _ p) eqn:E; split.
    + intros [= <-]. exists p. naive_solver.
    + by intros (? & [= <-] & _ & [[? _]|[_ ->]]).
    + done.
    + intros (? & [= <-] & Hc & [[? _]|[_ ->]]); [done|]. by apply Ha in Hc.
Qed.

(** ** Concrete instances *)

(** A wire with two texts: one that takes a single frame, and one that takes
    more than a frame holds. *)
Fixpoint repeat_byte (n : nat) (s : string) : string :=
  match n with O => s | S n => repeat_byte n (String "x" s) end.

Lemma byte_len_repeat n s : byte_len (repeat_byte n s) = Z.of_nat n + byte_len s.
Proof.
  revert s. induction n as [|n IH]; intros s; [done|]. cbn [repeat_byte]. rewrite IH.
  unfold byte_len. cbn [String.length]. lia.
Qed.

Definition demo_envelope (id : Uuid) (kind : string) : WireEnvelope :=
  mkEnvelope NODE_PROTOCOL_VERSION 1%N 2%N id kind None None None None Null.

Definition demo_text (e : WireEnvelope) : string :=
  if bool_decide (message_kind e = "snapshot") then repeat_byte (Z.to_nat 400000) "" else "input".

#[local] Instance demo_wire : Wire := {|
  encode s := s;
  decode s := Some s;
  to_vec := demo_text;
  from_slice s := if byte_len s =? 5 then Some (demo_envelope 7%N "input") else Some (demo_envelope 8%N "snapshot");
|}.

#[local] Instance demo_wire_laws : WireLaws demo_wire.
Proof. by constructor. Defined.

Lemma demo_bytes : byte_len (demo_text (demo_envelope 8%N "snapshot")) = 400000.
Proof.
  change (demo_text (demo_envelope 8%N "snapshot")) with (repeat_byte (Z.to_nat 400000) "").
  rewrite byte_len_repeat, Z2Nat.id by lia. reflexivity.
Qed.

Lemma demo_total : total (λ m, byte_len (to_vec m)) [demo_envelope 7%N "input"; demo_envelope 8%N "snapshot"] = 400005.
Proof.
  change (byte_len "input" + (byte_len (demo_text (demo_envelope 8%N "snapshot")) + 0) = 400005).
  rewrite demo_bytes. reflexivity.
Qed.

Lemma demo_read : from_slice (to_vec (demo_envelope 8%N "snapshot")) = Some (demo_envelope 8%N "snapshot").
Proof.
  change ((if byte_len (demo_text (demo_envelope 8%N "snapshot")) =? 5 then Some (demo_envelope 7%N "input")
           else Some (demo_envelope 8%N "snapshot")) = Some (demo_envelope 8%N "snapshot")).
  rewrite demo_bytes. reflexivity.
Qed.

Lemma messages_reassembled_witness :
  ∃ frames, try_map fragment_envelope [demo_envelope 7%N "input"; demo_envelope 8%N "snapshot"] = Ok frames ∧
    ∀ stream, mjoin frames ≡ₚ stream →
      ∃ outs, push_all empty_assembler stream = (Ok <$> outs, empty_assembler) ∧
        omap id outs ≡ₚ [demo_envelope 7%N "input"; demo_envelope 8%N "snapshot"].
Proof.
  apply messages_reassembled.
  - apply (bool_decide_unpack _). vm_compute. exact I.
  - vm_compute. discriminate.
  - rewrite demo_total. vm_compute. discriminate.
  - intros m [->|[->|[]%elem_of_nil]%elem_of_cons]%elem_of_cons; (split; [|discriminate]).
    + reflexivity.
    + exact demo_read.
Defined.

(** The networks [192.168.66.0/24] and [172.28.0.0/16]. *)
Lemma lan_boundary_witness :
  ∃ policy,
    policy_from_env (Some (join "," (cidr <$> [(3232252416, 24)])))
      (Some (join "," (cidr <$> [(2887516160, 16)]))) = Ok policy ∧
    ∀ peer forwarded client,
      admit_source policy peer forwarded = inl client ↔
      ∃ p, peer = Some p ∧ in_nets [(3232252416, 24)] client ∧
        (in_nets [(2887516160, 16)] p ∧ forwarded_address forwarded = Some client ∨
         ¬ in_nets [(2887516160, 16)] p ∧ client = p).
Proof.
  apply lan_boundary; [done|..]; repeat constructor; done.
Defined.

Example lan_text : join "," (cidr <$> [(3232252416, 24)]) = DEFAULT_NODE_LAN_CIDR.
Proof. vm_compute. reflexivity. Qed.
