(* ===== verification/NodeControlInv.v ===== *)
(** * Facts of the control plane

    Keys come from pairings an operator approved; connections are held one per
    node, and are the ones the database has when the handlers of the node do
    not overlap. *)

From S2P Require Import Prelude Text Json Activity PtySessions NodeWire NodeTrust NodeStore NodeControl.

(** The columns of a node that say who it is. *)
Definition keys (r : NodeRow) : CredentialKind * option string * option string :=
  (credential_kind r, public_key r, pending_public_key r).

Definition same_keys (n n' : gmap Uuid NodeRow) : Prop := ∀ id, keys <$> n' !! id = keys <$> n !! id.

Lemma same_keys_refl n : same_keys n n.
Proof. done. Qed.

Lemma same_keys_trans n1 n2 n3 : same_keys n1 n2 → same_keys n2 n3 → same_keys n1 n3.
Proof. intros H1 H2 id. by rewrite H2, H1. Qed.

Lemma same_keys_insert n id r r' : n !! id = Some r → keys r' = keys r → same_keys n (<[id := r']> n).
Proof.
  intros Hr Hk j. destruct (decide (j = id)) as [->|Hj]; [|by rewrite lookup_insert_ne].
  rewrite lookup_insert_eq, Hr. cbn. by rewrite Hk.
Qed.

Lemma record_connection_keys hello conn now d : same_keys (dev_nodes d) (dev_nodes (record_connection hello conn now d).2).
Proof.
  unfold record_connection. destruct (dev_nodes d !! _) as [r|] eqn:E; [|done].
  by eapply same_keys_insert.
Qed.

Lemma heartbeat_keys n b conn live full now d : same_keys (dev_nodes d) (dev_nodes (heartbeat n b conn live full now d).2).
Proof.
  unfold heartbeat. destruct (dev_nodes d !! n) as [r|] eqn:E; [|done].
  destruct (current_connection b conn r); [|done]. by eapply same_keys_insert.
Qed.

Lemma disconnect_keys n b conn now d : same_keys (dev_nodes d) (dev_nodes (store_disconnect n b conn now d).2).
Proof.
  unfold store_disconnect. destruct (dev_nodes d !! n) as [r|] eqn:E; [|done].
  destruct (current_connection b conn r); [|done]. by eapply same_keys_insert.
Qed.

Lemma expire_keys timeout now d : same_keys (dev_nodes d) (dev_nodes (expire_heartbeats timeout now d).2).
Proof.
  unfold expire_heartbeats. cbn [snd]. generalize (expired_connections (now - timeout * 1000000) d). intros l.
  revert d. induction l as [|[id [b conn]] l IH]; intros d; [done|]. cbn [foldl].
  eapply same_keys_trans; [|apply IH]. cbn. destruct (dev_nodes d !! id) as [r|] eqn:E; [|done].
  destruct (current_connection b conn r); [|done]. by eapply same_keys_insert.
Qed.

Section control.
Context `{UuidText, C : Crypto, Payloads}.
Variable policy : Policy.

(** ** Where keys come from *)

(** The hello offers [K], and is signed by it. *)
Definition proves (K : string) (hello : NodeHello) (challenge : ControlChallenge) : Prop :=
  hello_signed K hello challenge = true.

Definition offers (K : string) (hello : NodeHello) : Prop :=
  (h_public_key hello ≫= decode_node_public_key) = Some K.

(** A node asked to be paired with [K], and proved to hold it. *)
Definition offered (n : Uuid) (K : string) (hist : list (Event * Result)) : Prop :=
  ∃ hello challenge connection, (EvHello hello challenge connection, Refused PairingRequired) ∈ hist ∧
    h_node_id hello = n ∧ offers K hello ∧ proves K hello challenge.

(** An operator approved the node after it asked with [K]. *)
Definition approved (n : Uuid) (K : string) (hist : list (Event * Result)) : Prop :=
  ∃ h1 h2, hist = h1 ++ (EvApprove n, Done) :: h2 ∧ offered n K h1.

Definition keys_ok (nodes : gmap Uuid NodeRow) (hist : list (Event * Result)) : Prop :=
  ∀ n r, nodes !! n = Some r →
    (∀ K, pending_public_key r = Some K → offered n K hist) ∧
    (∀ K, public_key r = Some K → approved n K hist).

Lemma offered_app n K h h' : offered n K h → offered n K (h ++ h').
Proof. intros (hello & ch & conn & Hin & Hr). exists hello, ch, conn. split; [set_solver|done]. Qed.

Lemma approved_app n K h h' : approved n K h → approved n K (h ++ h').
Proof. intros (h1 & h2 & -> & Ho). exists h1, (h2 ++ h'). by rewrite <-app_assoc. Qed.

Lemma keys_ok_app nodes h h' : keys_ok nodes h → keys_ok nodes (h ++ h').
Proof. intros Hk n r Hr. destruct (Hk n r Hr) as [H1 H2]. split; intros K HK; [by apply offered_app, H1|by apply approved_app, H2]. Qed.

Lemma keys_ok_same nodes nodes' h : keys_ok nodes h → same_keys nodes nodes' → keys_ok nodes' h.
Proof.
  intros Hk Hs n r Hr. specialize (Hs n). rewrite Hr in Hs. symmetry in Hs.
  apply fmap_Some in Hs as (r' & Hr' & Hkeys). injection Hkeys as _ Hpub Hpend.
  destruct (Hk n r' Hr') as [H1 H2]. rewrite Hpub, Hpend. done.
Qed.

(** ** Admission *)

Lemma register_keys hello proof conn now c :
  same_keys (dev_nodes (ct_db c)) (dev_nodes (ct_db (register policy hello proof conn now c).2)).
Proof.
  unfold register. destruct (negb _); [done|].
  pose proof (record_connection_keys hello conn now (ct_db c)) as Hk.
  by destruct (record_connection hello conn now (ct_db c)) as [[] d].
Qed.

Lemma handshake_keys_spec hello cred K o : handshake_keys hello cred = inl (K, o) →
  match o with
  | Some K' => K' = K ∧ offers K hello
  | None => (cred ≫= fst) = Some K
  end.
Proof.
  unfold handshake_keys, offers. destruct (h_public_key hello) as [text|]; cbn.
  - destruct (decode_node_public_key text); [|done]. by intros [= -> <-].
  - destruct (cred ≫= fst); [|done]. by intros [= -> <-].
Qed.

Lemma with_db_id c : with_db (ct_db c) c = c.
Proof. by destruct c. Qed.

(** What a hello leads to: a connection for the key of the row, a request to
    be paired, or nothing. *)
Lemma authenticate_spec hello challenge conn now c r c' :
  authenticate_and_register policy hello challenge conn now c = (r, c') →
  (∃ e, r = inr e ∧ e ≠ PairingRequired ∧ c' = c) ∨
  (∃ K, r = inr PairingRequired ∧ offers K hello ∧ proves K hello challenge ∧
     c' = with_db (request_pairing (h_node_id hello) K now (ct_db c)).2 c) ∨
  (∃ K x proof, r = inl x ∧ (credential (h_node_id hello) (ct_db c) ≫= fst) = Some K ∧ proves K hello challenge ∧
     register policy hello proof conn now c = (r, c')).
Proof.
  unfold authenticate_and_register. destruct (negb _); [intros [= <- <-]; left; by eexists|].
  destruct (_ || _); [intros [= <- <-]; left; by eexists|].
  destruct (handshake_keys hello _) as [[K o]|e] eqn:Hh.
  2:{ intros [= <- <-]. left. exists e. split_and!; [done| |done]. unfold handshake_keys in Hh.
      destruct (h_public_key hello); [destruct (decode_node_public_key _)|destruct (_ ≫= fst)]; congruence. }
  apply handshake_keys_spec in Hh. destruct (hello_signed K hello challenge) eqn:Hs; [|intros [= <- <-]; left; by eexists].
  cbn [negb]. set (proof := (_ <$> po_identity policy)).
  assert (Hreg : (credential (h_node_id hello) (ct_db c) ≫= fst) = Some K → register policy hello proof conn now c = (r, c') →
    (∃ e, r = inr e ∧ e ≠ PairingRequired ∧ c' = c) ∨
    (∃ K x proof, r = inl x ∧ (credential (h_node_id hello) (ct_db c) ≫= fst) = Some K ∧ proves K hello challenge ∧
       register policy hello proof conn now c = (r, c'))).
  { intros HK Hr. destruct r as [x|e]; [right; by exists K, x, proof|left]. exists e.
    unfold register, record_connection in Hr. destruct (negb _); [by simplify_eq|].
    destruct (dev_nodes (ct_db c) !! _); simplify_eq. by rewrite with_db_id. }
  destruct o as [K'|]; [|intros Hr; destruct (Hreg Hh Hr); tauto]. destruct Hh as [-> Ho].
  case_bool_decide as HK; [intros Hr; destruct (Hreg HK Hr); tauto|].
  destruct (request_pairing _ K now (ct_db c)) as [[u|e] d] eqn:Hp; intros [= <- <-].
  - right; left. exists K. by rewrite Hp.
  - left. exists e. unfold request_pairing in Hp. destruct (_ || _).
    + injection Hp as <- <-. by rewrite with_db_id.
    + destruct (dev_nodes (ct_db c) !! _); [destruct (_ && _)|]; done.
Qed.

Lemma request_pairing_ok n K now d h : keys_ok (dev_nodes d) h → offered n K h →
  keys_ok (dev_nodes (request_pairing n K now d).2) h.
Proof.
  intros Hk Ho. unfold request_pairing. destruct (_ || _); [done|].
  destruct (dev_nodes d !! n) as [r|] eqn:E; [destruct (_ && _); [|done]|]; cbn; intros m x.
  - rewrite lookup_insert_Some. intros [[<- <-]|[_ Hx]]; [|by apply Hk]. destruct (Hk n r E) as [_ H2].
    split; [by intros ? [= <-]|done].
  - rewrite lookup_insert_Some. intros [[<- <-]|[_ Hx]]; [|by apply Hk]. by split; [intros ? [= <-]|].
Qed.

Lemma approve_ok n now d h : keys_ok (dev_nodes d) h →
  let '(r, d') := store_approve_pairing n now d in
  keys_ok (dev_nodes d') (h ++ [(EvApprove n, result_of_unit r)]).
Proof.
  intros Hk. unfold store_approve_pairing. destruct (dev_nodes d !! n) as [r|] eqn:E; [|by apply keys_ok_app].
  destruct (_ && _); [|by apply keys_ok_app]. cbn. intros m x.
  rewrite lookup_insert_Some. intros [[<- <-]|[_ Hx]]; [|by apply (keys_ok_app _ _ _ Hk)].
  split; [done|]. cbn. intros K HK. destruct (Hk n r E) as [H1 _]. exists h, []. split; [done|by apply H1].
Qed.

Lemma cancel_active_db n c : ct_db (cancel_active n c) = ct_db c.
Proof. unfold cancel_active. by destruct (ct_active c !! n). Qed.

Lemma send_envelope_db n e c : ct_db (send_envelope n e c).2 = ct_db c.
Proof. unfold send_envelope. by destruct (ct_active c !! n). Qed.

Lemma try_send_db s e c : ct_db (try_send s e c).2 = ct_db c.
Proof. unfold try_send. destruct (ct_streams c !! s); [|done]. by destruct (_ <? _)%nat. Qed.

Lemma receive_terminal_db e m c : ct_db (receive_terminal_event e m c).2 = ct_db c.
Proof.
  unfold receive_terminal_event. destruct (stream_id e) as [u|]; [|done]. destruct (terminal_event e) as [[ev|]|]; [|done..].
  pose proof (try_send_db u ev c) as Hs. destruct (try_send u ev c) as [[] c1]; [done|].
  destruct (active_boot _ c1); [|done]. cbn. by rewrite send_envelope_db.
Qed.

Lemma expire_active_db c items : ct_db (foldl expire_active c items) = ct_db c.
Proof.
  revert c. induction items as [|[n [b conn]] items IH]; intros c; [done|]. cbn [foldl]. rewrite IH. cbn.
  destruct (ct_active c !! n); [|done]. by case_bool_decide.
Qed.

Lemma settle_db l c : ct_db (settle l c) = ct_db c.
Proof. destruct l; cbn; [done|apply cancel_active_db|apply expire_active_db]. Qed.

Lemma tell_streams_db l c : ct_db (foldl (λ c s, (try_send s TDisconnected c).2) c l) = ct_db c.
Proof. revert c. induction l as [|s l IH]; intros c; [done|]. cbn [foldl]. by rewrite IH, try_send_db. Qed.

Lemma receive_envelope_keys conn e m now c :
  same_keys (dev_nodes (ct_db c)) (dev_nodes (ct_db (receive_envelope conn e m now c).2)).
Proof.
  unfold receive_envelope. destruct (validate_active conn e c); [|done].
  case_bool_decide.
  { destruct (heartbeat_of _) as [p|]; [|done].
    pose proof (heartbeat_keys (node_id e) (boot_id e) conn (live_session_ids p) (inventory_complete p) now (ct_db c)) as Hk.
    destruct (heartbeat _ _ _ _ _ now (ct_db c)) as [[] d]; done. }
  case_bool_decide.
  { destruct (request_id e); [|done]. destruct (result_of _); [|done]. by case_bool_decide. }
  case_bool_decide; [|done]. by rewrite receive_terminal_db.
Qed.

Lemma handle_keys ev now c h : keys_ok (dev_nodes (ct_db c)) h →
  let '(r, c') := handle policy ev now c in
  keys_ok (dev_nodes (ct_db c')) (h ++ [(ev, r)]) ∧
  match ev, r with
  | EvHello hello challenge _, Registered _ => ∃ K, approved (h_node_id hello) K h ∧ proves K hello challenge
  | _, _ => True
  end.
Proof.
  intros Hk. assert (Hgo : ∀ d ev r, same_keys (dev_nodes (ct_db c)) (dev_nodes d) → keys_ok (dev_nodes d) (h ++ [(ev, r)])).
  { intros d ev' r Hs. apply keys_ok_app. by eapply keys_ok_same. }
  destruct ev; cbn [handle].
  - destruct (authenticate_and_register policy hello challenge connection now c) as [r c'] eqn:E.
    apply authenticate_spec in E as [(e & -> & _ & ->)|[(K & -> & Ho & Hp & ->)|(K & x & proof & -> & HK & Hp & Hr)]].
    + split; [by apply Hgo|done].
    + split; [|done]. apply request_pairing_ok; [by apply keys_ok_app|].
      exists hello, challenge, connection. split; [set_solver|done].
    + split.
      * apply Hgo. pose proof (register_keys hello proof connection now c) as Hs. by rewrite Hr in Hs.
      * exists K. split; [|done]. unfold credential in HK.
        destruct (dev_nodes (ct_db c) !! h_node_id hello) as [row|] eqn:Erow; [|done].
        cbn in HK. by eapply Hk.
  - unfold start_loopback. destruct (ensure_internal_node node name now (ct_db c)) as [[u|e] d] eqn:E.
    + assert (Hd : keys_ok (dev_nodes d) h).
      { unfold ensure_internal_node in E. destruct (validate_display_name name); [|done].
        destruct (dev_nodes (ct_db c) !! node) as [row|] eqn:Erow.
        - case_bool_decide; [|done]. injection E as _ <-. intros n r. cbn. rewrite lookup_insert_Some.
          intros [[<- <-]|[_ Hr]]; [|by apply Hk]. by apply (Hk node row).
        - injection E as _ <-. intros n r. cbn. rewrite lookup_insert_Some. intros [[<- <-]|[_ Hr]]; [done|by apply Hk]. }
      unfold register_internal. destruct (negb _); cbn [result_of_hello fst snd]; [by split; [apply keys_ok_app|]|].
      match goal with |- context [register policy ?he ?p ?co ?no ?ct] => pose proof (register_keys he p co no ct) as Hs;
        destruct (register policy he p co no ct) as [r c'] end.
      split; [|done]. apply keys_ok_app. by eapply keys_ok_same.
    + split; [|done]. apply Hgo. unfold ensure_internal_node in E. destruct (validate_display_name name); [|by injection E as _ <-].
      destruct (dev_nodes (ct_db c) !! node); [|done]. case_bool_decide; [done|]. by injection E as _ <-.
  - unfold approve_pairing. pose proof (approve_ok node now (ct_db c) h Hk) as Ha.
    destruct (store_approve_pairing node now (ct_db c)) as [[u|e] d]; by split.
  - pose proof (receive_envelope_keys connection e message now c) as Hs.
    destruct (receive_envelope connection e message now c) as [r c']. split; [by apply Hgo|done].
  - split; [|done]. apply Hgo. unfold disconnected. cbn. rewrite tell_streams_db.
    eapply same_keys_trans; [|apply disconnect_keys]. destruct (ct_active c !! node); [|done]. by case_bool_decide.
  - split; [|done]. apply Hgo. unfold expire_heartbeats_at.
    pose proof (expire_keys (po_timeout policy) now (ct_db c)) as Hs.
    destruct (expire_heartbeats (po_timeout policy) now (ct_db c)) as [items d]. cbn [snd] in *. by case_bool_decide.
  - unfold request_begin. destruct (active_boot node c); [|split; [by apply Hgo|done]].
    match goal with |- context [send_envelope ?n ?e ?c] => pose proof (send_envelope_db n e c) as Hs;
      destruct (send_envelope n e c) as [[] c'] end; (split; [|done]); apply Hgo; cbn in *; by rewrite Hs.
  - unfold request_end. destruct (ct_answers c !! request) as [p|]; [|split; [by apply Hgo|done]].
    destruct (succeeded p); (split; [by apply Hgo|done]).
  - unfold open_terminal. destruct (active_boot node c); [|split; [by apply Hgo|done]].
    match goal with |- context [send_envelope ?n ?e ?c] => pose proof (send_envelope_db n e c) as Hs;
      destruct (send_envelope n e c) as [[] c'] end; (split; [|done]); apply Hgo; cbn in *; by rewrite Hs.
  - split; [|done]. apply Hgo. unfold close_terminal. destruct (active_boot _ _); [|done]. by rewrite send_envelope_db.
  - split; [|done]. apply Hgo. unfold take_event. by destruct (ct_streams c !! _) as [[|]|].
  - destruct (ct_later c !! k); (split; [|done]); apply Hgo; [by rewrite settle_db|done].
Qed.

Lemma run_keys evs c hist c' h : keys_ok (dev_nodes (ct_db c)) h → run policy evs c = (hist, c') →
  ∀ k hello challenge connection r, hist !! k = Some (EvHello hello challenge connection, Registered r) →
  ∃ K, approved (h_node_id hello) K (h ++ take k hist) ∧ proves K hello challenge.
Proof.
  revert c hist h. induction evs as [|[ev now] evs IH]; intros c hist h Hk.
  - intros [= <- <-] k hello ch conn r Hi. done.
  - cbn [run]. pose proof (handle_keys ev now c h Hk) as Hh. destruct (handle policy ev now c) as [r0 c1].
    destruct Hh as [Hk1 Hreg]. destruct (run policy evs c1) as [rs c2] eqn:Hr. intros [= <- <-] [|k] hello ch conn r Hi.
    + cbn in Hi. injection Hi as -> ->. cbn [take]. by rewrite app_nil_r.
    + cbn in Hi. destruct (IH c1 rs _ Hk1 Hr k hello ch conn r Hi) as (K & HK & Hp).
      exists K. split; [|done]. cbn [take]. by rewrite <-app_assoc in HK.
Qed.
(** ** Connections *)

(** A row that has the connection, as connected. *)
Definition row_ok (a : ActiveConnection) (r : NodeRow) : Prop :=
  current_connection (ac_boot a) (ac_connection a) r = true ∧ connection_state r = ConnectedNode ∧
  disconnected_at r = None ∧ (public_key r ≠ None ∨ credential_kind r = Internal).

(** The columns of a row about its key and its connection. *)
Definition link (r : NodeRow)
    : option Uuid * option Uuid * ConnectionState * option Z * option string * CredentialKind :=
  (node_boot r, connection_id r, connection_state r, disconnected_at r, public_key r, credential_kind r).

Definition link_of (n : Uuid) (c : Control) := link <$> dev_nodes (ct_db c) !! n.

Lemma row_ok_link a r r' : link r' = link r → row_ok a r → row_ok a r'.
Proof.
  unfold link. intros [= E1 E2 E3 E4 E5 E6]. unfold row_ok, current_connection. by rewrite E1, E2, E3, E4, E5, E6.
Qed.

Definition row_has (n : Uuid) (a : ActiveConnection) (c : Control) : Prop :=
  ∃ r, dev_nodes (ct_db c) !! n = Some r ∧ row_ok a r.

Lemma row_has_link n a c c' : link_of n c' = link_of n c → row_has n a c → row_has n a c'.
Proof.
  intros Hl (r & Hr & Hok). unfold link_of in Hl. rewrite Hr in Hl. apply fmap_Some in Hl as (r' & Hr' & Hl).
  exists r'. split; [done|]. by eapply row_ok_link.
Qed.

(** The connection held for the node, if any, is the one of its row. *)
Definition row_held (n : Uuid) (c : Control) : Prop := ∀ a, ct_active c !! n = Some a → row_has n a c.

(** ** Handlers under way *)

Definition about (n : Uuid) (l : Later) : bool :=
  match l with
  | Hold m _ | CancelActive m => bool_decide (m = n)
  | DropExpired items => bool_decide (n ∈ items.*1)
  end.

(** The handlers of the node that are between their two steps. *)
Definition under_way (n : Uuid) (c : Control) : list Later := filter (λ l, about n l = true) (ct_later c).

(** While a handler of the node is between its two steps, no other handler
    starts on the node or writes its key or its connection. *)
Fixpoint undisturbed (n : Uuid) (evs : list (Event * Z)) (c : Control) : Prop :=
  match evs with
  | [] => True
  | (ev, now) :: evs =>
      let c' := (handle policy ev now c).2 in
      (under_way n c = [] ∨ (∃ k, ev = EvSettle k) ∨ (link_of n c' = link_of n c ∧ under_way n c' = under_way n c)) ∧
      undisturbed n evs c'
  end.

Definition is_active (c : Control) (connection : Uuid) : Prop :=
  ∃ n a, ct_active c !! n = Some a ∧ ac_connection a = connection.

(** The connections registered and not yet held. *)
Definition awaited (c : Control) (connection : Uuid) : Prop :=
  ∃ n b, Hold n (mkActive connection b) ∈ ct_later c.

(** The connections ever registered, and those whose socket ended. *)
Definition registered_in (hist : list (Event * Result)) (connection : Uuid) : Prop :=
  ∃ ev r, (ev, Registered r) ∈ hist ∧ rc_connection r = connection.
Definition ended_in (hist : list (Event * Result)) (connection : Uuid) : Prop :=
  ∃ n b r, (EvDisconnected n b connection, r) ∈ hist.

(** Every connection is about to be held, held, told to end, or ended. *)
Definition accounted (c : Control) (hist : list (Event * Result)) : Prop :=
  ∀ connection, registered_in hist connection →
    awaited c connection ∨ is_active c connection ∨ connection ∈ ct_canceled c ∨ ended_in hist connection.

Definition moves (c c' : Control) (ev : Event) (r : Result) : Prop :=
  (∀ connection, awaited c connection ∨ is_active c connection ∨ connection ∈ ct_canceled c →
     awaited c' connection ∨ is_active c' connection ∨ connection ∈ ct_canceled c' ∨ ended_in [(ev, r)] connection) ∧
  match r with Registered x => awaited c' (rc_connection x) | _ => True end.

Lemma accounted_step c c' ev r h : accounted c h → moves c c' ev r → accounted c' (h ++ [(ev, r)]).
Proof.
  intros Ha [Hm Hreg] conn (ev' & x & Hin & <-).
  assert (Happ : ∀ h1 h2 k, ended_in h1 k ∨ ended_in h2 k → ended_in (h1 ++ h2) k).
  { intros h1 h2 k [(n & b & y & H1)|(n & b & y & H1)]; exists n, b, y; set_solver. }
  apply elem_of_app in Hin as [Hin|Hin%list_elem_of_singleton]; [|injection Hin as -> <-; by left].
  destruct (Ha (rc_connection x)) as [H1|[H1|[H1|H1]]]; [by exists ev', x|..|naive_solver];
    destruct (Hm (rc_connection x)) as [?|[?|[?|?]]]; naive_solver.
Qed.

(** What the first step of a handler does: it adds what the handler has still
    to do, and drops connections only as their sockets end. *)
Definition starts (n : Uuid) (c c' : Control) (ev : Event) (r : Result) : Prop :=
  ∃ ls, ct_later c' = ct_later c ++ ls ∧ ct_canceled c' = ct_canceled c ∧ ct_active c' ⊆ ct_active c ∧
    (∀ k, is_active c k → is_active c' k ∨ ended_in [(ev, r)] k) ∧
    match r with
    | Registered x => ∃ m b, Hold m (mkActive (rc_connection x) b) ∈ ls
    | _ => True
    end ∧
    (filter (λ l, about n l = true) ls = [] ∧ (row_held n c → row_held n c') ∨
     ∃ l, filter (λ l, about n l = true) ls = [l] ∧
       match l with
       | Hold _ a => row_has n a c'
       | CancelActive _ => True
       | DropExpired items => row_held n c → ∀ a, ct_active c' !! n = Some a → ∃ b, (n, (b, ac_connection a)) ∈ items
       end).

Lemma starts_same n c c' ev r : ct_later c' = ct_later c → ct_active c' = ct_active c → ct_canceled c' = ct_canceled c →
  (row_held n c → row_held n c') → match r with Registered _ => False | _ => True end → starts n c c' ev r.
Proof.
  intros Hl Ha Hc Hrow Hr. exists []. rewrite app_nil_r. split_and!; [done..|by rewrite Ha| |by destruct r|by left].
  intros k (m & a & Hm & He). left. exists m, a. by rewrite Ha.
Qed.

(** A handler that leaves the rows of the nodes. *)
Lemma starts_nodes n c c' ev r : ct_later c' = ct_later c → ct_active c' = ct_active c → ct_canceled c' = ct_canceled c →
  dev_nodes (ct_db c') = dev_nodes (ct_db c) → match r with Registered _ => False | _ => True end → starts n c c' ev r.
Proof.
  intros Hl Ha Hc Hd Hr. apply starts_same; [done..| |done]. unfold row_held, row_has. by rewrite Ha, Hd.
Qed.

Lemma send_envelope_conns n e c : let c' := (send_envelope n e c).2 in
  ct_active c' = ct_active c ∧ ct_canceled c' = ct_canceled c ∧ ct_later c' = ct_later c.
Proof. unfold send_envelope. by destruct (ct_active c !! n). Qed.

Lemma try_send_conns s e c : let c' := (try_send s e c).2 in
  ct_active c' = ct_active c ∧ ct_canceled c' = ct_canceled c ∧ ct_later c' = ct_later c.
Proof. unfold try_send. destruct (ct_streams c !! s); [|done]. by destruct (_ <? _)%nat. Qed.

Lemma tell_streams_conns l c : let c' := foldl (λ c s, (try_send s TDisconnected c).2) c l in
  ct_active c' = ct_active c ∧ ct_canceled c' = ct_canceled c ∧ ct_later c' = ct_later c.
Proof.
  revert c. induction l as [|s l IH]; intros c; [done|]. cbn [foldl].
  destruct (IH (try_send s TDisconnected c).2) as (-> & -> & ->). apply try_send_conns.
Qed.

(** A step that only queues an envelope. *)
Lemma send_starts m n e c c0 ev r c' : ct_active c = ct_active c0 → ct_canceled c = ct_canceled c0 →
  ct_db c = ct_db c0 → ct_later c = ct_later c0 → ct_active c' = ct_active (send_envelope n e c).2 →
  ct_canceled c' = ct_canceled (send_envelope n e c).2 → ct_db c' = ct_db (send_envelope n e c).2 →
  ct_later c' = ct_later (send_envelope n e c).2 → match r with Registered _ => False | _ => True end →
  starts m c0 c' ev r.
Proof.
  intros Ha Hc Hd Hl Ha' Hc' Hd' Hl' Hr. destruct (send_envelope_conns n e c) as (Sa & Sc & Sl).
  pose proof (send_envelope_db n e c) as Sd. apply starts_nodes; [congruence..| |done]. by rewrite Hd', Sd, Hd.
Qed.

Lemma register_starts n hello proof conn now c c0 ev r c' : ct_active c = ct_active c0 →
  ct_canceled c = ct_canceled c0 → ct_later c = ct_later c0 → (row_held n c0 → row_held n c) →
  (∀ row, dev_nodes (ct_db c) !! h_node_id hello = Some row → public_key row ≠ None ∨ credential_kind row = Internal) →
  register policy hello proof conn now c = (r, c') → starts n c0 c' ev (result_of_hello r).
Proof.
  intros Ha Hc Hl Hrow Hkind. unfold register. destruct (negb _); [intros [= <- <-]; by apply starts_same|].
  unfold record_connection. destruct (dev_nodes (ct_db c) !! h_node_id hello) as [row|] eqn:E;
    intros [= <- <-]; [|by apply starts_same].
  eexists. cbn. rewrite Hl, Ha, Hc. split_and!; [done..| | |].
  - intros k (m & a & Hm & He). left. exists m, a. cbn. by rewrite Ha.
  - exists (h_node_id hello), (h_boot_id hello). set_solver.
  - rewrite filter_cons, filter_nil. cbn. destruct (bool_decide_reflect (h_node_id hello = n)) as [<-|Hne].
    + right. rewrite decide_True by done. eexists. split; [done|]. unfold row_has. cbn.
      rewrite lookup_insert_eq. eexists. split; [done|]. unfold row_ok, current_connection. cbn. rewrite !bool_decide_true by done.
      split_and!; [done..|]. by apply Hkind.
    + left. rewrite decide_False by done. split; [done|]. intros Hh a. cbn. rewrite Ha. intros Hn.
      destruct (Hrow Hh a) as (x & Hx & Hok); [by rewrite Ha|]. exists x. cbn. by rewrite lookup_insert_ne.
Qed.

Lemma request_pairing_held m n K now c : row_held m c → row_held m (with_db (request_pairing n K now (ct_db c)).2 c).
Proof.
  intros Ho a Hm. cbn in Hm. destruct (Ho a Hm) as (r & Hr & Hok). unfold row_has. cbn. unfold request_pairing.
  destruct (_ || _); [by exists r|].
  destruct (decide (m = n)) as [->|Hne].
  - rewrite Hr. destruct (bool_decide (credential_kind r = Ed25519)) eqn:E; [|by exists r].
    destruct (negb _); cbn; [|by exists r]. rewrite lookup_insert_eq. eexists. split; [done|].
    apply bool_decide_eq_true in E. destruct Hok as (H1 & H2 & H3 & [H4|H4]); [|congruence].
    unfold row_ok, current_connection in *. cbn. split_and!; [done| |done|by left]. by destruct (public_key r).
  - destruct (dev_nodes (ct_db c) !! n) as [x|]; [destruct (_ && _)|]; cbn;
      rewrite ?lookup_insert_ne by done; by exists r.
Qed.

Lemma heartbeat_held m n b conn live full now c : row_held m c →
  row_held m (with_db (heartbeat n b conn live full now (ct_db c)).2 c).
Proof.
  intros Ho a Hm. cbn in Hm. destruct (Ho a Hm) as (r & Hr & Hok). unfold row_has. cbn. unfold heartbeat.
  destruct (dev_nodes (ct_db c) !! n) as [x|] eqn:E; [|by exists r].
  destruct (current_connection b conn x); [|by exists r]. cbn. destruct (decide (m = n)) as [->|Hne].
  - rewrite lookup_insert_eq. rewrite Hr in E. injection E as <-. eexists. split; [done|].
    by destruct Hok as (H1 & H2 & H3 & H4).
  - rewrite lookup_insert_ne by done. by exists r.
Qed.

Lemma ensure_held m n name now c r d : ensure_internal_node n name now (ct_db c) = (r, d) →
  (row_held m c → row_held m (with_db d c)) ∧
  (r = inl tt → ∀ row, dev_nodes d !! n = Some row → credential_kind row = Internal).
Proof.
  unfold ensure_internal_node. destruct (validate_display_name name); [|intros [= <- <-]; by rewrite with_db_id].
  destruct (dev_nodes (ct_db c) !! n) as [x|] eqn:E.
  - case_bool_decide as Hk; intros [= <- <-]; [|by rewrite with_db_id]. split.
    + intros Ho a Hm. cbn in Hm. destruct (Ho a Hm) as (row & Hr & Hok). unfold row_has. cbn.
      destruct (decide (m = n)) as [->|Hne]; [|rewrite lookup_insert_ne by done; by exists row].
      rewrite lookup_insert_eq. rewrite Hr in E. injection E as <-. by eexists.
    + intros _ row. cbn. rewrite lookup_insert_eq. by intros [= <-].
  - intros [= <- <-]. split.
    + intros Ho a Hm. cbn in Hm. destruct (Ho a Hm) as (row & Hr & Hok). unfold row_has. cbn.
      rewrite lookup_insert_ne by congruence. by exists row.
    + intros _ row. cbn. rewrite lookup_insert_eq. by intros [= <-].
Qed.

Lemma receive_envelope_starts n conn e m now c ev r c' : receive_envelope conn e m now c = (r, c') →
  starts n c c' ev (result_of_unit r).
Proof.
  unfold receive_envelope. assert (Hsame : ∀ x, starts n c c ev (result_of_unit x)) by (intros [|]; by apply starts_same).
  destruct (validate_active conn e c); [|intros [= <- <-]; apply Hsame].
  case_bool_decide.
  { destruct (heartbeat_of _) as [p|]; [|intros [= <- <-]; apply Hsame].
    pose proof (heartbeat_held n (node_id e) (boot_id e) conn (live_session_ids p) (inventory_complete p) now c) as Hk.
    destruct (heartbeat _ _ _ _ _ now (ct_db c)) as [[] d]; intros [= <- <-]; by apply starts_same. }
  case_bool_decide.
  { destruct (request_id e); [|intros [= <- <-]; apply Hsame]. destruct (result_of _); [|intros [= <- <-]; apply Hsame].
    case_bool_decide; intros [= <- <-]; [by apply starts_same|apply Hsame]. }
  case_bool_decide; [|intros [= <- <-]; apply Hsame].
  unfold receive_terminal_event. destruct (stream_id e) as [st|]; [|intros [= <- <-]; apply Hsame].
  destruct (terminal_event e) as [[event|]|]; [|intros [= <- <-]; apply Hsame..].
  pose proof (try_send_conns st event c) as (Ha & Hc & Hl). pose proof (try_send_db st event c) as Hd.
  destruct (try_send st event c) as [[] c1]; cbn in *; [intros [= <- <-]; apply starts_nodes; [done..|by rewrite Hd|done]|].
  destruct (active_boot (node_id e) c1) as [b|]; intros [= <- <-]; [|apply starts_nodes; [done..|by rewrite Hd|done]].
  by eapply (send_starts n (node_id e) (detach_envelope (node_id e) b st m) c1 c).
Qed.

Lemma disconnected_starts m n b conn now c : starts m c (disconnected n b conn now c) (EvDisconnected n b conn) Done.
Proof.
  unfold disconnected. set (c1 := match ct_active c !! n with Some a => _ | None => c end).
  destruct (tell_streams_conns (map_to_list (ct_streams c1)).*1 c1) as (Ha & Hc & Hl).
  pose proof (tell_streams_db (map_to_list (ct_streams c1)).*1 c1) as Hd.
  set (c2 := foldl _ c1 _) in *. clearbody c2.
  assert (H1 : ct_db c1 = ct_db c ∧ ct_canceled c1 = ct_canceled c ∧ ct_later c1 = ct_later c ∧
    ct_active c1 ⊆ ct_active c ∧ (∀ x, ct_active c1 !! n = Some x → ac_connection x ≠ conn) ∧
    (∀ x y, ct_active c !! x = Some y → ct_active c1 !! x = Some y ∨ ac_connection y = conn)).
  { unfold c1. destruct (ct_active c !! n) as [a|] eqn:E; [|split_and!; [done..|congruence|by left]].
    case_bool_decide as Hk; cbn; [|split_and!; [done..|congruence|by left]]. split_and!; [done..|apply delete_subseteq| |].
    - intros x. by rewrite lookup_delete_eq.
    - intros x y Hx. destruct (decide (x = n)) as [->|Hne]; [right; congruence|left; by rewrite lookup_delete_ne]. }
  destruct H1 as (E1 & E2 & E3 & E4 & E5 & E6). exists []. cbn. rewrite Ha, Hc, Hl, app_nil_r.
  split_and!; [done..| |done|left; split; [done|]].
  - intros k (x & a & Hx & <-). destruct (E6 x a Hx) as [?|Hk]; [left; exists x, a; cbn; by rewrite Ha|right].
    exists n, b, Done. rewrite Hk. set_solver.
  - intros Ho a. cbn. rewrite Ha. intros Hm. destruct (Ho a) as (row & Hr & Hok); [by eapply lookup_weaken|].
    unfold row_has. cbn. rewrite Hd, E1. unfold store_disconnect.
    destruct (dev_nodes (ct_db c) !! n) as [rn|] eqn:E; [|by exists row].
    destruct (current_connection b conn rn) eqn:Hcur; [|by exists row]. cbn.
    destruct (decide (m = n)) as [->|Hne]; [exfalso|rewrite lookup_insert_ne by done; by exists row].
    destruct Hok as (Hokc & _). apply (E5 a Hm). rewrite E in Hr. injection Hr as <-.
    unfold current_connection in *. apply andb_true_iff in Hcur as [_ Hcur], Hokc as [_ Hokc].
    apply bool_decide_eq_true in Hcur, Hokc. congruence.
Qed.

(** ** Expiry *)

Lemma expire_one_other now d items m : m ∉ items.*1 →
  dev_nodes (foldl (expire_one now) d items) !! m = dev_nodes d !! m.
Proof.
  revert d. induction items as [|[n [b k]] items IH]; intros d Hm; [done|]. cbn [foldl].
  rewrite IH by set_solver. cbn. destruct (dev_nodes d !! n); [|done]. destruct (current_connection _ _ _); [|done].
  rewrite lookup_insert_ne; [done|]. set_solver.
Qed.

(** What expires is the connection of the row. *)
Lemma expired_current n c cutoff a : n ∈ (expired_connections cutoff (ct_db c)).*1 → row_has n a c →
  ∃ b, (n, (b, ac_connection a)) ∈ expired_connections cutoff (ct_db c).
Proof.
  intros Hin (r & Hr & Hok). apply list_elem_of_fmap in Hin as ([n' [b k]] & Hfst & Hin). cbn in Hfst. subst n'.
  exists b. assert (ac_connection a = k) as ->; [|done]. unfold expired_connections in Hin.
  apply elem_of_map_to_list in Hin. rewrite lookup_omap, Hr in Hin. cbn in Hin. unfold expired in Hin.
  destruct (node_boot r) as [b'|]; [|done]. destruct (connection_id r) as [k'|] eqn:Ek; [|done].
  destruct (last_heartbeat_at r); [|done]. destruct (_ && _); [|done]. injection Hin as <- <-.
  destruct Hok as [Hcur _]. unfold current_connection in Hcur. apply andb_true_iff in Hcur as [_ Hcur].
  apply bool_decide_eq_true in Hcur. congruence.
Qed.

Lemma expire_starts n now c : starts n c (expire_heartbeats_at policy now c).2 EvExpire Done.
Proof.
  unfold expire_heartbeats_at, expire_heartbeats.
  set (items := expired_connections _ _). set (d := foldl (expire_one now) _ items). cbn [snd].
  assert (Hout : n ∉ items.*1 → row_held n c → row_held n (with_db d c)).
  { intros Hn Ho a Ha. destruct (Ho a Ha) as (r & Hr & Hok). exists r. split; [|done]. cbn.
    unfold d. by rewrite expire_one_other. }
  case_bool_decide as Hi; [apply starts_same; [done..| |done]; apply Hout; rewrite Hi; set_solver|].
  eexists. cbn. split_and!; [done..| |done|].
  - intros k (m & a & Hm & He). left. by exists m, a.
  - rewrite filter_cons, filter_nil. cbn. destruct (bool_decide_reflect (n ∈ items.*1)) as [Hin|Hn].
    + right. rewrite decide_True by done. eexists. split; [done|]. cbn. intros Ho a Ha. cbn in Ha.
      by apply (expired_current n c (now - po_timeout policy * 1000000) a Hin), Ho.
    + left. rewrite decide_False by done. split; [done|]. intros Ho. by apply Hout.
Qed.

Lemma expire_active_sub c items : ct_active (foldl expire_active c items) ⊆ ct_active c ∧
  ct_canceled c ⊆ ct_canceled (foldl expire_active c items) ∧
  ct_later (foldl expire_active c items) = ct_later c ∧
  (∀ k, is_active c k → is_active (foldl expire_active c items) k ∨ k ∈ ct_canceled (foldl expire_active c items)) ∧
  (∀ n, n ∉ items.*1 → ct_active (foldl expire_active c items) !! n = ct_active c !! n) ∧
  ∀ n b k, (n, (b, k)) ∈ items → ∀ a, ct_active (foldl expire_active c items) !! n = Some a → ac_connection a ≠ k.
Proof.
  revert c. induction items as [|[n [b k]] items IH]; intros c; [split_and!; [done..|by intros; left|done|]; intros ? ? ? []%elem_of_nil|].
  cbn [foldl]. destruct (IH (expire_active c (n, (b, k)))) as (H1 & H2 & Hl & H3 & Hn & H4).
  assert (Hs : ct_active (expire_active c (n, (b, k))) ⊆ ct_active c ∧
    ct_canceled c ⊆ ct_canceled (expire_active c (n, (b, k))) ∧ ct_later (expire_active c (n, (b, k))) = ct_later c ∧
    (∀ k', is_active c k' → is_active (expire_active c (n, (b, k))) k' ∨ k' ∈ ct_canceled (expire_active c (n, (b, k)))) ∧
    (∀ m, m ≠ n → ct_active (expire_active c (n, (b, k))) !! m = ct_active c !! m) ∧
    ∀ a, ct_active (expire_active c (n, (b, k))) !! n = Some a → ac_connection a ≠ k).
  { cbn. destruct (ct_active c !! n) as [a|] eqn:E; [|split_and!; [done..|by intros; left|done|congruence]].
    case_bool_decide as Hk; cbn; [|split_and!; [done..|by intros; left|done|congruence]]. split_and!.
    - apply delete_subseteq.
    - set_solver.
    - done.
    - intros k' (m & x & Hm & <-). destruct (decide (m = n)) as [->|Hne].
      + right. rewrite E in Hm. injection Hm as <-. set_solver.
      + left. exists m, x. cbn. by rewrite lookup_delete_ne.
    - intros m Hm. by rewrite lookup_delete_ne.
    - by rewrite lookup_delete_eq. }
  destruct Hs as (S1 & S2 & Sl & S3 & Sn & S4). split_and!.
  - by etrans.
  - by etrans.
  - by rewrite Hl.
  - intros k' Hk'. destruct (S3 k' Hk') as [Hx|Hx]; [by apply H3|by right; apply H2].
  - intros m Hm. rewrite Hn, Sn by set_solver. done.
  - intros m b' k' [[= -> -> ->]|Hin]%elem_of_cons a Ha; [|by eapply H4].
    apply S4. by eapply lookup_weaken.
Qed.

(** ** The second steps *)

Lemma settle_later l c : ct_later (settle l c) = ct_later c.
Proof.
  destruct l; cbn; [done| |apply expire_active_sub]. unfold cancel_active. by destruct (ct_active c !! node).
Qed.

Lemma settle_other n l c : about n l = false → ct_active (settle l c) !! n = ct_active c !! n.
Proof.
  destruct l as [m a|m|items]; cbn; intros Hn%bool_decide_eq_false.
  - by rewrite lookup_insert_ne.
  - unfold cancel_active. destruct (ct_active c !! m); [|done]. cbn. by rewrite lookup_delete_ne.
  - by apply expire_active_sub.
Qed.

(** A connection that is replaced, canceled or expired is told to end. *)
Lemma settle_moves l c : (∀ k, is_active c k → is_active (settle l c) k ∨ k ∈ ct_canceled (settle l c)) ∧
  ct_canceled c ⊆ ct_canceled (settle l c) ∧
  match l with Hold _ a => is_active (settle l c) (ac_connection a) | _ => True end.
Proof.
  destruct l as [m x|m|items]; cbn [settle].
  - split_and!; [|cbn; destruct (ct_active c !! m); set_solver|exists m, x; cbn; by rewrite lookup_insert_eq].
    intros k (n & a & Hn & <-). cbn. destruct (decide (n = m)) as [->|Hne].
    + right. rewrite Hn. set_solver.
    + left. exists n, a. cbn. by rewrite lookup_insert_ne.
  - unfold cancel_active. destruct (ct_active c !! m) as [x|] eqn:E; [|split_and!; [by left|done..]]. cbn.
    split_and!; [|set_solver|done]. intros k (n & a & Hn & <-). destruct (decide (n = m)) as [->|Hne].
    + right. rewrite E in Hn. injection Hn as <-. set_solver.
    + left. exists n, a. cbn. by rewrite lookup_delete_ne.
  - destruct (expire_active_sub c items) as (_ & H2 & _ & H3 & _). by split_and!.
Qed.

(** What a handler under way for the node relies on. *)
Definition due (n : Uuid) (l : Later) (c : Control) : Prop :=
  match l with
  | Hold _ a => row_has n a c
  | CancelActive _ => True
  | DropExpired items => ∀ a, ct_active c !! n = Some a → ∃ b, (n, (b, ac_connection a)) ∈ items
  end.

(** A node whose handlers do not overlap. *)
Definition orderly (n : Uuid) (c : Control) : Prop :=
  match under_way n c with
  | [] => row_held n c
  | [l] => due n l c
  | _ => False
  end.

Lemma settle_due n l c : about n l = true → due n l c → row_held n (settle l c).
Proof.
  intros Hn Hd a Ha. assert (Hrow : row_has n a c); [|by eapply row_has_link; [|done]; unfold link_of; rewrite settle_db].
  destruct l as [m x|m|items]; cbn in *; apply bool_decide_eq_true in Hn.
  - subst m. rewrite lookup_insert_eq in Ha. by injection Ha as <-.
  - subst m. unfold cancel_active in Ha. destruct (ct_active c !! n) eqn:E; cbn in Ha; [by rewrite lookup_delete_eq in Ha|congruence].
  - destruct (expire_active_sub c items) as (H1 & _ & _ & _ & _ & H4).
    destruct (Hd a) as (b & Hin); [by eapply lookup_weaken|]. by destruct (H4 n b _ Hin a Ha).
Qed.

(** Taking one of the handlers under way out of the list. *)
Lemma under_way_delete n c k l : ct_later c !! k = Some l →
  ∃ l1 l2, under_way n c = l1 ++ (if about n l then [l] else []) ++ l2 ∧
    under_way n (with_later (delete k (ct_later c)) c) = l1 ++ l2.
Proof.
  intros Hk. set (P := λ l, about n l = true).
  exists (filter P (take k (ct_later c))), (filter P (drop (S k) (ct_later c))). unfold under_way. cbn. split.
  - transitivity (filter P (take k (ct_later c) ++ l :: drop (S k) (ct_later c))); [by rewrite take_drop_middle|].
    rewrite filter_app, filter_cons. f_equal. unfold P. by destruct (about n l).
  - by rewrite delete_take_drop, filter_app.
Qed.

Lemma orderly_settle n k now c : orderly n c → orderly n (handle policy (EvSettle k) now c).2.
Proof.
  cbn [handle]. destruct (ct_later c !! k) as [l|] eqn:Hk; [|done]. cbn [snd].
  set (c0 := with_later _ c). intros Ho. destruct (under_way_delete n c k l Hk) as (l1 & l2 & E1 & E2). fold c0 in E2.
  assert (E2' : under_way n (settle l c0) = l1 ++ l2) by (rewrite <-E2; unfold under_way; by rewrite settle_later).
  unfold orderly in *. rewrite E2'. rewrite E1 in Ho. destruct (about n l) eqn:El.
  - assert (l1 = [] ∧ l2 = []) as [-> ->].
    { destruct l1 as [|? [|]]; cbn in Ho; [by destruct l2|done..]. }
    cbn in *. by apply settle_due.
  - cbn in Ho. assert (Hd : ct_db (settle l c0) = ct_db c) by exact (settle_db l c0).
    assert (Ha : ct_active (settle l c0) !! n = ct_active c !! n) by exact (settle_other n l c0 El).
    destruct (l1 ++ l2) as [|l' [|]]; [| |done].
    + unfold row_held, row_has. by rewrite Ha, Hd.
    + destruct l'; cbn in *; unfold row_has; by rewrite ?Ha, ?Hd.
Qed.

(** ** Every handler *)

Lemma handle_starts n ev now c : (∀ k, ev ≠ EvSettle k) →
  let '(r, c') := handle policy ev now c in starts n c c' ev r.
Proof.
  intros Hns. destruct ev; cbn [handle]; [..|by destruct (Hns k)].
  - destruct (authenticate_and_register policy hello challenge connection now c) as [r c'] eqn:E.
    apply authenticate_spec in E as [(e & -> & _ & ->)|[(K & -> & _ & _ & ->)|(K & x & proof & -> & HK & _ & Hr)]].
    + by apply starts_same.
    + apply starts_same; [done..|by apply request_pairing_held|done].
    + eapply register_starts; [done..| |done]. intros row Hrow. unfold credential in HK. rewrite Hrow in HK. cbn in HK.
      left. congruence.
  - unfold start_loopback. destruct (ensure_internal_node node name now (ct_db c)) as [[[]|e] d] eqn:E;
      apply (ensure_held n) in E as [Hh Hk]; [|by apply starts_same].
    unfold register_internal. destruct (negb _); [by apply starts_same|].
    destruct (register _ _ _ connection now (with_db d c)) as [r c'] eqn:Hr.
    eapply register_starts in Hr as Hm; [exact Hm|done..|]. cbn. intros row Hrow. right. by apply Hk.
  - unfold approve_pairing. destruct (store_approve_pairing node now (ct_db c)) as [[u|e] d] eqn:E.
    + eexists. cbn. split_and!; [done..|by intros k (m & a & Hm & He); left; exists m, a|done|].
      rewrite filter_cons, filter_nil. cbn. destruct (bool_decide_reflect (node = n)) as [<-|Hne].
      * right. rewrite decide_True by done. by eexists.
      * left. rewrite decide_False by done. split; [done|]. intros Ho a Ha. destruct (Ho a Ha) as (row & Hr & Hok).
        exists row. split; [|done]. unfold store_approve_pairing in E. destruct (dev_nodes (ct_db c) !! node); [|done].
        destruct (_ && _); [|done]. injection E as _ <-. cbn. by rewrite lookup_insert_ne.
    + unfold store_approve_pairing in E. assert (d = ct_db c) as ->.
      { destruct (dev_nodes (ct_db c) !! node); [destruct (_ && _)|]; congruence. }
      rewrite with_db_id. by apply starts_same.
  - destruct (receive_envelope connection e message now c) as [r c'] eqn:E. by eapply receive_envelope_starts.
  - apply disconnected_starts.
  - apply expire_starts.
  - unfold request_begin. destruct (active_boot node c) as [b|]; [|by apply starts_same].
    set (c1 := with_requests _ _ c). set (e := request_envelope _ _ _ _ _ _).
    pose proof (send_starts n node e c1 c) as Hs. destruct (send_envelope node e c1) as [[] c2]; by eapply Hs.
  - unfold request_end. destruct (ct_answers c !! request) as [p|]; [|by apply starts_same].
    destruct (succeeded p); by apply starts_same.
  - unfold open_terminal. destruct (active_boot node c) as [b|]; [|by apply starts_same].
    set (c1 := with_streams _ c). set (e := mkEnvelope _ _ _ _ _ _ _ _ _ _).
    pose proof (send_starts n node e c1 c) as Hs. destruct (send_envelope node e c1) as [[] c2]; by eapply Hs.
  - unfold close_terminal. destruct (active_boot _ _) as [b|]; [|by apply starts_same].
    by eapply (send_starts n node (detach_envelope node b stream message) (with_streams (delete stream (ct_streams c)) c) c).
  - unfold take_event. destruct (ct_streams c !! stream) as [[|e queue]|]; by apply starts_same.
Qed.

Lemma handle_moves ev now c : let '(r, c') := handle policy ev now c in moves c c' ev r.
Proof.
  assert (Hs : (∀ k, ev ≠ EvSettle k) ∨ ∃ k, ev = EvSettle k) by (destruct ev; eauto; left; congruence).
  destruct Hs as [Hns|[k ->]].
  - pose proof (handle_starts 0%N ev now c Hns) as Hs. destruct (handle policy ev now c) as [r c'].
    destruct Hs as (ls & Hl & Hc & _ & Ha & Hr & _). split.
    + intros k [(n & b & Hk)|[Hk|Hk]].
      * left. exists n, b. rewrite Hl. set_solver.
      * destruct (Ha k Hk); tauto.
      * rewrite Hc. tauto.
    + destruct r; [|done..]. destruct Hr as (m & b & Hm). exists m, b. rewrite Hl. set_solver.
  - cbn [handle]. destruct (ct_later c !! k) as [l|] eqn:Hk; (split; [|done]); [|tauto].
    set (c0 := with_later _ c). destruct (settle_moves l c0) as (M1 & M2 & M3).
    intros conn [(n & b & Hin)|[Ha|Hc]]; [|destruct (M1 conn); [done|tauto..]|right; right; left; by apply M2].
    rewrite <-(take_drop_middle _ _ _ Hk) in Hin.
    assert (Hin' : Hold n (mkActive conn b) ∈ ct_later c0 ∨ l = Hold n (mkActive conn b)).
    { unfold c0. cbn. rewrite delete_take_drop. set_solver. }
    destruct Hin' as [Hin'| ->]; [left; exists n, b; by rewrite settle_later|right; left; exact M3].
Qed.

Lemma orderly_step n ev now c : let c' := (handle policy ev now c).2 in orderly n c →
  under_way n c = [] ∨ (∃ k, ev = EvSettle k) ∨ (link_of n c' = link_of n c ∧ under_way n c' = under_way n c) →
  orderly n c'.
Proof.
  cbn zeta. assert (Hs : (∀ k, ev ≠ EvSettle k) ∨ ∃ k, ev = EvSettle k) by (destruct ev; eauto; left; congruence).
  destruct Hs as [Hns|[k ->]]; [|intros Ho _; by apply orderly_settle].
  intros Ho Hq. pose proof (handle_starts n ev now c Hns) as Hs. destruct (handle policy ev now c) as [r c']. cbn [snd] in *.
  destruct Hs as (ls & Hl & _ & Hsub & _ & _ & Hrow). unfold orderly in *.
  assert (Hw : under_way n c' = under_way n c ++ filter (λ l, about n l = true) ls) by (unfold under_way; by rewrite Hl, filter_app).
  destruct Hq as [E|[[k ->]|[Hlink E]]]; [|by destruct (Hns k)|].
  - rewrite Hw, E in *. cbn. destruct Hrow as [[-> Hh]|(l & -> & Hh)]; [by apply Hh|].
    destruct l; cbn in *; [done..|by apply Hh].
  - rewrite E. destruct (under_way n c) as [|l [|]] eqn:Eu; [|destruct l; cbn in *|done].
    + intros a Ha. eapply row_has_link; [done|]. apply Ho. by eapply lookup_weaken.
    + by eapply row_has_link.
    + done.
    + intros a Ha. apply Ho. by eapply lookup_weaken.
Qed.

Lemma run_orderly n evs c hist c' : orderly n c → undisturbed n evs c → run policy evs c = (hist, c') → orderly n c'.
Proof.
  revert c hist. induction evs as [|[ev now] evs IH]; intros c hist Ho; cbn [run undisturbed]; [by intros _ [= <- <-]|].
  intros [Hq Hu]. apply orderly_step in Hq as Ho1; [|done]. destruct (handle policy ev now c) as [r c1]. cbn [snd] in *.
  destruct (run policy evs c1) as [rs c2] eqn:Hr. intros [= <- <-]. by eapply IH.
Qed.

Lemma run_moves evs c hist c' h : accounted c h → run policy evs c = (hist, c') → accounted c' (h ++ hist).
Proof.
  revert c hist h. induction evs as [|[ev now] evs IH]; intros c hist h Ha; cbn [run].
  - intros [= <- <-]. by rewrite app_nil_r.
  - pose proof (handle_moves ev now c) as Hm. destruct (handle policy ev now c) as [r c1].
    destruct (run policy evs c1) as [rs c2] eqn:Hr. intros [= <- <-].
    replace (h ++ (ev, r) :: rs) with ((h ++ [(ev, r)]) ++ rs) by by rewrite <-app_assoc.
    eapply IH; [|done]. by eapply accounted_step.
Qed.

(** An envelope of a connection that is not the active one of its node, for
    the boot it names, changes nothing. *)
Lemma stale_envelope connection e message now c :
  (∀ a, ct_active c !! node_id e = Some a → ac_connection a = connection → ac_boot a ≠ boot_id e) →
  ∃ err, receive_envelope connection e message now c = (inr err, c).
Proof.
  intros Hs. unfold receive_envelope, validate_active. destruct (negb _); [by eexists|].
  destruct (ct_active c !! node_id e) as [a|]; [|by eexists].
  destruct (bool_decide_reflect (ac_connection a = connection)) as [E|]; [|by eexists].
  rewrite bool_decide_false by by apply Hs. by eexists.
Qed.

(** A heartbeat of a connection that is not the one of its row. *)
Lemma stale_heartbeat connection e message now p c :
  message_kind e = "node.heartbeat" → heartbeat_of (payload e) = Some p →
  (∀ r, dev_nodes (ct_db c) !! node_id e = Some r → current_connection (boot_id e) connection r = false) →
  ∃ err, receive_envelope connection e message now c = (inr err, c).
Proof.
  intros Hk Hp Hs. unfold receive_envelope. destruct (validate_active connection e c) as [[]|err]; [|by eexists].
  rewrite bool_decide_true, Hp by done. unfold heartbeat.
  assert (Hf : match dev_nodes (ct_db c) !! node_id e with
               | Some r => current_connection (boot_id e) connection r = false | None => True end).
  { destruct (dev_nodes (ct_db c) !! node_id e) as [r|]; [by apply Hs|done]. }
  destruct (dev_nodes (ct_db c) !! node_id e) as [r|]; [rewrite Hf|]; rewrite with_db_id; by eexists.
Qed.
End control.
