(* ===== verification/NodeClientInv.v ===== *)
(** * A node and its control plane

    What an accepted connection of a node has shown, over any sequence of
    enrollments and connections, what ends up in the delivered file, and what
    a handshake leads to when both sides follow the protocol. *)

From S2P Require Import Prelude Text Json NodeWire NodeTrust NodeClient NodeStore NodeControl.

(** ** Pins, certificates and configuration *)

Lemma trim_line s : visible s = true → trim (s +:+ newline) = s.
Proof.
  intros (cs & -> & Hcs)%visible_chars.
  assert (Hs : Forall single (cs ++ [newline])).
  { apply Forall_app. split; [|by repeat constructor]. eapply Forall_impl; [done|]. by intros c [? _]. }
  assert (E : concat_text cs +:+ newline = concat_text (cs ++ [newline])).
  { clear. induction cs as [|c cs IH]; [done|].
    change ((c +:+ concat_text cs) +:+ newline = c +:+ concat_text (cs ++ [newline])).
    by rewrite <-IH, append_assoc. }
  rewrite E. unfold trim, trim_by. rewrite (chars_concat _ Hs).
  destruct cs as [|c cs]; [done|]. destruct (Forall_cons_1 _ _ _ Hcs) as [[_ Hc] _].
  change (drop_while is_whitespace ((c :: cs) ++ [newline])) with
    (if is_whitespace c then drop_while is_whitespace (cs ++ [newline]) else (c :: cs) ++ [newline]).
  rewrite Hc, rev_app_distr.
  change (rev [newline] ++ rev (c :: cs)) with (newline :: rev (c :: cs)).
  change (drop_while is_whitespace (newline :: rev (c :: cs))) with (drop_while is_whitespace (rev (c :: cs))).
  rewrite drop_while_id; [by rewrite rev_involutive|]. intros a Ha.
  assert (Hr : Forall (λ c, single c ∧ is_whitespace c = false) (rev (c :: cs))) by by apply Forall_rev.
  destruct (rev (c :: cs)) as [|b l]; [done|]. injection Ha as ->. by apply Forall_cons in Hr as [[_ ?] _].
Qed.

Section trust.
Context `{UuidText, C : Crypto, !CryptoLaws C}.

(** The proof is signed by [public_key], over this handshake. *)
Definition proven (public_key : string) (challenge : ControlChallenge) (hello : NodeHello)
    (proof : ControlHelloProof) : Prop :=
  p_public_key proof = public_key ∧
  ∃ k s, b64url_decode public_key = Some k ∧ b64url_decode (p_signature proof) = Some s ∧
    ed25519_verify k (proof_signing_payload proof challenge hello) s = true.

(** The configuration is signed by [public_key], for the connection of [nonce]. *)
Definition config_proven (public_key nonce : string) (p : NodeConfigPayload) : Prop :=
  ∃ k text s, cp_signature p = Some text ∧ b64url_decode public_key = Some k ∧ b64url_decode text = Some s ∧
    ed25519_verify k (config_signing_payload (cp_digest p) nonce) s = true.

Lemma verify_proof_spec proof challenge hello :
  verify_proof proof challenge hello = Ok tt ↔ proven (p_public_key proof) challenge hello proof.
Proof.
  unfold verify_proof, decode_identity, proven. split.
  - intros (k & Hk%ok_or_Ok & (s & Hs%ok_or_Ok & Hv)%res_bind_Ok)%res_bind_Ok. split; [done|].
    exists k, s. destruct (ed25519_verify _ _ _) eqn:E; [done|]. done.
  - intros (_ & k & s & -> & -> & Hv). cbn [ok_or mbind res_bind]. by rewrite Hv.
Qed.

Lemma proven_pinnable K challenge hello proof : proven K challenge hello proof → pinned (pin_record K) = Some K.
Proof.
  intros (_ & k & s & Hk & _ & Hv). unfold pinned, pin_record. cbn [mbind option_bind].
  rewrite trim_line by by eapply b64url_alphabet. unfold is_empty. rewrite bool_decide_false; [done|].
  intros ->. rewrite b64url_empty in Hk. injection Hk as <-. apply verify_key_length in Hv. done.
Qed.

Lemma pin_verify_pinned file K proof challenge hello outcome : pinned file = Some K →
  pin_verify file proof challenge hello = Ok outcome →
  outcome = Matched ∧ ∃ p, proof = Some p ∧ proven K challenge hello p.
Proof.
  intros Hp. unfold pin_verify. rewrite Hp. destruct proof as [p|]; [|done].
  intros ([] & Hv%verify_proof_spec & Hd)%res_bind_Ok.
  destruct (bool_decide_reflect (K = p_public_key p)) as [->|]; [|done].
  injection Hd as <-. split; [done|]. by exists p.
Qed.

Lemma pin_verify_offered file p challenge hello outcome :
  pin_verify file (Some p) challenge hello = Ok outcome →
  proven (p_public_key p) challenge hello p ∧
  (outcome = FirstPairing (p_public_key p) ∧ pinned file = None ∨
   outcome = Matched ∧ pinned file = Some (p_public_key p)).
Proof.
  unfold pin_verify. intros ([] & Hv%verify_proof_spec & Hd)%res_bind_Ok. split; [done|].
  destruct (pinned file) as [K|].
  - case_bool_decide as E; [|done]. injection Hd as <-. right. by rewrite E.
  - injection Hd as <-. by left.
Qed.

Lemma verify_config_pinned file K nonce p : pinned file = Some K →
  verify_config file (cp_digest p) nonce (cp_signature p) = Ok tt → config_proven K nonce p.
Proof.
  intros Hp. unfold verify_config, decode_identity, config_proven. rewrite Hp.
  intros (text & Ht%ok_or_Ok & (k & Hk%ok_or_Ok & (s & Hs%ok_or_Ok & Hv)%res_bind_Ok)%res_bind_Ok)%res_bind_Ok.
  exists k, text, s. destruct (ed25519_verify _ _ _) eqn:E; [done|]. done.
Qed.

(** ** The certificate *)

Lemma tls_record_pinned der h : tls_pinned (tls_record der h) = Some der.
Proof. unfold tls_pinned, tls_record. cbn. by rewrite pem_cert_encode. Qed.

(** Binding leaves the pin of the control plane and the delivered file alone,
    and a certificate that is pinned already. *)
Lemma tls_binding_spec seen proof persist h h' : verify_tls_binding seen proof persist h = Ok h' →
  control_pin h' = control_pin h ∧ delivered h' = delivered h ∧
  (∀ cert, tls_pinned h = Some cert → tls_pinned h' = Some cert) ∧
  (∀ cert p, seen = Some cert → proof = Some p → tls_cert_digest p = Some (cert_digest cert)) ∧
  (∀ cert, seen = Some cert → persist = true → tls_pinned h = None → tls_pinned h' = Some cert).
Proof.
  unfold verify_tls_binding. destruct seen as [cert|]; [|intros [= <-]; by split_and!].
  intros ([] & Hs & [= <-])%res_bind_Ok. split_and!.
  - by destruct (is_none (tls_pinned h) && persist).
  - by destruct (is_none (tls_pinned h) && persist).
  - intros c Hc. by rewrite Hc.
  - intros c p [= <-] ->. cbn in Hs. destruct (tls_cert_digest p) as [signed|]; [|done].
    case_bool_decide as E; [|done]. by rewrite E.
  - intros c [= <-] -> Hn. rewrite Hn. cbn. apply tls_record_pinned.
Qed.

(** ** The configuration *)

Definition forwardable (kv : string * string) : Prop := kv.1 ∈ FORWARDED_KEYS ∧ is_env_file_safe kv.2 = true.

Lemma find_none_Forall {A} (f : A → bool) l : find f l = None ↔ Forall (λ a, f a = false) l.
Proof.
  induction l as [|a l IH]; cbn; [done|]. rewrite Forall_cons. destruct (f a) eqn:E; split; try done.
  - by intros [? _].
  - intros ?. split; [done|]. by apply IH.
  - intros [_ ?]. by apply IH.
Qed.

Lemma accept_config_spec p c : accept_config p = Ok c ↔
  Forall forwardable (cp_values p) ∧ digest_of (cp_values p) = cp_digest p ∧ c = new_config (cp_values p).
Proof.
  unfold accept_config. destruct (find _ _) as [kv|] eqn:E.
  { split; [done|]. intros (Hf & _). rewrite Forall_forall in Hf. apply find_some in E as [Hin He].
    apply list_elem_of_In, Hf in Hin as [Hin _]. by rewrite bool_decide_true in He. }
  rewrite find_none_Forall in E. destruct (find (λ kv, negb (is_env_file_safe kv.2)) _) as [kv|] eqn:E2.
  { split; [done|]. intros (Hf & _). rewrite Forall_forall in Hf. apply find_some in E2 as [Hin He].
    apply list_elem_of_In, Hf in Hin as [_ Hin]. by rewrite Hin in He. }
  rewrite find_none_Forall in E2. cbn.
  assert (Hf : Forall forwardable (cp_values p)).
  { rewrite Forall_forall in *. intros kv Hin. specialize (E kv Hin). specialize (E2 kv Hin). cbn in E, E2.
    split; [by apply negb_false_iff, bool_decide_eq_true in E|by apply negb_false_iff in E2]. }
  destruct (bool_decide_reflect (digest_of (cp_values p) = cp_digest p)); cbn; split; try done.
  - by intros [= <-].
  - by intros (_ & _ & ->).
  - by intros (_ & ? & _).
Qed.

Lemma tree_insert_forwardable k v m : forwardable (k, v) → Forall forwardable m → Forall forwardable (tree_insert k v m).
Proof.
  intros Hk. induction 1 as [|[k' v'] m Hm Hms IH]; cbn; [by constructor|].
  case_bool_decide; [by constructor|]. destruct (string_ltb k k'); constructor; try done. by constructor.
Qed.

(** What the control plane reads from its environment, a node accepts. *)
Lemma from_env_accepted env c signature : config_from_env env = Ok (Some c) →
  accept_config (mkConfigPayload (rc_digest c) (rc_values c) signature) = Ok c.
Proof.
  unfold config_from_env. intros (values & Hf & Hc)%res_bind_Ok. case_bool_decide as Hne; [done|].
  injection Hc as <-. apply accept_config_spec. cbn. split_and!; [|done..].
  assert (Hg : ∀ keys vs vs', Forall (.∈ FORWARDED_KEYS) keys → Forall forwardable vs →
    try_fold (forward_key env) keys vs = Ok vs' → Forall forwardable vs').
  { clear. induction keys as [|k keys IH]; intros vs vs' Hk Hv; [by intros [= <-]|].
    apply Forall_cons in Hk as [Hk Hks]. cbn [try_fold]. intros (ws & Hw & Hr)%res_bind_Ok.
    eapply IH; [done| |done]. unfold forward_key in Hw. destruct (env k) as [v|]; [|by injection Hw as <-].
    destruct (is_empty v); [by injection Hw as <-|]. destruct (is_env_file_safe v) eqn:E; [|done].
    injection Hw as <-. by apply tree_insert_forwardable. }
  eapply Hg; [|constructor|exact Hf]. by apply Forall_forall.
Qed.
End trust.

Section client.
Context `{UuidText, C : Crypto, Wire, !CryptoLaws C}.
Variable config : NodeClientConfig.
Variable key : KeyPair.
Variable boot_id : Uuid.

(** The challenge and the acknowledgment of an attempt. *)
Definition answers (a : Attempt) (challenge : ControlChallenge) (ack : HelloAck) : Prop :=
  ∃ envelope frames, at_frames a = Text (Challenge challenge) :: Text (Envelope envelope) :: frames ∧
    ack_of_value (payload envelope) = Some ack.

Definition hello_of (a : Attempt) (challenge : ControlChallenge) : NodeHello :=
  signed_hello (client_node_id config) boot_id key challenge (at_nonce a).

(** The control plane of the attempt holds [K]: it signed this challenge and
    this node's fresh nonce, and the certificate of the transport. *)
Definition proof_by (K : string) (a : Attempt) : Prop :=
  ∃ challenge ack proof, answers a challenge ack ∧ control_proof ack = Some proof ∧
    proven K challenge (hello_of a challenge) proof ∧
    (starts_with "wss://" (control_url config) = true → tls_cert_digest proof = Some (cert_digest (at_cert a))).

(** A connection is made with or without the rights to read the pin. *)
Inductive Round : Type := EnrollRound (a : Attempt) | ConnectRound (reads : bool) (a : Attempt).
Inductive Outcome : Type := Enrolled (r : res EnrollOutcome) | Connected (r : res HelloAck).

Definition run_round (h : Host) (r : Round) : Outcome * Host :=
  match r with
  | EnrollRound a => let '(o, h) := enroll_once config key boot_id h a in (Enrolled o, h)
  | ConnectRound reads a => (Connected (connect_handshake config key boot_id reads h a), h)
  end.

Fixpoint run_rounds (h : Host) (rs : list Round) : list Outcome * Host :=
  match rs with
  | [] => ([], h)
  | r :: rs => let '(o, h) := run_round h r in let '(os, h) := run_rounds h rs in (o :: os, h)
  end.

(** What a connection without those rights still knows of an acknowledgment:
    a proof in it is by the key it names, and over TLS the certificate is the
    one of the copy all may read, if there is one. *)
Definition unpinned_ack (runtime : option string) (a : Attempt) (ack : HelloAck) : Prop :=
  (∀ proof, control_proof ack = Some proof → proof_by (p_public_key proof) a) ∧
  (starts_with "wss://" (control_url config) = true → ∀ cert, runtime = Some cert → at_cert a = cert).

(** Whatever a round accepts comes from the holder of [K], provided it can
    read the pin. *)
Definition only_from (K : string) (runtime : option string) (r : Round) (o : Outcome) : Prop :=
  match r, o with
  | EnrollRound a, Enrolled (Ok (Delivered p)) => proof_by K a ∧ config_proven K (at_nonce a) p
  | EnrollRound a, Enrolled (Ok NoConfiguration) => proof_by K a
  | ConnectRound true a, Connected (Ok _) => proof_by K a
  | ConnectRound false a, Connected (Ok ack) => unpinned_ack runtime a ack
  | _, _ => True
  end.

(** The certificate of the copy, if it has one, is there. *)
Definition copy_kept (runtime : option string) (h : Host) : Prop :=
  ∀ cert, runtime = Some cert → (tls_runtime h ≫= pem_cert) = Some cert.

Lemma exchange_spec h a seen challenge hello ack frames :
  exchange config key boot_id h a = Ok (seen, challenge, hello, ack, frames) →
  hello = hello_of a challenge ∧
  seen = (if starts_with "wss://" (control_url config) then Some (at_cert a) else None) ∧
  (starts_with "wss://" (control_url config) = true → verify_server_cert (tls_pinned h) (at_cert a) = true) ∧
  match ack with inl ack => answers a challenge ack | inr _ => ∀ c k, ¬ answers a c k end.
Proof.
  unfold exchange. intros (seen' & Hc & ([c rest] & Hch & Hr)%res_bind_Ok)%res_bind_Ok.
  destruct (negb _); [done|]. apply res_bind_Ok in Hr as ([ack' frames'] & Ha & Hr).
  assert (Hseen : seen' = (if starts_with "wss://" (control_url config) then Some (at_cert a) else None) ∧
    (starts_with "wss://" (control_url config) = true → verify_server_cert (tls_pinned h) (at_cert a) = true)).
  { unfold connect_control in Hc. destruct (starts_with _ _); [|by injection Hc as <-].
    destruct (verify_server_cert _ _); [|done]. by injection Hc as <-. }
  assert (Hf : at_frames a = Text (Challenge c) :: rest).
  { unfold receive_challenge in Hch. by destruct (at_frames a) as [|[[]| | |] ?]; simplify_eq. }
  destruct ack' as [ack'|reason].
  - destruct (negb _); [done|]. injection Hr as <- <- <- <- <-. destruct Hseen as [Hseen Hv].
    split_and!; [done..|]. unfold receive_ack in Ha. destruct rest as [|[[]| | |] rest]; try done; [by destruct (at_end a)|].
    destruct (negb _); [done|]. apply res_bind_Ok in Ha as (ack & Hk%ok_or_Ok & [= <- <-]).
    by eexists _, _.
  - injection Hr as <- <- <- <- <-. destruct Hseen as [Hseen Hv]. split_and!; [done..|].
    intros c' k (env & fr & Hf' & _). rewrite Hf in Hf'. injection Hf' as -> ->. cbn in Ha.
    destruct (negb _); [done|]. by apply res_bind_Ok in Ha as (? & _ & ?).
Qed.

Lemma await_config_delivered pin nonce fragments frames e p :
  await_config pin nonce fragments frames e = Ok (Delivered p) →
  verify_config pin (cp_digest p) nonce (cp_signature p) = Ok tt.
Proof.
  revert fragments. induction frames as [|f frames IH]; intros fragments; cbn; [by destruct e|].
  destruct f as [[]| | |]; try done; [|by apply IH..].
  destruct (push fragments envelope) as [r fragments']. intros ([m|] & _ & Hr)%res_bind_Ok; [|by eapply IH].
  case_bool_decide; [|by eapply IH]. apply res_bind_Ok in Hr as (p' & _ & Hr).
  destruct (payload_is_empty p'); [done|]. apply res_bind_Ok in Hr as ([] & Hv & [= <-]). done.
Qed.

(** An enrollment with a pin of [K] keeps it. *)
Lemma enroll_pinned K h a : pinned (control_pin h) = Some K →
  let '(o, h') := enroll_once config key boot_id h a in
  pinned (control_pin h') = Some K ∧ ∀ R, only_from K R (EnrollRound a) (Enrolled o).
Proof.
  intros HK. unfold enroll_once. destruct (exchange _ _ _ h a) as [[[[[seen challenge] hello] ack] frames]|] eqn:E;
    [|done]. apply exchange_spec in E as (-> & -> & _ & Ha). destruct ack as [ack|]; [|done].
  destruct (pin_verify _ _ _ _) as [outcome|] eqn:Hp; [|done].
  apply (pin_verify_pinned _ _ _ _ _ _ HK) in Hp as [-> (proof & Hproof & Hk)].
  destruct (verify_tls_binding _ _ _ _) as [h'|] eqn:Hb; [|done].
  apply tls_binding_spec in Hb as (Hc & _ & _ & Hd & _). rewrite Hc. split; [done|].
  assert (Hby : proof_by K a).
  { exists challenge, ack, proof. split_and!; [done..|]. intros Hw. rewrite Hw in Hd. by eapply Hd. }
  destruct (await_config _ _ _ _ _) as [[p| |]|] eqn:Hw; [|done..]. split; [done|].
  apply await_config_delivered in Hw. by eapply verify_config_pinned.
Qed.

(** The first enrollment that offers a proof pins its key. *)
Lemma enroll_first h a challenge ack proof o h' : enroll_once config key boot_id h a = (Ok o, h') →
  answers a challenge ack → control_proof ack = Some proof →
  pinned (control_pin h') = Some (p_public_key proof) ∧
  ∀ R, only_from (p_public_key proof) R (EnrollRound a) (Enrolled (Ok o)).
Proof.
  intros He (env & fr & Hf & Hack) Hproof.
  destruct (pinned (control_pin h)) as [K|] eqn:HK.
  - pose proof (enroll_pinned K h a HK) as Hp. rewrite He in Hp. destruct Hp as [Hp Ho].
    enough (K = p_public_key proof) as -> by done.
    unfold enroll_once in He. destruct (exchange _ _ _ h a) as [[[[[seen c] hello] k] frames]|] eqn:E; [|done].
    apply exchange_spec in E as (-> & -> & _ & Ha). destruct k as [k|]; [|by destruct (Ha challenge ack); eexists _, _].
    destruct Ha as (? & ? & Hf' & Hk). rewrite Hf in Hf'. simplify_eq. rewrite Hproof in He.
    destruct (pin_verify _ _ _ _) as [outcome|] eqn:Hv; [|done].
    apply (pin_verify_pinned _ _ _ _ _ _ HK) in Hv as [_ (p & [= <-] & [Hk' _])]. done.
  - unfold enroll_once in He. destruct (exchange _ _ _ h a) as [[[[[seen c] hello] k] frames]|] eqn:E; [|done].
    apply exchange_spec in E as (-> & -> & _ & Ha). destruct k as [k|]; [|by destruct (Ha challenge ack); eexists _, _].
    destruct Ha as (env' & fr' & Hf' & Hk). rewrite Hf in Hf'. simplify_eq. rewrite Hproof in He.
    destruct (pin_verify _ _ _ _) as [outcome|] eqn:Hv; [|done].
    apply pin_verify_offered in Hv as [Hk' [[-> _]|[_ ?]]]; [|congruence].
    destruct (verify_tls_binding _ _ _ _) as [h2|] eqn:Hb; [|done].
    apply tls_binding_spec in Hb as (Hc & _ & _ & Hd & _). injection He as Hw <-.
    cbn [control_pin with_control_pin] in Hc.
    assert (HP : pinned (control_pin h2) = Some (p_public_key proof)) by (rewrite Hc; by eapply proven_pinnable).
    split; [done|].
    assert (Hby : proof_by (p_public_key proof) a).
    { eexists c, _, proof. split_and!; [by eexists _, _|done..|]. intros Hs. rewrite Hs in Hd. by eapply Hd. }
    destruct o as [p| |]; [|done..]. split; [done|]. apply await_config_delivered in Hw. by eapply verify_config_pinned.
Qed.

(** The copy is only written where no certificate is pinned. *)
Lemma binding_copy R seen proof persist h h' : copy_kept R h → verify_tls_binding seen proof persist h = Ok h' → copy_kept R h'.
Proof.
  intros Hk. unfold verify_tls_binding. destruct seen as [cert|]; [|by intros [= <-]].
  intros ([] & _ & [= <-])%res_bind_Ok. destruct (is_none (tls_pinned h)) eqn:E; [|done]. destruct persist; [|done].
  intros c Hc. specialize (Hk c Hc). unfold tls_pinned in E. rewrite Hk in E. by destruct (tls_pin h ≫= pem_cert).
Qed.

Lemma enroll_copy R h a : copy_kept R h → copy_kept R (enroll_once config key boot_id h a).2.
Proof.
  intros Hk. unfold enroll_once. destruct (exchange _ _ _ h a) as [[[[[seen challenge] hello] [ack|]] frames]|]; [|done..].
  destruct (pin_verify _ _ _ _) as [outcome|]; [|done]. set (h1 := match outcome with FirstPairing _ => _ | _ => _ end).
  assert (Hk1 : copy_kept R h1) by (unfold h1; by destruct outcome).
  destruct (verify_tls_binding _ _ _ h1) as [h'|] eqn:Hb; [|done]. by eapply binding_copy.
Qed.

Lemma connect_accepts K R reads h a ack : pinned (control_pin h) = Some K → copy_kept R h →
  connect_handshake config key boot_id reads h a = Ok ack → only_from K R (ConnectRound reads a) (Connected (Ok ack)).
Proof.
  intros HK HR E. unfold connect_handshake in E. apply res_bind_Ok in E as ([[[[seen c] hello] k] frames] & Hx & E).
  apply exchange_spec in Hx as (-> & -> & Hcert & Ha). destruct k as [k|]; [|done].
  apply res_bind_Ok in E as (outcome & Hp & (h2 & Hb & [= ->])%res_bind_Ok).
  apply tls_binding_spec in Hb as (_ & _ & _ & Hd & _). destruct reads; cbn.
  - apply (pin_verify_pinned _ _ _ _ _ _ HK) in Hp as [_ (proof & Hproof & Hk)].
    eexists c, _, proof. split_and!; [done..|]. intros Hs. rewrite Hs in Hd. by eapply Hd.
  - split.
    + intros proof Hproof. rewrite Hproof in Hp. apply pin_verify_offered in Hp as [Hk _].
      eexists c, _, proof. split_and!; [done..|]. intros Hs. rewrite Hs in Hd. by eapply Hd.
    + intros Hs cert Hc. specialize (Hcert Hs). unfold tls_pinned, unprivileged in Hcert. cbn in Hcert.
      rewrite (HR cert Hc) in Hcert. cbn in Hcert. by apply bool_decide_eq_true in Hcert.
Qed.

Lemma rounds_pinned K R rs h : pinned (control_pin h) = Some K → copy_kept R h →
  let '(os, h') := run_rounds h rs in
  pinned (control_pin h') = Some K ∧ Forall2 (only_from K R) rs os.
Proof.
  revert h. induction rs as [|r rs IH]; intros h HK HR; [by split; [|constructor]|]. cbn [run_rounds].
  assert (Hr : let '(o, h') := run_round h r in pinned (control_pin h') = Some K ∧ copy_kept R h' ∧ only_from K R r o).
  { destruct r as [a|reads a]; cbn [run_round].
    - pose proof (enroll_pinned K h a HK) as Hp. pose proof (enroll_copy R h a HR) as Hc.
      destruct (enroll_once _ _ _ h a) as [o h']. destruct Hp as [? Hp]. split_and!; [done..|apply Hp].
    - split_and!; [done..|]. destruct (connect_handshake _ _ _ reads h a) as [ack|] eqn:E; [by eapply connect_accepts|].
      by destruct reads. }
  destruct (run_round h r) as [o h1]. destruct Hr as (HK1 & HR1 & Ho). specialize (IH h1 HK1 HR1).
  destruct (run_rounds h1 rs) as [os h2]. destruct IH as [HK2 Hos]. by split; [|constructor].
Qed.

(** ** The delivered file *)

Lemma enroll_delivered_file h a : delivered (enroll_once config key boot_id h a).2 = delivered h.
Proof.
  unfold enroll_once. destruct (exchange _ _ _ h a) as [[[[[seen c] hello] [k|]] frames]|]; [|done..].
  destruct (pin_verify _ _ _ _) as [outcome|]; [|done].
  destruct (verify_tls_binding _ _ _ _) as [h2|] eqn:Hb.
  - apply tls_binding_spec in Hb as (_ & Hd & _). cbn [snd]. rewrite Hd. by destruct outcome.
  - by destruct outcome.
Qed.

(** A configuration the holder of [K] signed for one of the connections. *)
Definition authentic (K : string) (attempts : list Attempt) (c : NodeRuntimeConfig) : Prop :=
  ∃ a p, a ∈ attempts ∧ proof_by K a ∧ config_proven K (at_nonce a) p ∧
    cp_digest p = rc_digest c ∧ rc_digest c = digest_of (rc_values c) ∧ Forall forwardable (rc_values c).

Lemma authentic_mono K l1 l2 c : l1 ⊆ l2 → authentic K l1 c → authentic K l2 c.
Proof. intros Hl (a & p & Ha & Hp). exists a, p. split; [by apply Hl|done]. Qed.

(** What let a start go on: such a configuration, or the word of the holder of
    [K] that there is none. *)
Definition started_by (K : string) (attempts : list Attempt) (o : option NodeRuntimeConfig) : Prop :=
  match o with Some c => authentic K attempts c | None => ∃ a, a ∈ attempts ∧ proof_by K a end.

Lemma started_by_mono K l1 l2 o : l1 ⊆ l2 → started_by K l1 o → started_by K l2 o.
Proof.
  intros Hl. destruct o as [c|]; [by apply authentic_mono|]. intros (a & Ha & Hp). exists a. split; [by apply Hl|done].
Qed.

Lemma started_by_proof K l o : started_by K l o → ∃ a, a ∈ l ∧ proof_by K a.
Proof. destruct o as [c|]; [|done]. intros (a & p & Ha & Hp & _). by exists a. Qed.

Lemma await_runtime_spec K attempts h : pinned (control_pin h) = Some K →
  let '(o, h', rest) := await_runtime_config config key boot_id h attempts in
  pinned (control_pin h') = Some K ∧ delivered h' = delivered h ∧ rest ⊆ attempts ∧
  match o with Some o => started_by K attempts o | None => True end.
Proof.
  revert h. induction attempts as [|a attempts IH]; intros h HK; [done|]. cbn [await_runtime_config].
  pose proof (enroll_pinned K h a HK) as He. pose proof (enroll_delivered_file h a) as Hd.
  destruct (enroll_once _ _ _ h a) as [o h1]. destruct He as [HK1 Ho]. specialize (Ho None). cbn in Hd.
  specialize (IH h1 HK1).
  assert (Hgo : let '(o, h', rest) := await_runtime_config config key boot_id h1 attempts in
    pinned (control_pin h') = Some K ∧ delivered h' = delivered h ∧ rest ⊆ a :: attempts ∧
    match o with Some o => started_by K (a :: attempts) o | None => True end).
  { destruct (await_runtime_config _ _ _ h1 attempts) as [[o2 h2] rest]. destruct IH as (? & Hd2 & Hr & Hc).
    split_and!; [done|congruence|set_solver|]. destruct o2 as [o2|]; [|done].
    eapply started_by_mono; [|done]. set_solver. }
  destruct o as [[p| |]|]; [|split_and!; [done..|set_solver|exists a; split; [set_solver|done]]|done..].
  destruct (accept_config p) as [c|] eqn:Hacc; [|done].
  split_and!; [done..|set_solver|]. apply accept_config_spec in Hacc as (Hf & Hdig & ->). destruct Ho as [Hby Hcp].
  exists a, p. split_and!; [set_solver|done..].
Qed.

Lemma bootstrap_spec K env attempts fuel h : pinned (control_pin h) = Some K →
  let '(started, h') := bootstrap_fuel config key boot_id fuel env h attempts in
  pinned (control_pin h') = Some K ∧
  (delivered h' = delivered h ∨ ∃ c, delivered h' = Some (render_env_file c) ∧ authentic K attempts c) ∧
  (started = true → ∃ a, a ∈ attempts ∧ proof_by K a).
Proof.
  revert h attempts. induction fuel as [|fuel IH]; intros h attempts HK; [by split_and!; [|left|]|].
  cbn [bootstrap_fuel]. pose proof (await_runtime_spec K attempts h HK) as Ha.
  destruct (await_runtime_config _ _ _ h attempts) as [[o h1] rest]. destruct Ha as (HK1 & Hd & Hr & Hc).
  destruct o as [[c|]|]; [|by split_and!; [|left|]..].
  set (h2 := with_delivered (write_delivered c (NodeTrust.delivered h1)).2 h1).
  assert (H2 : pinned (control_pin h2) = Some K ∧ delivered h2 = Some (render_env_file c)).
  { split; [done|]. unfold h2, write_delivered. cbn. by case_bool_decide. }
  destruct H2 as [HK2 Hd2]. destruct (matches_current_env env c).
  - split_and!; [done|right; by exists c|]. intros _. by apply (started_by_proof K _ (Some c)).
  - specialize (IH h2 rest HK2). destruct (bootstrap_fuel _ _ _ fuel env h2 rest) as [started h3].
    destruct IH as (HK3 & Hd3 & Hs). split_and!; [done| |].
    + right. destruct Hd3 as [Hd3|(c' & Hd3 & Hc')].
      * exists c. split; [congruence|done].
      * exists c'. split; [done|]. by eapply authentic_mono.
    + intros (a & Ha & Hp)%Hs. exists a. split; [by apply Hr|done].
Qed.

(** The rounds of the start are as many as there are attempts, or fewer. *)
Lemma await_runtime_shorter attempts h o h' rest : await_runtime_config config key boot_id h attempts = (Some o, h', rest) →
  (length rest < length attempts)%nat.
Proof.
  revert h. induction attempts as [|a attempts IH]; intros h; [done|]. cbn [await_runtime_config length].
  destruct (enroll_once _ _ _ h a) as [r h1].
  assert (Hi : await_runtime_config config key boot_id h1 attempts = (Some o, h', rest) → (length rest < S (length attempts))%nat)
    by (intros Hi; apply IH in Hi; lia).
  destruct r as [[p| |]|]; [|intros [= <- <- <-]; lia|done..].
  destruct (accept_config p); [|done]. intros [= <- <- <-]. lia.
Qed.

Lemma bootstrap_fuel_enough env attempts h fuel : (length attempts < fuel)%nat →
  bootstrap_fuel config key boot_id fuel env h attempts = bootstrap_runtime_config config key boot_id env h attempts.
Proof.
  unfold bootstrap_runtime_config. generalize (Nat.lt_succ_diag_r (length attempts)).
  generalize (S (length attempts)). intros fuel'. revert fuel' h attempts.
  induction fuel as [|fuel IH]; intros [|fuel'] h attempts H1 H2; try lia. cbn [bootstrap_fuel].
  destruct (await_runtime_config _ _ _ h attempts) as [[[[c|]|] h1] rest] eqn:E; [|done..].
  apply await_runtime_shorter in E. destruct (matches_current_env env c); [done|]. apply IH; lia.
Qed.

(** An enrollment that is still waiting has met every attempt. *)
Lemma await_app h attempts more :
  let '(o, h', rest) := await_runtime_config config key boot_id h attempts in
  match o with
  | Some o => await_runtime_config config key boot_id h (attempts ++ more) = (Some o, h', rest ++ more)
  | None => await_runtime_config config key boot_id h (attempts ++ more) = await_runtime_config config key boot_id h' more
  end.
Proof.
  revert h. induction attempts as [|a attempts IH]; intros h; [done|]. cbn [await_runtime_config app].
  destruct (enroll_once _ _ _ h a) as [[[p| |reason]|e] h1]; [|done|apply IH..].
  destruct (accept_config p); [done|apply IH].
Qed.

Lemma bootstrap_resumes env h attempts h1 more :
  bootstrap_fuel config key boot_id (S (length attempts)) env h attempts = (false, h1) →
  bootstrap_runtime_config config key boot_id env h (attempts ++ more) =
  bootstrap_runtime_config config key boot_id env h1 more.
Proof.
  rewrite <-(bootstrap_fuel_enough env (attempts ++ more) h (S (length attempts) + length more))
    by (rewrite length_app; lia).
  assert (Hlen : (length attempts < S (length attempts))%nat) by lia. revert Hlen.
  generalize (S (length attempts)). intros fuel. revert h attempts.
  induction fuel as [|fuel IH]; intros h attempts; [lia|]. intros Hlen. cbn [bootstrap_fuel plus].
  pose proof (await_app h attempts more) as Ha.
  destruct (await_runtime_config _ _ _ h attempts) as [[[[c|]|] h2] rest] eqn:E; [|done|].
  - rewrite Ha. destruct (matches_current_env env c); [done|]. apply await_runtime_shorter in E.
    apply IH. lia.
  - intros [= <-]. rewrite Ha. rewrite <-(bootstrap_fuel_enough env more h2 (S (fuel + length more))) by lia. done.
Qed.
End client.

(** ** A node and a control plane that both follow the protocol *)

(** ** Messages are read as they were written *)

Lemma proof_read p : proof_of_value (proof_value p) = Some p.
Proof. destruct p as [k [d|] s]; vm_compute; reflexivity. Qed.

Lemma unsigned_read bits n : 0 ≤ n < 2 ^ bits → unsigned bits (Number (PosInt n)) = Some n.
Proof. intros [H1 H2]. unfold unsigned. by rewrite (proj2 (Z.leb_le _ _) H1), (proj2 (Z.ltb_lt _ _) H2). Qed.

Lemma ack_read a : 0 ≤ ack_protocol_version a < 2 ^ 32 → 0 ≤ heartbeat_interval_secs a < 2 ^ 64 →
  ack_of_value (ack_value a) = Some a.
Proof.
  intros Hv Hi. destruct a as [v i p]. cbn in Hv, Hi.
  transitivity (v ← unsigned 32 (Number (PosInt v)); i ← unsigned 64 (Number (PosInt i));
    p ← optional proof_of_value (Some match p with Some p => proof_value p | None => Null end); Some (mkAck v i p));
    [reflexivity|].
  rewrite !unsigned_read by done. cbn [mbind option_bind]. destruct p as [p|]; [|done].
  change (optional proof_of_value (Some (proof_value p))) with (p ← proof_of_value (proof_value p); Some (Some p)).
  by rewrite proof_read.
Qed.

Lemma string_values_read vs : string_values (Object (prod_map id Str <$> vs)) = Some vs.
Proof.
  unfold string_values. cbn [as_object mbind option_bind]. induction vs as [|[k v] vs IH]; [done|]. cbn in *. by rewrite IH.
Qed.

Lemma config_read p : config_of_value (config_value p) = Some p.
Proof.
  destruct p as [d vs s].
  transitivity (vs ← string_values (Object (prod_map id Str <$> vs)); s ← optional as_str (Some (json_opt_str s));
    Some (mkConfigPayload d vs s)); [reflexivity|].
  rewrite string_values_read. by destruct s.
Qed.

Section pairing.
Context `{UuidText, C : Crypto, W : Wire, Payloads, !CryptoLaws C}.

(** The identity as [identity_of] builds it. *)
Definition genuine (i : ControlIdentity) : Prop := id_public i = b64url_encode (key_public (id_key i)).

Lemma identity_of_genuine document i : identity_of document = Ok i → genuine i.
Proof. unfold identity_of. by intros (key & _ & [= <-])%res_bind_Ok. Qed.

Lemma key_length key : byte_len (key_public key) = 32.
Proof. eapply verify_key_length, (verify_sign key ""). Qed.

(** ** The node to the control plane *)

Lemma node_key_read key : decode_node_public_key (b64url_encode (key_public key)) = Some (key_public key).
Proof. unfold decode_node_public_key. rewrite b64url_decode_encode. cbn. by rewrite key_length. Qed.

Lemma signed_hello_signed n boot key challenge nonce :
  hello_signed (key_public key) (signed_hello n boot key challenge nonce) challenge = true.
Proof. unfold hello_signed, signed_hello. cbn [h_signature]. rewrite b64url_decode_encode. apply verify_sign. Qed.

(** The first steps of the control plane on a genuine hello. *)
Lemma genuine_hello policy n boot key challenge nonce connection now c :
  ch_protocol_version challenge = NODE_PROTOCOL_VERSION →
  (∀ kind k, credential n (ct_db c) = Some (k, kind) → kind = Ed25519) →
  let hello := signed_hello n boot key challenge nonce in
  authenticate_and_register policy hello challenge connection now c =
    if bool_decide (credential n (ct_db c) ≫= fst = Some (key_public key))
    then register policy hello ((λ i, prove_handshake i challenge hello (po_tls_digest policy)) <$> po_identity policy)
           connection now c
    else match request_pairing n (key_public key) now (ct_db c) with
         | (inr e, d) => (inr e, with_db d c)
         | (inl _, d) => (inr PairingRequired, with_db d c)
         end.
Proof.
  intros Hv Hk. cbn zeta. unfold authenticate_and_register, validate_hello.
  change (h_protocol_version (signed_hello _ _ _ _ _)) with NODE_PROTOCOL_VERSION.
  change (h_node_id (signed_hello n boot key challenge nonce)) with n.
  rewrite Hv, Z.eqb_refl. cbn [negb]. rewrite orb_false_r.
  assert (E : match credential n (ct_db c) with Some (_, kind) => negb (bool_decide (kind = Ed25519)) | None => false end
    = false).
  { destruct (credential n (ct_db c)) as [[k kind]|]; [|done]. by rewrite (Hk kind k eq_refl). }
  rewrite E. unfold handshake_keys. cbn [h_public_key signed_hello]. rewrite node_key_read. cbn iota beta.
  by rewrite signed_hello_signed.
Qed.

(** ** The control plane to the node *)

Lemma genuine_proof i challenge hello digest : genuine i →
  proven (id_public i) challenge hello (prove_handshake i challenge hello digest).
Proof.
  intros Hi. split; [done|]. eexists _, _. split_and!.
  - rewrite Hi. apply b64url_decode_encode.
  - apply b64url_decode_encode.
  - apply verify_sign.
Qed.

Lemma genuine_config i p nonce : genuine i → cp_signature p = Some (sign_config i (cp_digest p) nonce) →
  ∀ file, pinned file = Some (id_public i) → verify_config file (cp_digest p) nonce (cp_signature p) = Ok tt.
Proof.
  intros Hi Hs file Hf. unfold verify_config. rewrite Hf, Hs. cbn. unfold decode_identity.
  rewrite Hi, b64url_decode_encode. cbn. unfold sign_config. rewrite b64url_decode_encode. cbn. by rewrite verify_sign.
Qed.

(** What a node that is not paired with another control plane makes of a
    genuine proof. *)
Lemma genuine_pin i file challenge hello digest : genuine i →
  pinned file = None ∨ pinned file = Some (id_public i) →
  pin_verify file (Some (prove_handshake i challenge hello digest)) challenge hello =
    Ok (if is_none (pinned file) then FirstPairing (id_public i) else Matched).
Proof.
  intros Hi Hf. unfold pin_verify.
  rewrite (proj2 (verify_proof_spec _ _ _) (genuine_proof i challenge hello digest Hi)). cbn [mbind res_bind].
  destruct Hf as [-> | ->]; [done|]. cbn [p_public_key prove_handshake]. by rewrite bool_decide_true.
Qed.

(** The certificate is the one that was signed, and pinned if one is. *)
Definition same_cert (h : Host) (cert : string) : Prop := tls_pinned h = None ∨ tls_pinned h = Some cert.

Lemma same_cert_verified h cert : same_cert h cert → verify_server_cert (tls_pinned h) cert = true.
Proof. intros [-> | ->]; [done|]. cbn. by rewrite bool_decide_true. Qed.

Lemma genuine_binding i challenge hello cert persist h :
  ∃ h', verify_tls_binding (Some cert) (Some (prove_handshake i challenge hello (Some (cert_digest cert)))) persist h = Ok h'.
Proof. unfold verify_tls_binding. cbn. rewrite bool_decide_true by done. cbn. by eexists. Qed.

Lemma genuine_exchange config key boot_id h cert nonce challenge e1 rest e ack :
  starts_with "wss://" (control_url config) = true → same_cert h cert →
  ch_protocol_version challenge = NODE_PROTOCOL_VERSION →
  message_kind e1 = "control.hello_ack" → payload e1 = ack_value ack →
  ack_protocol_version ack = NODE_PROTOCOL_VERSION → 0 ≤ heartbeat_interval_secs ack < 2 ^ 64 →
  exchange config key boot_id h (mkAttempt cert nonce (Text (Challenge challenge) :: Text (Envelope e1) :: rest) e) =
    Ok (Some cert, challenge, signed_hello (client_node_id config) boot_id key challenge nonce, inl ack, rest).
Proof.
  intros Hw Hc Hv Hk Hp Hav Hi. unfold exchange, connect_control. cbn [at_cert at_frames at_nonce at_end].
  rewrite Hw, (same_cert_verified h cert Hc). cbn. rewrite Hv. cbn. rewrite Hk. cbn.
  rewrite Hp, ack_read; [|by rewrite Hav|done]. cbn. rewrite bool_decide_true by done. cbn. by rewrite Hav.
Qed.

(** A genuine enrollment delivers what the control plane sent, and pins its
    identity and its certificate; a connection over them is then accepted. *)
(** What binding records is the certificate seen. *)
Lemma binding_same_cert cert proof persist h h' : same_cert (unprivileged h) cert →
  verify_tls_binding (Some cert) proof persist h = Ok h' → same_cert (unprivileged h') cert.
Proof.
  intros Hs. unfold verify_tls_binding. intros ([] & _ & [= <-])%res_bind_Ok.
  destruct (_ && persist); [|done]. right. unfold tls_pinned. cbn. by rewrite pem_cert_encode.
Qed.

Lemma genuine_enrollment config key boot_id h cert nonce challenge e1 e2 rest e interval i p :
  let ack := mkAck NODE_PROTOCOL_VERSION interval
    (Some (prove_handshake i challenge (signed_hello (client_node_id config) boot_id key challenge nonce)
             (Some (cert_digest cert)))) in
  let a := mkAttempt cert nonce
    (Text (Challenge challenge) :: Text (Envelope e1) :: Text (Envelope e2) :: rest) e in
  starts_with "wss://" (control_url config) = true → same_cert h cert →
  pinned (control_pin h) = None ∨ pinned (control_pin h) = Some (id_public i) → genuine i →
  ch_protocol_version challenge = NODE_PROTOCOL_VERSION → 0 ≤ interval < 2 ^ 64 →
  message_kind e1 = "control.hello_ack" → payload e1 = ack_value ack →
  message_kind e2 = "control.node_config" → payload e2 = config_value p →
  payload_is_empty p = false → cp_signature p = Some (sign_config i (cp_digest p) nonce) →
  ∃ h', enroll_once config key boot_id h a = (Ok (Delivered p), h') ∧
    pinned (control_pin h') = Some (id_public i) ∧ tls_pinned h' = Some cert ∧
    ∀ reads, reads = true ∨ same_cert (unprivileged h) cert → connect_handshake config key boot_id reads h' a = Ok ack.
Proof.
  cbn zeta. intros Hw Hc Hpin Hi Hv Hint Hk1 Hp1 Hk2 Hp2 Hne Hs. set (hello := signed_hello _ _ _ _ _) in *.
  set (proof := prove_handshake _ _ _ _) in *. set (a := mkAttempt _ _ _ _).
  assert (Hx : ∀ h, same_cert h cert → exchange config key boot_id h a =
    Ok (Some cert, challenge, hello, inl (mkAck NODE_PROTOCOL_VERSION interval (Some proof)), Text (Envelope e2) :: rest)).
  { intros h' Hc'. by apply genuine_exchange. }
  unfold enroll_once. rewrite (Hx h Hc). cbn [control_proof].
  unfold proof at 1. rewrite genuine_pin by done. fold proof.
  set (h1 := match (if is_none (pinned (control_pin h)) then _ else _) with FirstPairing k => _ | _ => _ end).
  assert (H1 : pinned (control_pin h1) = Some (id_public i) ∧ tls_pinned h1 = tls_pinned h).
  { unfold h1. destruct Hpin as [E|E]; rewrite E; cbn [is_none]; [|done].
    split; [|done]. exact (proven_pinnable _ _ _ _ (genuine_proof i challenge hello None Hi)). }
  destruct H1 as [Hpin1 Htls1].
  destruct (genuine_binding i challenge hello cert true h1) as [h2 Hb]. fold proof in Hb. rewrite Hb.
  pose proof (tls_binding_spec _ _ _ _ _ Hb) as (Hc2 & _ & Hkeep & _ & Hnew).
  assert (Hpin2 : pinned (control_pin h2) = Some (id_public i)) by by rewrite Hc2.
  assert (Htls2 : tls_pinned h2 = Some cert).
  { destruct Hc as [Hc|Hc]; [apply Hnew; [done..|by rewrite Htls1]|apply Hkeep; by rewrite Htls1]. }
  exists h2. split_and!; [|done..|].
  - f_equal. cbn [await_config at_nonce]. unfold push. rewrite Hk2. cbn [negb]. rewrite bool_decide_false by done.
    cbn [negb mbind res_bind]. rewrite Hk2, bool_decide_true by done. rewrite Hp2, config_read. cbn [ok_or mbind res_bind].
    rewrite Hne. change (at_nonce a) with nonce. by rewrite (genuine_config i p nonce Hi Hs _ Hpin2).
  - intros reads Hreads. unfold connect_handshake. set (h3 := if reads then h2 else unprivileged h2).
    assert (H3 : same_cert h3 cert).
    { unfold h3. destruct reads; [by right|]. destruct Hreads as [?|Hs3]; [done|]. eapply binding_same_cert; [|done].
      unfold h1. by destruct (if is_none _ then _ else _). }
    assert (Hp3 : pinned (control_pin h3) = None ∨ pinned (control_pin h3) = Some (id_public i)).
    { unfold h3. destruct reads; [by right|by left]. }
    rewrite (Hx h3 H3). cbn [mbind res_bind control_proof].
    pose proof (genuine_pin i (control_pin h3) challenge hello (Some (cert_digest cert)) Hi Hp3) as Hv3.
    fold proof in Hv3. rewrite Hv3. cbn [mbind res_bind]. destruct (genuine_binding i challenge hello cert false h3) as [h4 Hb4].
    fold proof in Hb4. by rewrite Hb4.
Qed.

(** What the environment delivers is not empty. *)
Lemma from_env_delivers env c signature : config_from_env env = Ok (Some c) →
  payload_is_empty (mkConfigPayload (rc_digest c) (rc_values c) signature) = false.
Proof.
  unfold config_from_env. intros (values & _ & Hc)%res_bind_Ok. case_bool_decide as Hne; [done|].
  injection Hc as <-. unfold payload_is_empty. cbn. by rewrite bool_decide_false.
Qed.

(** ** The key of the node *)

(** A node without a row asks, an operator approves, and its key is on record. *)
Lemma key_approved n key t1 t2 d : n = DEDICATED_NODE_ID → dev_nodes d !! n = None →
  ∃ d1 d2, request_pairing n (key_public key) t1 d = (inl tt, d1) ∧ store_approve_pairing n t2 d1 = (inl tt, d2) ∧
    credential n d2 = Some (Some (key_public key), Ed25519).
Proof.
  intros -> Hn. unfold request_pairing. rewrite key_length, Hn, bool_decide_true by done. cbn.
  eexists _, _. split; [done|]. unfold store_approve_pairing. cbn [dev_nodes set_nodes].
  rewrite lookup_insert_eq, bool_decide_true by done. cbn. split; [done|].
  unfold credential. cbn. by rewrite lookup_insert_eq.
Qed.

Lemma registered_approved policy hello proof connection now c : validate_hello hello = true →
  is_Some (dev_nodes (ct_db c) !! h_node_id hello) →
  ∃ c', register policy hello proof connection now c =
    (inl (mkRegistered connection (h_node_id hello) (h_boot_id hello) (NodeWire.node_nonce hello)
            (hello_ack policy proof)), c').
Proof.
  intros Hv [r Hr]. unfold register. rewrite Hv. unfold record_connection. rewrite Hr. by eexists.
Qed.
End pairing.
