(* ===== verification/PtySessionsInv.v ===== *)
(** * What holds of the session rows

    The invariant of [pty_sessions] and [claude_sessions] under every writer,
    in any order, and what each writer may do to a row that has ended. *)

From S2P Require Import Prelude Text Activity Submitted PtySessions NodeWire NodeTrust NodeStore.

(** ** One write

    Each is one transaction; a correlation is three, between which any other
    write may come, or no more of them if the process dies. *)

Inductive Write : Type :=
  | WSpawn (id : string) (p : SpawnParams)
  | WDevenv (id ident : string)
  | WAbandon (id : string)
  | WDead (id : string) (code : option Z)
  | WOrphaned (id : string)
  | WDelete (id : string)
  | WAgentStarting (id agent : string)
  | WRuntime (msg : RuntimeMsg)
  | WUpsertSession (msg : CorrelateMsg)
  | WRelease (msg : CorrelateMsg)
  | WPoint (msg : CorrelateMsg)
  | WMetadata (id : string) (label : option (option string)) (pinned : option bool) (color : option (option string))
  | WName (id : string) (name : option string)
  | WNodeGone (node : Uuid)
  | WBootGone (node boot : Uuid)
  | WHeartbeat (node boot : Uuid) (live : list string) (complete : bool).

Definition heartbeat_sessions (node boot : Uuid) (live : list string) (complete : bool) (now : Z) (w : Sessions) : Sessions :=
  let w := if bool_decide (live = []) then w else adopt_sessions node boot live w in
  if complete then reconcile_missing_sessions node live now w else w.

Definition write (op : Write) (now : Z) (w : Sessions) : Sessions :=
  match op with
  | WSpawn id p => match persist_spawn id p now w with Ok w' => w' | Err _ => w end
  | WDevenv id ident => record_devenv id ident w
  | WAbandon id => abandon_unspawned_row id now w
  | WDead id code => mark_dead id code now w
  | WOrphaned id => mark_orphaned id now w
  | WDelete id => delete_row id now w
  | WAgentStarting id agent => match mark_agent_starting id agent now w with Ok w' => w' | Err _ => w end
  | WRuntime msg => (apply_runtime msg now [] w).2
  | WUpsertSession msg => upsert_session msg w
  | WRelease msg => release_others msg w
  | WPoint msg => point_at msg now w
  | WMetadata id label pinned color => update_metadata id label pinned color w
  | WName id name => match session_name_set id name w with Ok (_, w') => w' | Err _ => w end
  | WNodeGone node => mark_sessions_disconnected node now w
  | WBootGone node boot => disconnect_sessions node boot now w
  | WHeartbeat node boot live complete => heartbeat_sessions node boot live complete now w
  end.

(** The writes of a correlation that nothing interrupts. *)
Definition correlation (msg : CorrelateMsg) (now : Z) : list (Write * Z) :=
  [(WUpsertSession msg, now); (WRelease msg, now); (WPoint msg, now)].

Definition empty_sessions : Sessions := mkSessions ∅ ∅ ∅.

Definition writes (ops : list (Write * Z)) (w : Sessions) : Sessions := foldl (λ w op, write op.1 op.2 w) w ops.

(** ** Rows *)

Definition ended_state (s : PtyState) : Prop := s = Dead ∨ s = Orphaned ∨ s = Deleted.

(** A session has an end exactly when it is not live. *)
Record life_ok (l : Life) : Prop := {
  li_ended : lf_state l = Live ↔ lf_ended_at l = None;
  li_code : lf_state l = Live → lf_exit_code l = None;
  li_reason : lf_end_reason l ≠ None → lf_state l = Orphaned ∨ lf_state l = Deleted;
}.

Definition runtime_ok (a : AgentRuntime) : Prop :=
  match ar_state a with
  | NoAgent => a = no_runtime
  | StartingAgent | RunningAgent =>
      ar_agent a ≠ None ∧ ar_started_at a ≠ None ∧ ar_ended_at a = None ∧ ar_exit_code a = None
  | ExitedAgent => ar_agent a ≠ None ∧ ar_started_at a ≠ None ∧ ar_ended_at a ≠ None
  end.

Record row_ok (r : PtyRow) : Prop := {
  ro_life : life_ok (pr_life r);
  ro_runtime : runtime_ok (pr_runtime r);
  ro_alive : agent_alive (pr_runtime r) = true → lf_state (pr_life r) = Live ∨ lf_state (pr_life r) = Deleted;
  ro_current : cu_session (pr_current r) ≠ None → cu_agent (pr_current r) ≠ None ∧ cu_correlated_at (pr_current r) ≠ None;
}.

Record sessions_ok (w : Sessions) : Prop := { so_rows : map_Forall (λ _, row_ok) (pty_sessions w) }.

Lemma correlation_writes msg now w : writes (correlation msg now) w = correlate msg now w.
Proof. done. Qed.

(** ** Updates *)

Lemma update_row_lookup id guard f w j : pty_sessions (update_row id guard f w).2 !! j =
  (λ r, if bool_decide (j = id) && guard r then f r else r) <$> pty_sessions w !! j.
Proof.
  unfold update_row. destruct (decide (j = id)) as [->|Hne].
  - destruct (pty_sessions w !! id) as [r|] eqn:E; cbn; [|done].
    rewrite bool_decide_true by done. destruct (guard r); cbn; [by rewrite lookup_insert_eq|done].
  - rewrite bool_decide_false by done. cbn. destruct (pty_sessions w !! id) as [r|]; [destruct (guard r)|]; cbn;
      rewrite ?lookup_insert_ne by done; by destruct (pty_sessions w !! j).
Qed.

Lemma update_row_claude id guard f w : claude_sessions (update_row id guard f w).2 = claude_sessions w.
Proof. unfold update_row. destruct (pty_sessions w !! id) as [r|]; [|done]. by destruct (guard r). Qed.

Lemma update_rows_lookup guard f w j : pty_sessions (update_rows guard f w) !! j =
  (λ r, if guard j r then f r else r) <$> pty_sessions w !! j.
Proof. cbn. rewrite map_lookup_imap. by destruct (pty_sessions w !! j). Qed.

(** A write of rows that keeps them well-formed. *)
Lemma sessions_ok_map w w' (g : string → PtyRow → PtyRow) : sessions_ok w → (∀ id r, row_ok r → row_ok (g id r)) →
  (∀ j, pty_sessions w' !! j = g j <$> pty_sessions w !! j) → sessions_ok w'.
Proof.
  intros [Hr] Hg Hl. split. intros id r. rewrite Hl. intros (r' & Hr' & ->)%fmap_Some. by apply Hg, (Hr id).
Qed.

Lemma update_row_ok id guard f w : sessions_ok w → (∀ r, row_ok r → guard r = true → row_ok (f r)) →
  sessions_ok (update_row id guard f w).2.
Proof.
  intros Hw Hf. eapply (sessions_ok_map w _ (λ j r, if bool_decide (j = id) && guard r then f r else r)); [done| |].
  - intros j r Hr. destruct (bool_decide (j = id) && guard r) eqn:E; [|done].
    apply andb_true_iff in E as [_ Hg]. by apply Hf.
  - intros j. apply update_row_lookup.
Qed.

Lemma update_rows_ok guard f w : sessions_ok w → (∀ id r, row_ok r → guard id r = true → row_ok (f r)) →
  sessions_ok (update_rows guard f w).
Proof.
  intros Hw Hf. eapply (sessions_ok_map w _ (λ j r, if guard j r then f r else r)); [done| |].
  - intros j r Hr. destruct (guard j r) eqn:E; [by apply (Hf j)|done].
  - intros j. apply update_rows_lookup.
Qed.

Lemma sessions_ok_activity a w : sessions_ok w → sessions_ok (set_activity_state a w).
Proof. by intros [?]. Qed.

(** ** Parts of a row *)

Lemma is_live_spec r : is_live r = true ↔ lf_state (pr_life r) = Live.
Proof. unfold is_live. apply bool_decide_eq_true. Qed.

Lemma alive_spec a : agent_alive a = true ↔ ar_state a = StartingAgent ∨ ar_state a = RunningAgent.
Proof. unfold agent_alive. by rewrite orb_true_iff, !bool_decide_eq_true. Qed.

Lemma runtime_ok_alive a : runtime_ok a → agent_alive a = true →
  ar_agent a ≠ None ∧ ar_started_at a ≠ None ∧ ar_ended_at a = None ∧ ar_exit_code a = None.
Proof. unfold runtime_ok. intros Ha [E|E]%alive_spec; by rewrite E in Ha. Qed.

(** However the agent ends with its terminal, its record is complete. *)
Lemma ends_ok (f : AgentRuntime → AgentRuntime) a : runtime_ok a →
  (f a = if agent_alive a then mkRuntime (ar_agent a) ExitedAgent (ar_started_at a) (ar_ended_at (f a)) (ar_exit_code (f a)) else a) →
  (agent_alive a = true → ar_ended_at (f a) ≠ None) → runtime_ok (f a) ∧ agent_alive (f a) = false.
Proof.
  intros Ha Hf He. destruct (agent_alive a) eqn:E.
  - destruct (runtime_ok_alive a Ha E) as (H1 & H2 & _). rewrite Hf. split; [|done]. unfold runtime_ok. cbn.
    split_and!; [done..|by apply He].
  - by rewrite Hf.
Qed.

(** A live terminal ends, and its agent with it. *)
Lemma end_row_ok r l (f : AgentRuntime → AgentRuntime) : row_ok r → life_ok l → lf_state l ≠ Live →
  runtime_ok (f (pr_runtime r)) ∧ agent_alive (f (pr_runtime r)) = false →
  row_ok (with_runtime (f (pr_runtime r)) (with_life l r)).
Proof. intros [Hl Hr Ha Hc] Hl' Hs [Hf Hd]. split; [done|done| |done]. cbn. by rewrite Hd. Qed.

Lemma binding_row_ok b r : row_ok r → row_ok (with_binding b r).
Proof. by intros [? ? ? ?]. Qed.

Lemma user_row_ok u r : row_ok r → row_ok (with_user u r).
Proof. by intros [? ? ? ?]. Qed.

Lemma runtime_row_ok a r : row_ok r → runtime_ok a → (agent_alive a = true → lf_state (pr_life r) = Live ∨ lf_state (pr_life r) = Deleted) →
  row_ok (with_runtime a r).
Proof. by intros [? ? ? ?] ? ?. Qed.

#[export] Hint Resolve binding_row_ok user_row_ok : sulion.

Lemma some_or_else {A} (o : option A) a : or_else o (Some a) ≠ None.
Proof. by destruct o. Qed.

(** ** Every write keeps the invariant *)

Lemma spawn_ok id p now w : sessions_ok w → sessions_ok (write (WSpawn id p) now w).
Proof.
  intros [Hr]. cbn. unfold persist_spawn.
  assert (Hrow : ∀ old, (∀ r, old = Some r → row_ok r) → row_ok (spawned_row p now old)).
  { intros old Hold. split; cbn.
    - by split.
    - unfold initial_agent_runtime. by destruct (sp_agent p).
    - by left.
    - destruct old as [r|]; [|done]. cbn. by apply Hold. }
  assert (Hok : ∀ old, pty_sessions w !! id = old →
    sessions_ok (set_ptys (<[id := spawned_row p now old]> (pty_sessions w)) w)).
  { intros old Hold. split. intros j x. cbn. rewrite lookup_insert_Some. intros [[<- <-]|[_ Hx]]; [|by apply (Hr j)].
    apply Hrow. intros r ->. by apply (Hr id). }
  destruct (pty_sessions w !! id) as [r|] eqn:E; [destruct (is_live r); [done|]|]; by apply Hok.
Qed.

Lemma current_row_ok c r : row_ok r → (cu_session c ≠ None → cu_agent c ≠ None ∧ cu_correlated_at c ≠ None) →
  row_ok (with_current c r).
Proof. by intros [? ? ? ?]. Qed.

Lemma runtime_write_ok msg now w : sessions_ok w → sessions_ok (apply_runtime msg now [] w).2.
Proof.
  intros Hw. unfold apply_runtime. destruct (rm_event msg).
  - cbn [running_attempts take RUNTIME_UPDATE_MAX_ATTEMPTS Nat.sub].
    assert (Hu : sessions_ok (update_row (rm_pty msg) is_live (λ r, with_runtime (runtime_running (rm_agent msg) now (pr_runtime r)) r) w).2).
    { apply update_row_ok; [done|]. intros r Hr Hl. apply runtime_row_ok; [done| |].
      - unfold runtime_ok. cbn. split_and!; [done|apply some_or_else|done..].
      - intros _. left. by apply is_live_spec. }
    destruct (update_row (rm_pty msg) is_live _ w) as [[] w']; cbn in Hu |- *; [|done].
    destruct (activity_set _ _ _ _ _ _ _ _) as [[x t]|]; [by apply sessions_ok_activity|done].
  - cbn. apply sessions_ok_activity. apply update_row_ok; [done|]. intros r Hr Hg. 
    unfold runtime_ends in Hg. apply andb_true_iff in Hg as [Ha _].
    destruct (runtime_ok_alive _ (ro_runtime r Hr) Ha) as (_ & H2 & _).
    apply runtime_row_ok; [done| |done]. unfold runtime_ok. cbn. split_and!; [apply some_or_else|done|done].
Qed.

Lemma write_ok op now w : sessions_ok w → sessions_ok (write op now w).
Proof.
  intros Hw. destruct op; cbn [write].
  - by apply spawn_ok.
  - apply update_row_ok; [done|]. intros r Hr _. by apply binding_row_ok.
  - apply update_row_ok; [done|]. intros r Hr Hl%is_live_spec. 
    destruct Hr as [[H1 H2 H3] Hru Ha Hc]. split; [|done|by right|done]. split; cbn; [by split|done|by right].
  - apply update_row_ok; [done|]. intros r Hr Hl%is_live_spec. apply end_row_ok; [done| |done|].
    + destruct (ro_life r Hr) as [_ _ Hx]. split; cbn; [by split|done|]. intros Hn. destruct (Hx Hn); congruence.
    + apply ends_ok; [by apply Hr| |]; unfold runtime_exited_with; by destruct (agent_alive _).
  - apply update_row_ok; [done|]. intros r Hr Hl%is_live_spec. apply end_row_ok; [done| |done|].
    + split; cbn; [by split|done|by left].
    + apply ends_ok; [by apply Hr| |]; unfold runtime_exited; by destruct (agent_alive _).
  - apply update_row_ok; [done|]. intros r Hr _.
    destruct Hr as [[H1 H2 H3] Hru Ha Hc]. split; [|done|by right|done]. split; cbn; [|done|by right].
    split; [done|]. intros Hn. by apply some_or_else in Hn.
  - unfold mark_agent_starting.
    assert (Hu : sessions_ok (update_row id is_live (with_runtime (mkRuntime (Some agent) StartingAgent (Some now) None None)) w).2).
    { apply update_row_ok; [done|]. intros r Hr Hl. apply runtime_row_ok; [done|done|].
      intros _. left. by apply is_live_spec. }
    by destruct (update_row id is_live _ w) as [[] w'].
  - by apply runtime_write_ok.
  - by destruct Hw.
  - apply update_rows_ok; [done|]. intros id r Hr _. by apply current_row_ok.
  - apply update_row_ok; [done|]. intros r Hr _. by apply current_row_ok.
  - unfold update_metadata. destruct (_ && _); [done|]. apply update_row_ok; [done|]. intros r Hr _.
    by apply user_row_ok.
  - unfold session_name_set. destruct (clean_name name) as [c|]; [|done]. cbn. apply update_row_ok; [done|].
    intros r Hr _. by apply user_row_ok.
  - apply update_rows_ok; [done|]. intros id r Hr _. by apply binding_row_ok.
  - apply update_rows_ok; [done|]. intros id r Hr _. by apply binding_row_ok.
  - unfold heartbeat_sessions.
    assert (Ha : sessions_ok (if bool_decide (live = []) then w else adopt_sessions node boot live w)).
    { case_bool_decide; [done|]. unfold adopt_sessions. apply update_rows_ok; [apply update_rows_ok; [done|]|];
        intros id r Hr _; by apply binding_row_ok. }
    set (w1 := if bool_decide _ then _ else _) in *. clearbody w1. destruct complete; [|done].
    apply update_rows_ok; [done|]. intros id r Hr Hg. unfold orphaned_row.
    apply binding_row_ok, end_row_ok; [done| |done|].
    + split; cbn; [|done|by left]. split; [done|]. intros Hn. by apply some_or_else in Hn.
    + apply ends_ok; [by apply Hr| |]; unfold runtime_exited_kept; destruct (agent_alive _); try done.
      intros _. apply some_or_else.
Qed.

Lemma empty_sessions_ok : sessions_ok empty_sessions.
Proof. by split. Qed.

Lemma writes_ok ops w : sessions_ok w → sessions_ok (writes ops w).
Proof. revert w. induction ops as [|op ops IH]; intros w Hw; [done|]. apply IH. by apply write_ok. Qed.

(** ** Where a session is current *)

Definition current_in (w : Sessions) (id : string) : option string :=
  r ← pty_sessions w !! id; cu_session (pr_current r).

(** A write that points no terminal at a session. *)
Definition points (op : Write) (id : string) : Prop :=
  match op with WPoint msg => co_pty msg = id | _ => False end.

(** The terminal is in the session it was in, or in none. *)
Definition stays (w w' : Sessions) : Prop := ∀ id, current_in w' id = current_in w id ∨ current_in w' id = None.

Lemma stays_refl w : stays w w.
Proof. by left. Qed.

Lemma stays_trans w1 w2 w3 : stays w1 w2 → stays w2 w3 → stays w1 w3.
Proof. intros H1 H2 id. destruct (H2 id) as [->|]; [apply H1|by right]. Qed.

Lemma update_row_stays id guard f w :
  (∀ r, cu_session (pr_current (f r)) = cu_session (pr_current r)) → stays w (update_row id guard f w).2.
Proof.
  intros Hf j. left. unfold current_in. rewrite update_row_lookup.
  destruct (pty_sessions w !! j) as [r|]; [|done]. cbn. by destruct (_ && _).
Qed.

Lemma update_rows_stays guard f w :
  (∀ r, cu_session (pr_current (f r)) = cu_session (pr_current r) ∨ cu_session (pr_current (f r)) = None) →
  stays w (update_rows guard f w).
Proof.
  intros Hf j. unfold current_in. rewrite update_rows_lookup.
  destruct (pty_sessions w !! j) as [r|]; [|by left]. cbn. destruct (guard j r); [apply Hf|by left].
Qed.

Lemma heartbeat_stays node boot live complete now w : stays w (heartbeat_sessions node boot live complete now w).
Proof.
  unfold heartbeat_sessions.
  assert (Ha : stays w (if bool_decide (live = []) then w else adopt_sessions node boot live w)).
  { case_bool_decide; [apply stays_refl|]. unfold adopt_sessions.
    eapply stays_trans; apply update_rows_stays; by left. }
  destruct complete; [|done]. eapply stays_trans; [exact Ha|]. apply update_rows_stays. by left.
Qed.

(** Only the last statement of a correlation makes a session current. *)
Lemma write_stays op now w : (∀ id, ¬ points op id) → stays w (write op now w).
Proof.
  intros Hop. destruct op; cbn [write]; try (apply update_row_stays; done); try (apply update_rows_stays; by left).
  - intros j. unfold persist_spawn, current_in. destruct (pty_sessions w !! id) as [r|] eqn:E; [destruct (is_live r); [by left|]|];
      cbn; (destruct (decide (id = j)) as [->|Hne]; [rewrite lookup_insert_eq, ?E; by left|rewrite lookup_insert_ne by done; by left]).
  - unfold mark_agent_starting.
    pose proof (update_row_stays id is_live (with_runtime (mkRuntime (Some agent) StartingAgent (Some now) None None)) w (λ _, eq_refl)) as Hst.
    destruct (update_row id is_live _ w) as [[] w']; [exact Hst|apply stays_refl].
  - unfold apply_runtime. destruct (rm_event msg).
    + cbn [running_attempts take RUNTIME_UPDATE_MAX_ATTEMPTS Nat.sub].
      pose proof (update_row_stays (rm_pty msg) is_live (λ r, with_runtime (runtime_running (rm_agent msg) now (pr_runtime r)) r) w (λ _, eq_refl)) as Hst.
      destruct (update_row (rm_pty msg) is_live _ w) as [[] w']; cbn in Hst |- *; [|done].
      by destruct (activity_set _ _ _ _ _ _ _ _) as [[x t]|].
    + by apply update_row_stays.
  - intros j. by left.
  - apply update_rows_stays. by right.
  - exfalso. by eapply Hop.
  - unfold update_metadata. destruct (_ && _); [apply stays_refl|]. by apply update_row_stays.
  - unfold session_name_set. destruct (clean_name name); [|apply stays_refl]. by apply update_row_stays.
  - apply heartbeat_stays.
Qed.

(** Nor does it in another terminal. *)
Lemma point_elsewhere msg now w id : co_pty msg ≠ id → current_in (point_at msg now w) id = current_in w id.
Proof.
  intros Hne. unfold current_in, point_at. rewrite update_row_lookup.
  rewrite bool_decide_false by congruence. by destruct (pty_sessions w !! id).
Qed.

(** A correlation that nothing interrupts leaves the session in its terminal
    only. *)
Lemma correlate_alone msg now w id : current_in (correlate msg now w) id = Some (co_session msg) → id = co_pty msg.
Proof.
  intros Hc. destruct (decide (id = co_pty msg)) as [->|Hne]; [done|]. exfalso. revert Hc.
  unfold correlate. rewrite point_elsewhere by congruence. unfold current_in, release_others.
  rewrite update_rows_lookup. cbn [pty_sessions upsert_session set_claude].
  destruct (pty_sessions w !! id) as [r|]; [|done]. cbn. rewrite (bool_decide_false (id = co_pty msg)) by done.
  rewrite andb_true_r. by case_bool_decide.
Qed.

Lemma correlate_claude msg now w :
  claude_sessions (correlate msg now w) !! co_session msg =
    Some (mkSession (transcript_agent (co_agent msg)) (Some (co_pty msg))).
Proof. unfold correlate, point_at. rewrite update_row_claude. apply lookup_insert_eq. Qed.

(** A row the node's report adopts. *)
Definition adopted_row (boot : Uuid) (r : PtyRow) : PtyRow :=
  with_binding (mkBinding (nb_node (pr_binding r)) (Some boot) None (nb_devenv (pr_binding r))) r.

Lemma adopted_same boot r : on_boot boot r = true → nb_disconnected_at (pr_binding r) = None → adopted_row boot r = r.
Proof.
  destruct r as [? ? ? ? ? ? [nn nb nd dv] ? ? ?]. unfold on_boot. cbn. intros ->%bool_decide_eq_true ->. done.
Qed.

Lemma adopt_lookup n boot live w id : pty_sessions (adopt_sessions n boot live w) !! id =
  (λ r, if on_node n r && is_live r && bool_decide (id ∈ live) then adopted_row boot r else r) <$> pty_sessions w !! id.
Proof.
  unfold adopt_sessions. rewrite !update_rows_lookup. destruct (pty_sessions w !! id) as [r|]; [|done]. cbn. f_equal.
  generalize (bool_decide (id ∈ live)). intros i.
  destruct (on_node n r) eqn:En; [|cbn; by rewrite En].
  destruct (is_live r) eqn:El; [|cbn; by rewrite En, El, !andb_false_r].
  destruct i; [|cbn; by rewrite En, El, !andb_false_r].
  destruct (on_boot boot r) eqn:Eb; cbn.
  - rewrite En, El, Eb. cbn. destruct (nb_disconnected_at (pr_binding r)) eqn:Ed; cbn; [|by rewrite adopted_same].
    unfold adopted_row. apply bool_decide_eq_true in Eb. by rewrite Eb.
  - change (on_node n (with_binding _ r)) with (on_node n r). by rewrite En, !andb_false_r.
Qed.

(** ** Rows that have ended *)

Definition spawns (id : string) (op : Write) : bool :=
  match op with WSpawn j _ => bool_decide (j = id) | _ => false end.

(** What may happen to the life of a row that is not live: it can be deleted. *)
Definition frozen (l l' : Life) : Prop :=
  lf_ended_at l' = lf_ended_at l ∧ lf_exit_code l' = lf_exit_code l ∧
  lf_end_reason l' = lf_end_reason l ∧ (lf_state l' = lf_state l ∨ lf_state l' = Deleted).

Lemma frozen_refl l : frozen l l.
Proof. by split_and!; [..|left]. Qed.

Lemma frozen_trans l1 l2 l3 : frozen l1 l2 → frozen l2 l3 → frozen l1 l3.
Proof.
  unfold frozen. intros (E1 & C1 & R1 & S1) (E2 & C2 & R2 & S2). split_and!; try congruence.
  destruct S1, S2; (left; congruence) || (right; congruence).
Qed.

Lemma update_row_frozen id guard f w j r : pty_sessions w !! j = Some r →
  (j = id → guard r = true → frozen (pr_life r) (pr_life (f r))) →
  ∃ r', pty_sessions (update_row id guard f w).2 !! j = Some r' ∧ frozen (pr_life r) (pr_life r').
Proof.
  intros Hr Hf. rewrite update_row_lookup, Hr. eexists. split; [done|].
  destruct (bool_decide_reflect (j = id)); [|apply frozen_refl]. destruct (guard r) eqn:E; cbn; [by apply Hf|apply frozen_refl].
Qed.

Lemma update_rows_frozen guard f w j r : pty_sessions w !! j = Some r →
  (guard j r = true → frozen (pr_life r) (pr_life (f r))) →
  ∃ r', pty_sessions (update_rows guard f w) !! j = Some r' ∧ frozen (pr_life r) (pr_life r').
Proof.
  intros Hr Hf. rewrite update_rows_lookup, Hr. eexists. split; [done|].
  destruct (guard j r) eqn:E; cbn; [by apply Hf|apply frozen_refl].
Qed.

Lemma live_guard r (P : Prop) : lf_state (pr_life r) ≠ Live → is_live r = true → P.
Proof. by intros ? ?%is_live_spec. Qed.

Lemma write_frozen op now w id r : sessions_ok w → pty_sessions w !! id = Some r → lf_state (pr_life r) ≠ Live →
  spawns id op = false →
  ∃ r', pty_sessions (write op now w) !! id = Some r' ∧ frozen (pr_life r) (pr_life r').
Proof.
  intros Hw Hr Hs Hsp. pose proof (live_guard r) as Hl.
  assert (Hsame : ∃ r', pty_sessions w !! id = Some r' ∧ frozen (pr_life r) (pr_life r')) by (exists r; split; [done|apply frozen_refl]).
  assert (Hrow : ∀ j guard f, (∀ x, pr_life (f x) = pr_life x) →
    ∃ r', pty_sessions (update_row j guard f w).2 !! id = Some r' ∧ frozen (pr_life r) (pr_life r')).
  { intros j guard f Hf. apply update_row_frozen; [done|]. intros _ _. rewrite Hf. apply frozen_refl. }
  assert (Hlive : ∀ j f, ∃ r', pty_sessions (update_row j is_live f w).2 !! id = Some r' ∧ frozen (pr_life r) (pr_life r')).
  { intros j f. apply update_row_frozen; [done|]. intros _ H. by eapply Hl. }
  destruct op; cbn [write].
  - unfold persist_spawn. cbn in Hsp. apply bool_decide_eq_false in Hsp.
    destruct (pty_sessions w !! id0) as [x|]; [destruct (is_live x); [done|]|]; cbn; rewrite lookup_insert_ne by done; done.
  - by apply Hrow.
  - apply Hlive.
  - apply Hlive.
  - apply Hlive.
  - apply update_row_frozen; [done|]. intros _ _. cbn. unfold frozen. cbn. split_and!; [|done..|by right].
    destruct (lf_ended_at (pr_life r)) eqn:E; [done|]. exfalso. apply Hs.
    by apply (li_ended _ (ro_life _ (so_rows _ Hw id r Hr))).
  - unfold mark_agent_starting. pose proof (Hlive id0 (with_runtime (mkRuntime (Some agent) StartingAgent (Some now) None None))) as H.
    by destruct (update_row id0 is_live _ w) as [[] w'].
  - unfold apply_runtime. destruct (rm_event msg).
    + cbn [running_attempts take RUNTIME_UPDATE_MAX_ATTEMPTS Nat.sub].
      pose proof (Hlive (rm_pty msg) (λ r, with_runtime (runtime_running (rm_agent msg) now (pr_runtime r)) r)) as H.
      destruct (update_row (rm_pty msg) is_live _ w) as [[] w']; cbn in H |- *; [|done].
      by destruct (activity_set _ _ _ _ _ _ _ _) as [[x t]|].
    + by apply Hrow.
  - done.
  - apply update_rows_frozen; [done|]. intros _. apply frozen_refl.
  - apply update_row_frozen; [done|]. intros _ _. apply frozen_refl.
  - unfold update_metadata. destruct (_ && _); [done|]. by apply Hrow.
  - unfold session_name_set. destruct (clean_name name); [|done]. by apply Hrow.
  - apply update_rows_frozen; [done|]. intros _. apply frozen_refl.
  - apply update_rows_frozen; [done|]. intros _. apply frozen_refl.
  - unfold heartbeat_sessions.
    assert (Ha : ∃ r', pty_sessions (if bool_decide (live = []) then w else adopt_sessions node boot live w) !! id = Some r' ∧
      frozen (pr_life r) (pr_life r')).
    { case_bool_decide; [done|]. rewrite adopt_lookup, Hr. eexists. split; [done|].
      destruct (_ && _); apply frozen_refl. }
    destruct Ha as (r1 & Hr1 & F1). destruct complete; [|by exists r1].
    unfold reconcile_missing_sessions. rewrite update_rows_lookup, Hr1. eexists. split; [done|].
    destruct (on_node node r1 && is_live r1 && _) eqn:Hg; [|done]. exfalso.
    apply andb_true_iff in Hg as [[_ Hg%is_live_spec]%andb_true_iff _].
    destruct F1 as (_ & _ & _ & [F|F]); congruence.
Qed.

Lemma writes_frozen ops w id r : sessions_ok w → pty_sessions w !! id = Some r → lf_state (pr_life r) ≠ Live →
  Forall (λ op, spawns id op.1 = false) ops →
  ∃ r', pty_sessions (writes ops w) !! id = Some r' ∧ frozen (pr_life r) (pr_life r').
Proof.
  revert w r. induction ops as [|[op now] ops IH]; intros w r Hw Hr Hs Hf; [exists r; split; [done|apply frozen_refl]|].
  apply Forall_cons in Hf as [Hop Hf]. destruct (write_frozen op now w id r Hw Hr Hs Hop) as (r1 & H1 & F1).
  destruct (IH (write op now w) r1) as (r2 & H2 & F2); [by apply write_ok|done| |done|].
  - destruct F1 as (_ & _ & _ & [E|E]); congruence.
  - exists r2. split; [done|]. by eapply frozen_trans.
Qed.

(** ** The gate of the prompt *)

Definition gate_world (w : Sessions) : Submitted.PromptWorld :=
  Submitted.mkPrompts ∅ ∅ ∅
    ((λ r, Submitted.mkLaunch (ar_started_at (pr_runtime r)) (cu_correlated_at (pr_current r))) <$> pty_sessions w)
    (terminals w).

Definition gate (id : string) (w : Sessions) : option Submitted.PromptGate := Submitted.prompt_gate id (gate_world w).

Lemma gate_running id w r a : pty_sessions w !! id = Some r → ar_state (pr_runtime r) = RunningAgent →
  activity_state w !! id = Some a → act_source a = "launcher" → act_state a = "unknown" →
  gate id w = if Submitted.correlated_for_launch (cu_session (pr_current r)) (cu_correlated_at (pr_current r)) (ar_started_at (pr_runtime r))
              then None else Some Submitted.Starting.
Proof.
  intros Hr Hs Ha Hsrc Hst. unfold gate, Submitted.prompt_gate, gate_world, terminals. cbn. rewrite !lookup_fmap, Hr. cbn.
  rewrite Hs, Ha. cbn. rewrite Hsrc, Hst. unfold Submitted.harness_ready.
  by destruct (Submitted.correlated_for_launch _ _ _).
Qed.

(** What the report that the agent runs leaves. *)
Lemma running_spec msg now w w' r : rm_event msg = Running → pty_sessions w !! rm_pty msg = Some r → is_live r = true →
  apply_runtime msg now [] w = (Ok tt, w') →
  ∃ r' a, pty_sessions w' !! rm_pty msg = Some r' ∧ pr_runtime r' = runtime_running (rm_agent msg) now (pr_runtime r) ∧
    pr_current r' = pr_current r ∧ is_live r' = true ∧
    activity_state w' !! rm_pty msg = Some a ∧ act_source a = "launcher" ∧ act_state a = "unknown".
Proof.
  intros He Hr Hl. unfold apply_runtime. rewrite He. cbn [running_attempts take RUNTIME_UPDATE_MAX_ATTEMPTS Nat.sub].
  unfold update_row. rewrite Hr, Hl. cbn [fst snd].
  set (r1 := with_runtime _ r). set (w1 := set_ptys _ w).
  assert (Ht : ptys (terminals w1) !! rm_pty msg = Some (terminal_of r1)) by (cbn; by rewrite lookup_fmap, lookup_insert_eq).
  unfold activity_set. change (validate_source "launcher") with (Ok tt). change (validate_confidence "unknown") with (Ok tt).
  cbn [mbind res_bind].
  rewrite Ht. assert (Hlive : pty_state (terminal_of r1) = "live").
  { unfold terminal_of, r1. cbn. apply is_live_spec in Hl. by rewrite Hl. }
  rewrite Hlive. rewrite bool_decide_true by done. cbn [activity set_activity terminals].
  rewrite lookup_insert_eq. intros [= <-]. exists r1. eexists. split; [apply lookup_insert_eq|].
  split; [reflexivity|]. split; [reflexivity|]. split; [exact Hl|]. split; [apply lookup_insert_eq|]. split.
  - unfold report. destruct (activity_state w !! rm_pty msg) as [old|]; [|done].
    unfold kept_report. rewrite (bool_decide_false (act_state _ = "awaiting_prompt")) by done. by rewrite !andb_false_r.
  - unfold report. destruct (activity_state w !! rm_pty msg) as [old|]; [|done].
    unfold kept_report. rewrite (bool_decide_false (act_state _ = "awaiting_prompt")) by done. by rewrite !andb_false_r.
Qed.

Lemma correlate_row msg now w r : pty_sessions w !! co_pty msg = Some r →
  pty_sessions (correlate msg now w) !! co_pty msg =
    Some (with_current (mkCurrent (Some (co_session msg)) (Some (co_agent msg)) (Some now)) r) ∧
  activity_state (correlate msg now w) = activity_state w.
Proof.
  intros Hr. unfold correlate, point_at. set (w3 := release_others _ _).
  assert (Hr3 : pty_sessions w3 !! co_pty msg = Some r).
  { unfold w3, release_others. rewrite update_rows_lookup. cbn. rewrite Hr. cbn.
    by rewrite (bool_decide_true (co_pty msg = co_pty msg)), andb_false_r. }
  unfold update_row. rewrite Hr3. split; [apply lookup_insert_eq|done].
Qed.

Lemma exited_row id agent code now w r : pty_sessions w !! id = Some r → runtime_ends agent r = true →
  pty_sessions (apply_runtime (mkRuntimeMsg id agent Exited code) now [] w).2 !! id =
    Some (with_runtime (mkRuntime (or_else (ar_agent (pr_runtime r)) (Some agent)) ExitedAgent
                          (ar_started_at (pr_runtime r)) (Some now) code) r).
Proof. intros Hr He. unfold apply_runtime. cbn. unfold update_row. rewrite Hr, He. apply lookup_insert_eq. Qed.

(** The gate of an agent that has just reported that it runs. *)
Lemma gate_after_running id agent now w w' r : pty_sessions w !! id = Some r → is_live r = true →
  apply_runtime (mkRuntimeMsg id agent Running None) now [] w = (Ok tt, w') →
  gate id w' = if Submitted.correlated_for_launch (cu_session (pr_current r)) (cu_correlated_at (pr_current r))
                    (or_else (ar_started_at (pr_runtime r)) (Some now))
               then None else Some Submitted.Starting.
Proof.
  intros Hr Hl Hrun.
  destruct (running_spec (mkRuntimeMsg id agent Running None) now w w' r eq_refl Hr Hl Hrun)
    as (r2 & a & Hr2 & Hrt & Hcu & _ & Ha & Hsrc & Hst). cbn [rm_pty rm_agent] in *.
  rewrite (gate_running id w' r2 a); [|done|by rewrite Hrt|done..]. by rewrite Hrt, Hcu.
Qed.

(** *** While it is closed *)

(** Writes that start, run or correlate the agent of a terminal. *)
Definition relaunches (id : string) (op : Write) : bool :=
  match op with
  | WSpawn j _ | WAgentStarting j _ => bool_decide (j = id)
  | WRuntime msg => bool_decide (rm_pty msg = id)
  | WPoint msg => bool_decide (co_pty msg = id)
  | _ => false
  end.

(** The agent is as it was or runs no more, and no correlation was recorded. *)
Definition waits (r r' : PtyRow) : Prop :=
  (pr_runtime r' = pr_runtime r ∨ ar_state (pr_runtime r') ≠ RunningAgent) ∧
  cu_correlated_at (pr_current r') = cu_correlated_at (pr_current r).

Lemma waits_refl r : waits r r.
Proof. split; [by left|done]. Qed.

Lemma waits_trans r1 r2 r3 : waits r1 r2 → waits r2 r3 → waits r1 r3.
Proof. intros [[E1|N1] C1] [[E2|N2] C2]; (split; [|congruence]); rewrite ?E2, ?E1; auto. Qed.

(** The row and the activity of one terminal across a write. *)
Definition waits_in (id : string) (w w' : Sessions) : Prop :=
  activity_state w' !! id = activity_state w !! id ∧
  ∀ r, pty_sessions w !! id = Some r → ∃ r', pty_sessions w' !! id = Some r' ∧ waits r r'.

Lemma update_row_waits id j guard f w : (id = j → ∀ r, waits r (f r)) → waits_in id w (update_row j guard f w).2.
Proof.
  intros Hf. split.
  - unfold update_row. destruct (pty_sessions w !! j) as [x|]; [|done]. by destruct (guard x).
  - intros r Hr. rewrite update_row_lookup, Hr. eexists. split; [done|].
    destruct (bool_decide_reflect (id = j)); [|apply waits_refl]. destruct (guard r); [by apply Hf|apply waits_refl].
Qed.

Lemma update_rows_waits id guard f w : (∀ r, waits r (f r)) → waits_in id w (update_rows guard f w).
Proof.
  intros Hf. split; [done|]. intros r Hr. rewrite update_rows_lookup, Hr. eexists. split; [done|].
  destruct (guard id r); [apply Hf|apply waits_refl].
Qed.

Lemma waits_in_refl id w : waits_in id w w.
Proof. split; [done|]. intros r Hr. exists r. split; [done|apply waits_refl]. Qed.

Lemma waits_in_trans id w1 w2 w3 : waits_in id w1 w2 → waits_in id w2 w3 → waits_in id w1 w3.
Proof.
  intros [A1 H1] [A2 H2]. split; [congruence|]. intros r1 Hr1. destruct (H1 r1 Hr1) as (r2 & Hr2 & W1).
  destruct (H2 r2 Hr2) as (r3 & Hr3 & W2). exists r3. split; [done|]. by eapply waits_trans.
Qed.

Lemma ended_waits r l (f : AgentRuntime → AgentRuntime) :
  (∀ a, f a = a ∨ ar_state (f a) ≠ RunningAgent) → waits r (with_runtime (f (pr_runtime r)) (with_life l r)).
Proof. intros Hf. split; [apply Hf|done]. Qed.

Lemma activity_elsewhere id j state summary reason source confidence now t record t' :
  id ≠ j → activity_set j state summary reason source confidence now t = Ok (record, t') →
  activity t' !! id = activity t !! id.
Proof.
  intros Hne. unfold activity_set. intros (u & _ & E)%res_bind_Ok. apply res_bind_Ok in E as (u' & _ & E).
  destruct (match ptys t !! j with Some _ => _ | None => _ end); cbn [activity set_activity] in E.
  - rewrite lookup_insert_eq in E. injection E as _ <-. cbn. by rewrite lookup_insert_ne.
  - destruct (activity t !! j); [|done]. by injection E as _ <-.
Qed.

Lemma runtime_waits id msg now w : rm_pty msg ≠ id → waits_in id w (apply_runtime msg now [] w).2.
Proof.
  intros Hne. unfold apply_runtime. destruct (rm_event msg).
  - cbn [running_attempts take RUNTIME_UPDATE_MAX_ATTEMPTS Nat.sub].
    pose proof (update_row_waits id (rm_pty msg) is_live
      (λ r, with_runtime (runtime_running (rm_agent msg) now (pr_runtime r)) r) w ltac:(by intros ->)) as Hw.
    destruct (update_row (rm_pty msg) is_live _ w) as [[] w']; cbn [fst snd] in Hw |- *; [|done].
    destruct (activity_set _ _ _ _ _ _ _ _) as [[x t]|] eqn:E; [|done]. cbn.
    apply (activity_elsewhere id) in E; [|done]. destruct Hw as [A Hw]. split; [cbn; by rewrite E|done].
  - cbn. eapply waits_in_trans; [by apply (update_row_waits id (rm_pty msg)); intros ->|].
    split; [cbn; by rewrite lookup_delete_ne|]. intros r Hr. exists r. split; [done|apply waits_refl].
Qed.

Lemma write_waits id op now w : relaunches id op = false → waits_in id w (write op now w).
Proof.
  assert (He : ∀ r l (f : AgentRuntime → AgentRuntime), (∀ a, f a = a ∨ ar_state (f a) = ExitedAgent) →
    waits r (with_runtime (f (pr_runtime r)) (with_life l r))).
  { intros r l f Hf. apply ended_waits. intros a. destruct (Hf a) as [?|E]; [by left|right; by rewrite E]. }
  intros Hop. destruct op; cbn [write relaunches] in *; try apply bool_decide_eq_false in Hop;
    try (apply update_row_waits; intros _ r; by split; [left|]); try (apply update_rows_waits; intros r; by split; [left|]).
  - unfold persist_spawn. assert (Hs : ∀ x, waits_in id w (set_ptys (<[id0 := x]> (pty_sessions w)) w)).
    { intros x. split; [done|]. intros r Hr. exists r. cbn. rewrite lookup_insert_ne by done. split; [done|apply waits_refl]. }
    destruct (pty_sessions w !! id0) as [r|]; [destruct (is_live r); [apply waits_in_refl|]|]; apply Hs.
  - apply update_row_waits. intros _ r. apply He. intros a. unfold runtime_exited_with. destruct (agent_alive a); [by right|by left].
  - apply update_row_waits. intros _ r. apply He. intros a. unfold runtime_exited. destruct (agent_alive a); [by right|by left].
  - unfold mark_agent_starting.
    pose proof (update_row_waits id id0 is_live (with_runtime (mkRuntime (Some agent) StartingAgent (Some now) None None)) w
      ltac:(by intros ->)) as Hw.
    destruct (update_row id0 is_live _ w) as [[] w']; [exact Hw|apply waits_in_refl].
  - by apply runtime_waits.
  - exact (waits_in_refl id w).
  - apply update_row_waits. by intros ->.
  - unfold update_metadata. destruct (_ && _); [apply waits_in_refl|]. apply update_row_waits. intros _ r. by split; [left|].
  - unfold session_name_set. destruct (clean_name name); [|apply waits_in_refl]. apply update_row_waits. intros _ r. by split; [left|].
  - unfold heartbeat_sessions.
    assert (Ha : waits_in id w (if bool_decide (live = []) then w else adopt_sessions node boot live w)).
    { case_bool_decide; [apply waits_in_refl|]. unfold adopt_sessions.
      eapply waits_in_trans; apply update_rows_waits; intros r; by split; [left|]. }
    destruct complete; [|done]. eapply waits_in_trans; [exact Ha|]. apply update_rows_waits. intros r. unfold orphaned_row.
    split; [|done]. cbn. unfold runtime_exited_kept. destruct (agent_alive _); [by right|by left].
Qed.

Lemma writes_wait id ops w : Forall (λ op, relaunches id op.1 = false) ops → waits_in id w (writes ops w).
Proof.
  revert w. induction ops as [|[op now] ops IH]; intros w Hf; [apply waits_in_refl|].
  apply Forall_cons in Hf as [Hop Hf]. eapply waits_in_trans; [by apply write_waits|]. by apply IH.
Qed.

(** A report of the agent, its hook or the ingester. *)
Lemma reported_gate id state summary reason source confidence now w r record t' :
  pty_sessions w !! id = Some r → is_live r = true → source ∈ ["hook"; "agent"; "ingester"] →
  activity_set id state summary reason source confidence now (terminals w) = Ok (record, t') →
  gate id (set_activity_state (activity t') w) ≠ Some Submitted.Starting.
Proof.
  intros Hr Hl%is_live_spec Hs. unfold activity_set. intros (u & _ & E)%res_bind_Ok. apply res_bind_Ok in E as (u' & _ & E).
  assert (Ht : ptys (terminals w) !! id = Some (terminal_of r)) by (cbn; by rewrite lookup_fmap, Hr).
  assert (Hlive : pty_state (terminal_of r) = "live") by (unfold terminal_of; cbn; by rewrite Hl).
  rewrite Ht, Hlive in E. rewrite bool_decide_true in E by done. cbn [activity set_activity] in E. rewrite lookup_insert_eq in E. injection E as _ <-.
  set (row := report _ _).
  assert (Hsrc : act_source row ∈ ["hook"; "agent"; "ingester"]).
  { unfold row, report. change (activity (terminals w)) with (activity_state w).
    destruct (activity_state w !! id) as [old|]; [|exact Hs].
    unfold kept_report. destruct (bool_decide_reflect (act_source old = "agent")) as [E|]; [|exact Hs]. cbn [andb].
    destruct (_ && _); [rewrite E; set_solver|exact Hs]. }
  unfold gate, Submitted.prompt_gate, gate_world. cbn. rewrite !lookup_fmap, Hr. cbn. rewrite lookup_insert_eq. cbn.
  unfold Submitted.harness_ready. rewrite (bool_decide_true (act_source row ∈ _)) by done. rewrite orb_true_r, andb_false_r.
  by repeat case_bool_decide.
Qed.
