(* ===== verification/NodeExample.v ===== *)
(** * A concrete instance of what the node protocol is given

    Two key pairs, a signature that names its key, and an encoding with two
    letters for a byte: enough for the laws of [Crypto], and for the concrete
    instances of the theorems on nodes. *)

From S2P Require Import Prelude Text Json NodeWire NodeTrust NodeStore NodeControl NodeClient.

(** ** The encoding *)

Definition letter (n : N) : Ascii.ascii := Ascii.ascii_of_N (97 + n).
Definition of_letter (c : Ascii.ascii) : option N :=
  let n := Ascii.N_of_ascii c in if ((97 <=? n) && (n <? 113))%N then Some (n - 97)%N else None.

Fixpoint letters (s : string) : string :=
  match s with
  | EmptyString => EmptyString
  | String c s =>
      let n := Ascii.N_of_ascii c in String (letter (n / 16)) (String (letter (n mod 16)) (letters s))
  end.

Fixpoint of_letters (s : string) : option string :=
  match s with
  | EmptyString => Some EmptyString
  | String a (String b s) =>
      h ← of_letter a; l ← of_letter b; s ← of_letters s; Some (String (Ascii.ascii_of_N (16 * h + l)) s)
  | _ => None
  end.

Lemma byte_letters c :
  let n := Ascii.N_of_ascii c in
  of_letter (letter (n / 16)) = Some (n / 16)%N ∧ of_letter (letter (n mod 16)) = Some (n mod 16)%N ∧
  Ascii.ascii_of_N (16 * (n / 16) + n mod 16) = c.
Proof. destruct c as [[] [] [] [] [] [] [] []]; vm_compute; by split_and!. Qed.

Lemma of_letters_letters s : of_letters (letters s) = Some s.
Proof.
  induction s as [|c s IH]; [done|]. destruct (byte_letters c) as (H1 & H2 & H3). cbn [letters of_letters].
  rewrite H1, H2. cbn [mbind option_bind]. rewrite IH. cbn [mbind option_bind]. by rewrite H3.
Qed.

Lemma of_letter_graphic c n : of_letter c = Some n → graphic c = true.
Proof. destruct c as [[] [] [] [] [] [] [] []]; vm_compute; intros H; (reflexivity || discriminate H). Qed.

Lemma of_letters_visible s b : of_letters s = Some b → visible s = true.
Proof.
  revert b. induction s as [s IH] using (induction_ltof1 _ String.length). unfold ltof in IH. intros b.
  destruct s as [|x [|y s]]; [done..|]. cbn [of_letters visible].
  destruct (of_letter x) eqn:Ex; [|done]. destruct (of_letter y) eqn:Ey; [|done].
  cbn [mbind option_bind]. destruct (of_letters s) as [t|] eqn:Es; [|done]. intros _.
  rewrite (of_letter_graphic _ _ Ex), (of_letter_graphic _ _ Ey). cbn. apply (IH s) with t; [cbn; lia|done].
Qed.

(** ** The certificate file *)

Definition dash : Ascii.ascii := Ascii.ascii_of_N 45.
Definition line_feed : Ascii.ascii := Ascii.ascii_of_N 10.

(** The letters up to the end marker, with the line ends left out. *)
Fixpoint armored (s : string) : string :=
  match s with
  | EmptyString => EmptyString
  | String c s =>
      if Ascii.eqb c dash then EmptyString
      else if Ascii.eqb c line_feed then armored s else String c (armored s)
  end.

Fixpoint plain (s : string) : bool :=
  match s with
  | EmptyString => true
  | String c s => negb (Ascii.eqb c dash) && negb (Ascii.eqb c line_feed) && plain s
  end.

Lemma armored_app a b : plain a = true → armored (a +:+ b) = a +:+ armored b.
Proof.
  induction a as [|c a IH]; [done|].
  change (plain (String c a) = true → armored (String c (a +:+ b)) = String c (a +:+ armored b)). cbn [plain armored].
  destruct (Ascii.eqb c dash); [done|]. destruct (Ascii.eqb c line_feed); [done|].
  cbn [negb andb]. intros Ha. f_equal. by apply IH.
Qed.

Lemma letters_plain s : plain (letters s) = true.
Proof.
  induction s as [|c s IH]; [done|]. cbn [letters plain]. rewrite IH. destruct c as [[] [] [] [] [] [] [] []]; reflexivity.
Qed.

Lemma plain_app a b : plain (a +:+ b) = plain a && plain b.
Proof.
  induction a as [|c a IH]; [done|]. change (plain (String c (a +:+ b)) = plain (String c a) && plain b).
  cbn [plain]. rewrite IH. by rewrite andb_assoc.
Qed.

Lemma armored_lines cs rest : plain (concat_text cs) = true →
  armored (concat_text ((λ c, c +:+ newline) <$> cs) +:+ rest) = concat_text cs +:+ armored rest.
Proof.
  induction cs as [|c cs IH]; [done|]. change (concat_text (c :: cs)) with (c +:+ concat_text cs).
  rewrite plain_app. intros [Hc Hcs]%andb_true_iff.
  change (concat_text ((λ c, c +:+ newline) <$> c :: cs)) with
    ((c +:+ newline) +:+ concat_text ((λ c, c +:+ newline) <$> cs)).
  rewrite !append_assoc, armored_app by done. f_equal. by apply IH.
Qed.

(** ** The instance *)

Definition demo_key (k : bool) : string :=
  if k then "node-key-node-key-node-key-node!" else "control-control-control-control!".

#[export] Instance demo_crypto : Crypto := {|
  KeyPair := bool;
  key_public := demo_key;
  key_sign k m := demo_key k +:+ m;
  from_pkcs8 s := if bool_decide (s = "node") then Some true else if bool_decide (s = "control") then Some false else None;
  ed25519_verify k m s := (byte_len k =? 32) && bool_decide (s = k +:+ m);
  sha256 s := s;
  b64url_encode := letters;
  b64url_decode := of_letters;
  b64_encode := letters;
  pem_cert s := of_letters (armored (drop_bytes 28 s));
|}.

#[export] Instance demo_crypto_laws : CryptoLaws demo_crypto.
Proof.
  constructor; cbn [ed25519_verify key_public key_sign b64url_encode b64url_decode pem_cert demo_crypto].
  - intros k m. rewrite bool_decide_true by done. by destruct k.
  - by intros k m s [H%Z.eqb_eq _]%andb_true_iff.
  - apply of_letters_letters.
  - apply of_letters_visible.
  - done.
  - intros der. unfold pem_encode. cbn [b64_encode demo_crypto].
    destruct (chunks_spec (String.length (letters der)) 64 (letters der) ltac:(lia) (le_n _)) as [Hc _].
    fold (chunks 64 (letters der)) in Hc.
    change (of_letters (armored (concat_text ((λ c, c +:+ newline) <$> chunks 64 (letters der))
      +:+ "-----END CERTIFICATE-----" +:+ newline)) = Some der).
    rewrite armored_lines by (rewrite Hc; apply letters_plain). rewrite Hc.
    change (of_letters (letters der +:+ "") = Some der). rewrite append_nil_r. apply of_letters_letters.
Qed.

#[export] Instance demo_uuid : UuidText := {| uuid_text := pretty |}.

(** Frames small enough that nothing is cut. *)
#[export] Instance demo_frames : Wire := {|
  encode s := s;
  decode s := Some s;
  to_vec _ := "";
  from_slice _ := None;
|}.

#[export] Instance demo_payloads : Payloads := {|
  heartbeat_of _ := Some (mkHeartbeat ["a"] true None None);
  result_of _ := Some (mkResult true None None None);
  bytes_of _ := Some "";
  dead_of _ := Some None;
|}.

Definition demo_config : NodeClientConfig := mkClientConfig "wss://control" DEDICATED_NODE_ID.
