(* ===== verification/TrustGuarantees.v ===== *)
(** * What a node may rely on

    The trust between a node and its control plane: whose word a node takes
    once it is paired, what ends up in the file it starts with, and that two
    that follow the protocol come together. With concrete instances. *)

From S2P Require Import Prelude Text Json NodeWire NodeTrust NodeStore NodeControl NodeClient NodeClientInv NodeExample NodeLan PtySessions.

(** C14. Trust on first use: the first enrollment that is offered a proof pins
    its key, and from then on, whatever the node is sent over however many
    enrollments and connections, every enrollment, and every connection of a
    process that may read the pin, takes an acknowledgment, a configuration or
    the word that there is none only from the holder of that key - who signed
    the challenge of that connection, the fresh nonce of the node and, over
    TLS, the certificate presented - and an enrollment takes a configuration
    only if that key signed it for the nonce of that connection. A connection
    of a process that dropped its privileges cannot read the pin: it is sure
    only that a proof it is offered is by the key the proof names, and that
    over TLS the certificate is the one in the readable copy, if the first
    enrollment left one there. *)
Theorem trust_on_first_use `{UuidText, C : Crypto, Wire, !CryptoLaws C} config key boot h a challenge ack proof o h1 rs :
  enroll_once config key boot h a = (Ok o, h1) →
  answers a challenge ack → control_proof ack = Some proof →
  let K := p_public_key proof in
  let '(os, h2) := run_rounds config key boot h1 rs in
  pinned (control_pin h2) = Some K ∧
  Forall2 (only_from config key boot K (tls_runtime h1 ≫= pem_cert)) (EnrollRound a :: rs) (Enrolled (Ok o) :: os).
Proof.
  intros He Ha Hp K. destruct (enroll_first _ _ _ _ _ _ _ _ _ _ He Ha Hp) as [HK Ho].
  pose proof (rounds_pinned config key boot K (tls_runtime h1 ≫= pem_cert) rs h1 HK ltac:(by intros cert)) as Hr.
  destruct (run_rounds config key boot h1 rs) as [os h2]. destruct Hr as [HK2 Hos]. split; [done|]. by constructor.
Qed.

(** C35. A paired node starts only with what its control plane delivered:
    whatever the attempts bring and however often the start is repeated, the
    delivered file is as it was or is the rendering of values that the pinned
    key signed for one of the connections, with their own digest, under
    forwardable names and free of quotes and line ends; the node goes on only
    after a connection that proved the pinned key, and the pin stays. A start
    that did not go on has used up what the attempts brought, and does with
    more attempts what it would do with them from the files as they are. *)
Theorem delivered_config_authentic `{UuidText, C : Crypto, Wire, !CryptoLaws C} config key boot K env h attempts :
  pinned (control_pin h) = Some K →
  let '(started, h1) := bootstrap_runtime_config config key boot env h attempts in
  pinned (control_pin h1) = Some K ∧
  (delivered h1 = delivered h ∨
   ∃ c, delivered h1 = Some (render_env_file c) ∧ authentic config key boot K attempts c) ∧
  (started = true → ∃ a, a ∈ attempts ∧ proof_by config key boot K a) ∧
  (started = false → ∀ more, bootstrap_runtime_config config key boot env h (attempts ++ more) =
     bootstrap_runtime_config config key boot env h1 more).
Proof.
  intros HK. pose proof (bootstrap_spec config key boot K env attempts (S (length attempts)) h HK) as Hb.
  destruct (bootstrap_runtime_config config key boot env h attempts) as [started h1] eqn:E.
  unfold bootstrap_runtime_config in E. rewrite E in Hb. destruct Hb as (H1 & H2 & H3). split_and!; [done..|].
  intros -> more. by apply bootstrap_resumes.
Qed.

(** C38. Enrollment works: a new node that follows the protocol is told to
    wait, an operator approves it, and its next hello is connected; what the
    control plane then sends - the acknowledgment of that connection and the
    configuration of its environment - the node enrolls with, unless it is
    paired with another control plane or has pinned another certificate. It
    holds the configuration the control plane read from its environment, has
    pinned its identity and its certificate, and accepts a connection - also
    once it has dropped its privileges, unless the readable copy holds another
    certificate. *)
Theorem enrollment_delivers `{UuidText, C : Crypto, Wire, Payloads, !CryptoLaws C} policy config key boot h cert document i
    env config_sent challenge1 nonce1 connection1 t1 t2 challenge nonce connection t3 c :
  identity_of document = Ok i → po_identity policy = Some i → po_tls_digest policy = Some (cert_digest cert) →
  config_from_env env = Ok (Some config_sent) → po_config policy = Some config_sent →
  0 ≤ po_interval policy < 2 ^ 64 →
  client_node_id config = DEDICATED_NODE_ID → dev_nodes (ct_db c) !! DEDICATED_NODE_ID = None →
  ch_protocol_version challenge1 = NODE_PROTOCOL_VERSION → ch_protocol_version challenge = NODE_PROTOCOL_VERSION →
  starts_with "wss://" (control_url config) = true → same_cert h cert →
  pinned (control_pin h) = None ∨ pinned (control_pin h) = Some (id_public i) →
  let hello1 := signed_hello DEDICATED_NODE_ID boot key challenge1 nonce1 in
  let hello := signed_hello DEDICATED_NODE_ID boot key challenge nonce in
  ∃ c1 c2 c3 r,
    handle policy (EvHello hello1 challenge1 connection1) t1 c = (Refused PairingRequired, c1) ∧
    handle policy (EvApprove DEDICATED_NODE_ID) t2 c1 = (Done, c2) ∧
    handle policy (EvHello hello challenge connection) t3 c2 = (Registered r, c3) ∧
    accept_config (delivered_payload policy r) = Ok config_sent ∧
    ∀ e1 e2 rest e,
      message_kind e1 = "control.hello_ack" → payload e1 = ack_value (rc_ack r) →
      message_kind e2 = "control.node_config" → payload e2 = config_value (delivered_payload policy r) →
      let a := mkAttempt cert nonce (Text (Challenge challenge) :: Text (Envelope e1) :: Text (Envelope e2) :: rest) e in
      ∃ h1, enroll_once config key boot h a = (Ok (Delivered (delivered_payload policy r)), h1) ∧
        pinned (control_pin h1) = Some (id_public i) ∧ tls_pinned h1 = Some cert ∧
        ∀ reads, reads = true ∨ same_cert (unprivileged h) cert →
          connect_handshake config key boot reads h1 a = Ok (rc_ack r).
Proof.
  intros Hid Hpi Hpt Henv Hpc Hint Hn Hnone Hv1 Hv Hw Hc Hpin hello1 hello.
  destruct (key_approved DEDICATED_NODE_ID key t1 t2 (ct_db c) eq_refl Hnone) as (d1 & d2 & Hreq & Happ & Hcred).
  set (c1 := with_db d1 c). set (c2 := later (CancelActive DEDICATED_NODE_ID) (with_db d2 c1)).
  assert (Hdb : ct_db c2 = d2) by reflexivity.
  set (proof := prove_handshake i challenge hello (Some (cert_digest cert))).
  assert (Hrow : is_Some (dev_nodes (ct_db c2) !! h_node_id hello)).
  { rewrite Hdb. change (h_node_id hello) with DEDICATED_NODE_ID. unfold credential in Hcred.
    by destruct (dev_nodes d2 !! DEDICATED_NODE_ID). }
  destruct (registered_approved policy hello (Some proof) connection t3 c2 eq_refl Hrow) as [c3 Hreg].
  exists c1, c2, c3. eexists. split_and!.
  - cbn [handle]. unfold hello1. rewrite genuine_hello; [|done|]; unfold credential; rewrite Hnone; [|done].
    cbn [mbind option_bind]. rewrite bool_decide_false by done. by rewrite Hreq.
  - cbn [handle]. unfold approve_pairing. change (ct_db c1) with d1. by rewrite Happ.
  - cbn [handle]. unfold hello. rewrite genuine_hello; [|done|by rewrite Hdb, Hcred; intros kind k [= _ <-]].
    rewrite Hdb, Hcred. cbn [mbind option_bind fst]. rewrite bool_decide_true by done. fold hello.
    rewrite Hpi, Hpt. cbn [fmap option_fmap option_map]. fold proof. by rewrite Hreg.
  - unfold delivered_payload. rewrite Hpc, Hpi. by apply from_env_accepted with env.
  - intros e1 e2 rest e Hk1 Hp1 Hk2 Hp2.
    pose proof (genuine_enrollment config key boot h cert nonce challenge e1 e2 rest e (po_interval policy) i
      (delivered_payload policy (mkRegistered connection (h_node_id hello) (h_boot_id hello)
         (NodeWire.node_nonce hello) (hello_ack policy (Some proof))))) as Hg.
    rewrite Hn in Hg. cbn zeta in Hg. fold hello proof in Hg.
    apply (Hg Hw Hc Hpin (identity_of_genuine _ _ Hid) Hv Hint Hk1 Hp1 Hk2 Hp2); unfold delivered_payload; rewrite Hpc.
    + by eapply from_env_delivers.
    + by rewrite Hpi.
Qed.

(** ** Concrete instances *)

Definition demo_identity : ControlIdentity := mkIdentity false (letters (demo_key false)).
Definition demo_challenge : ControlChallenge := mkChallenge 5%N "nonce-5" NODE_PROTOCOL_VERSION.
Definition demo_hello : NodeHello := signed_hello DEDICATED_NODE_ID 2%N true demo_challenge "fresh".
Definition demo_proof : ControlHelloProof :=
  prove_handshake demo_identity demo_challenge demo_hello (Some (cert_digest "certificate")).
Definition demo_ack : HelloAck := mkAck NODE_PROTOCOL_VERSION 5 (Some demo_proof).
Definition demo_sent (kind : string) (v : Value) : WireEnvelope :=
  mkEnvelope NODE_PROTOCOL_VERSION DEDICATED_NODE_ID 2%N 9%N kind None None None None v.
Definition demo_values : NodeRuntimeConfig := new_config [("SULION_DB_URL", "postgres://db")].
Definition demo_delivery : NodeConfigPayload :=
  mkConfigPayload (rc_digest demo_values) (rc_values demo_values)
    (Some (sign_config demo_identity (rc_digest demo_values) "fresh")).
Definition demo_attempt : Attempt :=
  mkAttempt "certificate" "fresh"
    [Text (Challenge demo_challenge);
     Text (Envelope (demo_sent "control.hello_ack" (ack_value demo_ack)));
     Text (Envelope (demo_sent "control.node_config" (config_value demo_delivery)))] TimedOut.
Definition fresh_host : Host := mkHost None None None None.
Definition enrolled_host : Host := (enroll_once demo_config true 2%N fresh_host demo_attempt).2.

(** The first enrollment, a second one, and two connections. *)
Lemma trust_on_first_use_witness :
  enroll_once demo_config true 2%N fresh_host demo_attempt = (Ok (Delivered demo_delivery), enrolled_host) ∧
  (let '(os, h2) := run_rounds demo_config true 2%N enrolled_host [EnrollRound demo_attempt; ConnectRound true demo_attempt; ConnectRound false demo_attempt] in
   pinned (control_pin h2) = Some (p_public_key demo_proof) ∧
   Forall2 (only_from demo_config true 2%N (p_public_key demo_proof) (Some "certificate"))
     [EnrollRound demo_attempt; EnrollRound demo_attempt; ConnectRound true demo_attempt; ConnectRound false demo_attempt]
     (Enrolled (Ok (Delivered demo_delivery)) :: os)).
Proof.
  assert (He : enroll_once demo_config true 2%N fresh_host demo_attempt = (Ok (Delivered demo_delivery), enrolled_host))
    by (vm_compute; reflexivity).
  split; [exact He|].
  apply (trust_on_first_use (C := demo_crypto) demo_config true 2%N fresh_host demo_attempt demo_challenge demo_ack demo_proof
           (Delivered demo_delivery) enrolled_host [EnrollRound demo_attempt; ConnectRound true demo_attempt; ConnectRound false demo_attempt] He).
  - eexists _, _. split; [reflexivity|]. vm_compute. reflexivity.
  - reflexivity.
Defined.

(** Another control plane, and a host whose readable copy is gone: the pin
    refuses it, a process that cannot read the pin does not. *)
Definition other_identity : ControlIdentity := mkIdentity true (letters (demo_key true)).
Definition other_attempt : Attempt :=
  mkAttempt "certificate" "fresh"
    [Text (Challenge demo_challenge);
     Text (Envelope (demo_sent "control.hello_ack" (ack_value (mkAck NODE_PROTOCOL_VERSION 5
       (Some (prove_handshake other_identity demo_challenge demo_hello (Some (cert_digest "certificate"))))))))] Ended.
Definition copyless_host : Host := mkHost (control_pin enrolled_host) (tls_pin enrolled_host) None (delivered enrolled_host).

Example unread_pin :
  is_some (pinned (control_pin copyless_host)) = true ∧
  match connect_handshake demo_config true 2%N true copyless_host other_attempt with Err _ => True | Ok _ => False end ∧
  match connect_handshake demo_config true 2%N false copyless_host other_attempt with Err _ => False | Ok _ => True end.
Proof. vm_compute. done. Qed.

Definition demo_env (digest : option string) (k : string) : option string :=
  if bool_decide (k = CONFIG_DIGEST_ENV) then digest else None.

(** An enrollment that delivers, to a node that started without the values. *)
Lemma delivered_config_authentic_witness :
  pinned (control_pin enrolled_host) = Some (id_public demo_identity) ∧
  (let '(started, h1) := bootstrap_runtime_config demo_config true 2%N (demo_env None) enrolled_host
                           [demo_attempt; demo_attempt] in
   pinned (control_pin h1) = Some (id_public demo_identity) ∧
   (delivered h1 = delivered enrolled_host ∨
    ∃ c, delivered h1 = Some (render_env_file c) ∧
      authentic demo_config true 2%N (id_public demo_identity) [demo_attempt; demo_attempt] c) ∧
   (started = true → ∃ a, a ∈ [demo_attempt; demo_attempt] ∧
      proof_by demo_config true 2%N (id_public demo_identity) a) ∧
   (started = false → ∀ more,
      bootstrap_runtime_config demo_config true 2%N (demo_env None) enrolled_host ([demo_attempt; demo_attempt] ++ more) =
      bootstrap_runtime_config demo_config true 2%N (demo_env None) h1 more)).
Proof.
  assert (HK : pinned (control_pin enrolled_host) = Some (id_public demo_identity)) by (vm_compute; reflexivity).
  split; [exact HK|].
  pose proof (delivered_config_authentic (C := demo_crypto) demo_config true 2%N (id_public demo_identity) (demo_env None)
    enrolled_host [demo_attempt; demo_attempt] HK) as Hd.
  exact Hd.
Defined.

Example delivered_file :
  bootstrap_runtime_config demo_config true 2%N (demo_env (Some (rc_digest demo_values))) enrolled_host [demo_attempt] =
    (true, with_delivered (Some (render_env_file demo_values)) enrolled_host).
Proof. vm_compute. reflexivity. Qed.

Definition control_env (k : string) : option string :=
  if bool_decide (k = "SULION_DB_URL") then Some "postgres://db" else None.
Definition demo_policy : Policy :=
  mkControlPolicy (Some demo_identity) (Some (cert_digest "certificate")) (Some demo_values) UNRESTRICTED_POLICY 5 20.

Lemma enrollment_delivers_witness :
  config_from_env control_env = Ok (Some demo_values) ∧
  ∃ r c1 c2 c3,
    handle demo_policy (EvHello demo_hello demo_challenge 3%N) 1 (started (mkDb ∅ (mkSessions ∅ ∅ ∅))) =
      (Refused PairingRequired, c1) ∧
    handle demo_policy (EvApprove DEDICATED_NODE_ID) 2 c1 = (Done, c2) ∧
    handle demo_policy (EvHello demo_hello demo_challenge 4%N) 3 c2 = (Registered r, c3) ∧
    accept_config (delivered_payload demo_policy r) = Ok demo_values ∧
    ∃ h1, enroll_once demo_config true 2%N fresh_host
        (mkAttempt "certificate" "fresh"
           [Text (Challenge demo_challenge); Text (Envelope (demo_sent "control.hello_ack" (ack_value (rc_ack r))));
            Text (Envelope (demo_sent "control.node_config" (config_value (delivered_payload demo_policy r))))] Ended) =
        (Ok (Delivered (delivered_payload demo_policy r)), h1) ∧ tls_pinned h1 = Some "certificate".
Proof.
  assert (Henv : config_from_env control_env = Ok (Some demo_values)) by (vm_compute; reflexivity).
  split; [exact Henv|].
  destruct (enrollment_delivers (C := demo_crypto) demo_policy demo_config true 2%N fresh_host "certificate" "control" demo_identity
    control_env demo_values demo_challenge "fresh" 3%N 1 2 demo_challenge "fresh" 4%N 3 (started (mkDb ∅ (mkSessions ∅ ∅ ∅))))
    as (c1 & c2 & c3 & r & H1 & H2 & H3 & H4 & H5); try reflexivity.
  - vm_compute. split; [discriminate|reflexivity].
  - left. reflexivity.
  - left. reflexivity.
  - exists r, c1, c2, c3. split; [exact H1|]. split; [exact H2|]. split; [exact H3|]. split; [exact H4|].
    destruct (H5 (demo_sent "control.hello_ack" (ack_value (rc_ack r)))
      (demo_sent "control.node_config" (config_value (delivered_payload demo_policy r))) [] Ended eq_refl eq_refl eq_refl
      eq_refl) as (h1 & Hh & _ & Ht & _).
    exists h1. split; [exact Hh|exact Ht].
Defined.
