(* ===== verification/SessionGuarantees.v ===== *)
(** * What holds of nodes and terminals

    The properties of the control plane's connections, of the session rows,
    and of the gate of a terminal's prompt, with concrete instances. *)

From S2P Require Import Prelude Text Json Activity Submitted PtySessions NodeWire NodeTrust NodeStore NodeControl NodeControlInv PtySessionsInv NodeLan NodeExample.

(** C24. A node is connected only for a key an operator approved: whenever a
    hello is answered with a connection, earlier a hello of that node offered
    a key and was signed by it and was sent to wait, between the two an
    operator approved the node, and the hello answered is signed by that key
    over the challenge of its own connection. *)
Theorem connection_needs_approval `{UuidText, C : Crypto, Payloads} policy d evs hist c :
  dev_nodes d = ∅ → run policy evs (started d) = (hist, c) →
  ∀ k hello challenge connection r, hist !! k = Some (EvHello hello challenge connection, Registered r) →
    ∃ key, approved (h_node_id hello) key (take k hist) ∧ hello_signed key hello challenge = true.
Proof.
  intros Hd Hr k hello ch conn r Hk.
  assert (H0' : keys_ok (dev_nodes (ct_db (started d))) []) by (cbn; rewrite Hd; intros n x; by rewrite lookup_empty).
  exact (run_keys policy evs (started d) hist c [] H0' Hr k hello ch conn r Hk).
Qed.

(** C29. One connection per node. After any events: every connection ever
    registered is about to be held, held, told to end, or ended - two of a node
    are never both held - and an envelope that names another connection, node
    or boot than the one held is refused and changes nothing. The connection
    held for a node is the one its row has, as connected, unless handlers of
    that node overlapped or one is between its two steps; a heartbeat of a
    connection that is held but is not the one of the row is refused and
    changes nothing either. *)
Theorem connections_accounted `{UuidText, C : Crypto, Payloads} policy d evs hist c :
  run policy evs (started d) = (hist, c) →
  (∀ n a, undisturbed policy n evs (started d) → under_way n c = [] → ct_active c !! n = Some a →
     ∃ r, dev_nodes (ct_db c) !! n = Some r ∧
       node_boot r = Some (ac_boot a) ∧ connection_id r = Some (ac_connection a) ∧
       connection_state r = ConnectedNode ∧ disconnected_at r = None) ∧
  (∀ connection, registered_in hist connection →
     awaited c connection ∨ is_active c connection ∨ connection ∈ ct_canceled c ∨ ended_in hist connection) ∧
  (∀ connection e message now,
     (∀ a, ct_active c !! node_id e = Some a → ac_connection a = connection → ac_boot a ≠ boot_id e) →
     ∃ err, receive_envelope connection e message now c = (inr err, c)) ∧
  (∀ connection e message now p,
     message_kind e = "node.heartbeat" → heartbeat_of (payload e) = Some p →
     (∀ r, dev_nodes (ct_db c) !! node_id e = Some r → current_connection (boot_id e) connection r = false) →
     ∃ err, receive_envelope connection e message now c = (inr err, c)).
Proof.
  intros Hr. split_and!.
  - intros n a Hu Hw Hn. pose proof (run_orderly policy n evs (started d) hist c) as Ho.
    unfold orderly at 2 in Ho. rewrite Hw in Ho. destruct (Ho ltac:(by intros x) Hu Hr a Hn) as (r & Hrow & Hcur & Hs & Hdis & _).
    exists r. unfold current_connection in Hcur.
    apply andb_true_iff in Hcur as [H1%bool_decide_eq_true H2%bool_decide_eq_true]. by split_and!.
  - apply (run_moves policy evs (started d) hist c []); [|done]. by intros k (? & ? & ?%elem_of_nil & _).
  - intros. by apply stale_envelope.
  - intros. by eapply stale_heartbeat.
Qed.

(** C13. A complete heartbeat settles every session of its node: a session
    that is live and listed is of this boot and connected, one that is live
    and not listed is orphaned - its agent ended with it - and every other
    row is as it was. An unlisted session is orphaned however recently its
    row was written. *)
Theorem heartbeat_reconciles n boot connection live now d d' :
  heartbeat n boot connection live true now d = (true, d') →
  ∀ id, pty_sessions (sessions d') !! id =
    (λ r,
       if on_node n r && is_live r then
         if bool_decide (id ∈ live)
         then adopted_row boot r
         else orphaned_row now r
       else r) <$> pty_sessions (sessions d) !! id.
Proof.
  unfold heartbeat. destruct (dev_nodes d !! n) as [row|]; [|done]. destruct (current_connection _ _ _); [|done].
  intros [= <-] id. cbn [sessions]. set (w := sessions d).
  unfold reconcile_missing_sessions. rewrite update_rows_lookup.
  destruct (decide (live = [])) as [->|Hl]; [rewrite (bool_decide_true ([] = [])) by done|rewrite (bool_decide_false (live = [])) by done].
  - destruct (pty_sessions w !! id) as [r|]; [|done]. cbn. f_equal.
    rewrite bool_decide_false by apply not_elem_of_nil. cbn. rewrite andb_true_r. by destruct (on_node n r && is_live r).
  - rewrite adopt_lookup. destruct (pty_sessions w !! id) as [r|]; [|done]. cbn. f_equal.
    generalize (bool_decide (id ∈ live)). intros i.
    destruct (on_node n r) eqn:En; [|cbn; by rewrite En].
    destruct (is_live r) eqn:El; [|cbn; by rewrite En, El].
    destruct i; cbn; [|by rewrite En, El].
    change (on_node n (adopted_row boot r)) with (on_node n r). change (is_live (adopted_row boot r)) with (is_live r).
    by rewrite En, El.
Qed.

(** C16. The session rows are sound whatever is written in whatever order,
    the three statements of every correlation apart: a row has an end exactly
    when it is not live, a live row no exit code, only orphaned or deleted
    rows a reason; an agent that runs or starts has a name, a start and no
    end, and its terminal is live or was deleted under it; one that exited
    has both times; a row in an agent session names its agent and when it
    correlated. Only the last statement of a correlation puts a terminal, its
    own, in a session; and one that nothing interrupts leaves the session
    current in its terminal and no other, the one [claude_sessions] names. *)
Theorem session_rows_sound ops :
  let w := writes ops empty_sessions in
  (∀ id r, pty_sessions w !! id = Some r →
     (lf_state (pr_life r) = Live ↔ lf_ended_at (pr_life r) = None) ∧
     (lf_state (pr_life r) = Live → lf_exit_code (pr_life r) = None) ∧
     (lf_end_reason (pr_life r) ≠ None → lf_state (pr_life r) = Orphaned ∨ lf_state (pr_life r) = Deleted) ∧
     runtime_ok (pr_runtime r) ∧
     (agent_alive (pr_runtime r) = true → lf_state (pr_life r) = Live ∨ lf_state (pr_life r) = Deleted) ∧
     (cu_session (pr_current r) ≠ None → cu_agent (pr_current r) ≠ None ∧ cu_correlated_at (pr_current r) ≠ None)) ∧
  (∀ op now id, ¬ points op id → current_in (write op now w) id = current_in w id ∨ current_in (write op now w) id = None) ∧
  ∀ msg now, let w' := writes (correlation msg now) w in
    (is_Some (pty_sessions w !! co_pty msg) → current_in w' (co_pty msg) = Some (co_session msg)) ∧
    (∀ id, current_in w' id = Some (co_session msg) → id = co_pty msg) ∧
    claude_sessions w' !! co_session msg = Some (mkSession (transcript_agent (co_agent msg)) (Some (co_pty msg))).
Proof.
  intros w. destruct (writes_ok ops empty_sessions empty_sessions_ok) as [Hrows]. fold w in Hrows. split_and!.
  - intros id r Hr. destruct (Hrows id r Hr) as [[H1 H2 H3] H4 H5 H6]. by split_and!.
  - intros op now id Hop. destruct op; try (apply (write_stays _ now w); by intros ?).
    left. by apply point_elsewhere.
  - intros msg now w'. unfold w'. rewrite correlation_writes. split_and!.
    + intros [r Hr]. unfold current_in. by rewrite (proj1 (correlate_row msg now w r Hr)).
    + intros id. apply correlate_alone.
    + apply correlate_claude.
Qed.

(** C10. What ended stays ended: once a session is dead, orphaned or deleted,
    nothing but a spawn under its identifier changes its state, except that
    it may be deleted - no heartbeat, exit, orphaning, agent report or
    correlation does - and its end, its exit code and its reason stay. *)
Theorem ended_session_frozen before ops id r :
  let w := writes before empty_sessions in
  pty_sessions w !! id = Some r → lf_state (pr_life r) ≠ Live →
  Forall (λ op, spawns id op.1 = false) ops →
  ∃ r', pty_sessions (writes ops w) !! id = Some r' ∧
    lf_ended_at (pr_life r') = lf_ended_at (pr_life r) ∧ lf_exit_code (pr_life r') = lf_exit_code (pr_life r) ∧
    lf_end_reason (pr_life r') = lf_end_reason (pr_life r) ∧
    (lf_state (pr_life r') = lf_state (pr_life r) ∨ lf_state (pr_life r') = Deleted).
Proof.
  intros w Hr Hs Hf. apply (writes_frozen ops w id r); [|done..]. apply writes_ok, empty_sessions_ok.
Qed.


(** An agent started by hand in a terminal that launched one before is not
    gated at all: the report that it runs keeps the start of the launch
    before, since when the terminal has correlated. *)
Lemma hand_started_not_gated id agent t t1 t2 t3 t4 code session w w1 w2 w4 :
  mark_agent_starting id agent t w = Ok w1 →
  apply_runtime (mkRuntimeMsg id agent Running None) t1 [] w1 = (Ok tt, w2) → t ≤ t2 →
  apply_runtime (mkRuntimeMsg id agent Running None) t4 []
    (apply_runtime (mkRuntimeMsg id agent Exited code) t3 [] (correlate (mkCorrelate id session agent) t2 w2)).2
    = (Ok tt, w4) →
  gate id w4 = None.
Proof.
  intros Hs Hrun Ht Hrun2. unfold mark_agent_starting, update_row in Hs.
  destruct (pty_sessions w !! id) as [r|] eqn:Hr; [|done]. destruct (is_live r) eqn:Hl; [|done]. injection Hs as <-.
  set (r1 := with_runtime _ r) in *. set (w1 := set_ptys _ w) in *.
  assert (Hr1 : pty_sessions w1 !! id = Some r1) by apply lookup_insert_eq.
  destruct (running_spec (mkRuntimeMsg id agent Running None) t1 w1 w2 r1 eq_refl Hr1 Hl Hrun)
    as (r2 & a & Hr2 & Hrt & Hcu & Hl2 & Ha & Hsrc & Hst). cbn [rm_pty rm_agent] in *.
  assert (Hcor : pty_sessions (correlate (mkCorrelate id session agent) t2 w2) !! id =
    Some (with_current (mkCurrent (Some session) (Some agent) (Some t2)) r2)).
  { by apply (correlate_row (mkCorrelate id session agent)). }
  assert (Hends : runtime_ends agent (with_current (mkCurrent (Some session) (Some agent) (Some t2)) r2) = true).
  { unfold runtime_ends. cbn. rewrite Hrt. cbn. by rewrite bool_decide_true. }
  pose proof (exited_row id agent code t3 _ _ Hcor Hends) as He.
  rewrite (gate_after_running id agent t4 _ w4 _ He Hl2 Hrun2).
  cbn. rewrite Hrt. cbn. by rewrite (proj2 (Z.leb_le _ _)).
Qed.

(** ** Races and remainders *)

(** The statements of two correlations of one session, interleaved, leave both
    terminals current in it. *)
Definition interleaved (m1 m2 : CorrelateMsg) (t1 t2 : Z) : list (Write * Z) :=
  [(WUpsertSession m1, t1); (WUpsertSession m2, t2); (WRelease m1, t1); (WRelease m2, t2); (WPoint m1, t1); (WPoint m2, t2)].

Lemma interleaved_correlations id1 id2 s agent t1 t2 w r1 r2 : id1 ≠ id2 →
  pty_sessions w !! id1 = Some r1 → pty_sessions w !! id2 = Some r2 →
  let w' := writes (interleaved (mkCorrelate id1 s agent) (mkCorrelate id2 s agent) t1 t2) w in
  current_in w' id1 = Some s ∧ current_in w' id2 = Some s.
Proof.
  intros Hne H1 H2. cbn -[point_at release_others upsert_session]. unfold current_in, point_at. cbn [co_pty co_session co_agent].
  rewrite !update_row_lookup. unfold release_others. rewrite !update_rows_lookup. cbn [pty_sessions upsert_session set_claude].
  rewrite H1, H2. cbn [fmap option_fmap option_map co_pty co_session].
  rewrite (bool_decide_true (id1 = id1)), (bool_decide_true (id2 = id2)) by done.
  by rewrite (bool_decide_false (id1 = id2)), (bool_decide_false (id2 = id1)) by done.
Qed.

(** A heartbeat that was put together before a session was spawned, and
    arrives after its row was written, orphans it for good, though its shell
    runs: no later heartbeat that lists it brings it back. *)
Lemma spawned_row_orphaned before p now id n boot live ops :
  let w := writes before empty_sessions in
  (∀ r, pty_sessions w !! id = Some r → is_live r = false) → sp_node p = Some n → id ∉ live → live ≠ [] →
  Forall (λ op, spawns id op.1 = false) ops →
  ∃ r, pty_sessions (writes ops (write (WHeartbeat n boot live true) now (write (WSpawn id p) now w))) !! id = Some r ∧
    lf_state (pr_life r) ≠ Live.
Proof.
  intros w Hw Hn Hid Hne Hops. set (w1 := write (WSpawn id p) now w).
  assert (Hok : sessions_ok w1) by apply write_ok, writes_ok, empty_sessions_ok.
  assert (Hr1 : ∃ old, pty_sessions w1 !! id = Some (spawned_row p now old)).
  { unfold w1. cbn. unfold persist_spawn. destruct (pty_sessions w !! id) as [r|] eqn:E.
    - rewrite (Hw r eq_refl). eexists. apply lookup_insert_eq.
    - eexists. apply lookup_insert_eq. }
  destruct Hr1 as [old Hr1].
  assert (Hr2 : pty_sessions (write (WHeartbeat n boot live true) now w1) !! id = Some (orphaned_row now (spawned_row p now old))).
  { cbn [write]. unfold heartbeat_sessions. rewrite bool_decide_false by done. unfold reconcile_missing_sessions.
    rewrite update_rows_lookup, adopt_lookup, Hr1. cbn [fmap option_fmap option_map].
    rewrite (bool_decide_false (id ∈ live)) by done. rewrite andb_false_r. unfold on_node, is_live. cbn.
    by rewrite Hn, bool_decide_true. }
  destruct (writes_frozen ops _ id _ (write_ok _ now _ Hok) Hr2) as (r & Hr & _ & _ & _ & Hs); [done..|].
  exists r. split; [done|]. destruct Hs as [->| ->]; done.
Qed.

(** The operator's approval takes the key that is pending when it arrives. *)
Lemma approval_takes_the_latest k1 k2 t1 t2 t3 d : dev_nodes d = ∅ → byte_len k1 = 32 → byte_len k2 = 32 → k1 ≠ k2 →
  let d1 := (request_pairing DEDICATED_NODE_ID k1 t1 d).2 in
  let d2 := (request_pairing DEDICATED_NODE_ID k2 t2 d1).2 in
  (pending_public_key <$> dev_nodes d1 !! DEDICATED_NODE_ID) = Some (Some k1) ∧
  (public_key <$> dev_nodes (store_approve_pairing DEDICATED_NODE_ID t3 d2).2 !! DEDICATED_NODE_ID) = Some (Some k2).
Proof.
  intros Hd H1 H2 Hne. unfold request_pairing. rewrite H1, H2, Hd, lookup_empty.
  rewrite (bool_decide_true (DEDICATED_NODE_ID = _)) by done. cbn. rewrite !lookup_insert_eq. cbn. split; [done|].
  rewrite (bool_decide_true (Ed25519 = Ed25519)), (bool_decide_false (Some k1 = Some k2)) by congruence.
  cbn. unfold store_approve_pairing. cbn.
  rewrite lookup_insert_eq. cbn [is_some pending_public_key credential_kind with_pending pending_row].
  rewrite (bool_decide_true (Ed25519 = Ed25519)) by done. cbn. by rewrite lookup_insert_eq.
Qed.

(** A request that timed out is still waited for. *)
Lemma timed_out_request_kept `{UuidText, C : Crypto, Payloads} node request message kind p c c1 :
  ct_answers c !! request = None → request_begin node request message kind p c = (inl tt, c1) →
  request_end request c1 = (inr Unavailable, c1) ∧ request ∈ ct_waiters c1.
Proof.
  intros Hn. unfold request_begin. destruct (active_boot node c) as [b|]; [|done]. unfold send_envelope. cbn.
  destruct (ct_active c !! node) as [a|]; intros [= <-]. unfold request_end. cbn. rewrite Hn. split; [done|set_solver].
Qed.

(** ** Concrete instances *)

Definition new_db : Db := mkDb ∅ empty_sessions.
Definition open_policy : Policy := mkControlPolicy None None None UNRESTRICTED_POLICY 5 20.
Definition first_challenge : ControlChallenge := mkChallenge 5%N "nonce" NODE_PROTOCOL_VERSION.
Definition node_hello : NodeHello := signed_hello DEDICATED_NODE_ID 2%N true first_challenge "fresh".
Definition beat : WireEnvelope :=
  mkEnvelope NODE_PROTOCOL_VERSION DEDICATED_NODE_ID 2%N 8%N "node.heartbeat" None None None None Null.
Definition pairing_events : list (Event * Z) :=
  [(EvHello node_hello first_challenge 3%N, 1); (EvApprove DEDICATED_NODE_ID, 2); (EvSettle 0, 2);
   (EvHello node_hello first_challenge 4%N, 3); (EvSettle 0, 3); (EvEnvelope 4%N beat 9%N, 4);
   (EvHello node_hello first_challenge 6%N, 5); (EvSettle 0, 5); (EvEnvelope 4%N beat 9%N, 6)].

Example pairing_results :
  (run open_policy pairing_events (started new_db)).1.*2 =
    [Refused PairingRequired; Done; Done;
     Registered (mkRegistered 4%N DEDICATED_NODE_ID 2%N "fresh" (mkAck NODE_PROTOCOL_VERSION 5 None)); Done; Done;
     Registered (mkRegistered 6%N DEDICATED_NODE_ID 2%N "fresh" (mkAck NODE_PROTOCOL_VERSION 5 None)); Done;
     Refused AuthenticationFailed].
Proof. vm_compute. reflexivity. Qed.

(** Two hellos of a node whose registrations overlap: the one recorded first
    is held last, and its heartbeats are refused until it ends. *)
Definition overlapping_events : list (Event * Z) :=
  take 3 pairing_events ++
  [(EvHello node_hello first_challenge 4%N, 3); (EvHello node_hello first_challenge 6%N, 3); (EvSettle 1, 4);
   (EvSettle 0, 4); (EvEnvelope 4%N beat 9%N, 5)].

Example overlapping_hellos :
  let '(hist, c) := run open_policy overlapping_events (started new_db) in
  last hist = Some (EvEnvelope 4%N beat 9%N, Refused Unavailable) ∧
  ct_active c !! DEDICATED_NODE_ID = Some (mkActive 4%N 2%N) ∧
  (connection_id <$> dev_nodes (ct_db c) !! DEDICATED_NODE_ID) = Some (Some 6%N) ∧ ct_later c = [].
Proof. vm_compute. done. Qed.

Lemma connection_needs_approval_witness :
  ∃ hist c, run open_policy pairing_events (started new_db) = (hist, c) ∧
    ∃ key, approved (h_node_id node_hello) key (take 3 hist) ∧ hello_signed key node_hello first_challenge = true.
Proof.
  destruct (run open_policy pairing_events (started new_db)) as [hist c] eqn:E. exists hist, c. split; [reflexivity|].
  apply (connection_needs_approval open_policy new_db pairing_events hist c eq_refl E 3 node_hello first_challenge 4%N
           (mkRegistered 4%N DEDICATED_NODE_ID 2%N "fresh" (mkAck NODE_PROTOCOL_VERSION 5 None))).
  replace hist with (run open_policy pairing_events (started new_db)).1 by (rewrite E; reflexivity).
  vm_compute. reflexivity.
Defined.

Lemma connections_accounted_witness :
  ∃ hist c, run open_policy pairing_events (started new_db) = (hist, c) ∧
    (∃ r, dev_nodes (ct_db c) !! DEDICATED_NODE_ID = Some r ∧
       node_boot r = Some 2%N ∧ connection_id r = Some 6%N ∧ connection_state r = ConnectedNode ∧ disconnected_at r = None) ∧
    (∀ connection, registered_in hist connection →
       awaited c connection ∨ is_active c connection ∨ connection ∈ ct_canceled c ∨ ended_in hist connection).
Proof.
  destruct (run open_policy pairing_events (started new_db)) as [hist c] eqn:E. exists hist, c. split; [reflexivity|].
  pose proof (connections_accounted open_policy new_db pairing_events hist c E) as H.
  split; [apply (proj1 H DEDICATED_NODE_ID (mkActive 6%N 2%N))|exact (proj1 (proj2 H))].
  - cbn [undisturbed pairing_events]. split_and!; [| |right; left; by eexists| |right; left; by eexists| | |right; left; by eexists| |exact I];
      left; vm_compute; reflexivity.
  - replace c with (run open_policy pairing_events (started new_db)).2 by (rewrite E; reflexivity). vm_compute. reflexivity.
  - replace c with (run open_policy pairing_events (started new_db)).2 by (rewrite E; reflexivity). vm_compute. reflexivity.
Defined.

(** Two sessions of a node, of which it lists the first. *)
Definition demo_spawn : SpawnParams := mkSpawn (Some DEDICATED_NODE_ID) (Some 2%N) "repo" "/repo" None None (Some "codex").
Definition two_sessions : Sessions := writes [(WSpawn "a" demo_spawn, 1); (WSpawn "b" demo_spawn, 2)] empty_sessions.
Definition connected_db : Db :=
  mkDb {[ DEDICATED_NODE_ID := connected_row node_hello 4%N 3 (pending_row (demo_key true) 1) ]} two_sessions.

Lemma heartbeat_reconciles_witness :
  let '(current, d') := heartbeat DEDICATED_NODE_ID 2%N 4%N ["a"] true 9 connected_db in
  current = true ∧
  (λ r, lf_state (pr_life r)) <$> pty_sessions (sessions d') !! "b" = Some Orphaned ∧
  (λ r, lf_state (pr_life r)) <$> pty_sessions (sessions d') !! "a" = Some Live.
Proof.
  destruct (heartbeat DEDICATED_NODE_ID 2%N 4%N ["a"] true 9 connected_db) as [current d'] eqn:E.
  assert (Hc : current = true) by (apply (f_equal fst) in E; vm_compute in E; symmetry; exact E).
  rewrite Hc in E. split; [exact Hc|].
  split; rewrite (heartbeat_reconciles DEDICATED_NODE_ID 2%N 4%N ["a"] 9 connected_db d' E); vm_compute; reflexivity.
Defined.

(** Two terminals, a session correlated in one and then in the other. *)
Definition moved_session : list (Write * Z) :=
  [(WSpawn "a" demo_spawn, 1); (WSpawn "b" demo_spawn, 2)] ++ correlation (mkCorrelate "a" "s" "codex") 3
  ++ correlation (mkCorrelate "b" "s" "codex") 4 ++ [(WDead "a" (Some 0), 5)].

Lemma ended_session_frozen_witness :
  ∃ r', pty_sessions (writes [(WHeartbeat DEDICATED_NODE_ID 2%N ["a"] true, 6);
                              (WRuntime (mkRuntimeMsg "a" "codex" Running None), 7)]
                        (writes moved_session empty_sessions)) !! "a" = Some r' ∧ lf_exit_code (pr_life r') = Some 0.
Proof.
  destruct (pty_sessions (writes moved_session empty_sessions) !! "a") as [r|] eqn:E; [|vm_compute in E; discriminate E].
  assert (Hs : lf_state (pr_life r) = Dead ∧ lf_exit_code (pr_life r) = Some 0).
  { apply (f_equal (fmap (λ r, (lf_state (pr_life r), lf_exit_code (pr_life r))))) in E. vm_compute in E.
    injection E as E1 E2. split; symmetry; assumption. }
  destruct Hs as [Hs Hc].
  destruct (ended_session_frozen moved_session [(WHeartbeat DEDICATED_NODE_ID 2%N ["a"] true, 6);
    (WRuntime (mkRuntimeMsg "a" "codex" Running None), 7)] "a" r E) as (r' & Hr & _ & Hx & _).
  - rewrite Hs. discriminate.
  - repeat constructor.
  - exists r'. split; [exact Hr|]. rewrite Hx. exact Hc.
Defined.

(** A session correlated in one terminal and then in the other. *)
Lemma session_rows_sound_witness :
  let w := writes moved_session empty_sessions in
  current_in w "a" = None ∧ current_in (writes (correlation (mkCorrelate "a" "s" "codex") 7) w) "a" = Some "s" ∧
  current_in (writes (correlation (mkCorrelate "a" "s" "codex") 7) w) "b" ≠ Some "s".
Proof.
  destruct (session_rows_sound moved_session) as (_ & _ & H).
  destruct (H (mkCorrelate "a" "s" "codex") 7) as (H1 & H2 & _). split_and!.
  - vm_compute. reflexivity.
  - apply H1. vm_compute. eauto.
  - intros E. apply H2 in E. discriminate E.
Defined.

