(* ===== verification/ArchiveObjects.v ===== *)
(** * Archive objects

    [archive/store.rs] and the object format of [archive/export.rs]: where
    objects go, the envelope around each stored event, and reading an object
    back against the hash the session recorded. JSON text, zstd, SHA-256 and
    RFC 3339 are the crates'; the bucket is S3's. *)

From S2P Require Import Prelude Text Json Ingester.

Abbreviation octets := (list Ascii.ascii).

(** ** JSON that is read back *)

Fixpoint depth (v : Value) : nat :=
  match v with
  | Array l => S (foldr (λ v n, Nat.max (depth v) n) O l)
  | Object m => S (foldr (λ f n, Nat.max (depth f.2) n) O m)
  | _ => O
  end.

(** The numbers that are printed exactly. *)
Definition plain_number (n : number) : bool :=
  match n with
  | PosInt n => (0 <=? n) && (n <? 2 ^ 64)
  | NegInt p => Zpos p <=? 2 ^ 63
  | Float _ => false
  end.

Fixpoint ascending (keys : list string) : bool :=
  match keys with
  | a :: ((b :: _) as rest) => string_ltb a b && ascending rest
  | _ => true
  end.

(** A map's fields are in key order. *)
Fixpoint plain (v : Value) : bool :=
  match v with
  | Null | Bool _ | Str _ => true
  | Number n => plain_number n
  | Array l => forallb plain l
  | Object m => forallb (λ f, plain f.2) m && ascending (fst <$> m)
  end.

(** serde_json refuses what is nested deeper. *)
Definition MAX_DEPTH : nat := 127.

(** ** The crates *)

Class Archiver : Type := {
  (** [serde_json::to_vec] of a struct with these fields, and of a value. *)
  struct_text : list (string * Value) → octets;
  value_text : Value → octets;
  (** [serde_json::from_slice] *)
  read_json : octets → option Value;
  compress : octets → octets;
  decompress : octets → option octets;
  sha256 : octets → list Z;
  (** A [DateTime<Utc>] as serde prints and reads it, and by ["%Y/%m"]. *)
  rfc3339 : Z → string;
  parse_datetime : string → option Z;
  month_text : Z → string;
}.

Class ArchiverLaws (A : Archiver) : Prop := {
  read_struct fields : NoDup (fst <$> fields) → forallb (λ f, plain f.2) fields = true →
    (depth (json_object fields) ≤ MAX_DEPTH)%nat → read_json (struct_text fields) = Some (json_object fields);
  read_value v : plain v = true → (depth v ≤ MAX_DEPTH)%nat → read_json (value_text v) = Some v;
  (** Printed without white space between tokens. *)
  struct_one_line fields : Ascii.ascii_of_nat 10 ∉ struct_text fields;
  struct_visible fields : forallb is_ascii_whitespace (struct_text fields) = false;
  value_visible v : forallb is_ascii_whitespace (value_text v) = false;
  decompressed bytes : decompress (compress bytes) = Some bytes;
  read_datetime at_ : parse_datetime (rfc3339 at_) = Some at_;
}.

(** ** The object store *)

Record ObjectHead : Type := mkHead {
  content_length : Z;
  head_metadata : gmap string string;
}.

(** The three calls of [enum ObjectStore], on what is stored. A call that fails
    may have stored something. *)
Class ObjectStore (S : Type) : Type := {
  put_file : string → octets → gmap string string → S → S * res unit;
  head_object : string → S → res (option ObjectHead);
  get_to_file : string → S → res octets;
}.

Definition byte_count (bytes : octets) : Z := Z.of_nat (length bytes).

(** What the archive relies on, for the keys it uses. *)
Class ObjectStoreLaws (S : Type) `{ObjectStore S} (is_key : string → Prop) : Prop := {
  put_head key bytes meta st st' : is_key key → put_file key bytes meta st = (st', Ok tt) →
    head_object key st' = Ok (Some (mkHead (byte_count bytes) meta));
  put_get key bytes meta st st' : is_key key → put_file key bytes meta st = (st', Ok tt) →
    get_to_file key st' = Ok bytes;
  put_other key key' bytes meta st : is_key key → is_key key' → key' ≠ key →
    get_to_file key' (put_file key bytes meta st).1 = get_to_file key' st;
}.

(** *** A directory *)

(** The files under [root], by their relative paths. *)
Abbreviation Files := (gmap string octets).

(** [serde_json] of a map of strings. *)
Class MetaText : Type := {
  meta_text : gmap string string → octets;
  read_meta : octets → option (gmap string string);
}.

Class MetaTextLaws (M : MetaText) : Prop := { meta_kept m : read_meta (meta_text m) = Some m }.

Definition meta_path (target : string) : string := target +:+ ".meta.json".

#[export] Instance DirStore `{MetaText} : ObjectStore Files := {|
  put_file key bytes meta files := (<[meta_path key := meta_text meta]> (<[key := bytes]> files), Ok tt);
  head_object key files :=
    Ok (match files !! key with
        | None => None
        | Some bytes =>
            Some (mkHead (byte_count bytes)
                    (default ∅ (files !! meta_path key ≫= read_meta)))
        end);
  get_to_file key files :=
    match files !! key with
    | Some bytes => Ok bytes
    | None => bail ("read " +:+ key +:+ " from archive dir")
    end;
|}.

(** Keys of session objects and of dumps; none is the metadata of another. *)
Definition is_session_key (key : string) : Prop := ends_with ".jsonl.zst" key = true.
Definition is_dump_key (key : string) : Prop := ends_with ".dump" key = true.
Definition is_object_key (key : string) : Prop := is_session_key key ∨ is_dump_key key.

(** ** Envelopes *)

Record ArchiveLine : Type := mkArchiveLine {
  al_o : Z;
  al_t : Z;
  al_k : string;
  al_r : option string;
  al_p : Value;
}.

Definition json_int (z : Z) : Value :=
  Number (match z with Z0 => PosInt 0 | Zpos _ => PosInt z | Zneg p => NegInt p end).

Section objects.
Context `{A : Archiver}.

(** The fields [Serialize] writes; [r] only when there is one. *)
Definition line_fields (line : ArchiveLine) : list (string * Value) :=
  [("o", json_int (al_o line)); ("t", Str (rfc3339 (al_t line))); ("k", Str (al_k line))]
  ++ match al_r line with Some r => [("r", Str r)] | None => [] end
  ++ [("p", al_p line)].

Definition optional_text (v : option Value) : option (option string) :=
  match v with
  | None | Some Null => Some None
  | Some (Str s) => Some (Some s)
  | Some _ => None
  end.

(** [Deserialize]: [r] may be absent or null, another field is ignored. *)
Definition line_of_value (v : Value) : option ArchiveLine :=
  o ← (get v "o" ≫= as_i64);
  t ← ((get v "t" ≫= as_str) ≫= parse_datetime);
  k ← (get v "k" ≫= as_str);
  r ← optional_text (get v "r");
  p ← get v "p";
  Some (mkArchiveLine o t k r p).

Definition newline_byte : Ascii.ascii := Ascii.ascii_of_nat 10.

Definition encode_line (line : ArchiveLine) : octets := struct_text (line_fields line) ++ [newline_byte].

(** The uncompressed bytes of an object. *)
Definition object_text (lines : list ArchiveLine) : octets := lines ≫= encode_line.

Definition hex_digit (n : Z) : string :=
  String (Ascii.ascii_of_nat (Z.to_nat (if n <? 10 then 48 + n else 87 + n))) "".

Definition hex (bytes : list Z) : string :=
  concat_text ((λ b, hex_digit (b / 16) +:+ hex_digit (b mod 16)) <$> bytes).

(** [write_session_lines]: the file, the uncompressed size, its hash and the
    number of lines. *)
Definition write_session_lines (lines : list ArchiveLine) : octets * Z * string * Z :=
  let raw := object_text lines in
  (compress raw, byte_count raw, hex (sha256 raw), Z.of_nat (length lines)).

(** [slice::split] at newlines: one piece more than there are newlines. *)
Fixpoint split_newlines (raw : octets) : list octets :=
  match raw with
  | [] => [[]]
  | c :: raw =>
      if bool_decide (c = newline_byte) then [] :: split_newlines raw
      else match split_newlines raw with
           | piece :: rest => (c :: piece) :: rest
           | [] => [[c]]
           end
  end.

Definition read_line (key : string) (line : octets) : res ArchiveLine :=
  ok_or (read_json line ≫= line_of_value) (key +:+ ": a line is not an archive envelope").

Definition read_session_lines {S : Type} `{ObjectStore S} (key expected : string) (st : S) : res (list ArchiveLine) :=
  file ← get_to_file key st;
  raw ← ok_or (decompress file) "zstd decoder";
  if negb (bool_decide (hex (sha256 raw) = expected))
  then bail (key +:+ ": sha256 does not match recorded")
  else try_map (read_line key) (List.filter (λ l, negb (forallb is_ascii_whitespace l)) (split_newlines raw)).

(** ** Lemmas *)

(** A line that is read back as it was written. *)
Definition readable (line : ArchiveLine) : Prop :=
  in_i64 (al_o line) ∧ plain (al_p line) = true ∧ (depth (al_p line) < MAX_DEPTH)%nat.

Lemma as_i64_json z : in_i64 z → as_i64 (json_int z) = Some z.
Proof.
  unfold in_i64, json_int, as_i64. intros [_ H]. destruct z; [done| |done].
  apply Z.leb_le in H. by rewrite H.
Qed.

Lemma plain_int z : in_i64 z → plain (json_int z) = true.
Proof.
  unfold in_i64, i64_min, i64_max, json_int, plain, plain_number. intros [H1 H2].
  destruct z; [done| |]; [apply andb_true_iff; split; [apply Z.leb_le|apply Z.ltb_lt]|apply Z.leb_le]; lia.
Qed.

Lemma depth_object m : depth (Object m) = S (foldr (λ f n, Nat.max (depth f.2) n) O m).
Proof. done. Qed.

(** The fields in key order. *)
Lemma line_object line : json_object (line_fields line) =
  Object ([("k", Str (al_k line)); ("o", json_int (al_o line)); ("p", al_p line)]
          ++ match al_r line with Some r => [("r", Str r)] | None => [] end
          ++ [("t", Str (rfc3339 (al_t line)))]).
Proof. unfold line_fields. by destruct (al_r line). Qed.

Lemma line_fields_read line : in_i64 (al_o line) →
  line_of_value (json_object (line_fields line)) =
  parse_datetime (rfc3339 (al_t line)) ≫= λ t, Some (mkArchiveLine (al_o line) t (al_k line) (al_r line) (al_p line)).
Proof.
  intros Ho%as_i64_json. rewrite line_object. unfold line_of_value.
  set (m := Object _).
  assert (get m "o" = Some (json_int (al_o line))) as -> by done.
  assert (get m "k" = Some (Str (al_k line))) as -> by done.
  assert (get m "p" = Some (al_p line)) as -> by done.
  assert (get m "t" = Some (Str (rfc3339 (al_t line)))) as -> by (unfold m; by destruct (al_r line)).
  assert (optional_text (get m "r") = Some (al_r line)) as -> by (unfold m; by destruct (al_r line)).
  change (Some (json_int (al_o line)) ≫= as_i64) with (as_i64 (json_int (al_o line))).
  rewrite Ho. cbn. by destruct (parse_datetime _).
Qed.

Context `{L : !ArchiverLaws A}.

Lemma read_line_back key line : readable line →
  read_line key (struct_text (line_fields line)) = Ok line.
Proof.
  intros (Ho & Hp & Hd). unfold read_line. rewrite read_struct.
  - cbn [mbind option_bind]. rewrite line_fields_read, read_datetime by done. by destruct line.
  - unfold line_fields. destruct (al_r line); apply (bool_decide_unpack _); vm_compute; done.
  - apply plain_int in Ho. unfold line_fields. destruct (al_r line); cbn -[plain json_int]; by rewrite Ho, Hp.
  - rewrite line_object, depth_object. unfold MAX_DEPTH in *.
    assert (depth (json_int (al_o line)) = O) as E by (by destruct (al_o line)).
    destruct (al_r line); cbn -[json_int]; rewrite E; cbn; lia.
Qed.

Lemma split_newlines_app l rest : newline_byte ∉ l →
  split_newlines (l ++ newline_byte :: rest) = l :: split_newlines rest.
Proof.
  induction l as [|c l IH]; cbn; intros Hn.
  - by rewrite bool_decide_true.
  - apply not_elem_of_cons in Hn as [Hc Hn]. rewrite bool_decide_false by done. by rewrite IH.
Qed.

Lemma read_object_text key lines : Forall readable lines →
  try_map (read_line key)
    (List.filter (λ l, negb (forallb is_ascii_whitespace l)) (split_newlines (object_text lines))) = Ok lines.
Proof.
  induction 1 as [|line lines Hl _ IH]; [done|].
  unfold object_text. cbn [mbind list_bind]. fold (object_text lines). unfold encode_line at 1.
  rewrite <-app_assoc. cbn [app]. rewrite split_newlines_app by apply struct_one_line.
  cbn [List.filter]. rewrite struct_visible. cbn [negb try_map].
  rewrite read_line_back by done. cbn [mbind res_bind]. by rewrite IH.
Qed.

(** An object read back, from a store that holds it. *)
Lemma read_session_lines_back {S : Type} `{ObjectStore S} key lines (st : S) : Forall readable lines →
  get_to_file key st = Ok (compress (object_text lines)) →
  read_session_lines key (hex (sha256 (object_text lines))) st = Ok lines.
Proof.
  intros Hl Hg. unfold read_session_lines. rewrite Hg. cbn [mbind res_bind]. rewrite decompressed. cbn [mbind res_bind ok_or].
  rewrite bool_decide_true by done. cbn [negb]. by apply read_object_text.
Qed.
End objects.

(** ** The directory keeps its promises *)

Lemma suffix_inj (a b p q : string) : String.length p = String.length q → a +:+ p = b +:+ q → p = q.
Proof.
  intros Hl. revert b. induction a as [|x a IH]; intros [|y b] E; [done| | |].
  1-2: apply (f_equal String.length) in E; rewrite !length_append in E; cbn in E; lia.
  rewrite !append_cons in E. injection E as _ E. by eapply IH.
Qed.

Lemma key_not_meta key key' : is_object_key key → key ≠ meta_path key'.
Proof.
  intros [(r & ->)%ends_with_spec|(r & ->)%ends_with_spec] E; [by apply suffix_inj in E|].
  unfold meta_path in E. change ".meta.json" with (".meta" +:+ ".json") in E. rewrite <-append_assoc in E.
  by apply suffix_inj in E.
Qed.

Lemma session_not_dump key key' : is_session_key key → is_dump_key key' → key ≠ key'.
Proof.
  intros (r & ->)%ends_with_spec (r' & ->)%ends_with_spec E.
  change ".jsonl.zst" with (".json" +:+ "l.zst") in E. rewrite <-append_assoc in E. by apply suffix_inj in E.
Qed.

#[export] Instance DirStore_laws {M : MetaText} {HM : MetaTextLaws M} : ObjectStoreLaws Files is_object_key.
Proof.
  split.
  - intros key bytes meta st st' Hk E. injection E as <-. cbn [head_object DirStore].
    rewrite lookup_insert_ne by (apply not_eq_sym; by apply key_not_meta).
    rewrite !lookup_insert_eq. cbn. by rewrite meta_kept.
  - intros key bytes meta st st' Hk E. injection E as <-. cbn [get_to_file DirStore].
    rewrite lookup_insert_ne by (apply not_eq_sym; by apply key_not_meta). by rewrite lookup_insert_eq.
  - intros key key' bytes meta st Hk Hk' Hne. cbn [get_to_file put_file DirStore fst].
    rewrite lookup_insert_ne by (apply not_eq_sym; by apply key_not_meta).
    by rewrite lookup_insert_ne.
Qed.
