(* ===== verification/Archive.v ===== *)
(** * The transcript archive

    [archive/export.rs], [archive/purge.rs] and [archive/restore.rs]: a session
    is exported to an object, purged down to the digests of its turns, and
    replayed from its object. The tables are the database's; those of one
    session are kept in its row. *)

From S2P Require Import Prelude Text Json Ingester NodeWire PtySessions CodeMode Lineage Usage ModelSwitch Metadata Activity Canonical Events EventStore Runtime Render FileTouches Reducer Store Projection ArchiveObjects.

(** ** Figures

    The two rollups add up rows of counts; a restore takes them back, never
    below zero. *)

Class Figures (A : Type) : Type := {
  fig_zero : A;
  fig_add : A → A → A;
  (** [GREATEST(a - b, 0)] *)
  fig_take : A → A → A;
  (** [CHECK (... >= 0)] of a [BIGINT]. *)
  fig_fits : A → bool;
}.

Definition count_fits (z : Z) : bool := (0 <=? z) && in_i64b z.

#[export] Instance tokens_figures : Figures UsageComponents := {|
  fig_zero := components_default;
  fig_add := map2 Z.add;
  fig_take := map2 (λ a b, Z.max (a - b) 0);
  fig_fits := all1 count_fits;
|}.

(** [file_activity_daily] *)
Record Churn : Type := mkChurn { write_turns : Z; read_turns : Z }.

#[export] Instance churn_figures : Figures Churn := {|
  fig_zero := mkChurn 0 0;
  fig_add a b := mkChurn (write_turns a + write_turns b) (read_turns a + read_turns b);
  fig_take a b := mkChurn (Z.max (write_turns a - write_turns b) 0) (Z.max (read_turns a - read_turns b) 0);
  fig_fits a := count_fits (write_turns a) && count_fits (read_turns a);
|}.

Section rollup.
Context {K A : Type} `{Countable K} `{Figures A}.

(** [INSERT ... ON CONFLICT DO UPDATE SET x = rollup.x + EXCLUDED.x] *)
Definition add_contributions (c m : gmap K A) : res (gmap K A) :=
  let m' := union_with (λ c a, Some (fig_add a c)) c m in
  if bool_decide (map_Forall (λ k _, fig_fits (default fig_zero (m' !! k)) = true) c) then Ok m'
  else bail "out of range".

(** [UPDATE ... FROM contributions] *)
Definition withdraw_contributions (c m : gmap K A) : gmap K A :=
  map_imap (λ k a, Some (match c !! k with Some c => fig_take a c | None => a end)) m.
End rollup.

(** ** Rows *)

Record ArchiveColumns : Type := mkColumns {
  archived_at : option Z;
  archive_key : option string;
  archive_sha256 : option string;
  archive_bytes : option Z;
  archive_events : option Z;
  purged_at : option Z;
}.

(** The keys of the two rollups: day, repository, agent, model; repository,
    path, day. *)
Abbreviation UsageKey := (Z * string * string * string)%type (only parsing).
Abbreviation FileKey := (string * string * Z)%type (only parsing).

(** An entry of [files_json]. *)
Abbreviation FileRef := (string * string * string * bool)%type (only parsing).

(** A [turn_digest] row of [retrieval_embedding_sources]. *)
Record DigestSource : Type := mkDigest {
  dg_repo : option string;
  dg_content_hash : string;
  dg_status : string;
}.

(** A row of [claude_sessions] with the rows of the session in other tables. *)
Record SessionRow : Type := mkSessionRow {
  sr_agent : string;
  sr_pty : option Uuid;
  sr_project_hash : option string;
  sr_ingest_path : option string;
  sr_context : option ContextRow;
  sr_columns : ArchiveColumns;
  sr_tables : SessionTables;
  sr_timeline : Db;
  sr_files : gmap Z (gset FileRef);
  sr_digests : gmap Z DigestSource;
  sr_usage : gmap UsageKey UsageComponents;
  sr_churn : gmap FileKey Churn;
}.

Definition with_columns (c : ArchiveColumns) (r : SessionRow) : SessionRow :=
  mkSessionRow (sr_agent r) (sr_pty r) (sr_project_hash r) (sr_ingest_path r) (sr_context r) c
    (sr_tables r) (sr_timeline r) (sr_files r) (sr_digests r) (sr_usage r) (sr_churn r).
Definition with_tables (t : SessionTables) (r : SessionRow) : SessionRow :=
  mkSessionRow (sr_agent r) (sr_pty r) (sr_project_hash r) (sr_ingest_path r) (sr_context r) (sr_columns r)
    t (sr_timeline r) (sr_files r) (sr_digests r) (sr_usage r) (sr_churn r).
Definition with_timeline (d : Db) (r : SessionRow) : SessionRow :=
  mkSessionRow (sr_agent r) (sr_pty r) (sr_project_hash r) (sr_ingest_path r) (sr_context r) (sr_columns r)
    (sr_tables r) d (sr_files r) (sr_digests r) (sr_usage r) (sr_churn r).
Definition with_digest (f : gmap Z (gset FileRef)) (g : gmap Z DigestSource) (r : SessionRow) : SessionRow :=
  mkSessionRow (sr_agent r) (sr_pty r) (sr_project_hash r) (sr_ingest_path r) (sr_context r) (sr_columns r)
    (sr_tables r) (sr_timeline r) f g (sr_usage r) (sr_churn r).
Definition with_contributions (u : gmap UsageKey UsageComponents) (c : gmap FileKey Churn) (r : SessionRow) : SessionRow :=
  mkSessionRow (sr_agent r) (sr_pty r) (sr_project_hash r) (sr_ingest_path r) (sr_context r) (sr_columns r)
    (sr_tables r) (sr_timeline r) (sr_files r) (sr_digests r) u c.

(** [ad_repos] is [repo_runtime_state]: names and paths. *)
Record ArchiveDb : Type := mkArchiveDb {
  ad_sessions : gmap Uuid SessionRow;
  ad_links : gset ChildLink;
  ad_ptys : gmap Uuid PtyRow;
  ad_repos : list (string * string);
  ad_versions : gmap string Z;
  ad_rollup : gmap UsageKey UsageComponents;
  ad_activity : gmap FileKey Churn;
}.

Definition set_session (id : Uuid) (r : SessionRow) (db : ArchiveDb) : ArchiveDb :=
  mkArchiveDb (<[id := r]> (ad_sessions db)) (ad_links db) (ad_ptys db) (ad_repos db) (ad_versions db)
    (ad_rollup db) (ad_activity db).
Definition set_links (l : gset ChildLink) (db : ArchiveDb) : ArchiveDb :=
  mkArchiveDb (ad_sessions db) l (ad_ptys db) (ad_repos db) (ad_versions db) (ad_rollup db) (ad_activity db).
Definition set_rollups (u : gmap UsageKey UsageComponents) (a : gmap FileKey Churn) (db : ArchiveDb) : ArchiveDb :=
  mkArchiveDb (ad_sessions db) (ad_links db) (ad_ptys db) (ad_repos db) (ad_versions db) u a.

Definition event_count (r : SessionRow) : Z := Z.of_nat (size (t_events (sr_tables r))).

(** The rows in byte order. *)
Definition event_rows (t : SessionTables) : list (Z * EventRow) :=
  omap (λ o, pair o <$> t_events t !! o) (sorted_ids (dom (t_events t))).

(** ** Derived data

    [ingest/maintenance.rs]: the versions this binary writes, and the keys
    whose stored version is behind. *)

Definition projection_targets : list (string * Z) :=
  [("canonical_blocks", 7); ("usage_projection", 3); ("timeline_projection", 17)].

Definition projections_behind (db : ArchiveDb) : list string :=
  (List.filter (λ kv, default 0 (ad_versions db !! kv.1) <? kv.2) projection_targets).*1.

Section archive.
Context (hash_text : string → string) (json_text : Value → string).
Context (parse_uuid : string → option Uuid) (parse_rfc3339 : string → option Z).
Context (rules : list CategoryRule).
Context (project : Value → option string → option OperationCategory →
                   Value * option string * option OperationCategory).
Context (fs : Fs) `{T : TreeSitter} `{J : SerdeText} `{U : UuidText} `{A : Archiver}.
Context `{HeapOrder OpDbRow} `{HeapOrder PtyRow} `{HeapOrder (string * string)}.

(** ** The events as the timeline reads them *)

(** A row of [load_session_events]. *)
Definition stored_event (t : SessionTables) (o : Z) (row : EventRow) : StoredEvent :=
  mkEvent o (er_timestamp row) (er_kind row) (er_agent row) (Some (er_speaker row))
    (Some (er_content_kind row)) (er_event_uuid row) (er_parent_event_uuid row)
    (er_related_tool_use_id row) (er_is_sidechain row) (er_is_meta row) (er_subtype row)
    (if bool_decide (er_agent row = "codex")
     then at_path (er_payload row) ["payload"; "info"; "total_token_usage"]
     else at_path (er_payload row) ["message"; "usage"])
    (pg_text json_text (at_path (er_payload row) ["message"; "id"]))
    (load_event_blocks rules project o (t_blocks t)).

Definition stored_events (t : SessionTables) : gmap Z StoredEvent :=
  map_imap (λ o row, Some (stored_event t o row)) (t_events t).

(** The session as its projection sees it; links are in one table. *)
Definition session_view (db : ArchiveDb) (id : Uuid) (r : SessionRow) : Session :=
  mkSession id (is_some (purged_at (sr_columns r))) (sr_agent r)
    (t_parent (sr_tables r) ≫= parse_uuid) (sr_ingest_path r) (sr_context r)
    (stored_events (sr_tables r)) (set_links_table (ad_links db) (sr_timeline r)).

(** ** Export *)

(** The current session of a live terminal. *)
Definition current_live (id : Uuid) (db : ArchiveDb) : bool :=
  existsb (λ p, is_live p.2 && bool_decide (cu_session (pr_current p.2) = Some (uuid_text id)))
    (map_to_list (ad_ptys db)).

Definition archive_line (row : Z * EventRow) : ArchiveLine :=
  mkArchiveLine row.1 (er_timestamp row.2) (er_kind row.2) (er_related_tool_use_id row.2) (er_payload row.2).

Definition session_lines (r : SessionRow) : list ArchiveLine := archive_line <$> event_rows (sr_tables r).

Record EligibleSession : Type := mkEligible {
  el_session : Uuid;
  el_agent : string;
  el_event_count : Z;
  el_first_event_at : Z;
  el_archived_at : option Z;
  el_archive_events : option Z;
}.

Definition timestamps (r : SessionRow) : list Z := (λ row, er_timestamp row.2) <$> event_rows (sr_tables r).

(** [NOW() - make_interval(days => $1::INT)], bound as an [i32]. *)
Definition days_before (now days : Z) : Z := now - wrap32 days * DAY_MICROS.

Definition eligible (now min_idle_days : Z) (db : ArchiveDb) (s : Uuid * SessionRow) : option EligibleSession :=
  let '(id, r) := s in
  match timestamps r with
  | [] => None
  | t :: ts =>
      let c := sr_columns r in
      if is_none (purged_at c)
         && (foldr Z.max t ts <? days_before now min_idle_days)
         && (is_none (archived_at c) || negb (bool_decide (archive_events c = Some (event_count r))))
         && negb (current_live id db)
      then Some (mkEligible id (sr_agent r) (event_count r) (foldr Z.min t ts) (archived_at c) (archive_events c))
      else None
  end.

Definition first_event_le (a b : EligibleSession) : Prop := el_first_event_at a ≤ el_first_event_at b.

#[export] Instance first_event_le_dec a b : Decision (first_event_le a b).
Proof. unfold first_event_le. apply _. Defined.

Definition eligible_sessions (now min_idle_days : Z) (db : ArchiveDb) : list EligibleSession :=
  merge_sort first_event_le (omap (eligible now min_idle_days db) (map_to_list (ad_sessions db))).

Definition object_key (agent : string) (first_event_at : Z) (id : Uuid) : string :=
  "sessions/" +:+ agent +:+ "/" +:+ month_text first_event_at +:+ "/" +:+ uuid_text id +:+ ".jsonl.zst".

Record ExportOutcome : Type := mkExport {
  ex_key : string;
  ex_events : Z;
  ex_bytes : Z;
  ex_compressed : Z;
  ex_sha256 : string;
}.

Definition object_metadata (id : Uuid) (agent : string) (events bytes : Z) (sha : string) : gmap string string :=
  list_to_map [("session-uuid", uuid_text id); ("agent", agent); ("events", pretty events);
               ("sha256", sha); ("bytes", pretty bytes)].

(** What [HEAD] must report before the columns are written. *)
Definition check_upload (key : string) (compressed : Z) (sha : string) (head : option ObjectHead) : res unit :=
  head ← ok_or head (key +:+ " is absent after upload");
  if negb (content_length head =? compressed) then bail (key +:+ ": stored size differs from the upload")
  else if negb (bool_decide (head_metadata head !! "sha256" = Some sha))
  then bail (key +:+ ": stored sha256 does not match the export")
  else Ok tt.

Definition record_archive (now : Z) (e : ExportOutcome) (c : ArchiveColumns) : ArchiveColumns :=
  mkColumns (Some now) (Some (ex_key e)) (Some (ex_sha256 e)) (Some (ex_bytes e)) (Some (ex_events e)) (purged_at c).

(** [export_session]; what a failing upload leaves is the store's. *)
Definition export_session {S : Type} `{ObjectStore S} (now : Z) (session : EligibleSession)
    (db : ArchiveDb) (st : S) : ArchiveDb * S * res ExportOutcome :=
  let id := el_session session in
  let key := object_key (el_agent session) (el_first_event_at session) id in
  let lines := match ad_sessions db !! id with Some r => session_lines r | None => [] end in
  let '(file, bytes, sha, n) := write_session_lines lines in
  if n =? 0 then (db, st, bail "session has no events to export")
  else
    let '(st, put) := put_file key file (object_metadata id (el_agent session) n bytes sha) st in
    let checked := _ ← put; head ← head_object key st; check_upload key (byte_count file) sha head in
    match checked with
    | Err e => (db, st, Err e)
    | Ok _ =>
        let out := mkExport key n bytes (byte_count file) sha in
        (match ad_sessions db !! id with
         | Some r => set_session id (with_columns (record_archive now out (sr_columns r)) r) db
         | None => db
         end, st, Ok out)
    end.

(** ** Purge *)

Record PurgeCandidate : Type := mkCandidate { pc_session : Uuid; pc_archived_at : Z }.

Definition purge_candidate (now purge_after_days : Z) (db : ArchiveDb) (s : Uuid * SessionRow)
    : option PurgeCandidate :=
  let '(id, r) := s in
  let c := sr_columns r in
  at_ ← archived_at c;
  if is_none (purged_at c) && (at_ <? days_before now purge_after_days)
     && bool_decide (archive_events c = Some (event_count r)) && negb (current_live id db)
  then Some (mkCandidate id at_) else None.

Definition archived_le (a b : PurgeCandidate) : Prop := pc_archived_at a ≤ pc_archived_at b.

#[export] Instance archived_le_dec a b : Decision (archived_le a b).
Proof. unfold archived_le. apply _. Defined.

Definition purge_candidates (now purge_after_days : Z) (db : ArchiveDb) : list PurgeCandidate :=
  merge_sort archived_le (omap (purge_candidate now purge_after_days db) (map_to_list (ad_sessions db))).

(** [regexp_replace(path, '[^A-Za-z0-9]', '-', 'g')] *)
Definition alphanumeric (c : string) : bool :=
  match c with
  | String a "" =>
      let n := Z.of_nat (Ascii.nat_of_ascii a) in
      ((48 <=? n) && (n <=? 57)) || ((65 <=? n) && (n <=? 90)) || ((97 <=? n) && (n <=? 122))
  | _ => false
  end.

Definition project_hash (path : string) : string :=
  concat_text ((λ c, if alphanumeric c then c else "-") <$> chars path).

(** The PTY of the session or of the nearest session it continues. *)
Fixpoint lineage_pty (depth : nat) (db : ArchiveDb) (id : Uuid) : option Uuid :=
  r ← ad_sessions db !! id;
  match sr_pty r, depth with
  | Some pty, _ => Some pty
  | None, S depth => parent ← t_parent (sr_tables r) ≫= parse_uuid; lineage_pty depth db parent
  | None, O => None
  end.

Definition attributed_repo (id : Uuid) (db : ArchiveDb) : option string :=
  r ← ad_sessions db !! id;
  let direct := lineage_pty 16 db id ≫= λ pty, pr_repo <$> ad_ptys db !! pty in
  let reverse := pr_repo <$> List.find (λ p, bool_decide (cu_session (pr_current p) = Some (uuid_text id)))
                               (heap_order (map_to_list (ad_ptys db)).*2) in
  let hashed := h ← sr_project_hash r;
                fst <$> List.find (λ p, bool_decide (project_hash p.2 = h)) (heap_order (ad_repos db)) in
  or_else direct (or_else reverse hashed).

(** The checks of the candidate query, under the row lock. *)
Definition lock_and_check (id : Uuid) (db : ArchiveDb) : res SessionRow :=
  r ← ok_or (ad_sessions db !! id) "session does not exist";
  let c := sr_columns r in
  if is_some (purged_at c) then bail "session is already purged"
  else if is_none (archived_at c) then bail "session has no verified export"
  else if negb (bool_decide (archive_events c = Some (event_count r))) then bail "session grew since its export"
  else if current_live id db then bail "session is the current session of a live PTY"
  else Ok r.

(** The timeline has applied every stored event. *)
Definition session_projection_current (r : SessionRow) : bool :=
  bool_decide (t_events (sr_tables r) = ∅)
  || match state_row (sr_timeline r) with
     | Some s => (projection_version s =? REDUCER_VERSION)
                 && forallb (λ o, o <=? projected_through (row_state s)) (elements (dom (t_events (sr_tables r))))
     | None => false
     end.

(** *** Rollups *)

Definition usage_contributions (repo : string) (u : UsageDb) : gmap UsageKey UsageComponents :=
  list_to_map ((λ kv, ((kv.1.1, repo, Usage.md_agent kv.2, kv.1.2), Usage.md_tokens kv.2)) <$> map_to_list (model_daily u)).

Definition touch_key (d : Db) (t : key2 * (Z * TimelineFileTouch)) : option (FileKey * (Z * bool)) :=
  turn ← turns_table d !! t.1.1;
  Some ((Render.repo t.2.2, Render.path t.2.2, date_naive (end_timestamp turn.1)), (t.1.1, is_write t.2.2)).

(** [COUNT(DISTINCT turn_id) FILTER (...)] *)
Definition turns_where (write : bool) (ts : list (Z * bool)) : Z :=
  Z.of_nat (size (list_to_set (fst <$> List.filter (λ t, Bool.eqb t.2 write) ts) : gset Z)).

Definition file_contributions (d : Db) : gmap FileKey Churn :=
  let touches := omap (touch_key d) (map_to_list (touches_table d)) in
  set_to_map (λ k, (k, let mine := snd <$> List.filter (λ t, bool_decide (t.1 = k)) touches in
                       mkChurn (turns_where true mine) (turns_where false mine)))
    (list_to_set (fst <$> touches) : gset FileKey).

(** [roll_up_usage] and [roll_up_file_activity]: the rows recorded for the
    session replace those of an earlier purge, and are added. *)
Definition roll_up (repo : string) (r : SessionRow) (db : ArchiveDb) : res (SessionRow * ArchiveDb) :=
  let u := usage_contributions repo (t_usage (sr_tables r)) ∪ sr_usage r in
  let c := file_contributions (sr_timeline r) ∪ sr_churn r in
  rollup ← add_contributions u (ad_rollup db);
  activity ← add_contributions c (ad_activity db);
  Ok (with_contributions u c r, set_rollups rollup activity db).

(** *** Digests *)

(** [build_operation_pair] *)
Definition operation_pair (row : OpDbRow) : TimelineToolPair :=
  mkPair (db_pair_id row) (db_name row) (db_raw_name row) (db_operation_type row)
    (operation_category row ≫= OperationCategories.parse) (db_input row)
    (if is_some (db_result_content row) || is_some (db_result_payload row)
     then Some (Render.mkResult (db_result_content row) (db_result_payload row) (db_result_is_error row)) else None)
    (db_is_error row) (db_is_pending row).

Definition of_turn {V} (id : Z) (m : gmap key2 V) : list (Z * V) :=
  omap (λ k : key2, pair k.2 <$> m !! k) (sorted_keys (filter (λ k, k.1 = id) (dom m))).

Definition turn_markdown (d : Db) (id : Z) (turn : TurnRow) : string :=
  compose_turn_markdown (turn_prompt_text turn) (of_turn id (items_table d))
    ((λ o, operation_pair o.2) <$> of_turn id (operations_table d)).

Definition store_turn_digests (d : Db) : Db :=
  set_turns_table
    (map_imap (λ id t, Some (if is_empty t.2 then (t.1, turn_markdown d id t.1) else t)) (turns_table d)) d.

Definition touched_files (d : Db) (id : Z) : gset FileRef :=
  list_to_set ((λ t, (Render.repo t.2.2, Render.path t.2.2, touch_kind t.2.2, is_write t.2.2))
                 <$> of_turn id (touches_table d)).

Definition fold_touches_into_digest (d : Db) : gmap Z (gset FileRef) :=
  map_imap (λ id _, Some (touched_files d id)) (turns_table d).

(** [length(trim(markdown)) > 0], which trims spaces. *)
Definition not_blank_text (s : string) : bool :=
  negb (forallb (λ c, bool_decide (c = " ")) (chars s)).

Definition digest_sources (repo : option string) (d : Db) : gmap Z DigestSource :=
  omap (λ t, if not_blank_text t.2 then Some (mkDigest repo (hash_text t.2) "pending") else None) (turns_table d).

(** *** Deleting *)

(** The rows of the session in the tables both operations empty. *)
Definition clear_tables (id : Uuid) (t : SessionTables) : SessionTables :=
  mkTables ∅ ∅ ∅ ∅ usage_empty (t_parent t) (t_metadata t)
    (set_switches (filter (λ s, sw_session s ≠ uuid_text id) (switches (t_world t))) (t_world t)) (t_terminals t).

(** The timeline keeps its turns and its state. *)
Definition keep_turns (d : Db) : Db :=
  mkDb (state_row d) (turns_table d) ∅ ∅ ∅ ∅ (links_table d).

Definition row_count {K V} `{Countable K} (m : gmap K V) : Z := Z.of_nat (size m).

Record PurgeOutcome : Type := mkPurge {
  pu_repo : option string;
  pu_events_deleted : Z;
  pu_blocks_deleted : Z;
  pu_operations_deleted : Z;
  pu_touches_deleted : Z;
  pu_turns_kept : Z;
  pu_digest_sources : Z;
  pu_usage_rows : Z;
  pu_file_rows : Z;
}.

Definition set_purged_at (p : option Z) (c : ArchiveColumns) : ArchiveColumns :=
  mkColumns (archived_at c) (archive_key c) (archive_sha256 c) (archive_bytes c) (archive_events c) p.

(** The session's row once purged. *)
Definition purged_row (now : Z) (id : Uuid) (repo : option string) (r : SessionRow) : SessionRow :=
  let d := store_turn_digests (sr_timeline r) in
  with_columns (set_purged_at (Some now) (sr_columns r))
    (with_digest (fold_touches_into_digest d) (digest_sources repo d)
       (with_timeline (keep_turns d) (with_tables (clear_tables id (sr_tables r)) r))).

Definition purge_session (now : Z) (id : Uuid) (db : ArchiveDb) : res (ArchiveDb * PurgeOutcome) :=
  if negb (bool_decide (projections_behind db = [])) then bail "derived data is still being repaired"
  else
    r ← lock_and_check id db;
    if negb (session_projection_current r) then bail "session timeline has not caught up with its events"
    else
      let repo := attributed_repo id db in
      rolled ← roll_up (default "" repo) r db;
      let r' := purged_row now id repo rolled.1 in
      Ok (set_session id r' (set_links (filter (λ l, link_session l ≠ id) (ad_links db)) rolled.2),
          mkPurge repo (row_count (t_events (sr_tables r))) (row_count (t_blocks (sr_tables r)))
            (row_count (operations_table (sr_timeline r))) (row_count (touches_table (sr_timeline r)))
            (row_count (turns_table (sr_timeline r))) (row_count (sr_digests r'))
            (row_count (model_daily (t_usage (sr_tables r)))) (row_count (file_contributions (sr_timeline r)))).

(** ** Restore *)

(** [COALESCE(SUM(...), 0)] over the five columns. *)
Definition token_total {K} `{Countable K} (m : gmap K UsageComponents) : Z :=
  map_fold (λ _ c n, sum_components c + n) 0 m.

(** The state after the deletions, its turns cleared for the rebuild. *)
Definition clear_timeline (d : Db) : Db :=
  mkDb ((λ s, mkStateRow (revision s) 0 (row_state s) (reconcile_sources s)) <$> state_row d) ∅ ∅ ∅ ∅
    (usage_table d) (links_table d).

Definition cleared_session (id : Uuid) (r : SessionRow) : SessionRow :=
  with_columns (set_purged_at None (sr_columns r))
    (with_contributions ∅ ∅
       (with_digest ∅ ∅ (with_timeline (clear_timeline (sr_timeline r)) (with_tables (clear_tables id (sr_tables r)) r)))).

Definition withdraw_and_clear (id : Uuid) (r : SessionRow) (db : ArchiveDb) : Z * ArchiveDb :=
  (token_total (sr_usage r),
   set_session id (cleared_session id r)
     (set_rollups (withdraw_contributions (sr_usage r) (ad_rollup db))
        (withdraw_contributions (sr_churn r) (ad_activity db)) db)).

(** [for x in l { s = f(s, x)?; }] where each step is committed: the state
    reached, and whether the loop ended. *)
Fixpoint commit_each {B St} (f : St → B → res St) (l : list B) (s : St) : St * res unit :=
  match l with
  | [] => (s, Ok tt)
  | b :: l => match f s b with Ok s => commit_each f l s | Err e => (s, Err e) end
  end.

Definition source_of (agent : string) : TranscriptSource :=
  if bool_decide (agent = "codex") then Codex else ClaudeCode.

Definition replay_of (line : ArchiveLine) : ReplayLine :=
  mkReplayLine (al_o line) (al_t line) (al_r line) (value_text (al_p line)).

(** The batches of a catch-up that were committed. *)
Fixpoint catch_up_reached (fuel : nat) (s : Session) : Session :=
  match fuel with
  | O => s
  | S fuel =>
      match project_batch parse_uuid fs s BATCH_EVENTS with
      | Ok (s, o) => if more o then catch_up_reached fuel s else s
      | Err _ => s
      end
  end.

Definition rebuild_fuel (s : Session) : nat := S (length (pending (-1) (events s))).

(** [rebuild_session_projection] within the database. *)
Definition rebuild_session (id : Uuid) (db : ArchiveDb) : ArchiveDb * res Z :=
  match ad_sessions db !! id with
  | None => (db, Ok 0)
  | Some r =>
      let s := session_view db id r in
      let reached := catch_up_reached (rebuild_fuel s) (request_rebuild s) in
      (set_session id (with_timeline (Projection.db reached) r) (set_links (links_table (Projection.db reached)) db),
       match rebuild_session_projection parse_uuid fs (rebuild_fuel s) s with
       | Some (Ok (_, n)) => Ok n
       | Some (Err e) => Err e
       | None => panic "out of fuel"
       end)
  end.

(** The environment of a replayed line. *)
Definition replay_env (now : Z) (switch_id : string) (id : Uuid) (agent : string) : LineEnv :=
  mkLine (uuid_text id) (source_of agent) now switch_id None None.

Abbreviation parse_uuid_text := (λ s, uuid_text <$> parse_uuid s).

(** [replay_session_lines] within the database. *)
Definition replay_session (now : Z) (switch_id : string) (id : Uuid) (agent : string) (lines : list ArchiveLine)
    (db : ArchiveDb) : ArchiveDb * res (ReplayStats * Z) :=
  match ad_sessions db !! id with
  | None => (db, bail "session does not exist")
  | Some r =>
      let env := replay_env now switch_id id agent in
      let '(st, ended) :=
        commit_each (replay_line hash_text json_text parse_uuid_text read_json parse_rfc3339 env)
          (replay_of <$> lines) (mkStats 0 0, pass_context json_text env (sr_tables r), sr_tables r) in
      let db := set_session id (with_tables st.2 r) db in
      match ended with
      | Err e => (db, Err e)
      | Ok _ => let '(db, turns) := rebuild_session id db in (db, n ← turns; Ok (st.1.1, n))
      end
  end.

Record RestoreOutcome : Type := mkRestore {
  re_key : string;
  re_lines : Z;
  re_events_inserted : Z;
  re_turns : Z;
  re_tokens_before : Z;
  re_tokens_after : Z;
  re_purged_again : bool;
}.

(** What a restore reads before it changes anything. *)
Definition restorable {S : Type} `{ObjectStore S} (id : Uuid) (db : ArchiveDb) (st : S)
    : res (SessionRow * string * list ArchiveLine) :=
  r ← ok_or (ad_sessions db !! id) "not a purged session";
  if is_none (purged_at (sr_columns r)) then bail "not a purged session"
  else
    key ← ok_or (archive_key (sr_columns r)) "session has no archive key";
    sha ← ok_or (archive_sha256 (sr_columns r)) "session has no archive hash";
    lines ← read_session_lines key sha st;
    if bool_decide (lines = []) then bail (key +:+ " holds no lines") else Ok (r, key, lines).

Definition tokens_of (id : Uuid) (db : ArchiveDb) : Z :=
  match ad_sessions db !! id with
  | Some r => token_total (Usage.md_tokens <$> model_daily (t_usage (sr_tables r)))
  | None => 0
  end.

Definition restore_session {S : Type} `{ObjectStore S} (now : Z) (switch_id : string) (id : Uuid)
    (purge_after : bool) (st : S) (db : ArchiveDb) : ArchiveDb * res RestoreOutcome :=
  match restorable id db st with
  | Err e => (db, Err e)
  | Ok (r, key, lines) =>
      let '(before, db) := withdraw_and_clear id r db in
      let '(db, replayed) := replay_session now switch_id id (sr_agent r) lines db in
      match replayed with
      | Err e => (db, Err e)
      | Ok (stats, turns) =>
          let out := mkRestore key (Z.of_nat (length lines)) (events_inserted stats) turns before (tokens_of id db) in
          if purge_after
          then match purge_session now id db with
               | Ok (db, _) => (db, Ok (out true))
               | Err e => (db, Err e)
               end
          else (db, Ok (out false))
      end
  end.
End archive.
