(* ===== verification/ArchiveInv.v ===== *)
(** * What the archive preserves

    Replaying the lines of a session leaves the rows they came from; the
    rollups are sums that a restore can take back; an object that was exported
    is read back. *)

From Stdlib Require Import String.
From S2P Require Import Prelude Text Json Ingester NodeWire PtySessions CodeMode Lineage Usage ModelSwitch Metadata Activity Canonical Events EventStore LineageInv RepairInv Runtime Render FileTouches Reducer ReducerSpec Store Projection Commit Sessions ArchiveObjects Archive.

(** ** Sums of contributions *)

(** [fig_nonneg] is what the [CHECK]s of the tables promise of their rows. *)
Class FigureLaws (A : Type) `{Figures A} : Type := {
  fig_nonneg : A → Prop;
  fig_add_comm a b : fig_add a b = fig_add b a;
  fig_add_assoc a b c : fig_add a (fig_add b c) = fig_add (fig_add a b) c;
  fig_add_zero a : fig_add fig_zero a = a;
  fig_zero_nonneg : fig_nonneg fig_zero;
  fig_add_nonneg a b : fig_nonneg a → fig_nonneg b → fig_nonneg (fig_add a b);
  fig_sum_zero a b : fig_nonneg a → fig_nonneg b → fig_add a b = fig_zero → b = fig_zero;
  fig_take_add a c : fig_nonneg a → fig_take (fig_add a c) c = a;
  fig_fits_nonneg a : fig_fits a = true → fig_nonneg a;
}.

Lemma count_fits_nonneg z : count_fits z = true → 0 ≤ z.
Proof. unfold count_fits. by intros [H%Z.leb_le _]%andb_true_iff. Qed.

Definition tokens_nonneg (a : UsageComponents) : Prop :=
  0 ≤ Usage.input_tokens a ∧ 0 ≤ cached_input_tokens a ∧ 0 ≤ cache_write_input_tokens a ∧
  0 ≤ cache_write_1h_input_tokens a ∧ 0 ≤ Usage.output_tokens a.

Ltac figures :=
  repeat match goal with a : UsageComponents |- _ => destruct a | a : Churn |- _ => destruct a end;
  unfold tokens_nonneg in *; cbn in *; unfold map2, components_default in *; cbn in *.

#[export] Instance tokens_laws : FigureLaws UsageComponents.
Proof.
  refine {| fig_nonneg := tokens_nonneg |}; intros; figures; repeat split; try (f_equal; lia); try lia.
  - match goal with E : _ = mkComponents _ _ _ _ _ |- _ => injection E; intros; f_equal; lia end.
  - unfold all1, count_fits in *. cbn in *. rewrite !andb_true_iff, !Z.leb_le in *. lia.
  - unfold all1, count_fits in *. cbn in *. rewrite !andb_true_iff, !Z.leb_le in *. lia.
  - unfold all1, count_fits in *. cbn in *. rewrite !andb_true_iff, !Z.leb_le in *. lia.
  - unfold all1, count_fits in *. cbn in *. rewrite !andb_true_iff, !Z.leb_le in *. lia.
  - unfold all1, count_fits in *. cbn in *. rewrite !andb_true_iff, !Z.leb_le in *. lia.
Defined.

#[export] Instance churn_laws : FigureLaws Churn.
Proof.
  refine {| fig_nonneg c := 0 ≤ write_turns c ∧ 0 ≤ read_turns c |}; intros; figures;
    repeat split; try (f_equal; lia); try lia.
  - match goal with E : _ = mkChurn _ _ |- _ => injection E; intros; f_equal; lia end.
  - unfold count_fits in *. rewrite !andb_true_iff, !Z.leb_le in *. lia.
  - unfold count_fits in *. rewrite !andb_true_iff, !Z.leb_le in *. lia.
Defined.

Section sums.
Context {K A : Type} `{Countable K} `{FigureLaws A}.
Implicit Types c m : gmap K A.

Definition figure (m : gmap K A) (k : K) : A := default fig_zero (m !! k).

Definition all_nonneg (m : gmap K A) : Prop := ∀ k a, m !! k = Some a → fig_nonneg a.

Lemma figure_nonneg m k : all_nonneg m → fig_nonneg (figure m k).
Proof.
  intros Hm. unfold figure. destruct (m !! k) eqn:E; cbn; [by eapply Hm|apply fig_zero_nonneg].
Qed.

Lemma fig_zero_add a : fig_add a fig_zero = a.
Proof. by rewrite fig_add_comm, fig_add_zero. Qed.

(** What adding a session's rows leaves. *)
Lemma figure_added c m m' k : add_contributions c m = Ok m' → figure m' k = fig_add (figure m k) (figure c k).
Proof.
  unfold add_contributions. case_bool_decide; [|done]. intros [= <-]. unfold figure.
  rewrite lookup_union_with. destruct (c !! k), (m !! k); cbn; by rewrite ?fig_add_zero, ?fig_zero_add.
Qed.

(** Taking out what is part of a sum leaves the rest. *)
Lemma figure_withdrawn c m k rest : all_nonneg c → fig_nonneg rest →
  figure m k = fig_add rest (figure c k) → figure (withdraw_contributions c m) k = rest.
Proof.
  intros Hc Hr. unfold figure, withdraw_contributions. rewrite map_lookup_imap.
  destruct (m !! k) as [a|]; cbn.
  - destruct (c !! k) as [x|]; cbn; intros ->; [by apply fig_take_add|by rewrite fig_zero_add].
  - intros E. symmetry in E. rewrite fig_add_comm in E. symmetry.
    eapply fig_sum_zero; [|exact Hr|exact E]. by apply figure_nonneg.
Qed.

(** The sum over the sessions. *)
Context {V : Type} (f : V → gmap K A).

Definition total (k : K) (sessions : gmap Uuid V) : A :=
  map_fold (λ _ r acc, fig_add (figure (f r) k) acc) fig_zero sessions.

Lemma total_insert k id r sessions : sessions !! id = None →
  total k (<[id := r]> sessions) = fig_add (figure (f r) k) (total k sessions).
Proof.
  intros Hn. unfold total. rewrite map_fold_insert_L; [done| |done].
  intros j1 j2 z1 z2 y _ _ _. rewrite !fig_add_assoc. f_equal. apply fig_add_comm.
Qed.

Lemma total_split k id r sessions : sessions !! id = Some r →
  total k sessions = fig_add (figure (f r) k) (total k (delete id sessions)).
Proof.
  intros E. rewrite <-(insert_delete_id sessions id r E) at 1. by rewrite total_insert by apply lookup_delete_eq.
Qed.

Lemma total_replace k id r sessions :
  total k (<[id := r]> sessions) = fig_add (figure (f r) k) (total k (delete id sessions)).
Proof. rewrite <-insert_delete_eq. by rewrite total_insert by apply lookup_delete_eq. Qed.

Lemma total_is_nonneg k sessions : (∀ id r, sessions !! id = Some r → all_nonneg (f r)) → fig_nonneg (total k sessions).
Proof.
  induction sessions as [|id r sessions Hn IH] using map_ind; intros Hs.
  - unfold total. rewrite map_fold_empty. apply fig_zero_nonneg.
  - rewrite total_insert by done. apply fig_add_nonneg.
    + apply figure_nonneg. eapply Hs. by rewrite lookup_insert_eq.
    + apply IH. intros id' r' E. eapply (Hs id'). rewrite lookup_insert_ne; [done|]. intros ->. congruence.
Qed.
End sums.

(** ** The daily rows keep their CHECKs *)

Definition usage_fits (u : UsageDb) : Prop :=
  ∀ k row, model_daily u !! k = Some row → fig_fits (Usage.md_tokens row) = true.

Lemma checked_fits t t' : checked_tokens t = Ok t' → t' = t ∧ fig_fits t = true.
Proof.
  unfold checked_tokens. destruct (all1 in_i64b t) eqn:E1; cbn; [|done].
  destruct (all1 (λ z, 0 <=? z) t) eqn:E2; cbn; [|done]. intros [= <-]. split; [done|].
  unfold all1, count_fits in *. rewrite !andb_true_iff in *. tauto.
Qed.

Lemma usage_fits_empty : usage_fits usage_empty.
Proof. intros k row. cbn. by rewrite lookup_empty. Qed.

Lemma usage_fits_same u u' : model_daily u' = model_daily u → usage_fits u → usage_fits u'.
Proof. intros E Hu k row. rewrite E. apply Hu. Qed.

Lemma usage_fits_insert u k row : usage_fits u → fig_fits (Usage.md_tokens row) = true →
  usage_fits (set_model_daily (<[k := row]> (model_daily u)) u).
Proof.
  intros Hu Hr k' row'. cbn. rewrite lookup_insert. case_decide; [by intros [= <-]|apply Hu].
Qed.

Lemma add_model_daily_fits agent model at_ usage id u u' :
  add_model_daily agent model at_ usage id u = Ok u' → usage_fits u → usage_fits u'.
Proof.
  unfold add_model_daily. intros (t & Ht & E)%res_bind_Ok Hu.
  apply checked_fits in Ht as [_ Hf]. destruct (model_daily u !! _) as [row|].
  - apply res_bind_Ok in E as (t' & Ht' & [= <-]). apply checked_fits in Ht' as [-> Hf'].
    by apply usage_fits_insert.
  - injection E as <-. by apply usage_fits_insert.
Qed.

Lemma remove_previous_fits prior previous u u' :
  remove_previous prior previous u = Ok u' → usage_fits u → usage_fits u'.
Proof.
  unfold remove_previous. destruct prior as [r|], previous as [p|]; try by intros [= <-].
  destruct (model_daily u !! _) as [row|]; [|by intros [= <-]].
  intros (t & Ht & [= <-])%res_bind_Ok Hu. apply checked_fits in Ht as [-> Hf]. by apply usage_fits_insert.
Qed.

Lemma snapshot_daily_model at_ u : model_daily (snapshot_daily at_ u) = model_daily u.
Proof. unfold snapshot_daily. by destruct (session_usage u). Qed.

Lemma store_usage_model source o at_ usage rr u u' :
  store_usage source o at_ usage rr u = Ok u' → model_daily u' = model_daily u.
Proof.
  unfold store_usage. intros (e & _ & E)%res_bind_Ok. destruct (session_usage u) as [row|]; [|by injection E as <-].
  destruct (_ <? _); [|by injection E as <-]. destruct (negb _); [done|].
  by apply res_bind_Ok in E as (r & _ & [= <-]).
Qed.

Section usage.
Context (json_text : Value → string).

Lemma drop_moved_fits events at_ usage prior previous u :
  usage_fits u → usage_fits (drop_moved json_text events at_ usage prior previous u).
Proof.
  intros Hu. unfold drop_moved. destruct previous as [p|]; [|done]. destruct (_ || _); [|done].
  intros k row. cbn. unfold keep_receipt_buckets. rewrite map_lookup_filter_Some. intros [Hk _]. by eapply Hu.
Qed.

Lemma update_context_model o at_ usage u u' :
  update_context o at_ usage u = Ok u' → model_daily u' = model_daily u.
Proof.
  unfold update_context. intros (u1 & H1 & [= <-])%res_bind_Ok. rewrite snapshot_daily_model.
  destruct (session_usage u) as [row|]; [|by injection H1 as <-].
  destruct (_ <? _); [|by injection H1 as <-]. by apply res_bind_Ok in H1 as (r & _ & [= <-]).
Qed.

Lemma apply_response_fits events o at_ usage u u' :
  apply_response json_text events o at_ usage u = Ok u' → usage_fits u → usage_fits u'.
Proof.
  unfold apply_response. intros (u1 & H1 & E)%res_bind_Ok Hu.
  assert (usage_fits u1) as Hu1.
  { eapply usage_fits_same, Hu. unfold add_response in H1. destruct (negb _); [done|].
    by apply res_bind_Ok in H1 as (r & _ & [= <-]). }
  apply res_bind_Ok in E as (u2 & H2 & E). apply remove_previous_fits in H2; [|done].
  apply res_bind_Ok in E as (u3 & H3 & E). apply add_model_daily_fits in H3; [|done].
  eapply drop_moved_fits in H3. destruct (moved_day _ _).
  - unfold rebuild_daily_snapshots in E. apply res_bind_Ok in E as (d & _ & [= <-]).
    eapply usage_fits_same, H3. done.
  - injection E as <-. by eapply usage_fits_same, H3; rewrite snapshot_daily_model.
Qed.

Lemma upsert_fits events source o at_ v u u' :
  upsert_from_event json_text events source o at_ v u = Ok u' → usage_fits u → usage_fits u'.
Proof.
  unfold upsert_from_event. destruct (extract_usage source v) as [usage|]; [|by intros [= <-]].
  destruct (match _ with Some _ => _ | None => _ end); [by intros [= <-]|].
  destruct (bool_decide (source = ClaudeCode)); [apply apply_response_fits|].
  destruct (_ && match _ with Some _ => _ | None => _ end).
  - intros E%update_context_model Hu. by eapply usage_fits_same, Hu.
  - intros ([claimed u1] & H1 & E)%res_bind_Ok Hu.
    assert (usage_fits u1) as Hu1.
    { destruct (_ && _) in H1; [|by injection H1 as <- <-].
      destruct (message_id usage); [|done]. injection H1 as _ <-. by eapply usage_fits_same, Hu. }
    destruct claimed; cbn [negb] in E; [|by injection E as <-].
    apply res_bind_Ok in E as (u2 & H2 & E). apply store_usage_model in H2.
    apply res_bind_Ok in E as (u3 & H3 & [= <-]).
    eapply usage_fits_same; [apply snapshot_daily_model|].
    eapply add_model_daily_fits; [done|]. by eapply usage_fits_same, Hu1.
Qed.
End usage.

(** ** Replaying a session *)

(** The rows a replay must give back. *)
Record same_core (a b : SessionTables) : Prop := {
  sc_events : t_events a = t_events b;
  sc_blocks : t_blocks a = t_blocks b;
  sc_sources : t_sources a = t_sources b;
  sc_embeddings : t_embeddings a = t_embeddings b;
  sc_usage : t_usage a = t_usage b;
}.

#[export] Instance same_core_equiv : Equivalence same_core.
Proof.
  split.
  - by intros a.
  - intros a b [? ? ? ? ?]. by split.
  - intros a b c [? ? ? ? ?] [? ? ? ? ?]. split; congruence.
Qed.

Section replay.
Context (hash_text : string → string) (json_text : Value → string) (parse_uuid : string → option string).
Context (parse_rfc3339 : string → option Z) `{T : TreeSitter} `{J : SerdeText} `{A : Archiver}.

Local Abbreviation insert_value := (insert_value hash_text json_text parse_uuid parse_rfc3339).
Local Abbreviation replay_line := (replay_line hash_text json_text parse_uuid read_json parse_rfc3339).

Lemma insert_block_core o sp a b blk : same_core a b →
  same_core (insert_block hash_text o sp a blk) (insert_block hash_text o sp b blk).
Proof.
  intros [He Hb Hs Hm Hu]. unfold insert_block, enqueue_event_embedding_source, mark_embedding_source_deleted.
  repeat case_match; split; cbn; congruence.
Qed.

Lemma insert_block_parent o sp a blk : t_parent (insert_block hash_text o sp a blk) = t_parent a.
Proof.
  unfold insert_block, enqueue_event_embedding_source, mark_embedding_source_deleted. by repeat case_match.
Qed.

Lemma usage_insert_blocks o sp blks t : t_usage (insert_blocks hash_text o sp blks t) = t_usage t.
Proof.
  unfold insert_blocks. revert t. induction blks as [|b blks IH]; intros t; [done|]. cbn [foldl]. rewrite IH.
  unfold insert_block, enqueue_event_embedding_source. by repeat case_match.
Qed.

Lemma insert_blocks_core o sp blks a b : same_core a b →
  same_core (insert_blocks hash_text o sp blks a) (insert_blocks hash_text o sp blks b).
Proof.
  unfold insert_blocks. revert a b. induction blks as [|blk blks IH]; intros a b Hab; [done|].
  cbn. by apply IH, insert_block_core.
Qed.

Lemma derivatives_core env env' o at_ v e a b a' : le_source env = le_source env' → same_core a b →
  insert_event_derivatives hash_text json_text env o at_ v e a = Ok a' →
  ∃ b', insert_event_derivatives hash_text json_text env' o at_ v e b = Ok b' ∧ same_core a' b' ∧
    t_parent b' = t_parent b.
Proof.
  intros Henv Hab. unfold insert_event_derivatives. destruct (bool_decide _); [intros [= <-]; by eexists|].
  set (a1 := match ce_blocks e with [] => a | blocks => _ end).
  set (b1 := match ce_blocks e with [] => b | blocks => _ end).
  assert (H1 : same_core a1 b1 ∧ t_parent b1 = t_parent b).
  { unfold a1, b1. destruct (ce_blocks e) as [|blk blks]; [done|].
    split; [by apply insert_blocks_core|apply parent_insert_blocks]. }
  clearbody a1 b1. destruct H1 as ([He Hb Hs Hm Hu] & Hp).
  intros (u & Hup & [= <-])%res_bind_Ok. rewrite <-Henv, <-He, <-Hu, Hup. cbn.
  eexists. split; [done|]. by split.
Qed.

(** What a replayed line is told of its row is what the row holds. *)
Lemma replayed_claim tool parsed :
  claim_related (ce_related_tool_use_id (claim_related tool parsed)) parsed = claim_related tool parsed.
Proof. by destruct parsed as [? ? ? ? ? [r|] ? ? ? ?], tool. Qed.

Lemma replayed_time (v : Value) now now' fallback :
  default now' (or_else (parse_event_timestamp parse_rfc3339 v)
    (Some (default now (or_else (parse_event_timestamp parse_rfc3339 v) fallback)))) =
  default now (or_else (parse_event_timestamp parse_rfc3339 v) fallback).
Proof. by destruct (parse_event_timestamp parse_rfc3339 v). Qed.

(** The parent a line leaves. *)
Definition parent_after (session : string) (source : TranscriptSource) (v : Value) (p : option string) : option string :=
  match p with Some p => Some p | None => Lineage.parent_session parse_uuid source v session end.

Lemma linked_parent env v t :
  t_parent (link_parent_session parse_uuid env v t) = parent_after (le_session env) (le_source env) v (t_parent t) ∧
  same_core (link_parent_session parse_uuid env v t) t.
Proof.
  unfold link_parent_session, set_parent_session, parent_after.
  destruct (Lineage.parent_session _ _ _ _); destruct (t_parent t) eqn:E; by rewrite ?E.
Qed.

(** The row of a line at a new offset, and what follows its insert. *)
Definition line_time (env : LineEnv) (v : Value) : Z :=
  default (le_now env) (or_else (parse_event_timestamp parse_rfc3339 v) (le_fallback_timestamp env)).

Definition line_row (env : LineEnv) (v : Value) (parsed : CanonicalEvent) : EventRow :=
  event_row (line_time env v) (stored_event_kind (le_source env) v) v parsed.

Definition settled (env : LineEnv) (o : Z) (v : Value) (parsed : CanonicalEvent) (t : SessionTables) : SessionTables :=
  link_parent_session parse_uuid env v
    (if negb (bool_decide (ce_subtype parsed = Some "inherited_history"))
     then project_after_insert env v o (line_time env v) t else t).

Lemma settled_core env o v parsed t : same_core (settled env o v parsed t) t ∧
  t_parent (settled env o v parsed t) = parent_after (le_session env) (le_source env) v (t_parent t).
Proof.
  unfold settled. destruct (linked_parent env v
    (if negb (bool_decide (ce_subtype parsed = Some "inherited_history"))
     then project_after_insert env v o (line_time env v) t else t)) as [-> ->]. by case_match.
Qed.

Lemma insert_value_fresh env o v ctx t parsed : t_events t !! o = None →
  parse_canonical_event (agent_id (le_source env)) v (le_session env) o ctx = Ok parsed →
  let parsed := claim_related (le_subagent_tool_use_id env) parsed in
  insert_value env o v ctx t =
  t1 ← insert_event_derivatives hash_text json_text env o (line_time env v) v parsed
         (with_events <[o := line_row env v parsed]> t);
  Ok (true, (λ c, update_codex_context c v (le_session env)) <$> ctx, settled env o v parsed t1).
Proof.
  intros Hf Hp. unfold EventStore.insert_value. by rewrite Hp, Hf.
Qed.

Context `{L : !ArchiverLaws A}.

Lemma replay_one env env0 o v ctx a b ctx' a' stats :
  le_source env0 = le_source env → le_session env0 = le_session env →
  below o (t_events a) → same_core a b → plain v = true → (depth v ≤ MAX_DEPTH)%nat →
  insert_value env o v ctx a = Ok (true, ctx', a') →
  ∃ row b', t_events a' = <[o := row]> (t_events a) ∧ er_payload row = v ∧
    replay_line env0 (stats, ctx, b) (replay_of (archive_line (o, row))) =
      Ok (mkStats (EventStore.events_inserted stats + 1) (EventStore.parse_errors stats), ctx', b') ∧
    same_core a' b' ∧
    t_parent b' = parent_after (le_session env) (le_source env) v (t_parent b).
Proof.
  intros Hsrc Hses Hb Hab Hpl Hd Hins. pose proof (below_fresh _ _ Hb) as Hfresh.
  pose proof Hins as (parsed & Hp & _)%res_bind_Ok. rewrite (insert_value_fresh _ _ _ _ _ _ Hfresh Hp) in Hins.
  set (parsed' := claim_related (le_subagent_tool_use_id env) parsed) in *.
  set (row := line_row env v parsed') in *.
  apply res_bind_Ok in Hins as (a1 & Ha1 & [= <- <-]).
  pose proof (events_derivatives _ _ _ _ _ _ _ _ _ Ha1) as Hev. cbn [t_events with_events] in Hev.
  set (env1 := mkLine (le_session env0) (le_source env0) (le_now env0) (le_switch_id env0)
                 (er_related_tool_use_id row) (Some (er_timestamp row))).
  assert (Hab1 : same_core (with_events <[o := row]> a) (with_events <[o := row]> b)).
  { destruct Hab as [He ? ? ? ?]. split; cbn; congruence. }
  destruct (derivatives_core env env1 _ _ _ _ _ _ _ (eq_sym Hsrc) Hab1 Ha1) as (b1 & Hb1 & Hab2 & Hpb).
  assert (Ht : line_time env1 v = line_time env v) by apply replayed_time.
  assert (Hc : claim_related (le_subagent_tool_use_id env1) parsed = parsed') by apply replayed_claim.
  assert (Hr : line_row env1 v parsed' = row).
  { unfold line_row, row. rewrite Ht. cbn [env1 le_source]. by rewrite Hsrc. }
  destruct (settled_core env o v parsed' a1) as [Hsa _].
  destruct (settled_core env1 o v parsed' b1) as [Hsb Hpsb].
  exists row, (settled env1 o v parsed' b1). split_and!.
  - by rewrite (sc_events _ _ Hsa).
  - done.
  - unfold EventStore.replay_line. cbn [fst snd].
    change (replay_of _) with (mkReplayLine o (er_timestamp row) (er_related_tool_use_id row) (value_text v)).
    cbn [rl_related_tool_use_id rl_timestamp rl_byte_offset rl_payload]. fold env1.
    unfold insert_line. rewrite value_visible, read_value by done.
    rewrite (insert_value_fresh env1 o v ctx b parsed).
    + rewrite Hc, Hr, Ht, Hb1. cbn [mbind res_bind]. cbn [env1 le_session]. by rewrite Hses.
    + by rewrite <-(sc_events _ _ Hab).
    + cbn [env1 le_source le_session]. by rewrite Hsrc, Hses.
  - rewrite Hsa, Hsb. done.
  - rewrite Hpsb, Hpb. cbn [env1 le_source le_session]. by rewrite Hsrc, Hses.
Qed.

(** *** Sessions *)

(** What lines inserted in byte order left of a session, whatever else wrote
    its other rows; the context is that of the next line. *)
Inductive recorded (session : string) (source : TranscriptSource)
    : option CodexSessionContext → SessionTables → Prop :=
  | recorded_empty t now switch_id :
      same_core t (mkTables ∅ ∅ ∅ ∅ usage_empty None None (t_world t) (t_terminals t)) →
      recorded session source (pass_context json_text (mkLine session source now switch_id None None) t) t
  | recorded_line env o v ctx t ctx' t' :
      recorded session source ctx t → le_session env = session → le_source env = source →
      below o (t_events t) → insert_value env o v ctx t = Ok (true, ctx', t') →
      recorded session source ctx' t'
  | recorded_other ctx t t' :
      recorded session source ctx t → same_core t' t → (t_parent t' = None → t_parent t = None) →
      recorded session source ctx t'.
Lemma commit_each_app {B St} (f : St → B → res St) l1 l2 s s1 :
  commit_each f l1 s = (s1, Ok tt) → commit_each f (l1 ++ l2) s = commit_each f l2 s1.
Proof.
  revert s. induction l1 as [|b l1 IH]; intros s; cbn; [by intros [= <-]|].
  destruct (f s b) as [s'|e]; [apply IH|done].
Qed.

Lemma event_rows_insert t t' o row : below o (t_events t) → t_events t' = <[o := row]> (t_events t) →
  event_rows t' = event_rows t ++ [(o, row)].
Proof. intros Hb E. unfold event_rows. rewrite E. by apply row_list_insert. Qed.

Lemma event_rows_core t t' : same_core t t' → event_rows t = event_rows t'.
Proof. intros [E _ _ _ _]. unfold event_rows. by rewrite E. Qed.

(** The parent after all the rows of a session. *)
Definition parent_of_rows (session : string) (source : TranscriptSource) (rows : list (Z * EventRow))
    (p : option string) : option string :=
  foldl (λ p row, parent_after session source (er_payload row.2) p) p rows.

Definition payload_read (row : Z * EventRow) : Prop :=
  plain (er_payload row.2) = true ∧ (depth (er_payload row.2) ≤ MAX_DEPTH)%nat.

Lemma replay_recorded session source ctx t env0 t0 :
  recorded session source ctx t → Forall payload_read (event_rows t) →
  le_session env0 = session → le_source env0 = source →
  same_core t0 (mkTables ∅ ∅ ∅ ∅ usage_empty None None (t_world t0) (t_terminals t0)) →
  ∃ t', commit_each (replay_line env0) (replay_of <$> (archive_line <$> event_rows t))
          (mkStats 0 0, pass_context json_text env0 t0, t0) =
        ((mkStats (Z.of_nat (length (event_rows t))) 0, ctx, t'), Ok tt) ∧
    same_core t' t ∧ t_parent t' = parent_of_rows session source (event_rows t) (t_parent t0).
Proof.
  intros Hrec Hread Hses Hsrc H0. revert Hread.
  induction Hrec as [t now sw Ht|env o v ctx t ctx' t' Hrec IH He Hs Hb Hins|ctx t t' Hrec IH Hc Hp]; intros Hread.
  - exists t0. assert (Hev : t_events t = ∅) by apply Ht. assert (Hev0 : t_events t0 = ∅) by apply H0.
    assert (event_rows t = []) as -> by (unfold event_rows; by rewrite Hev).
    split; [|split; [|done]].
    + cbn. unfold pass_context. cbn [le_source le_session]. by rewrite Hses, Hsrc, Hev, Hev0.
    + destruct H0, Ht. split; cbn in *; congruence.
  - assert (∃ row, t_events t' = <[o := row]> (t_events t) ∧ er_payload row = v) as (row & Hev & Hpay).
    { edestruct insert_value_row as (parsed & row & _ & Hev & _ & Hv & _); [by apply below_fresh|exact Hins|].
      by exists row. }
    rewrite (event_rows_insert _ _ _ _ Hb Hev) in *. apply Forall_app in Hread as [Hread Hlast].
    apply Forall_cons in Hlast as [[Hpl Hd] _]. cbn [snd] in Hpl, Hd. rewrite Hpay in Hpl, Hd.
    destruct (IH Hread) as (t1 & Hrun & Hc & Hp).
    destruct (replay_one env env0 o v ctx t t1 ctx' t' (mkStats (Z.of_nat (length (event_rows t))) 0))
      as (row' & t2 & Hev' & _ & Hline & Hc2 & Hp2); try done; [congruence|congruence|].
    assert (row' = row) as ->.
    { rewrite Hev in Hev'. apply (f_equal (λ m, m !! o)) in Hev'. rewrite !lookup_insert_eq in Hev'. congruence. }
    exists t2. rewrite !fmap_app, (commit_each_app _ _ _ _ _ Hrun).
    change (replay_of <$> (archive_line <$> [(o, row)])) with [replay_of (archive_line (o, row))].
    cbn [commit_each]. rewrite Hline. split; [|split].
    + do 4 f_equal. rewrite length_app. cbn. lia.
    + by symmetry.
    + unfold parent_of_rows in *. rewrite foldl_app. cbn. rewrite Hp2, <-Hp, Hpay. congruence.
  - rewrite (event_rows_core _ _ Hc) in *. destruct (IH Hread) as (t1 & Hrun & Hc1 & Hp1).
    exists t1. split; [done|]. split; [by rewrite Hc1, Hc|done].
Qed.

(** A replay does not change the parent the session had. *)
Lemma recorded_parent session source ctx t : recorded session source ctx t →
  parent_of_rows session source (event_rows t) (t_parent t) = t_parent t.
Proof.
  intros Hrec. assert (Hsome : ∀ rows p, parent_of_rows session source rows (Some p) = Some p).
  { induction rows as [|row rows IH]; intros p; [done|apply IH]. }
  induction Hrec as [t now sw Ht|env o v ctx t ctx' t' Hrec IH He Hs Hb Hins|ctx t t' Hrec IH Hc Hp].
  - assert (event_rows t = []) as -> by (unfold event_rows; by rewrite (sc_events _ _ Ht)). done.
  - pose proof Hins as (parsed & Hparse & _)%res_bind_Ok.
    rewrite (insert_value_fresh _ _ _ _ _ _ (below_fresh _ _ Hb) Hparse) in Hins.
    apply res_bind_Ok in Hins as (t1 & H1 & [= _ <-]).
    edestruct settled_core as [Hc1 Hp1]. rewrite Hp1. clear Hp1.
    edestruct (derivatives_core env env) as (x & Hx & _ & Hpx); [done|reflexivity|exact H1|].
    rewrite H1 in Hx. injection Hx as <-. cbn [t_parent with_events] in Hpx. rewrite Hpx. clear Hpx.
    pose proof (events_derivatives _ _ _ _ _ _ _ _ _ H1) as Hev. cbn [t_events with_events] in Hev.
    rewrite <-(sc_events _ _ Hc1) in Hev. rewrite (event_rows_insert _ _ _ _ Hb Hev). rewrite He, Hs.
    destruct (t_parent t) as [p|]; cbn [parent_after]; [apply Hsome|].
    unfold parent_of_rows in *. rewrite foldl_app. cbn [foldl snd].
    destruct (Lineage.parent_session parse_uuid source v session) as [p|] eqn:E.
    + specialize (Hsome (event_rows t) p). unfold parent_of_rows in Hsome. by rewrite Hsome.
    + rewrite IH. cbn [parent_after line_row event_row er_payload]. exact E.
  - rewrite (event_rows_core _ _ Hc). destruct (t_parent t') as [p|]; [apply Hsome|].
    by rewrite (Hp eq_refl) in IH.
Qed.
End replay.

(** ** Rebuilding the timeline *)

Section rebuild.
Context (json_text : Value → string) (parse_uuid : string → option Uuid) (rules : list CategoryRule).
Context (project : Value → option string → option OperationCategory →
                   Value * option string * option OperationCategory).
Context (fs : Fs) `{HeapOrder OpDbRow}.

Local Abbreviation session_view := (session_view json_text parse_uuid rules project).
Local Abbreviation stored_events := (stored_events json_text rules project).
Local Abbreviation rebuild_session := (rebuild_session json_text parse_uuid rules project fs).

Lemma stored_events_ok t : events_ok (stored_events t).
Proof.
  intros o e. unfold Archive.stored_events. rewrite map_lookup_imap.
  destruct (t_events t !! o) as [row|]; [|done]. by intros [= <-].
Qed.

Lemma stored_events_core t t' : same_core t t' → stored_events t = stored_events t'.
Proof.
  intros [He Hb _ _ _]. unfold Archive.stored_events. rewrite He. apply map_eq. intros o.
  rewrite !map_lookup_imap. destruct (t_events t' !! o); [|done]. cbn. unfold stored_event. by rewrite Hb.
Qed.

(** The committed batches are those of a catch-up that ends. *)
Lemma catch_up_reached_eq fuel s n s' m :
  catch_up parse_uuid fs fuel s n = Some (Ok (s', m)) → catch_up_reached parse_uuid fs fuel s = s'.
Proof.
  revert s n. induction fuel as [|fuel IH]; intros s n; cbn; [done|].
  destruct (project_batch parse_uuid fs s BATCH_EVENTS) as [[s1 o]|e]; [|done].
  destruct (more o); [apply IH|by intros [= -> _]].
Qed.

(** The timeline without the links, which all sessions share. *)
Definition own_timeline (tl : Timeline) : Timeline :=
  mkTimeline (tl_state tl) (tl_turns tl) (tl_items tl) (tl_ops tl) (tl_usage tl) ∅.

Lemma run_links s L evs :
  run parse_uuid s (blank L) evs = add_links L (run parse_uuid s (blank ∅) evs).
Proof. unfold run. by rewrite blank_add_links, steps_add_links. Qed.

Lemma run_context s s' tl evs : session_id s = session_id s' → claude_subagent_parent s = claude_subagent_parent s' →
  run parse_uuid s tl evs = run parse_uuid s' tl evs.
Proof. unfold run. by intros -> ->. Qed.

(** A rebuild leaves what the stored events alone give. *)
Lemma rebuild_from_events id db r :
  ad_sessions db !! id = Some r → purged_at (sr_columns r) = None →
  in_cap (session_view db id r) →
  let s := session_view db id r in
  ∃ d n, rebuild_session id db =
           (set_session id (with_timeline d r) (set_links (links_table d) db), Ok n) ∧
    rows d = run parse_uuid s (blank (ad_links db)) (pending (-1) (Projection.events s)) ∧
    touches_ok (eq (fs, load_file_touch_context s)) d.
Proof.
  intros Hr Hp Hcap s. unfold Archive.rebuild_session. rewrite Hr. fold s.
  assert (HS : sound parse_uuid (eq (fs, load_file_touch_context s)) (request_rebuild s) ∅).
  { apply cleared_sound; [cbn; by rewrite Hp|apply stored_events_ok|apply requested_version]. }
  destruct (cleared_rows (request_rebuild s)) as [Hrows Hcur]; [apply requested_version|].
  destruct (catch_up_sound parse_uuid (eq (fs, load_file_touch_context s)) fs (rebuild_fuel s) (request_rebuild s) ∅)
    as (d & E & Hd & _ & HT); [done|done|done| |].
  { rewrite Hcur. unfold rebuild_fuel, BATCH_EVENTS. cbn [request_rebuild with_db Projection.events]. lia. }
  exists d, (turn_count (stored_state d)).
  rewrite (catch_up_reached_eq _ _ _ _ _ E). split; [|split].
  - cbn [with_db Projection.db]. f_equal. unfold rebuild_session_projection.
    assert (purged s = false) as -> by (cbn; by rewrite Hp). by rewrite E.
  - rewrite Hd, Hrows, Hcur. done.
  - exact HT.
Qed.

(** A session that has caught up holds what replaying all its events gives, but
    those that came behind its cursor and wait for a rebuild. *)
Lemma caught_up_rows seen s late row : sound parse_uuid seen s late →
  state_row (db s) = Some row → projection_version row = REDUCER_VERSION → pending (cursor s) (Projection.events s) = [] →
  own_timeline (rows (db s)) = own_timeline (run parse_uuid s (blank ∅) (timely late (pending (-1) (Projection.events s)))).
Proof.
  intros HS Hrow Hver Hpend.
  assert (Hl : locked s = db s) by (unfold locked; by rewrite (locked_row_current _ _ Hrow Hver)).
  destruct (s_rows _ _ _ _ HS) as [L HL]. rewrite Hl in HL.
  rewrite <-(app_nil_r (timely _ _)), <-Hpend, (late_upto _ _ _ _ HS) in HL.
  rewrite HL, run_links. done.
Qed.
End rebuild.

(** ** Histories of the archive *)

Section keys.
Context `{U : UuidText} `{A : Archiver}.

Definition slash : Ascii.ascii := Ascii.ascii_of_nat 47.

(** A UUID's text has no slash, and is of one UUID. *)
Class UuidTextLaws : Prop := {
  uuid_text_inj id id' : uuid_text id = uuid_text id' → id = id';
  uuid_text_plain id : slash ∉ String.list_ascii_of_string (uuid_text id);
}.

Lemma in_append c (a b : string) :
  c ∈ String.list_ascii_of_string (a +:+ b) ↔ c ∈ String.list_ascii_of_string a ∨ c ∈ String.list_ascii_of_string b.
Proof.
  induction a as [|d a IH].
  - rewrite append_nil_l. cbn. set_solver.
  - rewrite append_cons. cbn. rewrite !elem_of_cons, IH. tauto.
Qed.

Lemma after_slash (a b u v : string) : slash ∉ String.list_ascii_of_string u → slash ∉ String.list_ascii_of_string v →
  a +:+ "/" +:+ u = b +:+ "/" +:+ v → u = v.
Proof.
  intros Hu Hv.
  assert (Hmid : ∀ w x y, slash ∉ String.list_ascii_of_string w → w ≠ x +:+ "/" +:+ y).
  { intros w x y Hw ->. apply Hw. rewrite !in_append. right. left. by left. }
  revert b. induction a as [|c a IH]; intros [|d b] E; rewrite ?append_nil_l, ?append_cons in E.
  - by injection E.
  - injection E as _ E. by apply Hmid in E.
  - injection E as _ E. symmetry in E. by apply Hmid in E.
  - injection E as _ E. by eapply IH.
Qed.

Lemma append_inj_r (a b c : string) : a +:+ c = b +:+ c → a = b.
Proof.
  intros E. assert (Hl : String.length a = String.length b).
  { apply (f_equal String.length) in E. rewrite !length_append in E. lia. }
  revert b E Hl. induction a as [|x a IH]; intros [|y b] E Hl; try done.
  rewrite !append_cons in E. injection E as -> E. f_equal. apply IH; [done|]. cbn in Hl. lia.
Qed.

Context {UL : UuidTextLaws}.

(** Sessions never share an object. *)
Lemma object_key_session agent agent' at_ at' id id' :
  object_key agent at_ id = object_key agent' at' id' → id = id'.
Proof.
  assert (Hk : ∀ agent at_ id, object_key agent at_ id =
    ("sessions/" +:+ agent +:+ "/" +:+ month_text at_) +:+ "/" +:+ (uuid_text id +:+ ".jsonl.zst")).
  { intros. unfold object_key. by rewrite !append_assoc. }
  assert (Hp : ∀ id, slash ∉ String.list_ascii_of_string (uuid_text id +:+ ".jsonl.zst")).
  { intros i. rewrite in_append. intros [H|H]; [by eapply uuid_text_plain|]. revert H. cbn. set_solver. }
  rewrite !Hk. intros E%after_slash; [|apply Hp..].
  apply append_inj_r in E. by apply uuid_text_inj.
Qed.

Lemma object_key_is_session agent at_ id : is_session_key (object_key agent at_ id).
Proof.
  apply ends_with_spec. exists ("sessions/" +:+ agent +:+ "/" +:+ month_text at_ +:+ "/" +:+ uuid_text id).
  unfold object_key. by rewrite !append_assoc.
Qed.

Lemma object_key_is_key agent at_ id : is_object_key (object_key agent at_ id).
Proof. left. apply object_key_is_session. Qed.
End keys.

(** *** Contents *)

(** The restores that have begun and are not finished, each with the lines of
    the object it read. A history keeps them beside the database: the code
    keeps them in the task that restores. *)
Abbreviation Due := (gmap Uuid (list ArchiveLine)).

Abbreviation ReplayState := (ReplayStats * option CodexSessionContext * SessionTables)%type.

Section contents.
Context `{U : UuidText} `{A : Archiver} {S : Type} `{OS : ObjectStore S}.

Definition payload_map (lines : list ArchiveLine) : gmap Z Value :=
  list_to_map ((λ l, (al_o l, al_p l)) <$> lines).

Definition payloads (t : SessionTables) : gmap Z Value := er_payload <$> t_events t.

(** What can be read of a session: its events, those of its object once it is
    purged, and both while it is being restored. *)
Definition contents (id : Uuid) (x : ArchiveDb * S * Due) : gmap Z Value :=
  match ad_sessions x.1.1 !! id with
  | None => ∅
  | Some r =>
      match x.2 !! id with
      | Some lines => payload_map lines ∪ payloads (sr_tables r)
      | None =>
          match purged_at (sr_columns r), archive_key (sr_columns r), archive_sha256 (sr_columns r) with
          | None, _, _ => payloads (sr_tables r)
          | Some _, Some key, Some sha =>
              match read_session_lines key sha x.1.2 with Ok lines => payload_map lines | Err _ => ∅ end
          | Some _, _, _ => ∅
          end
      end
  end.

(** The object of a session, as its row describes it. *)
Record stored_object (st : S) (c : ArchiveColumns) (lines : list ArchiveLine) : Prop := {
  so_key : ∃ key, archive_key c = Some key ∧ get_to_file key st = Ok (compress (object_text lines));
  so_sha : archive_sha256 c = Some (hex (sha256 (object_text lines)));
  so_events : archive_events c = Some (Z.of_nat (length lines));
  so_readable : Forall readable lines;
  so_offsets : NoDup (al_o <$> lines);
}.

(** What every row keeps, whatever happened to the objects: the daily rows keep
    their checks, and a session that was not purged contributes nothing. *)
Record row_ok (r : SessionRow) : Prop := {
  ok_usage : usage_fits (t_usage (sr_tables r));
  ok_nonneg : all_nonneg (sr_usage r) ∧ all_nonneg (sr_churn r);
  ok_live : purged_at (sr_columns r) = None → sr_usage r = ∅ ∧ sr_churn r = ∅;
}.

Record archive_ok (s : ArchiveDb * S) : Prop := {
  ok_rows id r : ad_sessions s.1 !! id = Some r → row_ok r;
  ok_rollup k : figure (ad_rollup s.1) k = total sr_usage k (ad_sessions s.1);
  ok_activity k : figure (ad_activity s.1) k = total sr_churn k (ad_sessions s.1);
}.

(** The rows of a session agree with the lines of an object where both have an
    event. *)
Definition agrees (lines : list ArchiveLine) (t : SessionTables) : Prop :=
  ∀ o v v', payload_map lines !! o = Some v → payloads t !! o = Some v' → v = v'.

(** A session none of whose events was lost. *)
Record kept_row (st : S) (id : Uuid) (due : option (list ArchiveLine)) (r : SessionRow) : Prop := {
  k_lines : Forall readable (session_lines r);
  k_key key : archive_key (sr_columns r) = Some key → ∃ agent at_, key = object_key agent at_ id;
  (** An export that is as long as the events holds them. *)
  k_live : purged_at (sr_columns r) = None → due = None →
    ∀ n, is_Some (archived_at (sr_columns r)) → archive_events (sr_columns r) = Some n →
      n ≤ event_count r ∧
      (n = event_count r →
         ∃ lines, stored_object st (sr_columns r) lines ∧ payload_map lines = payloads (sr_tables r));
  (** A session that is being restored still has its object. *)
  k_due lines : due = Some lines →
    purged_at (sr_columns r) = None ∧ stored_object st (sr_columns r) lines ∧ agrees lines (sr_tables r);
  k_purged : is_Some (purged_at (sr_columns r)) →
    due = None ∧ t_events (sr_tables r) = ∅ ∧ ∃ lines, stored_object st (sr_columns r) lines;
}.

Definition kept (id : Uuid) (x : ArchiveDb * S * Due) : Prop :=
  match ad_sessions x.1.1 !! id with
  | None => x.2 !! id = None
  | Some r => kept_row x.1.2 id (x.2 !! id) r
  end.

Lemma elem_of_event_rows t o row : (o, row) ∈ event_rows t ↔ t_events t !! o = Some row.
Proof.
  unfold event_rows. split; [apply elem_of_row_list|]. intros E. apply list_elem_of_omap.
  exists o. rewrite elem_of_sorted_ids, elem_of_dom, E. by split.
Qed.

Lemma event_rows_offsets t : (event_rows t).*1 = sorted_ids (dom (t_events t)).
Proof.
  unfold event_rows. assert (Hin : ∀ o, o ∈ sorted_ids (dom (t_events t)) → is_Some (t_events t !! o)).
  { intros o. by rewrite elem_of_sorted_ids, elem_of_dom. }
  revert Hin. generalize (sorted_ids (dom (t_events t))). induction l as [|o l IH]; intros Hin; [done|].
  cbn. destruct (Hin o) as [row ->]; [by left|]. cbn. f_equal. apply IH. intros o' Ho. apply Hin. by right.
Qed.

Lemma event_rows_NoDup t : NoDup (event_rows t).*1.
Proof. rewrite event_rows_offsets. apply sorted_ids_NoDup. Qed.

Lemma length_event_rows t : length (event_rows t) = size (t_events t).
Proof.
  rewrite <-(length_fmap fst), event_rows_offsets, <-size_dom. unfold sorted_ids.
  by rewrite merge_sort_Permutation.
Qed.

Lemma session_lines_offsets r : al_o <$> session_lines r = (event_rows (sr_tables r)).*1.
Proof. unfold session_lines. rewrite <-list_fmap_compose. done. Qed.

Lemma session_lines_payloads r : payload_map (session_lines r) = payloads (sr_tables r).
Proof.
  unfold payload_map, session_lines. rewrite <-list_fmap_compose.
  apply map_eq. intros o. apply option_eq. intros v. rewrite <-elem_of_list_to_map.
  - rewrite list_elem_of_fmap. unfold payloads. rewrite lookup_fmap, fmap_Some. split.
    + intros ([o' row] & [= -> ->] & Hin%elem_of_event_rows). by exists row.
    + intros (row & E & ->). exists (o, row). by rewrite elem_of_event_rows.
  - rewrite <-list_fmap_compose. apply (event_rows_NoDup (sr_tables r)).
Qed.

Context `{AL : !ArchiverLaws A}.

Lemma stored_object_read st c lines key sha : stored_object st c lines →
  archive_key c = Some key → archive_sha256 c = Some sha → read_session_lines key sha st = Ok lines.
Proof.
  intros [(key' & Hk & Hg) Hs _ Hr _]. rewrite Hk, Hs. intros [= <-] [= <-]. by apply read_session_lines_back.
Qed.

Lemma contents_purged id db st due r lines : ad_sessions db !! id = Some r → due !! id = None →
  is_Some (purged_at (sr_columns r)) → stored_object st (sr_columns r) lines →
  contents id (db, st, due) = payload_map lines.
Proof.
  intros Hr Hd [p Hp] Ho. unfold contents. cbn [fst snd]. rewrite Hr, Hd, Hp.
  pose proof Ho as [(key & Hk & _) Hs _ _ _].
  rewrite Hk, Hs. by rewrite (stored_object_read _ _ _ _ _ Ho Hk Hs).
Qed.

Lemma contents_live id db st due r : ad_sessions db !! id = Some r → due !! id = None →
  purged_at (sr_columns r) = None → contents id (db, st, due) = payloads (sr_tables r).
Proof. intros Hr Hd Hp. unfold contents. cbn [fst snd]. by rewrite Hr, Hd, Hp. Qed.

Lemma contents_due id db st due r lines : ad_sessions db !! id = Some r → due !! id = Some lines →
  contents id (db, st, due) = payload_map lines ∪ payloads (sr_tables r).
Proof. intros Hr Hd. unfold contents. cbn [fst snd]. by rewrite Hr, Hd. Qed.
End contents.

(** *** Steps *)

Section steps.
Context (hash_text : string → string) (json_text : Value → string).
Context (parse_uuid : string → option Uuid) (parse_rfc3339 : string → option Z).
Context (rules : list CategoryRule).
Context (project : Value → option string → option OperationCategory →
                   Value * option string * option OperationCategory).
Context `{T : TreeSitter} `{J : SerdeText} `{U : UuidText} `{A : Archiver}.
Context `{HeapOrder OpDbRow} `{HeapOrder PtyRow} `{HeapOrder (string * string)}.
Context {S : Type} `{OS : ObjectStore S}.
Implicit Types st : S.
Implicit Types due : Due.

Local Abbreviation parse_uuid_text := (λ s, uuid_text <$> parse_uuid s).
Local Abbreviation insert_value := (insert_value hash_text json_text parse_uuid_text parse_rfc3339).
Local Abbreviation replay_line := (replay_line hash_text json_text parse_uuid_text read_json parse_rfc3339).
Local Abbreviation purge_session := (purge_session hash_text parse_uuid).
Local Abbreviation rebuild_session := (rebuild_session json_text parse_uuid rules project).
Local Abbreviation replay_session :=
  (replay_session hash_text json_text parse_uuid parse_rfc3339 rules project).
Local Abbreviation restore_session :=
  (restore_session hash_text json_text parse_uuid parse_rfc3339 rules project).

Definition no_columns : ArchiveColumns := mkColumns None None None None None None.

(** A session as its first row creates it. *)
Definition new_session (r : SessionRow) : Prop :=
  sr_columns r = no_columns ∧ t_events (sr_tables r) = ∅ ∧ usage_fits (t_usage (sr_tables r)) ∧
  sr_usage r = ∅ ∧ sr_churn r = ∅.

(** What a step is about. *)
Inductive Act : Type :=
  | AOther
  | AWrite (id : Uuid)
  | AExport (id : Uuid)
  | APurge (id : Uuid)
  | AClear (id : Uuid) (lines : list ArchiveLine)
  | AReplay (id : Uuid) (line : ArchiveLine)
  | ARebuild (id : Uuid).

(** What the archive does, and what the rest of the backend does around it:
    a session that was not purged gets rows, but loses no event; terminals,
    repositories, versions and links change. A restore is what it commits:
    the clearing, then each line, then the rebuild, and it may stop after any
    of them. *)
Inductive archive_act : ArchiveDb * S → Act → ArchiveDb * S → Prop :=
  | act_created db st id r : ad_sessions db !! id = None → new_session r →
      archive_act (db, st) AOther (set_session id r db, st)
  | act_written db st id r t d : ad_sessions db !! id = Some r → purged_at (sr_columns r) = None →
      payloads (sr_tables r) ⊆ payloads t → Forall readable (archive_line <$> event_rows t) → usage_fits (t_usage t) →
      archive_act (db, st) (AWrite id) (set_session id (with_timeline d (with_tables t r)) db, st)
  | act_around db st links ptys repos versions :
      archive_act (db, st) AOther
        (mkArchiveDb (ad_sessions db) links ptys repos versions (ad_rollup db) (ad_activity db), st)
  | act_dump db st key bytes meta : is_dump_key key →
      archive_act (db, st) AOther (db, (put_file key bytes meta st).1)
  | act_export db st seen now days id r el : ad_sessions db !! id = Some r → eligible seen days db (id, r) = Some el →
      archive_act (db, st) (AExport id) (export_session now el db st).1
  | act_purge db st now id db' out : purge_session now id db = Ok (db', out) →
      archive_act (db, st) (APurge id) (db', st)
  | act_clear db st id r key lines : restorable id db st = Ok (r, key, lines) →
      archive_act (db, st) (AClear id lines) ((withdraw_and_clear id r db).2, st)
  | act_replay db st id r env stats ctx line (st1 : ReplayState) : ad_sessions db !! id = Some r → purged_at (sr_columns r) = None →
      replay_line env (stats, ctx, sr_tables r) (replay_of line) = Ok st1 →
      archive_act (db, st) (AReplay id line) (set_session id (with_tables st1.2 r) db, st)
  | act_rebuild db st fs id r : ad_sessions db !! id = Some r → purged_at (sr_columns r) = None →
      archive_act (db, st) (ARebuild id) ((rebuild_session fs id db).1, st).

Definition archive_step (s s' : ArchiveDb * S) : Prop := ∃ a, archive_act s a s'.

(** The restores under way after an act. *)
Definition note (a : Act) (due : Due) : Due :=
  match a with
  | AClear id lines => <[id := lines]> due
  | ARebuild id => delete id due
  | _ => due
  end.

(** A restore replays the lines it read, and rebuilds once it has replayed them
    all. *)
Definition follows (due : Due) (a : Act) (db : ArchiveDb) : Prop :=
  match a with
  | AReplay id line => ∃ lines, due !! id = Some lines ∧ line ∈ lines
  | ARebuild id => ∀ lines r l, due !! id = Some lines → ad_sessions db !! id = Some r → l ∈ lines →
                     is_Some (t_events (sr_tables r) !! al_o l)
  | _ => True
  end.

(** While a session is being restored it is neither exported nor purged, and an
    event written for it meanwhile is the one the object has at its offset. *)
Definition undisturbed (id : Uuid) (due : Due) (a : Act) (db' : ArchiveDb) : Prop :=
  match a with
  | AExport id' | APurge id' => id' = id → due !! id = None
  | AWrite id' => id' = id → ∀ lines r, due !! id = Some lines → ad_sessions db' !! id = Some r →
                    agrees lines (sr_tables r)
  | _ => True
  end.

(** A step of a history in which the restores of one session are undisturbed,
    however often they stop halfway. *)
Inductive kept_step (id : Uuid) : ArchiveDb * S * Due → ArchiveDb * S * Due → Prop :=
  | kept_act s due a s' : archive_act s a s' → follows due a s.1 → undisturbed id due a s'.1 →
      kept_step id (s, due) (s', note a due).

Context `{AL : !ArchiverLaws A} {UL : UuidTextLaws} `{SL : !ObjectStoreLaws S is_object_key}.

(** *** Every row, and the sums *)

Lemma archive_ok_set id r r' db st st' :
  archive_ok (db, st) → ad_sessions db !! id = Some r → sr_usage r' = sr_usage r → sr_churn r' = sr_churn r →
  row_ok r' → archive_ok (set_session id r' db, st').
Proof.
  intros [Hs Hu Hc] Hr Eu Ec Hok. cbn [fst snd] in *. split; cbn [fst snd set_session ad_sessions ad_rollup ad_activity].
  - intros id' r''. rewrite lookup_insert. case_decide as E; [|apply Hs]. by intros [= <-]; subst.
  - intros k. rewrite Hu, total_replace, Eu. by apply total_split.
  - intros k. rewrite Hc, total_replace, Ec. by apply total_split.
Qed.

Lemma archive_ok_store db st st' : archive_ok (db, st) → archive_ok (db, st').
Proof. by intros [? ? ?]. Qed.

Lemma archive_ok_links db st links : archive_ok (db, st) → archive_ok (set_links links db, st).
Proof. by intros [? ? ?]. Qed.

Lemma created_ok db st id r : archive_ok (db, st) → ad_sessions db !! id = None → new_session r →
  archive_ok (set_session id r db, st).
Proof.
  intros [Hs Hu Hc] Hn (Hcol & He & Hf & Hru & Hrc). split.
  - intros id' r'. cbn. rewrite lookup_insert. case_decide as E; [|apply Hs]. intros [= <-]. subst id'.
    split; [done| |done]. rewrite Hru, Hrc. split; intros k a; by rewrite lookup_empty.
  - intros k. cbn in *. rewrite total_insert, Hu by done.
    assert (figure (sr_usage r) k = fig_zero) as -> by (unfold figure; by rewrite Hru, lookup_empty).
    by rewrite fig_add_zero.
  - intros k. cbn in *. rewrite total_insert, Hc by done.
    assert (figure (sr_churn r) k = fig_zero) as -> by (unfold figure; by rewrite Hrc, lookup_empty).
    by rewrite fig_add_zero.
Qed.

Lemma payloads_count t t' : payloads t ⊆ payloads t' →
  Z.of_nat (size (t_events t)) ≤ Z.of_nat (size (t_events t')) ∧
  (Z.of_nat (size (t_events t)) = Z.of_nat (size (t_events t')) → payloads t = payloads t').
Proof.
  intros Hsub. assert (Hsz : ∀ t, size (payloads t) = size (t_events t)) by (intros x; apply map_size_fmap).
  rewrite <-!Hsz. split.
  - apply inj_le. rewrite <-!size_dom. by apply subseteq_size, subseteq_dom.
  - intros E%Nat2Z.inj. by apply map_subseteq_size_eq; [|lia].
Qed.

(** *** Export *)

Lemma eligible_spec now days db id r el : eligible now days db (id, r) = Some el →
  el_session el = id ∧ el_agent el = sr_agent r ∧ purged_at (sr_columns r) = None ∧ event_rows (sr_tables r) ≠ [] ∧
  (archived_at (sr_columns r) = None ∨ archive_events (sr_columns r) ≠ Some (event_count r)).
Proof.
  unfold eligible. destruct (timestamps r) as [|t ts] eqn:Et; [done|].
  destruct (_ && _ && _ && _) eqn:E; [|done]. intros [= <-]. cbn.
  rewrite !andb_true_iff, orb_true_iff in E. destruct E as [[[Hp _] Ha] _].
  split; [done|]. split; [done|]. split; [|split].
  - by destruct (purged_at (sr_columns r)).
  - unfold timestamps in Et. by destruct (event_rows (sr_tables r)).
  - destruct Ha as [Ha|Ha]; [left; by destruct (archived_at (sr_columns r))|right].
    apply negb_true_iff, bool_decide_eq_false in Ha. done.
Qed.

(** What an export leaves: the columns only once the object is what was read. *)
Lemma export_result now el db st r :
  ad_sessions db !! el_session el = Some r → event_rows (sr_tables r) ≠ [] →
  let key := object_key (el_agent el) (el_first_event_at el) (el_session el) in
  let lines := session_lines r in
  let out := mkExport key (Z.of_nat (length lines)) (byte_count (object_text lines))
    (byte_count (compress (object_text lines))) (hex (sha256 (object_text lines))) in
  let meta := object_metadata (el_session el) (el_agent el) (ex_events out) (ex_bytes out) (ex_sha256 out) in
  let '(st', put) := put_file key (compress (object_text lines)) meta st in
  let '(db', st'', res) := export_session now el db st in
  st'' = st' ∧
  match res with
  | Ok out' => put = Ok tt ∧ out' = out ∧
      db' = set_session (el_session el) (with_columns (record_archive now out (sr_columns r)) r) db
  | Err _ => db' = db
  end.
Proof.
  intros Hr Hne key lines out meta. unfold export_session. rewrite Hr. fold lines key.
  unfold write_session_lines. assert (Hn : (Z.of_nat (length lines) =? 0) = false).
  { apply Z.eqb_neq. unfold lines, session_lines. rewrite length_fmap. by destruct (event_rows (sr_tables r)). }
  rewrite Hn. fold meta.
  change (object_metadata (el_session el) (el_agent el) (Z.of_nat (length lines))
    (byte_count (object_text lines)) (hex (sha256 (object_text lines)))) with meta.
  destruct (put_file key (compress (object_text lines)) meta st) as [st' put] eqn:Eput.
  destruct put as [[]|e]; cbn [mbind res_bind]; [|done].
  destruct (head_object key st') as [head|e]; cbn [mbind res_bind]; [|done].
  by destruct (check_upload _ _ _ head).
Qed.
Lemma export_ok db st seen now days id r el : archive_ok (db, st) → ad_sessions db !! id = Some r →
  eligible seen days db (id, r) = Some el → archive_ok (export_session now el db st).1.
Proof.
  intros Hok Hr Hel. apply eligible_spec in Hel as (Hid & Hag & Hp & Hne & Hcol). subst id.
  pose proof (export_result now el db st r Hr Hne) as Hres. cbn zeta in Hres.
  destruct (put_file _ _ _ st) as [st' put]. destruct (export_session now el db st) as [[db' st''] res].
  destruct Hres as [-> Hres]. cbn [fst]. destruct res as [out|e].
  - destruct Hres as (-> & -> & ->). eapply archive_ok_set; [exact Hok|done|done|done|].
    by destruct (ok_rows _ Hok _ _ Hr).
  - subst db'. by eapply archive_ok_store.
Qed.

Lemma set_session_same id r db : ad_sessions db !! id = Some r → set_session id r db = db.
Proof. intros E. destruct db as [ss l p rs v u a]. unfold set_session. cbn in *. by rewrite insert_id. Qed.

(** *** Purge *)

Lemma lock_and_check_spec id db r : lock_and_check id db = Ok r →
  ad_sessions db !! id = Some r ∧ purged_at (sr_columns r) = None ∧ is_Some (archived_at (sr_columns r)) ∧
  archive_events (sr_columns r) = Some (event_count r) ∧ current_live id db = false.
Proof.
  unfold lock_and_check. intros (r' & Hr%ok_or_Ok & E)%res_bind_Ok.
  destruct (purged_at (sr_columns r')) eqn:Hp; cbn [is_some negb is_none] in E; [done|].
  destruct (archived_at (sr_columns r')) eqn:Ha; cbn [is_none] in E; [|done].
  case_bool_decide as Hev; cbn [negb] in E; [|done].
  destruct (current_live id db) eqn:Hc; [done|]. injection E as <-. by split_and!.
Qed.

Lemma usage_contributions_nonneg repo u : usage_fits u → all_nonneg (usage_contributions repo u).
Proof.
  intros Hu k a. unfold usage_contributions. intros E%elem_of_list_to_map_2.
  apply list_elem_of_fmap in E as ([k' row] & [= -> ->] & Hin%elem_of_map_to_list).
  apply fig_fits_nonneg. by eapply Hu.
Qed.

Lemma file_contributions_nonneg d : all_nonneg (file_contributions d).
Proof.
  intros k a. unfold file_contributions. intros E%lookup_set_to_map; [|done].
  destruct E as (k' & _ & [= _ <-]). cbn. unfold turns_where. split; apply Nat2Z.is_nonneg.
Qed.

Lemma roll_up_spec repo r db r' db' : sr_usage r = ∅ → sr_churn r = ∅ → roll_up repo r db = Ok (r', db') →
  ∃ rollup activity,
    add_contributions (usage_contributions repo (t_usage (sr_tables r))) (ad_rollup db) = Ok rollup ∧
    add_contributions (file_contributions (sr_timeline r)) (ad_activity db) = Ok activity ∧
    r' = with_contributions (usage_contributions repo (t_usage (sr_tables r))) (file_contributions (sr_timeline r)) r ∧
    db' = set_rollups rollup activity db.
Proof.
  intros Eu Ec. unfold roll_up. rewrite Eu, Ec, !(right_id_L ∅ (∪)).
  intros (rollup & H1' & E)%res_bind_Ok. apply res_bind_Ok in E as (activity & H2' & [= <- <-]).
  by exists rollup, activity.
Qed.

Lemma purge_spec now id db db' out : purge_session now id db = Ok (db', out) →
  ∃ r repo rolled, lock_and_check id db = Ok r ∧ projections_behind db = [] ∧ session_projection_current r = true ∧
    repo = attributed_repo parse_uuid id db ∧ roll_up (default "" repo) r db = Ok rolled ∧
    db' = set_session id (purged_row hash_text now id repo rolled.1)
            (set_links (filter (λ l, link_session l ≠ id) (ad_links db)) rolled.2).
Proof.
  unfold Archive.purge_session. case_bool_decide as Hb; cbn [negb]; [|done].
  intros (r & Hr & E)%res_bind_Ok. destruct (session_projection_current r) eqn:Hc; cbn [negb] in E; [|done].
  apply res_bind_Ok in E as (rolled & Hroll & [= <- _]). by exists r, (attributed_repo parse_uuid id db), rolled.
Qed.

Lemma purge_ok db st now id db' out : archive_ok (db, st) → purge_session now id db = Ok (db', out) →
  archive_ok (db', st).
Proof.
  intros Hok Hpurge. apply purge_spec in Hpurge as (r & repo & rolled & Hr & _ & _ & Hrepo & Hroll & ->). clear Hrepo.
  apply lock_and_check_spec in Hr as (Hr & Hp & Ha & Hev & _).
  pose proof (ok_rows _ Hok _ _ Hr) as [Hu Hn Hlive]. destruct (Hlive Hp) as (Eu & Ec). destruct rolled as [r1 db1].
  apply roll_up_spec in Hroll as (rollup & activity & Hro & Hac & -> & ->); [|done..]. cbn [fst snd].
  set (r2 := purged_row _ _ _ _ _).
  split.
  - intros id' r'. cbn. rewrite lookup_insert. case_decide as E; [|apply (ok_rows _ Hok)].
    intros [= <-]. subst id'. split; [apply usage_fits_empty| |done].
    split; [by apply usage_contributions_nonneg|apply file_contributions_nonneg].
  - intros k. cbn [fst set_session set_links set_rollups ad_rollup ad_sessions]. rewrite total_replace.
    rewrite (figure_added _ _ _ k Hro).
    pose proof (ok_rollup _ Hok k) as E. cbn [fst] in E. rewrite E, (total_split _ k _ _ _ Hr), Eu.
    assert (figure (∅ : gmap UsageKey UsageComponents) k = fig_zero) as -> by (unfold figure; by rewrite lookup_empty).
    rewrite fig_add_zero. apply fig_add_comm.
  - intros k. cbn [fst set_session set_links set_rollups ad_activity ad_sessions]. rewrite total_replace.
    rewrite (figure_added _ _ _ k Hac).
    pose proof (ok_activity _ Hok k) as E. cbn [fst] in E. rewrite E, (total_split _ k _ _ _ Hr), Ec.
    assert (figure (∅ : gmap FileKey Churn) k = fig_zero) as -> by (unfold figure; by rewrite lookup_empty).
    rewrite fig_add_zero. apply fig_add_comm.
Qed.
(** *** Restore *)

Lemma insert_value_usage env o v ctx t b ctx' t' :
  insert_value env o v ctx t = Ok (b, ctx', t') → usage_fits (t_usage t) → usage_fits (t_usage t').
Proof.
  intros Hins Hu. pose proof Hins as (parsed & Hp & _)%res_bind_Ok.
  destruct (t_events t !! o) as [row|] eqn:Hf.
  - unfold EventStore.insert_value in Hins. rewrite Hp, Hf in Hins. injection Hins as _ _ <-.
    unfold link_parent_session, set_parent_session. by repeat case_match.
  - rewrite (insert_value_fresh _ _ _ _ _ _ _ _ _ _ Hf Hp) in Hins.
    apply res_bind_Ok in Hins as (t1 & H1' & [= _ _ <-]).
    destruct (settled_core parse_uuid_text parse_rfc3339 env o v
      (claim_related (le_subagent_tool_use_id env) parsed) t1) as [Hc _].
    rewrite (sc_usage _ _ Hc). unfold insert_event_derivatives in H1'.
    destruct (bool_decide _); [by injection H1' as <-|].
    apply res_bind_Ok in H1' as (u & Hup & [= <-]). cbn [t_usage with_usage].
    eapply upsert_fits; [exact Hup|]. destruct (ce_blocks _) as [|blk blks]; [done|].
    rewrite usage_insert_blocks. exact Hu.
Qed.

Lemma replay_line_usage env stats ctx t line (st1 : ReplayState) :
  replay_line env (stats, ctx, t) line = Ok st1 → usage_fits (t_usage t) → usage_fits (t_usage st1.2).
Proof.
  unfold EventStore.replay_line. intros ([[ins c] t'] & E & Hst)%res_bind_Ok Hu. injection Hst as <-. cbn [snd].
  unfold insert_line in E. destruct (forallb _ _); [by injection E as _ _ <-|].
  destruct (read_json _) as [v|]; [|by injection E as _ _ <-].
  apply res_bind_Ok in E as ([[b c'] t''] & Hins & [= _ _ <-]). by eapply insert_value_usage.
Qed.

(** A replayed line is there afterwards, and is all that may be new. *)
Lemma replay_line_payload env stats ctx t line (st1 : ReplayState) : readable line →
  replay_line env (stats, ctx, t) (replay_of line) = Ok st1 →
  payloads st1.2 = match payloads t !! al_o line with
                   | Some _ => payloads t
                   | None => <[al_o line := al_p line]> (payloads t)
                   end.
Proof.
  intros (_ & Hpl & Hd). unfold EventStore.replay_line. cbn [rl_byte_offset rl_payload replay_of].
  set (env1 := mkLine _ _ _ _ _ _). unfold insert_line. rewrite value_visible, read_value; [|done|lia].
  intros ([[ins c] t'] & E & Hst)%res_bind_Ok. injection Hst as <-.
  apply res_bind_Ok in E as ([[b c'] t''] & Hins & [= _ _ ->]). cbn [snd].
  unfold payloads at 2. rewrite lookup_fmap. destruct (t_events t !! al_o line) as [row|] eqn:Hf; cbn [fmap option_fmap option_map].
  - unfold EventStore.insert_value in Hins. apply res_bind_Ok in Hins as (parsed & _ & E). rewrite Hf in E.
    injection E as _ _ <-. unfold payloads. by rewrite events_linked.
  - edestruct insert_value_row as (parsed & row & _ & Hev & _ & Hv & _); [exact Hf|exact Hins|].
    unfold payloads. by rewrite Hev, fmap_insert, Hv.
Qed.

Lemma payload_map_lookup lines o v : NoDup (al_o <$> lines) →
  payload_map lines !! o = Some v ↔ ∃ l, l ∈ lines ∧ al_o l = o ∧ al_p l = v.
Proof.
  intros Hnd. unfold payload_map. rewrite <-elem_of_list_to_map.
  - rewrite list_elem_of_fmap. naive_solver.
  - by rewrite <-list_fmap_compose.
Qed.

Lemma payload_map_size lines : NoDup (al_o <$> lines) → size (payload_map lines) = length lines.
Proof.
  intros Hnd. unfold payload_map. rewrite map_size_list_to_map by (by rewrite <-list_fmap_compose).
  by rewrite length_fmap.
Qed.

Lemma restorable_spec id db st r key lines : restorable id db st = Ok (r, key, lines) →
  ad_sessions db !! id = Some r ∧ is_Some (purged_at (sr_columns r)) ∧ archive_key (sr_columns r) = Some key ∧
  lines ≠ [] ∧ ∃ sha, archive_sha256 (sr_columns r) = Some sha ∧ read_session_lines key sha st = Ok lines.
Proof.
  unfold restorable. intros (r' & Hr%ok_or_Ok & E)%res_bind_Ok.
  destruct (purged_at (sr_columns r')) as [p|] eqn:Hp; cbn [is_none] in E; [|done].
  apply res_bind_Ok in E as (key' & Hk%ok_or_Ok & E). apply res_bind_Ok in E as (sha & Hsha%ok_or_Ok & E).
  apply res_bind_Ok in E as (ls & Hls & E). case_bool_decide as Hne; [done|]. injection E as <- <- <-.
  split_and!; [done|by eexists|done|done|]. by exists sha.
Qed.

(** The rebuild touches the timeline and the links. *)
Lemma rebuild_shape fs id db r : ad_sessions db !! id = Some r →
  ∃ d links, (rebuild_session fs id db).1 = set_session id (with_timeline d r) (set_links links db).
Proof. intros Hr. unfold Archive.rebuild_session. rewrite Hr. by eexists _, _. Qed.

Lemma withdrawn_total {K B} `{Countable K} `{FigureLaws B} (f : SessionRow → gmap K B) k id r (sessions : gmap Uuid SessionRow)
    (m : gmap K B) :
  (∀ id r, sessions !! id = Some r → all_nonneg (f r)) → sessions !! id = Some r →
  figure m k = total f k sessions → figure (withdraw_contributions (f r) m) k = total f k (delete id sessions).
Proof.
  intros Hn Hr Hm. apply figure_withdrawn.
  - by eapply Hn.
  - apply total_is_nonneg. intros id' r' E. apply lookup_delete_Some in E as [_ E]. by eapply Hn.
  - rewrite Hm, (total_split f k _ _ _ Hr). apply fig_add_comm.
Qed.

Lemma clear_ok db st id r : archive_ok (db, st) → ad_sessions db !! id = Some r →
  archive_ok ((withdraw_and_clear id r db).2, st).
Proof.
  intros Hok Hr.
  assert (Hnn : ∀ id r, ad_sessions db !! id = Some r → all_nonneg (sr_usage r) ∧ all_nonneg (sr_churn r)).
  { intros id' r'' E. apply (ok_nonneg _ (ok_rows _ Hok _ _ E)). }
  split.
  - intros id' r''. cbn. rewrite lookup_insert. case_decide as E; [|apply (ok_rows _ Hok)].
    intros [= <-]. split; [apply usage_fits_empty| |done]. split; intros k a E'; cbn in E'; by rewrite lookup_empty in E'.
  - intros k. cbn [fst set_session set_rollups withdraw_and_clear snd ad_rollup ad_sessions].
    rewrite total_replace.
    rewrite (withdrawn_total sr_usage k id r (ad_sessions db)); [|intros id' r'' E; apply (Hnn _ _ E)|done|apply (ok_rollup _ Hok)].
    unfold figure. change (sr_usage (cleared_session id r)) with (∅ : gmap UsageKey UsageComponents). rewrite lookup_empty. symmetry. apply fig_add_zero.
  - intros k. cbn [fst set_session set_rollups withdraw_and_clear snd ad_activity ad_sessions].
    rewrite total_replace.
    rewrite (withdrawn_total sr_churn k id r (ad_sessions db)); [|intros id' r'' E; apply (Hnn _ _ E)|done|apply (ok_activity _ Hok)].
    unfold figure. change (sr_churn (cleared_session id r)) with (∅ : gmap FileKey Churn). rewrite lookup_empty. symmetry. apply fig_add_zero.
Qed.

Theorem archive_act_ok s a s' : archive_ok s → archive_act s a s' → archive_ok s'.
Proof.
  intros Hok Hact. destruct Hact as [db st id r Hn Hnew|db st id r t d Hr Hp Hsub Hread Hfit|db st links ptys repos versions
    |db st key bytes meta Hkey|db st seen now days id r el Hr Hel|db st now id db' out Hpu|db st id r key lines Hrest
    |db st id r env stats ctx line st1 Hr Hp Hrep|db st fs id r Hr Hp].
  - by apply created_ok.
  - eapply archive_ok_set; [exact Hok|exact Hr|done|done|]. by destruct (ok_rows _ Hok _ _ Hr).
  - by destruct Hok.
  - by eapply archive_ok_store.
  - by eapply export_ok.
  - by eapply purge_ok.
  - apply restorable_spec in Hrest as (Hr & _). by apply clear_ok.
  - eapply archive_ok_set; [exact Hok|exact Hr|done|done|]. destruct (ok_rows _ Hok _ _ Hr) as [Hu ? ?].
    split; [|done|done]. by eapply replay_line_usage.
  - destruct (rebuild_shape fs id db r Hr) as (d & links & ->).
    eapply (archive_ok_set id r _ (set_links links db)); [by apply archive_ok_links|done|done|done|].
    by destruct (ok_rows _ Hok _ _ Hr).
Qed.

Lemma archive_history s s' : archive_ok s → rtc archive_step s s' → archive_ok s'.
Proof.
  intros Hok Hsteps. induction Hsteps as [s|s1 s2 s3 [a Hact] Hsteps IH]; [done|].
  by eapply IH, archive_act_ok.
Qed.

(** *** What is kept of one session *)

(** A session does not notice what is stored under other keys. *)
Definition same_object (st st' : S) (c : ArchiveColumns) : Prop :=
  ∀ key, archive_key c = Some key → get_to_file key st' = get_to_file key st.

Lemma stored_object_same st st' c lines : same_object st st' c → stored_object st c lines → stored_object st' c lines.
Proof.
  intros Hsame [(key & Hk & Hg) Hs He Hr Ho]. split; try done. exists key. by rewrite (Hsame key Hk).
Qed.

Lemma kept_row_same st st' id o r : same_object st st' (sr_columns r) → kept_row st id o r → kept_row st' id o r.
Proof.
  intros Hsame [Hl Hk Hlive Hdue Hpurged]. split; [done|done| | |].
  - intros Hp Ho n Ha Hev. destruct (Hlive Hp Ho n Ha Hev) as [Hle Heq]. split; [done|]. intros En.
    destruct (Heq En) as (lines & Hobj & Hpm). exists lines. split; [by eapply stored_object_same|done].
  - intros lines E. destruct (Hdue lines E) as (? & Hobj & ?). split_and!; [done|by eapply stored_object_same|done].
  - intros Hp. destruct (Hpurged Hp) as (? & ? & lines & Hobj). split_and!; [done|done|].
    exists lines. by eapply stored_object_same.
Qed.

(** What happens to other sessions and elsewhere in the store. *)
Lemma kept_elsewhere id db db' st st' due due' :
  kept id (db, st, due) → ad_sessions db' !! id = ad_sessions db !! id → due' !! id = due !! id →
  (∀ r, ad_sessions db !! id = Some r → same_object st st' (sr_columns r)) →
  kept id (db', st', due') ∧ contents id (db, st, due) ⊆ contents id (db', st', due').
Proof.
  unfold kept, contents. cbn [fst snd]. intros Hk -> -> Hsame.
  destruct (ad_sessions db !! id) as [r|]; [|done]. specialize (Hsame r eq_refl).
  split; [by eapply kept_row_same|]. destruct (due !! id); [done|].
  destruct (purged_at (sr_columns r)); [|done]. destruct (archive_key (sr_columns r)) as [key|] eqn:Ek; [|done].
  destruct (archive_sha256 (sr_columns r)); [|done]. unfold read_session_lines. by rewrite (Hsame key Ek).
Qed.

(** One session's row changes. *)
Lemma kept_here id r db st due : kept_row st id (due !! id) r → kept id (set_session id r db, st, due).
Proof. unfold kept. cbn [fst snd set_session ad_sessions]. by rewrite lookup_insert_eq. Qed.

Lemma kept_self id db st due r : kept id (db, st, due) → ad_sessions db !! id = Some r → kept_row st id (due !! id) r.
Proof. unfold kept. cbn [fst snd]. intros Hk E. by rewrite E in Hk. Qed.

Lemma other_session id id' r db : id' ≠ id → ad_sessions (set_session id' r db) !! id = ad_sessions db !! id.
Proof. intros Hne. cbn. by rewrite lookup_insert_ne. Qed.

Lemma readable_rows t : Forall readable (archive_line <$> event_rows t) ↔
  ∀ o v, payloads t !! o = Some v → in_i64 o ∧ plain v = true ∧ (depth v < MAX_DEPTH)%nat.
Proof.
  rewrite Forall_fmap, Forall_forall. unfold payloads. split.
  - intros Hl o v. rewrite lookup_fmap. intros (row & E & ->)%fmap_Some.
    exact (Hl (o, row) (proj2 (elem_of_event_rows _ _ _) E)).
  - intros Hl [o row] Hin%elem_of_event_rows. apply (Hl o). by rewrite lookup_fmap, Hin.
Qed.

Lemma created_kept id db st due r : kept id (db, st, due) → ad_sessions db !! id = None → new_session r →
  kept id (set_session id r db, st, due) ∧ contents id (db, st, due) ⊆ contents id (set_session id r db, st, due).
Proof.
  intros Hk Hn (Hcol & He & _). unfold kept in Hk. cbn [fst snd] in Hk. rewrite Hn in Hk. split.
  - apply kept_here. rewrite Hk. split; rewrite ?Hcol; cbn; try done.
    unfold session_lines, event_rows. by rewrite He.
  - assert (contents id (db, st, due) = ∅) as -> by (unfold contents; cbn [fst snd]; by rewrite Hn).
    apply map_empty_subseteq.
Qed.

(** Rows that only gain events. *)
Lemma grown_live st id r r' : kept_row st id None r → purged_at (sr_columns r) = None →
  sr_columns r' = sr_columns r → payloads (sr_tables r) ⊆ payloads (sr_tables r') →
  Forall readable (session_lines r') → kept_row st id None r'.
Proof.
  intros [Hl Hk Hlive _ _] Hp Ec Hsub Hread. split; rewrite ?Ec; [done|done| |done|].
  - intros _ _ n Ha Hev. destruct (Hlive Hp eq_refl n Ha Hev) as [Hle Heq].
    destruct (payloads_count _ _ Hsub) as [Hc1 Hc2]. unfold event_count in *.
    split; [lia|]. intros ->. destruct Heq as (lines & Ho & Hpm); [lia|]. exists lines.
    split; [done|]. rewrite Hpm. apply Hc2. lia.
  - rewrite Hp. intros Hs. by apply is_Some_None in Hs.
Qed.

Lemma grown_due st id lines r r' : kept_row st id (Some lines) r → sr_columns r' = sr_columns r →
  agrees lines (sr_tables r') → Forall readable (session_lines r') → kept_row st id (Some lines) r'.
Proof.
  intros [Hl Hk _ Hdue Hpurged] Ec Hag Hread. destruct (Hdue lines eq_refl) as (Hp & Ho & _).
  split; rewrite ?Ec; try done.
  - by intros ? [= <-].
  - intros Hs. by destruct (Hpurged Hs).
Qed.

Lemma grown_contents id db st due r r' : ad_sessions db !! id = Some r → purged_at (sr_columns r) = None →
  purged_at (sr_columns r') = None → payloads (sr_tables r) ⊆ payloads (sr_tables r') →
  contents id (db, st, due) ⊆ contents id (set_session id r' db, st, due).
Proof.
  intros Hr Hp Hp' Hsub.
  assert (Hr' : ad_sessions (set_session id r' db) !! id = Some r') by (cbn; apply lookup_insert_eq).
  destruct (due !! id) as [lines|] eqn:Ed.
  - rewrite (contents_due id db st due r lines), (contents_due id _ st due r' lines) by done.
    by apply map_union_mono_l.
  - rewrite (contents_live id db st due r), (contents_live id _ st due r') by done. done.
Qed.

Lemma written_kept id db st due r t d : kept id (db, st, due) → ad_sessions db !! id = Some r →
  purged_at (sr_columns r) = None → payloads (sr_tables r) ⊆ payloads t →
  Forall readable (archive_line <$> event_rows t) →
  (∀ lines, due !! id = Some lines → agrees lines t) →
  let db' := set_session id (with_timeline d (with_tables t r)) db in
  kept id (db', st, due) ∧ contents id (db, st, due) ⊆ contents id (db', st, due).
Proof.
  intros Hk Hr Hp Hsub Hread Hag db'. pose proof (kept_self _ _ _ _ _ Hk Hr) as Hrow. split.
  - apply kept_here. destruct (due !! id) as [lines|].
    + apply (grown_due st id lines r); [done|done|by apply Hag|done].
    + by apply (grown_live st id r).
  - eapply grown_contents; [exact Hr|done|done|exact Hsub].
Qed.

Lemma exported_object now key lines st st' meta c :
  is_object_key key → put_file key (compress (object_text lines)) meta st = (st', Ok tt) →
  Forall readable lines → NoDup (al_o <$> lines) →
  stored_object st' (record_archive now (mkExport key (Z.of_nat (length lines)) (byte_count (object_text lines))
    (byte_count (compress (object_text lines))) (hex (sha256 (object_text lines)))) c) lines.
Proof.
  intros Hk Hput Hr Ho. split; try done. exists key. split; [done|]. by eapply put_get.
Qed.

Lemma exported_kept now key agent at_ st st' meta id r : kept_row st id None r → purged_at (sr_columns r) = None →
  key = object_key agent at_ id →
  let lines := session_lines r in
  let out := mkExport key (Z.of_nat (length lines)) (byte_count (object_text lines))
    (byte_count (compress (object_text lines))) (hex (sha256 (object_text lines))) in
  put_file key (compress (object_text lines)) meta st = (st', Ok tt) →
  kept_row st' id None (with_columns (record_archive now out (sr_columns r)) r).
Proof.
  intros [Hl Hk Hlive Hdue Hpurged] Hp -> lines out Hput. split; try done.
  - intros key' [= <-]. by eexists _, _.
  - intros _ _ n _ [= <-].
    assert (Z.of_nat (length lines) = event_count r) as ->.
    { unfold lines, session_lines, event_count. by rewrite length_fmap, length_event_rows. }
    split; [done|]. intros _. exists lines. split; [|exact (session_lines_payloads r)].
    eapply exported_object; [apply object_key_is_key|exact Hput|done|].
    unfold lines. rewrite session_lines_offsets. apply event_rows_NoDup.
  - cbn. rewrite Hp. intros Hs. by apply is_Some_None in Hs.
Qed.

(** A dump is no session's object. *)
Lemma dump_object id db st due key bytes meta r : kept id (db, st, due) → is_dump_key key →
  ad_sessions db !! id = Some r → same_object st (put_file key bytes meta st).1 (sr_columns r).
Proof.
  intros Hk Hkey Hr key' Hkey'. destruct (k_key _ _ _ _ (kept_self _ _ _ _ _ Hk Hr) _ Hkey') as (ag & at_ & ->).
  apply put_other; [by right|apply object_key_is_key|].
  apply session_not_dump; [apply object_key_is_session|done].
Qed.

(** An upload that fails may leave another object, but the row's export is then
    shorter than its events. *)
Lemma export_failed_kept st st' id r : kept_row st id None r → purged_at (sr_columns r) = None →
  (archived_at (sr_columns r) = None ∨ archive_events (sr_columns r) ≠ Some (event_count r)) → kept_row st' id None r.
Proof.
  intros [Hl Hk Hlive _ Hpurged] Hp Hcol. split; try done.
  - intros _ _ n Ha Hev. destruct (Hlive Hp eq_refl n Ha Hev) as [Hle _].
    split; [done|]. intros ->. destruct Hcol as [Hcol|Hcol]; [|done].
    rewrite Hcol in Ha. by apply is_Some_None in Ha.
  - rewrite Hp. intros Hs. by apply is_Some_None in Hs.
Qed.

Lemma export_kept id db st due seen now days id' r el : kept id (db, st, due) → ad_sessions db !! id' = Some r →
  eligible seen days db (id', r) = Some el → (id' = id → due !! id = None) →
  let s' := (export_session now el db st).1 in
  kept id (s', due) ∧ contents id (db, st, due) ⊆ contents id (s', due).
Proof.
  intros Hk Hr Hel Hdue s'.
  apply eligible_spec in Hel as (Hid & Hag & Hp & Hne & Hcol). subst id'.
  pose proof (export_result now el db st r Hr Hne) as Hres. cbn zeta in Hres.
  set (key := object_key (el_agent el) (el_first_event_at el) (el_session el)) in *.
  destruct (put_file key _ _ st) as [st' put] eqn:Eput. unfold s'. clear s'.
  destruct (export_session now el db st) as [[db' st''] res]. destruct Hres as [-> Hres]. cbn [fst].
  destruct (decide (el_session el = id)) as [<-|Hne'].
  - specialize (Hdue eq_refl). pose proof (kept_self _ _ _ _ _ Hk Hr) as Hrow. rewrite Hdue in Hrow.
    destruct res as [out|e].
    + destruct Hres as (-> & -> & ->). split.
      * apply kept_here. rewrite Hdue. by eapply exported_kept.
      * rewrite (contents_live _ db st due r) by done. erewrite contents_live; [|cbn; by rewrite lookup_insert_eq|done|done].
        done.
    + subst db'. rewrite <-(set_session_same _ _ _ Hr). split.
      * apply kept_here. rewrite Hdue. by eapply export_failed_kept.
      * rewrite (set_session_same _ _ _ Hr). rewrite (contents_live _ db st due r), (contents_live _ db st' due r); done.
  - assert (Hsame : ∀ r', ad_sessions db !! id = Some r' → same_object st st' (sr_columns r')).
    { intros r' Hr' key' Hkey'. apply (f_equal fst) in Eput. cbn in Eput. rewrite <-Eput.
      destruct (k_key _ _ _ _ (kept_self _ _ _ _ _ Hk Hr') _ Hkey') as (ag & at_ & ->).
      apply put_other; [apply object_key_is_key..|]. by intros E%object_key_session. }
    apply kept_elsewhere; [done| |done|done]. destruct res as [out|e]; [|by subst db'].
    destruct Hres as (_ & _ & ->). by apply other_session.
Qed.

Lemma purge_kept id db st due now id' db' out : kept id (db, st, due) → purge_session now id' db = Ok (db', out) →
  (id' = id → due !! id = None) →
  kept id (db', st, due) ∧ contents id (db, st, due) ⊆ contents id (db', st, due).
Proof.
  intros Hk Hpurge Hdue.
  assert (Hother : ∀ id, id ≠ id' → ad_sessions db' !! id = ad_sessions db !! id).
  { intros id0 Hne. apply purge_spec in Hpurge as (r & repo & [r1 db1] & Hr & _ & _ & _ & Hroll & ->).
    unfold roll_up in Hroll. apply res_bind_Ok in Hroll as (x & _ & Hroll).
    apply res_bind_Ok in Hroll as (y & _ & [= <- <-]). cbn. by rewrite lookup_insert_ne. }
  destruct (decide (id' = id)) as [->|Hne]; [|apply kept_elsewhere; [done|by apply Hother|done|done]].
  specialize (Hdue eq_refl).
  apply purge_spec in Hpurge as (r & repo & rolled & Hr & _ & _ & _ & Hroll & ->).
  apply lock_and_check_spec in Hr as (Hr & Hp & Ha & Hev & _).
  pose proof (kept_self _ _ _ _ _ Hk Hr) as Hrow. rewrite Hdue in Hrow. destruct Hrow as [Hl Hkey Hlive _ _].
  destruct (Hlive Hp eq_refl _ Ha Hev) as [_ Heq]. destruct (Heq eq_refl) as (lines & Hobj & Hpm).
  assert (sr_columns rolled.1 = sr_columns r) as Ec.
  { destruct rolled as [r1 db1]. unfold roll_up in Hroll. apply res_bind_Ok in Hroll as (x & _ & Hroll).
    by apply res_bind_Ok in Hroll as (y & _ & [= <- <-]). }
  set (r2 := purged_row _ _ _ _ _). rewrite <-Ec in *.
  assert (Hobj2 : stored_object st (sr_columns r2) lines) by (destruct Hobj; by split).
  split.
  - unfold kept. cbn [fst snd]. cbn. rewrite lookup_insert_eq, Hdue. split; try done.
    intros _. split_and!; [done|done|]. by exists lines.
  - rewrite (contents_live id db st due r) by (done || by rewrite <-Ec).
    rewrite (contents_purged id _ st due r2 lines); [by rewrite Hpm| |done| |done].
    + cbn. by rewrite lookup_insert_eq.
    + by eexists.
Qed.

(** *** A restore *)

Lemma clear_kept id db st due r key lines : kept id (db, st, due) → restorable id db st = Ok (r, key, lines) →
  let x := ((withdraw_and_clear id r db).2, st, <[id := lines]> due) in
  kept id x ∧ contents id (db, st, due) ⊆ contents id x.
Proof.
  intros Hk Hrest x. apply restorable_spec in Hrest as (Hr & Hp & Hkey & _ & sha & Hs & Hread).
  pose proof (kept_self _ _ _ _ _ Hk Hr) as [Hl Hkk _ _ Hpurged].
  destruct (Hpurged Hp) as (Hdue & _ & lines' & Hobj).
  assert (lines' = lines) as -> by (rewrite (stored_object_read _ _ _ _ _ Hobj Hkey Hs) in Hread; congruence).
  assert (Hr1 : ad_sessions x.1.1 !! id = Some (cleared_session id r)) by (cbn; apply lookup_insert_eq).
  split.
  - unfold kept. rewrite Hr1. cbn [x fst snd]. rewrite lookup_insert_eq. split; try done.
    + intros ? [= <-]. split_and!; [done|by destruct Hobj|]. intros o v v' _. unfold payloads. by rewrite lookup_fmap.
    + intros Hs'. by apply is_Some_None in Hs'.
  - rewrite (contents_purged id db st due r lines) by done.
    unfold x. rewrite (contents_due id _ st _ (cleared_session id r) lines); [|exact Hr1|apply lookup_insert_eq].
    apply map_union_subseteq_l.
Qed.

Lemma replay_kept id db st due r env stats ctx line (st1 : ReplayState) lines : kept id (db, st, due) →
  ad_sessions db !! id = Some r → purged_at (sr_columns r) = None → due !! id = Some lines → line ∈ lines →
  replay_line env (stats, ctx, sr_tables r) (replay_of line) = Ok st1 →
  let db' := set_session id (with_tables st1.2 r) db in
  kept id (db', st, due) ∧ contents id (db, st, due) ⊆ contents id (db', st, due).
Proof.
  intros Hk Hr Hp Hdue Hin Hrep db'. pose proof (kept_self _ _ _ _ _ Hk Hr) as Hrow. rewrite Hdue in Hrow.
  pose proof Hrow as [Hl _ _ Hd _]. destruct (Hd lines eq_refl) as (_ & Hobj & Hag).
  pose proof (so_readable _ _ _ Hobj) as Hread. rewrite Forall_forall in Hread. specialize (Hread line Hin).
  pose proof (replay_line_payload _ _ _ _ _ _ Hread Hrep) as Hpay.
  assert (Hnew : ∀ o v, payloads st1.2 !! o = Some v →
    payloads (sr_tables r) !! o = Some v ∨ (o = al_o line ∧ v = al_p line)).
  { rewrite Hpay. destruct (payloads (sr_tables r) !! al_o line); [by left|].
    intros o v [[<- <-]|[_ ?]]%lookup_insert_Some; [by right|by left]. }
  split.
  - apply kept_here. rewrite Hdue. apply (grown_due st id lines r); [done|done| |].
    + intros o v v' Hv [Hv'|[-> ->]]%Hnew; [by eapply Hag|].
      apply payload_map_lookup in Hv as (l & Hl' & Eo & <-); [|apply Hobj].
      pose proof (so_offsets _ _ _ Hobj) as Hnd. f_equal.
      apply list_elem_of_lookup in Hin as [i Hi]. apply list_elem_of_lookup in Hl' as [j Hj].
      assert (i = j) as ->; [|congruence].
      eapply (NoDup_lookup (al_o <$> lines) i j (al_o line) Hnd); rewrite list_lookup_fmap.
      * by rewrite Hi.
      * rewrite Hj. cbn. by rewrite Eo.
    + apply readable_rows. intros o v [Hv|[-> ->]]%Hnew; [by apply (proj1 (readable_rows _) Hl)|exact Hread].
  - eapply grown_contents; [exact Hr|done|done|]. cbn [sr_tables with_tables]. rewrite Hpay.
    destruct (payloads (sr_tables r) !! al_o line) eqn:E; [done|]. by apply insert_subseteq.
Qed.

Lemma rebuild_kept fs id db st due r : kept id (db, st, due) → ad_sessions db !! id = Some r →
  purged_at (sr_columns r) = None →
  (∀ lines l, due !! id = Some lines → l ∈ lines → is_Some (t_events (sr_tables r) !! al_o l)) →
  let x := ((rebuild_session fs id db).1, st, delete id due) in
  kept id x ∧ contents id (db, st, due) ⊆ contents id x.
Proof.
  intros Hk Hr Hp Hall x. pose proof (kept_self _ _ _ _ _ Hk Hr) as Hrow.
  destruct (rebuild_shape fs id db r Hr) as (d & links & E). unfold x. rewrite E. clear x E.
  set (r' := with_timeline d r).
  assert (Hr' : ad_sessions (set_session id r' (set_links links db)) !! id = Some r') by (cbn; apply lookup_insert_eq).
  assert (Hd' : delete id due !! id = None) by apply lookup_delete_eq.
  rewrite (contents_live id _ st _ r' Hr' Hd' Hp). destruct (due !! id) as [lines|] eqn:Hdue.
  - destruct Hrow as [Hl Hkey _ Hd _]. destruct (Hd lines eq_refl) as (_ & Hobj & Hag).
    assert (Hsub : payload_map lines ⊆ payloads (sr_tables r)).
    { apply map_subseteq_spec. intros o v Hv. pose proof Hv as (l & Hin & Eo & _)%payload_map_lookup; [|apply Hobj].
      destruct (Hall lines l eq_refl Hin) as [row Hrow]. rewrite Eo in Hrow.
      assert (payloads (sr_tables r) !! o = Some (er_payload row)) as Hrow' by (unfold payloads; by rewrite lookup_fmap, Hrow).
      by rewrite (Hag o v _ Hv Hrow'). }
    split.
    + apply kept_here. rewrite Hd'. split; try done.
      * intros _ _ n _ En. change (sr_columns r') with (sr_columns r) in *. rewrite (so_events _ _ _ Hobj) in En.
        injection En as <-. pose proof (payload_map_size lines (so_offsets _ _ _ Hobj)) as Hsz.
        assert (Hc : event_count r' = Z.of_nat (size (payloads (sr_tables r)))).
        { unfold event_count, payloads. cbn. by rewrite map_size_fmap. }
        rewrite Hc. split.
        -- rewrite <-Hsz. apply inj_le. rewrite <-!size_dom. by apply subseteq_size, subseteq_dom.
        -- intros En%Nat2Z.inj. exists lines. split; [done|].
           change (sr_tables r') with (sr_tables r). apply map_subseteq_size_eq; [done|lia].
      * change (sr_columns r') with (sr_columns r). rewrite Hp. intros Hs. by apply is_Some_None in Hs.
    + rewrite (contents_due id db st due r lines) by done. apply map_union_least; [exact Hsub|done].
  - split; [|by rewrite (contents_live id db st due r Hr Hdue Hp)].
    apply kept_here. rewrite Hd'. apply (grown_live st id r); [done|done|done|done|exact (k_lines _ _ _ _ Hrow)].
Qed.

(** *** Every step *)

Theorem kept_step_ok id x x' : kept id x → kept_step id x x' → kept id x' ∧ contents id x ⊆ contents id x'.
Proof.
  intros Hk Hstep. destruct Hstep as [s due a s' Hact Hfol Hund].
  destruct Hact as [db st id' r Hn Hnew|db st id' r t d Hr Hp Hsub Hread Hfit|db st links ptys repos versions
    |db st key bytes meta Hkey|db st seen now days id' r el Hr Hel|db st now id' db' out Hpu|db st id' r key lines Hrest
    |db st id' r env stats ctx line st1 Hr Hp Hrep|db st fs id' r Hr Hp]; cbn [note fst snd follows undisturbed] in *.
  - destruct (decide (id' = id)) as [->|Hne]; [by apply created_kept|].
    apply kept_elsewhere; [done|by apply other_session|done|done].
  - destruct (decide (id' = id)) as [->|Hne].
    + apply written_kept; try done. intros lines Hdue. exact (Hund eq_refl lines _ Hdue (lookup_insert_eq _ _ _)).
    + apply kept_elsewhere; [done|by apply other_session|done|done].
  - by apply kept_elsewhere.
  - apply kept_elsewhere; [done|done|done|]. intros r Hr. by eapply dump_object.
  - by eapply export_kept.
  - by eapply purge_kept.
  - destruct (decide (id' = id)) as [->|Hne]; [by eapply clear_kept|].
    apply kept_elsewhere; [done|cbn; by rewrite lookup_insert_ne|by rewrite lookup_insert_ne|done].
  - destruct (decide (id' = id)) as [->|Hne].
    + destruct Hfol as (lines & Hdue & Hin). by eapply replay_kept.
    + apply kept_elsewhere; [done|by apply other_session|done|done].
  - destruct (decide (id' = id)) as [->|Hne].
    + eapply rebuild_kept; try done. intros lines l Hdue Hin. by eapply Hfol.
    + destruct (rebuild_shape fs id' db r Hr) as (d & links & ->).
      apply kept_elsewhere; [done|cbn; by rewrite lookup_insert_ne|by rewrite lookup_delete_ne|done].
Qed.

Lemma kept_history id x x' : kept id x → rtc (kept_step id) x x' → kept id x' ∧ contents id x ⊆ contents id x'.
Proof.
  intros Hk Hsteps. induction Hsteps as [x|x1 x2 x3 Hstep Hsteps IH]; [done|].
  destruct (kept_step_ok _ _ _ Hk Hstep) as [Hk2 Hsub]. destruct (IH Hk2) as [Hk3 Hsub2].
  split; [done|]. by etransitivity.
Qed.

(** A history of one session is one of the archive. *)
Lemma kept_steps id x x' : rtc (kept_step id) x x' → rtc archive_step x.1 x'.1.
Proof.
  intros Hsteps. induction Hsteps as [x|x1 x2 x3 Hstep Hsteps IH]; [done|].
  eapply rtc_l; [|exact IH]. destruct Hstep as [s due a s' Hact _ _]. by exists a.
Qed.
(** *** A restore as its steps *)

Lemma with_tables_same r : with_tables (sr_tables r) r = r.
Proof. by destruct r. Qed.

Lemma replay_run id db st due r env lines ls (st0 st1 : ReplayState) res :
  due !! id = Some lines → (∀ l, l ∈ ls → l ∈ lines) → purged_at (sr_columns r) = None →
  commit_each (replay_line env) (replay_of <$> ls) st0 = (st1, res) →
  rtc (kept_step id) (set_session id (with_tables st0.2 r) db, st, due)
    (set_session id (with_tables st1.2 r) db, st, due).
Proof.
  intros Hdue Hin Hp. revert st0. induction ls as [|l ls IH]; intros st0; cbn; [by intros [= <- _]|].
  destruct st0 as [[stats ctx] t]. destruct (replay_line env (stats, ctx, t) (replay_of l)) as [st2|e] eqn:E;
    [|by intros [= <- _]].
  intros Hrun. eapply rtc_l; [|apply (IH ltac:(intros; apply Hin; by right) st2 Hrun)].
  set (r0 := with_tables t r). set (db0 := set_session id r0 db).
  assert (set_session id (with_tables st2.2 r) db = set_session id (with_tables st2.2 r0) db0) as ->.
  { unfold set_session, db0, r0. cbn. by rewrite insert_insert_eq. }
  apply (kept_act id (db0, st) due (AReplay id l)); [|exists lines; split; [done|apply Hin; by left]|done].
  eapply act_replay; [cbn; apply lookup_insert_eq|done|exact E].
Qed.

Lemma commit_each_payloads env ls (st0 st1 : ReplayState) : Forall readable ls →
  commit_each (replay_line env) (replay_of <$> ls) st0 = (st1, Ok tt) →
  payloads st0.2 ⊆ payloads st1.2 ∧ ∀ l, l ∈ ls → is_Some (payloads st1.2 !! al_o l).
Proof.
  intros Hr. revert st0. induction Hr as [|l ls Hl Hr IH]; intros st0; cbn.
  - intros [= <-]. split; [done|by intros l ?%elem_of_nil].
  - destruct st0 as [[stats ctx] t]. destruct (replay_line env (stats, ctx, t) (replay_of l)) as [st2|e] eqn:E; [|done].
    intros Hrun. destruct (IH st2 Hrun) as [Hsub Hall]. pose proof (replay_line_payload _ _ _ _ _ _ Hl E) as Hpay.
    assert (payloads t ⊆ payloads st2.2 ∧ is_Some (payloads st2.2 !! al_o l)) as [Hsub0 [v Hv]].
    { rewrite Hpay. destruct (payloads t !! al_o l) eqn:Eo; [by rewrite Eo|].
      split; [by apply insert_subseteq|]. by rewrite lookup_insert_eq. }
    cbn [snd]. split; [by etransitivity|]. intros l' [->|Hin]%elem_of_cons; [|by apply Hall].
    exists v. by eapply lookup_weaken.
Qed.

(** A restore that stops after some of its lines. *)
Lemma interrupted_run id db st due r key lines env stats ctx n (st1 : ReplayState) res :
  restorable id db st = Ok (r, key, lines) →
  let r0 := cleared_session id r in
  commit_each (replay_line env) (replay_of <$> take n lines) (stats, ctx, sr_tables r0) = (st1, res) →
  rtc (kept_step id) (db, st, due)
    (set_session id (with_tables st1.2 r0) (withdraw_and_clear id r db).2, st, <[id := lines]> due).
Proof.
  intros Hrest r0 Hrun. set (db1 := (withdraw_and_clear id r db).2).
  assert (Hr1 : ad_sessions db1 !! id = Some r0) by apply lookup_insert_eq.
  eapply rtc_l.
  - apply (kept_act id (db, st) due (AClear id lines) (db1, st)); [by eapply act_clear|done|done].
  - pose proof (replay_run id db1 st (<[id := lines]> due) r0 env lines (take n lines) (stats, ctx, sr_tables r0)
      st1 res (lookup_insert_eq _ _ _)) as H'.
    specialize (H' ltac:(intros l Hin; apply elem_of_take in Hin as (i & Hi & _); by eapply list_elem_of_lookup_2) eq_refl Hrun).
    cbn [snd] in H'. by rewrite with_tables_same, (set_session_same _ _ _ Hr1) in H'.
Qed.

(** Whatever becomes of it, a restore is steps of a history; one that succeeds
    is no longer under way. *)
Lemma restore_run fs now sw id purge_after st db due db' res : kept id (db, st, due) →
  restore_session fs now sw id purge_after st db = (db', res) →
  ∃ due', rtc (kept_step id) (db, st, due) (db', st, due') ∧ (is_ok res = true → due' !! id = None).
Proof.
  intros Hk. unfold Archive.restore_session. destruct (restorable id db st) as [[[r key] lines]|e] eqn:Hrest.
  2:{ intros [= <- <-]. by exists due. }
  destruct (withdraw_and_clear id r db) as [before db1] eqn:Ewc.
  assert (Hclear : kept_step id (db, st, due) (db1, st, <[id := lines]> due)).
  { replace db1 with (withdraw_and_clear id r db).2 by by rewrite Ewc.
    apply (kept_act id (db, st) due (AClear id lines)); [by eapply act_clear|done|done]. }
  destruct (kept_step_ok _ _ _ Hk Hclear) as [Hk1 _].
  assert (Hr1 : ad_sessions db1 !! id = Some (cleared_session id r)).
  { injection Ewc as _ <-. cbn. apply lookup_insert_eq. }
  pose proof (kept_self _ _ _ _ _ Hk1 Hr1) as Hrow. rewrite lookup_insert_eq in Hrow.
  destruct (k_due _ _ _ _ Hrow lines eq_refl) as (_ & Hobj & _).
  set (r0 := cleared_session id r) in *. unfold Archive.replay_session. rewrite Hr1.
  destruct (commit_each _ _ _) as [st1 ended] eqn:Erun.
  pose proof (replay_run id db1 st (<[id := lines]> due) r0 _ lines lines _ _ _ (lookup_insert_eq _ _ _)
    (λ _ H, H) eq_refl Erun) as Hsteps. cbn [snd] in Hsteps.
  rewrite with_tables_same, (set_session_same _ _ _ Hr1) in Hsteps.
  destruct ended as [[]|e].
  2:{ intros [= <- <-]. exists (<[id := lines]> due). split; [by eapply rtc_l|done]. }
  set (db2 := set_session id (with_tables st1.2 r0) db1) in *.
  assert (Hr2 : ad_sessions db2 !! id = Some (with_tables st1.2 r0)) by (cbn; apply lookup_insert_eq).
  destruct (rebuild_session fs id db2) as [db3 turns] eqn:Ereb.
  assert (Hreb : kept_step id (db2, st, <[id := lines]> due) (db3, st, delete id (<[id := lines]> due))).
  { replace db3 with (rebuild_session fs id db2).1 by by rewrite Ereb.
    apply (kept_act id (db2, st) _ (ARebuild id)); [by eapply act_rebuild| |done].
    intros lines' r' l. rewrite lookup_insert_eq. cbn [fst]. rewrite Hr2. intros [= <-] [= <-] Hin.
    apply commit_each_payloads in Erun as [_ Hall]; [|apply Hobj]. destruct (Hall l Hin) as [v Hv].
    unfold payloads in Hv. rewrite lookup_fmap in Hv. cbn. by destruct (t_events st1.2 !! al_o l). }
  assert (Hall : rtc (kept_step id) (db, st, due) (db3, st, delete id (<[id := lines]> due))).
  { eapply rtc_l; [exact Hclear|]. eapply rtc_r; [exact Hsteps|exact Hreb]. }
  destruct turns as [turns|e]; cbn [mbind res_bind].
  2:{ intros [= <- <-]. eexists. split; [exact Hall|done]. }
  destruct purge_after.
  - destruct (purge_session now id db3) as [[db4 out]|e] eqn:Epu; intros [= <- <-].
    + eexists. split; [|intros _; apply lookup_delete_eq]. eapply rtc_r; [exact Hall|].
      apply (kept_act id (db3, st) _ (APurge id)); [by eapply act_purge|done|]. intros _. apply lookup_delete_eq.
    + eexists. split; [exact Hall|done].
  - intros [= <- <-]. eexists. split; [exact Hall|intros _; apply lookup_delete_eq].
Qed.
End steps.
