(* ===== verification/ArchiveExample.v ===== *)
(** * A concrete archive

    The crates and the metadata file instantiated by concrete functions that
    keep their laws, and a session that is exported, purged and restored with
    them. *)

From Stdlib Require Import String.
From S2P Require Import Prelude Text Json Ingester NodeWire PtySessions CodeMode Lineage Usage ModelSwitch Metadata Activity Canonical Events EventStore LineageInv RepairInv Runtime Render FileTouches Reducer ReducerSpec Store Projection Commit Sessions TranscriptGuarantees ArchiveObjects Archive ArchiveInv.

(** ** Values as trees *)

Abbreviation tree := (gen_tree (string + Z)).

Fixpoint value_tree (v : Value) : tree :=
  match v with
  | Null => GenNode 0 []
  | Bool b => GenNode (if b then 1 else 2) []
  | Number (PosInt n) => GenNode 3 [GenLeaf (inr n)]
  | Number (NegInt p) => GenNode 4 [GenLeaf (inr (Zpos p))]
  | Number (Float z) => GenNode 5 [GenLeaf (inr z)]
  | Str s => GenLeaf (inl s)
  | Array l => GenNode 6 (value_tree <$> l)
  | Object m => GenNode 7 ((λ f, GenNode 8 [GenLeaf (inl f.1); value_tree f.2]) <$> m)
  end.

Fixpoint tree_value (t : tree) : Value :=
  match t with
  | GenLeaf (inl s) => Str s
  | GenNode 1 [] => Bool true
  | GenNode 2 [] => Bool false
  | GenNode 3 [GenLeaf (inr n)] => Number (PosInt n)
  | GenNode 4 [GenLeaf (inr (Zpos p))] => Number (NegInt p)
  | GenNode 5 [GenLeaf (inr z)] => Number (Float z)
  | GenNode 6 l => Array (tree_value <$> l)
  | GenNode 7 l =>
      Object ((λ t, match t with GenNode 8 [GenLeaf (inl k); v] => (k, tree_value v) | _ => ("", Null) end) <$> l)
  | _ => Null
  end.

Lemma tree_value_tree : ∀ v, tree_value (value_tree v) = v.
Proof.
  fix IH 1. intros [|b|[n|p|z]|s|l|m]; [done|by destruct b|done..| |]; cbn; f_equal.
  - induction l as [|v l IHl]; [done|]. cbn. by rewrite IH, IHl.
  - induction m as [|[k v] m IHm]; [done|]. cbn. by rewrite IH, IHm.
Qed.

(** ** Codes *)

Fixpoint bits (p : positive) : octets :=
  match p with
  | xH => ["1"%char]
  | xO p => "0"%char :: bits p
  | xI p => "1"%char :: bits p
  end.

Fixpoint of_bits (l : octets) : option positive :=
  match l with
  | [] => None
  | [c] => if bool_decide (c = "1"%char) then Some xH else None
  | c :: l => (if bool_decide (c = "1"%char) then xI else xO) <$> of_bits l
  end.

Lemma of_bits_bits p : of_bits (bits p) = Some p.
Proof.
  induction p as [p IH|p IH|]; [| |done]; cbn; rewrite IH; by destruct p.
Qed.

Lemma bits_digits p c : c ∈ bits p → c = "0"%char ∨ c = "1"%char.
Proof. induction p; cbn; set_solver. Qed.

Definition code {X} `{Countable X} (x : X) : octets := bits (countable.encode x).
Definition uncode {X} `{Countable X} (l : octets) : option X := of_bits l ≫= countable.decode.

Lemma uncode_code {X} `{Countable X} (x : X) : uncode (code x) = Some x.
Proof. unfold uncode, code. rewrite of_bits_bits. apply countable.decode_encode. Qed.

Lemma code_digits {X} `{Countable X} (x : X) c : c ∈ code x → c = "0"%char ∨ c = "1"%char.
Proof. apply bits_digits. Qed.

Lemma code_visible {X} `{Countable X} (x : X) : forallb is_ascii_whitespace (code x) = false.
Proof. unfold code. by destruct (countable.encode x). Qed.

Definition code_text {X} `{Countable X} (x : X) : string := String.string_of_list_ascii (code x).
Definition uncode_text {X} `{Countable X} (s : string) : option X := uncode (String.list_ascii_of_string s).

Lemma uncode_code_text {X} `{Countable X} (x : X) : uncode_text (code_text x) = Some x.
Proof.
  unfold uncode_text, code_text. rewrite String.list_ascii_of_string_of_list_ascii. apply uncode_code.
Qed.

(** ** The instances *)

#[export] Instance demo_archiver : Archiver := {|
  struct_text fields := code (value_tree (json_object fields));
  value_text v := code (value_tree v);
  read_json l := tree_value <$> uncode l;
  compress := reverse;
  decompress l := Some (reverse l);
  sha256 l := [Z.of_nat (List.length l) mod 256];
  rfc3339 := code_text;
  parse_datetime := uncode_text;
  month_text _ := "2026/01";
|}.

#[export] Instance demo_archiver_laws : ArchiverLaws demo_archiver.
Proof.
  split; cbn -[reverse code uncode value_tree tree_value code_text uncode_text]; intros.
  - rewrite uncode_code. cbn -[value_tree tree_value]. by rewrite tree_value_tree.
  - rewrite uncode_code. cbn -[value_tree tree_value]. by rewrite tree_value_tree.
  - by intros [|]%code_digits.
  - apply code_visible.
  - apply code_visible.
  - by rewrite reverse_involutive.
  - apply uncode_code_text.
Qed.

#[export] Instance demo_uuid_text : UuidText := {| uuid_text := λ id : N, code_text id |}.

#[export] Instance demo_uuid_laws : UuidTextLaws.
Proof.
  split.
  - intros id id' E. apply (f_equal (uncode_text (X := N))) in E. unfold uuid_text, demo_uuid_text in E. rewrite !uncode_code_text in E. by injection E.
  - intros id. unfold uuid_text, demo_uuid_text, code_text. rewrite String.list_ascii_of_string_of_list_ascii.
    by intros [|]%code_digits.
Qed.

#[export] Instance demo_meta_text : MetaText := {| meta_text := code; read_meta := uncode |}.

#[export] Instance demo_meta_laws : MetaTextLaws demo_meta_text.
Proof. split. intros m. apply uncode_code. Qed.

Definition demo_parse_uuid : string → option Uuid := uncode_text.

(** ** A session *)

Definition arch_prompt : Value :=
  json_object [("type", Str "user"); ("uuid", Str "u1");
    ("message", json_object [("role", Str "user"); ("content", Str "fix it")])].

Definition arch_answer : Value :=
  json_object [("type", Str "assistant"); ("uuid", Str "u2"); ("requestId", Str "r1");
    ("message", json_object
       [("role", Str "assistant"); ("id", Str "m1"); ("model", Str "opus");
        ("content", Array [json_object [("type", Str "text"); ("text", Str "done")];
           json_object [("type", Str "tool_use"); ("id", Str "t1"); ("name", Str "Write");
             ("input", json_object [("file_path", Str "/work/repo/a.txt"); ("content", Str "x")])]]);
        ("usage", json_object [("input_tokens", json_int 3); ("output_tokens", json_int 2)])])].

Definition arch_id : Uuid := 7%N.
Definition arch_now : Z := DAY_MICROS.

Abbreviation arch_uuid_text := (λ s, uuid_text <$> demo_parse_uuid s).

(** The tables after the lines at the given offsets. *)
Definition arch_env : LineEnv := replay_env arch_now "switch" arch_id "claude-code".

Definition arch_insert (o : Z) (v : Value) (s : option CodexSessionContext * SessionTables)
    : res (option CodexSessionContext * SessionTables) :=
  r ← insert_value demo_hash demo_json arch_uuid_text no_time arch_env o v s.1 s.2;
  Ok (r.1.2, r.2).

Definition arch_start : option CodexSessionContext * SessionTables :=
  (pass_context demo_json arch_env no_tables, no_tables).

Definition got {X} (d : X) (r : res X) : X := match r with Ok x => x | Err _ => d end.

Definition arch_one := got arch_start (arch_insert 0 arch_prompt arch_start).
Definition arch_two := got arch_start (arch_insert 100 arch_answer arch_one).

Definition arch_columns : ArchiveColumns := mkColumns None None None None None None.

Definition arch_row (t : SessionTables) (d : Db) : SessionRow :=
  mkSessionRow "claude-code" None None None (Some demo_context) arch_columns t d ∅ ∅ ∅ ∅.

Definition arch_db (r : SessionRow) : ArchiveDb :=
  mkArchiveDb {[arch_id := r]} ∅ ∅ [] (list_to_map projection_targets) ∅ ∅.

Definition no_rows : Db := mkDb None ∅ ∅ ∅ ∅ ∅ ∅.

Definition arch_view (t : SessionTables) (d : Db) : Session :=
  session_view demo_json demo_parse_uuid [] no_plans (arch_db (arch_row t d)) arch_id (arch_row t d).

(** The projector has applied both events. *)
Definition arch_fresh : Session := arch_view no_tables no_rows.

Definition arch_event (o : Z) : StoredEvent :=
  default (event_at o "user" []) (Projection.events (arch_view arch_two.2 no_rows) !! o).

Definition arch_waiting : Session := add_event (arch_event 100) (add_event (arch_event 0) arch_fresh).

Definition arch_projected : Session :=
  match project_batch demo_parse_uuid no_files arch_waiting 500 with Ok (s, _) => s | Err _ => arch_waiting end.

Definition arch_live : SessionRow := arch_row arch_two.2 (Projection.db arch_projected).

Definition arch_later : Z := 400 * DAY_MICROS.

Definition arch_eligible : EligibleSession :=
  default (mkEligible 0 "" 0 0 None None) (eligible arch_later 30 (arch_db arch_live) (arch_id, arch_live)).

Definition arch_export := export_session arch_later arch_eligible (arch_db arch_live) (∅ : Files).

Definition arch_out {X Y} (d : X) (r : res (X * Y)) : X := match r with Ok x => x.1 | Err _ => d end.

Definition arch_purged : ArchiveDb :=
  arch_out arch_export.1.1 (purge_session demo_hash demo_parse_uuid arch_later arch_id arch_export.1.1).

(** ** What the lines left *)

#[export] Instance readable_dec l : Decision (readable l).
Proof. unfold readable, in_i64. apply _. Defined.

Lemma arch_lines : Forall readable (session_lines arch_live).
Proof. apply (bool_decide_unpack _). vm_compute. done. Qed.

Lemma arch_fits : usage_fits (t_usage arch_two.2).
Proof.
  assert (map_Forall (λ _ row, fig_fits (Usage.md_tokens row) = true) (model_daily (t_usage arch_two.2))) as Hm;
    [|exact Hm].
  apply (bool_decide_unpack _). vm_compute. done.
Qed.

Local Abbreviation recorded := (recorded demo_hash demo_json arch_uuid_text no_time).

Lemma arch_inserted o v s ctx t :
  recorded (uuid_text arch_id) ClaudeCode s.1 s.2 → below o (t_events s.2) →
  arch_insert o v s = Ok (ctx, t) →
  (∃ r, insert_value demo_hash demo_json arch_uuid_text no_time arch_env o v s.1 s.2 = Ok (true, r, t)) →
  recorded (uuid_text arch_id) ClaudeCode ctx t.
Proof.
  unfold arch_insert. intros Hrec Hb Hins [r E]. rewrite E in Hins. injection Hins as <-.
  eapply (recorded_line _ _ _ _ _ _ arch_env); [exact Hrec|done|done|exact Hb|exact E].
Qed.

Lemma arch_recorded : recorded (uuid_text arch_id) ClaudeCode arch_two.1 arch_two.2.
Proof.
  assert (recorded (uuid_text arch_id) ClaudeCode arch_one.1 arch_one.2) as H1.
  { eapply (arch_inserted 0 arch_prompt arch_start).
    - apply (recorded_empty demo_hash demo_json arch_uuid_text no_time _ _ no_tables arch_now "switch"). by split.
    - intros k [x Hx]. apply (lookup_empty_Some k x) in Hx as [].
    - vm_compute. done.
    - eexists. vm_compute. done. }
  assert (map_Forall (λ k _, k < 100) (t_events arch_one.2)) as Hm.
  { apply (bool_decide_unpack _). vm_compute. done. }
  eapply (arch_inserted 100 arch_answer arch_one); [done| | |].
  - intros k [x Hx]. exact (Hm k x Hx).
  - vm_compute. done.
  - eexists. vm_compute. done.
Qed.

(** Every batch finds the same files. *)
Definition arch_seen (v : TouchView) : Prop := v.1 = no_files.

Lemma arch_reachable : reachable demo_parse_uuid arch_seen (arch_view arch_two.2 (Projection.db arch_projected)) ∅.
Proof.
  assert (arch_view arch_two.2 (Projection.db arch_projected) = arch_projected) as -> by (vm_compute; reflexivity).
  exists arch_fresh. split; [by split_and!; [| |exists ∅]|].
  eapply rtc_l; [apply (insert_ahead _ _ arch_fresh (arch_event 0)); vm_compute; done|].
  eapply rtc_l; [apply (insert_ahead _ _ (add_event (arch_event 0) arch_fresh) (arch_event 100)); vm_compute; done|].
  apply rtc_once. unfold arch_projected. fold arch_waiting.
  destruct (project_batch demo_parse_uuid no_files arch_waiting 500) as [[s o]|e] eqn:E.
  - by eapply (step_batch _ _ _ _ no_files 500).
  - exfalso. revert E. vm_compute. done.
Qed.

Lemma arch_in_cap : in_cap (arch_view arch_two.2 (Projection.db arch_projected)).
Proof. by vm_compute. Qed.

(** The archive before the session is exported. *)
Local Abbreviation kept_step :=
  (kept_step (S := Files) demo_hash demo_json demo_parse_uuid no_time [] no_plans arch_id).

Definition arch_empty : ArchiveDb := mkArchiveDb ∅ ∅ ∅ [] (list_to_map projection_targets) ∅ ∅.

Definition archive_start {X : Type} (s : ArchiveDb * X) : Prop :=
  ad_sessions s.1 = ∅ ∧ ad_rollup s.1 = ∅ ∧ ad_activity s.1 = ∅.

Lemma arch_written : rtc kept_step (arch_empty, ∅, ∅) (arch_db arch_live, ∅, ∅).
Proof.
  eapply rtc_l.
  { apply (kept_act _ _ _ _ _ _ _ (arch_empty, ∅) ∅ AOther); [|done|done].
    apply (act_created _ _ _ _ _ _ arch_empty ∅ arch_id (arch_row no_tables no_rows)); [done|by split_and!]. }
  eapply rtc_once.
  assert (arch_db arch_live = set_session arch_id
      (with_timeline (Projection.db arch_projected) (with_tables arch_two.2 (arch_row no_tables no_rows)))
      (set_session arch_id (arch_row no_tables no_rows) arch_empty)) as -> by (vm_compute; reflexivity).
  apply (kept_act _ _ _ _ _ _ _ (_, ∅) ∅ (AWrite arch_id)); [|done|by intros _ lines r' E].
  apply act_written; [done|done| |exact arch_lines|exact arch_fits].
  exact (map_empty_subseteq (payloads arch_two.2)).
Qed.

Lemma arch_exported : kept_step (arch_db arch_live, ∅, ∅) (arch_export.1, ∅).
Proof.
  apply (kept_act _ _ _ _ _ _ _ (_, ∅) ∅ (AExport arch_id) arch_export.1); [|exact I|intros _; apply lookup_empty].
  apply (act_export _ _ _ _ _ _ _ _ arch_later arch_later 30 arch_id arch_live); vm_compute; reflexivity.
Qed.

Lemma arch_purged_step : kept_step (arch_export.1, ∅) (arch_purged, arch_export.1.2, ∅).
Proof.
  assert (∃ out, purge_session demo_hash demo_parse_uuid arch_later arch_id arch_export.1.1 = Ok (arch_purged, out))
    as [out E] by (eexists; vm_compute; reflexivity).
  rewrite (surjective_pairing arch_export.1) at 1.
  apply (kept_act _ _ _ _ _ _ _ (_, _) ∅ (APurge arch_id) (arch_purged, arch_export.1.2)); [|exact I|intros _; apply lookup_empty].
  eapply act_purge. exact E.
Qed.

Lemma arch_purge_history : rtc kept_step (arch_db arch_live, ∅, ∅) (arch_purged, arch_export.1.2, ∅).
Proof. eapply rtc_l; [exact arch_exported|]. apply rtc_once. exact arch_purged_step. Qed.

Lemma arch_history : rtc kept_step (arch_empty, ∅, ∅) (arch_purged, arch_export.1.2, ∅).
Proof. etransitivity; [exact arch_written|exact arch_purge_history]. Qed.
