(* ===== verification/ArchiveGuarantees.v ===== *)
(** * What holds of the archive

    The guarantees of export, purge and restore, and concrete instances of
    the crates and the store on which they are run. *)

From Stdlib Require Import String.
From S2P Require Import Prelude Text Json Ingester NodeWire PtySessions CodeMode Lineage Usage ModelSwitch Metadata Activity Canonical Events EventStore LineageInv RepairInv Runtime Render FileTouches Reducer ReducerSpec Store Projection Commit Sessions TranscriptGuarantees ArchiveObjects Archive ArchiveInv ArchiveExample.

(** ** Totals *)



Section roundtrip.
Context (hash_text : string → string) (json_text : Value → string).
Context (parse_uuid : string → option Uuid) (parse_rfc3339 : string → option Z).
Context (rules : list CategoryRule).
Context (project : Value → option string → option OperationCategory →
                   Value * option string * option OperationCategory).
Context `{T : TreeSitter} `{J : SerdeText} `{U : UuidText} `{A : Archiver}.
Context `{HeapOrder OpDbRow} `{HeapOrder PtyRow} `{HeapOrder (string * string)}.
Context {S : Type} `{OS : ObjectStore S}.
Context `{AL : !ArchiverLaws A} {UL : UuidTextLaws} `{SL : !ObjectStoreLaws S is_object_key}.
Implicit Types st : S.

Local Abbreviation parse_uuid_text := (λ s, uuid_text <$> parse_uuid s).
Local Abbreviation purge_session := (purge_session hash_text parse_uuid).
Local Abbreviation replay_session :=
  (replay_session hash_text json_text parse_uuid parse_rfc3339 rules project).
Local Abbreviation restore_session :=
  (restore_session hash_text json_text parse_uuid parse_rfc3339 rules project).
Local Abbreviation recorded := (recorded hash_text json_text parse_uuid_text parse_rfc3339).
Local Abbreviation session_view := (session_view json_text parse_uuid rules project).
Local Abbreviation archive_step :=
  (archive_step hash_text json_text parse_uuid parse_rfc3339 rules project).
Local Abbreviation kept_step :=
  (kept_step hash_text json_text parse_uuid parse_rfc3339 rules project).
Implicit Types due : Due.







Lemma start_ok (s : ArchiveDb * S) : archive_start s → archive_ok s.
Proof.
  intros (Hs & Hu & Hc). split.
  - intros id r. by rewrite Hs.
  - intros k. rewrite Hu, Hs. unfold figure. by rewrite lookup_empty.
  - intros k. rewrite Hc, Hs. unfold figure. by rewrite lookup_empty.
Qed.



(** *** Histories *)


(** C31. The rollups are exact: from an empty database, in whatever order
    sessions are written, exported, purged and restored, wherever a restore
    stops, each figure of the two rollups is the sum of what the sessions
    have recorded as their own contribution, and only purged sessions have
    one. *)
Theorem rollups_exact s0 s : archive_start s0 → rtc archive_step s0 s →
  (∀ k, figure (ad_rollup s.1) k = total sr_usage k (ad_sessions s.1)) ∧
  (∀ k, figure (ad_activity s.1) k = total sr_churn k (ad_sessions s.1)) ∧
  (∀ id r, ad_sessions s.1 !! id = Some r → purged_at (sr_columns r) = None → sr_usage r = ∅ ∧ sr_churn r = ∅).
Proof.
  intros Hs0 H01. apply start_ok in Hs0.
  assert (Hok : archive_ok s) by (eapply archive_history; eassumption).
  split; [apply (ok_rollup _ Hok)|]. split; [apply (ok_activity _ Hok)|].
  intros id r Hr Hp. by destruct (ok_live _ (ok_rows _ Hok _ _ Hr) Hp).
Qed.
End roundtrip.

(** ** The concrete archive *)


(** *** A restore that stops after one line *)

Definition arch_lines_back : list ArchiveLine :=
  match restorable arch_id arch_purged arch_export.1.2 with Ok (_, _, lines) => lines | Err _ => [] end.

Definition arch_cleared : ArchiveDb :=
  match restorable arch_id arch_purged arch_export.1.2 with
  | Ok (r, _, _) => (withdraw_and_clear arch_id r arch_purged).2
  | Err _ => arch_purged
  end.

Definition arch_interrupted : option ArchiveDb :=
  r0 ← ad_sessions arch_cleared !! arch_id;
  let env := replay_env arch_later "again" arch_id (sr_agent r0) in
  let '(st, _) := commit_each (replay_line demo_hash demo_json arch_uuid_text read_json no_time env)
    (replay_of <$> take 1 arch_lines_back) (mkStats 0 0, pass_context demo_json env (sr_tables r0), sr_tables r0) in
  Some (set_session arch_id (with_tables st.2 r0) arch_cleared).

Local Abbreviation demo_step := (kept_step demo_hash demo_json demo_parse_uuid no_time [] no_plans arch_id).



Definition arch_end : ArchiveDb * Files := (arch_purged, arch_export.1.2).

Lemma rollups_exact_witness :
  figure (ad_rollup arch_end.1) (1, "", "claude-code", "opus") =
  total sr_usage (1, "", "claude-code", "opus") (ad_sessions arch_end.1).
Proof.
  destruct (rollups_exact demo_hash demo_json demo_parse_uuid no_time [] no_plans
    (arch_empty, ∅ : Files) arch_end) as [H _].
  - by split_and!.
  - exact (kept_steps _ _ _ _ _ _ _ _ _ arch_history).
  - exact (H (1, "", "claude-code", "opus")).
Defined.

(** ** An interrupted restore

    The restore commits its deletions, with [purged_at] back to null, before
    the first line is replayed. When the process stops after one line, the
    session is neither restorable nor complete, and the next cycle exports
    what is there over the object that held all of it. *)

Definition arch_overwritten : option (ArchiveDb * Files) :=
  db ← arch_interrupted;
  r ← ad_sessions db !! arch_id;
  el ← eligible arch_later 30 db (arch_id, r);
  match export_session arch_later el db arch_export.1.2 with (db, st, Ok _) => Some (db, st) | _ => None end.

Definition events_readable (s : ArchiveDb * Files) : nat := size (contents arch_id (s, ∅)).

(** The same object, by its key: first with two events, then with one. *)
Example interrupted_restore_overwrites :
  (events_readable (arch_purged, arch_export.1.2),
   (λ db, is_ok (restorable arch_id db arch_export.1.2)) <$> arch_interrupted,
   (λ s, (events_readable s, (λ key, is_some (arch_export.1.2 !! key))
            <$> (ad_sessions s.1 !! arch_id ≫= λ r, archive_key (sr_columns r)))) <$> arch_overwritten) =
  (2%nat, Some false, Some (1%nat, Some true)).
Proof. vm_compute. reflexivity. Qed.
