(* ===== verification/ArchiveLoop.v ===== *)
(** * The archive loop

    [archive/mod.rs], [archive/requests.rs] and [archive/dump.rs]: the requests
    the loop takes, the monthly cycle - dump, export, purge, prune - and the
    runs that restore or verify. Queries succeed; [pg_dump] and the start of a
    job are arguments. Theorems at the end: what a cycle may do, and that a
    request runs at most once. *)

From Stdlib Require Import String.
From S2P Require Import Prelude Text Json PlanCli Ingester NodeWire PtySessions CodeMode Lineage Usage ModelSwitch Metadata Activity Canonical Events EventStore LineageInv RepairInv Runtime Render FileTouches Reducer ReducerSpec Store Projection Commit Sessions TranscriptGuarantees ArchiveObjects Archive ArchiveInv ArchiveExample.

Definition is_nil {X} (l : list X) : bool := match l with [] => true | _ => false end.

(** The characters before the first [sep]. *)
Fixpoint before_char (sep : string) (l : list string) : list string :=
  match l with
  | [] => []
  | c :: l => if bool_decide (c = sep) then [] else c :: before_char sep l
  end.

(** ** Requests *)

Record RestoreScope : Type := mkScope {
  sc_session : option Uuid;
  sc_month : option string;
  sc_repo : option string;
  sc_all : bool;
  sc_purge_after : bool;
}.

Definition scope_default : RestoreScope := mkScope None None None false false.

Definition scope_is_empty (s : RestoreScope) : bool :=
  is_none (sc_session s) && is_none (sc_month s) && is_none (sc_repo s) && negb (sc_all s).

Section scopes.
Context `{U : UuidText} (parse_uuid : string → option Uuid).

(** [Serialize]: an absent option is skipped. *)
Definition scope_value (s : RestoreScope) : Value :=
  json_object (match sc_session s with Some id => [("session_uuid", Str (uuid_text id))] | None => [] end
    ++ match sc_month s with Some m => [("month", Str m)] | None => [] end
    ++ match sc_repo s with Some r => [("repo", Str r)] | None => [] end
    ++ [("all", Bool (sc_all s)); ("purge_after", Bool (sc_purge_after s))]).

(** [serde(default)] of an option: absent or null is none. *)
Definition optional_field {X} (read : string → option X) (v : option Value) : option (option X) :=
  match v with
  | None | Some Null => Some None
  | Some (Str s) => Some <$> read s
  | Some _ => None
  end.

(** [serde(default)] of a flag. *)
Definition flag_field (v : option Value) : option bool :=
  match v with
  | None => Some false
  | Some (Bool b) => Some b
  | Some _ => None
  end.

Definition scope_of_value (v : Value) : option RestoreScope :=
  match v with
  | Object _ =>
      session ← optional_field parse_uuid (get v "session_uuid");
      month ← optional_field Some (get v "month");
      repo ← optional_field Some (get v "repo");
      all ← flag_field (get v "all");
      purge_after ← flag_field (get v "purge_after");
      Some (mkScope session month repo all purge_after)
  | _ => None
  end.
End scopes.

Inductive RequestStatus : Type := RqPending | RqRunning | RqCompleted | RqFailed.

#[export] Instance request_status_eq_dec : EqDecision RequestStatus.
Proof. solve_decision. Defined.

Record ArchiveRequest : Type := mkRequest {
  rq_kind : string;
  rq_scope : Value;
  rq_status : RequestStatus;
  rq_requested_by : option string;
  rq_requested_at : Z;
  rq_started_at : option Z;
  rq_finished_at : option Z;
  rq_error : option string;
  rq_result : option Value;
  rq_job : option Z;
}.

(** [archive_requests] and its sequence. *)
Record Requests : Type := mkRequests {
  rs_rows : gmap Z ArchiveRequest;
  rs_next : Z;
}.

Definition no_requests : Requests := mkRequests ∅ 1.

Definition set_row (id : Z) (r : ArchiveRequest) (s : Requests) : Requests :=
  mkRequests (<[id := r]> (rs_rows s)) (rs_next s).

Definition insert_request (kind : string) (scope : Value) (by_ : option string) (now : Z) (s : Requests) : Requests :=
  mkRequests (<[rs_next s := mkRequest kind scope RqPending by_ now None None None None None]> (rs_rows s))
    (rs_next s + 1).

Definition enqueue_run (dry_run : bool) : option string → Z → Requests → Requests :=
  insert_request "run" (json_object [("dry_run", Bool dry_run)]).

Definition enqueue_verify (deep : bool) : option string → Z → Requests → Requests :=
  insert_request "verify" (json_object [("deep", Bool deep)]).

Definition is_open_request (r : ArchiveRequest) : bool :=
  bool_decide (rq_status r = RqPending) || bool_decide (rq_status r = RqRunning).

Section enqueue.
Context `{U : UuidText}.

Definition enqueue_restore (scope : RestoreScope) (by_ : option string) (now : Z) (s : Requests) : res Requests :=
  if scope_is_empty scope then bail "restore needs a session, month, repo, or --all"
  else Ok (insert_request "restore" (scope_value scope) by_ now s).

(** [scope ->> 'session_uuid'] of a string. *)
Definition restores (id : Uuid) (r : ArchiveRequest) : bool :=
  bool_decide (rq_kind r = "restore") && is_open_request r
  && bool_decide (get (rq_scope r) "session_uuid" ≫= as_str = Some (uuid_text id)).

Definition enqueue_restore_if_absent (id : Uuid) (by_ : string) (now : Z) (s : Requests) : res (bool * Requests) :=
  if existsb (λ r, restores id r.2) (map_to_list (rs_rows s)) then Ok (false, s)
  else s ← enqueue_restore (mkScope (Some id) None None false false) (Some by_) now s; Ok (true, s).
End enqueue.

(** [ORDER BY requested_at, id] *)
Definition earlier (a b : Z * ArchiveRequest) : Prop :=
  rq_requested_at a.2 < rq_requested_at b.2 ∨ (rq_requested_at a.2 = rq_requested_at b.2 ∧ a.1 ≤ b.1).

#[export] Instance earlier_dec a b : Decision (earlier a b).
Proof. unfold earlier. apply _. Defined.

Definition with_status (st : RequestStatus) (started finished : option Z) (error : option string)
    (result : option Value) (r : ArchiveRequest) : ArchiveRequest :=
  mkRequest (rq_kind r) (rq_scope r) st (rq_requested_by r) (rq_requested_at r) started finished error result (rq_job r).

Definition pending_requests (s : Requests) : list (Z * ArchiveRequest) :=
  merge_sort earlier (List.filter (λ r, bool_decide (rq_status r.2 = RqPending)) (map_to_list (rs_rows s))).

Definition next_pending (now : Z) (s : Requests) : option (Z * ArchiveRequest) * Requests :=
  match pending_requests s with
  | [] => (None, s)
  | (id, r) :: _ =>
      let r := with_status RqRunning (Some now) (rq_finished_at r) (rq_error r) (rq_result r) r in
      (Some (id, r), set_row id r s)
  end.

Definition update_request (id : Z) (f : ArchiveRequest → ArchiveRequest) (s : Requests) : Requests :=
  mkRequests (alter f id (rs_rows s)) (rs_next s).

Definition attach_job (id job : Z) : Requests → Requests :=
  update_request id (λ r, mkRequest (rq_kind r) (rq_scope r) (rq_status r) (rq_requested_by r) (rq_requested_at r)
    (rq_started_at r) (rq_finished_at r) (rq_error r) (rq_result r) (Some job)).

Definition finish (id : Z) (result : Value + string) (now : Z) : Requests → Requests :=
  update_request id (λ r, match result with
    | inl v => with_status RqCompleted (rq_started_at r) (Some now) None (Some v) r
    | inr message => with_status RqFailed (rq_started_at r) (Some now) (Some message) None r
    end).

Definition fail_stale_running (now : Z) (s : Requests) : Requests :=
  mkRequests ((λ r, if bool_decide (rq_status r = RqRunning)
                    then with_status RqFailed (rq_started_at r) (Some now) (Some "interrupted by control restart") (rq_result r) r
                    else r) <$> rs_rows s) (rs_next s).

(** ** State *)

Record ArchiveConfig : Type := mkConfig {
  cfg_store : string;
  cfg_min_idle_days : Z;
  cfg_purge_after_days : Z;
  cfg_interval_days : Z;
  cfg_purge_enabled : bool;
  cfg_dump_enabled : bool;
}.

(** The row of [archive_state]. *)
Record ArchiveState : Type := mkState {
  as_cycle_started : option Z;
  as_cycle_completed : option Z;
  as_dump_key : option string;
  as_dump_at : option Z;
  as_purge_enabled : bool;
  as_purge_enabled_at : option Z;
  as_store : option string;
  as_loop_started : option Z;
}.

(** A row of [retrieval_embedding_backfills]. *)
Record Backfill : Type := mkBackfill {
  bf_status : string;
  bf_finished_at : option Z;
  bf_updated_at : Z;
}.

(** The tables of the loop; [lp_jobs] holds when each job finished. *)
Record LoopDb : Type := mkLoop {
  lp_archive : ArchiveDb;
  lp_state : ArchiveState;
  lp_requests : Requests;
  lp_backfills : gmap Z Backfill;
  lp_jobs : gmap Z (option Z);
}.

Definition set_archive (a : ArchiveDb) (s : LoopDb) : LoopDb :=
  mkLoop a (lp_state s) (lp_requests s) (lp_backfills s) (lp_jobs s).
Definition set_state (a : ArchiveState) (s : LoopDb) : LoopDb :=
  mkLoop (lp_archive s) a (lp_requests s) (lp_backfills s) (lp_jobs s).
Definition set_requests (r : Requests) (s : LoopDb) : LoopDb :=
  mkLoop (lp_archive s) (lp_state s) r (lp_backfills s) (lp_jobs s).

Definition set_clock (started completed : option Z) (a : ArchiveState) : ArchiveState :=
  mkState started completed (as_dump_key a) (as_dump_at a) (as_purge_enabled a) (as_purge_enabled_at a)
    (as_store a) (as_loop_started a).

Definition record_store (cfg : ArchiveConfig) (now : Z) (a : ArchiveState) : ArchiveState :=
  mkState (as_cycle_started a) (as_cycle_completed a) (as_dump_key a) (as_dump_at a) (cfg_purge_enabled cfg)
    (if cfg_purge_enabled cfg then or_else (as_purge_enabled_at a) (Some now) else as_purge_enabled_at a)
    (Some (cfg_store cfg)) (Some now).

Definition FAILED_CYCLE_BACKOFF : Z := 3600 * 1000000.

(** [chrono::Duration::days] panics beyond [i64::MAX] milliseconds. *)
Definition duration_days (days : Z) : res Z :=
  if Z.abs days * 86400000 <=? i64_max then Ok (days * DAY_MICROS) else panic "Duration::days out of bounds".

Definition cycle_due (cfg : ArchiveConfig) (now : Z) (a : ArchiveState) : res bool :=
  interval ← duration_days (cfg_interval_days cfg);
  let completed_recently := match as_cycle_completed a with Some at_ => now - at_ <? interval | None => false end in
  let failed_recently :=
    match as_cycle_started a with
    | Some started =>
        match as_cycle_completed a with Some done => done <? started | None => true end
        && (now - started <? FAILED_CYCLE_BACKOFF)
    | None => false
    end in
  Ok (negb completed_recently && negb failed_recently).

(** ** The dump *)

Definition EXCLUDED_TABLES : list string :=
  ["events"; "event_blocks"; "timeline_turns"; "timeline_operations"; "timeline_file_touches"; "timeline_items";
   "timeline_message_usage"; "timeline_child_links"; "retrieval_embeddings"; "retrieval_embedding_sources";
   "retrieval_embedding_backfills"; "code_roots"; "code_files"; "code_symbols"; "code_references"; "code_imports";
   "code_index_jobs"].

Definition dump_arguments (file db_url : string) : list string :=
  ["--format=custom"; "--no-owner"; "--no-privileges"; "--compress=6"; "--file"; file; "--dbname"; db_url]
  ++ (EXCLUDED_TABLES ≫= λ t, ["--exclude-table"; "public." +:+ t]).

Definition dump_key (stamp : string) : string := "db/sulion-durable-" +:+ stamp +:+ ".dump".

Definition dump_metadata (bytes : Z) : gmap string string :=
  list_to_map [("format", "pg_dump-custom"); ("bytes", pretty bytes)].

(** [dump_durable_tables]; [dumped] is the file [pg_dump] leaves. *)
Definition dump_durable_tables {S : Type} `{ObjectStore S} (stamp : string) (dumped : res octets) (st : S)
    : S * res (string * Z) :=
  match dumped with
  | Err e => (st, Err e)
  | Ok file =>
      let bytes := byte_count file in
      if bytes =? 0 then (st, bail "pg_dump produced an empty dump")
      else
        let key := dump_key stamp in
        let '(st, put) := put_file key file (dump_metadata bytes) st in
        (st, _ ← put;
             head ← head_object key st;
             head ← ok_or head (key +:+ " is absent after upload");
             if negb (content_length head =? bytes) then bail (key +:+ ": stored size differs from the upload")
             else Ok (key, bytes))
  end.

(** ** The cycle *)

Record CycleOutcome : Type := mkCycle {
  cy_dry_run : bool;
  cy_purge_enabled : bool;
  cy_deferred : list string;
  cy_dump_key : option string;
  cy_dump_bytes : Z;
  cy_exported : Z;
  cy_export_failures : Z;
  cy_exported_bytes : Z;
  cy_purged : Z;
  cy_purge_failures : Z;
  cy_events_deleted : Z;
  cy_backfills_pruned : Z;
  cy_jobs_pruned : Z;
  cy_eligible_export : Z;
  cy_eligible_purge : Z;
}.

(** When each statement of a cycle ran. *)
Record Clock : Type := mkClock {
  at_select : Z;
  at_dump : Z;
  at_export : Uuid → Z;
  at_candidates : Z;
  at_purge : Uuid → Z;
  at_prune : Z;
  at_done : Z;
}.

(** What the exports, and the purges, of a cycle add to its outcome. *)
Record Tally : Type := mkTally {
  ty_done : Z;
  ty_failed : Z;
  ty_amount : Z;
}.

Definition no_tally : Tally := mkTally 0 0 0.
Definition tally_ok (n : Z) (t : Tally) : Tally := mkTally (ty_done t + 1) (ty_failed t) (ty_amount t + n).
Definition tally_err (t : Tally) : Tally := mkTally (ty_done t) (ty_failed t + 1) (ty_amount t).

(** [INTERVAL '... days'] *)
Definition days (n : Z) : Z := n * DAY_MICROS.

Definition prunable_backfill (now : Z) (b : Backfill) : bool :=
  bool_decide (bf_status b ∈ ["complete"; "failed"; "cancelled"])
  && (default (bf_updated_at b) (bf_finished_at b) <? now - days 30).

Definition prunable_job (now : Z) (finished : option Z) : bool :=
  match finished with Some at_ => at_ <? now - days 90 | None => false end.

Definition prune_operational_rows (now : Z) (s : LoopDb) : LoopDb * (Z * Z) :=
  let b := filter (λ r, prunable_backfill now r.2 = false) (lp_backfills s) in
  let j := filter (λ r, prunable_job now r.2 = false) (lp_jobs s) in
  (mkLoop (lp_archive s) (lp_state s) (lp_requests s) b j,
   (row_count (lp_backfills s) - row_count b, row_count (lp_jobs s) - row_count j)).

Section loop.
Context (hash_text : string → string) (json_text : Value → string).
Context (parse_uuid : string → option Uuid) (parse_rfc3339 : string → option Z).
Context (rules : list CategoryRule).
Context (project : Value → option string → option OperationCategory →
                   Value * option string * option OperationCategory).
Context (fs : Fs) `{T : TreeSitter} `{J : SerdeText} `{U : UuidText} `{A : Archiver}.
Context `{HeapOrder OpDbRow} `{HeapOrder PtyRow} `{HeapOrder (string * string)} `{HeapOrder (string * Uuid)}.
Context {S : Type} `{OS : ObjectStore S}.

Definition export_one (clock : Clock) (s : Tally * (ArchiveDb * S)) (el : EligibleSession) : Tally * (ArchiveDb * S) :=
  match export_session (at_export clock (el_session el)) el s.2.1 s.2.2 with
  | (a, Ok out) => (tally_ok (ex_bytes out) s.1, a)
  | (a, Err _) => (tally_err s.1, a)
  end.

Definition purge_one (clock : Clock) (s : Tally * ArchiveDb) (c : PurgeCandidate) : Tally * ArchiveDb :=
  match purge_session hash_text parse_uuid (at_purge clock (pc_session c)) (pc_session c) s.2 with
  | Ok (db, out) => (tally_ok (pu_events_deleted out) s.1, db)
  | Err _ => (tally_err s.1, s.2)
  end.

(** The sessions a cycle purges, and the keys it waits for. *)
Definition purge_set (cfg : ArchiveConfig) (clock : Clock) (db : ArchiveDb) : list string * list PurgeCandidate :=
  let deferred := if cfg_purge_enabled cfg then projections_behind db else [] in
  (deferred,
   if negb (bool_decide (deferred = [])) then []
   else if cfg_purge_enabled cfg then purge_candidates (at_candidates clock) (cfg_purge_after_days cfg) db else []).

(** What gates a cycle, and the state it leaves. *)
Definition cycle_dump (cfg : ArchiveConfig) (clock : Clock) (stamp : string) (dumped : res octets) (s : LoopDb) (st : S)
    : LoopDb * S * res (option (string * Z)) :=
  if cfg_dump_enabled cfg then
    match dump_durable_tables stamp dumped st with
    | (st, Err e) => (s, st, Err e)
    | (st, Ok (key, bytes)) =>
        let a := lp_state s in
        (set_state (mkState (as_cycle_started a) (as_cycle_completed a) (Some key) (Some (at_dump clock))
           (as_purge_enabled a) (as_purge_enabled_at a) (as_store a) (as_loop_started a)) s, st, Ok (Some (key, bytes)))
    end
  else (s, st, Ok None).

Definition run_cycle_phases (cfg : ArchiveConfig) (clock : Clock) (stamp : string) (dumped : res octets)
    (export_set : list EligibleSession) (out : CycleOutcome) (s : LoopDb) (st : S) : LoopDb * S * res CycleOutcome :=
  match cycle_dump cfg clock stamp dumped s st with
  | (s, st, Err e) => (s, st, Err e)
  | (s, st, Ok dump) =>
      let '(exports, (db, st)) := foldl (export_one clock) (no_tally, (lp_archive s, st)) export_set in
      let '(deferred, purge_set) := purge_set cfg clock db in
      let '(purges, db) := foldl (purge_one clock) (no_tally, db) purge_set in
      let '(s, pruned) := prune_operational_rows (at_prune clock) (set_archive db s) in
      (s, st, Ok (mkCycle (cy_dry_run out) (cy_purge_enabled out) deferred (fst <$> dump) (default 0 (snd <$> dump))
        (ty_done exports) (ty_failed exports) (ty_amount exports) (ty_done purges) (ty_failed purges) (ty_amount purges)
        pruned.1 pruned.2 (cy_eligible_export out) (cy_eligible_purge out)))
  end.

Definition run_cycle (cfg : ArchiveConfig) (clock : Clock) (stamp : string) (dumped : res octets) (dry_run : bool)
    (s : LoopDb) (st : S) : LoopDb * S * res CycleOutcome :=
  let export_set := eligible_sessions (at_select clock) (cfg_min_idle_days cfg) (lp_archive s) in
  let candidates := purge_candidates (at_select clock) (cfg_purge_after_days cfg) (lp_archive s) in
  let out := mkCycle dry_run (cfg_purge_enabled cfg) [] None 0 0 0 0 0 0 0 0 0
               (Z.of_nat (length export_set)) (Z.of_nat (length candidates)) in
  if dry_run then (s, st, Ok out)
  else
    let s := set_state (set_clock (Some (at_select clock)) (as_cycle_completed (lp_state s)) (lp_state s)) s in
    match run_cycle_phases cfg clock stamp dumped export_set out s st with
    | (s, st, Err e) => (s, st, Err e)
    | (s, st, Ok out) =>
        (set_state (set_clock (as_cycle_started (lp_state s)) (Some (at_done clock)) (lp_state s)) s, st, Ok out)
    end.

(** ** Verifying *)

Record VerifyOutcome : Type := mkVerify {
  ve_deep : bool;
  ve_archived : Z;
  ve_ok : Z;
  ve_missing : Z;
  ve_mismatched : Z;
  ve_stale : Z;
  ve_problems : list string;
}.

Definition metadata_i64 (name : string) (h : ObjectHead) : option Z := head_metadata h !! name ≫= parse_i64.

(** What is wrong with an object that exists. *)
Definition mismatches (deep : bool) (key sha : string) (bytes events : Z) (h : ObjectHead) (st : S) : list string :=
  let m :=
    (if bool_decide (head_metadata h !! "sha256" = Some sha) then [] else ["stored sha256 differs from the session row"])
    ++ (if bool_decide (metadata_i64 "events" h = Some events) then [] else ["stored event count differs from the session row"])
    ++ (if bool_decide (metadata_i64 "bytes" h = Some bytes) then [] else ["stored byte count differs from the session row"]) in
  if deep && bool_decide (m = []) then
    match read_session_lines key sha st with
    | Ok lines => if Z.of_nat (length lines) =? events then [] else ["object holds another number of lines"]
    | Err _ => ["content check failed"]
    end
  else m.

(** The columns of an [ArchivedSession]; decoding a NULL one fails. *)
Definition archived_columns (c : ArchiveColumns) : res (string * string * Z * Z) :=
  key ← ok_or (archive_key c) "unexpected null";
  sha ← ok_or (archive_sha256 c) "unexpected null";
  bytes ← ok_or (archive_bytes c) "unexpected null";
  events ← ok_or (archive_events c) "unexpected null";
  Ok (key, sha, bytes, events).

Definition verify_one (deep : bool) (st : S) (v : VerifyOutcome) (s : Uuid * SessionRow * (string * string * Z * Z))
    : VerifyOutcome :=
  let '(id, r, (key, sha, bytes, events)) := s in
  let stale := if is_none (purged_at (sr_columns r)) && negb (event_count r =? events) then 1 else 0 in
  let v := mkVerify (ve_deep v) (ve_archived v) (ve_ok v) (ve_missing v) (ve_mismatched v) (ve_stale v + stale) (ve_problems v) in
  let missing := mkVerify (ve_deep v) (ve_archived v) (ve_ok v) (ve_missing v + 1) (ve_mismatched v) (ve_stale v)
                   (ve_problems v ++ [uuid_text id +:+ ": object " +:+ key +:+ " is missing"]) in
  match head_object key st with
  | Err _ | Ok None => missing
  | Ok (Some h) =>
      match mismatches deep key sha bytes events h st with
      | [] => mkVerify (ve_deep v) (ve_archived v) (ve_ok v + 1) (ve_missing v) (ve_mismatched v) (ve_stale v) (ve_problems v)
      | m => mkVerify (ve_deep v) (ve_archived v) (ve_ok v) (ve_missing v) (ve_mismatched v + 1) (ve_stale v)
               (ve_problems v ++ [uuid_text id +:+ " (" +:+ key +:+ "): " +:+ join "; " m])
      end
  end.

(** [ORDER BY archive_key], by the collation of the database. *)
Definition in_key_order (l : list (string * Uuid)) : list (string * Uuid) := heap_order l.

Definition archived_sessions (db : ArchiveDb) : list (Uuid * SessionRow) :=
  omap (λ k, r ← ad_sessions db !! k.2; Some (k.2, r))
    (in_key_order (omap (λ s, key ← archive_key (sr_columns s.2);
                              if is_some (archived_at (sr_columns s.2)) then Some (key, s.1) else None)
                     (map_to_list (ad_sessions db)))).

Definition verify_archives (deep : bool) (db : ArchiveDb) (st : S) : res VerifyOutcome :=
  sessions ← try_map (λ s, c ← archived_columns (sr_columns s.2); Ok (s, c)) (archived_sessions db);
  Ok (foldl (verify_one deep st) (mkVerify deep (Z.of_nat (length sessions)) 0 0 0 0 []) sessions).

(** ** Restoring *)

(** SQL [LIKE], over characters. *)
Fixpoint like (p : list string) : list string → bool :=
  match p with
  | [] => λ s, is_nil s
  | c :: p =>
      if bool_decide (c = "%") then
        fix any s := like p s || match s with [] => false | _ :: s => any s end
      else if bool_decide (c = "_") then λ s, match s with [] => false | _ :: s => like p s end
      else if bool_decide (c = "\") then
        match p with
        | [] => λ _, false
        | e :: p => λ s, match s with [] => false | d :: s => bool_decide (d = e) && like p s end
        end
      else λ s, match s with [] => false | d :: s => bool_decide (d = c) && like p s end
  end.

(** [str::replace('-', "/")] *)
Definition dashes_to_slashes (s : string) : string :=
  concat_text ((λ c, if bool_decide (c = "-") then "/" else c) <$> chars s).

Definition month_pattern (month : string) : string := "sessions/%/" +:+ dashes_to_slashes month +:+ "/%".

(** [split_part(substr(cwd, length(root) + 1), '/', 1)] under [root]. *)
Definition repo_under (root cwd : string) : option string :=
  rest ← strip_prefix root cwd;
  Some (concat_text (before_char "/" (chars rest))).

Definition cwd_repo (cwd : option string) : option string :=
  cwd ← cwd; or_else (repo_under "/home/sulion/repos/" cwd) (repo_under "/home/sulion/workspaces/" cwd).

Definition restore_repo (db : ArchiveDb) (r : SessionRow) : option string :=
  or_else (pty ← sr_pty r; pr_repo <$> ad_ptys db !! pty)
          (cwd_repo (t_metadata (sr_tables r) ≫= λ m, cwd (md m))).

Definition in_scope (db : ArchiveDb) (scope : RestoreScope) (s : Uuid * SessionRow) : option (string * Uuid) :=
  key ← archive_key (sr_columns s.2);
  if is_some (purged_at (sr_columns s.2))
     && match sc_month scope with Some m => like (chars (month_pattern m)) (chars key) | None => true end
     && match sc_repo scope with Some repo => bool_decide (restore_repo db s.2 = Some repo) | None => true end
  then Some (key, s.1) else None.

Definition sessions_in_scope (db : ArchiveDb) (scope : RestoreScope) : list Uuid :=
  match sc_session scope with
  | Some id => [id]
  | None => snd <$> in_key_order (omap (in_scope db scope) (map_to_list (ad_sessions db)))
  end.

Record RestoreRun : Type := mkRun {
  rr_sessions : Z;
  rr_restored : Z;
  rr_failures : Z;
  rr_purged_again : Z;
  rr_outcomes : list (Uuid * RestoreOutcome);
  rr_errors : list string;
}.

Definition message_of (e : error) : string := match e with Failed m | Panicked m => m end.

(** One session of a run; [label] is [session_label]'s text. *)
Definition restore_one (label : ArchiveDb → Uuid → string) (clock : Clock) (switch_id : Uuid → string)
    (purge_after : bool) (st : S) (s : RestoreRun * ArchiveDb) (id : Uuid) : RestoreRun * ArchiveDb :=
  let '(run, db) := s in
  match restore_session hash_text json_text parse_uuid parse_rfc3339 rules project fs (at_purge clock id) (switch_id id) id
          purge_after st db with
  | (db', Ok out) =>
      (mkRun (rr_sessions run) (rr_restored run + 1) (rr_failures run)
         (rr_purged_again run + (if re_purged_again out then 1 else 0)) (rr_outcomes run ++ [(id, out)]) (rr_errors run), db')
  | (db', Err e) =>
      (mkRun (rr_sessions run) (rr_restored run) (rr_failures run + 1) (rr_purged_again run) (rr_outcomes run)
         (rr_errors run ++ [label db id +:+ ": " +:+ message_of e]), db')
  end.

Definition run_restore (label : ArchiveDb → Uuid → string) (clock : Clock) (switch_id : Uuid → string)
    (cfg : ArchiveConfig) (scope : RestoreScope) (db : ArchiveDb) (st : S) : RestoreRun * ArchiveDb :=
  let sessions := sessions_in_scope db scope in
  let wanted := sc_purge_after scope || sc_all scope in
  let errors := if wanted && negb (cfg_purge_enabled cfg)
                then ["purging is disabled (SULION_ARCHIVE_PURGE_ENABLED); sessions were restored but not purged again"]
                else [] in
  foldl (restore_one label clock switch_id (wanted && cfg_purge_enabled cfg) st)
    (mkRun (Z.of_nat (length sessions)) 0 0 0 [] errors, db) sessions.

(** ** Handling a request *)

(** [to_value] of the three outcomes. *)
Definition cycle_value (o : CycleOutcome) : Value :=
  json_object
    [("dry_run", Bool (cy_dry_run o)); ("purge_enabled", Bool (cy_purge_enabled o));
     ("purge_deferred_for", Array (Str <$> cy_deferred o)); ("dump_key", json_opt_str (cy_dump_key o));
     ("dump_bytes", json_int (cy_dump_bytes o)); ("exported", json_int (cy_exported o));
     ("export_failures", json_int (cy_export_failures o)); ("exported_bytes", json_int (cy_exported_bytes o));
     ("purged", json_int (cy_purged o)); ("purge_failures", json_int (cy_purge_failures o));
     ("events_deleted", json_int (cy_events_deleted o)); ("backfills_pruned", json_int (cy_backfills_pruned o));
     ("jobs_pruned", json_int (cy_jobs_pruned o)); ("eligible_for_export", json_int (cy_eligible_export o));
     ("eligible_for_purge", json_int (cy_eligible_purge o))].

Definition verify_value (o : VerifyOutcome) : Value :=
  json_object
    [("deep", Bool (ve_deep o)); ("sessions_archived", json_int (ve_archived o)); ("ok", json_int (ve_ok o));
     ("missing", json_int (ve_missing o)); ("mismatched", json_int (ve_mismatched o)); ("stale", json_int (ve_stale o));
     ("problems", Array (Str <$> ve_problems o))].

Definition restore_value (o : Uuid * RestoreOutcome) : Value :=
  json_object
    [("session_uuid", Str (uuid_text o.1)); ("key", Str (re_key o.2)); ("lines", json_int (re_lines o.2));
     ("events_inserted", json_int (re_events_inserted o.2)); ("turns", json_int (re_turns o.2));
     ("tokens_before", json_int (re_tokens_before o.2)); ("tokens_after", json_int (re_tokens_after o.2));
     ("purged_again", Bool (re_purged_again o.2))].

Definition run_value (o : RestoreRun) : Value :=
  json_object
    [("sessions", json_int (rr_sessions o)); ("restored", json_int (rr_restored o));
     ("failures", json_int (rr_failures o)); ("purged_again", json_int (rr_purged_again o));
     ("outcomes", Array (restore_value <$> rr_outcomes o)); ("errors", Array (Str <$> rr_errors o))].

(** A field of the scope that is [true]. *)
Definition scope_flag (name : string) (scope : Value) : bool :=
  match get scope name with Some (Bool b) => b | _ => false end.

Definition result_of {X} (f : X → Value) (r : res X) : Value + string :=
  match r with Ok x => inl (f x) | Err e => inr (message_of e) end.

(** What surrounds the handling of a request: the clock, the dump, the ids and
    labels, and the job that was started. *)
Record Around : Type := mkAround {
  ar_clock : Clock;
  ar_stamp : string;
  ar_dumped : res octets;
  ar_switch_id : Uuid → string;
  ar_label : ArchiveDb → Uuid → string;
  ar_job : option Z;
}.

Definition with_job (id : Z) (a : Around) (s : LoopDb) : LoopDb :=
  match ar_job a with Some job => set_requests (attach_job id job (lp_requests s)) s | None => s end.

Definition handle_request (cfg : ArchiveConfig) (a : Around) (id : Z) (rq : ArchiveRequest) (s : LoopDb) (st : S)
    : LoopDb * S :=
  let '(s, st, result) :=
    if bool_decide (rq_kind rq = "run") then
      let '(s, st, r) := run_cycle cfg (ar_clock a) (ar_stamp a) (ar_dumped a) (scope_flag "dry_run" (rq_scope rq)) s st in
      (s, st, result_of cycle_value r)
    else if bool_decide (rq_kind rq = "restore") then
      match scope_of_value parse_uuid (rq_scope rq) with
      | None => (s, st, inr "invalid restore scope")
      | Some scope =>
          let s := if is_nil (sessions_in_scope (lp_archive s) scope) then s else with_job id a s in
          let '(run, db) := run_restore (ar_label a) (ar_clock a) (ar_switch_id a) cfg scope (lp_archive s) st in
          (set_archive db s, st, inl (run_value run))
      end
    else if bool_decide (rq_kind rq = "verify") then
      let s := with_job id a s in
      (s, st, result_of verify_value (verify_archives (scope_flag "deep" (rq_scope rq)) (lp_archive s) st))
    else (s, st, inr ("unknown archive request kind " +:+ rq_kind rq)) in
  (set_requests (finish id result (at_done (ar_clock a)) (lp_requests s)) s, st).

(** One turn of [run_loop]: a request, or else a due cycle. *)
Definition loop_turn (cfg : ArchiveConfig) (a : Around) (now : Z) (s : LoopDb) (st : S) : res (LoopDb * S) :=
  match next_pending now (lp_requests s) with
  | (Some (id, rq), rs) => Ok (handle_request cfg a id rq (set_requests rs s) st)
  | (None, _) =>
      match cycle_due cfg now (lp_state s) with
      | Err e => Err e
      | Ok due => Ok (if due : bool then (run_cycle cfg (ar_clock a) (ar_stamp a) (ar_dumped a) false s st).1 else (s, st))
      end
  end.

(** What [run_loop] does before its loop. *)
Definition loop_start (cfg : ArchiveConfig) (now : Z) (s : LoopDb) : LoopDb :=
  set_requests (fail_stale_running now (lp_requests s)) (set_state (record_store cfg now (lp_state s)) s).

(** ** Status *)

Record ArchiveStatus : Type := mkStatus {
  su_state : ArchiveState;
  su_archived : Z;
  su_purged : Z;
  su_bytes : Z;
  su_pending : Z;
  su_recent : list (Z * ArchiveRequest);
}.

Definition latest_first (a b : Z * ArchiveRequest) : Prop := earlier b a.

#[export] Instance latest_first_dec a b : Decision (latest_first a b).
Proof. unfold latest_first. apply _. Defined.

Definition recent (limit : Z) (s : Requests) : list (Z * ArchiveRequest) :=
  take (Z.to_nat (Z.max 1 (Z.min limit 200))) (merge_sort latest_first (map_to_list (rs_rows s))).

Definition count_rows {K V} `{Countable K} (p : V → bool) (m : gmap K V) : Z :=
  Z.of_nat (length (List.filter (λ kv, p kv.2) (map_to_list m))).

Definition archived (r : SessionRow) : bool := is_some (archived_at (sr_columns r)).

Definition status (s : LoopDb) : ArchiveStatus :=
  let sessions := ad_sessions (lp_archive s) in
  mkStatus (lp_state s) (count_rows archived sessions) (count_rows (λ r, is_some (purged_at (sr_columns r))) sessions)
    (map_fold (λ _ r n, (if archived r then default 0 (archive_bytes (sr_columns r)) else 0) + n) 0 sessions)
    (count_rows is_open_request (rs_rows (lp_requests s)))
    (recent 20 (lp_requests s)).
End loop.

(** ** What a cycle does *)

Section cycles.
Context (hash_text : string → string) (json_text : Value → string).
Context (parse_uuid : string → option Uuid) (parse_rfc3339 : string → option Z).
Context (rules : list CategoryRule).
Context (project : Value → option string → option OperationCategory →
                   Value * option string * option OperationCategory).
Context (fs : Fs) `{T : TreeSitter} `{J : SerdeText} `{U : UuidText} `{A : Archiver}.
Context `{HeapOrder OpDbRow} `{HeapOrder PtyRow} `{HeapOrder (string * string)} `{HeapOrder (string * Uuid)}.
Context {S : Type} `{OS : ObjectStore S}.
Implicit Types st : S.

Local Abbreviation archive_step :=
  (archive_step hash_text json_text parse_uuid parse_rfc3339 rules project).
Local Abbreviation purge_one := (purge_one hash_text parse_uuid).
Local Abbreviation run_cycle_phases := (run_cycle_phases hash_text parse_uuid).
Local Abbreviation run_cycle := (run_cycle hash_text parse_uuid).

(** The session of an element is one of the rows it was selected from. *)
Definition selected (now d : Z) (db : ArchiveDb) (el : EligibleSession) : Prop :=
  ∃ r, ad_sessions db !! el_session el = Some r ∧ eligible now d db (el_session el, r) = Some el.

Lemma eligible_selected now d db : Forall (selected now d db) (eligible_sessions now d db) ∧
  NoDup (el_session <$> eligible_sessions now d db).
Proof.
  unfold eligible_sessions.
  assert (Hperm : merge_sort first_event_le (omap (eligible now d db) (map_to_list (ad_sessions db)))
                  ≡ₚ omap (eligible now d db) (map_to_list (ad_sessions db))) by apply merge_sort_Permutation.
  split.
  - apply Forall_forall. intros el Hin. rewrite Hperm in Hin.
    apply list_elem_of_omap in Hin as ([id r] & Hin & Hel). apply elem_of_map_to_list in Hin.
    pose proof (eligible_spec _ _ _ _ _ _ Hel) as (<- & _). by exists r.
  - rewrite Hperm. pose proof (NoDup_fst_map_to_list (ad_sessions db)) as Hnd. revert Hnd.
    generalize (map_to_list (ad_sessions db)). induction l as [|[id r] l IH]; intros Hnd; [constructor|].
    cbn in Hnd. apply NoDup_cons in Hnd as [Hid Hnd]. cbn [omap list_omap].
    destruct (eligible now d db (id, r)) as [el|] eqn:Hel; [|by apply IH]. cbn. apply NoDup_cons. split; [|by apply IH].
    pose proof (eligible_spec _ _ _ _ _ _ Hel) as (-> & _). intros (el' & Eid & Hin)%list_elem_of_fmap.
    apply list_elem_of_omap in Hin as ([id' r'] & Hin & Hel'). pose proof (eligible_spec _ _ _ _ _ _ Hel') as (E' & _).
    apply Hid. rewrite Eid, E'. by apply (list_elem_of_fmap_2 fst) in Hin.
Qed.

(** Only archive columns, and never [purged_at], differ. *)
Definition columns_only (db db' : ArchiveDb) : Prop :=
  ad_ptys db' = ad_ptys db ∧ ad_versions db' = ad_versions db ∧
  ∀ id r, ad_sessions db !! id = Some r →
    ∃ c, purged_at c = purged_at (sr_columns r) ∧ ad_sessions db' !! id = Some (with_columns c r).

Lemma with_columns_same r : with_columns (sr_columns r) r = r.
Proof. by destruct r. Qed.

Lemma columns_only_refl db : columns_only db db.
Proof. split_and!; [done..|]. intros id r Hr. exists (sr_columns r). by rewrite with_columns_same. Qed.

Lemma columns_only_trans a b c : columns_only a b → columns_only b c → columns_only a c.
Proof.
  intros (Hp & Hv & Hs) (Hp' & Hv' & Hs'). split_and!; [congruence..|]. intros id r Hr.
  destruct (Hs id r Hr) as (c1 & E1 & H1'). destruct (Hs' id _ H1') as (c2 & E2 & H2'). exists c2.
  split; [cbn in E2; congruence|exact H2'].
Qed.

Lemma exported_columns seen now d el db st : selected seen d db el →
  let '(db', st', _) := export_session now el db st in
  columns_only db db' ∧ ∀ id, id ≠ el_session el → ad_sessions db' !! id = ad_sessions db !! id.
Proof.
  intros (r & Hr & Hel). pose proof (eligible_spec _ _ _ _ _ _ Hel) as (_ & _ & _ & Hne & _).
  pose proof (export_result now el db st r Hr Hne) as Hres. cbn zeta in Hres.
  destruct (put_file _ _ _ st) as [st1 put]. destruct (export_session now el db st) as [[db' st'] out].
  destruct Hres as [_ Hres]. destruct out as [out|e].
  - destruct Hres as (_ & _ & ->). split.
    + split_and!; [done..|]. intros id r' Hr'. cbn. rewrite lookup_insert. case_decide as E.
      * subst id. rewrite Hr in Hr'. injection Hr' as <-. eexists. split; [|reflexivity]. done.
      * exists (sr_columns r'). by rewrite with_columns_same.
    + intros id Hne'. cbn. by rewrite lookup_insert_ne.
  - subst db'. split; [apply columns_only_refl|done].
Qed.

Lemma eligible_kept now d db db' s : ad_ptys db' = ad_ptys db → eligible now d db' s = eligible now d db s.
Proof. intros E. destruct s as [id r]. unfold eligible, current_live. by rewrite E. Qed.

Lemma exports_steps clock seen d els db st ty : Forall (selected seen d db) els → NoDup (el_session <$> els) →
  let '(_, (db', st')) := foldl (export_one clock) (ty, (db, st)) els in
  rtc archive_step (db, st) (db', st') ∧ columns_only db db'.
Proof.
  revert db st ty. induction els as [|el els IH]; intros db st ty Hsel Hnd.
  - split; [done|apply columns_only_refl].
  - apply Forall_cons in Hsel as [Hel Hsel]. cbn in Hnd. apply NoDup_cons in Hnd as [Hid Hnd].
    set (now := at_export clock (el_session el)).
    pose proof (exported_columns seen now d el db st Hel) as Hcol.
    assert (Hstep : archive_step (db, st) (export_session now el db st).1).
    { destruct Hel as (r & Hr & Hel). eexists; by eapply act_export. }
    cbn [foldl]. unfold export_one at 2. cbn [fst snd]. fold now.
    destruct (export_session now el db st) as [[db1 st1] out]. cbn [fst] in Hstep. destruct Hcol as (Hcol & Hother).
    assert (Hsel1 : Forall (selected seen d db1) els).
    { rewrite Forall_forall in Hsel |- *. intros el' Hin. destruct (Hsel el' Hin) as (r' & Hr' & Hel').
      exists r'. split; [|by rewrite (eligible_kept _ _ _ _ _ (proj1 Hcol))]. rewrite Hother; [done|].
      intros E. apply Hid. rewrite <-E. by apply list_elem_of_fmap_2. }
    set (ty1 := match out with Ok o => tally_ok (ex_bytes o) ty | Err _ => tally_err ty end).
    specialize (IH db1 st1 ty1 Hsel1 Hnd).
    assert ((match out with Ok o => (tally_ok (ex_bytes o) ty, (db1, st1)) | Err _ => (tally_err ty, (db1, st1)) end)
            = (ty1, (db1, st1))) as -> by (by destruct out).
    destruct (foldl (export_one clock) (ty1, (db1, st1)) els) as [ty' [db' st']]. destruct IH as [Hs Hc].
    split; [by eapply rtc_l|by eapply columns_only_trans].
Qed.

(** A purge changes one row, whose archive columns stay. *)
Lemma purged_columns now id db db' out : purge_session hash_text parse_uuid now id db = Ok (db', out) →
  (∀ id', id' ≠ id → ad_sessions db' !! id' = ad_sessions db !! id') ∧
  ∃ r r', ad_sessions db !! id = Some r ∧ ad_sessions db' !! id = Some r' ∧
    archived_at (sr_columns r') = archived_at (sr_columns r) ∧
    archive_events (sr_columns r') = archive_events (sr_columns r).
Proof.
  intros (r & repo & [r1 db1] & Hr & _ & _ & _ & Hroll & ->)%purge_spec.
  apply lock_and_check_spec in Hr as (Hr & _). unfold roll_up in Hroll.
  apply res_bind_Ok in Hroll as (x & _ & Hroll). apply res_bind_Ok in Hroll as (y & _ & [= <- <-]).
  cbn [fst snd]. split.
  - intros id' Hne. cbn. by rewrite lookup_insert_ne.
  - exists r. eexists. split_and!; [done|cbn; by rewrite lookup_insert_eq|done|done].
Qed.

Lemma purges_steps clock cs db st ty :
  let '(_, db') := foldl (purge_one clock) (ty, db) cs in
  rtc archive_step (db, st) (db', st) ∧
  (∀ id, id ∉ pc_session <$> cs → ad_sessions db' !! id = ad_sessions db !! id) ∧
  (∀ id r, ad_sessions db !! id = Some r → ∃ r', ad_sessions db' !! id = Some r' ∧
     archived_at (sr_columns r') = archived_at (sr_columns r) ∧
     archive_events (sr_columns r') = archive_events (sr_columns r)).
Proof.
  revert db ty. induction cs as [|c cs IH]; intros db ty.
  - split_and!; [done|done|]. intros id r Hr. by exists r.
  - cbn [foldl]. unfold ArchiveLoop.purge_one at 2. cbn [fst snd].
    destruct (purge_session _ _ _ (pc_session c) db) as [[db1 out]|e] eqn:E.
    + destruct (purged_columns _ _ _ _ _ E) as (Hother & rc & rc' & Hrc & Hrc' & Ha & Hv).
      specialize (IH db1 (tally_ok (pu_events_deleted out) ty)).
      destruct (foldl _ _ cs) as [ty' db'] in *. destruct IH as (Hs & Hsame & Hcol). split_and!.
      * eapply rtc_l; [eexists; by eapply act_purge|done].
      * intros id. cbn [fmap list_fmap]. rewrite not_elem_of_cons. intros [Hne Hin]. by rewrite Hsame, Hother.
      * intros id r Hr. destruct (decide (id = pc_session c)) as [->|Hne].
        -- rewrite Hrc in Hr. injection Hr as <-. destruct (Hcol _ _ Hrc') as (r' & Hr' & ? & ?).
           exists r'. split_and!; congruence.
        -- apply Hcol. by rewrite Hother.
    + specialize (IH db (tally_err ty)). destruct (foldl _ _ cs) as [ty' db'] in *. destruct IH as (Hs & Hsame & Hcol).
      split_and!; [done| |done]. intros id. cbn [fmap list_fmap]. rewrite not_elem_of_cons. intros [_ Hin]. by apply Hsame.
Qed.

Lemma candidate_spec now d db c : c ∈ purge_candidates now d db →
  ∃ r at_, ad_sessions db !! pc_session c = Some r ∧ archived_at (sr_columns r) = Some at_ ∧
    at_ < days_before now d ∧ archive_events (sr_columns r) = Some (event_count r) ∧
    current_live (pc_session c) db = false.
Proof.
  unfold purge_candidates. rewrite merge_sort_Permutation. intros ([id r] & Hin & Hc)%list_elem_of_omap.
  apply elem_of_map_to_list in Hin. unfold purge_candidate in Hc.
  destruct (archived_at (sr_columns r)) as [at_|] eqn:Ha; [|done]. cbn in Hc.
  destruct (_ && _ && _ && _) eqn:E; [|done]. injection Hc as <-. cbn [pc_session].
  rewrite !andb_true_iff, Z.ltb_lt, bool_decide_eq_true, negb_true_iff in E.
  destruct E as [[[_ Hlt] Hev] Hlive]. by exists r, at_.
Qed.

Lemma dump_key_is_key stamp : is_dump_key (dump_key stamp).
Proof.
  apply ends_with_spec. exists ("db/sulion-durable-" +:+ stamp). unfold dump_key. by rewrite append_assoc.
Qed.

Lemma dump_steps cfg clock stamp dumped s st :
  let '(s', st', out) := cycle_dump cfg clock stamp dumped s st in
  lp_archive s' = lp_archive s ∧ rtc archive_step (lp_archive s, st) (lp_archive s, st') ∧
  (is_ok out = true → cfg_dump_enabled cfg = true → is_ok (dump_durable_tables stamp dumped st).2 = true).
Proof.
  unfold cycle_dump. destruct (cfg_dump_enabled cfg); [|done].
  assert (Hst : rtc archive_step (lp_archive s, st) (lp_archive s, (dump_durable_tables stamp dumped st).1)).
  { unfold dump_durable_tables. destruct dumped as [file|e]; [|done]. destruct (byte_count file =? 0); [done|].
    pose proof (act_dump hash_text json_text parse_uuid parse_rfc3339 rules project (lp_archive s) st _ file
      (dump_metadata (byte_count file)) (dump_key_is_key stamp)) as Hstep.
    destruct (put_file _ _ _ st) as [st1 put]. cbn [fst] in *. apply rtc_once. by eexists. }
  destruct (dump_durable_tables stamp dumped st) as [st1 [[key bytes]|e]]; cbn [fst snd] in *; by split_and!.
Qed.

(** C27. A cycle deletes only what it may. A dry run changes nothing. A cycle
    is a sequence of steps of the archive, whose guarantees it has therefore;
    and every session it purged is one that it may purge: purging is enabled
    in its configuration, the derived data was not being repaired, the dump
    of this cycle was stored and checked if dumps are on, no live terminal
    was on the session, its export is older than the grace period, and the
    export holds as many events as the session had. *)
Theorem cycle_purges_safely cfg clock stamp dumped dry_run s st s' st' out :
  run_cycle cfg clock stamp dumped dry_run s st = (s', st', out) →
  (dry_run = true → s' = s ∧ st' = st) ∧
  rtc archive_step (lp_archive s, st) (lp_archive s', st') ∧
  ∀ id r r', ad_sessions (lp_archive s) !! id = Some r → purged_at (sr_columns r) = None →
    ad_sessions (lp_archive s') !! id = Some r' → is_Some (purged_at (sr_columns r')) →
    cfg_purge_enabled cfg = true ∧ projections_behind (lp_archive s) = [] ∧
    (cfg_dump_enabled cfg = true → is_ok (dump_durable_tables stamp dumped st).2 = true) ∧
    current_live id (lp_archive s) = false ∧
    ∃ at_, archived_at (sr_columns r') = Some at_ ∧ at_ < days_before (at_candidates clock) (cfg_purge_after_days cfg) ∧
      archive_events (sr_columns r') = Some (event_count r).
Proof.
  unfold ArchiveLoop.run_cycle. destruct dry_run.
  { intros [= <- <- _]. split_and!; [done|done|]. intros id r r' Hr Hp Hr' [p Hp']. congruence. }
  set (els := eligible_sessions _ _ _). set (out0 := mkCycle _ _ _ _ _ _ _ _ _ _ _ _ _ _ _).
  set (s0 := set_state _ s). assert (E0 : lp_archive s0 = lp_archive s) by done.
  unfold ArchiveLoop.run_cycle_phases. pose proof (dump_steps cfg clock stamp dumped s0 st) as Hdump.
  destruct (cycle_dump cfg clock stamp dumped s0 st) as [[s1 st1] [dump|e]]; cycle 1.
  { destruct Hdump as (E1 & Hs1 & _). intros [= <- <- _]. rewrite E1. split_and!; [done|done|].
    intros id r r' Hr Hp Hr' [p Hp']. rewrite E0 in Hr'. congruence. }
  destruct Hdump as (E1 & Hs1 & Hdump). rewrite E1, E0 in *.
  pose proof (eligible_selected (at_select clock) (cfg_min_idle_days cfg) (lp_archive s)) as [Hsel Hnd]. fold els in Hsel, Hnd.
  pose proof (exports_steps clock _ _ els (lp_archive s) st1 no_tally Hsel Hnd) as Hex.
  destruct (foldl (export_one clock) _ els) as [exports [db1 st2]]. destruct Hex as (Hs2 & Hpty & Hver & Hcol).
  destruct (purge_set cfg clock db1) as [deferred cs] eqn:Hset.
  pose proof (purges_steps clock cs db1 st2 no_tally) as Hpu.
  destruct (foldl (purge_one clock) _ cs) as [purges db2]. destruct Hpu as (Hs3 & Hsame & Hkept).
  intros [= <- <- _]. cbn [lp_archive set_state set_archive]. split; [done|]. split.
  { etransitivity; [exact Hs1|]. by etransitivity. }
  intros id r r' Hr Hp Hr' [p Hp']. destruct (Hcol id r Hr) as (c & Hc & Hr1).
  destruct (decide (id ∈ pc_session <$> cs)) as [Hin|Hnin]; cycle 1.
  { rewrite (Hsame id Hnin), Hr1 in Hr'. injection Hr' as <-. cbn in Hp'. congruence. }
  apply list_elem_of_fmap in Hin as (cand & -> & Hin).
  unfold purge_set in Hset. injection Hset as <- <-.
  assert (projections_behind (lp_archive s) = projections_behind db1) as -> by (unfold projections_behind; by rewrite Hver).
  destruct (cfg_purge_enabled cfg); [|by apply elem_of_nil in Hin].
  case_bool_decide as Hb; cbn [negb] in Hin; [|by apply elem_of_nil in Hin].
  apply candidate_spec in Hin as (r1 & at_ & Hr1' & Ha & Hlt & Hev & Hlive).
  rewrite Hr1 in Hr1'. injection Hr1' as <-. destruct (Hkept _ _ Hr1) as (r2 & Hr2 & Ea & Ev).
  rewrite Hr' in Hr2. injection Hr2 as <-. split_and!; [done|done| | |].
  - by apply Hdump.
  - unfold current_live in *. by rewrite <-Hpty.
  - exists at_. split_and!; [congruence|done|]. rewrite Ev. exact Hev.
Qed.
End cycles.

(** ** What becomes of a request *)

(** A scope is handled as it was queued. *)
Lemma scope_read_back `{UuidText} parse_uuid scope : (∀ id, parse_uuid (uuid_text id) = Some id) →
  scope_of_value parse_uuid (scope_value scope) = Some scope.
Proof.
  intros Hp. vm_compute in Hp. destruct scope as [[id|] [m|] [r|] a p]; vm_compute; by rewrite ?Hp.
Qed.

(** The requests and the one the loop is handling. *)
Inductive bus_step : Requests * option Z → list Z → Requests * option Z → Prop :=
  | bus_enqueue kind scope by_ now s h : bus_step (s, h) [] (insert_request kind scope by_ now s, h)
  | bus_take now s id r s' : next_pending now s = (Some (id, r), s') → bus_step (s, None) [id] (s', Some id)
  | bus_attach id job s : bus_step (s, Some id) [] (attach_job id job s, Some id)
  | bus_finish id result now s : bus_step (s, Some id) [] (finish id result now s, None)
    (** The result could not be written. *)
  | bus_lost id s : bus_step (s, Some id) [] (s, None)
  | bus_restart now s h : bus_step (s, h) [] (fail_stale_running now s, None).

(** The requests that were taken, in order. *)
Inductive bus_history : list Z → Requests * option Z → Prop :=
  | bus_start : bus_history [] (no_requests, None)
  | bus_more taken s l s' : bus_history taken s → bus_step s l s' → bus_history (taken ++ l) s'.

Definition settled_request (r : ArchiveRequest) : Prop := rq_status r = RqCompleted ∨ rq_status r = RqFailed.

Record bus_ok (taken : list Z) (s : Requests * option Z) : Prop := {
  bo_ids id : is_Some (rs_rows s.1 !! id) → id < rs_next s.1;
  bo_once : NoDup taken;
  bo_taken id : id ∈ taken → ∃ r, rs_rows s.1 !! id = Some r ∧ rq_status r ≠ RqPending;
  bo_handled id : s.2 = Some id → ∃ r, rs_rows s.1 !! id = Some r ∧ rq_status r = RqRunning;
}.

#[export] Instance earlier_total : Total earlier.
Proof. intros [a ra] [b rb]. unfold earlier. cbn. lia. Qed.

#[export] Instance earlier_trans : Transitive earlier.
Proof. intros [a ra] [b rb] [c rc]. unfold earlier. cbn. lia. Qed.

Lemma elem_of_pending_requests s id r :
  (id, r) ∈ pending_requests s ↔ rs_rows s !! id = Some r ∧ rq_status r = RqPending.
Proof.
  unfold pending_requests. rewrite merge_sort_Permutation, list_elem_of_In, filter_In, <-list_elem_of_In.
  rewrite elem_of_map_to_list. cbn. by rewrite bool_decide_eq_true.
Qed.

(** The request taken is the pending one that was asked for first. *)
Lemma next_pending_spec now s id r' s' : next_pending now s = (Some (id, r'), s') →
  ∃ r, rs_rows s !! id = Some r ∧ rq_status r = RqPending ∧ rq_status r' = RqRunning ∧ s' = set_row id r' s ∧
    ∀ id2 r2, rs_rows s !! id2 = Some r2 → rq_status r2 = RqPending → earlier (id, r) (id2, r2).
Proof.
  unfold next_pending. destruct (pending_requests s) as [|[id0 r] rest] eqn:E; [done|]. intros [= <- <- <-].
  assert (Hin : (id0, r) ∈ pending_requests s) by (rewrite E; by left).
  apply elem_of_pending_requests in Hin as [Hr Hp]. exists r. split_and!; try done.
  intros id2 r2 H2 Hp2. assert (Hin2 : (id2, r2) ∈ pending_requests s) by (by apply elem_of_pending_requests).
  assert (Hs : StronglySorted earlier (pending_requests s)) by (apply (StronglySorted_merge_sort _)).
  rewrite E in Hs, Hin2. apply StronglySorted_inv in Hs as [_ Hall]. apply elem_of_cons in Hin2 as [[= -> ->]|Hin2].
  - by destruct (earlier_total (id0, r) (id0, r)).
  - by eapply Forall_forall in Hall.
Qed.

(** What a step does to the row of a request. *)
Definition row_moves (r r' : ArchiveRequest) : Prop :=
  (rq_status r = RqPending ∧ rq_status r' = RqPending ∧ r' = r) ∨
  (rq_status r ≠ RqPending ∧ rq_status r' ≠ RqPending ∧ (settled_request r → r' = r)).

Lemma update_moves id f (rows : gmap Z ArchiveRequest) k r : rows !! k = Some r →
  (k = id → rq_status r = RqRunning ∧ rq_status (f r) ≠ RqPending) →
  ∃ r', alter f id rows !! k = Some r' ∧ row_moves r r'.
Proof.
  intros Hr Hk. destruct (decide (k = id)) as [->|Hne].
  - rewrite lookup_alter_eq, Hr. destruct (Hk eq_refl) as [Hrun Hf]. exists (f r). split; [done|]. right.
    split_and!; [by rewrite Hrun|done|]. intros [E|E]; rewrite Hrun in E; done.
  - rewrite lookup_alter_ne by done. exists r. split; [done|].
    destruct (decide (rq_status r = RqPending)); [by left|by right].
Qed.

(** Every row stays and moves so; what is taken was pending. *)
Lemma bus_moves taken s l s' : bus_ok taken s → bus_step s l s' →
  (∀ k r, rs_rows s.1 !! k = Some r → k ∉ l → ∃ r', rs_rows s'.1 !! k = Some r' ∧ row_moves r r') ∧
  (∀ k, k ∈ l → ∃ r r', rs_rows s.1 !! k = Some r ∧ rq_status r = RqPending ∧
     rs_rows s'.1 !! k = Some r' ∧ rq_status r' = RqRunning).
Proof.
  assert (Hid : ∀ r, row_moves r r).
  { intros r. destruct (decide (rq_status r = RqPending)); [by left|by right]. }
  intros [Hids _ _ Hh] Hstep. destruct Hstep as [kind scope by_ now s h|now s id r s' Hn|id job s|id result now s|id s|now s h];
    cbn [fst snd] in *; (split; [|try by intros ? ?%elem_of_nil]).
  - intros k r Hr _. exists r. split; [|apply Hid]. cbn. rewrite lookup_insert_ne; [done|].
    assert (k < rs_next s) by (apply Hids; by eexists). lia.
  - apply next_pending_spec in Hn as (r0 & Hr0 & Hp & Hrun & -> & _). intros k rk Hk Hnin. exists rk. split; [|apply Hid].
    cbn. rewrite lookup_insert_ne; [done|]. set_solver.
  - apply next_pending_spec in Hn as (r0 & Hr0 & Hp & Hrun & -> & _). intros k ->%list_elem_of_singleton.
    exists r0, r. split_and!; [done|done|cbn; by rewrite lookup_insert_eq|done].
  - destruct (Hh _ eq_refl) as (r1 & Hr1 & Hrun). intros k r Hr _. apply update_moves; [done|].
    intros ->. rewrite Hr1 in Hr. injection Hr as <-. cbn. by rewrite Hrun.
  - destruct (Hh _ eq_refl) as (r1 & Hr1 & Hrun). intros k r Hr _. apply update_moves; [done|].
    intros ->. rewrite Hr1 in Hr. injection Hr as <-. split; [done|]. by destruct result.
  - intros k r Hr _. exists r. split; [done|apply Hid].
  - intros k r Hr _. cbn. rewrite lookup_fmap, Hr. eexists. split; [reflexivity|].
    case_bool_decide as E; [|apply Hid]. right. split_and!; [by rewrite E|done|]. intros [E'|E']; congruence.
Qed.

Lemma bus_ids s l s' : bus_step s l s' → (∀ id, is_Some (rs_rows s.1 !! id) → id < rs_next s.1) →
  ∀ id, is_Some (rs_rows s'.1 !! id) → id < rs_next s'.1.
Proof.
  intros Hstep Hids. destruct Hstep as [kind scope by_ now s h|now s id r s' Hn|id job s|id result now s|id s|now s h];
    cbn [fst snd] in *; intros k.
  - cbn. rewrite lookup_insert. case_decide; [lia|]. intros Hk%Hids. lia.
  - apply next_pending_spec in Hn as (r0 & Hr0 & _ & _ & -> & _). cbn. rewrite lookup_insert. case_decide as E; [|apply Hids].
    subst k. intros _. apply Hids. by eexists.
  - cbn. rewrite lookup_alter_is_Some. apply Hids.
  - cbn. rewrite lookup_alter_is_Some. apply Hids.
  - apply Hids.
  - cbn. rewrite lookup_fmap, fmap_is_Some. apply Hids.
Qed.

Lemma bus_history_ok taken s : bus_history taken s → bus_ok taken s.
Proof.
  induction 1 as [|taken s l s' Hh IH Hstep].
  { split; cbn; [intros id [x Hx]; by rewrite lookup_empty in Hx|constructor|by intros id ?%elem_of_nil|done]. }
  destruct (bus_moves _ _ _ _ IH Hstep) as [Hmove Htake]. split.
  - by eapply bus_ids; [|apply IH].
  - apply NoDup_app. split_and!; [apply IH| |].
    + intros id Hin Hl. destruct (bo_taken _ _ IH id Hin) as (r & Hr & Hp). destruct (Htake id Hl) as (r1 & _ & Hr1 & Hp1 & _).
      congruence.
    + destruct Hstep; first [apply NoDup_nil_2|apply NoDup_singleton].
  - intros id [Hin|Hin]%elem_of_app.
    + destruct (bo_taken _ _ IH id Hin) as (r & Hr & Hp).
      destruct (decide (id ∈ l)) as [Hl|Hl].
      * destruct (Htake id Hl) as (_ & r1 & _ & _ & Hr1 & Hp1). exists r1. split; [done|]. by rewrite Hp1.
      * destruct (Hmove id r Hr Hl) as (r1 & Hr1 & [(? & _)|(_ & Hp1 & _)]); [congruence|]. by exists r1.
    + destruct (Htake id Hin) as (_ & r1 & _ & _ & Hr1 & Hp1). exists r1. split; [done|]. by rewrite Hp1.
  - destruct Hstep as [kind scope by_ now s h|now s id r s' Hn|id job s|id result now s|id s|now s h]; cbn [fst snd] in *; try done.
    + intros id E. destruct (bo_handled _ _ IH id E) as (r & Hr & Hrun). cbn in Hr. exists r. split; [|done]. cbn.
      rewrite lookup_insert_ne; [done|]. assert (id < rs_next s) by (apply (bo_ids _ _ IH); by eexists). lia.
    + intros id0 [= <-]. destruct (Htake id) as (_ & r1 & _ & _ & Hr1 & Hp1); [by left|]. by exists r1.
    + intros id0 [= <-]. destruct (bo_handled _ _ IH id eq_refl) as (r & Hr & Hrun). cbn in Hr. cbn.
      rewrite lookup_alter_eq, Hr. by eexists.
Qed.

(** C37. A request runs once. Whatever is queued, taken, finished, and however
    often the process dies in between: no request is taken twice; the one
    taken is the one waiting that was asked for first; a taken request never
    waits again, one that waits was never taken; and once it is completed or
    failed its row stays as it is. *)
Theorem request_runs_once taken s : bus_history taken s →
  NoDup taken ∧
  (∀ id, id ∈ taken → ∃ r, rs_rows s.1 !! id = Some r ∧ rq_status r ≠ RqPending) ∧
  (∀ now id r s', next_pending now s.1 = (Some (id, r), s') → id ∉ taken ∧
     ∃ r0, rs_rows s.1 !! id = Some r0 ∧ rq_status r0 = RqPending ∧
       ∀ id2 r2, rs_rows s.1 !! id2 = Some r2 → rq_status r2 = RqPending → earlier (id, r0) (id2, r2)) ∧
  (∀ l s', bus_step s l s' → ∀ id r, rs_rows s.1 !! id = Some r →
     (rq_status r = RqPending → id ∉ l → rs_rows s'.1 !! id = Some r) ∧
     (settled_request r → rs_rows s'.1 !! id = Some r)).
Proof.
  intros Hh%bus_history_ok. split_and!; [apply Hh|apply Hh| |].
  - intros now id r s' Hn. apply next_pending_spec in Hn as (r0 & Hr0 & Hp & _ & _ & Hmin). split; [|by exists r0].
    intros Hin. destruct (bo_taken _ _ Hh id Hin) as (r1 & Hr1 & Hp1). congruence.
  - intros l s' Hstep id r Hr. destruct (bus_moves _ _ _ _ Hh Hstep) as [Hmove Htake]. split.
    + intros Hp Hl. destruct (Hmove id r Hr Hl) as (r' & Hr' & [(_ & _ & ->)|(Hp' & _)]); done.
    + intros Hs. destruct (decide (id ∈ l)) as [Hl|Hl].
      * destruct (Htake id Hl) as (r1 & _ & Hr1 & Hp1 & _). rewrite Hr in Hr1. injection Hr1 as <-.
        destruct Hs as [E|E]; rewrite Hp1 in E; done.
      * destruct (Hmove id r Hr Hl) as (r' & Hr' & [(Hp & _)|(_ & _ & E)]).
        -- destruct Hs as [E|E]; rewrite Hp in E; done.
        -- by rewrite <-(E Hs).
Qed.

(** ** A concrete cycle *)

Definition arch_clock : Clock :=
  mkClock arch_later arch_later (λ _, arch_later) (arch_later + 1) (λ _, arch_later + 2) (arch_later + 3) (arch_later + 4).

Definition arch_config : ArchiveConfig := mkConfig "archive" 30 0 30 true true.

Definition arch_loop : LoopDb :=
  mkLoop (arch_db arch_live) (mkState None None None None false None None None) no_requests ∅ ∅.

Definition arch_cycle : LoopDb * Files * res CycleOutcome :=
  run_cycle demo_hash demo_parse_uuid arch_config arch_clock "2026-02-05T000000Z" (Ok [newline_byte]) false arch_loop ∅.

(** One session exported and purged by one cycle, two events deleted. *)
Example arch_cycle_counts :
  match arch_cycle.2 with
  | Ok o => (cy_exported o, cy_purged o, cy_events_deleted o) = (1, 1, 2)
  | Err _ => False
  end.
Proof. vm_compute. done. Qed.

Example like_month :
  let m := chars (month_pattern "2026-01") in
  (like m (chars "sessions/codex/2026/01/x.jsonl.zst"), like m (chars "sessions/codex/2026/02/x.jsonl.zst")) = (true, false).
Proof. reflexivity. Qed.

Lemma cycle_purges_safely_witness :
  cfg_purge_enabled arch_config = true ∧ projections_behind (lp_archive arch_loop) = [].
Proof.
  destruct arch_cycle as [[s' st'] out] eqn:E. unfold arch_cycle in E.
  destruct (cycle_purges_safely demo_hash demo_json demo_parse_uuid no_time [] no_plans
    arch_config arch_clock "2026-02-05T000000Z" (Ok [newline_byte]) false arch_loop ∅ s' st' out E) as (_ & _ & H).
  assert (Hr : ∃ r', ad_sessions (lp_archive s') !! arch_id = Some r' ∧ is_Some (purged_at (sr_columns r'))).
  { apply (f_equal (λ x, ad_sessions (lp_archive x.1.1))) in E. cbn [fst] in E. rewrite <-E.
    eexists. split; [vm_compute; reflexivity|]. by eexists. }
  destruct Hr as (r' & Hr' & Hp).
  destruct (H arch_id arch_live r') as (H1 & H2 & _); [vm_compute; reflexivity|reflexivity|exact Hr'|exact Hp|].
  split; [exact H1|exact H2].
Defined.

Definition arch_queue : Requests := enqueue_run false (Some "cli") 5 no_requests.

Definition arch_taken : option (Z * ArchiveRequest) * Requests := next_pending 6 arch_queue.

Lemma request_runs_once_witness : NoDup [1] ∧ rq_status <$> rs_rows (finish 1 (inl Null) 7 arch_taken.2) !! 1 = Some RqCompleted.
Proof.
  split; [|vm_compute; reflexivity].
  destruct (request_runs_once [1] (finish 1 (inl Null) 7 arch_taken.2, None)) as [H _]; [|exact H].
  change [1] with ((([] ++ []) ++ [1]) ++ [] : list Z).
  eapply bus_more; [eapply bus_more; [eapply bus_more; [exact bus_start|]|]|].
  - apply (bus_enqueue "run" (json_object [("dry_run", Bool false)]) (Some "cli") 5).
  - eapply (bus_take 6 _ 1). vm_compute. reflexivity.
  - apply bus_finish.
Defined.
