(* ===== verification/Auth.v ===== *)
(** * Who a browser request speaks for

    [auth.rs] and [auth/revocation.rs]: the signing keys a process caches and
    when it fetches them again, what a bearer token must say, the cutoff by
    which the broker ends the logins of a principal, and the check of it that
    other processes make over HTTP. *)

From S2P Require Import Prelude Text Json.

(** ** Signing keys *)

(** In microseconds, as instants are. *)
Definition JWKS_REFRESH_INTERVAL : Z := 60 * 15 * 1000000.
Definition JWKS_CACHE_TTL : Z := 60 * 60 * 1000000.
Definition JWKS_REFRESH_COOLDOWN : Z := 30 * 1000000.

Inductive Algorithm : Type := RS256 | OtherAlgorithm.

Record JwkKey : Type := mkJwk {
  jwk_kid : option string;
  jwk_kty : string;
  jwk_n : string;
  jwk_e : string;
}.

Record JwtClaims : Type := mkClaims {
  cl_sub : string;
  cl_exp : Z;
  cl_iat : Z;
  cl_auth_time : Z;
  cl_email : option string;
  cl_client_id : option string;
  cl_token_use : option string;
  cl_username : option string;
  cl_cognito_username : option string;
}.

(** [jsonwebtoken]: the header of a token, a key made of a modulus and an
    exponent, and the claims of a token that is signed with the key by RS256,
    names the issuer, has every required claim and is not expired at the
    time. *)
Class Jwt : Type := {
  DecodingKey : Type;
  from_rsa_components : string → string → option DecodingKey;
  decode_header : string → option (Algorithm * option string);
  decode : string → DecodingKey → string → Z → option JwtClaims;
}.

(** What fetching the key set comes to. *)
Inductive Fetch : Type :=
  | RequestFailed
  | PayloadInvalid
  | Jwks (keys : list JwkKey).

Inductive auth_error : Type :=
  | SigningKeysUnavailable
  | AuthorityUnavailable
  | Rejected (msg : string).

#[export] Instance auth_error_eq_dec : EqDecision auth_error.
Proof. solve_decision. Defined.

(** [Instant::elapsed] *)
Definition elapsed (at_ now : Z) : Z := Z.max 0 (now - at_).

Record RefreshAttempt : Type := mkAttempt {
  ra_at : Z;
  ra_succeeded : bool;
}.

Record AuthConfig : Type := mkAuthConfig {
  issuer_url : string;
  client_id : string;
}.

Record AuthenticatedUser : Type := mkUser {
  u_sub : string;
  u_username : option string;
  u_email : option string;
  u_token_use : string;
  u_auth_time : Z;
  u_expires_at : Z;
}.

Definition dev : AuthenticatedUser := mkUser "dev" (Some "dev") None "dev" 0 i64_max.

Record Authority : Type := mkAuthority {
  au_sub : string;
  au_auth_time : Z;
  au_expires_at : Z;
}.

Definition authority (user : AuthenticatedUser) : Authority :=
  mkAuthority (u_sub user) (u_auth_time user) (u_expires_at user).

(** [trim_end_matches('/')] *)
Definition trim_slashes (url : string) : string := trim_end_by (λ c, bool_decide (c = "/")) url.

Definition new_config (config : AuthConfig) : AuthConfig :=
  mkAuthConfig (trim_slashes (issuer_url config)) (client_id config).

Section keys.
Context `{Jwt}.

Record JwksCache : Type := mkCache {
  loaded_at : Z;
  cached_keys : gmap string DecodingKey;
}.

Record SigningKeys : Type := mkSigning {
  jwks_cache : option JwksCache;
  last_refresh : option RefreshAttempt;
}.

Definition no_signing_keys : SigningKeys := mkSigning None None.

(** The keys of a payload: those that are RSA and have an id; one whose
    numbers are no key spoils the payload. *)
Fixpoint usable_keys (jwks : list JwkKey) (keys : gmap string DecodingKey) : option (gmap string DecodingKey) :=
  match jwks with
  | [] => Some keys
  | key :: jwks =>
      if negb (bool_decide (jwk_kty key = "RSA")) then usable_keys jwks keys
      else match jwk_kid key with
           | None => usable_keys jwks keys
           | Some kid =>
               match from_rsa_components (jwk_n key) (jwk_e key) with
               | None => None
               | Some k => usable_keys jwks (<[kid := k]> keys)
               end
           end
  end.

(** The attempt is on record before the request is sent. [done] is the
    instant the reply was read. *)
Definition refresh_jwks (now done : Z) (fetch : Fetch) (s : SigningKeys) : SigningKeys * option auth_error :=
  let failed := mkSigning (jwks_cache s) (Some (mkAttempt now false)) in
  match fetch with
  | RequestFailed => (failed, Some (Rejected "jwks request failed"))
  | PayloadInvalid => (failed, Some (Rejected "invalid jwks payload"))
  | Jwks jwks =>
      match usable_keys jwks ∅ with
      | None => (failed, Some (Rejected "invalid rsa jwk"))
      | Some keys =>
          if bool_decide (keys = ∅ :> gmap string DecodingKey)
          then (failed, Some (Rejected "jwks contains no usable signing keys"))
          else (mkSigning (Some (mkCache done keys)) (Some (mkAttempt now true)), None)
      end
  end.

Definition find_cached_key (now : Z) (kid : string) (s : SigningKeys) : option DecodingKey :=
  match jwks_cache s with
  | None => None
  | Some current =>
      if JWKS_CACHE_TTL <=? elapsed (loaded_at current) now then None else cached_keys current !! kid
  end.

Definition cache_is_usable (now : Z) (s : SigningKeys) : bool :=
  match jwks_cache s with
  | None => false
  | Some cache => elapsed (loaded_at cache) now <? JWKS_CACHE_TTL
  end.

(** The last attempt, when it is so recent that no other is made. *)
Definition cooling (now : Z) (s : SigningKeys) : option RefreshAttempt :=
  match last_refresh s with
  | Some attempt => if elapsed (ra_at attempt) now <? JWKS_REFRESH_COOLDOWN then Some attempt else None
  | None => None
  end.

Definition find_key (now done : Z) (fetch : Fetch) (kid : string) (s : SigningKeys)
    : SigningKeys * (DecodingKey + auth_error) :=
  match find_cached_key now kid s with
  | Some key => (s, inl key)
  | None =>
      match cooling now s with
      | Some attempt =>
          (s, inr (if ra_succeeded attempt && cache_is_usable now s then Rejected "jwks missing key id"
                   else SigningKeysUnavailable))
      | None =>
          let (s, failure) := refresh_jwks now done fetch s in
          match failure with
          | Some _ => (s, inr SigningKeysUnavailable)
          | None =>
              (s, match find_cached_key done kid s with
                  | Some key => inl key
                  | None => inr (Rejected "jwks missing key id")
                  end)
          end
      end
  end.

(** The task that refreshes every quarter of an hour. *)
Definition refresh_tick (now done : Z) (fetch : Fetch) (s : SigningKeys) : SigningKeys :=
  match cooling now s with
  | Some _ => s
  | None => (refresh_jwks now done fetch s).1
  end.

(** ** Bearer tokens *)

Definition claimed_user (claims : JwtClaims) : AuthenticatedUser :=
  mkUser (cl_sub claims) (or_else (cl_username claims) (cl_cognito_username claims)) (cl_email claims)
    (default "unknown" (cl_token_use claims)) (cl_auth_time claims) (cl_exp claims).

Definition times_valid (now : Z) (claims : JwtClaims) : bool :=
  negb (is_empty (cl_sub claims)) && (cl_auth_time claims <=? cl_iat claims) && (cl_iat claims <=? now)
  && (now <? cl_exp claims) && (cl_iat claims <? cl_exp claims).

Definition check_claims (config : AuthConfig) (now : Z) (claims : JwtClaims) : AuthenticatedUser + auth_error :=
  match cl_token_use claims with
  | Some "access" =>
      if negb (bool_decide (cl_client_id claims = Some (client_id config))) then inr (Rejected "jwt client mismatch")
      else if negb (times_valid now claims) then inr (Rejected "invalid jwt times or subject")
      else inl (claimed_user claims)
  | Some other => inr (Rejected ("unsupported token_use " +:+ other))
  | None => inr (Rejected "jwt missing token_use")
  end.

(** What a request reads and receives: the instant it starts and the one its
    fetch ends, the time of day in seconds, and the reply of the fetch. *)
Record Reading : Type := mkReading {
  instant : Z;
  fetched_at : Z;
  utc_now : Z;
  fetched : Fetch;
}.

Definition validate_bearer (config : AuthConfig) (r : Reading) (token : string) (s : SigningKeys)
    : SigningKeys * (AuthenticatedUser + auth_error) :=
  match decode_header token with
  | None => (s, inr (Rejected "invalid jwt header"))
  | Some (OtherAlgorithm, _) => (s, inr (Rejected "unsupported jwt algorithm"))
  | Some (RS256, None) => (s, inr (Rejected "jwt missing kid"))
  | Some (RS256, Some kid) =>
      let (s, found) := find_key (instant r) (fetched_at r) (fetched r) kid s in
      match found with
      | inr e => (s, inr e)
      | inl key =>
          match decode token key (issuer_url config) (utc_now r) with
          | None => (s, inr (Rejected "jwt validation failed"))
          | Some claims => (s, check_claims config (utc_now r) claims)
          end
      end
  end.

End keys.

(** The token of an [Authorization] header. *)
Definition bearer (header : option string) : option string :=
  match header with
  | None => None
  | Some value =>
      match strip_prefix "Bearer " value with
      | Some token => if is_empty (trim token) then None else Some token
      | None => None
      end
  end.

(** The status a failed authentication is answered with. *)
Definition authentication_error_response (e : auth_error) : Z :=
  match e with
  | SigningKeysUnavailable | AuthorityUnavailable => 503
  | Rejected _ => 401
  end.

(** ** The cutoff of a principal *)

(** [browser_revocations]: for a subject, the second up to which its logins
    are void. *)
Abbreviation Revocations := (gmap string Z) (only parsing).

Definition allowed (t : Revocations) (now : Z) (a : Authority) : bool :=
  if au_expires_at a <=? now then false
  else match t !! au_sub a with None => true | Some at_ => at_ <? au_auth_time a end.

(** [clock] is the time of the database, in microseconds. *)
Definition revoke (clock : Z) (sub : string) (t : Revocations) : option Revocations :=
  if is_empty (trim sub) then None
  else Some (partial_alter (λ o, Some (match o with
                                       | None => clock `div` 1000000
                                       | Some before => Z.max before (clock `div` 1000000)
                                       end)) sub t).

(** ** The check from other processes *)

Definition REJECTED_CODE : string := "BROWSER_AUTHORITY_REJECTED".

Record HttpReply : Type := mkReply {
  rp_status : Z;
  rp_json : option Value;
}.

(** [reply] answers the request to the broker at the URL with the token;
    [None] is a request that could not be sent. *)
Definition check_remote (url token : option string) (reply : string → string → option HttpReply)
    : option auth_error :=
  match url, token with
  | None, _ | _, None => Some AuthorityUnavailable
  | Some base, Some token =>
      match reply (trim_slashes base +:+ "/v1/auth/check") token with
      | None => Some AuthorityUnavailable
      | Some r =>
          if rp_status r =? 204 then None
          else if rp_status r =? 401 then
            match rp_json r with
            | None => Some AuthorityUnavailable
            | Some body =>
                if value_eqb (index body "code") (Str REJECTED_CODE)
                then Some (Rejected "browser authority expired or revoked") else Some AuthorityUnavailable
            end
          else Some AuthorityUnavailable
      end
  end.

Definition check_authority (now : Z) (url token : option string) (reply : string → string → option HttpReply)
    (user : AuthenticatedUser) : option auth_error :=
  if u_expires_at user <=? now then Some (Rejected "browser authority expired")
  else if bool_decide (u_token_use user = "dev") then None
  else check_remote url token reply.

(** The middleware of the backend: the user the request goes on with, or the
    status it is answered with. Without a configuration everyone is the
    synthetic user. *)
Definition require_http_auth `{Jwt} (config : option AuthConfig) (url token : option string)
    (reply : Authority → string → string → option HttpReply) (r : Reading) (header : option string)
    (s : SigningKeys) : SigningKeys * (AuthenticatedUser + Z) :=
  match config with
  | None => (s, inl dev)
  | Some config =>
      match bearer header with
      | None => (s, inr 401)
      | Some tok =>
          let (s, user) := validate_bearer config r tok s in
          match user with
          | inr e => (s, inr (authentication_error_response e))
          | inl user =>
              match check_authority (utc_now r) url token (reply (authority user)) user with
              | Some e => (s, inr (authentication_error_response e))
              | None => (s, inl user)
              end
          end
      end
  end.

(** ** What a signed-in user showed *)

Section guarantees.
Context `{Jwt}.

(** A key that is found was loaded less than an hour before. *)
Lemma find_key_cached now done fetch kid s s' key :
  find_key now done fetch kid s = (s', inl key) →
  find_cached_key now kid s' = Some key ∨ find_cached_key done kid s' = Some key.
Proof.
  unfold find_key. destruct (find_cached_key now kid s) as [k|] eqn:Hk; [intros [= <- <-]; by left|].
  destruct (cooling now s); [done|]. destruct (refresh_jwks now done fetch s) as [s1 [e|]]; [done|].
  destruct (find_cached_key done kid s1) as [k|] eqn:Hd; [|done]. intros [= <- <-]. by right.
Qed.

Lemma find_cached_key_Some now kid s key :
  find_cached_key now kid s = Some key ↔
    ∃ cache, jwks_cache s = Some cache ∧ elapsed (loaded_at cache) now < JWKS_CACHE_TTL ∧ cached_keys cache !! kid = Some key.
Proof.
  unfold find_cached_key. destruct (jwks_cache s) as [cache|]; [|naive_solver].
  destruct (JWKS_CACHE_TTL <=? elapsed (loaded_at cache) now) eqn:E; [apply Z.leb_le in E|apply Z.leb_gt in E].
  - split; [done|]. intros (? & [= <-] & Hlt & _). lia.
  - split; [|naive_solver]. intros Hk. by exists cache.
Qed.

(** The token names a cached key, decodes under it, is an access token of
    this client, and its login is neither in the future nor expired. *)
Lemma validate_bearer_inv config r token s s' user :
  validate_bearer config r token s = (s', inl user) →
  ∃ kid key claims,
    decode_header token = Some (RS256, Some kid)
    ∧ find_key (instant r) (fetched_at r) (fetched r) kid s = (s', inl key)
    ∧ decode token key (issuer_url config) (utc_now r) = Some claims
    ∧ cl_token_use claims = Some "access" ∧ cl_client_id claims = Some (client_id config)
    ∧ user = claimed_user claims ∧ u_sub user ≠ ""
    ∧ u_auth_time user ≤ utc_now r < u_expires_at user.
Proof.
  unfold validate_bearer. destruct (decode_header token) as [[[] [kid|]]|]; try done.
  destruct (find_key _ _ _ _ _) as [s1 [key|e]] eqn:Hf; [|done].
  destruct (decode _ _ _ _) as [claims|] eqn:Hd; [|done]. unfold check_claims.
  destruct (cl_token_use claims) as [use|] eqn:Hu; [|done].
  destruct (decide (use = "access")) as [->|Hne].
  - case_bool_decide as Hc; [|done]. cbn [negb]. destruct (times_valid _ _) eqn:Ht; [|done]. intros [= <- <-].
    unfold times_valid, is_empty in Ht. rewrite !andb_true_iff in Ht. destruct Ht as ((((Hs & H1) & H2) & H3) & H4).
    apply negb_true_iff, bool_decide_eq_false in Hs. exists kid, key, claims. cbn. split_and!; try done; lia.
  - intros Hv. exfalso. revert Hv. by repeat case_match; simplify_eq.
Qed.

(** ** How often the keys are fetched *)

(** A lookup of a key or a turn of the refreshing task, at an instant. *)
Record KeyEvent : Type := mkKeyEvent {
  ke_now : Z;
  ke_done : Z;
  ke_fetch : Fetch;
  ke_kid : option string;
}.

Definition key_step (s : SigningKeys) (e : KeyEvent) : SigningKeys :=
  match ke_kid e with
  | Some kid => (find_key (ke_now e) (ke_done e) (ke_fetch e) kid s).1
  | None => refresh_tick (ke_now e) (ke_done e) (ke_fetch e) s
  end.

(** The event sends a request for the keys. *)
Definition fetches (s : SigningKeys) (e : KeyEvent) : bool :=
  is_none (cooling (ke_now e) s)
  && match ke_kid e with Some kid => is_none (find_cached_key (ke_now e) kid s) | None => true end.

Fixpoint requests (s : SigningKeys) (l : list KeyEvent) : list Z :=
  match l with
  | [] => []
  | e :: l => (if fetches s e then [ke_now e] else []) ++ requests (key_step s e) l
  end.

Lemma refresh_recorded now done fetch s :
  ∃ ok, last_refresh (refresh_jwks now done fetch s).1 = Some (mkAttempt now ok).
Proof.
  unfold refresh_jwks. destruct fetch as [| |jwks]; [by eexists..|]. destruct (usable_keys jwks ∅); [|by eexists].
  case_bool_decide; by eexists.
Qed.

Lemma key_step_last s e :
  if fetches s e then ∃ ok, last_refresh (key_step s e) = Some (mkAttempt (ke_now e) ok)
  else key_step s e = s.
Proof.
  unfold fetches, key_step, find_key, refresh_tick. destruct (refresh_recorded (ke_now e) (ke_done e) (ke_fetch e) s) as [ok Hok].
  destruct (ke_kid e) as [kid|].
  - destruct (find_cached_key _ _ _); cbn; [by rewrite andb_false_r|].
    destruct (cooling (ke_now e) s); cbn; [done|]. exists ok. destruct (refresh_jwks _ _ _ _) as [s1 [?|]]; done.
  - destruct (cooling (ke_now e) s); cbn; [done|]. by exists ok.
Qed.

Lemma fetches_after s e a : last_refresh s = Some a → fetches s e = true → ra_at a + JWKS_REFRESH_COOLDOWN ≤ ke_now e.
Proof.
  unfold fetches, cooling, elapsed. intros -> Hf. unfold JWKS_REFRESH_COOLDOWN in *.
  destruct (_ <? _) eqn:E; [done|]. apply Z.ltb_ge in E. lia.
Qed.

(** Two requests for the keys are at least the cooldown apart, whoever looks
    for whatever key. *)
Theorem fetches_apart l s : StronglySorted (λ a b, a + JWKS_REFRESH_COOLDOWN ≤ b) (requests s l).
Proof.
  assert (Hall : ∀ l s a, last_refresh s = Some a → Forall (λ t, ra_at a + JWKS_REFRESH_COOLDOWN ≤ t) (requests s l)).
  { clear l s. induction l as [|e l IH]; intros s a Ha; cbn; [constructor|]. pose proof (key_step_last s e) as Hs.
    destruct (fetches s e) eqn:Hf; cbn; [|rewrite Hs; by apply IH].
    destruct Hs as [ok Hok]. pose proof (fetches_after _ _ _ Ha Hf). constructor; [done|].
    eapply Forall_impl; [by apply (IH _ _ Hok)|]. intros t Ht. cbn in Ht. unfold JWKS_REFRESH_COOLDOWN in *. lia. }
  revert s. induction l as [|e l IH]; intros s; cbn; [constructor|]. pose proof (key_step_last s e) as Hs.
  destruct (fetches s e); cbn; [|by apply IH]. destruct Hs as [ok Hok]. constructor; [by apply IH|].
  by apply (Hall _ _ _ Hok).
Qed.

(** A fetch that fails leaves the keys there are. *)
Lemma failed_refresh_retains now done fetch s s' e :
  refresh_jwks now done fetch s = (s', Some e) → jwks_cache s' = jwks_cache s.
Proof.
  unfold refresh_jwks. destruct fetch as [| |jwks]; [by intros [= <- _]..|].
  destruct (usable_keys jwks ∅); [|by intros [= <- _]]. case_bool_decide; [by intros [= <- _]|done].
Qed.

End guarantees.

(** ** The cutoff only moves forward *)

Lemma revoke_Some clock sub t t' : revoke clock sub t = Some t' →
  ∃ at_, t' !! sub = Some at_ ∧ clock `div` 1000000 ≤ at_ ∧ ∀ before, t !! sub = Some before → before ≤ at_.
Proof.
  unfold revoke. destruct (is_empty _); [done|]. intros [= <-]. rewrite lookup_partial_alter_eq.
  destruct (t !! sub) as [before|]; eexists; (split; [done|]); split; try lia; intros ? [= <-]; lia.
Qed.

Lemma revoke_mono clock sub t t' sub' before : revoke clock sub t = Some t' → t !! sub' = Some before →
  ∃ at_, t' !! sub' = Some at_ ∧ before ≤ at_.
Proof.
  intros Hr Hb. destruct (decide (sub = sub')) as [<-|Hne].
  - destruct (revoke_Some _ _ _ _ Hr) as (a & Ha & _ & Hle). exists a. split; [done|by apply Hle].
  - unfold revoke in Hr. destruct (is_empty _); [done|]. simplify_eq. exists before.
    by rewrite lookup_partial_alter_ne.
Qed.

Lemma allowed_after t now a cutoff : t !! au_sub a = Some cutoff → allowed t now a = true → cutoff < au_auth_time a.
Proof. unfold allowed. intros -> Ha. destruct (_ <=? _); [done|]. lia. Qed.
