(* ===== verification/SecretBroker.v ===== *)
(** * The secret broker

    [secret_broker.rs], [secret_broker/redeem.rs],
    [secret_broker/browser_auth.rs] and [secret_protocol.rs], with the tables
    and the view of [broker_migrations]: secrets sealed under a master key,
    grants that unlock them for a terminal, a repository or for named
    programs everywhere, the keys of terminals, and the redemption of what is
    granted by a signed request. [serve] is the router with its two kinds of
    authentication.

    A request is one step; it reads the clocks once. Statements fail only for
    the constraints of the tables. *)

From S2P Require Import Prelude Text Store NodeWire NodeTrust Auth.

(** ** Libraries *)

Inductive LibraryFailure : Type :=
  | ForeignKeyViolation
  | CheckViolation
  | UniqueViolation
  | JsonMalformed.

(** ChaCha20-Poly1305 under a key, with a nonce; serde_json on the variables
    of a secret; the order a [HashMap] iterates in; the standard base64
    alphabet; the texts of errors and of [Debug]; and the collation of the
    database. *)
Class BrokerLibs : Type := {
  Cipher : Type;
  new_cipher : string → Cipher;
  seal : Cipher → string → string → option string;
  unseal : Cipher → string → string → option string;
  env_json : gmap string string → string;
  json_env : string → option (gmap string string);
  hash_order : gmap string string → list (string * string);
  b64_decode : string → option string;
  library_error : LibraryFailure → string;
  debug_text : string → string;
  collate : string → string → bool;
}.

Class BrokerLaws (L : BrokerLibs) (C : Crypto) : Prop := {
  unseal_seal c n p t : seal c n p = Some t → unseal c n t = Some p;
  json_env_json env : json_env (env_json env) = Some env;
  hash_order_perm env : hash_order env ≡ₚ map_to_list env;
  b64_decode_encode s : b64_decode (b64_encode s) = Some s;
}.

(** ** Answers *)

(** [Result<A, BrokerError>]: a status and a message. *)
Inductive reply (A : Type) : Type :=
  | Answer (a : A)
  | Fault (status : Z) (message : string).
Arguments Answer {A} a.
Arguments Fault {A} status message.

#[export] Instance reply_ret : MRet reply := @Answer.
#[export] Instance reply_bind : MBind reply := λ A B f r,
  match r with Answer a => f a | Fault s m => Fault s m end.

Definition bad_request {A} (message : string) : reply A := Fault 400 message.
Definition unauthorized {A} (message : string) : reply A := Fault 401 message.
Definition forbidden {A} (message : string) : reply A := Fault 403 message.
Definition internal {A} (message : string) : reply A := Fault 500 message.

(** ** Tables *)

Inductive GrantScope : Type := Terminal | Repository | AllTerminals.

#[export] Instance GrantScope_eq_dec : EqDecision GrantScope.
Proof. solve_decision. Defined.

Definition scope_str (s : GrantScope) : string :=
  match s with Terminal => "terminal" | Repository => "repository" | AllTerminals => "all_terminals" end.

Record SecretRow : Type := mkSecret {
  s_description : string;
  s_scope : string;
  s_repo : option string;
  s_ciphertext : string;
  s_nonce : string;
  s_updated_at : Z;
}.

Record GrantRow : Type := mkGrant {
  g_scope : GrantScope;
  g_pty : option Uuid;
  g_repo : option string;
  g_secret : string;
  g_sub : string;
  g_username : option string;
  g_expires_at : option Z;
  g_programs : option (list string);
  g_revoked_at : option Z;
}.

Record Credential : Type := mkCredential {
  c_public_key : string;
  c_repo : option string;
  c_created_at : Z;
  c_revoked_at : option Z;
}.

Record AuditRow : Type := mkAudit {
  a_pty : Uuid;
  a_secret : string;
  a_used_at : Z;
}.

Record BrokerDb : Type := mkBrokerDb {
  secrets : gmap string SecretRow;
  grants : gmap Uuid GrantRow;
  credentials : gmap Uuid Credential;
  use_nonces : gmap (Uuid * string) Z;
  use_audit : list AuditRow;
  revocations : gmap string Z;
}.

Definition empty_broker : BrokerDb := mkBrokerDb ∅ ∅ ∅ ∅ [] ∅.

Definition set_secrets t db :=
  mkBrokerDb t (grants db) (credentials db) (use_nonces db) (use_audit db) (revocations db).
Definition set_grants t db :=
  mkBrokerDb (secrets db) t (credentials db) (use_nonces db) (use_audit db) (revocations db).
Definition set_credentials t db :=
  mkBrokerDb (secrets db) (grants db) t (use_nonces db) (use_audit db) (revocations db).
Definition set_nonces t db :=
  mkBrokerDb (secrets db) (grants db) (credentials db) t (use_audit db) (revocations db).
Definition set_audit t db :=
  mkBrokerDb (secrets db) (grants db) (credentials db) (use_nonces db) t (revocations db).
Definition set_revocations t db :=
  mkBrokerDb (secrets db) (grants db) (credentials db) (use_nonces db) (use_audit db) t.

(** The constraint [grant_scope]; [trim] of the database removes spaces. *)
Definition pg_trim : string → string := trim_by (λ c, bool_decide (c = " ")).

Definition grant_scope_ok (g : GrantRow) : bool :=
  match g_scope g with
  | Terminal => is_some (g_pty g) && is_none (g_repo g) && is_some (g_expires_at g) && is_none (g_programs g)
  | Repository =>
      is_none (g_pty g) && match g_repo g with Some r => 0 <? byte_len (pg_trim r) | None => false end
      && is_none (g_expires_at g) && is_none (g_programs g)
  | AllTerminals =>
      is_none (g_pty g) && is_none (g_repo g) && is_none (g_expires_at g)
      && match g_programs g with Some ps => negb (bool_decide (ps = [])) | None => false end
  end.

(** The unique indexes on active grants: one per repository and secret, one
    per secret for all terminals. *)
Definition clashes (g h : GrantRow) : bool :=
  is_none (g_revoked_at g) && is_none (g_revoked_at h) && bool_decide (g_secret g = g_secret h)
  && ((is_some (g_repo g) && bool_decide (g_repo g = g_repo h))
      || (bool_decide (g_scope g = AllTerminals) && bool_decide (g_scope h = AllTerminals))).

(** [INSERT INTO secret_broker.grants] *)
Definition insert_grant `{BrokerLibs} (id : Uuid) (g : GrantRow) (db : BrokerDb) : reply BrokerDb :=
  if negb (grant_scope_ok g) then internal (library_error CheckViolation)
  else if is_some (grants db !! id) || existsb (λ r, clashes g r.2) (map_to_list (grants db))
  then internal (library_error UniqueViolation)
  else if is_none (secrets db !! g_secret g) then internal (library_error ForeignKeyViolation)
  else Answer (set_grants (<[id := g]> (grants db)) db).

(** ** Sealed variables *)

Definition ascii_whitespace (c : Ascii.ascii) : bool :=
  let n := Ascii.N_of_ascii c in bool_decide (n ∈ [32; 9; 10; 12; 13]%N).

Fixpoint without_whitespace (s : string) : string :=
  match s with
  | EmptyString => EmptyString
  | String c s => if ascii_whitespace c then without_whitespace s else String c (without_whitespace s)
  end.

(** [SecretCrypto::from_file], on the bytes of the file. *)
Definition from_file `{BrokerLibs} (file : option string) : option Cipher :=
  match file with
  | None => None
  | Some raw =>
      let key := without_whitespace raw in
      if byte_len key =? 32 then Some (new_cipher key) else None
  end.

Section broker.
Context `{BrokerLibs} `{Crypto} `{UuidText}.
Context `{HeapOrder (Uuid * GrantRow)} `{HeapOrder (Uuid * Credential)}.

(** [nonce] is what the generator draws. *)
Definition encrypt_env (c : Cipher) (nonce : string) (env : gmap string string) : reply (string * string) :=
  match seal c nonce (env_json env) with
  | Some text => Answer (text, nonce)
  | None => internal "encrypt secret payload"
  end.

Definition decrypt_env (c : Cipher) (ciphertext nonce : string) : reply (gmap string string) :=
  if negb (byte_len nonce =? 12) then internal "invalid nonce length"
  else match unseal c nonce ciphertext with
       | None => internal "decrypt secret payload"
       | Some text =>
           match json_env text with
           | Some env => Answer env
           | None => internal (library_error JsonMalformed)
           end
       end.

(** ** Secrets *)

Definition id_char (c : string) : bool :=
  match c with
  | String a EmptyString =>
      let n := Ascii.N_of_ascii a in
      ((48 <=? n) && (n <=? 57) || (65 <=? n) && (n <=? 90) || (97 <=? n) && (n <=? 122))%N
      || bool_decide (c ∈ ["-"; "_"; "."])
  | _ => false
  end.

Definition validate_secret_id (id : string) : reply unit :=
  if is_empty id || negb (forallb id_char (chars id)) then bad_request "invalid secret id" else Answer tt.

Record SecretEnvelope : Type := mkEnvelope {
  e_description : string;
  e_scope : string;
  e_repo : option string;
  e_env : gmap string string;
}.

Record SecretMetadata : Type := mkMetadata {
  m_id : string;
  m_description : string;
  m_scope : string;
  m_repo : option string;
  m_env_keys : list string;
  m_updated_at : Z;
  m_all_terminal_programs : option (list string);
}.

Definition bytes_le (a b : string) : Prop := string_ltb b a = false.
#[export] Instance bytes_le_dec a b : Decision (bytes_le a b) := bool_eq_dec _ _.

Definition in_collation (a b : string) : Prop := collate a b = true.
#[export] Instance in_collation_dec a b : Decision (in_collation a b) := bool_eq_dec _ _.

(** The rows of [list_secrets]: each secret with every active grant of it
    for all terminals, or once without. *)
Definition all_terminals_of (db : BrokerDb) (id : string) : list (option (list string)) :=
  let gs := List.filter (λ r : Uuid * GrantRow, bool_decide (g_secret r.2 = id)
                               && bool_decide (g_scope r.2 = AllTerminals) && is_none (g_revoked_at r.2))
              (heap_order (map_to_list (grants db))) in
  match gs with [] => [None] | _ => (λ r, g_programs r.2) <$> gs end.

Definition secret_metadata (c : Cipher) (id : string) (s : SecretRow) (programs : option (list string))
    : reply SecretMetadata :=
  env ← decrypt_env c (s_ciphertext s) (s_nonce s);
  Answer (mkMetadata id (s_description s) (s_scope s) (s_repo s) (merge_sort bytes_le (hash_order env).*1)
            (s_updated_at s) programs).

(** [.map(..).collect::<Result<Vec<_>, _>>()] *)
Fixpoint reply_map {A B} (f : A → reply B) (l : list A) : reply (list B) :=
  match l with
  | [] => Answer []
  | a :: l => b ← f a; bs ← reply_map f l; Answer (b :: bs)
  end.

Definition secret_rows (db : BrokerDb) : list (string * SecretRow * option (list string)) :=
  concat ((λ id, match secrets db !! id with
                 | Some s => (λ ps, (id, s, ps)) <$> all_terminals_of db id
                 | None => []
                 end) <$> merge_sort in_collation (map_to_list (secrets db)).*1).

Definition list_secrets (c : Cipher) (db : BrokerDb) : reply (list SecretMetadata) :=
  reply_map (λ r, secret_metadata c r.1.1 r.1.2 r.2) (secret_rows db).

Definition load_secret_env (c : Cipher) (id : string) (db : BrokerDb) : reply (option (gmap string string)) :=
  match secrets db !! id with
  | None => Answer None
  | Some row => env ← decrypt_env c (s_ciphertext row) (s_nonce row); Answer (Some env)
  end.

(** A blank value keeps the stored one. *)
Fixpoint merge_values (existing : option (gmap string string)) (items : list (string * string))
    (env : gmap string string) : reply (gmap string string) :=
  match items with
  | [] => Answer env
  | (key, value) :: items =>
      if is_empty value then
        match existing ≫= (.!! key) with
        | Some old => merge_values existing items (<[key := old]> env)
        | None => bad_request ("value for new env var " +:+ key +:+ " must not be empty")
        end
      else merge_values existing items (<[key := value]> env)
  end.

(** [now] is the time of the database, in microseconds. *)
Definition upsert_secret (c : Cipher) (now : Z) (nonce id : string) (body : SecretEnvelope) (db : BrokerDb)
    : reply BrokerDb :=
  validate_secret_id id ≫= λ _,
  if bool_decide (e_env body = ∅) then bad_request "env set must not be empty"
  else
    existing ← load_secret_env c id db;
    env ← merge_values existing (hash_order (e_env body)) ∅;
    if bool_decide (env = ∅ :> gmap string string) then bad_request "env set must not be empty"
    else
      sealed ← encrypt_env c nonce env;
      Answer (set_secrets (<[id := mkSecret (e_description body) (e_scope body) (e_repo body)
                                     sealed.1 sealed.2 now]> (secrets db)) db).

Definition get_secret (c : Cipher) (id : string) (db : BrokerDb) : reply SecretEnvelope :=
  validate_secret_id id ≫= λ _,
  match secrets db !! id with
  | None => Fault 404 "secret not found"
  | Some row =>
      env ← decrypt_env c (s_ciphertext row) (s_nonce row);
      Answer (mkEnvelope (s_description row) (s_scope row) (s_repo row) ((λ _, "") <$> env))
  end.

(** The grants of the secret go with it: [ON DELETE CASCADE]. *)
Definition delete_secret (id : string) (db : BrokerDb) : BrokerDb :=
  set_grants (filter (λ r, g_secret r.2 ≠ id) (grants db)) (set_secrets (delete id (secrets db)) db).

(** ** Grants in force *)

Record EffectiveGrant : Type := mkEffective {
  eg_pty : option Uuid;
  eg_secret : string;
  eg_sub : string;
  eg_username : option string;
  eg_expires_at : option Z;
  eg_repo : option string;
  eg_scope : GrantScope;
  eg_programs : option (list string);
  eg_precedence : Z;
}.

(** The credentials a grant is joined with. *)
Definition joins (g : GrantRow) (p : Credential) : bool :=
  is_none (c_revoked_at p)
  && match g_scope g with
     | Terminal => false
     | Repository => is_some (g_repo g) && bool_decide (c_repo p = g_repo g)
     | AllTerminals => true
     end.

Definition unexpired (now : Z) (g : GrantRow) : bool :=
  match g_expires_at g with Some t => now <? t | None => false end.

Definition in_view (now : Z) (g : GrantRow) (p : option Uuid) : bool :=
  is_none (g_revoked_at g)
  && (negb (bool_decide (g_scope g = Terminal)) || unexpired now g)
  && (bool_decide (g_scope g = Terminal) || is_some p).

Definition effective (g : GrantRow) (p : option Uuid) : EffectiveGrant :=
  mkEffective (or_else (g_pty g) p) (g_secret g) (g_sub g) (g_username g) (g_expires_at g) (g_repo g) (g_scope g)
    (g_programs g) (if bool_decide (g_scope g = AllTerminals) then 0 else 1).

Definition joined (db : BrokerDb) (g : GrantRow) : list (option Uuid) :=
  match List.filter (λ p, joins g p.2) (heap_order (map_to_list (credentials db))) with
  | [] => [None]
  | ps => (λ p, Some p.1) <$> ps
  end.

(** The view [effective_grants]. *)
Definition effective_grants (now : Z) (db : BrokerDb) : list EffectiveGrant :=
  concat ((λ r, effective r.2 <$> List.filter (in_view now r.2) (joined db r.2))
            <$> heap_order (map_to_list (grants db))).

(** [ORDER BY expires_at DESC]: a null is greatest. *)
Definition expires_desc (a b : option Z) : Prop :=
  match a, b with None, _ => True | Some _, None => False | Some x, Some y => y ≤ x end.
#[export] Instance expires_desc_dec a b : Decision (expires_desc a b).
Proof. destruct a as [x|], b as [y|]; [exact (Z_le_dec y x)|apply _..]. Defined.

Definition later_first (a b : EffectiveGrant) : Prop := expires_desc (eg_expires_at a) (eg_expires_at b).
#[export] Instance later_first_dec : RelDecision later_first := λ a b, expires_desc_dec _ _.

(** [precedence DESC, expires_at DESC] *)
Definition stronger (a b : EffectiveGrant) : Prop :=
  eg_precedence b < eg_precedence a
  ∨ (eg_precedence a = eg_precedence b ∧ expires_desc (eg_expires_at a) (eg_expires_at b)).
#[export] Instance stronger_dec : RelDecision stronger.
Proof. intros a b. unfold stronger. apply _. Defined.

(** [DISTINCT ON (key)]: of the rows with a key the first in the order. *)
Definition distinct_on {A K} `{EqDecision K} (key : A → K) (le : relation A) `{!RelDecision le}
    (keys : list K) (l : list A) : list A :=
  omap (λ k, head (merge_sort le (List.filter (λ a, bool_decide (key a = k)) l))) keys.

Definition list_grants (now : Z) (pty : Uuid) (db : BrokerDb) : list EffectiveGrant :=
  let rows := List.filter (λ e, bool_decide (eg_pty e = Some pty)) (effective_grants now db) in
  let ids := merge_sort in_collation (remove_dups (eg_secret <$> rows)) in
  merge_sort later_first
    (distinct_on (λ e, (eg_secret e, eg_scope e)) later_first
       (id ← ids; scope ← [AllTerminals; Repository; Terminal]; [(id, scope)]) rows).

(** ** Granting and revoking *)

Record GrantTarget : Type := mkTarget {
  t_scope : GrantScope;
  t_pty : option Uuid;
  t_repo : option string;
}.

#[export] Instance GrantTarget_eq_dec : EqDecision GrantTarget.
Proof. solve_decision. Defined.

Definition registered_repo (db : BrokerDb) (pty : Uuid) : reply string :=
  match credentials db !! pty with
  | Some c =>
      match c_revoked_at c, c_repo c with
      | None, Some repo => Answer repo
      | _, _ => bad_request "terminal has no registered repository"
      end
  | None => bad_request "terminal has no registered repository"
  end.

Definition resolve (db : BrokerDb) (scope : GrantScope) (pty : option Uuid) : reply GrantTarget :=
  let required := match pty with Some p => Answer p | None => bad_request "pty_session_id is required" end in
  match scope with
  | Terminal => p ← required; Answer (mkTarget Terminal (Some p) None)
  | Repository => p ← required; repo ← registered_repo db p; Answer (mkTarget Repository None (Some repo))
  | AllTerminals => Answer (mkTarget AllTerminals None None)
  end.

Definition target_of (g : GrantRow) : GrantTarget := mkTarget (g_scope g) (g_pty g) (g_repo g).

Definition revoke_row (now : Z) (target : GrantTarget) (secret : string) (g : GrantRow) : GrantRow :=
  if bool_decide (g_secret g = secret) && bool_decide (target_of g = target) && is_none (g_revoked_at g)
  then mkGrant (g_scope g) (g_pty g) (g_repo g) (g_secret g) (g_sub g) (g_username g) (g_expires_at g)
         (g_programs g) (Some now)
  else g.

(** [GrantTarget::revoke] *)
Definition revoke_target (now : Z) (target : GrantTarget) (secret : string) (db : BrokerDb) : BrokerDb :=
  set_grants (revoke_row now target secret <$> grants db) db.

Record GrantRequest : Type := mkGrantRequest {
  q_pty : option Uuid;
  q_secret : string;
  q_ttl_seconds : option Z;
  q_scope : GrantScope;
  q_programs : option (list string);
}.

Fixpoint valid_programs (programs valid : list string) : reply (list string) :=
  match programs with
  | [] => Answer valid
  | p :: programs =>
      let program := trim p in
      if is_empty program || contains "/" program || existsb is_whitespace (chars program)
      then bad_request ("program must be a command name such as gh: " +:+ debug_text program)
      else valid_programs programs (if bool_decide (program ∈ valid) then valid else valid ++ [program])
  end.

Definition validate_programs (programs : list string) : reply (list string) :=
  valid ← valid_programs programs [];
  if bool_decide (valid = []) then bad_request "an all-terminals grant needs at least one program"
  else Answer valid.

Definition grant_ttl (scope : GrantScope) (ttl : option Z) : reply (option Z) :=
  match scope, ttl with
  | Terminal, Some ttl =>
      if (60 <=? ttl) && (ttl <=? 86400) then Answer (Some ttl)
      else bad_request "ttl_seconds must be between 60 and 86400"
  | Terminal, None => bad_request "ttl_seconds must be between 60 and 86400"
  | _, None => Answer None
  | _, Some _ => bad_request "only terminal grants expire; omit ttl_seconds"
  end.

Definition grant_programs (scope : GrantScope) (programs : option (list string)) : reply (option (list string)) :=
  match scope, programs with
  | AllTerminals, Some programs => ps ← validate_programs programs; Answer (Some ps)
  | AllTerminals, None => bad_request "an all-terminals grant needs at least one program"
  | _, None => Answer None
  | _, Some _ => bad_request "only all-terminals grants take programs"
  end.

Definition granted_row (user : AuthenticatedUser) (now : Z) (secret : string) (target : GrantTarget)
    (ttl : option Z) (programs : option (list string)) : GrantRow :=
  mkGrant (t_scope target) (t_pty target) (t_repo target) secret (u_sub user) (u_username user)
    ((λ s, now + s * 1000000) <$> ttl) programs None.

(** The transaction commits both statements or neither. *)
Definition unlock_grant (user : AuthenticatedUser) (now : Z) (id : Uuid) (body : GrantRequest) (db : BrokerDb)
    : reply BrokerDb :=
  validate_secret_id (q_secret body) ≫= λ _,
  ttl ← grant_ttl (q_scope body) (q_ttl_seconds body);
  programs ← grant_programs (q_scope body) (q_programs body);
  target ← resolve db (q_scope body) (q_pty body);
  insert_grant id (granted_row user now (q_secret body) target ttl programs)
    (revoke_target now target (q_secret body) db).

Record RevokeGrantRequest : Type := mkRevokeRequest {
  v_pty : option Uuid;
  v_secret : string;
  v_scope : GrantScope;
}.

Definition revoke_grant (now : Z) (body : RevokeGrantRequest) (db : BrokerDb) : reply BrokerDb :=
  target ← resolve db (v_scope body) (v_pty body);
  Answer (revoke_target now target (v_secret body) db).

(** ** Credentials of terminals *)

Record RegisterPtyCredentialRequest : Type := mkRegister {
  r_pty : Uuid;
  r_public_key : string;
  r_repo : option string;
}.

Definition register_pty_credential (now : Z) (body : RegisterPtyCredentialRequest) (db : BrokerDb)
    : reply BrokerDb :=
  match b64_decode (r_public_key body) with
  | None => bad_request "invalid public key"
  | Some key =>
      if negb (byte_len key =? 32) then bad_request "invalid public key length"
      else if match r_repo body with Some repo => is_empty (trim repo) | None => false end
      then bad_request "repository must not be empty"
      else Answer (set_credentials (<[r_pty body := mkCredential (r_public_key body) (r_repo body) now None]>
                                      (credentials db)) db)
  end.

Definition revoke_pty_credential (now : Z) (id : Uuid) (db : BrokerDb) : BrokerDb :=
  set_credentials (alter (λ c, if is_none (c_revoked_at c)
                               then mkCredential (c_public_key c) (c_repo c) (c_created_at c) (Some now) else c)
                     id (credentials db)) db.

(** ** Redemption *)

Record SignedUseSecretRequest : Type := mkUse {
  x_pty : Uuid;
  x_program : string;
  x_timestamp : Z;
  x_nonce : string;
  x_signature : string;
}.

Definition canonical_use_payload (pty : Uuid) (program : string) (timestamp : Z) (nonce : string) : string :=
  "sulion-secret-use-v2" +:+ newline +:+ uuid_text pty +:+ newline +:+ program +:+ newline
  +:+ pretty timestamp +:+ newline +:+ nonce +:+ newline.

(** [SignedUseSecretRequest::sign], with the nonce drawn and the time read. *)
Definition sign (key : KeyPair) (pty : Uuid) (program : string) (now : Z) (random : string)
    : SignedUseSecretRequest :=
  let nonce := b64_encode random in
  mkUse pty program now nonce (b64_encode (key_sign key (canonical_use_payload pty program now nonce))).

(** [i64::abs], without overflow checks. *)
Definition abs64 (z : Z) : Z := wrap64 (Z.abs z).

Definition stale (timestamp now : Z) : bool := 60 <? abs64 (wrap64 (timestamp - now)).

Definition minutes (n : Z) : Z := n * 60 * 1000000.

(** [utc] is the time of day in seconds, [now] the time of the database. *)
Definition verify_signed_use_request (utc now : Z) (body : SignedUseSecretRequest) (db : BrokerDb)
    : BrokerDb * reply unit :=
  if is_empty (trim (x_nonce body)) || (128 <? byte_len (x_nonce body)) then (db, unauthorized "invalid nonce")
  else if stale (x_timestamp body) utc then (db, unauthorized "stale secret-use request")
  else
    match credentials db !! x_pty body with
    | Some (mkCredential public_key _ _ None) =>
        match b64_decode public_key, b64_decode (x_signature body) with
        | None, _ => (db, unauthorized "invalid registered PTY key")
        | _, None => (db, unauthorized "invalid request signature")
        | Some key, Some signature =>
            let canonical := canonical_use_payload (x_pty body) (x_program body) (x_timestamp body) (x_nonce body) in
            if negb (ed25519_verify key canonical signature) then (db, unauthorized "invalid request signature")
            else
              let kept := filter (λ r, now - minutes 5 ≤ r.2) (use_nonces db) in
              match kept !! (x_pty body, x_nonce body) with
              | Some _ => (set_nonces kept db, unauthorized "replayed secret-use request")
              | None => (set_nonces (<[(x_pty body, x_nonce body) := now]> kept) db, Answer tt)
              end
        end
    | _ => (db, unauthorized "unknown PTY credential")
    end.

Record RedeemedSecret : Type := mkRedeemed {
  rs_secret_id : string;
  rs_precedence : Z;
  rs_env : gmap string string;
}.

Definition by_precedence (a b : RedeemedSecret) : Prop := rs_precedence b ≤ rs_precedence a.
#[export] Instance by_precedence_dec a b : Decision (by_precedence a b) := Z_le_dec _ _.

(** What a merge has come to: the variables, the rank each was set at, and
    the secrets that set one. *)
Record Merge : Type := mkMerge {
  mg_env : gmap string string;
  mg_ranks : gmap string Z;
  mg_contributors : list string;
}.

Fixpoint merge_secret (precedence : Z) (items : list (string * string)) (m : Merge) (contributed : bool)
    : Merge * bool + string :=
  match items with
  | [] => inl (m, contributed)
  | (key, value) :: items =>
      match mg_ranks m !! key with
      | Some rank => if precedence <? rank then merge_secret precedence items m contributed else inr key
      | None =>
          merge_secret precedence items
            (mkMerge (<[key := value]> (mg_env m)) (<[key := precedence]> (mg_ranks m)) (mg_contributors m)) true
      end
  end.

Fixpoint merge_all (redeemed : list RedeemedSecret) (m : Merge) : Merge + string :=
  match redeemed with
  | [] => inl m
  | secret :: redeemed =>
      match merge_secret (rs_precedence secret) (hash_order (rs_env secret)) m false with
      | inr key => inr key
      | inl (m, contributed) =>
          merge_all redeemed
            (if contributed then mkMerge (mg_env m) (mg_ranks m) (mg_contributors m ++ [rs_secret_id secret]) else m)
      end
  end.

Definition merge_by_precedence (redeemed : list RedeemedSecret) : gmap string string * list string + string :=
  match merge_all (merge_sort by_precedence redeemed) (mkMerge ∅ ∅ []) with
  | inl m => inl (mg_env m, mg_contributors m)
  | inr key => inr key
  end.

Definition applies (pty : Uuid) (program : string) (db : BrokerDb) (e : EffectiveGrant) : bool :=
  bool_decide (eg_pty e = Some pty)
  && match eg_programs e with None => true | Some ps => bool_decide (program ∈ ps) end
  && is_some (secrets db !! eg_secret e).

(** The rows of the query of [use_secret]: a secret and its precedence. *)
Definition redeemable (now : Z) (pty : Uuid) (program : string) (db : BrokerDb) : list (string * SecretRow * Z) :=
  let rows := List.filter (applies pty program db) (effective_grants now db) in
  omap (λ e, s ← secrets db !! eg_secret e; Some (eg_secret e, s, eg_precedence e))
    (distinct_on eg_secret stronger (merge_sort in_collation (remove_dups (eg_secret <$> rows))) rows).

Definition redeem (c : Cipher) (r : string * SecretRow * Z) : reply RedeemedSecret :=
  env ← decrypt_env c (s_ciphertext r.1.2) (s_nonce r.1.2);
  Answer (mkRedeemed r.1.1 r.2 env).

Definition redeem_granted (c : Cipher) (now : Z) (pty : Uuid) (program : string) (db : BrokerDb)
    : reply (gmap string string * list string) :=
  redeemed ← reply_map (redeem c) (redeemable now pty program db);
  match merge_by_precedence redeemed with
  | inr key => bad_request ("conflicting env var " +:+ key +:+ " across unlocked secrets")
  | inl (env, ids) =>
      if bool_decide (ids = []) then forbidden "no secret is unlocked for this terminal" else Answer (env, ids)
  end.

Definition use_secret (c : Cipher) (utc now : Z) (body : SignedUseSecretRequest) (db : BrokerDb)
    : BrokerDb * reply (gmap string string) :=
  let (db, verified) := verify_signed_use_request utc now body db in
  match verified with
  | Fault s m => (db, Fault s m)
  | Answer _ =>
      match redeem_granted c now (x_pty body) (x_program body) db with
      | Fault s m => (db, Fault s m)
      | Answer (env, ids) =>
          (set_audit (use_audit db ++ ((λ id, mkAudit (x_pty body) id now) <$> ids)) db, Answer env)
      end
  end.

(** ** The router *)

Inductive Request : Type :=
  | Health
  | RevokeBrowserSession
  | ListSecrets
  | GetSecret (id : string)
  | UpsertSecret (id : string) (body : SecretEnvelope)
  | DeleteSecret (id : string)
  | ListGrants (pty : Uuid)
  | UnlockGrant (body : GrantRequest)
  | RevokeGrant (body : RevokeGrantRequest)
  | UseSecret (body : SignedUseSecretRequest)
  | CheckBrowserAuthority (authority : Authority)
  | RevokeBrowserPrincipal (sub : string)
  | RegisterPtyCredential (body : RegisterPtyCredentialRequest)
  | RevokePtyCredential (id : Uuid).

Inductive Body : Type :=
  | NoBody
  | Ok_
  | ErrorBody (message : string)
  | AuthorityRejected
  | SecretList (l : list SecretMetadata)
  | SecretBody (s : SecretEnvelope)
  | GrantList (l : list EffectiveGrant)
  | EnvBody (env : gmap string string).

Record Response : Type := mkResponse {
  status : Z;
  body : Body;
}.

Definition respond {A} (ok : A → Response) (r : reply A) : Response :=
  match r with Answer a => ok a | Fault s m => mkResponse s (ErrorBody m) end.

(** A statement that changes the tables, or an error that leaves them. *)
Definition commit (db : BrokerDb) (code : Z) (r : reply BrokerDb) : BrokerDb * Response :=
  match r with
  | Answer db => (db, mkResponse code NoBody)
  | Fault s m => (db, mkResponse s (ErrorBody m))
  end.

(** [authentication_error_response] with its body. *)
Definition auth_failure (e : auth_error) : Response :=
  mkResponse (authentication_error_response e)
    (ErrorBody (match e with
                | SigningKeysUnavailable | AuthorityUnavailable => "authentication temporarily unavailable"
                | Rejected _ => "unauthorized"
                end)).

Definition no_authority : Response := mkResponse 401 (ErrorBody "unauthorized").

(** What a request reads and draws. *)
Record Moment : Type := mkMoment {
  reading : Reading;
  db_now : Z;
  new_id : Uuid;
  drawn : string;
}.

Definition revoke_principal (t : Moment) (sub : string) (db : BrokerDb) : BrokerDb * Response :=
  match revoke (db_now t) sub (revocations db) with
  | Some rs => (set_revocations rs db, mkResponse 204 NoBody)
  | None => (db, mkResponse 503 NoBody)
  end.

Definition check_browser_authority (t : Moment) (a : Authority) (db : BrokerDb) : Response :=
  if allowed (revocations db) (utc_now (reading t)) a then mkResponse 204 NoBody
  else mkResponse 401 AuthorityRejected.

(** The routes a browser uses, for the user the middleware found. *)
Definition user_route (c : Cipher) (t : Moment) (user : AuthenticatedUser) (r : Request) (db : BrokerDb)
    : BrokerDb * Response :=
  match r with
  | RevokeBrowserSession => revoke_principal t (u_sub user) db
  | ListSecrets => (db, respond (λ l, mkResponse 200 (SecretList l)) (list_secrets c db))
  | GetSecret id => (db, respond (λ s, mkResponse 200 (SecretBody s)) (get_secret c id db))
  | UpsertSecret id body => commit db 204 (upsert_secret c (db_now t) (drawn t) id body db)
  | DeleteSecret id => (delete_secret id db, mkResponse 204 NoBody)
  | ListGrants pty => (db, mkResponse 200 (GrantList (list_grants (db_now t) pty db)))
  | UnlockGrant body => commit db 201 (unlock_grant user (db_now t) (new_id t) body db)
  | RevokeGrant body => commit db 204 (revoke_grant (db_now t) body db)
  | _ => (db, mkResponse 404 NoBody)
  end.

(** The routes of nodes and the backend, for the registration token. *)
Definition machine_route (t : Moment) (r : Request) (db : BrokerDb) : BrokerDb * Response :=
  match r with
  | CheckBrowserAuthority a => (db, check_browser_authority t a db)
  | RevokeBrowserPrincipal sub => revoke_principal t sub db
  | RegisterPtyCredential body => commit db 201 (register_pty_credential (db_now t) body db)
  | RevokePtyCredential id => (revoke_pty_credential (db_now t) id db, mkResponse 204 NoBody)
  | _ => (db, mkResponse 404 NoBody)
  end.

Context `{Jwt}.

(** [BrokerState]: the tables, and the keys its [AuthState] caches. *)
Record Broker : Type := mkBroker {
  b_db : BrokerDb;
  b_keys : SigningKeys;
}.

Record BrokerConfig : Type := mkBrokerConfig {
  b_auth : AuthConfig;
  b_cipher : Cipher;
  b_registration_token : string;
}.

(** The middleware of the user routes: the user, or the answer. *)
Definition require_user_auth (config : BrokerConfig) (t : Moment) (header : option string) (r : Request)
    (b : Broker) : SigningKeys * (AuthenticatedUser + Response) :=
  match bearer header with
  | None => (b_keys b, inr no_authority)
  | Some token =>
      let (keys, user) := validate_bearer (b_auth config) (reading t) token (b_keys b) in
      match user with
      | inr e => (keys, inr (auth_failure e))
      | inl user =>
          if allowed (revocations (b_db b)) (utc_now (reading t)) (authority user) then (keys, inl user)
          else match r with
               | RevokeBrowserSession => (keys, inr (mkResponse 204 NoBody))
               | _ => (keys, inr no_authority)
               end
      end
  end.

Definition serve (config : BrokerConfig) (t : Moment) (header : option string) (r : Request) (b : Broker)
    : Broker * Response :=
  match r with
  | Health => (b, mkResponse 200 Ok_)
  | UseSecret body =>
      let (db, answer) := use_secret (b_cipher config) (utc_now (reading t)) (db_now t) body (b_db b) in
      (mkBroker db (b_keys b), respond (λ env, mkResponse 200 (EnvBody env)) answer)
  | CheckBrowserAuthority _ | RevokeBrowserPrincipal _ | RegisterPtyCredential _ | RevokePtyCredential _ =>
      if bool_decide (bearer header = Some (b_registration_token config))
      then let (db, answer) := machine_route t r (b_db b) in (mkBroker db (b_keys b), answer)
      else (b, no_authority)
  | _ =>
      let (keys, user) := require_user_auth config t header r b in
      match user with
      | inr answer => (mkBroker (b_db b) keys, answer)
      | inl user => let (db, answer) := user_route (b_cipher config) t user r (b_db b) in (mkBroker db keys, answer)
      end
  end.

(** A history: what arrived, at which moment and with which header. *)
Definition Event : Type := Moment * option string * Request.

Definition broker_step (config : BrokerConfig) (b : Broker) (e : Event) : Broker :=
  (serve config e.1.1 e.1.2 e.2 b).1.

Definition run_broker (config : BrokerConfig) (h : list Event) (b : Broker) : Broker :=
  foldl (broker_step config) b h.

Definition new_broker : Broker := mkBroker empty_broker no_signing_keys.

(** ** Terminals and services *)

Section clients.
(** The connection to the broker: a header and a request, answered unless it
    cannot be reached. *)
Context {B : Type} (send : option string → Request → B → B * option Response).

Record BrokerRegistrationClient : Type := mkRegistration {
  broker_url : string;
  registration_token : string;
}.

Definition broker_registration_client (url token : option string) : option BrokerRegistrationClient :=
  match url, token with
  | Some url, Some token =>
      if is_empty (trim url) || is_empty (trim token) then None else Some (mkRegistration url token)
  | _, _ => None
  end.

Definition successful (r : Response) : bool := (200 <=? status r) && (status r <? 300).

Definition register_credential (client : BrokerRegistrationClient) (pty : Uuid) (public_key : string)
    (repo : option string) (b : B) : B * res unit :=
  let (b, answer) := send (Some ("Bearer " +:+ registration_token client))
                       (RegisterPtyCredential (mkRegister pty public_key repo)) b in
  match answer with
  | None => (b, bail "reach the secret broker")
  | Some r => (b, if successful r then Ok tt else bail "secret broker refused a PTY credential")
  end.

(** The key a terminal starts with; [None] without a broker. The directory
    and the key file are written. *)
Definition prepare_pty_credential (client : option BrokerRegistrationClient) (pty : Uuid) (repo : string)
    (key : KeyPair) (b : B) : B * res (option KeyPair) :=
  match client with
  | None => (b, Ok None)
  | Some client =>
      let (b, registered) := register_credential client pty (b64_encode (key_public key)) (Some repo) b in
      (b, registered ≫= λ _, Ok (Some key))
  end.

(** [file] is the key file of the surviving shell. *)
Definition refresh_pty_credential (client : option BrokerRegistrationClient) (pty : Uuid) (repo : string)
    (file : option string) (b : B) : B * res unit :=
  match client with
  | None => (b, Ok tt)
  | Some client =>
      match file with
      | None => (b, bail "read key")
      | Some raw =>
          match from_pkcs8 raw with
          | None => (b, bail "load surviving PTY secret broker key")
          | Some key => register_credential client pty (b64_encode (key_public key)) (Some repo) b
          end
      end
  end.

Definition revoke_credential (client : option BrokerRegistrationClient) (pty : Uuid) (b : B) : B :=
  match client with
  | None => b
  | Some client => (send (Some ("Bearer " +:+ registration_token client)) (RevokePtyCredential pty) b).1
  end.

(** What a service is given for a program, without a repository. *)
Definition redeem_for_service (client : option BrokerRegistrationClient) (service : Uuid) (program : string)
    (key : KeyPair) (now : Z) (random : string) (b : B) : B * res (option (gmap string string)) :=
  match client with
  | None => (b, Ok None)
  | Some client =>
      let (b, registered) := register_credential client service (b64_encode (key_public key)) None b in
      match registered with
      | Err e => (b, Err e)
      | Ok _ =>
          let (b, answer) := send None (UseSecret (sign key service program now random)) b in
          (b, match answer with
              | None => bail "reach the secret broker"
              | Some r =>
                  if status r =? 403 then Ok None
                  else if negb (status r <? 400) then bail ("redeem secrets for " +:+ program)
                  else match body r with EnvBody env => Ok (Some env) | _ => bail "decode broker response" end
              end)
      end
  end.

(** [Path::file_name]: the last component, unless it climbs. *)
Definition path_file_name (path : string) : option string :=
  match last (List.filter (λ c, negb (bool_decide (c ∈ [""; "."]))) (split_char "/"%char path)) with
  | Some name => if bool_decide (name = "..") then None else Some name
  | None => None
  end.

Definition program_name (command : string) : string := default command (path_file_name command).

(** The command after the leading [--]. *)
Definition parse_command (args : list string) : option (list string) :=
  match args with
  | separator :: command =>
      if bool_decide (separator = "--") && negb (bool_decide (command = [])) then Some command else None
  | [] => None
  end.

(** What [with-cred] does: exit, fail, or become the command with the
    variables added to its environment. *)
Inductive HelperOutcome : Type :=
  | Exit (code : Z)
  | HelperError (message : string)
  | Exec (command : list string) (env : gmap string string).

Record HelperEnv : Type := mkHelperEnv {
  pty_id : option string;
  key_path : option string;
  read_key : string → option string;
}.

Definition with_cred (parse_uuid : string → option Uuid) (args : list string) (env : HelperEnv) (now : Z)
    (random : string) (b : B) : B * HelperOutcome :=
  match parse_command args with
  | None | Some [] => (b, Exit 64)
  | Some (program :: rest) =>
      match pty_id env ≫= parse_uuid with
      | None => (b, Exit 65)
      | Some pty =>
          match key_path env with
          | None => (b, Exit 65)
          | Some path =>
              if is_empty (trim path) then (b, Exit 65)
              else match read_key env path with
                   | None => (b, HelperError "read PTY secret broker key")
                   | Some raw =>
                       match from_pkcs8 raw with
                       | None => (b, HelperError "invalid PTY secret broker key")
                       | Some key =>
                           let (b, answer) := send None (UseSecret (sign key pty (program_name program) now random)) b in
                           (b, match answer with
                               | None => Exit 66
                               | Some r =>
                                   if successful r
                                   then match body r with
                                        | EnvBody vars => Exec (program :: rest) vars
                                        | _ => HelperError "invalid broker response"
                                        end
                                   else Exit 66
                               end)
                       end
                   end
          end
      end
  end.

End clients.

End broker.
