(* ===== verification/SecretRedeem.v ===== *)
(** * What the secret broker redeems

    The merge of secrets against its specification, the grants in force for
    a terminal read off the tables, and the answer of a redemption in terms
    of both. *)

From S2P Require Import Prelude Text Store NodeWire NodeTrust Auth SecretBroker.

(** ** Merging *)

(** [s] has a value for [k], and no secret of a higher rank has one. *)
Definition wins (l : list RedeemedSecret) (s : RedeemedSecret) (k v : string) : Prop :=
  s ∈ l ∧ rs_env s !! k = Some v
  ∧ ∀ s', s' ∈ l → is_Some (rs_env s' !! k) → rs_precedence s' ≤ rs_precedence s.

#[export] Instance wins_proper : Proper ((≡ₚ) ==> (=) ==> (=) ==> (=) ==> (↔)) wins.
Proof. intros l l' Hl ? s -> ? k -> ? v ->. unfold wins. by setoid_rewrite Hl. Qed.

Section merging.
Context {L : BrokerLibs} {C : Crypto} {laws : BrokerLaws L C}.

Lemma hash_order_keys env : NoDup (hash_order env).*1.
Proof. rewrite hash_order_perm. apply NoDup_fst_map_to_list. Qed.

Lemma elem_of_hash_order env k v : (k, v) ∈ hash_order env ↔ env !! k = Some v.
Proof. rewrite hash_order_perm. apply elem_of_map_to_list. Qed.

Lemma merge_secret_spec p items m c :
  NoDup items.*1 →
  match merge_secret p items m c with
  | inl (m', c') =>
      (∀ k r, k ∈ items.*1 → mg_ranks m !! k = Some r → p < r)
      ∧ mg_contributors m' = mg_contributors m
      ∧ (∀ k, mg_ranks m' !! k = match mg_ranks m !! k with
                                 | Some r => Some r
                                 | None => if decide (k ∈ items.*1) then Some p else None
                                 end)
      ∧ (∀ k v, mg_env m' !! k = Some v ↔
           (mg_env m !! k = Some v ∧ (mg_ranks m !! k = None → k ∉ items.*1))
           ∨ (mg_ranks m !! k = None ∧ (k, v) ∈ items))
      ∧ (c' = true ↔ c = true ∨ ∃ k, k ∈ items.*1 ∧ mg_ranks m !! k = None)
  | inr k => k ∈ items.*1 ∧ ∃ r, mg_ranks m !! k = Some r ∧ r ≤ p
  end.
Proof.
  revert m c. induction items as [|[k v] items IH]; intros m c Hnd.
  { cbn. split_and!; [set_solver|done| |set_solver|set_solver]. intros k.
    destruct (mg_ranks m !! k); [done|]. by rewrite decide_False by set_solver. }
  rewrite fmap_cons, NoDup_cons in Hnd. destruct Hnd as [Hk Hnd]. cbn [fst] in Hk.
  cbn [merge_secret]. destruct (mg_ranks m !! k) as [rank|] eqn:Hrank.
  - destruct (p <? rank) eqn:Hp.
    + apply Z.ltb_lt in Hp. specialize (IH m c Hnd).
      destruct (merge_secret p items m c) as [[m' c']|k']; [|set_solver].
      destruct IH as (H1 & H2 & H3 & H4 & H5). split_and!; [|done| | |].
      * intros k' r [->|Hin]%elem_of_cons Hr; [|by eapply H1]. cbn in Hr. congruence.
      * intros k'. rewrite H3. destruct (mg_ranks m !! k') eqn:Hr; [done|].
        assert (k' ≠ k) by congruence.
        destruct (decide (k' ∈ items.*1)), (decide (k' ∈ ((k, v) :: items).*1)); set_solver.
      * intros k' v'. rewrite H4. rewrite fmap_cons, not_elem_of_cons, elem_of_cons. cbn. naive_solver.
      * rewrite H5. split; [set_solver|]. intros [?|(k' & [->|Hin]%elem_of_cons & Hr)]; [by left|cbn in *; congruence|].
        right. by exists k'.
    + apply Z.ltb_ge in Hp. split; [by left|by eexists].
  - set (m1 := mkMerge _ _ _). specialize (IH m1 true Hnd).
    destruct (merge_secret p items m1 true) as [[m' c']|k'].
    + destruct IH as (H1 & H2 & H3 & H4 & H5). cbn [mg_ranks mg_env mg_contributors m1] in *. split_and!; [|done| | |].
      * intros k' r [->|Hin]%elem_of_cons Hr; [cbn in Hr; congruence|]. apply (H1 k'); [done|].
        by rewrite lookup_insert_ne by set_solver.
      * intros k'. rewrite H3. destruct (decide (k' = k)) as [->|Hne].
        { rewrite lookup_insert_eq, Hrank. by rewrite decide_True by set_solver. }
        rewrite lookup_insert_ne by done. destruct (mg_ranks m !! k'); [done|].
        destruct (decide (k' ∈ items.*1)), (decide (k' ∈ ((k, v) :: items).*1)); set_solver.
      * intros k' v'. rewrite H4. destruct (decide (k' = k)) as [->|Hne].
        { rewrite !lookup_insert_eq, Hrank. split.
          - intros [[[= <-] _]|[? _]]; [|done]. right. split; [done|]. by left.
          - intros [[_ Hf]|[_ [[= <-]|Hin]%elem_of_cons]].
            + exfalso. apply Hf; [done|]. by left.
            + by left.
            + exfalso. apply Hk. by apply (list_elem_of_fmap_2' fst _ (k, v')). }
        rewrite !lookup_insert_ne by done. rewrite fmap_cons, not_elem_of_cons, elem_of_cons. naive_solver.
      * rewrite H5. split; [|set_solver]. intros _. right. exists k. split; [by left|done].
    + destruct IH as (Hin & r & Hr & Hle). split; [by right|]. exists r. split; [|done].
      cbn [mg_ranks m1] in Hr. by rewrite lookup_insert_ne in Hr by set_solver.
Qed.

(** What the first secrets of a list in order of rank have come to. *)
Record merged (done : list RedeemedSecret) (m : Merge) : Prop := {
  merged_env k v : mg_env m !! k = Some v ↔ ∃ s, wins done s k v;
  merged_rank k r : mg_ranks m !! k = Some r → ∃ s v, wins done s k v ∧ rs_precedence s = r;
  merged_none k : mg_ranks m !! k = None ↔ ∀ s, s ∈ done → rs_env s !! k = None;
  merged_ids id : id ∈ mg_contributors m ↔ ∃ s k v, wins done s k v ∧ rs_secret_id s = id;
  merged_nodup : NoDup (rs_secret_id <$> done) → NoDup (mg_contributors m);
  merged_unique k s s' v v' : wins done s k v → wins done s' k v' → s = s';
}.

Lemma wins_snoc done s s' k v :
  (∀ x, x ∈ done → rs_precedence s ≤ rs_precedence x) →
  wins (done ++ [s]) s' k v ↔
    wins done s' k v
    ∨ (s' = s ∧ rs_env s !! k = Some v
       ∧ ∀ x, x ∈ done → is_Some (rs_env x !! k) → rs_precedence x ≤ rs_precedence s).
Proof.
  intros Hle. unfold wins. setoid_rewrite elem_of_app. setoid_rewrite list_elem_of_singleton. split.
  - intros ([Hin| ->] & Hv & Hmax); [left|right]; naive_solver.
  - intros [(Hin & Hv & Hmax)|(-> & Hv & Hmax)]; split_and!; [by left|done| |by right|done|].
    + intros x [Hx| ->] Hk; [by apply Hmax|]. by apply Hle.
    + intros x [Hx| ->] Hk; [by apply Hmax|done].
Qed.

Lemma merge_step done m s :
  merged done m →
  (∀ x, x ∈ done → rs_precedence s ≤ rs_precedence x) →
  match merge_secret (rs_precedence s) (hash_order (rs_env s)) m false with
  | inl (m', c) =>
      merged (done ++ [s])
        (if c then mkMerge (mg_env m') (mg_ranks m') (mg_contributors m' ++ [rs_secret_id s]) else m')
  | inr k => ∃ s' v v', s' ∈ done ∧ wins (done ++ [s]) s' k v' ∧ wins (done ++ [s]) s k v
  end.
Proof.
  intros Hm Hle.
  pose proof (merge_secret_spec (rs_precedence s) _ m false (hash_order_keys (rs_env s))) as Hs.
  assert (Hkeys : ∀ k, k ∈ (hash_order (rs_env s)).*1 ↔ is_Some (rs_env s !! k)).
  { intros k. rewrite list_elem_of_fmap. split.
    - intros ([k' v] & -> & Hin). apply elem_of_hash_order in Hin. by exists v.
    - intros [v Hv]. exists (k, v). split; [done|]. by apply elem_of_hash_order. }
  destruct (merge_secret _ _ _ _) as [[m' c]|k].
  - destruct Hs as (Hlt & Hids & Hranks & Henv & Hc).
    assert (Hnew : ∀ k v, (rs_env s !! k = Some v
              ∧ ∀ x, x ∈ done → is_Some (rs_env x !! k) → rs_precedence x ≤ rs_precedence s)
              ↔ rs_env s !! k = Some v ∧ mg_ranks m !! k = None).
    { intros k v. split; intros [Hv Hx]; split; try done.
      - destruct (mg_ranks m !! k) as [r|] eqn:Hr; [|done]. exfalso.
        pose proof (Hlt k r (proj2 (Hkeys k) (mk_is_Some _ _ Hv)) Hr).
        destruct (merged_rank _ _ Hm k r Hr) as (s0 & v0 & (Hin & Hv0 & _) & <-).
        specialize (Hx s0 Hin (mk_is_Some _ _ Hv0)). lia.
      - intros x Hin [v' Hv']. apply (merged_none _ _ Hm) with (s := x) in Hx; [|done]. congruence. }
    assert (Hw : ∀ s' k v, wins (done ++ [s]) s' k v ↔ wins done s' k v
                   ∨ (s' = s ∧ rs_env s !! k = Some v ∧ mg_ranks m !! k = None)).
    { intros s' k v. rewrite wins_snoc by done. specialize (Hnew k v). naive_solver. }
    assert (Hdef : ∀ s' k v, wins done s' k v → mg_ranks m !! k ≠ None).
    { intros s' k v (Hin & Hv & _) Hn. rewrite (merged_none _ _ Hm) in Hn. specialize (Hn _ Hin). congruence. }
    assert (Hcs : c = true ↔ ∃ k v, wins (done ++ [s]) s k v ∧ rs_env s !! k = Some v ∧ mg_ranks m !! k = None).
    { rewrite Hc. split.
      - intros [?|(k & [v Hv]%Hkeys & Hr)]; [done|]. exists k, v. split_and!; [|done..]. apply Hw. naive_solver.
      - intros (k & v & _ & Hv & Hr). right. exists k. split; [apply Hkeys; by exists v|done]. }
    assert (Hall : ∀ m2, mg_env m2 = mg_env m' → mg_ranks m2 = mg_ranks m' →
              mg_contributors m2 = (if c then mg_contributors m ++ [rs_secret_id s] else mg_contributors m) →
              merged (done ++ [s]) m2).
    { intros m2 E1 E2 E3. constructor.
      - intros k v. rewrite E1, Henv. setoid_rewrite Hw. rewrite elem_of_hash_order.
        rewrite (merged_env _ _ Hm). split.
        + intros [[(s' & Hs') _]|[Hr Hv]]; [exists s'; by left|exists s; by right].
        + intros (s' & [Hs'|(-> & Hv & Hr)]); [left|by right]. split; [by exists s'|].
          intros Hr. by destruct (Hdef _ _ _ Hs').
      - intros k r. rewrite E2, Hranks. destruct (mg_ranks m !! k) as [r'|] eqn:Hr.
        + intros [= <-]. destruct (merged_rank _ _ Hm k r' Hr) as (s' & v & Hs' & ?).
          exists s', v. split; [apply Hw; by left|done].
        + case_decide as Hk; [|done]. intros [= <-]. apply Hkeys in Hk as [v Hv].
          exists s, v. split; [apply Hw; by right|done].
      - intros k. rewrite E2, Hranks. setoid_rewrite elem_of_app. setoid_rewrite list_elem_of_singleton.
        destruct (mg_ranks m !! k) as [r'|] eqn:Hr.
        + split; [done|]. intros Hn. destruct (merged_rank _ _ Hm k r' Hr) as (s' & v & (Hin & Hv & _) & _).
          rewrite Hn in Hv by by left. done.
        + rewrite (merged_none _ _ Hm) in Hr. case_decide as Hk.
          * split; [done|]. intros Hn. apply Hkeys in Hk as [v Hv]. rewrite Hn in Hv by by right. done.
          * split; [|done]. intros _ s' [Hin| ->]; [by apply Hr|].
            destruct (rs_env s !! k) eqn:Hv; [|done]. destruct Hk. apply Hkeys. by eexists.
      - intros id. rewrite E3. transitivity (id ∈ mg_contributors m ∨ (c = true ∧ id = rs_secret_id s)).
        { destruct c; [rewrite elem_of_app, list_elem_of_singleton|]; naive_solver. }
        rewrite Hcs, (merged_ids _ _ Hm). setoid_rewrite Hw. naive_solver.
      - intros Hnd. rewrite fmap_app, NoDup_app in Hnd. destruct Hnd as (Hnd & Hdisj & _). rewrite E3.
        destruct c; [|by apply (merged_nodup _ _ Hm)].
        apply NoDup_app. split_and!; [by apply (merged_nodup _ _ Hm)| |apply NoDup_singleton].
        intros id (s' & k & v & (Hin & _) & <-)%(merged_ids _ _ Hm) Hx. apply (Hdisj (rs_secret_id s')); [|done].
        by apply list_elem_of_fmap_2.
      - intros k s1 s2 v1 v2. rewrite !Hw.
        intros [H1|(-> & Hv1 & Hr1)] [H2|(-> & Hv2 & Hr2)]; [by eapply (merged_unique _ _ Hm)| | |done].
        + by destruct (Hdef _ _ _ H1).
        + by destruct (Hdef _ _ _ H2). }
    destruct c; apply Hall; cbn; by rewrite ?Hids.
  - destruct Hs as ([v Hv]%Hkeys & r & Hr & Hrle).
    destruct (merged_rank _ _ Hm k r Hr) as (s' & v' & Hw' & <-). destruct (Hw') as (Hin & Hv' & Hmax).
    pose proof (Hle _ Hin). exists s', v, v'. split_and!; [done|apply wins_snoc; [done|by left]|].
    apply wins_snoc; [done|]. right. split_and!; [done..|]. intros x Hx Hk. specialize (Hmax x Hx Hk). lia.
Qed.

Lemma merged_nothing : merged [] (mkMerge ∅ ∅ []).
Proof.
  constructor; cbn.
  - intros k v. rewrite lookup_empty. split; [done|]. by intros (s & Hs%elem_of_nil & _).
  - intros k r. by rewrite lookup_empty.
  - intros k. rewrite lookup_empty. split; [|done]. by intros _ s Hs%elem_of_nil.
  - intros id. split; [by intros ?%elem_of_nil|]. by intros (s & k & v & (Hs%elem_of_nil & _) & _).
  - constructor.
  - by intros k s s' v v' [Hs%elem_of_nil _].
Qed.

(** Two secrets of the rank that decides set one variable. *)
Definition conflict (l : list RedeemedSecret) (k : string) : Prop :=
  ∃ s s' v v', rs_secret_id s ≠ rs_secret_id s' ∧ wins l s k v ∧ wins l s' k v'.

Lemma merge_all_spec rest done m :
  merged done m → StronglySorted by_precedence (done ++ rest) → NoDup (rs_secret_id <$> done ++ rest) →
  match merge_all rest m with
  | inl m' => merged (done ++ rest) m'
  | inr k => conflict (done ++ rest) k
  end.
Proof.
  revert done m. induction rest as [|s rest IH]; intros done m Hm Hs Hnd; cbn; [by rewrite app_nil_r|].
  assert (Hle : ∀ x, x ∈ done → rs_precedence s ≤ rs_precedence x).
  { intros x Hx. apply StronglySorted_app in Hs as (Hs & _ & _). apply Hs; [done|by left]. }
  pose proof (merge_step done m s Hm Hle) as Hstep. rewrite cons_middle, app_assoc in Hs, Hnd |- *.
  destruct (merge_secret _ _ _ _) as [[m' c]|k]; [by apply IH|].
  destruct Hstep as (s' & v & v' & Hin & H1 & H2). exists s', s, v', v.
  assert (Hrest : ∀ x y w, wins (done ++ [s]) x k y → y = w → wins ((done ++ [s]) ++ rest) x k w).
  { intros x y w (Hx & Hy & Hmax) <-. split_and!; [apply elem_of_app; by left|done|].
    intros z [Hz|Hz]%elem_of_app Hk; [by apply Hmax|].
    apply StronglySorted_app in Hs as (Hs & _ & _). by apply Hs. }
  split_and!; [|by eapply Hrest|by eapply Hrest].
  intros E. rewrite <-app_assoc, fmap_app, NoDup_app in Hnd. destruct Hnd as (_ & Hnd & _).
  apply (Hnd (rs_secret_id s')); [by apply list_elem_of_fmap_2|]. rewrite E. cbn. left.
Qed.

Lemma merge_by_precedence_spec l :
  NoDup (rs_secret_id <$> l) →
  match merge_by_precedence l with
  | inl (env, ids) =>
      (∀ k v, env !! k = Some v ↔ ∃ s, wins l s k v)
      ∧ (∀ id, id ∈ ids ↔ ∃ s k v, wins l s k v ∧ rs_secret_id s = id)
      ∧ NoDup ids ∧ ∀ k, ¬ conflict l k
  | inr k => conflict l k
  end.
Proof.
  intros Hnd. unfold merge_by_precedence. pose proof (merge_sort_Permutation by_precedence l) as Hp.
  pose proof (merge_all_spec (merge_sort by_precedence l) [] _ merged_nothing) as Hall. cbn [app] in Hall.
  assert (Total by_precedence) by (intros a b; unfold by_precedence; lia).
  assert (Transitive by_precedence) by (intros a b c; unfold by_precedence; lia).
  specialize (Hall (StronglySorted_merge_sort _ _)).
  assert (NoDup (rs_secret_id <$> merge_sort by_precedence l)) as Hnd' by by rewrite Hp.
  specialize (Hall Hnd'). destruct (merge_all _ _) as [m|k].
  - destruct Hall. setoid_rewrite Hp in merged_env0. setoid_rewrite Hp in merged_ids0.
    split_and!; [done|done|by apply merged_nodup0|].
    intros k (s & s' & v & v' & Hne & Hs & Hs'). apply Hne. f_equal. rewrite <-Hp in Hs, Hs'.
    by eapply merged_unique0.
  - destruct Hall as (s & s' & v & v' & Hne & Hs & Hs'). rewrite Hp in Hs, Hs'. by exists s, s', v, v'.
Qed.

End merging.

(** ** The grants in force for a terminal *)

Definition live_credential (db : BrokerDb) (pty : Uuid) (c : Credential) : Prop :=
  credentials db !! pty = Some c ∧ c_revoked_at c = None.

Definition in_force (now : Z) (pty : Uuid) (db : BrokerDb) (g : GrantRow) : Prop :=
  g_revoked_at g = None
  ∧ match g_scope g with
    | Terminal => g_pty g = Some pty ∧ ∃ t, g_expires_at g = Some t ∧ now < t
    | Repository => ∃ c repo, live_credential db pty c ∧ c_repo c = Some repo ∧ g_repo g = Some repo
    | AllTerminals => ∃ c, live_credential db pty c
    end.

Definition names_program (program : string) (g : GrantRow) : Prop :=
  match g_programs g with None => True | Some ps => program ∈ ps end.

Definition rank (g : GrantRow) : Z := if bool_decide (g_scope g = AllTerminals) then 0 else 1.

(** A grant at the rank opens the secret to the program in the terminal. *)
Definition opened (now : Z) (pty : Uuid) (program : string) (db : BrokerDb) (id : string) (r : Z) : Prop :=
  ∃ gid g, grants db !! gid = Some g ∧ g_secret g = id ∧ in_force now pty db g ∧ names_program program g ∧ rank g = r.

Definition scopes_ok (db : BrokerDb) : Prop := ∀ gid g, grants db !! gid = Some g → grant_scope_ok g = true.

#[export] Instance expires_desc_total : Total expires_desc.
Proof. intros [a|] [b|]; cbn; [lia|auto..]. Qed.
#[export] Instance expires_desc_trans : Transitive expires_desc.
Proof. intros [a|] [b|] [c|]; cbn; try done. lia. Qed.
#[export] Instance stronger_total : Total stronger.
Proof.
  intros a b. unfold stronger. destruct (expires_desc_total (eg_expires_at a) (eg_expires_at b)); [|];
    destruct (Ztrichotomy (eg_precedence a) (eg_precedence b)) as [?|[?|?]]; auto with lia.
Qed.
#[export] Instance stronger_trans : Transitive stronger.
Proof.
  intros a b c. unfold stronger. intros [?|[? ?]] [?|[? ?]]; [left; lia..|].
  right. split; [lia|]. by etransitivity.
Qed.

Lemma filter_In_iff {A} (f : A → bool) (l : list A) x : x ∈ List.filter f l ↔ x ∈ l ∧ f x = true.
Proof. by rewrite !list_elem_of_In, filter_In. Qed.

(** The head of a sorted list is its least element. *)
Lemma head_merge_sort {A} (le : relation A) `{!RelDecision le} `{!Total le} `{!Transitive le} l a :
  head (merge_sort le l) = Some a → a ∈ l ∧ ∀ b, b ∈ l → le a b.
Proof.
  pose proof (StronglySorted_merge_sort le l) as Hs. pose proof (merge_sort_Permutation le l) as Hp.
  destruct (merge_sort le l) as [|x s]; [done|]. intros [= ->]. apply StronglySorted_cons in Hs as [Hall _].
  setoid_rewrite <-Hp. split; [by left|]. rewrite Forall_forall in Hall.
  intros b [->|Hb]%elem_of_cons; [|by apply Hall]. by destruct (base.total le a a).
Qed.

Section distinct.
Context {A K : Type} `{EqDecision K} (key : A → K) (le : relation A) `{!RelDecision le} `{!Total le} `{!Transitive le}.

Lemma elem_of_distinct_on keys l a :
  a ∈ distinct_on key le keys l → a ∈ l ∧ key a ∈ keys ∧ ∀ b, b ∈ l → key b = key a → le a b.
Proof.
  intros (k & Hk & [Ha Hle]%head_merge_sort)%list_elem_of_omap; [|apply _..].
  apply filter_In_iff in Ha as [Ha E%bool_decide_eq_true]. subst k. split_and!; [done..|].
  intros b Hb E. apply Hle. apply filter_In_iff. by rewrite bool_decide_eq_true.
Qed.

Lemma distinct_on_complete keys l b :
  b ∈ l → key b ∈ keys → ∃ a, a ∈ distinct_on key le keys l ∧ key a = key b.
Proof.
  intros Hb Hk. set (f := List.filter (λ a, bool_decide (key a = key b)) l).
  destruct (head (merge_sort le f)) as [a|] eqn:Ha.
  - exists a. split; [apply list_elem_of_omap; by exists (key b)|].
    apply head_merge_sort in Ha as [Ha _]; [|apply _..]. apply filter_In_iff in Ha as [_ E]. by apply bool_decide_eq_true in E.
  - exfalso. assert (b ∈ f) as Hf by (apply filter_In_iff; by rewrite bool_decide_eq_true).
    rewrite <-(merge_sort_Permutation le f) in Hf. destruct (merge_sort le f); [by apply elem_of_nil in Hf|done].
Qed.

Lemma distinct_on_nodup keys l : NoDup keys → NoDup (key <$> distinct_on key le keys l).
Proof.
  unfold distinct_on. induction 1 as [|k keys Hk Hnd IH]; cbn; [constructor|].
  destruct (head _) as [a|] eqn:Ha; [|done]. cbn.
  apply head_merge_sort in Ha as [Ha _]; [|apply _..]. apply filter_In_iff in Ha as [_ E%bool_decide_eq_true].
  constructor; [|done]. intros (b & Eb & Hb)%list_elem_of_fmap.
  apply elem_of_distinct_on in Hb as (_ & Hb & _). congruence.
Qed.
End distinct.

Section view.
Context {L : BrokerLibs} `{HeapOrder (Uuid * GrantRow)} `{HeapOrder (Uuid * Credential)}.

Lemma elem_of_joined db g p :
  p ∈ joined db g ↔
    match p with
    | Some pty => ∃ c, credentials db !! pty = Some c ∧ joins g c = true
    | None => ∀ pty c, credentials db !! pty = Some c → joins g c = false
    end.
Proof.
  unfold joined. set (f := List.filter _ _).
  assert (Hf : ∀ pty c, (pty, c) ∈ f ↔ credentials db !! pty = Some c ∧ joins g c = true).
  { intros pty c. unfold f. rewrite filter_In_iff, heap_perm, elem_of_map_to_list. done. }
  assert (Hm : ∀ p', p' ∈ (λ p : Uuid * Credential, Some p.1) <$> f ↔ ∃ pty c, p' = Some pty ∧ (pty, c) ∈ f).
  { intros p'. rewrite list_elem_of_fmap. split; [intros ([pty c] & -> & Hin); by exists pty, c|].
    intros (pty & c & -> & Hin). by exists (pty, c). }
  assert (Hnil : f = [] ↔ ∀ pty c, credentials db !! pty = Some c → joins g c = false).
  { split.
    - intros E pty c Hc. destruct (joins g c) eqn:Hj; [|done]. exfalso.
      assert ((pty, c) ∈ f) as Hin by by apply Hf. rewrite E in Hin. by apply elem_of_nil in Hin.
    - intros Hall. destruct f as [|[pty c] f'] eqn:E; [done|]. exfalso.
      destruct (proj1 (Hf pty c)) as [Hc Hj]; [by left|]. rewrite (Hall _ _ Hc) in Hj. done. }
  destruct f as [|pc f'] eqn:Ef; rewrite <-Ef in *.
  - rewrite list_elem_of_singleton. destruct p as [pty|]; [|naive_solver].
    split; [done|]. intros (c & Hc). apply Hf in Hc. rewrite Ef in Hc. by apply elem_of_nil in Hc.
  - rewrite Hm. destruct p as [pty|].
    + split; [intros (pty' & c & [= <-] & Hin); exists c; by apply Hf|]. intros (c & Hc). exists pty, c.
      split; [done|by apply Hf].
    + split; [naive_solver|]. intros Hall. apply Hnil in Hall. congruence.
Qed.

Lemma elem_of_effective now pty db e : scopes_ok db →
  (e ∈ effective_grants now db ∧ eg_pty e = Some pty) ↔
    ∃ gid g, grants db !! gid = Some g ∧ in_force now pty db g ∧ e = effective g (Some pty).
Proof.
  intros Hok. unfold effective_grants. rewrite list_elem_of_In, in_concat. split.
  - intros ((l & (r & <- & Hr%list_elem_of_In)%in_map_iff & (p & <- & Hp)%in_map_iff) & Hpty).
    apply list_elem_of_In, filter_In_iff in Hp as [Hp Hv]. destruct r as [gid g]. cbn [snd] in *.
    rewrite heap_perm, elem_of_map_to_list in Hr. exists gid, g. split; [done|].
    specialize (Hok _ _ Hr). apply elem_of_joined in Hp. unfold in_view in Hv. unfold in_force, live_credential.
    unfold grant_scope_ok in Hok. cbn in Hpty. destruct g as [[] gp gr gs sub un [t|] ps [rv|]]; cbn in *; try done.
    all: rewrite ?andb_false_r in Hok; cbn in Hok; try done.
    all: destruct p as [p|], gp as [gp|]; cbn in *; try done; simplify_eq.
    + destruct Hp as (c & _ & Hj). unfold joins in Hj. cbn in Hj. by rewrite andb_false_r in Hj.
    + split; [|done]. split; [done|]. split; [done|]. exists t. split; [done|]. unfold unexpired in Hv. cbn in Hv.
      rewrite bool_decide_true in Hv by done. cbn in Hv. lia.
    + destruct Hp as (c & Hc & Hj). unfold joins in Hj. cbn in Hj.
      destruct (c_revoked_at c) eqn:Hrv, gr as [gr|]; cbn in Hj; try done. apply bool_decide_eq_true in Hj.
      split; [|done]. split; [done|]. by exists c, gr.
    + destruct Hp as (c & Hc & Hj). unfold joins in Hj. cbn in Hj. destruct (c_revoked_at c) eqn:Hrv; [done|].
      split; [|done]. split; [done|]. by exists c.
  - intros (gid & g & Hg & (Hrv & Hf) & ->). specialize (Hok _ _ Hg).
    assert (∃ p, p ∈ joined db g ∧ in_view now g p = true ∧ effective g p = effective g (Some pty)
                 ∧ or_else (g_pty g) p = Some pty) as (p & Hp & Hv & <- & E).
    { unfold grant_scope_ok in Hok. unfold in_view, effective, live_credential in *. rewrite Hrv.
      destruct g as [[] gp gr gs sub un ex ps rv]; cbn in *; subst rv.
      - destruct Hf as (-> & t & -> & Ht). exists None. split_and!; [|rewrite bool_decide_true by done; unfold unexpired; cbn; lia|done..].
        apply elem_of_joined. intros ? c _. unfold joins. cbn. by rewrite andb_false_r.
      - destruct Hf as (c & repo & [Hc Hcr] & Hr & ->). destruct gp; [done|]. exists (Some pty). split_and!; [|done..].
        apply elem_of_joined. exists c. split; [done|]. unfold joins. cbn. rewrite Hcr, Hr. cbn. by rewrite bool_decide_true.
      - destruct Hf as (c & Hc & Hcr). destruct gp; [done|]. exists (Some pty). split_and!; [|done..].
        apply elem_of_joined. exists c. split; [done|]. unfold joins. cbn. by rewrite Hcr. }
    split; [|done]. eexists. split; [apply in_map_iff; exists (gid, g); split; [done|]|].
    + apply list_elem_of_In. rewrite heap_perm. by apply elem_of_map_to_list.
    + apply in_map_iff. exists p. split; [done|]. apply list_elem_of_In, filter_In_iff. done.
Qed.

Lemma elem_of_applicable now pty program db e : scopes_ok db →
  e ∈ List.filter (applies pty program db) (effective_grants now db) ↔
    ∃ gid g, grants db !! gid = Some g ∧ in_force now pty db g ∧ names_program program g
             ∧ is_Some (secrets db !! g_secret g) ∧ e = effective g (Some pty).
Proof.
  intros Hok. rewrite filter_In_iff. unfold applies. rewrite !andb_true_iff, bool_decide_eq_true.
  assert (Hp : ∀ g, match g_programs g with Some ps => bool_decide (program ∈ ps) | None => true end = true
                    ↔ names_program program g).
  { intros g. unfold names_program. destruct (g_programs g); [apply bool_decide_eq_true|done]. }
  assert (Hs : ∀ o : option SecretRow, is_some o = true ↔ is_Some o) by (intros [x|]; split; [by exists x|done|done|by intros [? [=]]]).
  split.
  - intros (Hin & (Hpty & Hprog) & Hsec). destruct (proj1 (elem_of_effective now pty db e Hok)) as (gid & g & Hg & Hf & ->);
      [done|]. exists gid, g. cbn in *. split_and!; [done|done|by apply Hp|by apply Hs|done].
  - intros (gid & g & Hg & Hf & Hprog & Hsec & ->).
    destruct (proj2 (elem_of_effective now pty db (effective g (Some pty)) Hok)) as [Hin Hpty]; [by exists gid, g|].
    split_and!; [done|done|by apply Hp|by apply Hs].
Qed.

Lemma elem_of_redeemable now pty program db id row r : scopes_ok db →
  (id, row, r) ∈ redeemable now pty program db ↔
    secrets db !! id = Some row ∧ opened now pty program db id r
    ∧ ∀ r', opened now pty program db id r' → r' ≤ r.
Proof.
  intros Hok. unfold redeemable. set (rows := List.filter _ _). set (keys := merge_sort _ _).
  assert (Hkeys : ∀ e, e ∈ rows → eg_secret e ∈ keys).
  { intros e He. unfold keys. rewrite merge_sort_Permutation, elem_of_remove_dups. by apply list_elem_of_fmap_2. }
  assert (Hrow : ∀ e, e ∈ rows ↔ ∃ gid g, grants db !! gid = Some g ∧ in_force now pty db g ∧ names_program program g
             ∧ is_Some (secrets db !! g_secret g) ∧ e = effective g (Some pty)).
  { intros e. by apply elem_of_applicable. }
  rewrite list_elem_of_omap. split.
  - intros (e & He & (row' & Hrow' & [= <- <- <-])%bind_Some).
    apply elem_of_distinct_on in He as (He & _ & Hmax); [|apply _..]. split; [done|].
    destruct (proj1 (Hrow e) He) as (gid & g & Hg & Hf & Hn & Hs & E). split.
    + exists gid, g. subst e. done.
    + intros r' (gid' & g' & Hg' & E' & Hf' & Hn' & <-).
      assert (effective g' (Some pty) ∈ rows) as Hin.
      { apply Hrow. exists gid', g'. split_and!; [done..| |done]. rewrite E'. by eexists. }
      specialize (Hmax _ Hin E'). unfold stronger in Hmax. cbn in Hmax. unfold rank. lia.
  - intros (Hsec & (gid & g & Hg & <- & Hf & Hn & <-) & Hmax).
    assert (effective g (Some pty) ∈ rows) as Hin by (apply Hrow; exists gid, g; split_and!; [done..|by eexists|done]).
    destruct (distinct_on_complete eg_secret stronger keys rows _ Hin (Hkeys _ Hin)) as (e & He & Ee).
    exists e. split; [done|]. cbn in Ee. rewrite Ee, Hsec. cbn. do 2 f_equal.
    apply elem_of_distinct_on in He as (He & _ & Hle); [|apply _..].
    destruct (proj1 (Hrow e) He) as (gid' & g' & Hg' & Hf' & Hn' & _ & ->). cbn in Ee |- *.
    specialize (Hmax (rank g')). specialize (Hle _ Hin). unfold stronger in Hle. cbn in Hle.
    assert (rank g' ≤ rank g) by (apply Hmax; by exists gid', g').
    unfold rank in *. specialize (Hle (eq_sym Ee)). lia.
Qed.

Lemma redeemable_nodup now pty program db : NoDup ((λ r, r.1.1) <$> redeemable now pty program db).
Proof.
  unfold redeemable. set (keys := merge_sort _ _). set (rows := List.filter _ _).
  assert (NoDup (eg_secret <$> distinct_on eg_secret stronger keys rows)) as Hnd.
  { apply distinct_on_nodup; [apply _..|]. unfold keys. rewrite merge_sort_Permutation. apply NoDup_remove_dups. }
  revert Hnd. generalize (distinct_on eg_secret stronger keys rows). clear keys rows. intros l.
  induction l as [|e l IH]; cbn; [constructor|]. rewrite NoDup_cons. intros [He Hnd].
  destruct (secrets db !! eg_secret e) as [s|]; cbn; [|by apply IH]. constructor; [|by apply IH].
  intros (x & Ex & (y & Hy & (s' & _ & [= <-])%bind_Some)%list_elem_of_omap)%list_elem_of_fmap. apply He. cbn in Ex.
  rewrite Ex. by apply list_elem_of_fmap_2.
Qed.

End view.

(** ** What is redeemed *)

Lemma reply_bind_Answer {A B} (r : reply A) (f : A → reply B) b :
  r ≫= f = Answer b ↔ ∃ a, r = Answer a ∧ f a = Answer b.
Proof. destruct r; cbn; naive_solver. Qed.

Lemma reply_map_Answer {A B} (f : A → reply B) l bs :
  reply_map f l = Answer bs ↔ Forall2 (λ a b, f a = Answer b) l bs.
Proof.
  revert bs. induction l as [|a l IH]; intros bs; cbn [reply_map].
  - split; [intros [= <-]; constructor|by inversion 1].
  - rewrite reply_bind_Answer. setoid_rewrite reply_bind_Answer. setoid_rewrite IH. split.
    + intros (b & Hb & bs' & Hbs & [= <-]). by constructor.
    + intros (b & bs' & Hb & Hbs & ->)%Forall2_cons_inv_l. by exists b; split; [|exists bs'].
Qed.

Lemma reply_map_Fault {A B} (f : A → reply B) l s m :
  reply_map f l = Fault s m → ∃ a, a ∈ l ∧ f a = Fault s m.
Proof.
  induction l as [|a l IH]; cbn; [done|]. destruct (f a) as [b|s' m'] eqn:Ha; cbn.
  - destruct (reply_map f l) as [bs|s' m'] eqn:Hl; cbn; [done|]. intros [= -> ->].
    destruct IH as (x & Hx & E); [done|]. exists x. split; [by right|done].
  - intros [= -> ->]. exists a. split; [by left|done].
Qed.

(** The variables of a stored secret. *)
Definition holds `{BrokerLibs} (c : Cipher) (db : BrokerDb) (id : string) (env : gmap string string) : Prop :=
  ∃ row, secrets db !! id = Some row ∧ decrypt_env c (s_ciphertext row) (s_nonce row) = Answer env.

Definition best (now : Z) (pty : Uuid) (program : string) (db : BrokerDb) (id : string) (r : Z) : Prop :=
  opened now pty program db id r ∧ ∀ r', opened now pty program db id r' → r' ≤ r.

(** An open secret gives the variable the value, and no open secret of a
    higher rank has the variable. *)
Definition supplies `{BrokerLibs} (c : Cipher) (now : Z) (pty : Uuid) (program : string) (db : BrokerDb)
    (id k v : string) : Prop :=
  ∃ r env, best now pty program db id r ∧ holds c db id env ∧ env !! k = Some v
    ∧ ∀ id' r' env', best now pty program db id' r' → holds c db id' env' → is_Some (env' !! k) → r' ≤ r.

Section redeeming.
Context {L : BrokerLibs} {C : Crypto} {laws : BrokerLaws L C}.
Context `{HeapOrder (Uuid * GrantRow)} `{HeapOrder (Uuid * Credential)}.

Lemma elem_of_redeemed c now pty program db l s :
  scopes_ok db → reply_map (redeem c) (redeemable now pty program db) = Answer l →
  s ∈ l ↔ best now pty program db (rs_secret_id s) (rs_precedence s) ∧ holds c db (rs_secret_id s) (rs_env s).
Proof.
  intros Hok Hl%reply_map_Answer.
  assert (Hr : ∀ a b, redeem c a = Answer b ↔ decrypt_env c (s_ciphertext a.1.2) (s_nonce a.1.2) = Answer (rs_env b)
                     ∧ rs_secret_id b = a.1.1 ∧ rs_precedence b = a.2).
  { intros a [i p e]. unfold redeem. rewrite reply_bind_Answer. cbn. naive_solver. }
  split.
  - intros (i & Hi)%list_elem_of_lookup. destruct (Forall2_lookup_r _ _ _ _ _ Hl Hi) as ([[id row] r] & Ha & E).
    apply Hr in E as (E & -> & ->). cbn in *. apply list_elem_of_lookup_2, elem_of_redeemable in Ha as (Hs & Hb); [|done].
    split; [done|]. by exists row.
  - intros [Hb (row & Hs & Hd)].
    assert ((rs_secret_id s, row, rs_precedence s) ∈ redeemable now pty program db) as Hin
      by (apply elem_of_redeemable; [done|]; split; [done|apply Hb]).
    apply list_elem_of_lookup in Hin as (i & Hi). destruct (Forall2_lookup_l _ _ _ _ _ Hl Hi) as (b & Hb' & E).
    assert (b = s) as ->; [|by eapply list_elem_of_lookup_2]. apply Hr in E as (E & E1 & E2). cbn in *.
    destruct b, s; cbn in *. congruence.
Qed.

Lemma redeemed_nodup c now pty program db l :
  reply_map (redeem c) (redeemable now pty program db) = Answer l → NoDup (rs_secret_id <$> l).
Proof.
  intros Hl%reply_map_Answer. pose proof (redeemable_nodup now pty program db) as Hnd.
  assert ((λ r, r.1.1) <$> redeemable now pty program db = rs_secret_id <$> l) as <-; [|done].
  clear Hnd. induction Hl as [|a b l1 l2 Ha Hl IH]; [done|]. cbn. f_equal; [|exact IH].
  unfold redeem in Ha. apply reply_bind_Answer in Ha as (e & _ & [= <-]). done.
Qed.

Lemma supplies_wins c now pty program db l id k v :
  scopes_ok db → reply_map (redeem c) (redeemable now pty program db) = Answer l →
  supplies c now pty program db id k v ↔ ∃ s, wins l s k v ∧ rs_secret_id s = id.
Proof.
  intros Hok Hl. pose proof (λ s, elem_of_redeemed c now pty program db l s Hok Hl) as Hin. unfold supplies, wins. split.
  - intros (r & env & Hb & Hh & Hv & Hmax). exists (mkRedeemed id r env). split; [|done]. split_and!; [by apply Hin|done|].
    intros s' [Hb' Hh']%Hin Hk. by apply (Hmax (rs_secret_id s') _ (rs_env s')).
  - intros (s & ([Hb Hh]%Hin & Hv & Hmax) & <-). exists (rs_precedence s), (rs_env s). split_and!; [done..|].
    intros id' r' env' Hb' Hh' Hk. by apply (Hmax (mkRedeemed id' r' env')); [apply Hin|].
Qed.

(** The answer of a redemption, and why there is none. *)
Lemma redeem_granted_spec c now pty program db :
  scopes_ok db →
  match redeem_granted c now pty program db with
  | Answer (env, ids) =>
      (∀ k v, env !! k = Some v ↔ ∃ id, supplies c now pty program db id k v)
      ∧ (∀ id, id ∈ ids ↔ ∃ k v, supplies c now pty program db id k v) ∧ NoDup ids ∧ ids ≠ []
      ∧ ∀ id id' k v v', supplies c now pty program db id k v → supplies c now pty program db id' k v' → id = id'
  | Fault s _ =>
      (s = 500 ∧ ∃ id r row, best now pty program db id r ∧ secrets db !! id = Some row
                   ∧ ∀ env, decrypt_env c (s_ciphertext row) (s_nonce row) ≠ Answer env)
      ∨ (s = 400 ∧ ∃ id id' k v v', id ≠ id' ∧ supplies c now pty program db id k v ∧ supplies c now pty program db id' k v')
      ∨ (s = 403 ∧ ∀ id k v, ¬ supplies c now pty program db id k v)
  end.
Proof.
  intros Hok. unfold redeem_granted. destruct (reply_map _ _) as [l|s m] eqn:Hl; cbn [mbind reply_bind].
  - pose proof (merge_by_precedence_spec l (redeemed_nodup _ _ _ _ _ _ Hl)) as Hm.
    pose proof (λ id k v, supplies_wins c now pty program db l id k v Hok Hl) as Hsw.
    destruct (merge_by_precedence l) as [[env ids]|k].
    + destruct Hm as (He & Hi & Hnd & Hnc). case_bool_decide as Hids; cbn.
      * right; right. split; [done|]. intros id k v Hs. apply Hsw in Hs as (s & Hs & _).
        assert (rs_secret_id s ∈ ids) as Hin by (apply Hi; by exists s, k, v). rewrite Hids in Hin.
        by apply elem_of_nil in Hin.
      * split_and!; [| |done|done|].
        -- intros k v. rewrite He. setoid_rewrite Hsw. naive_solver.
        -- intros id. rewrite Hi. setoid_rewrite Hsw. naive_solver.
        -- intros id id' k v v' (s & Hs & <-)%Hsw (s' & Hs' & <-)%Hsw.
           destruct (decide (rs_secret_id s = rs_secret_id s')) as [|Hne]; [done|]. destruct (Hnc k). by exists s, s', v, v'.
    + right; left. split; [done|]. destruct Hm as (s & s' & v & v' & Hne & Hs & Hs').
      exists (rs_secret_id s), (rs_secret_id s'), k, v, v'. rewrite !Hsw. naive_solver.
  - left. apply reply_map_Fault in Hl as ([[id row] r] & Hin & Hr). apply elem_of_redeemable in Hin as (Hs & Hb & Hmax); [|done].
    unfold redeem in Hr. cbn in Hr. destruct (decrypt_env c (s_ciphertext row) (s_nonce row)) as [env|s' m'] eqn:Hd; [done|].
    cbn in Hr. simplify_eq. split.
    + unfold decrypt_env, internal in Hd. repeat case_match; by simplify_eq.
    + exists id, r, row. split_and!; [done..|]. intros env. congruence.
Qed.

End redeeming.
