(* ===== verification/SecretBrokerInv.v ===== *)
(** * What the secret broker keeps

    The invariant of the tables, kept by every request; what a grant and a
    redemption do under it; where a grant in force and a credential come from
    in a history; and how long a nonce is remembered. *)

From S2P Require Import Prelude Text Store NodeWire NodeTrust Auth SecretBroker SecretRedeem.

(** ** Steps *)

(** The changes a request makes to the tables, whatever its outcome. *)
Section operations.
Context {L : BrokerLibs} {C : Crypto} {laws : BrokerLaws L C} `{UuidText}.

Lemma commit_same db code r :
  (commit db code r).1 = match r with Answer db' => db' | Fault _ _ => db end.
Proof. by destruct r. Qed.

(** What an accepted grant is: the row, the target it is for and the active
    rows it replaces. *)
Lemma unlock_grant_Answer user now id body db db' :
  unlock_grant user now id body db = Answer db' ↔
    ∃ ttl programs target,
      validate_secret_id (q_secret body) = Answer tt
      ∧ grant_ttl (q_scope body) (q_ttl_seconds body) = Answer ttl
      ∧ grant_programs (q_scope body) (q_programs body) = Answer programs
      ∧ resolve db (q_scope body) (q_pty body) = Answer target
      ∧ insert_grant id (granted_row user now (q_secret body) target ttl programs)
          (revoke_target now target (q_secret body) db) = Answer db'.
Proof.
  unfold unlock_grant. repeat setoid_rewrite reply_bind_Answer. split.
  - intros ([] & Hv & ttl & Ht & ps & Hp & target & Hr & Hi). by exists ttl, ps, target.
  - intros (ttl & ps & target & Hv & Ht & Hp & Hr & Hi). exists tt. naive_solver.
Qed.

Lemma insert_grant_Answer id g db db' :
  insert_grant id g db = Answer db' ↔
    db' = set_grants (<[id := g]> (grants db)) db ∧ grant_scope_ok g = true ∧ grants db !! id = None
    ∧ is_Some (secrets db !! g_secret g)
    ∧ ∀ gid h, grants db !! gid = Some h → clashes g h = false.
Proof.
  unfold insert_grant. destruct (grant_scope_ok g); cbn; [|naive_solver].
  assert (Hex : existsb (λ r, clashes g r.2) (map_to_list (grants db)) = false
                ↔ ∀ gid h, grants db !! gid = Some h → clashes g h = false).
  { rewrite <-not_true_iff_false, existsb_exists. split.
    - intros Hn gid h Hh. apply not_true_iff_false. intros Hc. apply Hn. exists (gid, h).
      split; [|done]. by apply list_elem_of_In, elem_of_map_to_list.
    - intros Hall ([gid h] & Hin%list_elem_of_In%elem_of_map_to_list & Hc). cbn in Hc. by rewrite (Hall _ _ Hin) in Hc. }
  destruct (grants db !! id) as [g0|] eqn:Hid; cbn; [naive_solver|].
  destruct (existsb _ _) eqn:Hb; [split; [done|]; intros (_ & _ & _ & _ & Hall); by apply Hex in Hall|].
  destruct (secrets db !! g_secret g) as [row|] eqn:Hs; cbn.
  - split; [intros [= <-]|naive_solver]. split_and!; [done..|by eexists|by apply Hex].
  - split; [done|]. intros (_ & _ & _ & [? [=]] & _).
Qed.

End operations.

(** ** Blank repositories *)

Lemma char_not_empty s c : c ∈ chars s → c ≠ "".
Proof. intros Hc ->. pose proof (chars_nonempty s) as Hall. rewrite Forall_forall in Hall. specialize (Hall _ Hc). cbn in Hall. lia. Qed.

Lemma concat_text_nil l : Forall (λ c, c ≠ "") l → concat_text l = "" → l = [].
Proof. destruct 1 as [|c l Hc _]; [done|]. by destruct c. Qed.

Lemma drop_while_nil {A} (f : A → bool) l : drop_while f l = [] ↔ Forall (λ x, f x = true) l.
Proof.
  induction l as [|x l IH]; cbn; [split; [constructor|done]|]. rewrite Forall_cons, <-IH.
  destruct (f x); naive_solver.
Qed.

Lemma drop_while_sublist {A} (f : A → bool) l x : x ∈ drop_while f l → x ∈ l.
Proof. induction l as [|y l IH]; cbn; [done|]. destruct (f y); [right; by apply IH|done]. Qed.

Lemma trim_by_blank f s : trim_by f s = "" ↔ Forall (λ c, f c = true) (chars s).
Proof.
  unfold trim_by. set (d := drop_while f (chars s)). split.
  - intros Hc. apply drop_while_nil. fold d. apply concat_text_nil in Hc.
    + apply (f_equal (@rev _)) in Hc. rewrite rev_involutive in Hc. apply drop_while_nil in Hc.
      destruct d as [|x d'] eqn:Ed; [done|]. assert (f x = false) as Hx by (apply (drop_while_head f (chars s)); by fold d; rewrite Ed).
      rewrite Forall_forall in Hc. rewrite (Hc x) in Hx; [done|]. cbn. apply elem_of_app. right. by left.
    + apply Forall_forall. intros c Hin%list_elem_of_In%in_rev%list_elem_of_In%drop_while_sublist.
      apply list_elem_of_In, in_rev, list_elem_of_In, drop_while_sublist in Hin. by eapply char_not_empty.
  - intros Hall%drop_while_nil. fold d in Hall. by rewrite Hall.
Qed.

Lemma pg_trim_not_blank s : trim s ≠ "" → 0 < byte_len (pg_trim s).
Proof.
  intros Hs. destruct (pg_trim s) as [|a r] eqn:E; [|unfold byte_len; cbn [String.length]; lia]. exfalso. apply Hs.
  apply trim_by_blank. apply trim_by_blank in E. eapply Forall_impl; [exact E|].
  intros c ->%bool_decide_eq_true. by vm_compute.
Qed.

(** ** The invariant *)

Definition active (g : GrantRow) : Prop := g_revoked_at g = None.

(** Constraints of the tables, one active grant for each secret and target,
    and what only the handlers keep: repositories that are not blank, public
    keys of 32 bytes, and secrets that open to values that are not empty. *)
Record broker_ok `{BrokerLibs} (c : Cipher) (db : BrokerDb) : Prop := {
  ok_scopes : scopes_ok db;
  ok_unique gid gid' g g' :
    grants db !! gid = Some g → grants db !! gid' = Some g' → active g → active g' →
    g_secret g = g_secret g' → target_of g = target_of g' → gid = gid';
  ok_secret gid g : grants db !! gid = Some g → is_Some (secrets db !! g_secret g);
  ok_repo pty cr repo : credentials db !! pty = Some cr → c_repo cr = Some repo → trim repo ≠ "";
  ok_key pty cr : credentials db !! pty = Some cr → ∃ k, b64_decode (c_public_key cr) = Some k ∧ byte_len k = 32;
  ok_sealed id row : secrets db !! id = Some row →
    validate_secret_id id = Answer tt
    ∧ ∃ env, decrypt_env c (s_ciphertext row) (s_nonce row) = Answer env ∧ env ≠ ∅ ∧ ∀ k v, env !! k = Some v → v ≠ "";
}.

Section invariant.
Context {L : BrokerLibs} {C : Crypto} {laws : BrokerLaws L C} `{UuidText}.
Implicit Types (c : Cipher) (db : BrokerDb).

Lemma broker_ok_same c db db' :
  secrets db' = secrets db → grants db' = grants db → credentials db' = credentials db → broker_ok c db → broker_ok c db'.
Proof. intros E1 E2 E3 []. constructor; unfold scopes_ok in *; rewrite ?E1, ?E2, ?E3; eauto. Qed.

Lemma revoke_row_same now t s g :
  g_secret (revoke_row now t s g) = g_secret g ∧ target_of (revoke_row now t s g) = target_of g
  ∧ grant_scope_ok (revoke_row now t s g) = grant_scope_ok g
  ∧ (active (revoke_row now t s g) → revoke_row now t s g = g ∧ (g_secret g = s → target_of g ≠ t)).
Proof.
  unfold revoke_row, active. destruct (bool_decide (g_secret g = s)) eqn:E1; cbn.
  - destruct (bool_decide (target_of g = t)) eqn:E2; cbn.
    + destruct (is_none (g_revoked_at g)) eqn:E3; [done|]. split_and!; [done..|].
      intros Hn. rewrite Hn in E3. done.
    + apply bool_decide_eq_false in E2. done.
  - apply bool_decide_eq_false in E1. done.
Qed.

Lemma lookup_revoke_target now t s db gid g :
  grants (revoke_target now t s db) !! gid = Some g ↔ ∃ g0, grants db !! gid = Some g0 ∧ g = revoke_row now t s g0.
Proof. unfold revoke_target. cbn. rewrite lookup_fmap, fmap_Some. naive_solver. Qed.

Lemma revoke_target_ok c now t s db : broker_ok c db → broker_ok c (revoke_target now t s db).
Proof.
  intros []. constructor; [..|done|done|done].
  - intros gid g (g0 & Hg & ->)%lookup_revoke_target. destruct (revoke_row_same now t s g0) as (_ & _ & -> & _). eauto.
  - intros gid gid' g g' (g0 & Hg & ->)%lookup_revoke_target (g0' & Hg' & ->)%lookup_revoke_target Ha Ha'.
    destruct (revoke_row_same now t s g0) as (_ & _ & _ & [-> _]); [done|].
    destruct (revoke_row_same now t s g0') as (_ & _ & _ & [E' _]); [done|]. unfold active in Ha'. rewrite E' in *.
    destruct (revoke_row_same now t s g0) as (_ & _ & _ & [E _]); [done|]. unfold active in Ha. rewrite E in Ha. eauto.
  - intros gid g (g0 & Hg & ->)%lookup_revoke_target. destruct (revoke_row_same now t s g0) as (-> & _). cbn. eauto.
Qed.

(** After a revocation nothing active is left for the target. *)
Lemma revoke_target_clears now t s db gid g :
  grants (revoke_target now t s db) !! gid = Some g → active g → g_secret g = s → target_of g ≠ t.
Proof.
  intros (g0 & Hg & ->)%lookup_revoke_target Ha. destruct (revoke_row_same now t s g0) as (_ & _ & _ & [-> Hne]); [done|].
  done.
Qed.

Lemma insert_grant_ok c id g db db' :
  broker_ok c db → insert_grant id g db = Answer db' →
  (∀ gid h, grants db !! gid = Some h → active h → g_secret h = g_secret g → target_of h ≠ target_of g) →
  broker_ok c db'.
Proof.
  intros Hok (-> & Hs & Hn & Hsec & _)%insert_grant_Answer Hclear. destruct Hok. constructor; [..|done|done|done].
  - intros gid h. cbn. rewrite lookup_insert_Some. intros [[<- <-]|[_ Hh]]; eauto.
  - intros gid gid' h h'. cbn. rewrite !lookup_insert_Some.
    intros [[<- <-]|[Hne Hh]] [[<- <-]|[Hne' Hh']] Ha Ha' E Et; [done|exfalso..|eauto].
    + by apply (Hclear _ _ Hh').
    + by apply (Hclear _ _ Hh).
  - intros gid h. cbn. rewrite lookup_insert_Some. intros [[<- <-]|[_ Hh]]; eauto.
Qed.

Lemma target_of_granted user now s t ttl ps : target_of (granted_row user now s t ttl ps) = t.
Proof. by destruct t. Qed.

Lemma unlock_grant_ok c user now id body db db' :
  broker_ok c db → unlock_grant user now id body db = Answer db' → broker_ok c db'.
Proof.
  intros Hok (ttl & ps & t & _ & _ & _ & _ & Hi)%unlock_grant_Answer.
  eapply insert_grant_ok; [by apply revoke_target_ok|exact Hi|]. cbn. rewrite target_of_granted.
  intros gid h. apply revoke_target_clears.
Qed.

Lemma revoke_grant_ok c now body db db' : broker_ok c db → revoke_grant now body db = Answer db' → broker_ok c db'.
Proof. intros Hok (t & _ & [= <-])%reply_bind_Answer. by apply revoke_target_ok. Qed.

Lemma delete_secret_ok c id db : broker_ok c db → broker_ok c (delete_secret id db).
Proof.
  intros []. constructor; unfold delete_secret; cbn; [| | |done|done|].
  - intros gid g [Hg _]%map_lookup_filter_Some. eauto.
  - intros gid gid' g g' [Hg _]%map_lookup_filter_Some [Hg' _]%map_lookup_filter_Some. eauto.
  - intros gid g [Hg Hne]%map_lookup_filter_Some. cbn in Hne. rewrite lookup_delete_ne by done. eauto.
  - intros id' row [_ Hr]%lookup_delete_Some. eauto.
Qed.

Lemma register_ok c now body db db' : broker_ok c db → register_pty_credential now body db = Answer db' → broker_ok c db'.
Proof.
  unfold register_pty_credential. intros [] Hr. destruct (b64_decode _) as [key|] eqn:Hkey; [|done].
  destruct (byte_len key =? 32) eqn:Hlen; cbn in Hr; [|done]. apply Z.eqb_eq in Hlen.
  destruct (match r_repo body with Some _ => _ | None => _ end) eqn:Hrepo; [done|]. simplify_eq.
  constructor; cbn; [done..| | |done].
  - intros pty cr repo. rewrite lookup_insert_Some. intros [[_ <-]|[_ Hc]]; [|eauto]. cbn. intros E. rewrite E in Hrepo.
    unfold is_empty in Hrepo. by apply bool_decide_eq_false in Hrepo.
  - intros pty cr. rewrite lookup_insert_Some. intros [[_ <-]|[_ Hc]]; [|eauto]. cbn. by exists key.
Qed.

Lemma register_Answer now body db db' : register_pty_credential now body db = Answer db' →
  db' = set_credentials (<[r_pty body := mkCredential (r_public_key body) (r_repo body) now None]> (credentials db)) db.
Proof.
  unfold register_pty_credential. destruct (b64_decode _); [|done]. destruct (negb _); [done|].
  destruct (match r_repo body with Some _ => _ | None => _ end); [done|]. by intros [= <-].
Qed.

Lemma lookup_revoked_credential now id db pty cr :
  credentials (revoke_pty_credential now id db) !! pty = Some cr →
  ∃ cr0, credentials db !! pty = Some cr0 ∧ c_public_key cr = c_public_key cr0 ∧ c_repo cr = c_repo cr0
         ∧ (c_revoked_at cr = None → cr = cr0 ∧ pty ≠ id).
Proof.
  cbn. intros [(<- & cr0 & Hc & ->)|[Hne Hc]]%lookup_alter_Some.
  - exists cr0. split; [done|]. destruct (c_revoked_at cr0) eqn:E; cbn; [|done]. rewrite E. done.
  - exists cr. done.
Qed.

Lemma revoke_credential_ok c now id db : broker_ok c db → broker_ok c (revoke_pty_credential now id db).
Proof.
  intros []. constructor; [done..| | |done].
  - intros pty cr repo (cr0 & Hc & _ & -> & _)%lookup_revoked_credential. eauto.
  - intros pty cr (cr0 & Hc & -> & _ & _)%lookup_revoked_credential. eauto.
Qed.

(** The value a variable of the body stands for. *)
Definition kept (existing : option (gmap string string)) (k v : string) : option string :=
  if is_empty v then existing ≫= (.!! k) else Some v.

Lemma merge_values_spec existing items env env' :
  NoDup items.*1 → merge_values existing items env = Answer env' →
  (∀ k v, (k, v) ∈ items → is_Some (env' !! k) ∧ env' !! k = kept existing k v)
  ∧ (∀ k, k ∉ items.*1 → env' !! k = env !! k).
Proof.
  revert env. induction items as [|[k v] items IH]; intros env; cbn.
  { intros _ [= <-]. split; [by intros k v ?%elem_of_nil|done]. }
  intros [Hk Hnd]%NoDup_cons Hm.
  assert (∃ w, kept existing k v = Some w ∧ merge_values existing items (<[k:=w]> env) = Answer env') as (w & Hw & Hr).
  { unfold kept. destruct (is_empty v); [|by exists v]. destruct (existing ≫= (.!! k)) as [old|]; [|done]. by exists old. }
  destruct (IH _ Hnd Hr) as [H1 H2]. split.
  - intros k' v' [[= -> ->]|Hin]%elem_of_cons; [|by apply H1]. rewrite H2 by done. rewrite lookup_insert_eq, Hw. by split.
  - intros k' [Hne Hn]%not_elem_of_cons. rewrite H2 by done. by rewrite lookup_insert_ne by congruence.
Qed.

Lemma encrypt_decrypt c nonce env sealed : byte_len nonce = 12 →
  encrypt_env c nonce env = Answer sealed → decrypt_env c sealed.1 sealed.2 = Answer env.
Proof.
  unfold encrypt_env, decrypt_env. intros Hn Hs. destruct (seal _ _ _) eqn:E; [|done]. simplify_eq. cbn.
  rewrite Hn, Z.eqb_refl. cbn. by rewrite (unseal_seal _ _ _ _ E), json_env_json.
Qed.

(** What an accepted write stores. *)
Lemma upsert_secret_Answer c now nonce id body db db' :
  byte_len nonce = 12 → upsert_secret c now nonce id body db = Answer db' →
  validate_secret_id id = Answer tt
  ∧ ∃ row existing env,
      db' = set_secrets (<[id := row]> (secrets db)) db
      ∧ decrypt_env c (s_ciphertext row) (s_nonce row) = Answer env
      ∧ load_secret_env c id db = Answer existing
      ∧ dom env = dom (e_env body) ∧ env ≠ ∅
      ∧ ∀ k v, e_env body !! k = Some v → is_Some (env !! k) ∧ env !! k = kept existing k v.
Proof.
  intros Hn Hu. unfold upsert_secret in Hu. apply reply_bind_Answer in Hu as ([] & Hv & Hu). split; [done|].
  case_bool_decide; [done|]. apply reply_bind_Answer in Hu as (existing & He & Hu).
  apply reply_bind_Answer in Hu as (env & Hm & Hu). case_bool_decide as Hne; [done|].
  apply reply_bind_Answer in Hu as (sealed & Hs & [= <-]). eexists _, existing, env. split_and!; [reflexivity|..].
  - by apply (encrypt_decrypt c nonce).
  - done.
  - destruct (merge_values_spec _ _ _ _ (hash_order_keys _) Hm) as [H1 H2]. apply set_eq. intros k.
    rewrite !elem_of_dom. split.
    + intros [w Hw]. destruct (decide (k ∈ (hash_order (e_env body)).*1)) as [([k' v] & -> & Hin)%list_elem_of_fmap|Hk].
      * apply elem_of_hash_order in Hin. by exists v.
      * rewrite H2 in Hw by done. by rewrite lookup_empty in Hw.
    + intros [v Hv']. apply elem_of_hash_order in Hv'. by apply (H1 k v).
  - done.
  - intros k v Hkv. apply elem_of_hash_order in Hkv.
    by apply (merge_values_spec _ _ _ _ (hash_order_keys _) Hm).
Qed.

Lemma upsert_secret_ok c now nonce id body db db' :
  byte_len nonce = 12 → broker_ok c db → upsert_secret c now nonce id body db = Answer db' → broker_ok c db'.
Proof.
  intros Hn Hok (Hv & row & existing & env & -> & Hd & He & Hdom & Hne & Henv)%upsert_secret_Answer; [|done].
  destruct Hok. constructor; cbn; [done..| |done|done|].
  - intros gid g Hg. destruct (ok_secret0 _ _ Hg) as [r Hr]. destruct (decide (g_secret g = id)) as [->|];
      [by rewrite lookup_insert_eq|by rewrite lookup_insert_ne].
  - intros id' row'. rewrite lookup_insert_Some. intros [[<- <-]|[_ Hr]]; [|eauto]. split; [done|].
    exists env. split_and!; [done..|]. intros k v Hkv.
    assert (k ∈ dom (e_env body)) as [w Hw]%elem_of_dom by (rewrite <-Hdom; apply elem_of_dom; by exists v).
    destruct (Henv _ _ Hw) as [_ E]. rewrite E in Hkv. unfold kept in Hkv. unfold is_empty in Hkv. case_bool_decide; [|naive_solver].
    destruct existing as [old|]; [|done]. unfold load_secret_env in He.
    destruct (secrets db !! id) as [row0|] eqn:Hr; [|done]. apply reply_bind_Answer in He as (e0 & Hd0 & [= <-]).
    destruct (ok_sealed0 _ _ Hr) as (_ & e1 & Hd1 & _ & Hval). rewrite Hd0 in Hd1. simplify_eq. by apply (Hval k).
Qed.

Lemma verify_same utc now body db :
  let db' := (verify_signed_use_request utc now body db).1 in
  secrets db' = secrets db ∧ grants db' = grants db ∧ credentials db' = credentials db ∧ revocations db' = revocations db
  ∧ use_audit db' = use_audit db.
Proof. unfold verify_signed_use_request. by repeat case_match. Qed.

Context `{HeapOrder (Uuid * GrantRow)} `{HeapOrder (Uuid * Credential)}.

Lemma use_secret_same c utc now body db :
  let db' := (use_secret c utc now body db).1 in
  secrets db' = secrets db ∧ grants db' = grants db ∧ credentials db' = credentials db ∧ revocations db' = revocations db.
Proof.
  unfold use_secret. pose proof (verify_same utc now body db) as Hs. cbn in Hs.
  destruct (verify_signed_use_request utc now body db) as [db1 [[]|]]; cbn in *; [|naive_solver].
  destruct (redeem_granted c now _ _ db1) as [[env ids]|]; cbn; naive_solver.
Qed.

End invariant.

(** ** Histories *)

Section histories.
Context {L : BrokerLibs} {C : Crypto} {laws : BrokerLaws L C} `{UuidText}.
Context `{HeapOrder (Uuid * GrantRow)} `{HeapOrder (Uuid * Credential)} `{Jwt}.
Context (config : BrokerConfig).

Abbreviation run h := (run_broker config h new_broker).

(** The middleware lets the request pass for the user. *)
Definition signed_in (b : Broker) (e : Event) (user : AuthenticatedUser) : Prop :=
  (require_user_auth config e.1.1 e.1.2 e.2 b).2 = inl user.

Definition machine (e : Event) : Prop := bearer e.1.2 = Some (b_registration_token config).

Lemma serve_cases b e :
  let b' := broker_step config b e in
  b_db b' = b_db b
  ∨ (∃ user, signed_in b e user ∧ b_db b' = (user_route (b_cipher config) e.1.1 user e.2 (b_db b)).1)
  ∨ (machine e ∧ b_db b' = (machine_route e.1.1 e.2 (b_db b)).1)
  ∨ (∃ body, e.2 = UseSecret body
       ∧ b_db b' = (use_secret (b_cipher config) (utc_now (reading e.1.1)) (db_now e.1.1) body (b_db b)).1).
Proof.
  destruct e as [[t hd] r]. unfold broker_step, signed_in, machine. cbn.
  unfold serve. destruct r; try (by left).
  all: try (destruct (require_user_auth config t hd _ b) as [keys [user|answer]] eqn:Ha; [|by left]; right; left;
            exists user; split; [done|]; by destruct (user_route _ _ _ _ _)).
  - right; right; right. eexists. split; [done|]. by destruct (use_secret _ _ _ _ _).
  - case_bool_decide; [|by left]. right; right; left. done.
  - case_bool_decide; [|by left]. right; right; left. split; [done|]. by destruct (machine_route _ _ _).
  - case_bool_decide; [|by left]. right; right; left. split; [done|]. by destruct (machine_route _ _ _).
  - case_bool_decide; [|by left]. right; right; left. split; [done|]. by destruct (machine_route _ _ _).
Qed.

(** Nonces are drawn twelve bytes long. *)
Definition draws (e : Event) : Prop := byte_len (drawn e.1.1) = 12.

Lemma revoke_principal_same t sub db :
  let db' := (revoke_principal t sub db).1 in
  secrets db' = secrets db ∧ grants db' = grants db ∧ credentials db' = credentials db ∧ use_nonces db' = use_nonces db.
Proof. unfold revoke_principal. by destruct (revoke _ _ _). Qed.

Lemma commit_ok db code r : broker_ok (b_cipher config) db → (∀ db', r = Answer db' → broker_ok (b_cipher config) db') →
  broker_ok (b_cipher config) (commit db code r).1.
Proof. intros Hdb Hr. rewrite commit_same. destruct r; [by apply Hr|done]. Qed.

Lemma broker_step_ok b e : draws e → broker_ok (b_cipher config) (b_db b) → broker_ok (b_cipher config) (b_db (broker_step config b e)).
Proof.
  intros Hd Hok. destruct (serve_cases b e) as [->|[(user & _ & ->)|[[_ ->]|(body & _ & ->)]]]; [done|..].
  - destruct e as [[t hd] r]. cbn in *. destruct r; cbn; try done.
    + destruct (revoke_principal_same t (u_sub user) (b_db b)) as (E1 & E2 & E3 & _). by eapply broker_ok_same.
    + apply commit_ok; [done|]. intros db' Hu. by eapply upsert_secret_ok.
    + by apply delete_secret_ok.
    + apply commit_ok; [done|]. intros db' Hu. by eapply unlock_grant_ok.
    + apply commit_ok; [done|]. intros db' Hu. by eapply revoke_grant_ok.
  - destruct e as [[t hd] r]. cbn in *. destruct r; cbn; try done.
    + destruct (revoke_principal_same t sub (b_db b)) as (E1 & E2 & E3 & _). by eapply broker_ok_same.
    + apply commit_ok; [done|]. intros db' Hu. by eapply register_ok.
    + by apply revoke_credential_ok.
  - destruct (use_secret_same (b_cipher config) (utc_now (reading e.1.1)) (db_now e.1.1) body (b_db b)) as (E1 & E2 & E3 & _).
    by eapply broker_ok_same.
Qed.

Lemma run_snoc h e b : run_broker config (h ++ [e]) b = broker_step config (run_broker config h b) e.
Proof. unfold run_broker. by rewrite foldl_app. Qed.

Lemma run_app h1 h2 b : run_broker config (h1 ++ h2) b = run_broker config h2 (run_broker config h1 b).
Proof. unfold run_broker. by rewrite foldl_app. Qed.

Lemma run_ok h : Forall draws h → broker_ok (b_cipher config) (b_db (run h)).
Proof.
  induction h as [|e h IH] using rev_ind.
  - intros _. by constructor.
  - intros [Hh He]%Forall_app. rewrite run_snoc. apply broker_step_ok; [by inversion He|by apply IH].
Qed.

(** The event of the history that made something so, which no later event
    undid. *)
Definition traced (h : list Event) (made undone : Broker → Event → Prop) : Prop :=
  ∃ h1 e h2, h = h1 ++ e :: h2 ∧ made (run h1) e
    ∧ ∀ h21 e' h22, h2 = h21 ++ e' :: h22 → ¬ undone (run (h1 ++ e :: h21)) e'.

Lemma traced_by (P : Broker → Prop) (made undone : Broker → Event → Prop) h :
  ¬ P new_broker → (∀ b e, P (broker_step config b e) → (P b ∧ ¬ undone b e) ∨ made b e) →
  P (run h) → traced h made undone.
Proof.
  intros Hnew Hstep. induction h as [|e h IH] using rev_ind; [done|]. rewrite run_snoc.
  intros [[HP Hu]|Hm]%Hstep.
  - destruct (IH HP) as (h1 & e1 & h2 & -> & Hm & Hall). exists h1, e1, (h2 ++ [e]).
    split_and!; [by rewrite <-app_assoc|done|]. intros h21 e' h22 E.
    destruct h22 as [|x h22 _] using rev_ind.
    + apply app_inj_tail in E as [<- <-]. done.
    + rewrite app_comm_cons, app_assoc in E. apply app_inj_tail in E as [E _]. by eapply Hall.
  - exists h, e, []. split_and!; [done..|]. intros h21 e' h22 E. by destruct h21.
Qed.

(** *** Where a grant comes from *)

(** The event unlocks what the row says: an accepted request of a user who is
    signed in, for the target the request resolves to. *)
Definition granted (g : GrantRow) (b : Broker) (e : Event) : Prop :=
  ∃ user body ttl programs target db',
    signed_in b e user ∧ e.2 = UnlockGrant body
    ∧ unlock_grant user (db_now e.1.1) (new_id e.1.1) body (b_db b) = Answer db'
    ∧ grant_ttl (q_scope body) (q_ttl_seconds body) = Answer ttl
    ∧ grant_programs (q_scope body) (q_programs body) = Answer programs
    ∧ resolve (b_db b) (q_scope body) (q_pty body) = Answer target
    ∧ g = granted_row user (db_now e.1.1) (q_secret body) target ttl programs.

(** The event takes the grant back: its target is revoked or granted anew, or
    its secret deleted. *)
Definition withdrawn (g : GrantRow) (b : Broker) (e : Event) : Prop :=
  ∃ user, signed_in b e user
    ∧ (e.2 = DeleteSecret (g_secret g)
       ∨ (∃ body, e.2 = RevokeGrant body ∧ v_secret body = g_secret g
            ∧ resolve (b_db b) (v_scope body) (v_pty body) = Answer (target_of g))
       ∨ (∃ body db', e.2 = UnlockGrant body ∧ q_secret body = g_secret g
            ∧ resolve (b_db b) (q_scope body) (q_pty body) = Answer (target_of g)
            ∧ unlock_grant user (db_now e.1.1) (new_id e.1.1) body (b_db b) = Answer db')).

Definition stands (g : GrantRow) (b : Broker) : Prop := active g ∧ ∃ gid, grants (b_db b) !! gid = Some g.

(** A request of a signed-in user takes its route. *)
Lemma user_step b t hd r keys user :
  match r with
  | Health | UseSecret _ | CheckBrowserAuthority _ | RevokeBrowserPrincipal _ | RegisterPtyCredential _
  | RevokePtyCredential _ => False
  | _ => True
  end →
  require_user_auth config t hd r b = (keys, user) →
  b_db (broker_step config b (t, hd, r)) =
    match user with
    | inl user => (user_route (b_cipher config) t user r (b_db b)).1
    | inr _ => b_db b
    end.
Proof.
  unfold broker_step, serve. cbn. intros Hr E.
  destruct r; try done; rewrite E; (destruct user as [u|]; [|done]);
    by destruct (user_route (b_cipher config) t u _ (b_db b)).
Qed.

Ltac by_user t hd r b :=
  let keys := fresh "keys" in let user := fresh "user" in let Ha := fresh "Ha" in
  destruct (require_user_auth config t hd r b) as [keys user] eqn:Ha;
  rewrite (user_step b t hd r keys user ltac:(done) Ha); destruct user as [user|].

Lemma signed_in_unique b t hd r keys user user' :
  require_user_auth config t hd r b = (keys, inl user) → signed_in b (t, hd, r) user' → user' = user.
Proof. unfold signed_in. cbn. intros -> [=]. done. Qed.

Lemma not_signed_in b t hd r keys answer user' :
  require_user_auth config t hd r b = (keys, inr answer) → ¬ signed_in b (t, hd, r) user'.
Proof. unfold signed_in. cbn. by intros ->. Qed.

Lemma unlock_step g gid user t body db db' :
  active g → unlock_grant user (db_now t) (new_id t) body db = Answer db' → grants db' !! gid = Some g →
  (grants db !! gid = Some g ∧ (q_secret body = g_secret g → resolve db (q_scope body) (q_pty body) ≠ Answer (target_of g)))
  ∨ ∃ ttl programs target,
      grant_ttl (q_scope body) (q_ttl_seconds body) = Answer ttl
      ∧ grant_programs (q_scope body) (q_programs body) = Answer programs
      ∧ resolve db (q_scope body) (q_pty body) = Answer target
      ∧ g = granted_row user (db_now t) (q_secret body) target ttl programs.
Proof.
  intros Ha (ttl & ps & target & _ & Ht & Hp & Hr & (-> & _)%insert_grant_Answer)%unlock_grant_Answer Hg.
  cbn [set_grants grants] in Hg. apply lookup_insert_Some in Hg as [[_ <-]|[_ Hg]].
  - right. by exists ttl, ps, target.
  - left. apply lookup_revoke_target in Hg as (g0 & Hg & ->).
    destruct (revoke_row_same (db_now t) target (q_secret body) g0) as (_ & _ & _ & [-> Hne]); [done|].
    split; [done|]. intros E. rewrite Hr. intros [= E']. by destruct (Hne (eq_sym E)).
Qed.

(** Which requests change which table. *)
Definition on_grants (r : Request) : bool :=
  match r with DeleteSecret _ | UnlockGrant _ | RevokeGrant _ => true | _ => false end.
Definition on_secrets (r : Request) : bool :=
  match r with DeleteSecret _ | UpsertSecret _ _ => true | _ => false end.
Definition on_credentials (r : Request) : bool :=
  match r with RegisterPtyCredential _ | RevokePtyCredential _ => true | _ => false end.

Lemma user_route_tables c t user r db :
  let db' := (user_route c t user r db).1 in
  credentials db' = credentials db ∧ use_nonces db' = use_nonces db
  ∧ (on_grants r = false → grants db' = grants db) ∧ (on_secrets r = false → secrets db' = secrets db).
Proof.
  destruct r; cbn; try done.
  - by destruct (revoke_principal_same t (u_sub user) db) as (E1 & E2 & E3 & E4).
  - rewrite commit_same. destruct (upsert_secret _ _ _ _ _ _) as [db'|] eqn:E; [|done].
    unfold upsert_secret in E. by repeat first [apply reply_bind_Answer in E as (? & _ & E)|case_bool_decide; [done|]]; simplify_eq.
  - rewrite commit_same. destruct (unlock_grant _ _ _ _ _) as [db'|] eqn:E; [|done].
    by apply unlock_grant_Answer in E as (ttl & ps & target & _ & _ & _ & _ & (-> & _)%insert_grant_Answer).
  - rewrite commit_same. destruct (revoke_grant _ _ _) as [db'|] eqn:E; [|done].
    by apply reply_bind_Answer in E as (target & _ & [= <-]).
Qed.

Lemma machine_route_tables t r db :
  let db' := (machine_route t r db).1 in
  secrets db' = secrets db ∧ grants db' = grants db ∧ use_nonces db' = use_nonces db
  ∧ (on_credentials r = false → credentials db' = credentials db).
Proof.
  destruct r; cbn; try done.
  - by destruct (revoke_principal_same t sub db) as (E1 & E2 & E3 & E4).
  - rewrite commit_same. destruct (register_pty_credential _ _ _) as [db'|] eqn:E; [|done]. by apply register_Answer in E as ->.
Qed.

Lemma tables_kept b e :
  let b' := broker_step config b e in
  (on_grants e.2 = false → grants (b_db b') = grants (b_db b))
  ∧ (on_secrets e.2 = false → secrets (b_db b') = secrets (b_db b))
  ∧ (on_credentials e.2 = false → credentials (b_db b') = credentials (b_db b)).
Proof.
  cbn. destruct (serve_cases b e) as [->|[(user & _ & ->)|[[_ ->]|(body & _ & ->)]]]; [done|..].
  - by destruct (user_route_tables (b_cipher config) e.1.1 user e.2 (b_db b)) as (? & ? & ? & ?).
  - by destruct (machine_route_tables e.1.1 e.2 (b_db b)) as (? & ? & ? & ?).
  - by destruct (use_secret_same (b_cipher config) (utc_now (reading e.1.1)) (db_now e.1.1) body (b_db b)) as (? & ? & ? & _).
Qed.

Lemma stands_step g b e : stands g (broker_step config b e) → (stands g b ∧ ¬ withdrawn g b e) ∨ granted g b e.
Proof.
  intros [Ha [gid Hg]]. destruct e as [[t hd] r]. unfold stands, withdrawn, granted. cbn [fst snd].
  destruct (on_grants r) eqn:Hr.
  2: { left. rewrite (proj1 (tables_kept b (t, hd, r)) Hr) in Hg. split; [eauto|].
       intros (user & _ & [->|[(? & -> & _)|(? & ? & -> & _)]]); done. }
  destruct r; try done; clear Hr; revert Hg.
  - by_user t hd (DeleteSecret id) b.
    + cbn. intros [Hg Hne]%map_lookup_filter_Some. left. split; [eauto|].
      intros (user' & _ & [[= ->]|[(? & [=] & _)|(? & ? & [=] & _)]]). done.
    + intros Hg. left. split; [eauto|]. intros (user' & Hs & _). by eapply not_signed_in.
  - by_user t hd (UnlockGrant body) b.
    + cbn. rewrite commit_same. destruct (unlock_grant _ _ _ _ _) as [db'|] eqn:E.
      * intros Hg. destruct (unlock_step _ _ _ _ _ _ _ Ha E Hg) as [[Hg' Hne]|(ttl & ps & target & Ht & Hp & Hr & ->)].
        -- left. split; [eauto|]. intros (user' & Hs & [[=]|[(? & [=] & _)|(? & ? & [= <-] & Hq & Hr & _)]]).
           by apply (Hne Hq).
        -- right. exists user, body, ttl, ps, target, db'. unfold signed_in. cbn. by rewrite Ha0.
      * intros Hg. left. split; [eauto|]. intros (user' & Hs & [[=]|[(? & [=] & _)|(? & ? & [= <-] & _ & _ & E')]]).
        rewrite (signed_in_unique _ _ _ _ _ _ _ Ha0 Hs) in E'. congruence.
    + intros Hg. left. split; [eauto|]. intros (user' & Hs & _). by eapply not_signed_in.
  - by_user t hd (RevokeGrant body) b.
    + cbn. rewrite commit_same. destruct (revoke_grant _ _ _) as [db'|] eqn:E.
      * apply reply_bind_Answer in E as (target & Hr & [= <-]).
        intros (g0 & Hg & ->)%lookup_revoke_target. left.
        destruct (revoke_row_same (db_now t) target (v_secret body) g0) as (_ & _ & _ & [E Hne]); [done|]. rewrite E.
        rewrite E in Ha. split; [eauto|]. intros (user' & _ & [[=]|[(? & [= <-] & Hv & Hr')|(? & ? & [=] & _)]]).
        rewrite Hr in Hr'. injection Hr' as Ht. by destruct (Hne (eq_sym Hv)).
      * intros Hg. left. split; [eauto|]. intros (user' & _ & [[=]|[(? & [= <-] & Hv & Hr')|(? & ? & [=] & _)]]).
        unfold revoke_grant in E. by rewrite Hr' in E.
    + intros Hg. left. split; [eauto|]. intros (user' & Hs & _). by eapply not_signed_in.
Qed.

Lemma grant_traced h g : stands g (run h) → traced h (granted g) (withdrawn g).
Proof.
  apply traced_by; [|apply stands_step]. intros [_ [gid Hg]]. cbn in Hg. by rewrite lookup_empty in Hg.
Qed.

(** *** Where a credential comes from *)

Definition registered (pty : Uuid) (cr : Credential) (b : Broker) (e : Event) : Prop :=
  machine e ∧ ∃ body db', e.2 = RegisterPtyCredential body ∧ r_pty body = pty
    ∧ register_pty_credential (db_now e.1.1) body (b_db b) = Answer db'
    ∧ cr = mkCredential (r_public_key body) (r_repo body) (db_now e.1.1) None.

(** Its revocation or another registration of the terminal. *)
Definition deregistered (pty : Uuid) (b : Broker) (e : Event) : Prop :=
  machine e ∧ (e.2 = RevokePtyCredential pty
               ∨ ∃ body db', e.2 = RegisterPtyCredential body ∧ r_pty body = pty
                   ∧ register_pty_credential (db_now e.1.1) body (b_db b) = Answer db').

Lemma machine_step b t hd r : on_credentials r = true →
  b_db (broker_step config b (t, hd, r)) =
    if bool_decide (machine (t, hd, r)) then (machine_route t r (b_db b)).1 else b_db b.
Proof.
  unfold broker_step, serve, machine. cbn.
  destruct r; try done; intros _; case_bool_decide; try done; by destruct (machine_route t _ (b_db b)).
Qed.

Lemma credential_step pty cr b e :
  live_credential (b_db (broker_step config b e)) pty cr →
  (live_credential (b_db b) pty cr ∧ ¬ deregistered pty b e) ∨ registered pty cr b e.
Proof.
  intros [Hc Hn]. destruct e as [[t hd] r]. unfold live_credential, deregistered, registered. cbn [fst snd].
  destruct (on_credentials r) eqn:Hr.
  2: { left. rewrite (proj2 (proj2 (tables_kept b (t, hd, r))) Hr) in Hc. split; [done|].
       intros (_ & [->|(? & ? & -> & _)]); done. }
  rewrite machine_step in Hc by done. case_bool_decide as Hm; [|by left; split; [done|]; intros [? _]].
  destruct r; try done; clear Hr; cbn in Hc.
  - rewrite commit_same in Hc. destruct (register_pty_credential _ _ _) as [db'|] eqn:E.
    + pose proof (register_Answer _ _ _ _ E) as ->. cbn in Hc. apply lookup_insert_Some in Hc as [[<- <-]|[Hne Hc]].
      * right. split; [done|]. by eexists _, _.
      * left. split; [done|]. intros (_ & [[=]|(? & ? & [= <-] & E' & _)]). done.
    + left. split; [done|]. intros (_ & [[=]|(? & ? & [= <-] & _ & E')]). congruence.
  - left. apply (lookup_revoked_credential (db_now t) id) in Hc as (cr0 & Hc & _ & _ & Hsame).
    destruct (Hsame Hn) as [-> Hne]. split; [done|]. intros (_ & [[= ->]|(? & ? & [=] & _)]). done.
Qed.

Lemma credential_traced h pty cr :
  live_credential (b_db (run h)) pty cr → traced h (registered pty cr) (deregistered pty).
Proof.
  apply (traced_by (λ b, live_credential (b_db b) pty cr)); [|intros b e; apply credential_step].
  intros [Hc _]. cbn in Hc. by rewrite lookup_empty in Hc.
Qed.

(** *** Where the variables of a secret come from *)

Definition stored (id : string) (env : gmap string string) (b : Broker) (e : Event) : Prop :=
  ∃ user body db', signed_in b e user ∧ e.2 = UpsertSecret id body
    ∧ upsert_secret (b_cipher config) (db_now e.1.1) (drawn e.1.1) id body (b_db b) = Answer db'
    ∧ holds (b_cipher config) db' id env.

(** Its deletion or another write of it. *)
Definition overwritten (id : string) (b : Broker) (e : Event) : Prop :=
  ∃ user, signed_in b e user
    ∧ (e.2 = DeleteSecret id
       ∨ ∃ body db', e.2 = UpsertSecret id body
           ∧ upsert_secret (b_cipher config) (db_now e.1.1) (drawn e.1.1) id body (b_db b) = Answer db').

Lemma secret_step id env b e :
  holds (b_cipher config) (b_db (broker_step config b e)) id env →
  (holds (b_cipher config) (b_db b) id env ∧ ¬ overwritten id b e) ∨ stored id env b e.
Proof.
  intros (row & Hs & Hd). destruct e as [[t hd] r]. unfold overwritten, stored. cbn [fst snd].
  destruct (on_secrets r) eqn:Hr.
  2: { left. rewrite (proj1 (proj2 (tables_kept b (t, hd, r))) Hr) in Hs. split; [by exists row|].
       intros (user & _ & [->|(? & ? & -> & _)]); done. }
  destruct r as [| | | |id' body|id'| | | | | | | |]; try done; clear Hr; revert Hs.
  - by_user t hd (UpsertSecret id' body) b.
    + cbn. rewrite commit_same. destruct (upsert_secret _ _ _ _ _ _) as [db'|] eqn:E.
      * destruct (decide (id' = id)) as [->|Hne].
        -- intros Hs. right. exists user, body, db'. unfold signed_in. cbn. rewrite Ha. split_and!; [done..|]. by exists row.
        -- intros Hs. left. split; [|intros (? & _ & [[=]|(? & ? & [= <- _] & _)]); done].
           assert (secrets db' !! id = secrets (b_db b) !! id) as Es; [|rewrite Es in Hs; by exists row].
           unfold upsert_secret in E. repeat first [apply reply_bind_Answer in E as (? & _ & E)|case_bool_decide; [done|]].
           simplify_eq. cbn. by rewrite lookup_insert_ne.
      * intros Hs. left. split; [by exists row|].
        intros (? & _ & [[=]|(? & ? & [= <- <-] & E')]). congruence.
    + intros Hs. left. split; [by exists row|]. intros (user' & Hs' & _). by eapply not_signed_in.
  - by_user t hd (DeleteSecret id') b.
    + cbn. intros [Hne Hs]%lookup_delete_Some. left. split; [by exists row|].
      intros (? & _ & [[= ->]|(? & ? & [=] & _)]). done.
    + intros Hs. left. split; [by exists row|]. intros (user' & Hs' & _). by eapply not_signed_in.
Qed.

Lemma secret_traced h id env :
  holds (b_cipher config) (b_db (run h)) id env → traced h (stored id env) (overwritten id).
Proof.
  apply (traced_by (λ b, holds (b_cipher config) (b_db b) id env)); [|intros b e; apply secret_step].
  intros (row & Hs & _). cbn in Hs. by rewrite lookup_empty in Hs.
Qed.

(** *** Nonces *)

(** The request passes the verification. *)
Definition honoured (b : Broker) (e : Event) (body : SignedUseSecretRequest) : Prop :=
  e.2 = UseSecret body ∧ (verify_signed_use_request (utc_now (reading e.1.1)) (db_now e.1.1) body (b_db b)).2 = Answer tt.

Lemma verify_nonces utc now body db key seen :
  use_nonces db !! key = Some seen → now - minutes 5 ≤ seen →
  use_nonces (verify_signed_use_request utc now body db).1 !! key = Some seen.
Proof.
  intros Hk Hn. unfold verify_signed_use_request.
  assert (Hf : filter (λ r : Uuid * string * Z, now - minutes 5 ≤ r.2) (use_nonces db) !! key = Some seen)
    by by apply map_lookup_filter_Some.
  repeat case_match; try done. cbn. rewrite lookup_insert_ne; [done|]. intros <-. congruence.
Qed.

Lemma use_nonces_after c utc now body db :
  use_nonces (use_secret c utc now body db).1 = use_nonces (verify_signed_use_request utc now body db).1.
Proof.
  unfold use_secret. destruct (verify_signed_use_request utc now body db) as [db1 [[]|]]; [|done].
  by destruct (redeem_granted c now _ _ db1) as [[env ids]|].
Qed.

(** A nonce is remembered for five minutes. *)
Lemma nonce_kept b e key seen :
  use_nonces (b_db b) !! key = Some seen → db_now e.1.1 - minutes 5 ≤ seen →
  use_nonces (b_db (broker_step config b e)) !! key = Some seen.
Proof.
  intros Hk Hn. destruct (serve_cases b e) as [->|[(user & _ & ->)|[[_ ->]|(body & _ & ->)]]]; [done|..].
  - by destruct (user_route_tables (b_cipher config) e.1.1 user e.2 (b_db b)) as (_ & -> & _).
  - by destruct (machine_route_tables e.1.1 e.2 (b_db b)) as (_ & _ & -> & _).
  - rewrite use_nonces_after. by apply verify_nonces.
Qed.

Lemma nonces_kept h b key seen :
  use_nonces (b_db b) !! key = Some seen → Forall (λ e : Event, db_now e.1.1 - minutes 5 ≤ seen) h →
  use_nonces (b_db (run_broker config h b)) !! key = Some seen.
Proof.
  intros Hk Hall. revert b Hk. induction Hall as [|e h He Hall IH]; intros b Hk; [done|]. cbn. apply IH.
  by apply nonce_kept.
Qed.

Lemma honoured_nonce b e body : honoured b e body →
  use_nonces (b_db b) !! (x_pty body, x_nonce body) = None
    ∨ (∃ seen, use_nonces (b_db b) !! (x_pty body, x_nonce body) = Some seen ∧ seen < db_now e.1.1 - minutes 5).
Proof.
  intros [_ Hv]. unfold verify_signed_use_request in Hv. repeat case_match; try done.
  destruct (use_nonces (b_db b) !! (x_pty body, x_nonce body)) as [seen|] eqn:E; [|by left]. right. exists seen.
  split; [done|]. apply Z.nle_gt. intros Hle.
  match goal with Hf : filter _ _ !! _ = None |- _ => rewrite map_lookup_filter_None in Hf; naive_solver end.
Qed.

Lemma honoured_records b e body : honoured b e body →
  use_nonces (b_db (broker_step config b e)) !! (x_pty body, x_nonce body) = Some (db_now e.1.1).
Proof.
  intros [He Hv]. destruct e as [[t hd] r]. cbn in He, Hv. subst r. unfold broker_step, serve. cbn.
  rewrite (surjective_pairing (use_secret _ _ _ _ _)). cbn. rewrite use_nonces_after.
  unfold verify_signed_use_request in *. repeat case_match; try done. cbn. by rewrite lookup_insert_eq.
Qed.

End histories.

(** ** Freshness *)

(** A timestamp is taken for fresh within a minute, or when it lies exactly
    the least integer from the time: its distance has no absolute value. *)
Lemma stale_false ts now : in_i64 ts → 0 ≤ now < 2 ^ 62 →
  stale ts now = false ↔ Z.abs (ts - now) ≤ 60 ∨ ts = now + i64_min.
Proof.
  intros [Hl Hu] Hn. unfold stale, abs64. rewrite Z.ltb_ge. unfold i64_min, i64_max in *.
  destruct (decide (- 2 ^ 63 ≤ ts - now)) as [Hd|Hd].
  - rewrite (wrap64_id (ts - now)) by (unfold in_i64, i64_min, i64_max; lia).
    destruct (decide (ts - now = - 2 ^ 63)) as [E|Hne].
    + rewrite E. split; [right; lia|]. intros _. by vm_compute.
    + rewrite wrap64_id by (unfold in_i64, i64_min, i64_max; lia). lia.
  - assert (wrap64 (ts - now) = ts - now + 2 ^ 64) as ->.
    { transitivity (wrap64 (ts - now + 2 ^ 64)); [apply wrap64_congr|apply wrap64_id; unfold in_i64, i64_min, i64_max; lia].
      by rewrite <-(Z.mod_add (ts - now) 1 (2 ^ 64)) by lia. }
    rewrite wrap64_id by (unfold in_i64, i64_min, i64_max; lia). lia.
Qed.

Lemma fresh_twice ts n1 n2 : in_i64 ts → 0 ≤ n1 < 2 ^ 62 → 0 ≤ n2 < 2 ^ 62 →
  stale ts n1 = false → stale ts n2 = false → Z.abs (n1 - n2) ≤ 120.
Proof.
  intros Hts H1 H2 E1%stale_false E2%stale_false; [|done..]. unfold i64_min in *. lia.
Qed.

(** ** What a request to unlock may ask *)

(** The bytes of an id: a letter, a digit, or one of three marks. *)
Definition id_alphabet : list string :=
  chars "abcdefghijklmnopqrstuvwxyzABCDEFGHIJKLMNOPQRSTUVWXYZ0123456789-_.".

Definition secret_id_ok (id : string) : Prop := id ≠ "" ∧ ∀ c, c ∈ chars id → c ∈ id_alphabet.

(** A program is named, not reached by a path, and takes no arguments. *)
Definition command_name (program : string) : Prop :=
  program ≠ "" ∧ (∀ a b, program ≠ a +:+ "/" +:+ b) ∧ ∀ c, c ∈ chars program → c ∉ white_space.

(** The names asked for, each once, in the order they were asked for. *)
Definition names_of (programs names : list string) : Prop :=
  (∀ p, p ∈ names ↔ p ∈ trim <$> programs) ∧ NoDup names ∧ names `sublist_of` (trim <$> programs).

(** The repository of a terminal whose registration stands. *)
Definition registered_with (db : BrokerDb) (pty : Uuid) (repo : string) : Prop :=
  ∃ cr, credentials db !! pty = Some cr ∧ c_revoked_at cr = None ∧ c_repo cr = Some repo.

(** Only a terminal's grant expires, only one for all terminals names
    programs, and both of the others name a terminal. *)
Definition valid_request (db : BrokerDb) (body : GrantRequest) : Prop :=
  secret_id_ok (q_secret body) ∧
  match q_scope body with
  | Terminal => (∃ ttl, q_ttl_seconds body = Some ttl ∧ 60 ≤ ttl ≤ 24 * 60 * 60) ∧ q_programs body = None ∧ is_Some (q_pty body)
  | Repository => q_ttl_seconds body = None ∧ q_programs body = None ∧ ∃ p repo, q_pty body = Some p ∧ registered_with db p repo
  | AllTerminals => q_ttl_seconds body = None ∧
      ∃ ps, q_programs body = Some ps ∧ ps ≠ [] ∧ ∀ p, p ∈ ps → command_name (trim p)
  end.

(** The row such a request asks for. *)
Definition asked_row (user : AuthenticatedUser) (now : Z) (db : BrokerDb) (body : GrantRequest) (g : GrantRow) : Prop :=
  g_scope g = q_scope body ∧ g_secret g = q_secret body ∧ g_sub g = u_sub user ∧ g_username g = u_username user ∧
  g_revoked_at g = None ∧
  match q_scope body with
  | Terminal => g_pty g = q_pty body ∧ g_repo g = None ∧ g_programs g = None ∧
      ∃ ttl, q_ttl_seconds body = Some ttl ∧ g_expires_at g = Some (now + ttl * 1000000)
  | Repository => g_pty g = None ∧ g_programs g = None ∧ g_expires_at g = None ∧
      ∃ p repo, q_pty body = Some p ∧ registered_with db p repo ∧ g_repo g = Some repo
  | AllTerminals => g_pty g = None ∧ g_repo g = None ∧ g_expires_at g = None ∧
      ∃ ps names, q_programs body = Some ps ∧ g_programs g = Some names ∧ names_of ps names
  end.

Section requests.
Context {L : BrokerLibs}.

Lemma id_char_spec c : id_char c = true ↔ c ∈ id_alphabet.
Proof.
  split.
  - destruct c as [|[[] [] [] [] [] [] [] []] [|]]; try done; intros Hc; vm_compute in Hc;
      first [discriminate Hc|apply (bool_decide_eq_true_1 _); vm_compute; reflexivity].
  - revert c. apply Forall_forall. apply (bool_decide_eq_true_1 (Forall _ _)). vm_compute. reflexivity.
Qed.

Lemma validate_secret_id_spec id :
  (secret_id_ok id → validate_secret_id id = Answer tt) ∧ (¬ secret_id_ok id → ∃ m, validate_secret_id id = Fault 400 m).
Proof.
  assert (H : forallb id_char (chars id) = true ↔ ∀ c, c ∈ chars id → c ∈ id_alphabet).
  { rewrite forallb_forall. setoid_rewrite <-list_elem_of_In. by setoid_rewrite id_char_spec. }
  unfold validate_secret_id, secret_id_ok, is_empty. case_bool_decide as He; [naive_solver|].
  destruct (forallb id_char (chars id)); cbn; naive_solver.
Qed.

Lemma command_name_spec p :
  (is_empty p || contains "/" p || existsb is_whitespace (chars p)) = false ↔ command_name p.
Proof.
  rewrite !orb_false_iff, <-(not_true_iff_false (existsb _ _)), existsb_exists. unfold command_name, is_empty.
  rewrite bool_decide_eq_false. setoid_rewrite <-list_elem_of_In. unfold is_whitespace.
  setoid_rewrite bool_decide_eq_true. unfold contains.
  assert (Hs : is_some (split_once "/" p) = false ↔ ∀ a b, p ≠ a +:+ "/" +:+ b); [|rewrite Hs; naive_solver].
  split.
  - intros Hn a b ->. revert Hn. induction a as [|c a IH]; [done|]. rewrite append_cons. cbn [split_once strip_prefix].
    destruct (Ascii.eqb "/" c); [done|]. destruct (split_once "/" (a +:+ "/" +:+ b)) as [[]|]; [done|]. by apply IH.
  - intros Hn. destruct (split_once "/" p) as [[a b]|] eqn:E; [|done]. by apply split_once_Some, Hn in E.
Qed.

Lemma valid_programs_spec programs valid : NoDup valid →
  (∀ p, p ∈ programs → command_name (trim p)) →
  ∃ more, valid_programs programs valid = Answer (valid ++ more) ∧ NoDup (valid ++ more) ∧
    (∀ p, p ∈ valid ++ more ↔ p ∈ valid ∨ p ∈ trim <$> programs) ∧ more `sublist_of` (trim <$> programs).
Proof.
  revert valid. induction programs as [|p programs IH]; intros valid Hv Hc; cbn [valid_programs].
  - exists []. rewrite app_nil_r. split_and!; [done..|set_solver|constructor].
  - rewrite (proj2 (command_name_spec (trim p))) by (apply Hc; left).
    case_bool_decide as Hin.
    + destruct (IH valid Hv) as (more & E & Hn & He & Hs); [intros q Hq; apply Hc; by right|].
      exists more. split_and!; [done..| |by constructor]. intros q. rewrite He. cbn. set_solver.
    + destruct (IH (valid ++ [trim p])) as (more & E & Hn & He & Hs);
        [apply NoDup_app; split_and!; [done|set_solver|apply NoDup_singleton]|intros q Hq; apply Hc; by right|].
      exists (trim p :: more). rewrite <-app_assoc in *. split_and!; [done..| |by constructor].
      intros q. rewrite He. cbn. set_solver.
Qed.

Lemma valid_programs_bad programs valid : ¬ (∀ p, p ∈ programs → command_name (trim p)) →
  ∃ m, valid_programs programs valid = Fault 400 m.
Proof.
  revert valid. induction programs as [|p programs IH]; intros valid Hc; cbn [valid_programs]; [destruct Hc; set_solver|].
  destruct (is_empty (trim p) || contains "/" (trim p) || existsb is_whitespace (chars (trim p))) eqn:E; [by eexists|].
  apply IH. intros Hp. apply Hc. intros q [->|Hq]%elem_of_cons; [by apply command_name_spec|by apply Hp].
Qed.

Lemma grant_ttl_spec scope ttl :
  let ok := match scope with Terminal => ∃ t, ttl = Some t ∧ 60 ≤ t ≤ 24 * 60 * 60 | _ => ttl = None end in
  (ok → grant_ttl scope ttl = Answer ttl) ∧ (¬ ok → ∃ m, grant_ttl scope ttl = Fault 400 m).
Proof.
  destruct scope; [destruct ttl as [t|]; cbn|destruct ttl; split; [done|by eexists|done|by intros []]..].
  - destruct ((60 <=? t) && (t <=? 86400)) eqn:E.
    + split; [done|]. intros Hn. destruct Hn. exists t. split; [done|lia].
    + split; [intros (? & [= <-] & ?); lia|by eexists].
  - split; [by intros (? & ? & _)|by eexists].
Qed.

Lemma grant_programs_spec scope programs :
  let ok := match scope with
            | AllTerminals => ∃ ps, programs = Some ps ∧ ps ≠ [] ∧ ∀ p, p ∈ ps → command_name (trim p)
            | _ => programs = None end in
  (ok → ∃ granted, grant_programs scope programs = Answer granted ∧
     match scope with
     | AllTerminals => ∃ ps names, programs = Some ps ∧ granted = Some names ∧ names_of ps names
     | _ => granted = None end) ∧
  (¬ ok → ∃ m, grant_programs scope programs = Fault 400 m).
Proof.
  destruct scope; [destruct programs; split; [done|by eexists|by eexists|by intros []]..|].
  destruct programs as [ps|]; cbn; [unfold validate_programs; split|split; [by intros (? & ? & _)|by eexists]].
  - intros (? & [= <-] & Hne & Hc). destruct (valid_programs_spec ps [] (NoDup_nil_2) Hc) as (names & E & Hn & He & Hs).
    cbn in *. rewrite E. cbn. rewrite bool_decide_false.
    + eexists. split; [done|]. exists ps, names. split_and!; [done..|]. split_and!; [|done..]. intros p. rewrite He. set_solver.
    + intros ->. destruct ps as [|p ps]; [done|]. apply (not_elem_of_nil (trim p)), He. right. left.
  - intros Hno. destruct ps as [|p ps]; [by eexists|].
    destruct (valid_programs_bad (p :: ps) []) as [m Hm]; [|rewrite Hm; by eexists].
    intros Hc. apply Hno. by eexists.
Qed.

Lemma resolve_spec db scope pty :
  let ok := match scope with
            | Terminal => is_Some pty
            | Repository => ∃ p repo, pty = Some p ∧ registered_with db p repo
            | AllTerminals => True end in
  (ok → ∃ target, resolve db scope pty = Answer target ∧ t_scope target = scope ∧
     match scope with
     | Terminal => t_pty target = pty ∧ t_repo target = None
     | Repository => t_pty target = None ∧ ∃ p repo, pty = Some p ∧ registered_with db p repo ∧ t_repo target = Some repo
     | AllTerminals => t_pty target = None ∧ t_repo target = None end) ∧
  (¬ ok → ∃ m, resolve db scope pty = Fault 400 m).
Proof.
  destruct scope, pty as [p|]; cbn.
  - split; [intros _; by eexists|intros Hn; destruct Hn; by eexists].
  - split; [by intros []|by eexists].
  - unfold registered_repo, registered_with. destruct (credentials db !! p) as [[pk [repo|] ca [rv|]]|] eqn:E; cbn.
    2:{ split; [|intros []; exists p, repo; split; [done|by eexists]].
        intros _. eexists. split_and!; [done..|]. exists p, repo. split_and!; [done| |done]. by eexists. }
    all: split; [intros (? & ? & [= <-] & ? & Hc & ? & ?); rewrite E in Hc; by simplify_eq|by eexists].
  - split; [by intros (? & ? & ? & _)|by eexists].
  - split; [intros _; by eexists|by intros []].
  - split; [intros _; by eexists|by intros []].
Qed.

(** Each condition holds or not. *)
Lemma secret_id_cases id : secret_id_ok id ∨ ¬ secret_id_ok id.
Proof.
  unfold secret_id_ok. destruct (decide (id = "")) as [->|Hne]; [right; by intros [[] _]|].
  destruct (decide (Forall (.∈ id_alphabet) (chars id))) as [Hf|Hf]; rewrite Forall_forall in Hf; [by left|right; tauto].
Qed.

Lemma ttl_cases scope ttl :
  let ok := match scope with Terminal => ∃ t, ttl = Some t ∧ 60 ≤ t ≤ 24 * 60 * 60 | _ => ttl = None end in ok ∨ ¬ ok.
Proof.
  destruct scope; cbn; [|destruct ttl; (by left) || (by right)..]. destruct ttl as [t|]; [|right; by intros (? & ? & _)].
  destruct (decide (60 ≤ t ≤ 24 * 60 * 60)); [left; by exists t|right; by intros (? & [= <-] & ?)].
Qed.

Lemma programs_cases scope programs :
  let ok := match scope with
            | AllTerminals => ∃ ps, programs = Some ps ∧ ps ≠ [] ∧ ∀ p, p ∈ ps → command_name (trim p)
            | _ => programs = None end in ok ∨ ¬ ok.
Proof.
  destruct scope; cbn; [destruct programs; (by left) || (by right)..|].
  destruct programs as [ps|]; [|right; by intros (? & ? & _)].
  destruct (decide (ps = [])) as [->|Hne]; [right; by intros (? & [= <-] & [] & _)|].
  set (bad p := is_empty (trim p) || contains "/" (trim p) || existsb is_whitespace (chars (trim p))).
  destruct (decide (Forall (λ p, bad p = false) ps)) as [Hf|Hf]; rewrite Forall_forall in Hf.
  - left. exists ps. split_and!; [done..|]. intros p Hp. by apply command_name_spec, Hf.
  - right. intros (? & [= <-] & _ & Hc). apply Hf. intros p Hp. by apply command_name_spec, Hc.
Qed.

Lemma target_cases db scope pty :
  let ok := match scope with
            | Terminal => is_Some pty
            | Repository => ∃ p repo, pty = Some p ∧ registered_with db p repo
            | AllTerminals => True end in ok ∨ ¬ ok.
Proof.
  destruct scope, pty as [p|]; cbn; [left; by eexists|right; by intros []| | |by left|by left].
  - unfold registered_with. destruct (credentials db !! p) as [[pk [repo|] ca [rv|]]|] eqn:E.
    2:{ left. exists p, repo. split; [done|]. by eexists. }
    all: right; intros (? & ? & [= <-] & ? & Hc & ? & ?); by simplify_eq.
  - right. by intros (? & ? & ? & _).
Qed.
End requests.
