(* ===== verification/SecretGuarantees.v ===== *)
(** * What the secret broker guarantees

    The properties of the broker and of the logins it ends, a concrete
    history they apply to, and two computed requests: one that is taken for
    fresh although it is from another age, and two that share a signature. *)

From S2P Require Import Prelude Text Json Store NodeWire NodeTrust NodeExample Auth SecretBroker SecretRedeem SecretBrokerInv.

Section guarantees.
Context {L : BrokerLibs} {C : Crypto} {laws : BrokerLaws L C} `{UuidText}.
Context `{HeapOrder (Uuid * GrantRow)} `{HeapOrder (Uuid * Credential)} `{Jwt}.
Context (config : BrokerConfig).

Abbreviation run h := (run_broker config h new_broker).
Abbreviation answer h e := (serve config e.1.1 e.1.2 e.2 (run h)).2.

(** The grant reaches the terminal of the credential at the time. *)
Definition reaches (now : Z) (pty : Uuid) (cr : Credential) (g : GrantRow) : Prop :=
  match g_scope g with
  | Terminal => g_pty g = Some pty ∧ ∃ t, g_expires_at g = Some t ∧ now < t
  | Repository => is_Some (g_repo g) ∧ c_repo cr = g_repo g
  | AllTerminals => True
  end.

Lemma in_force_reaches now pty db cr g :
  credentials db !! pty = Some cr → in_force now pty db g → reaches now pty cr g.
Proof.
  intros Hc (_ & Hf). unfold reaches, live_credential in *. destruct (g_scope g); [done| |done].
  destruct Hf as (cr' & repo & [Hc' _] & Hr & ->). rewrite Hc in Hc'. simplify_eq. split; [by eexists|done].
Qed.

(** The verification of a request that is answered. *)
Lemma verified_key utc now body db : (verify_signed_use_request utc now body db).2 = Answer tt →
  ∃ cr key signature,
    live_credential db (x_pty body) cr ∧ b64_decode (c_public_key cr) = Some key
    ∧ b64_decode (x_signature body) = Some signature
    ∧ ed25519_verify key (canonical_use_payload (x_pty body) (x_program body) (x_timestamp body) (x_nonce body))
        signature = true.
Proof.
  unfold verify_signed_use_request, live_credential. intros Hv.
  destruct (_ || _); [done|]. destruct (stale _ _); [done|].
  destruct (credentials db !! x_pty body) as [[pk repo ca [rv|]]|]; [done| |done].
  destruct (b64_decode pk) as [key|] eqn:Hk; [|done]. destruct (b64_decode (x_signature body)) as [sg|]; [|done].
  destruct (ed25519_verify _ _ _) eqn:Hs; [|done]. by exists (mkCredential pk repo ca None), key, sg.
Qed.

Lemma supplies_same c now pty program db db' id k v :
  secrets db' = secrets db → grants db' = grants db → credentials db' = credentials db →
  supplies c now pty program db' id k v ↔ supplies c now pty program db id k v.
Proof.
  intros E1 E2 E3. unfold supplies, best, opened, in_force, holds, live_credential. by rewrite E1, E2, E3.
Qed.

(** What a request that passes the verification is answered. *)
Lemma use_answer h e body : Forall draws h → honoured (run h) e body →
  let now := db_now e.1.1 in
  let gives := supplies (b_cipher config) now (x_pty body) (x_program body) (b_db (run h)) in
  (∃ env ids, answer h e = mkResponse 200 (EnvBody env)
     ∧ (∀ k v, env !! k = Some v ↔ ∃ id, gives id k v)
     ∧ (∀ id, id ∈ ids ↔ ∃ k v, gives id k v) ∧ ids ≠ [] ∧ NoDup ids
     ∧ (∀ id id' k v v', gives id k v → gives id' k v' → id = id')
     ∧ use_audit (b_db (broker_step config (run h) e))
       = use_audit (b_db (run h)) ++ ((λ id, mkAudit (x_pty body) id now) <$> ids))
  ∨ (∃ m, answer h e = mkResponse 400 (ErrorBody m) ∧ ∃ id id' k v v', id ≠ id' ∧ gives id k v ∧ gives id' k v')
  ∨ (∃ m, answer h e = mkResponse 403 (ErrorBody m) ∧ ∀ id k v, ¬ gives id k v).
Proof.
  intros Hd [He Hv] now gives. destruct e as [[t hd] r]. cbn in He, Hv. subst r.
  pose proof (run_ok config h Hd) as Hok. unfold broker_step. cbn [fst snd serve] in *.
  pose proof (verify_same (utc_now (reading t)) now body (b_db (run h))) as (E1 & E2 & E3 & _ & E5).
  unfold use_secret. cbn [db_now] in now. fold now. fold now in Hv.
  destruct (verify_signed_use_request _ now body _) as [db1 verified]. cbn in *. subst verified.
  assert (Hok1 : broker_ok (b_cipher config) db1) by (by eapply broker_ok_same).
  pose proof (redeem_granted_spec (b_cipher config) now (x_pty body) (x_program body) db1 (ok_scopes _ _ Hok1)) as Hs.
  pose proof (λ id k v, supplies_same (b_cipher config) now (x_pty body) (x_program body) _ _ id k v E1 E2 E3) as Hsup.
  fold gives in Hsup. destruct (redeem_granted _ _ _ _ _) as [[env ids]|s m]; cbn.
  - left. exists env, ids. destruct Hs as (Henv & Hids & Hnd & Hne & Hu). split_and!; [done|..].
    + intros k v. rewrite Henv. by setoid_rewrite Hsup.
    + intros id. rewrite Hids. by setoid_rewrite Hsup.
    + done.
    + done.
    + intros id id' k v v' Hg Hg'. apply (Hu id id' k v v'); by apply Hsup.
    + by rewrite E5.
  - right. destruct Hs as [(-> & id & r & row & _ & Hrow & Hno)|[(-> & Hc)|(-> & Hnone)]].
    + destruct (ok_sealed _ _ Hok1 _ _ Hrow) as (_ & vars & Hvars & _). by destruct (Hno vars).
    + left. exists m. split; [done|]. by repeat setoid_rewrite Hsup in Hc.
    + right. exists m. split; [done|]. intros id k v Hg. by apply (Hnone id k v), Hsup.
Qed.

Lemma answered_honoured h e body env :
  e.2 = UseSecret body → answer h e = mkResponse 200 (EnvBody env) → honoured (run h) e body.
Proof.
  intros He Ha. split; [done|]. destruct e as [[t hd] r]. cbn in He. subst r. cbn in Ha |- *.
  unfold use_secret in Ha. destruct (verify_signed_use_request _ _ _ _) as [db1 [[]|s m]]; [done|].
  cbn in Ha. done.
Qed.

(** C21. Nothing is redeemed that was not unlocked: in every history of the
    broker, when a request is answered with variables, it is signed with the
    key that the terminal was last registered with and that was not revoked
    since; and each variable has the value that a secret was last given,
    which a signed-in user unlocked for that terminal, its repository or the
    signed program, by a grant that has not expired and was not revoked,
    replaced or deleted with its secret since; and its use is on record. *)
Theorem redemption_traced h e body env :
  Forall draws h → e.2 = UseSecret body → answer h e = mkResponse 200 (EnvBody env) →
  ∃ cr key signature,
    traced config h (registered config (x_pty body) cr) (deregistered config (x_pty body))
    ∧ b64_decode (c_public_key cr) = Some key ∧ b64_decode (x_signature body) = Some signature
    ∧ ed25519_verify key (canonical_use_payload (x_pty body) (x_program body) (x_timestamp body) (x_nonce body))
        signature = true
    ∧ ∀ k v, env !! k = Some v → ∃ g vars,
        traced config h (granted config g) (withdrawn config g)
        ∧ reaches (db_now e.1.1) (x_pty body) cr g ∧ names_program (x_program body) g
        ∧ traced config h (stored config (g_secret g) vars) (overwritten config (g_secret g)) ∧ vars !! k = Some v
        ∧ mkAudit (x_pty body) (g_secret g) (db_now e.1.1) ∈ use_audit (b_db (broker_step config (run h) e)).
Proof.
  intros Hd He Ha. pose proof (answered_honoured h e body env He Ha) as Hh.
  destruct (verified_key _ _ _ _ (proj2 Hh)) as (cr & key & sg & Hcr & Hk & Hsg & Hsig).
  exists cr, key, sg. split_and!; [by apply credential_traced|done..|].
  destruct (use_answer h e body Hd Hh) as [(env' & ids & E & Henv & Hids & _ & _ & _ & Haudit)|[(m & E & _)|(m & E & _)]];
    rewrite Ha in E; [|done..]. simplify_eq. intros k v Hkv.
  destruct (proj1 (Henv k v) Hkv) as (id & Hg). assert (id ∈ ids) as Hin by (apply Hids; by exists k, v).
  destruct Hg as (r & vars & ((gid & g & Hgid & <- & Hf & Hn & _) & _) & Hh' & Hv & _). exists g, vars.
  split_and!; [|by eapply in_force_reaches, Hf; apply Hcr|done|by apply secret_traced|done|].
  - apply grant_traced. split; [apply Hf|by exists gid].
  - rewrite Haudit. apply elem_of_app. right. by apply (list_elem_of_fmap_2 (λ id, mkAudit (x_pty body) id (db_now e.1.1))).
Qed.

(** Two secrets open to the program at one rank that both have the variable. *)
Definition rivals (now : Z) (pty : Uuid) (program : string) (db : BrokerDb) (r : Z) (k : string) : Prop :=
  ∃ id id' env env', id ≠ id' ∧ best now pty program db id r ∧ best now pty program db id' r ∧
    holds (b_cipher config) db id env ∧ holds (b_cipher config) db id' env' ∧ is_Some (env !! k) ∧ is_Some (env' !! k).

(** A secret open to the program at a higher rank has the variable. *)
Definition outranked (now : Z) (pty : Uuid) (program : string) (db : BrokerDb) (r : Z) (k : string) : Prop :=
  ∃ id r' env, best now pty program db id r' ∧ holds (b_cipher config) db id env ∧ is_Some (env !! k) ∧ r < r'.

Lemma supplied_rivals now pty program db id id' k v v' :
  id ≠ id' → supplies (b_cipher config) now pty program db id k v → supplies (b_cipher config) now pty program db id' k v' →
  ∃ r, rivals now pty program db r k.
Proof.
  intros Hne (r & env & Hb & Hh & Hv & Hmax) (r' & env' & Hb' & Hh' & Hv' & Hmax').
  assert (r' ≤ r) by (eapply Hmax; [done..|by eexists]). assert (r ≤ r') by (eapply Hmax'; [done..|by eexists]).
  replace r' with r in * by lia. exists r, id, id', env, env'. split_and!; [done..|by eexists|by eexists].
Qed.

Lemma rivals_supply now pty program db r k :
  rivals now pty program db r k → ¬ outranked now pty program db r k →
  ∃ id id' v v', id ≠ id' ∧ supplies (b_cipher config) now pty program db id k v ∧
    supplies (b_cipher config) now pty program db id' k v'.
Proof.
  intros (id & id' & env & env' & Hne & Hb & Hb' & Hh & Hh' & [v Hv] & [v' Hv']) Hno.
  assert (Hmax : ∀ x r' y, best now pty program db x r' → holds (b_cipher config) db x y → is_Some (y !! k) → r' ≤ r).
  { intros x r' y Hx Hy Hk. destruct (decide (r' ≤ r)); [done|]. destruct Hno. exists x, r', y. split_and!; [done..|lia]. }
  exists id, id', v, v'. split_and!; [done|by exists r, env|by exists r, env'].
Qed.

(** C30. What a request that passes the verification is answered. When no two
    secrets of one rank open to it share a variable, it gets exactly the
    variables they have, each from the secret of the highest rank that has
    it, or 403 when none is open. When two of one rank share a variable that
    none of a higher rank has, it is refused with 400. Every answer gives
    each variable from the highest rank, where one secret has it; no other
    status is answered, so no stored secret fails to open. *)
Theorem redemption_exact h e body : Forall draws h → honoured (run h) e body →
  let now := db_now e.1.1 in
  let gives := supplies (b_cipher config) now (x_pty body) (x_program body) (b_db (run h)) in
  let rival := rivals now (x_pty body) (x_program body) (b_db (run h)) in
  let over := outranked now (x_pty body) (x_program body) (b_db (run h)) in
  ((∀ r k, ¬ rival r k) → (∃ id k v, gives id k v) →
     ∃ env, answer h e = mkResponse 200 (EnvBody env) ∧ ∀ k v, env !! k = Some v ↔ ∃ id, gives id k v) ∧
  ((∀ id k v, ¬ gives id k v) → ∃ m, answer h e = mkResponse 403 (ErrorBody m)) ∧
  (∀ r k, rival r k → ¬ over r k → ∃ m, answer h e = mkResponse 400 (ErrorBody m)) ∧
  (∀ env, answer h e = mkResponse 200 (EnvBody env) →
     env ≠ ∅ ∧ (∀ k v, env !! k = Some v ↔ ∃ id, gives id k v) ∧
     ∀ id id' k v v', gives id k v → gives id' k v' → id = id') ∧
  (status (answer h e) = 200 ∨ status (answer h e) = 400 ∨ status (answer h e) = 403).
Proof.
  intros Hd Hh now gives rival over.
  destruct (use_answer h e body Hd Hh) as [(env & ids & -> & Henv & Hids & Hne & _ & Hu & _)|[(m & -> & Hc)|(m & -> & Hn)]].
  - assert (Hg : ∃ id k v, gives id k v).
    { destruct ids as [|id ids]; [done|]. exists id. apply Hids. by left. }
    split_and!; [by exists env|naive_solver| |intros env' [= <-]|by left].
    + intros r k Hr Ho. destruct (rivals_supply _ _ _ _ _ _ Hr Ho) as (id & id' & v & v' & Hx & G1 & G2).
      destruct Hx. by eapply Hu.
    + split_and!; [|done..]. destruct Hg as (id & k & v & Hg). intros ->.
      assert ((∅ : gmap string string) !! k = Some v) as Hk by (apply Henv; by exists id). by rewrite lookup_empty in Hk.
  - destruct Hc as (id & id' & k & v & v' & Hx & G1 & G2). split_and!; [|naive_solver|by eexists|done|by right; left].
    intros Hno. by destruct (supplied_rivals _ _ _ _ _ _ _ _ _ Hx G1 G2) as [r Hr%Hno].
  - split_and!; [naive_solver|by eexists| |done|by right; right].
    intros r k Hr Ho. destruct (rivals_supply _ _ _ _ _ _ Hr Ho) as (id & id' & v & v' & _ & G1 & _). by destruct (Hn id k v).
Qed.

(** The two clocks of a request, in agreement within a minute and a half. *)
Definition clocks_agree (e : Event) : Prop :=
  0 ≤ utc_now (reading e.1.1) < 2 ^ 62 ∧ Z.abs (db_now e.1.1 - utc_now (reading e.1.1) * 1000000) ≤ 90 * 1000000.

(** C39. No signed request is honoured twice: as long as the clock of the
    database does not go back and the two clocks agree within ninety seconds,
    whatever else arrives, a nonce that was accepted is refused with the same
    timestamp ever after, although it is forgotten in five minutes. *)
Theorem use_not_replayed h1 e1 h2 e2 body1 body2 :
  StronglySorted Z.le ((λ e : Event, db_now e.1.1) <$> e1 :: h2 ++ [e2]) →
  clocks_agree e1 → clocks_agree e2 → in_i64 (x_timestamp body1) →
  honoured (run h1) e1 body1 → honoured (run (h1 ++ e1 :: h2)) e2 body2 →
  x_pty body1 = x_pty body2 → x_nonce body1 = x_nonce body2 → x_timestamp body1 ≠ x_timestamp body2.
Proof.
  intros Hs [Hu1 Hc1] [Hu2 Hc2] Hts Hh1 Hh2 Ep En Et.
  assert (Hstale : ∀ b e body, honoured b e body → stale (x_timestamp body) (utc_now (reading e.1.1)) = false).
  { intros b e body [_ Hv]. unfold verify_signed_use_request in Hv. destruct (_ || _); [done|]. by destruct (stale _ _). }
  pose proof (Hstale _ _ _ Hh1) as Hf1. pose proof (Hstale _ _ _ Hh2) as Hf2. rewrite <-Et in Hf2.
  pose proof (fresh_twice _ _ _ Hts Hu1 Hu2 Hf1 Hf2) as Hclose.
  assert (Hle : db_now e2.1.1 - minutes 5 ≤ db_now e1.1.1) by (unfold minutes; lia).
  rewrite run_app in Hh2.
  change (honoured (run_broker config h2 (broker_step config (run h1) e1)) e2 body2) in Hh2. apply (honoured_records config) in Hh1. rewrite Ep, En in Hh1.
  cbn in Hs. apply StronglySorted_cons in Hs as [_ Hs]. rewrite fmap_app in Hs. apply StronglySorted_app in Hs as (Hs & _ & _).
  assert (Hk : use_nonces (b_db (run_broker config h2 (broker_step config (run h1) e1))) !! (x_pty body2, x_nonce body2)
               = Some (db_now e1.1.1)).
  { apply nonces_kept; [done|]. apply Forall_forall. intros e He. transitivity (db_now e2.1.1 - minutes 5); [|done].
    assert (db_now e.1.1 ≤ db_now e2.1.1); [|lia]. apply Hs; [by apply list_elem_of_fmap_2'  with e|by left]. }
  destruct (honoured_nonce _ _ _ Hh2) as [Hn|(seen & Hn & Hlt)]; rewrite Hk in Hn; [done|]. simplify_eq. lia.
Qed.

(** ** Logins *)

(** A response as it is read at the other end of the connection. *)
Definition wire (r : Response) : HttpReply :=
  mkReply (status r)
    match body r with
    | AuthorityRejected =>
        Some (Object [("code", Str REJECTED_CODE); ("error", Str "browser authority expired or revoked")])
    | ErrorBody m => Some (Object [("error", Str m)])
    | _ => None
    end.

(** The event ends the logins of the principal: its own sign-out, or a
    request of the backend. *)
Definition ends_logins (b : Broker) (e : Event) (sub : string) : Prop :=
  trim sub ≠ ""
  ∧ ((machine config e ∧ e.2 = RevokeBrowserPrincipal sub)
     ∨ (∃ user, signed_in config b e user ∧ e.2 = RevokeBrowserSession ∧ u_sub user = sub)).

Definition cut (b : Broker) (sub : string) (at_ : Z) : Prop :=
  ∃ cutoff, revocations (b_db b) !! sub = Some cutoff ∧ at_ ≤ cutoff.

Lemma revoke_principal_cut t sub db : trim sub ≠ "" →
  ∃ cutoff, revocations (revoke_principal t sub db).1 !! sub = Some cutoff ∧ db_now t `div` 1000000 ≤ cutoff.
Proof.
  intros Hs. unfold revoke_principal. destruct (revoke (db_now t) sub (revocations db)) as [rs|] eqn:E.
  - destruct (revoke_Some _ _ _ _ E) as (a & Ha & Hle & _). by exists a.
  - unfold revoke, is_empty in E. by rewrite bool_decide_false in E.
Qed.

Lemma ends_logins_cut b e sub : ends_logins b e sub → cut (broker_step config b e) sub (db_now e.1.1 `div` 1000000).
Proof.
  intros (Hs & Hcase). destruct e as [[t hd] r]. unfold cut, broker_step, serve, machine, signed_in in *. cbn in *.
  destruct Hcase as [[Hm ->]|(user & Hu & -> & <-)].
  - rewrite bool_decide_true by done. cbn. destruct (revoke_principal_cut t sub (b_db b) Hs) as (a & Ha & Hle).
    exists a. by destruct (revoke_principal t sub (b_db b)).
  - destruct (require_user_auth _ _ _ _ _) as [keys user']. cbn in Hu. subst user'. cbn.
    destruct (revoke_principal_cut t (u_sub user) (b_db b) Hs) as (a & Ha & Hle).
    exists a. by destruct (revoke_principal t (u_sub user) (b_db b)).
Qed.

Lemma revoke_principal_keeps t sub' db sub cutoff : revocations db !! sub = Some cutoff →
  ∃ cutoff', revocations (revoke_principal t sub' db).1 !! sub = Some cutoff' ∧ cutoff ≤ cutoff'.
Proof.
  intros Hc. unfold revoke_principal. destruct (revoke (db_now t) sub' (revocations db)) as [rs|] eqn:E.
  - apply (revoke_mono _ _ _ _ _ _ E Hc).
  - by exists cutoff.
Qed.

Lemma user_route_revocations c t user r db :
  revocations (user_route c t user r db).1 = revocations db
  ∨ (user_route c t user r db).1 = (revoke_principal t (u_sub user) db).1.
Proof.
  destruct r; cbn; rewrite ?commit_same; try (by left); [by right|left..].
  - destruct (upsert_secret _ _ _ _ _ _) as [db'|] eqn:E; [|done].
    unfold upsert_secret in E. by repeat first [apply reply_bind_Answer in E as (? & _ & E)|case_bool_decide; [done|]]; simplify_eq.
  - destruct (unlock_grant _ _ _ _ _) as [db'|] eqn:E; [|done].
    by apply unlock_grant_Answer in E as (ttl & ps & target & _ & _ & _ & _ & (-> & _)%insert_grant_Answer).
  - destruct (revoke_grant _ _ _) as [db'|] eqn:E; [|done]. by apply reply_bind_Answer in E as (target & _ & [= <-]).
Qed.

Lemma machine_route_revocations t r db :
  revocations (machine_route t r db).1 = revocations db
  ∨ ∃ sub, (machine_route t r db).1 = (revoke_principal t sub db).1.
Proof.
  destruct r; cbn; rewrite ?commit_same; try (by left); [by right; eexists|left].
  destruct (register_pty_credential _ _ _) as [db'|] eqn:E; [|done]. by apply register_Answer in E as ->.
Qed.

Lemma cut_kept b e sub at_ : cut b sub at_ → cut (broker_step config b e) sub at_.
Proof.
  intros (c0 & Hc & Hle). unfold cut.
  assert (∃ c1, revocations (b_db (broker_step config b e)) !! sub = Some c1 ∧ c0 ≤ c1) as (c1 & H1' & ?);
    [|exists c1; split; [done|lia]].
  destruct (serve_cases config b e) as [->|[(user & _ & ->)|[[_ ->]|(body & _ & ->)]]]; [by exists c0|..].
  - destruct (user_route_revocations (b_cipher config) e.1.1 user e.2 (b_db b)) as [->| ->]; [by exists c0|].
    by apply revoke_principal_keeps.
  - destruct (machine_route_revocations e.1.1 e.2 (b_db b)) as [->|[sub' ->]]; [by exists c0|].
    by apply revoke_principal_keeps.
  - destruct (use_secret_same (b_cipher config) (utc_now (reading e.1.1)) (db_now e.1.1) body (b_db b)) as (_ & _ & _ & ->).
    by exists c0.
Qed.

Lemma cut_kept_run h b sub at_ : cut b sub at_ → cut (run_broker config h b) sub at_.
Proof. revert b. induction h as [|e h IH]; intros b Hc; [done|]. cbn. by apply IH, cut_kept. Qed.

Lemma signed_in_allowed b e user : signed_in config b e user →
  allowed (revocations (b_db b)) (utc_now (reading e.1.1)) (authority user) = true.
Proof.
  unfold signed_in, require_user_auth. destruct (bearer _); [|done]. destruct (validate_bearer _ _ _ _) as [keys [u|]]; [|done].
  destruct (allowed _ _ _) eqn:E; [by intros [= <-]|]. by destruct (e.2).
Qed.

(** Another process hears from the broker what the broker's tables say. *)
Lemma check_remote_broker url token t a b :
  check_remote (Some url) (Some token)
    (λ _ tok, Some (wire (serve config t (Some ("Bearer " +:+ tok)) (CheckBrowserAuthority a) b).2)) =
  if bool_decide (bearer (Some ("Bearer " +:+ token)) = Some (b_registration_token config)) then
    if allowed (revocations (b_db b)) (utc_now (reading t)) a then None
    else Some (Rejected "browser authority expired or revoked")
  else Some AuthorityUnavailable.
Proof.
  unfold check_remote, serve. case_bool_decide; [|done]. cbn. unfold check_browser_authority.
  by destruct (allowed _ _ _).
Qed.

(** C18. Once a principal's logins are ended, by a sign-out or by the
    backend, no request is let in for it, whatever happens since, unless it
    logged in after the second of that moment: not by the broker, and not by a
    backend that asks the broker. *)
Theorem login_ended h1 e h2 sub :
  ends_logins (run h1) e sub →
  let b := run (h1 ++ e :: h2) in
  (∀ e2 user, signed_in config b e2 user → u_sub user = sub → db_now e.1.1 `div` 1000000 < u_auth_time user)
  ∧ (∀ auth url token t r header keys keys' user,
       require_http_auth (Some auth) url token
         (λ a _ tok, Some (wire (serve config t (Some ("Bearer " +:+ tok)) (CheckBrowserAuthority a) b).2))
         r header keys = (keys', inl user) →
       u_sub user = sub → db_now e.1.1 `div` 1000000 < u_auth_time user).
Proof.
  intros He b.
  assert (Hcut : cut b sub (db_now e.1.1 `div` 1000000)).
  { unfold b. rewrite run_app. apply (cut_kept_run h2 (broker_step config (run h1) e)). by apply ends_logins_cut. }
  destruct Hcut as (cutoff & Hc & Hle). split.
  - intros e2 user Hs%signed_in_allowed <-. apply (allowed_after _ _ (authority user) cutoff) in Hs; [|done]. cbn in Hs. lia.
  - intros auth url token t r header keys keys' user Hr <-. unfold require_http_auth in Hr.
    destruct (bearer header) as [tok|]; [|done]. destruct (validate_bearer auth r tok keys) as [s [u|]] eqn:Hv; [|done].
    destruct (check_authority _ _ _ _ _) eqn:Hca; [done|]. simplify_eq.
    apply validate_bearer_inv in Hv as (kid & key & claims & _ & _ & _ & Huse & _ & -> & _).
    unfold check_authority in Hca. destruct (_ <=? _); [done|].
    rewrite bool_decide_false in Hca by (cbn; rewrite Huse; done).
    destruct url as [url|], token as [token|]; try done. rewrite check_remote_broker in Hca.
    case_bool_decide; [|done]. destruct (allowed _ _ _) eqn:Ha; [|done].
    apply (allowed_after _ _ _ cutoff) in Ha; [|done]. cbn in *. lia.
Qed.

(** ** Unlocking *)

Lemma valid_programs_keeps programs valid ps : valid_programs programs valid = Answer ps → ∃ more, ps = valid ++ more.
Proof.
  revert valid. induction programs as [|p programs IH]; intros valid; cbn.
  - intros [= <-]. exists []. by rewrite app_nil_r.
  - destruct (_ || _); [done|]. intros Hv. destruct (IH _ Hv) as [more ->]. case_bool_decide; [by eexists|].
    rewrite <-app_assoc. by eexists.
Qed.

(** A request that is valid makes a row that the constraint admits. *)
Lemma granted_row_ok c db user now body ttl programs target :
  broker_ok c db →
  grant_ttl (q_scope body) (q_ttl_seconds body) = Answer ttl →
  grant_programs (q_scope body) (q_programs body) = Answer programs →
  resolve db (q_scope body) (q_pty body) = Answer target →
  grant_scope_ok (granted_row user now (q_secret body) target ttl programs) = true.
Proof.
  intros Hok Ht Hp Hr. unfold resolve in Hr. destruct body as [pty secret tl scope progs]. cbn in *. destruct scope.
  - destruct pty as [pty|]; [|done]. cbn in Hr. simplify_eq. destruct tl as [tl|]; [|done]. cbn in Ht.
    destruct (_ && _); [|done]. simplify_eq. destruct progs; [done|]. cbn in Hp. by simplify_eq.
  - destruct pty as [pty|]; [|done]. cbn in Hr. apply reply_bind_Answer in Hr as (repo & Hrepo & [= <-]).
    destruct tl; [done|]. destruct progs; [done|]. cbn in *. simplify_eq. unfold grant_scope_ok. cbn.
    unfold registered_repo in Hrepo. destruct (credentials db !! pty) as [cr|] eqn:Hc; [|done].
    destruct (c_revoked_at cr); [done|]. destruct (c_repo cr) as [r|] eqn:Hcr; [|done]. simplify_eq.
    pose proof (pg_trim_not_blank repo (ok_repo _ _ Hok _ _ _ Hc Hcr)). by rewrite (proj2 (Z.ltb_lt _ _)).
  - simplify_eq. destruct tl; [done|]. destruct progs as [progs|]; [|done]. cbn in *. simplify_eq.
    apply reply_bind_Answer in Hp as (ps & Hps & [= <-]). unfold validate_programs in Hps.
    apply reply_bind_Answer in Hps as (valid & _ & Hne). case_bool_decide; [done|]. simplify_eq. unfold grant_scope_ok. cbn.
    by rewrite bool_decide_false.
Qed.

(** A row clashes only with an active one for the same target. *)
Lemma clashes_target g h : grant_scope_ok g = true → grant_scope_ok h = true → clashes g h = true →
  active h ∧ g_secret h = g_secret g ∧ target_of h = target_of g.
Proof.
  unfold clashes, grant_scope_ok, active, target_of. intros Hg Hh.
  destruct g as [sg pg rg secg ug ng eg psg [vg|]], h as [sh ph rh sech uh nh eh psh [vh|]]; cbn in *; try done.
  rewrite andb_true_iff, bool_decide_eq_true, orb_true_iff, !andb_true_iff, !bool_decide_eq_true.
  intros [-> [[Hr ->]|[-> ->]]]; split_and!; try done.
  - destruct rh as [r|]; [|done]. destruct sg, sh, pg, ph; cbn in *; rewrite ?andb_false_r in *; try done.
  - destruct pg, rg, ph, rh; cbn in *; rewrite ?andb_false_r in *; done.
Qed.

(** Requests that are refused for what they say. *)
Definition refuses {A} (r : reply A) : Prop := ∀ s m, r = Fault s m → s = 400.

Lemma refuses_bind {A B} (r : reply A) (f : A → reply B) : refuses r → (∀ a, refuses (f a)) → refuses (r ≫= f).
Proof. intros Hr Hf s m. destruct r; cbn; [apply Hf|]. intros [= -> ->]. by eapply Hr. Qed.

Lemma refuses_answer {A} (a : A) : refuses (Answer a).
Proof. by intros s m. Qed.

Lemma refuses_bad {A} m : refuses (bad_request m : reply A).
Proof. by intros s m' [= <- _]. Qed.

Lemma valid_programs_refuses programs valid : refuses (valid_programs programs valid).
Proof.
  revert valid. induction programs as [|p programs IH]; intros valid; cbn; [apply refuses_answer|].
  destruct (_ || _); [apply refuses_bad|apply IH].
Qed.

Lemma grant_programs_refuses scope programs : refuses (grant_programs scope programs).
Proof.
  destruct scope, programs as [ps|]; cbn; try apply refuses_answer; try apply refuses_bad.
  apply refuses_bind; [|intros; apply refuses_answer]. apply refuses_bind; [apply valid_programs_refuses|].
  intros valid. case_bool_decide; [apply refuses_bad|apply refuses_answer].
Qed.

Lemma grant_ttl_refuses scope ttl : refuses (grant_ttl scope ttl).
Proof.
  destruct scope, ttl; cbn; try apply refuses_answer; try apply refuses_bad.
  destruct (_ && _); [apply refuses_answer|apply refuses_bad].
Qed.

Lemma resolve_refuses db scope pty : refuses (resolve db scope pty).
Proof.
  destruct scope, pty as [p|]; cbn; try apply refuses_answer; try apply refuses_bad.
  apply refuses_bind; [|intros; apply refuses_answer]. unfold registered_repo. repeat case_match; try apply refuses_answer; apply refuses_bad.
Qed.

(** Once its target is clear a row is inserted, if its secret exists. *)
Lemma insert_granted c now id g db :
  broker_ok c db → grants db !! id = None → grant_scope_ok g = true →
  let db1 := revoke_target now (target_of g) (g_secret g) db in
  insert_grant id g db1 =
    match secrets db !! g_secret g with
    | Some _ => Answer (set_grants (<[id := g]> (grants db1)) db1)
    | None => internal (library_error ForeignKeyViolation)
    end.
Proof.
  intros Hok Hid Hrow db1. pose proof (revoke_target_ok c now (target_of g) (g_secret g) db Hok) as Hok1. fold db1 in Hok1.
  unfold insert_grant. rewrite Hrow. cbn [negb].
  assert (grants db1 !! id = None) as -> by (unfold db1; cbn; by rewrite lookup_fmap, Hid).
  assert (existsb (λ r, clashes g r.2) (map_to_list (grants db1)) = false) as ->.
  { apply not_true_iff_false. rewrite existsb_exists. intros ([gid h] & Hin%list_elem_of_In%elem_of_map_to_list & Hcl).
    apply clashes_target in Hcl as (Ha & Es & Et); [|done|by eapply (ok_scopes _ _ Hok1)].
    by eapply (revoke_target_clears now (target_of g) (g_secret g) db gid h). }
  cbn [is_some is_none negb orb]. change (secrets db1) with (secrets db). by destruct (secrets db !! g_secret g).
Qed.

(** What an inserted row does to the active rows. *)
Lemma unlocked_rows now g id db :
  grants db !! id = None → active g →
  let db1 := revoke_target now (target_of g) (g_secret g) db in
  ∀ gid h, <[id := g]> (grants db1) !! gid = Some h ∧ active h ↔
    (gid = id ∧ h = g)
    ∨ (grants db !! gid = Some h ∧ active h ∧ ¬ (g_secret h = g_secret g ∧ target_of h = target_of g)).
Proof.
  intros Hid Hg db1 gid h. assert (grants db1 !! id = None) as Hid' by (unfold db1; cbn; by rewrite lookup_fmap, Hid).
  rewrite lookup_insert_Some. split.
  - intros [[[<- <-]|[Hne Hh]] Ha]; [by left|right]. apply lookup_revoke_target in Hh as (g0 & Hg0 & ->).
    destruct (revoke_row_same now (target_of g) (g_secret g) g0) as (_ & _ & _ & [E Hx]); [done|]. rewrite E in *.
    split_and!; [done..|]. intros [E1 E2]. by apply (Hx E1).
  - intros [[-> ->]|(Hh & Ha & Hx)]; [by split; [left|]|]. split; [right|done]. split; [congruence|].
    apply lookup_revoke_target. exists h. split; [done|]. unfold revoke_row.
    destruct (bool_decide (g_secret h = g_secret g)) eqn:E1; [|done].
    destruct (bool_decide (target_of h = target_of g)) eqn:E2; [|done].
    apply bool_decide_eq_true in E1, E2. by destruct Hx.
Qed.

(** The request that is not valid meets one of the checks. *)
Lemma unlock_refused user now id body db : ¬ valid_request db body →
  ∃ m, unlock_grant user now id body db = Fault 400 m.
Proof.
  intros Hno. unfold unlock_grant.
  destruct (secret_id_cases (q_secret body)) as [Ha|Ha].
  2:{ apply validate_secret_id_spec in Ha as [m ->]. by exists m. }
  rewrite (proj1 (validate_secret_id_spec _) Ha). cbn [mbind reply_bind].
  destruct (ttl_cases (q_scope body) (q_ttl_seconds body)) as [Hb|Hb].
  2:{ apply grant_ttl_spec in Hb as [m ->]. by exists m. }
  rewrite (proj1 (grant_ttl_spec _ _) Hb). cbn [mbind reply_bind].
  destruct (programs_cases (q_scope body) (q_programs body)) as [Hc|Hc].
  2:{ apply grant_programs_spec in Hc as [m ->]. by exists m. }
  destruct (proj1 (grant_programs_spec _ _) Hc) as (granted & -> & _). cbn [mbind reply_bind].
  destruct (target_cases db (q_scope body) (q_pty body)) as [Hd|Hd].
  2:{ apply resolve_spec in Hd as [m ->]. by exists m. }
  destruct Hno. split; [done|]. destruct (q_scope body); naive_solver.
Qed.

(** The row of a valid request. *)
Lemma valid_request_row user now db body : valid_request db body →
  ∃ ttl programs target, validate_secret_id (q_secret body) = Answer tt ∧
    grant_ttl (q_scope body) (q_ttl_seconds body) = Answer ttl ∧
    grant_programs (q_scope body) (q_programs body) = Answer programs ∧
    resolve db (q_scope body) (q_pty body) = Answer target ∧
    asked_row user now db body (granted_row user now (q_secret body) target ttl programs).
Proof.
  intros [Hid Hs].
  assert (Hb : match q_scope body with Terminal => ∃ t, q_ttl_seconds body = Some t ∧ 60 ≤ t ≤ 24 * 60 * 60
               | _ => q_ttl_seconds body = None end) by (destruct (q_scope body); naive_solver).
  assert (Hc : match q_scope body with
               | AllTerminals => ∃ ps, q_programs body = Some ps ∧ ps ≠ [] ∧ ∀ p, p ∈ ps → command_name (trim p)
               | _ => q_programs body = None end) by (destruct (q_scope body); naive_solver).
  assert (Hd : match q_scope body with
               | Terminal => is_Some (q_pty body)
               | Repository => ∃ p repo, q_pty body = Some p ∧ registered_with db p repo
               | AllTerminals => True end) by (destruct (q_scope body); naive_solver).
  apply grant_ttl_spec in Hb as E2. destruct (proj1 (grant_programs_spec _ _) Hc) as (granted & E3 & Hp).
  destruct (proj1 (resolve_spec db _ _) Hd) as (target & E4 & Ht & Hsame).
  exists (q_ttl_seconds body), granted, target. split_and!; [by apply validate_secret_id_spec|done..|].
  unfold asked_row. cbn. split_and!; [done..|]. destruct (q_scope body); [destruct Hb as (t & Hb & _)|..]; rewrite Hb;
    destruct_and! Hsame; split_and!; try done. by exists t.
Qed.

(** C28. Unlocking, exactly. A request is valid when its secret id is made of
    letters, digits and the three marks, and: for a terminal, it names the
    terminal, expires within a minute to a day and names no programs; for a
    repository, it names a terminal registered with one and has no expiry and
    no programs; for all terminals, it has no expiry and names at least one
    program, each a plain command name. Any other is refused with 400. A valid
    one is answered whenever its secret exists, and refused only then: it
    leaves exactly one active grant for its secret and target, the row it
    asked for - with its user, its expiry and its programs, trimmed and each
    once - and the others as they were. *)
Theorem unlock_exact c user now id body db :
  broker_ok c db → grants db !! id = None →
  (¬ valid_request db body → ∃ m, unlock_grant user now id body db = Fault 400 m) ∧
  (valid_request db body → secrets db !! q_secret body = None →
     unlock_grant user now id body db = Fault 500 (library_error ForeignKeyViolation)) ∧
  (valid_request db body → is_Some (secrets db !! q_secret body) →
     ∃ db' g, unlock_grant user now id body db = Answer db' ∧ asked_row user now db body g ∧
       secrets db' = secrets db ∧ credentials db' = credentials db ∧
       ∀ gid h, grants db' !! gid = Some h ∧ active h ↔
         (gid = id ∧ h = g)
         ∨ (grants db !! gid = Some h ∧ active h ∧ ¬ (g_secret h = g_secret g ∧ target_of h = target_of g))).
Proof.
  intros Hok Hid. split; [by apply unlock_refused|].
  assert (Hv : valid_request db body → ∃ g, asked_row user now db body g ∧ g_secret g = q_secret body ∧
    let db1 := revoke_target now (target_of g) (g_secret g) db in
    unlock_grant user now id body db = match secrets db !! q_secret body with
                                       | Some _ => Answer (set_grants (<[id := g]> (grants db1)) db1)
                                       | None => internal (library_error ForeignKeyViolation)
                                       end).
  { intros (ttl & ps & target & E1 & E2 & E3 & E4 & Hasked)%(valid_request_row user now).
    eexists. split; [exact Hasked|]. split; [done|]. cbn zeta. rewrite target_of_granted.
    pose proof (insert_granted c now id _ db Hok Hid (granted_row_ok c db user now body ttl ps target Hok E2 E3 E4)) as Hins.
    cbn zeta in Hins. rewrite target_of_granted in Hins. unfold unlock_grant. rewrite E1, E2, E3, E4. exact Hins. }
  split; intros (g & Hasked & Es & Hu)%Hv Hsec; cbn zeta in Hu.
  - by rewrite Hsec in Hu.
  - destruct Hsec as [row Hsec]. rewrite Hsec in Hu. eexists _, g. split_and!; [exact Hu|done..|].
    apply unlocked_rows; [done|]. unfold active. by destruct Hasked as (_ & _ & _ & _ & ? & _).
Qed.

(** A credential that was registered without a repository, as a service's
    is, is never reached by a grant to a repository. *)
Lemma no_repository_no_grant now pty cr g : c_repo cr = None → reaches now pty cr g → g_scope g ≠ Repository.
Proof. unfold reaches. intros Hr. destruct (g_scope g); [done| |done]. rewrite Hr. by intros [[r ->] [=]]. Qed.

End guarantees.

(** ** The signed text *)

Definition line_feed : Ascii.ascii := Ascii.ascii_of_N 10.

Lemma pretty_N_line (n : N) : no_byte line_feed (pretty n) = true.
Proof.
  assert (Hgo : ∀ x s, no_byte line_feed s = true → no_byte line_feed (pretty_N_go x s) = true).
  { intros x. induction (N.lt_wf_0 x) as [x _ IH]. intros s Hs. destruct (decide (x = 0%N)) as [->|Hx].
    - by rewrite pretty_N_go_0.
    - rewrite pretty_N_go_step by lia. apply IH; [by apply N.div_lt; lia|].
      cbn [no_byte]. rewrite Hs. unfold pretty_N_char. by repeat case_match. }
  unfold pretty, pretty_N. case_decide; [done|]. by apply Hgo.
Qed.

Lemma pretty_Z_line (z : Z) : no_byte line_feed (pretty z) = true.
Proof. destruct z as [|p|p]; [done|apply (pretty_N_line (Npos p))|apply (pretty_N_line (Npos p))]. Qed.

(** A signature is for one request, as long as neither the name of the
    program nor the nonce holds a line feed: the verification does not ask
    that. *)
Theorem payload_injective `{UuidText} pty pty' program program' ts ts' nonce nonce' :
  (∀ u, no_byte line_feed (uuid_text u) = true) → (∀ u v, uuid_text u = uuid_text v → u = v) →
  no_byte line_feed program = true → no_byte line_feed program' = true →
  no_byte line_feed nonce = true → no_byte line_feed nonce' = true →
  canonical_use_payload pty program ts nonce = canonical_use_payload pty' program' ts' nonce' →
  pty = pty' ∧ program = program' ∧ ts = ts' ∧ nonce = nonce'.
Proof.
  intros Hline Hinj Hp Hp' Hn Hn' E.
  assert (Hj : ∀ u p t n, canonical_use_payload u p t n
            = join (String line_feed "") ["sulion-secret-use-v2"; uuid_text u; p; pretty t; n; ""]).
  { intros. unfold canonical_use_payload. cbn [join]. change newline with (String line_feed ""). by rewrite append_nil_r. }
  rewrite !Hj in E. apply (f_equal (split_char line_feed)) in E.
  rewrite !split_char_joined in E by (done || (repeat constructor; auto using pretty_Z_line)).
  injection E as Hu -> Ht ->. split_and!; [by apply Hinj|done|by apply (inj pretty)|done].
Qed.

(** Where they hold one, one signature is good for two requests, of another
    program and with another nonce. *)
Example payload_ambiguous `{UuidText} pty :
  canonical_use_payload pty ("gh" +:+ newline +:+ "1700000000") 1700000001 "nonce" =
  canonical_use_payload pty "gh" 1700000000 ("1700000001" +:+ newline +:+ "nonce").
Proof. unfold canonical_use_payload. rewrite !append_assoc. reflexivity. Qed.

(** A request stamped the least integer from the time is taken for fresh. *)
Theorem distant_request_fresh now : 0 ≤ now < 2 ^ 62 → stale (now + i64_min) now = false.
Proof. intros Hn. apply stale_false; [unfold in_i64, i64_min, i64_max; lia|done|by right]. Qed.

(** ** A concrete history *)

Fixpoint bit_text (p : positive) : string :=
  match p with xH => "" | xO p => String "0" (bit_text p) | xI p => String "1" (bit_text p) end.

Fixpoint of_bit_text (s : string) : positive :=
  match s with
  | EmptyString => xH
  | String c s => if Ascii.eqb c "1" then xI (of_bit_text s) else xO (of_bit_text s)
  end.

Lemma bit_text_read p : of_bit_text (bit_text p) = p.
Proof. by induction p as [p IH|p IH|]; cbn; rewrite ?IH. Qed.

(** A cipher that hides nothing, iteration in the order of the map, and the
    encoding with two letters for a byte. *)
#[export] Instance demo_libs : BrokerLibs := {|
  Cipher := string;
  new_cipher k := k;
  seal _ _ p := Some p;
  unseal _ _ t := Some t;
  env_json env := bit_text (countable.encode env);
  json_env t := countable.decode (of_bit_text t);
  hash_order env := map_to_list env;
  b64_decode := of_letters;
  library_error _ := "";
  debug_text s := s;
  collate a b := negb (string_ltb b a);
|}.

#[export] Instance demo_laws : BrokerLaws demo_libs demo_crypto.
Proof.
  constructor; cbn.
  - by intros c n p t [= <-].
  - intros env. by rewrite bit_text_read, countable.decode_encode.
  - done.
  - apply of_letters_letters.
Qed.

(** Two tokens, of two principals, both signed with the key of the set. *)
#[export] Instance demo_jwt : Jwt := {|
  DecodingKey := string;
  from_rsa_components n _ := Some n;
  Auth.decode_header _ := Some (RS256, Some "k");
  Auth.decode token key _ _ :=
    if bool_decide (key = "n") && bool_decide (token ∈ ["ann"; "bob"])
    then Some (mkClaims token 1800000000 1700000000 1700000000 None (Some "sulion") (Some "access") None None) else None;
|}.

#[export] Instance demo_order {A} : HeapOrder A.
Proof. refine {| heap_order l := l |}. done. Defined.

Definition demo_config : BrokerConfig := mkBrokerConfig (mkAuthConfig "https://issuer" "sulion") "key" "machine".

Definition demo_moment (i : Z) : Moment :=
  mkMoment (mkReading (i * 1000000) (i * 1000000) (1700000100 + i) (Jwks [mkJwk (Some "k") "RSA" "n" "e"]))
    ((1700000100 + i) * 1000000) (Z.to_N i) "twelve bytes".

Definition from_ann (i : Z) (r : Request) : Event := (demo_moment i, Some "Bearer ann", r).
Definition from_node (i : Z) (r : Request) : Event := (demo_moment i, Some "Bearer machine", r).

Definition demo_body (value : string) : SecretEnvelope :=
  SecretBroker.mkEnvelope "token" "global" None {["GH_TOKEN" := value; "GH_HOST" := "github.com"]}.

(** A terminal of a repository; a token for reading that is unlocked for
    [gh] everywhere, and one for writing that is unlocked for the terminal. *)
Definition demo_history : list Event :=
  [from_node 1 (RegisterPtyCredential (mkRegister 7 (letters (demo_key true)) (Some "sulion")));
   from_ann 2 (UpsertSecret "gh-read" (demo_body "read"));
   from_ann 3 (UnlockGrant (mkGrantRequest None "gh-read" None AllTerminals (Some [" gh "; "gh"])));
   from_ann 4 (UpsertSecret "gh-write" (SecretBroker.mkEnvelope "token" "global" None {["GH_TOKEN" := "write"]}));
   from_ann 5 (UnlockGrant (mkGrantRequest (Some 7%N) "gh-write" (Some 600) Terminal None))].

Definition demo_request (now : Z) (random : string) : SignedUseSecretRequest := sign true 7 "gh" now random.

Definition demo_use (i : Z) (random : string) : Event :=
  (demo_moment i, None, UseSecret (demo_request (1700000100 + i) random)).

(** The explicit grant replaces one variable and leaves the other. *)
Definition demo_env : gmap string string := {["GH_TOKEN" := "write"; "GH_HOST" := "github.com"]}.

Example demo_redeemed :
  (serve demo_config (demo_moment 6) None (UseSecret (demo_request 1700000106 "r1"))
     (run_broker demo_config demo_history new_broker)).2 = mkResponse 200 (EnvBody demo_env).
Proof. vm_compute. reflexivity. Qed.

(** Two secrets for all terminals with one variable: answered while the
    terminal's own grant has it too, refused once that one has expired. *)
Definition demo_rivals : list Event :=
  demo_history ++
  [from_ann 6 (UpsertSecret "gh-other" (SecretBroker.mkEnvelope "token" "global" None {["GH_TOKEN" := "other"]}));
   from_ann 6 (UnlockGrant (mkGrantRequest None "gh-other" None AllTerminals (Some ["gh"])))].

Example demo_outranked :
  (serve demo_config (demo_moment 7) None (UseSecret (demo_request 1700000107 "r1"))
     (run_broker demo_config demo_rivals new_broker)).2 = mkResponse 200 (EnvBody demo_env) ∧
  status (serve demo_config (demo_moment 800) None (UseSecret (demo_request 1700000900 "r2"))
     (run_broker demo_config demo_rivals new_broker)).2 = 400.
Proof. vm_compute. done. Qed.

(** Ten minutes later the grant of the terminal has expired. *)
Example demo_expired :
  (serve demo_config (demo_moment 700) None (UseSecret (demo_request 1700000800 "r2"))
     (run_broker demo_config demo_history new_broker)).2
  = mkResponse 200 (EnvBody {["GH_TOKEN" := "read"; "GH_HOST" := "github.com"]}).
Proof. vm_compute. reflexivity. Qed.

Lemma demo_draws : Forall draws demo_history.
Proof. repeat constructor. Qed.

Lemma redemption_traced_witness :
  (serve demo_config (demo_moment 6) None (UseSecret (demo_request 1700000106 "r1"))
     (run_broker demo_config demo_history new_broker)).2 = mkResponse 200 (EnvBody demo_env)
  ∧ ∃ cr g (vars : gmap string string),
      traced demo_config demo_history (registered demo_config 7 cr) (deregistered demo_config 7)
      ∧ traced demo_config demo_history (granted demo_config g) (withdrawn demo_config g)
      ∧ reaches 1700000106000000 7 cr g ∧ names_program "gh" g ∧ vars !! "GH_HOST" = Some "github.com".
Proof.
  split; [exact demo_redeemed|].
  destruct (redemption_traced demo_config demo_history (demo_use 6 "r1") (demo_request 1700000106 "r1") demo_env
              demo_draws eq_refl demo_redeemed) as (cr & key & sg & Hcr & _ & _ & _ & Hall).
  destruct (Hall "GH_HOST" "github.com") as (g & vars & Hg & Hr & Hn & _ & Hv & _); [by vm_compute|].
  exists cr, g, vars. exact (conj Hcr (conj Hg (conj Hr (conj Hn Hv)))).
Defined.

Lemma demo_honoured :
  honoured (run_broker demo_config demo_history new_broker) (demo_use 6 "r1") (demo_request 1700000106 "r1").
Proof. split; [done|]. vm_compute. reflexivity. Qed.

Lemma redemption_exact_witness :
  honoured (run_broker demo_config demo_history new_broker) (demo_use 6 "r1") (demo_request 1700000106 "r1")
  ∧ ∀ k v, demo_env !! k = Some v ↔
      ∃ id, supplies (b_cipher demo_config) 1700000106000000 7 "gh" (b_db (run_broker demo_config demo_history new_broker)) id k v.
Proof.
  split; [exact demo_honoured|].
  pose proof (redemption_exact demo_config demo_history (demo_use 6 "r1") _ demo_draws demo_honoured) as Hex.
  assert (Ha : (serve demo_config (demo_use 6 "r1").1.1 (demo_use 6 "r1").1.2 (demo_use 6 "r1").2
                  (run_broker demo_config demo_history new_broker)).2 = mkResponse 200 (EnvBody demo_env))
    by exact demo_redeemed.
  exact (proj1 (proj2 (proj1 (proj2 (proj2 (proj2 Hex))) demo_env Ha))).
Defined.

(** The same nonce is accepted again once it is forgotten, with another
    timestamp. *)
Lemma use_not_replayed_witness :
  honoured (run_broker demo_config (demo_history ++ [demo_use 6 "r1"]) new_broker) (demo_use 400 "r1")
    (demo_request 1700000500 "r1")
  ∧ x_timestamp (demo_request 1700000106 "r1") ≠ x_timestamp (demo_request 1700000500 "r1").
Proof.
  assert (Hh2 : honoured (run_broker demo_config (demo_history ++ [demo_use 6 "r1"]) new_broker) (demo_use 400 "r1")
            (demo_request 1700000500 "r1")) by (split; [done|]; vm_compute; reflexivity).
  split; [exact Hh2|].
  apply (use_not_replayed demo_config demo_history (demo_use 6 "r1") [] (demo_use 400 "r1")
           (demo_request 1700000106 "r1") (demo_request 1700000500 "r1")).
  - repeat constructor; vm_compute; done.
  - split; vm_compute; [split|]; done.
  - split; vm_compute; [split|]; done.
  - split; vm_compute; done.
  - exact demo_honoured.
  - exact Hh2.
  - reflexivity.
  - reflexivity.
Defined.

(** The backend ends the logins of one principal: its token is refused from
    then on, the other's is not. *)
Definition demo_end : Event := from_node 10 (RevokeBrowserPrincipal "ann").

Example demo_ended :
  ((λ r, status (serve demo_config (demo_moment 11) (Some ("Bearer " +:+ r)) ListSecrets
                   (run_broker demo_config (demo_history ++ [demo_end]) new_broker)).2) <$> ["ann"; "bob"]) = [401; 200].
Proof. vm_compute. reflexivity. Qed.

Lemma login_ended_witness :
  ends_logins demo_config (run_broker demo_config demo_history new_broker) demo_end "ann"
  ∧ ∀ e2 user,
      signed_in demo_config (run_broker demo_config (demo_history ++ [demo_end]) new_broker) e2 user →
      u_sub user = "ann" → 1700000110 < u_auth_time user.
Proof.
  assert (He : ends_logins demo_config (run_broker demo_config demo_history new_broker) demo_end "ann")
    by (split; [vm_compute; done|]; left; split; vm_compute; reflexivity).
  split; [exact He|]. exact (proj1 (login_ended demo_config demo_history demo_end [] "ann" He)).
Defined.

(** A request for two programs, one of them twice, that is granted, and one
    that lasts too short and is refused. *)
Definition demo_unlock : GrantRequest := mkGrantRequest None "gh-read" None AllTerminals (Some [" gh"; "git"; "gh "]).
Definition demo_brief : GrantRequest := mkGrantRequest (Some 7%N) "gh-read" (Some 59) Terminal None.

Lemma demo_unlock_valid db : valid_request db demo_unlock.
Proof.
  split; [split; [done|]|split; [done|]].
  - apply Forall_forall, (bool_decide_eq_true_1 (Forall _ _)). vm_compute. reflexivity.
  - eexists. split_and!; [reflexivity|done|]. intros p Hp. apply command_name_spec. revert p Hp.
    apply Forall_forall. vm_compute. repeat constructor.
Qed.

Lemma unlock_exact_witness :
  is_some (secrets (b_db (run_broker demo_config demo_history new_broker)) !! "gh-read") = true
  ∧ (∃ db' g, unlock_grant dev 5 99 demo_unlock (b_db (run_broker demo_config demo_history new_broker)) = Answer db'
       ∧ asked_row dev 5 (b_db (run_broker demo_config demo_history new_broker)) demo_unlock g)
  ∧ ∃ m, unlock_grant dev 5 99 demo_brief (b_db (run_broker demo_config demo_history new_broker)) = Fault 400 m.
Proof.
  assert (Hs : is_some (secrets (b_db (run_broker demo_config demo_history new_broker)) !! "gh-read") = true)
    by (vm_compute; reflexivity).
  assert (Hn : grants (b_db (run_broker demo_config demo_history new_broker)) !! 99%N = None) by (vm_compute; reflexivity).
  split; [exact Hs|]. split.
  - destruct (proj2 (proj2 (unlock_exact (b_cipher demo_config) dev 5 99 demo_unlock (b_db (run_broker demo_config demo_history new_broker))
                (run_ok demo_config demo_history demo_draws) Hn)) (demo_unlock_valid _)) as (db' & g & Hu & Hg & _).
    + destruct (secrets _ !! "gh-read"); [by eexists|discriminate Hs].
    + exact (ex_intro _ db' (ex_intro _ g (conj Hu Hg))).
  - apply (unlock_exact (b_cipher demo_config) dev 5 99 demo_brief (b_db (run_broker demo_config demo_history new_broker))
             (run_ok demo_config demo_history demo_draws) Hn).
    intros (_ & (ttl & [= <-] & Ht & _) & _). by apply Ht.
Defined.
